(* ===== verification/_CoqProject ===== *)
-Q . S2P
Prelude.v
BTreeMap.v
Height.v
Difficulty.v
CheckpointList.v
Amount.v
Serialization.v
Codec.v
ValueBalance.v
Network.v
Testnet.v
Subsidy.v
Transaction.v
Merkle.v
BlockHeader.v
TransparentCodec.v
ShieldedCodec.v
TransactionCodec.v
Sighash.v
Unmined.v
Reversible.v
Script.v
Transfers.v
TreeIndex.v
Ledger.v
SpendChecks.v
TxChecks.v
TxVerifier.v
BlockVerifier.v
Issuance.v
CheckpointVerifier.v
DifficultyAdjustment.v
ContextChecks.v
Chain.v
Anchors.v
NonFinalized.v
ChainTip.v
MempoolDeps.v
EvictionList.v
VerifiedSet.v
MempoolStorage.v
MempoolInvariant.v
Mempool.v
MempoolService.v
DiskFormat.v
DiskDb.v
FinalizedDb.v
TransparentIndex.v
ChainIndex.v
ShieldedIndex.v
FinalizedInvariant.v
FinalizedState.v
FinalizedReads.v
