(* ===== verification/Prelude.v ===== *)
(** * Verification of the Zebra Zcash node

    Zebra ([src/]) is a full node of the Zcash network. A block that arrives from a peer is decoded, goes through a block
    verifier, which sends its transactions to the transaction verifier, and is then submitted to the state: a set of
    candidate chains above the database of finalized blocks. The state reports its best tip to the mempool, which downloads,
    verifies and stores the transactions that are not yet in a block. This library is a shallow embedding of these paths in Rocq,
    with the theorems that make it correct. A definition has the name of the Rust item it
    translates, where Rocq and the other definitions allow it; the comment at the top of a file names the source files.

    ** Conventions

    - A function that may fail is a [Res E A]: [Ok], [Err] with the error of the source, or [Panic] for [expect],
      [unwrap], [assert!], [unreachable!] and indexing. A function that can only panic is a [Run A].
    - An integer is a [Z] with the bounds of its machine type ([IntTy]). Arithmetic that the source does not check wraps
      around, as in the release profile; [usize] has 64 bits.
    - A [BTreeMap] is a sorted association list ([BTreeMap.v]), a [HashMap] or [HashSet] a [gmap] or [gset], a hash or a
      byte string a list of [Z], an [Arc] its content. Code for tests, and code behind [zcash_unstable], is left out.
    - State is passed explicitly. Tasks that run concurrently are a list of their results; where
      their order could matter it is an argument, and the theorems hold for every order.
    - Third-party code is an argument: the classes [Literals] (address literals), [HashFns] (SHA-256d and BLAKE2b),
      [CurveLib] (decoding of points), [LibRustZcash] and [SighashLib] (transactions and digests of librustzcash),
      [ScriptLib] (the script interpreter), [VerifierLib] (proofs, signatures, trial decryption), [NoteTree]
      (note commitment trees), [ScriptParser], [ChainEnv], [BlockEnv], [HashOrder] (the order in which a hash map is visited),
      [Sampler] (the random choice of an eviction), [PolicyLib] (the script templates of the mempool policy), [RocksDb] (the
      iterator of the key-value store) and [EmptyTrees]; what the theorems assume of them is in the classes [CurveLaws],
      [SighashLaws], [ScriptLaws], [SigopLaws], [ScriptParserLaws], [ChainEnvLaws], [HashOrderLaws], [SamplerLaws] and
      [RocksDbLaws], or is a hypothesis, and samples show that the assumptions can hold. What the non-finalized state reads of
      the database is the record [ZebraDb].

    ** Files

    Basics. [Prelude] has outcomes, integers and generic lemmas, [BTreeMap] the maps, [Reversible] the
    updates with a revert, [Serialization] and [Codec] the serialization traits of [zebra-chain/src/serialization] and combinators for
    codecs: an encoder, a decoder and the values that they map one to one.

    Consensus data of [zebra-chain]. [Height] ([block/height.rs]), [Amount] ([amount.rs]), [ValueBalance]
    ([value_balance.rs]), [Difficulty] ([work/difficulty.rs]), [CheckpointList] ([parameters/checkpoint/list.rs]), [Network]
    and [Testnet] ([parameters/network_upgrade.rs], [parameters/network.rs], [parameters/network/testnet.rs]), [Subsidy]
    ([parameters/network/subsidy.rs]), [Transaction] ([transaction.rs], [transparent.rs], [block.rs] and the shielded data),
    [Merkle] ([block/merkle.rs]), [BlockHeader] ([block/header.rs], [block/commitment.rs], [work/equihash.rs]).

    Encodings. [TransparentCodec], [ShieldedCodec] and [TransactionCodec] are the wire encodings of transactions and
    blocks; [Sighash] has identifiers and signature hashes ([transaction/txid.rs], [transaction/sighash.rs],
    [primitives/zcash_primitives.rs]); [Unmined] the fee rules of ZIP 317 ([transaction/unmined.rs]).

    Semantic verification. [Script] is [zebra-script/src/lib.rs] and the script verifier, [TxChecks] and [TxVerifier] are
    [zebra-consensus/src/transaction/check.rs] and [transaction.rs], [BlockVerifier] is [block/check.rs] and [block.rs], and
    [CheckpointVerifier] is [checkpoint.rs] with the router of [router.rs]. [Issuance] composes the
    verifiers with the chain value pools of the state.

    State, in [zebra-state/src/service]. [Transfers], [TreeIndex] and [Ledger] are the indexes of a chain
    ([non_finalized_state/chain.rs] and [chain/index.rs]), [Chain] is the chain, [NonFinalized] the set of chains
    ([non_finalized_state.rs]); [SpendChecks], [DifficultyAdjustment], [ContextChecks] and [Anchors] are the contextual
    checks of [check.rs] and [check/]. [ChainTip] is the channel that reports the best tip ([chain_tip.rs]).

    Finalized state, in [zebra-state/src/service/finalized_state]. [DiskFormat] has the bytes of keys and values ([disk_format.rs] and
    [disk_format/]), [DiskDb] the column families, their reads, writes and ordered iteration ([disk_db.rs]), [FinalizedDb] the
    database with the batch of a block, the reads ([zebra_db/]) and the commit ([finalized_state.rs]). [TransparentIndex],
    [ChainIndex] and [ShieldedIndex] say what the column families of outputs and addresses, of blocks and transactions, and of
    nullifiers and trees hold for a chain of blocks; [FinalizedInvariant] shows that writing a block keeps this, [FinalizedState]
    has the theorems on commits and [FinalizedReads] those on reads.

    Mempool, in [zebrad/src/components/mempool] unless noted. [MempoolDeps] is the graph of dependencies between its transactions
    ([zebra-node-services/src/mempool/transaction_dependencies.rs]), [EvictionList] the list of evicted identifiers
    ([storage/eviction_list.rs]), [VerifiedSet] the verified transactions ([storage/verified_set.rs], [pending_outputs.rs]),
    [MempoolStorage] the storage with its policy ([storage.rs], [storage/policy.rs]) and [MempoolInvariant] its
    theorems; [Mempool] is the service ([mempool.rs], [downloads.rs]) and [MempoolService] its theorems.

    ** What the theorems show

    - Encodings: transactions and blocks of every supported version have exactly one encoding, reading never panics, and the
      limits on allocations never reject what fits in a block ([TransactionCodec]).
    - Verifiers: the block verifier accepts exactly the blocks that satisfy the block rules, the transaction verifier accepts
      only transactions that satisfy the rules of transactions with valid scripts and exact fees, in every order
      of the concurrent checks. With the subsidies this bounds the value of the pools by 21 million ZEC ([Issuance]).
    - Checkpoints: the checkpoint verifier never fails an assertion, verifies exactly the blocks of the chain of its
      checkpoints in order, makes progress when these blocks are queued, whatever else is queued, and agrees with the semantic verifier.
    - State: whatever is pushed, finalized, forked or invalidated, the indexes of a chain, but for its subtrees, are those of its blocks,
      no output or nullifier is spent twice, and the set of chains stays a set of distinct chains of at most the limit, with the
      best one on top, after commits, finalizations, reconsiderations, and invalidations of a block from whose parent no other chain
      goes on. That the operations that remove blocks return needs that the blocks of a chain move at most the supply at each
      address ([transfers_bounded]), which no check establishes. The contextual checks accept exactly what the protocol
      specification asks for, but for the mean target at height 17, where the theorems say what the code computes.
    - Finalized state: the formats of the keys keep their order and are read back; on every database that commits lead to, the
      commit of a valid block does not panic and leaves every column family with the data of the chain with this block, or
      returns the error of the value pools and writes nothing, if no balance counted before the spends of the block exceeds the supply
      ([balances_fit], which no check establishes either; otherwise the commit panics); the reads answer with the data of the
      chain ([FinalizedState], [FinalizedReads]).
    - Chain tip, with one sender: a reader of the channel gets a growth exactly when the new tip is the child of the last one it saw with no
      upgrade in between, and otherwise a reset.
    - Mempool: the storage holds no conflicting transactions, never exceeds its limits, keeps its indexes and the graph
      of dependencies equal to what its transactions give; a block that grows the tip removes its transactions without their
      dependents, and the conflicting ones with theirs; the service holds only transactions that the transaction verifier accepted at a tip it has not left.
    - Arithmetic: amounts, difficulties, subsidies and schedules compute their specifications, without overflow.
    - The theorems that describe a defect of the code say so in their comment.

    ** Fuel

    The loops that are not structural have fuel: [activation_height] the number of upgrades, [fork_loop] the number of blocks
    of the chain, the loops of the Merkle roots the number of hashes, [remove_levels] two more than the number of
    transactions with dependents, [prune_loop] the length of the list, [evict_loop] the number of transactions stored,
    [address_utxo_locations_from] one more than the number of entries of the column family. The theorems
    show that it does not run out ([Network.upgrade_schedule], [Chain.removals_total], [Merkle.merkle_roots_total],
    [MempoolDeps.remove_all_exact], [EvictionList], [MempoolInvariant.insert_exact], [FinalizedReads.address_reads_exact]).

    ** Not modelled

    Cryptography (parameters, as above); the RocksDB library, opening, upgrading and closing the database, and the encodings of its
    values that are those of other parts; the queues, the write task and the asynchronous services around the state; the peer-to-peer network, the RPC server and the node's processes, which are I/O and
    scheduling around the modelled parts; metrics, logs and the text of errors; hex and serde conversions. *)

From Stdlib Require Export ZArith Lia.
From stdpp Require Export gmultiset.
From stdpp Require Export base numbers list option sorting gmap.

#[global] Open Scope Z_scope.

(** ** Outcomes of Rust functions

    [Res E A] is the outcome of a Rust function that returns [Result<A, E>]
    and that may also panic ([expect], [assert!], [unreachable!], indexing).
    A function that returns a plain value but may panic has the error type
    [Empty_set], written [Run A]. *)

Inductive Res (E A : Type) : Type :=
| Ok (a : A)
| Err (e : E)
| Panic.
Arguments Ok {E A} a.
Arguments Err {E A} e.
Arguments Panic {E A}.

Abbreviation Run := (Res Empty_set).

#[export] Instance Res_ret E : MRet (Res E) := fun A a => Ok a.
#[export] Instance Res_bind E : MBind (Res E) := fun A B f r =>
  match r with
  | Ok a => f a
  | Err e => Err e
  | Panic => Panic
  end.
#[export] Instance Res_fmap E : FMap (Res E) := fun A B f r =>
  match r with
  | Ok a => Ok (f a)
  | Err e => Err e
  | Panic => Panic
  end.

(** [Option::expect] and [Option::unwrap]. *)
Definition expect {E A} (o : option A) : Res E A :=
  match o with Some a => Ok a | None => Panic end.

(** [Result::expect] and [Result::unwrap]. *)
Definition expect_ok {E F A} (r : Res E A) : Res F A :=
  match r with Ok a => Ok a | _ => Panic end.

(** [Option::ok_or]. *)
Definition ok_or {E A} (o : option A) (e : E) : Res E A :=
  match o with Some a => Ok a | None => Err e end.

(** [Result::map_err]. *)
Definition map_err {E F A} (f : E → F) (r : Res E A) : Res F A :=
  match r with Ok a => Ok a | Err e => Err (f e) | Panic => Panic end.

(** A panicking computation without errors, used where errors are possible. *)
Definition lift {E A} (r : Run A) : Res E A :=
  match r with Ok a => Ok a | Err e => match e with end | Panic => Panic end.

(** [assert!] *)
Definition assert {E} (b : bool) : Res E unit := if b then Ok tt else Panic.

Definition is_ok {E A} (r : Res E A) : bool :=
  match r with Ok _ => true | _ => false end.

(** The value of a result, with a default. *)
Definition ok_value {E A} (d : A) (r : Res E A) : A := match r with Ok a => a | _ => d end.

Definition no_panic {E A} (r : Res E A) : Prop := r ≠ Panic.

#[export] Instance Res_eq_dec {E A} `{EqDecision E, EqDecision A} : EqDecision (Res E A).
Proof. solve_decision. Defined.

Lemma Ok_bind {E A B} (a : A) (k : A → Res E B) : Ok a ≫= k = k a.
Proof. done. Qed.

Lemma ok_value_eq {E A} (d : A) (r : Res E A) : is_ok r = true → r = Ok (ok_value d r).
Proof. by destruct r. Qed.

Lemma bind_Ok {E A B} (r : Res E A) (f : A → Res E B) b :
  (r ≫= f) = Ok b ↔ ∃ a, r = Ok a ∧ f a = Ok b.
Proof. destruct r; cbn; naive_solver. Qed.

Lemma bind_Err {E A B} (r : Res E A) (f : A → Res E B) e :
  (r ≫= f) = Err e ↔ r = Err e ∨ ∃ a, r = Ok a ∧ f a = Err e.
Proof. destruct r; cbn; naive_solver. Qed.

Lemma bind_Panic {E A B} (r : Res E A) (f : A → Res E B) :
  (r ≫= f) = Panic ↔ r = Panic ∨ ∃ a, r = Ok a ∧ f a = Panic.
Proof. destruct r; cbn; naive_solver. Qed.

Lemma map_err_Ok {E F A} (f : E → F) (r : Res E A) a : map_err f r = Ok a ↔ r = Ok a.
Proof. destruct r; cbn; naive_solver. Qed.

Lemma map_err_Panic {E F A} (f : E → F) (r : Res E A) : map_err f r = Panic ↔ r = Panic.
Proof. destruct r; cbn; naive_solver. Qed.

Lemma lift_Ok {E A} (r : Run A) a : lift (E := E) r = Ok a ↔ r = Ok a.
Proof. destruct r as [|[]|]; cbn; naive_solver. Qed.

Lemma fmap_Ok {E A B} (f : A → B) (r : Res E A) b :
  f <$> r = Ok b ↔ ∃ a, r = Ok a ∧ b = f a.
Proof. destruct r; cbn; naive_solver. Qed.

Lemma no_panic_bind {E A B} (r : Res E A) (f : A → Res E B) :
  no_panic r → (∀ a, r = Ok a → no_panic (f a)) → no_panic (r ≫= f).
Proof. unfold no_panic. destruct r; cbn; naive_solver. Qed.

Lemma no_panic_map_err {E F A} (f : E → F) (r : Res E A) :
  no_panic r → no_panic (map_err f r).
Proof. unfold no_panic. destruct r; cbn; naive_solver. Qed.

(** ** Machine integers

    Integers are [Z]; a type of integers is its least and greatest value.
    Unchecked arithmetic wraps around, as it does in the release profile of
    [Cargo.toml], which does not enable [overflow-checks]. *)

Record IntTy := { ty_min : Z; ty_max : Z }.

Definition U8 : IntTy := {| ty_min := 0; ty_max := 2 ^ 8 - 1 |}.
Definition U16 : IntTy := {| ty_min := 0; ty_max := 2 ^ 16 - 1 |}.
Definition U32 : IntTy := {| ty_min := 0; ty_max := 2 ^ 32 - 1 |}.
Definition U64 : IntTy := {| ty_min := 0; ty_max := 2 ^ 64 - 1 |}.
Definition U128 : IntTy := {| ty_min := 0; ty_max := 2 ^ 128 - 1 |}.
Definition I32 : IntTy := {| ty_min := - 2 ^ 31; ty_max := 2 ^ 31 - 1 |}.
Definition I64 : IntTy := {| ty_min := - 2 ^ 63; ty_max := 2 ^ 63 - 1 |}.
Definition I128 : IntTy := {| ty_min := - 2 ^ 127; ty_max := 2 ^ 127 - 1 |}.

(** The values of the type. *)
Definition fits (t : IntTy) (z : Z) : bool := (ty_min t <=? z) && (z <=? ty_max t).

(** Two's complement wrap-around into the type. *)
Definition wrap (t : IntTy) (z : Z) : Z :=
  (z - ty_min t) `mod` (ty_max t - ty_min t + 1) + ty_min t.

(** [T::try_from], and the result of [checked_add] and the like on the exact value. *)
Definition try_from (t : IntTy) (z : Z) : option Z := if fits t z then Some z else None.

Definition checked_add (t : IntTy) (a b : Z) : option Z := try_from t (a + b).
Definition checked_sub (t : IntTy) (a b : Z) : option Z := try_from t (a - b).
Definition checked_mul (t : IntTy) (a b : Z) : option Z := try_from t (a * b).
(** Rust's integer division truncates; it fails on a zero divisor and on overflow. *)
Definition checked_div (t : IntTy) (a b : Z) : option Z :=
  if b =? 0 then None else try_from t (Z.quot a b).

Lemma fits_spec t z : fits t z = true ↔ ty_min t ≤ z ≤ ty_max t.
Proof. unfold fits. lia. Qed.

Lemma try_from_Some t z v : try_from t z = Some v ↔ v = z ∧ fits t z = true.
Proof. unfold try_from. destruct (fits t z); naive_solver. Qed.

Lemma try_from_None t z : try_from t z = None ↔ fits t z = false.
Proof. unfold try_from. destruct (fits t z); naive_solver. Qed.

Lemma try_from_fits t z : fits t z = true → try_from t z = Some z.
Proof. unfold try_from. by intros ->. Qed.

Lemma wrap_fits t z : fits t z = true → wrap t z = z.
Proof. rewrite fits_spec. intros ?. unfold wrap. rewrite Z.mod_small; lia. Qed.

Lemma wrap_range t z : ty_min t ≤ ty_max t → fits t (wrap t z) = true.
Proof.
  intros ?. apply fits_spec. unfold wrap.
  pose proof (Z.mod_pos_bound (z - ty_min t) (ty_max t - ty_min t + 1)). lia.
Qed.

(** ** Bytes

    A byte is a [Z] between 0 and 255; byte strings are lists of bytes. *)

Definition is_byte (b : Z) : bool := (0 <=? b) && (b <? 256).

(** The [n] low bytes of [z], least significant first ([to_le_bytes]). *)
Fixpoint le_bytes (n : nat) (z : Z) : list Z :=
  match n with
  | O => []
  | S n => z `mod` 256 :: le_bytes n (z `div` 256)
  end.

(** The unsigned value of a little-endian byte string ([from_le_bytes]). *)
Fixpoint of_le_bytes (bs : list Z) : Z :=
  match bs with
  | [] => 0
  | b :: bs => b + 256 * of_le_bytes bs
  end.

(** Big-endian forms. *)
Definition be_bytes (n : nat) (z : Z) : list Z := reverse (le_bytes n z).
Definition of_be_bytes (bs : list Z) : Z := of_le_bytes (reverse bs).

Definition bytes_ok (bs : list Z) : Prop := Forall (λ b, is_byte b = true) bs.

Lemma length_le_bytes n z : length (le_bytes n z) = n.
Proof. revert z; induction n; intros; cbn; auto. Qed.

Lemma le_bytes_ok n z : bytes_ok (le_bytes n z).
Proof.
  unfold bytes_ok. revert z; induction n as [|n IH]; intros z; cbn; constructor; auto.
  unfold is_byte. pose proof (Z.mod_pos_bound z 256). lia.
Qed.

Lemma pow256_succ n : 256 ^ Z.of_nat (S n) = 256 * 256 ^ Z.of_nat n.
Proof. rewrite Nat2Z.inj_succ, Z.pow_succ_r by lia. done. Qed.

Lemma of_le_bytes_range bs :
  bytes_ok bs → 0 ≤ of_le_bytes bs < 256 ^ Z.of_nat (length bs).
Proof.
  induction 1 as [|b bs Hb _ IH]; [cbn; lia|].
  unfold is_byte in Hb. cbn [length of_le_bytes]. rewrite pow256_succ. lia.
Qed.

Lemma of_le_bytes_le_bytes n z : of_le_bytes (le_bytes n z) = z `mod` 256 ^ Z.of_nat n.
Proof.
  revert z; induction n as [|n IH]; intros z; cbn [le_bytes of_le_bytes].
  { by rewrite Z.mod_1_r. }
  rewrite IH, pow256_succ, Z.rem_mul_r by lia. done.
Qed.

Lemma le_bytes_of_le_bytes bs : bytes_ok bs → le_bytes (length bs) (of_le_bytes bs) = bs.
Proof.
  induction 1 as [|b bs Hb _ IH]; [done|].
  unfold is_byte in Hb. cbn [length of_le_bytes le_bytes].
  rewrite Z.mul_comm, Z.mod_add, Z.div_add, (Z.mod_small b), (Z.div_small b) by lia.
  by rewrite Z.add_0_l, IH.
Qed.

(** [le_bytes] only sees its argument modulo [256 ^ n]. *)
Lemma le_bytes_mod n z : le_bytes n (z `mod` 256 ^ Z.of_nat n) = le_bytes n z.
Proof.
  rewrite <- of_le_bytes_le_bytes. rewrite <- (length_le_bytes n z) at 1.
  apply le_bytes_of_le_bytes, le_bytes_ok.
Qed.

Lemma of_le_bytes_app bs cs :
  of_le_bytes (bs ++ cs) = of_le_bytes bs + 256 ^ Z.of_nat (length bs) * of_le_bytes cs.
Proof.
  induction bs as [|b bs IH]; [cbn; lia|].
  cbn [app length of_le_bytes]. rewrite IH, pow256_succ. lia.
Qed.

Lemma of_be_bytes_be_bytes n z : of_be_bytes (be_bytes n z) = z `mod` 256 ^ Z.of_nat n.
Proof. unfold of_be_bytes, be_bytes. rewrite reverse_involutive. apply of_le_bytes_le_bytes. Qed.

Lemma of_be_bytes_small n z : 0 ≤ z < 256 ^ Z.of_nat n → of_be_bytes (be_bytes n z) = z.
Proof. intros Hz. rewrite of_be_bytes_be_bytes. by apply Z.mod_small. Qed.

Lemma be_bytes_of_be_bytes bs : bytes_ok bs → be_bytes (length bs) (of_be_bytes bs) = bs.
Proof.
  intros H. unfold of_be_bytes, be_bytes. rewrite <- (length_reverse bs).
  rewrite le_bytes_of_le_bytes; [apply reverse_involutive|].
  unfold bytes_ok in *. by rewrite Forall_reverse.
Qed.

(** The order of byte strings, [Ord] of slices and arrays of [u8]. *)
Fixpoint bytes_cmp (a b : list Z) : comparison :=
  match a, b with
  | [], [] => Eq
  | [], _ => Lt
  | _, [] => Gt
  | x :: a, y :: b => match x ?= y with Eq => bytes_cmp a b | c => c end
  end.

Lemma bytes_cmp_Eq a b : bytes_cmp a b = Eq ↔ a = b.
Proof.
  revert b. induction a as [|x a IH]; intros [|y b]; cbn; try done.
  destruct (Z.compare_spec x y) as [->| |]; [rewrite IH; naive_solver|naive_solver lia..].
Qed.

Lemma bytes_cmp_antisym a b : bytes_cmp b a = CompOpp (bytes_cmp a b).
Proof.
  revert b. induction a as [|x a IH]; intros [|y b]; cbn; try done.
  rewrite (Z.compare_antisym x y). destruct (x ?= y); cbn; auto.
Qed.

Lemma bytes_cmp_trans a b c : bytes_cmp a b = Lt → bytes_cmp b c = Lt → bytes_cmp a c = Lt.
Proof.
  revert b c. induction a as [|x a IH]; intros [|y b] [|z c]; cbn; try done.
  destruct (Z.compare_spec x y), (Z.compare_spec y z); try done; destruct (Z.compare_spec x z); try lia; try done.
  apply IH.
Qed.

Lemma bytes_cmp_le_trans a b c : bytes_cmp a b ≠ Gt → bytes_cmp b c ≠ Gt → bytes_cmp a c ≠ Gt.
Proof.
  destruct (bytes_cmp a b) eqn:Ha, (bytes_cmp b c) eqn:Hb; intros; try done.
  - apply bytes_cmp_Eq in Ha as ->. by rewrite Hb.
  - apply bytes_cmp_Eq in Ha as ->. by rewrite Hb.
  - apply bytes_cmp_Eq in Hb as ->. by rewrite Ha.
  - by rewrite (bytes_cmp_trans a b c).
Qed.

(** Two's complement: an unsigned value of [n] bytes read as a signed one. *)
Definition to_signed (n : nat) (z : Z) : Z :=
  if 2 * z <? 256 ^ Z.of_nat n then z else z - 256 ^ Z.of_nat n.

Definition i64_of_le_bytes (bs : list Z) : Z := to_signed 8 (of_le_bytes bs).

Lemma i64_le_bytes_roundtrip z : fits I64 z = true → i64_of_le_bytes (le_bytes 8 z) = z.
Proof.
  rewrite fits_spec. cbn [ty_min ty_max I64]. intros Hz. unfold i64_of_le_bytes, to_signed.
  rewrite of_le_bytes_le_bytes. change (256 ^ Z.of_nat 8) with (2 ^ 64).
  destruct (Z.ltb_spec (2 * (z `mod` 2 ^ 64)) (2 ^ 64)) as [H|H];
    destruct (Z_lt_le_dec z 0).
  - rewrite <- (Z.mod_add z 1), Z.mod_small in H by lia. lia.
  - apply Z.mod_small. lia.
  - rewrite <- (Z.mod_add z 1), Z.mod_small by lia. lia.
  - rewrite Z.mod_small in H by lia. lia.
Qed.

Lemma i64_of_le_bytes_fits bs :
  bytes_ok bs → length bs = 8%nat → fits I64 (i64_of_le_bytes bs) = true.
Proof.
  intros Hb Hl. apply of_le_bytes_range in Hb. rewrite Hl in Hb.
  apply fits_spec. unfold i64_of_le_bytes, to_signed. cbn [ty_min ty_max I64].
  change (256 ^ Z.of_nat 8) with (2 ^ 64) in *.
  destruct (Z.ltb_spec (2 * of_le_bytes bs) (2 ^ 64)); lia.
Qed.

(** Signed bytes written back are the bytes read. *)
Lemma le_bytes_i64_of_le_bytes bs :
  bytes_ok bs → length bs = 8%nat → le_bytes 8 (i64_of_le_bytes bs) = bs.
Proof.
  intros Hb Hl. rewrite <- le_bytes_mod. pose proof (of_le_bytes_range bs Hb) as Hr.
  rewrite Hl in Hr.
  replace (i64_of_le_bytes bs `mod` 256 ^ Z.of_nat 8) with (of_le_bytes bs).
  { rewrite <- Hl. by apply le_bytes_of_le_bytes. }
  unfold i64_of_le_bytes, to_signed. destruct (Z.ltb_spec (2 * of_le_bytes bs) (256 ^ Z.of_nat 8)).
  - symmetry. apply Z.mod_small. lia.
  - rewrite <- (Z.mod_add _ 1), Z.mod_small by lia. lia.
Qed.

(** ** Readers

    A reader is the list of bytes it has left. A parser consumes a prefix. *)

Definition Parser (E A : Type) : Type := list Z → Res E (A * list Z).

Definition p_ret {E A} (a : A) : Parser E A := λ bs, Ok (a, bs).
Definition p_bind {E A B} (p : Parser E A) (f : A → Parser E B) : Parser E B :=
  λ bs, '(a, rest) ← p bs; f a rest.
(** A fallible step that reads nothing. *)
Definition p_lift {E A} (r : Res E A) : Parser E A := λ bs, a ← r; Ok (a, bs).

(** ** Sums *)

Fixpoint sum_Z (l : list Z) : Z :=
  match l with
  | [] => 0
  | x :: l => x + sum_Z l
  end.

Lemma sum_Z_app l k : sum_Z (l ++ k) = sum_Z l + sum_Z k.
Proof. induction l as [|x l IH]; cbn in *; lia. Qed.

Lemma sum_Z_perm l k : l ≡ₚ k → sum_Z l = sum_Z k.
Proof. induction 1; cbn in *; lia. Qed.

Lemma sum_Z_nonneg l : Forall (λ x, 0 ≤ x) l → 0 ≤ sum_Z l.
Proof. induction 1; cbn in *; lia. Qed.

Lemma sum_Z_take l k : Forall (λ x, 0 ≤ x) l → 0 ≤ sum_Z (take k l) ≤ sum_Z l.
Proof.
  intros Hl. revert k. induction Hl as [|x l Hx Hl IH]; intros [|k]; cbn; try lia.
  - pose proof (sum_Z_nonneg l Hl). lia.
  - specialize (IH k). lia.
Qed.

(** ** Lists *)

Lemma filter_ext_in {A} (P Q : A → Prop) `{∀ x, Decision (P x), ∀ x, Decision (Q x)} (l : list A) :
  (∀ x, x ∈ l → P x ↔ Q x) → filter P l = filter Q l.
Proof.
  induction l as [|x l IH]; intros Hl; [done|].
  rewrite !filter_cons, IH by (intros; apply Hl; by right).
  specialize (Hl x (list_elem_of_here _ _)). destruct (decide (P x)), (decide (Q x)); tauto.
Qed.

Lemma filter_all {A} (P : A → Prop) `{∀ x, Decision (P x)} (l : list A) :
  (∀ x, x ∈ l → P x) → filter P l = l.
Proof.
  induction l as [|x l IH]; intros Hl; [done|]. rewrite filter_cons_True by (apply Hl; by left).
  rewrite IH; [done|]. intros. apply Hl. by right.
Qed.

Lemma filter_none {A} (P : A → Prop) `{∀ x, Decision (P x)} (l : list A) :
  (∀ x, x ∈ l → ¬ P x) → filter P l = [].
Proof.
  induction l as [|x l IH]; intros Hl; [done|]. rewrite filter_cons_False by (apply Hl; by left).
  apply IH. intros. apply Hl. by right.
Qed.

Lemma StronglySorted_filter {A} (R : A → A → Prop) (P : A → Prop) `{!∀ x, Decision (P x)} l :
  StronglySorted R l → StronglySorted R (filter P l).
Proof.
  induction 1 as [|a l _ IH Ha]; [constructor|]. rewrite filter_cons. destruct (decide (P a)); [|done].
  constructor; [done|]. rewrite Forall_forall in *. intros x [_ Hx]%list_elem_of_filter. by apply Ha.
Qed.

(** ** Automation *)

Create HintDb zebra.
#[export] Hint Resolve le_bytes_ok wrap_range no_panic_bind no_panic_map_err : zebra.

(** Turns hypotheses about successful or failing binds into facts about their steps. *)
Ltac res_inv :=
  repeat match goal with
  | H : mbind _ _ = Ok _ |- _ => apply bind_Ok in H as (? & ? & H)
  | H : map_err _ _ = Ok _ |- _ => apply map_err_Ok in H
  | H : map_err _ _ = Panic |- _ => apply map_err_Panic in H
  | H : fmap _ _ = Ok _ |- _ => apply fmap_Ok in H as (? & ? & ?)
  | H : Ok _ = Ok _ |- _ => injection H as H; subst
  | H : Err _ = Ok _ |- _ => discriminate H
  | H : Panic = Ok _ |- _ => discriminate H
  | H : try_from _ _ = Some _ |- _ => apply try_from_Some in H as [? H]; subst
  end.

(** Unfolds machine-integer bounds and closes linear goals. *)
Ltac int_lia :=
  rewrite ?fits_spec in *;
  unfold checked_add, checked_sub, checked_mul in *;
  cbn [ty_min ty_max U8 U16 U32 U64 U128 I32 I64 I128] in *; lia.
