(* ===== verification/BTreeMap.v ===== *)
(** * Ordered maps

    The Rust standard library's [BTreeMap] with integer keys, as the list of
    its entries in ascending key order. Iteration is the list itself. *)

From S2P Require Import Prelude.
From Stdlib Require Import Sorting.Sorted.

Section BTreeMap.
Context {V : Type}.
Implicit Types m : list (Z * V).

(** [BTreeMap::insert]: replaces the value of a key that is present. *)
Fixpoint bt_insert (k : Z) (v : V) m : list (Z * V) :=
  match m with
  | [] => [(k, v)]
  | (k', v') :: m' =>
      if k <? k' then (k, v) :: m
      else if k =? k' then (k, v) :: m'
      else (k', v') :: bt_insert k v m'
  end.

(** [BTreeMap::get]. *)
Fixpoint bt_get (k : Z) m : option V :=
  match m with
  | [] => None
  | (k', v') :: m' => if k =? k' then Some v' else bt_get k m'
  end.

(** [BTreeMap::remove]: the map that is left. *)
Fixpoint bt_remove (k : Z) m : list (Z * V) :=
  match m with
  | [] => []
  | (k', v') :: m' => if k =? k' then m' else (k', v') :: bt_remove k m'
  end.

(** [FromIterator]: later entries win. *)
Definition bt_of_list (l : list (Z * V)) : list (Z * V) :=
  foldl (λ m kv, bt_insert kv.1 kv.2 m) [] l.

(** [BTreeMap::range(..=k)] and [BTreeMap::range(k..)]. *)
Definition bt_range_le (k : Z) m : list (Z * V) := filter (λ kv, kv.1 ≤ k) m.
Definition bt_range_ge (k : Z) m : list (Z * V) := filter (λ kv, k ≤ kv.1) m.

(** [first_key_value] and [last_key_value]. *)
Definition bt_first m : option (Z * V) := head m.
Definition bt_last m : option (Z * V) := last m.

(** Keys are distinct and in ascending order. *)
Definition bt_ok m : Prop := StronglySorted Z.lt (fst <$> m).

Lemma bt_ok_nil : bt_ok [].
Proof. constructor. Qed.

Lemma bt_ok_cons k v m : bt_ok ((k, v) :: m) ↔ bt_ok m ∧ Forall (λ kv, k < kv.1) m.
Proof.
  unfold bt_ok. cbn. split.
  - intros H. inversion H; subst. by rewrite Forall_fmap in *.
  - intros [? ?]. constructor; [done|]. by rewrite Forall_fmap.
Qed.

Lemma bt_get_None_lt k m : Forall (λ kv, k < kv.1) m → bt_get k m = None.
Proof.
  induction 1 as [|[k' v'] m H _ IH]; cbn in *; [done|].
  rewrite (proj2 (Z.eqb_neq k k')) by lia. done.
Qed.

Lemma bt_get_In k v m : bt_ok m → bt_get k m = Some v ↔ (k, v) ∈ m.
Proof.
  induction m as [|[k' v'] m IH]; intros Hok; cbn; [set_solver|].
  apply bt_ok_cons in Hok as [Hok Hlt]. rewrite elem_of_cons.
  destruct (Z.eqb_spec k k') as [->|Hne].
  - split; [intros [= ->]; by left|]. intros [[= ->]|Hin]; [done|].
    rewrite Forall_forall in Hlt. apply Hlt in Hin. cbn in Hin. lia.
  - rewrite IH by done. naive_solver.
Qed.

Lemma bt_insert_lt k v m x : x < k → Forall (λ kv, x < kv.1) m → Forall (λ kv, x < kv.1) (bt_insert k v m).
Proof.
  intros Hx. induction 1 as [|[k' v'] m H Hm IH]; cbn; [by repeat constructor|].
  destruct (Z.ltb_spec k k'); [by repeat constructor|].
  destruct (k =? k'); by repeat constructor.
Qed.

Lemma bt_ok_insert k v m : bt_ok m → bt_ok (bt_insert k v m).
Proof.
  induction m as [|[k' v'] m IH]; intros Hok; cbn; [by apply bt_ok_cons|].
  pose proof Hok as [Hm Hlt]%bt_ok_cons.
  destruct (Z.ltb_spec k k').
  - apply bt_ok_cons. split; [done|]. constructor; [done|].
    eapply Forall_impl; [exact Hlt|]. cbn. intros; lia.
  - destruct (Z.eqb_spec k k') as [->|]; [by apply bt_ok_cons|].
    apply bt_ok_cons. split; [by apply IH|]. apply bt_insert_lt; [lia|done].
Qed.

Lemma bt_get_insert k v m x :
  bt_ok m → bt_get x (bt_insert k v m) = if x =? k then Some v else bt_get x m.
Proof.
  revert x. induction m as [|[k' v'] m IH]; intros x Hok; cbn; [done|].
  apply bt_ok_cons in Hok as [Hok Hlt].
  destruct (Z.ltb_spec k k'); cbn.
  - destruct (Z.eqb_spec x k); done.
  - destruct (Z.eqb_spec k k') as [->|]; cbn.
    + by destruct (Z.eqb_spec x k').
    + destruct (Z.eqb_spec x k') as [->|].
      * by rewrite (proj2 (Z.eqb_neq k' k)) by lia.
      * by apply IH.
Qed.

Lemma bt_ok_of_list l : bt_ok (bt_of_list l).
Proof.
  unfold bt_of_list. assert (Hg : ∀ m, bt_ok m → bt_ok (foldl (λ m kv, bt_insert kv.1 kv.2 m) m l)).
  { induction l as [|[k v] l IH]; intros m Hm; cbn; [done|]. apply IH. by apply bt_ok_insert. }
  apply Hg, bt_ok_nil.
Qed.

Lemma bt_remove_subseteq k m : bt_remove k m ⊆ m.
Proof.
  induction m as [|[k' v'] m IH]; cbn; [done|]. destruct (k =? k'); set_solver.
Qed.

Lemma bt_ok_remove k m : bt_ok m → bt_ok (bt_remove k m).
Proof.
  induction m as [|[k' v'] m IH]; intros Hok; cbn; [done|].
  apply bt_ok_cons in Hok as [Hok Hlt]. destruct (k =? k'); [done|].
  apply bt_ok_cons. split; [by apply IH|]. rewrite Forall_forall in *.
  intros kv Hin. apply Hlt. by eapply bt_remove_subseteq.
Qed.

Lemma bt_get_remove k m x :
  bt_ok m → bt_get x (bt_remove k m) = if x =? k then None else bt_get x m.
Proof.
  revert x. induction m as [|[k' v'] m IH]; intros x Hok; cbn; [by destruct (x =? k)|].
  apply bt_ok_cons in Hok as [Hok Hlt].
  destruct (Z.eqb_spec k k') as [->|]; cbn.
  - destruct (Z.eqb_spec x k') as [->|]; [by apply bt_get_None_lt|done].
  - destruct (Z.eqb_spec x k') as [->|].
    + by rewrite (proj2 (Z.eqb_neq k' k)) by lia.
    + by apply IH.
Qed.

(** The last entry of a range is the one with the greatest key. *)
Lemma bt_last_spec m k v :
  bt_ok m → bt_last m = Some (k, v) ↔ (k, v) ∈ m ∧ Forall (λ kv, kv.1 ≤ k) m.
Proof.
  unfold bt_last. induction m as [|[k' v'] m IH]; intros Hok; cbn; [set_solver|].
  apply bt_ok_cons in Hok as [Hok Hlt]. destruct m as [|kv m].
  - rewrite list_elem_of_singleton, Forall_singleton. cbn. split; [intros [= -> ->]; split; [done|lia]|].
    naive_solver.
  - rewrite IH by done. split.
    + intros [Hin Hle]. split; [by right|]. constructor; [|done].
      rewrite Forall_forall in Hlt. apply Hlt in Hin. cbn in *. lia.
    + intros [Hin [Hk Hall]%Forall_cons]. split; [|done].
      apply elem_of_cons in Hin as [[= -> ->]|?]; [exfalso|done].
      apply Forall_cons in Hlt as [Hkv _]. apply Forall_cons in Hall as [Hkv' _]. cbn in *. lia.
Qed.

Lemma bt_ok_filter (P : Z * V → Prop) `{∀ x, Decision (P x)} m : bt_ok m → bt_ok (filter P m).
Proof.
  induction m as [|[k v] m IH]; intros Hok; [done|].
  apply bt_ok_cons in Hok as [Hok Hlt]. rewrite filter_cons. destruct (decide _); [|by apply IH].
  apply bt_ok_cons. split; [by apply IH|]. rewrite Forall_forall in *.
  intros kv [_ Hin]%list_elem_of_filter. by apply Hlt.
Qed.

(** [range(..=x).next_back()]: the entry with the greatest key at most [x]. *)
Lemma bt_last_range_le m x k v :
  bt_ok m → bt_last (bt_range_le x m) = Some (k, v) ↔
  bt_get k m = Some v ∧ k ≤ x ∧ ∀ k' v', bt_get k' m = Some v' → k' ≤ x → k' ≤ k.
Proof.
  intros Hok. unfold bt_range_le. rewrite bt_last_spec by (by apply bt_ok_filter).
  rewrite list_elem_of_filter, bt_get_In by done. cbn. rewrite Forall_forall. split.
  - intros ((Hle & Hin) & Hmax). split_and!; [done|done|]. intros k' v' Hin' Hle'.
    apply (Hmax (k', v')). apply list_elem_of_filter. by rewrite <- bt_get_In.
  - intros (Hin & Hle & Hmax). split_and!; [done|done|]. intros [k' v'] [Hle' Hin']%list_elem_of_filter.
    cbn in *. eapply Hmax; [by apply bt_get_In|done].
Qed.

(** Keys and entries of a map collected from a list. *)
Lemma bt_insert_keys k v m x : x ∈ fst <$> bt_insert k v m ↔ x = k ∨ x ∈ fst <$> m.
Proof.
  induction m as [|[k' v'] m IH]; cbn; [set_solver|].
  destruct (Z.ltb_spec k k'); cbn; [set_solver|]. destruct (Z.eqb_spec k k') as [->|]; cbn; set_solver.
Qed.

Lemma bt_of_list_keys l x : x ∈ fst <$> bt_of_list l ↔ x ∈ fst <$> l.
Proof.
  unfold bt_of_list.
  assert (Hg : ∀ m, x ∈ fst <$> foldl (λ m kv, bt_insert kv.1 kv.2 m) m l ↔ x ∈ fst <$> m ∨ x ∈ fst <$> l).
  { induction l as [|[k v] l IH]; intros m; cbn; [set_solver|]. rewrite IH, bt_insert_keys. set_solver. }
  rewrite Hg. set_solver.
Qed.

Lemma bt_insert_elem k v m x : x ∈ bt_insert k v m → x = (k, v) ∨ x ∈ m.
Proof.
  induction m as [|[k' v'] m IH]; cbn; [set_solver|].
  destruct (k <? k'); [set_solver|]. destruct (k =? k'); set_solver.
Qed.

Lemma bt_of_list_elem l x : x ∈ bt_of_list l → x ∈ l.
Proof.
  unfold bt_of_list.
  assert (Hg : ∀ m, x ∈ foldl (λ m kv, bt_insert kv.1 kv.2 m) m l → x ∈ m ∨ x ∈ l).
  { induction l as [|[k v] l IH]; intros m; cbn; [by left|].
    intros [[->|?]%bt_insert_elem|?]%IH; [right; by left|by left|right; by right]. }
  intros [?%elem_of_nil|?]%Hg; done.
Qed.

(** Appending in key order. *)
Lemma bt_insert_last k v m : Forall (λ kv, kv.1 < k) m → bt_insert k v m = m ++ [(k, v)].
Proof.
  induction 1 as [|[k' v'] m Hk _ IH]; [done|]. cbn in *.
  destruct (Z.ltb_spec k k'); [lia|]. destruct (Z.eqb_spec k k'); [lia|]. by rewrite IH.
Qed.

Lemma bt_ok_app m l : bt_ok (m ++ l) → bt_ok m ∧ bt_ok l ∧ ∀ x y, x ∈ m → y ∈ l → x.1 < y.1.
Proof.
  induction m as [|[k v] m IH]; cbn; [intros ?; split_and!; [apply bt_ok_nil|done|by intros ?? ?%elem_of_nil]|].
  intros [(Hm & Hl & Hlt)%IH Hk]%bt_ok_cons. apply Forall_app in Hk as [Hkm Hkl].
  split_and!; [by apply bt_ok_cons|done|]. intros x y [->|Hx]%elem_of_cons Hy; [|by apply Hlt].
  rewrite Forall_forall in Hkl. by apply Hkl.
Qed.

Lemma foldl_bt_insert_sorted l : ∀ m, bt_ok (m ++ l) → foldl (λ m kv, bt_insert kv.1 kv.2 m) m l = m ++ l.
Proof.
  induction l as [|[k v] l IH]; intros m Hok; cbn; [by rewrite app_nil_r|].
  rewrite bt_insert_last.
  - rewrite IH; by rewrite <- (assoc_L (++)).
  - apply bt_ok_app in Hok as (_ & _ & Hlt). rewrite Forall_forall. intros x Hx. apply (Hlt x (k, v)); [done|by left].
Qed.

Lemma bt_insert_same k v m : bt_ok m → (k, v) ∈ m → bt_insert k v m = m.
Proof.
  induction m as [|[k' v'] m IH]; [intros _ H; by apply elem_of_nil in H|]. intros [Hm Hlt]%bt_ok_cons [[= -> ->]|Hin]%elem_of_cons.
  - cbn. by rewrite Z.ltb_irrefl, Z.eqb_refl.
  - rewrite Forall_forall in Hlt. pose proof (Hlt _ Hin) as Hk. cbn in *.
    destruct (Z.ltb_spec k k'); [lia|]. destruct (Z.eqb_spec k k'); [lia|]. by rewrite IH.
Qed.

Lemma bt_insert_fresh k v m : k ∉ fst <$> m → bt_insert k v m ≡ₚ (k, v) :: m.
Proof.
  induction m as [|[k' v'] m IH]; cbn; [done|]. intros Hk.
  destruct (Z.ltb_spec k k'); [done|]. destruct (Z.eqb_spec k k') as [->|]; [set_solver|].
  rewrite IH by set_solver. apply Permutation_swap.
Qed.

Lemma bt_of_list_NoDup l : NoDup (fst <$> l) → bt_of_list l ≡ₚ l.
Proof.
  unfold bt_of_list. assert (Hg : ∀ m, NoDup (fst <$> m ++ l) →
    foldl (λ m kv, bt_insert kv.1 kv.2 m) m l ≡ₚ m ++ l); [|by apply (Hg [])].
  induction l as [|[k v] l IH]; intros m Hnd; cbn; [by rewrite app_nil_r|].
  assert (Hp : bt_insert k v m ++ l ≡ₚ m ++ (k, v) :: l).
  { rewrite bt_insert_fresh; [apply Permutation_middle|].
    rewrite fmap_app in Hnd. apply NoDup_app in Hnd as (_ & Hd & _). intros Hk. apply (Hd _ Hk). set_solver. }
  rewrite IH; [done|]. by rewrite Hp.
Qed.

Lemma bt_ok_NoDup m : bt_ok m → NoDup (fst <$> m).
Proof.
  unfold bt_ok. induction 1 as [|k ks _ IH Hk]; constructor; [|done].
  rewrite Forall_forall in Hk. intros Hin%Hk. lia.
Qed.

(** The map keeps every entry exactly when the keys are distinct. *)
Lemma bt_of_list_length l : length (bt_of_list l) = length l ↔ NoDup (fst <$> l).
Proof.
  split.
  - intros Hlen. assert (Hp : fst <$> bt_of_list l ≡ₚ fst <$> l).
    { apply submseteq_length_Permutation; [|by rewrite !length_fmap, Hlen].
      apply NoDup_submseteq; [apply bt_ok_NoDup, bt_ok_of_list|]. intros x. by rewrite bt_of_list_keys. }
    rewrite <- Hp. apply bt_ok_NoDup, bt_ok_of_list.
  - intros Hnd. by rewrite bt_of_list_NoDup.
Qed.

End BTreeMap.

#[export] Hint Resolve bt_ok_nil bt_ok_insert bt_ok_remove bt_ok_of_list bt_ok_filter : zebra.
