(* ===== verification/Height.v ===== *)
(** * Block heights: [zebra-chain/src/block/height.rs]

    A [Height] is a [u32]; heights above [Height::MAX] are representable but
    should not be constructed. A [HeightDiff] is an [i64]. *)

From S2P Require Import Prelude.

Abbreviation Height := Z (only parsing).
Abbreviation HeightDiff := Z (only parsing).

Inductive HeightError := Overflow | Underflow.

Definition MIN : Height := 0.
(** [u32::MAX / 2] *)
Definition MAX : Height := (2 ^ 32 - 1) / 2.
Definition MAX_EXPIRY_HEIGHT : Height := 499999999.

Definition try_from_u32 (height : Z) : option Height :=
  if height <=? MAX then Some height else None.

(** [Height - Height]: the subtraction of the two [i64] values. *)
Definition sub_height (self rhs : Height) : HeightDiff := wrap I64 (self - rhs).

(** [Height - HeightDiff] and [Height + HeightDiff]: the [i64] operation wraps. *)
Definition sub_diff (self : Height) (rhs : HeightDiff) : option Height :=
  res ← try_from U32 (wrap I64 (self - rhs)); try_from_u32 res.
Definition add_diff (self : Height) (rhs : HeightDiff) : option Height :=
  res ← try_from U32 (wrap I64 (self + rhs)); try_from_u32 res.

Definition next (self : Height) : Res HeightError Height := ok_or (add_diff self 1) Overflow.
Definition previous (self : Height) : Res HeightError Height := ok_or (sub_diff self 1) Underflow.

Definition is_min (self : Height) : bool := self =? MIN.

(** [TryIntoHeight] for [u64], [usize] and [i32]. *)
Definition try_into_height (self : Z) : option Height :=
  h ← try_from U32 self; try_from_u32 h.

(** [u32::from_str]: an optional plus sign, then at least one decimal digit
    (characters as their codes); fails on overflow. *)
Fixpoint parse_digits (acc : Z) (s : list Z) : option Z :=
  match s with
  | [] => Some acc
  | c :: s =>
      if (48 <=? c) && (c <=? 57) then
        acc ← try_from U32 (acc * 10 + (c - 48)); parse_digits acc s
      else None
  end.

Definition parse_u32 (s : list Z) : option Z :=
  let digits := match s with 43 :: s' => s' | _ => s end in
  match digits with [] => None | _ => parse_digits 0 digits end.

(** [Height::from_str]; [true] is the error for a number above the maximum. *)
Definition from_str (s : list Z) : Res bool Height :=
  match parse_u32 s with
  | Some h => if h <=? MAX then Ok h else Err true
  | None => Err false
  end.

(** ** Properties *)

Lemma try_from_wrap_small z :
  ty_min I64 - 2 ^ 32 ≤ z ≤ ty_max I64 + 2 ^ 32 →
  try_from U32 (wrap I64 z) = try_from U32 z.
Proof.
  intros Hz. destruct (fits I64 z) eqn:Hf; [by rewrite wrap_fits|].
  assert (fits U32 z = false).
  { apply not_true_iff_false. intros H. apply not_true_iff_false in Hf. apply Hf. int_lia. }
  assert (fits U32 (wrap I64 z) = false).
  { apply not_true_iff_false. rewrite fits_spec. unfold wrap.
    apply not_true_iff_false in Hf. rewrite fits_spec in Hf.
    cbn [ty_min ty_max U32 I64] in *.
    destruct (Z_lt_le_dec z 0).
    - rewrite <- (Z.mod_add _ 1) by lia. rewrite Z.mod_small by lia. lia.
    - rewrite <- (Z.mod_add _ (-1)) by lia. rewrite Z.mod_small by lia. lia. }
  by rewrite !(proj2 (try_from_None _ _)).
Qed.

Lemma MAX_eq : MAX = 2147483647.
Proof. reflexivity. Qed.

Lemma try_into_height_spec z h : try_into_height z = Some h ↔ h = z ∧ 0 ≤ z ≤ MAX.
Proof.
  unfold try_into_height, try_from_u32. rewrite MAX_eq. destruct (try_from U32 z) as [v|] eqn:E; cbn.
  - apply try_from_Some in E as [-> Hf]. rewrite fits_spec in Hf. cbn in Hf |- *.
    destruct (Z.leb_spec z 2147483647).
    + split; [intros ?; simplify_eq; lia|]. by intros [-> _].
    + split; [done|]. lia.
  - apply try_from_None, not_true_iff_false in E. rewrite fits_spec in E. cbn in E |- *.
    split; [done|]. lia.
Qed.

(** One step up and down. *)
Lemma height_step z : 0 ≤ z ≤ MAX → (res ← try_from U32 z; try_from_u32 res) = Some z.
Proof. intros Hz. apply (try_into_height_spec z z). done. Qed.

Lemma next_Ok h : 0 ≤ h < MAX → next h = Ok (h + 1).
Proof.
  intros Hh. pose proof MAX_eq. unfold next, add_diff.
  rewrite try_from_wrap_small by (cbn; lia). by rewrite height_step by lia.
Qed.

Lemma previous_Ok h : 0 < h ≤ MAX → previous h = Ok (h - 1).
Proof.
  intros Hh. pose proof MAX_eq. unfold previous, sub_diff.
  rewrite try_from_wrap_small by (cbn; lia). by rewrite height_step by lia.
Qed.

(** height arithmetic is exact for every [u32] height and every [i64]
    difference, although the intermediate [i64] operation is unchecked: the
    result is the exact sum (or difference) when it lies between 0 and
    [Height::MAX], and [None] otherwise. *)
Theorem height_arithmetic_exact (h d r : Z) :
  fits U32 h = true → fits I64 d = true →
  (add_diff h d = Some r ↔ r = h + d ∧ 0 ≤ h + d ≤ MAX) ∧
  (sub_diff h d = Some r ↔ r = h - d ∧ 0 ≤ h - d ≤ MAX).
Proof.
  intros Hh Hd. unfold add_diff, sub_diff.
  rewrite !try_from_wrap_small by int_lia.
  split; apply (try_into_height_spec _ r).
Qed.

Lemma height_arithmetic_exact_witness : add_diff 2147483648 (-1) = Some MAX.
Proof.
  apply (height_arithmetic_exact 2147483648 (-1) MAX); [reflexivity|reflexivity|].
  rewrite MAX_eq. lia.
Defined.

(** [next] and [previous] are inverse on valid heights, and fail exactly at
    the greatest and the least height. *)
Theorem next_previous (h : Z) :
  0 ≤ h ≤ MAX →
  (if h <? MAX then next h = Ok (h + 1) ∧ previous (h + 1) = Ok h else next h = Err Overflow) ∧
  (if 0 <? h then previous h = Ok (h - 1) ∧ next (h - 1) = Ok h else previous h = Err Underflow).
Proof.
  intros Hh. unfold next, previous, add_diff, sub_diff.
  pose proof MAX_eq as HM.
  rewrite !try_from_wrap_small by (cbn; lia).
  assert (Hgo : ∀ z, (res ← try_from U32 z; try_from_u32 res) =
    if (0 <=? z) && (z <=? MAX) then Some z else None).
  { intros z. fold (try_into_height z).
    destruct ((0 <=? z) && (z <=? MAX)) eqn:E.
    - apply try_into_height_spec. lia.
    - destruct (try_into_height z) as [v|] eqn:Ev; [|done].
      apply try_into_height_spec in Ev. lia. }
  rewrite !Hgo.
  destruct (Z.ltb_spec h MAX), (Z.ltb_spec 0 h); try lia;
    rewrite ?Z.add_simpl_r, ?Z.sub_add;
    repeat match goal with
    | |- context [(0 <=? ?a) && (?a <=? MAX)] =>
        first [replace ((0 <=? a) && (a <=? MAX)) with true by lia
              |replace ((0 <=? a) && (a <=? MAX)) with false by lia]
    end; done.
Qed.

Lemma next_previous_witness : next MAX = Err Overflow ∧ previous MAX = Ok (MAX - 1).
Proof.
  pose proof (next_previous MAX ltac:(rewrite MAX_eq; lia)) as [H1 H2].
  split; [exact H1|]. destruct H2 as [H2 _]. exact H2.
Defined.
