(* ===== verification/Difficulty.v ===== *)
(** * Difficulty thresholds and work: [zebra-chain/src/work/difficulty.rs]

    [CompactDifficulty] is the 32-bit floating-point threshold of a block
    header, [ExpandedDifficulty] the 256-bit integer it stands for, and [Work]
    the 128-bit amount of work that meeting it represents.

    [U256] is the 256-bit integer of the [uint] crate
    ([zebra-chain/src/work/u256.rs]): [+], [*] and [pow] panic on overflow, [/]
    panics on a zero divisor, [<<] drops the bits that leave the word, [!] is
    the bitwise complement. *)

From S2P Require Import Prelude.

Definition U256 : IntTy := {| ty_min := 0; ty_max := 2 ^ 256 - 1 |}.

Definition u256_add {E} (a b : Z) : Res E Z := expect (checked_add U256 a b).
Definition u256_mul {E} (a b : Z) : Res E Z := expect (checked_mul U256 a b).
Definition u256_pow {E} (a e : Z) : Res E Z := expect (try_from U256 (a ^ e)).
Definition u256_div {E} (a b : Z) : Res E Z := expect (checked_div U256 a b).
Definition u256_not (a : Z) : Z := 2 ^ 256 - 1 - a.
Definition u256_shl (a n : Z) : Z := wrap U256 (Z.shiftl a n).
Definition u256_shr (a n : Z) : Z := Z.shiftr a n.
(** [U256::bits]: the number of significant bits. *)
Definition u256_bits (a : Z) : Z := if a =? 0 then 0 else Z.log2 a + 1.

Abbreviation CompactDifficulty := Z (only parsing).
Abbreviation ExpandedDifficulty := Z (only parsing).
Abbreviation Work := Z (only parsing).
Abbreviation PartialCumulativeWork := Z (only parsing).

Definition BASE : Z := 256.
Definition OFFSET : Z := 3.
Definition PRECISION : Z := 24.
Definition SIGN_BIT : Z := Z.shiftl 1 (PRECISION - 1).
Definition UNSIGNED_MANTISSA_MASK : Z := SIGN_BIT - 1.
Definition INVALID_COMPACT_DIFFICULTY : CompactDifficulty := 2 ^ 32 - 1.

(** The normalised mantissa and exponent: the [match] of [to_expanded]. *)
Definition normalise (mantissa exponent : Z) : option (Z * Z) :=
  if 32 <=? exponent then None
  else if (exponent =? 31) && (255 <? mantissa) then None
  else if (exponent =? 31) && (mantissa <=? 255) then Some (wrap U32 (Z.shiftl mantissa 16), exponent - 2)
  else if (exponent =? 30) && (65535 <? mantissa) then None
  else if (exponent =? 30) && (mantissa <=? 65535) then Some (wrap U32 (Z.shiftl mantissa 8), exponent - 1)
  else if exponent <? 0 then Some (Z.shiftr mantissa (Z.abs exponent * 8), 0)
  else Some (mantissa, exponent).

(** [ToTarget]. *)
Definition to_expanded (self : CompactDifficulty) : Run (option ExpandedDifficulty) :=
  if Z.land self SIGN_BIT =? SIGN_BIT then Ok None else
  let mantissa := Z.land self UNSIGNED_MANTISSA_MASK in
  exponent ← expect (try_from I32 (Z.shiftr self PRECISION));
  let exponent := exponent - OFFSET in
  match normalise mantissa exponent with
  | None => Ok None
  | Some (mantissa, exponent) =>
      p ← u256_pow BASE exponent;
      result ← u256_mul mantissa p;
      Ok (if result =? 0 then None else Some result)
  end.

(** [ToCompact]. *)
Definition to_compact (self : ExpandedDifficulty) : Run CompactDifficulty :=
  _ ← assert (0 <? self);
  let size := u256_bits self / 8 + 1 in
  let mantissa :=
    if self <=? UNSIGNED_MANTISSA_MASK then u256_shl self (8 * (3 - size))
    else u256_shr self (8 * (size - 3)) in
  _ ← assert (size <? 31 + OFFSET);
  size ← expect (try_from U32 size);
  _ ← assert (mantissa <=? UNSIGNED_MANTISSA_MASK);
  mantissa ← expect (try_from U32 mantissa);
  if 0 <? mantissa then Ok (wrap U32 (mantissa + wrap U32 (Z.shiftl size 24))) else Panic.

(** [Work::try_from(ExpandedDifficulty)]. *)
Definition work_try_from (expanded : ExpandedDifficulty) : Res unit Work :=
  d ← u256_add expanded 1;
  q ← u256_div (u256_not expanded) d;
  result ← u256_add q 1;
  if result <=? 2 ^ 128 - 1 then Ok result else Err tt.

Definition to_work (self : CompactDifficulty) : Run (option Work) :=
  expanded ← to_expanded self;
  match expanded with
  | None => Ok None
  | Some expanded =>
      match work_try_from expanded with
      | Ok w => Ok (Some w)
      | Err _ => Ok None
      | Panic => Panic
      end
  end.

(** ** Bytes *)

Definition bytes_in_display_order (self : CompactDifficulty) : list Z := be_bytes 4 self.

Definition from_bytes_in_display_order (bytes : list Z) : Res unit CompactDifficulty :=
  let difficulty := of_be_bytes bytes in
  expanded ← lift (to_expanded difficulty);
  match expanded with None => Err tt | Some _ => Ok difficulty end.

Definition expanded_bytes_in_serialized_order (self : ExpandedDifficulty) : list Z := be_bytes 32 self.
Definition expanded_from_bytes_in_serialized_order (bytes : list Z) : ExpandedDifficulty :=
  of_be_bytes bytes.

(** ** Comparison with block hashes: 256-bit little-endian integers *)

Definition from_hash (hash : list Z) : ExpandedDifficulty := of_le_bytes hash.
Definition expanded_partial_cmp (self : ExpandedDifficulty) (other : list Z) : option comparison :=
  Some (self ?= from_hash other).
Definition hash_partial_cmp (self : list Z) (other : ExpandedDifficulty) : Run (option comparison) :=
  c ← expect (expanded_partial_cmp other self); Ok (Some (CompOpp c)).

(** ** Arithmetic *)

(** [Sum], [Div] and [Mul] on expanded difficulties. *)
Fixpoint expanded_sum_from (acc : Z) (iter : list ExpandedDifficulty) : Run ExpandedDifficulty :=
  match iter with
  | [] => Ok acc
  | d :: iter => acc ← u256_add acc d; expanded_sum_from acc iter
  end.
Definition expanded_sum (iter : list ExpandedDifficulty) : Run ExpandedDifficulty := expanded_sum_from 0 iter.
Definition expanded_div (self : ExpandedDifficulty) (rhs : Z) : Run ExpandedDifficulty := u256_div self rhs.
Definition expanded_mul (self : ExpandedDifficulty) (rhs : Z) : Run ExpandedDifficulty := u256_mul self rhs.

(** [PartialCumulativeWork + Work] and [- Work]. *)
Definition work_add (self : PartialCumulativeWork) (rhs : Work) : Run PartialCumulativeWork :=
  expect (checked_add U128 self rhs).
Definition work_sub (self : PartialCumulativeWork) (rhs : Work) : Run PartialCumulativeWork :=
  expect (checked_sub U128 self rhs).

(** ** Reading of the compact form

    [ToTarget] of the protocol specification (section 7.7.4), on a mantissa, a
    size and a sign, with the rejections of [zcashd]. *)

Definition compact_mantissa (c : Z) : Z := c mod 2 ^ 23.
Definition compact_negative (c : Z) : bool := Z.testbit c 23.
Definition compact_size (c : Z) : Z := c / 2 ^ 24.

Definition to_target (c : Z) : Z :=
  if 3 <=? compact_size c then compact_mantissa c * 256 ^ (compact_size c - 3)
  else compact_mantissa c / 256 ^ (3 - compact_size c).

Definition valid_target (c : Z) : option Z :=
  if compact_negative c || (to_target c =? 0) || (2 ^ 256 <=? to_target c) then None
  else Some (to_target c).

Lemma land_pow2 a n : 0 <= n -> Z.land a (2 ^ n) = if Z.testbit a n then 2 ^ n else 0.
Proof.
  intros Hn. apply Z.bits_inj'; intros m Hm.
  rewrite Z.land_spec, Z.pow2_bits_eqb by lia.
  destruct (Z.eqb_spec n m) as [->|Hne].
  - rewrite andb_true_r. destruct (Z.testbit a m); [now rewrite Z.pow2_bits_true by lia|now rewrite Z.bits_0].
  - rewrite andb_false_r. destruct (Z.testbit a n); [now rewrite Z.pow2_bits_false by lia|now rewrite Z.bits_0].
Qed.

Lemma fits_U256 x : 0 <= x < 2 ^ 256 -> fits U256 x = true.
Proof. intros; apply fits_spec; cbn [ty_min ty_max U256]; lia. Qed.

Lemma pow256_le a b : 0 <= a <= b -> 0 < 256 ^ a <= 256 ^ b.
Proof. intros; split; [apply Z.pow_pos_nonneg|apply Z.pow_le_mono_r]; lia. Qed.

Lemma pow256_split a b : 0 <= a <= b -> 256 ^ b = 256 ^ (b - a) * 256 ^ a.
Proof. intros; rewrite <- Z.pow_add_r by lia; f_equal; lia. Qed.

Lemma u256_pow_Ok {E} e : 0 <= e <= 31 -> u256_pow (E:=E) BASE e = Ok (256 ^ e).
Proof.
  intros He. unfold u256_pow, BASE. rewrite try_from_fits; [done|].
  apply fits_U256. pose proof (pow256_le e 31). change (2 ^ 256) with (256 ^ 32). 
  pose proof (Z.pow_lt_mono_r 256 31 32). lia.
Qed.

Lemma u256_mul_Ok {E} a b : 0 <= a * b < 2 ^ 256 -> u256_mul (E:=E) a b = Ok (a * b).
Proof. intros. unfold u256_mul, checked_mul. rewrite try_from_fits; [done|]. now apply fits_U256. Qed.

Lemma u256_div_Ok {E} a b : 0 <= a < 2 ^ 256 -> 0 < b -> u256_div (E:=E) a b = Ok (a / b).
Proof.
  intros Ha Hb. unfold u256_div, checked_div. rewrite (proj2 (Z.eqb_neq b 0)) by lia.
  rewrite Z.quot_div_nonneg by lia. rewrite try_from_fits; [done|]. apply fits_U256.
  pose proof (Z.div_pos a b). pose proof (Z.div_le_upper_bound a b a). nia.
Qed.

Lemma normalise_small m e : 0 <= m < 2 ^ 24 -> 0 <= e <= 29 -> 0 <= m * 256 ^ e < 2 ^ 256.
Proof.
  intros Hm He. pose proof (pow256_le e 29). change (2 ^ 256) with (2 ^ 24 * 256 ^ 29). nia.
Qed.

Lemma wrap_shiftl m k : 0 <= k -> 0 <= m * 2 ^ k < 2 ^ 24 -> wrap U32 (Z.shiftl m k) = m * 2 ^ k.
Proof. intros Hk H. rewrite Z.shiftl_mul_pow2 by lia. apply wrap_fits, fits_spec. cbn [ty_min ty_max U32]. lia. Qed.

Lemma normalise_spec m s :
  0 <= m < 2 ^ 23 -> 0 <= s <= 255 ->
  let t := if 3 <=? s then m * 256 ^ (s - 3) else m / 256 ^ (3 - s) in
  match normalise m (s - 3) with
  | None => t = 0 \/ 2 ^ 256 <= t
  | Some (m', e') => 0 <= e' <= 29 /\ 0 <= m' * 256 ^ e' < 2 ^ 256 /\ m' * 256 ^ e' = t
  end.
Proof.
  intros Hm Hs t. unfold normalise.
  destruct (32 <=? s - 3) eqn:E32.
  { subst t. destruct (3 <=? s) eqn:?; [|lia]. destruct (decide (m = 0)) as [->|]; [by left|right].
    pose proof (pow256_le 32 (s - 3)). change (256 ^ 32) with (2 ^ 256) in *. nia. }
  destruct (s - 3 =? 31) eqn:E31; cbn [andb].
  { assert (s = 34) as -> by lia. cbn -[Z.pow] in t. change (34 - 3) with 31 in *.
    destruct (255 <? m) eqn:?.
    { right. subst t. change (2 ^ 256) with (256 * 256 ^ 31). nia. }
    destruct (m <=? 255) eqn:?; [|lia]. rewrite wrap_shiftl by lia.
    split_and!; [lia..| |]; (apply normalise_small; lia) || (subst t; lia). }
  destruct (s - 3 =? 30) eqn:E30; cbn [andb].
  { assert (s = 33) as -> by lia. cbn -[Z.pow] in t. change (33 - 3) with 30 in *.
    destruct (65535 <? m) eqn:?.
    { right. subst t. change (2 ^ 256) with (65536 * 256 ^ 30). nia. }
    destruct (m <=? 65535) eqn:?; [|lia]. rewrite wrap_shiftl by lia.
    split_and!; [lia..| |]; (apply normalise_small; lia) || (subst t; lia). }
  subst t. destruct (s - 3 <? 0) eqn:E0.
  - destruct (3 <=? s) eqn:?; [lia|]. rewrite Z.shiftr_div_pow2 by lia.
    replace (Z.abs (s - 3) * 8) with (8 * (3 - s)) by lia. rewrite Z.pow_mul_r by lia.
    change (2 ^ 8) with 256. rewrite Z.pow_0_r, Z.mul_1_r.
    pose proof (pow256_le 0 (3 - s)). 
    assert (0 <= m / 256 ^ (3 - s) <= m) by (split; [apply Z.div_pos|apply Z.div_le_upper_bound]; nia). lia.
  - destruct (3 <=? s) eqn:?; [|lia]. split_and!; [lia..| | |done]; apply normalise_small; lia.
Qed.

Lemma compact_size_range c : fits U32 c = true -> 0 <= compact_size c <= 255.
Proof.
  intros [H1 H2]%fits_spec. cbn [ty_min ty_max U32] in *. unfold compact_size.
  split; [apply Z.div_pos; lia|]. enough (c / 2 ^ 24 < 256) by lia. apply Z.div_lt_upper_bound; lia.
Qed.

(** The code's [to_expanded] is [ToTarget] with the rejections of [zcashd], and never panics. *)
Lemma to_expanded_spec c : fits U32 c = true -> to_expanded c = Ok (valid_target c).
Proof.
  intros Hc. pose proof (compact_size_range c Hc) as Hs.
  assert (0 <= compact_mantissa c < 2 ^ 23) as Hm by (apply Z.mod_pos_bound; lia).
  unfold to_expanded, valid_target. change SIGN_BIT with (2 ^ 23).
  rewrite land_pow2 by lia. fold (compact_negative c).
  destruct (compact_negative c); [by rewrite Z.eqb_refl|]. cbn [orb].
  change (0 =? 2 ^ 23) with false. cbn match.
  change UNSIGNED_MANTISSA_MASK with (Z.ones 23). rewrite Z.land_ones by lia.
  fold (compact_mantissa c). change PRECISION with 24. rewrite Z.shiftr_div_pow2 by lia.
  fold (compact_size c). rewrite try_from_fits by (apply fits_spec; cbn [ty_min ty_max I32]; lia).
  cbn [expect]. rewrite ?Ok_bind. change OFFSET with 3.
  pose proof (normalise_spec _ _ Hm Hs) as Hn. cbn zeta in Hn. fold (to_target c) in Hn.
  destruct (normalise _ _) as [[m' e']|].
  - destruct Hn as (He & Hb & Ht). cbn match. rewrite u256_pow_Ok, Ok_bind, u256_mul_Ok, Ok_bind by lia.
    rewrite Ht. destruct (to_target c =? 0); [done|]. cbn [orb]. by destruct (2 ^ 256 <=? to_target c) eqn:?; [lia|].
  - destruct Hn as [->|Hn]; [done|]. destruct (2 ^ 256 <=? to_target c) eqn:?; [|lia]. by rewrite orb_true_r.
Qed.

Lemma valid_target_Some c x :
  valid_target c = Some x <-> compact_negative c = false /\ x = to_target c /\ 0 < x < 2 ^ 256.
Proof.
  unfold valid_target. assert (0 <= to_target c) as Hp.
  { unfold to_target, compact_mantissa. pose proof (Z.mod_pos_bound c (2 ^ 23)).
    case_match; [pose proof (pow256_le 0 (compact_size c - 3)); nia|].
    pose proof (pow256_le 0 (3 - compact_size c)). apply Z.div_pos; lia. }
  destruct (compact_negative c), (to_target c =? 0) eqn:?, (2 ^ 256 <=? to_target c) eqn:?; cbn [orb];
    split; intros H; try discriminate; try (destruct H as (? & -> & ?); try discriminate; try reflexivity; lia).
  injection H as <-; repeat split; lia.
Qed.

(** ** The compact form of an expanded difficulty *)

Lemma compact_parts m s : 0 <= m < 2 ^ 23 -> 0 <= s <= 255 ->
  fits U32 (m + s * 2 ^ 24) = true /\ compact_mantissa (m + s * 2 ^ 24) = m /\
  compact_size (m + s * 2 ^ 24) = s /\ compact_negative (m + s * 2 ^ 24) = false.
Proof.
  intros Hm Hs. split_and!.
  - apply fits_spec; cbn [ty_min ty_max U32]; lia.
  - unfold compact_mantissa. replace (m + s * 2 ^ 24) with (m + (2 * s) * 2 ^ 23) by lia.
    rewrite Z.mod_add by lia. apply Z.mod_small; lia.
  - unfold compact_size. rewrite Z.div_add by lia. rewrite Z.div_small by lia. lia.
  - unfold compact_negative. apply Z.testbit_false; [lia|].
    replace (m + s * 2 ^ 24) with (m + (2 * s) * 2 ^ 23) by lia.
    rewrite Z.div_add by lia. rewrite (Z.div_small m) by lia. rewrite Z.add_0_l, Z.mul_comm. by apply Z.mod_mul.
Qed.

(** The size field: [x] has between [8 * size - 8] and [8 * size - 1] bits. *)
Lemma compact_size_bits x : 0 < x < 2 ^ 256 ->
  let s := u256_bits x / 8 + 1 in
  1 <= s <= 33 /\ x < 2 ^ (8 * s - 1) /\ (2 <= s -> 2 ^ (8 * s - 9) <= x) /\ (x <= 2 ^ 23 - 1 <-> s <= 3).
Proof.
  intros Hx s. unfold u256_bits in s. destruct (x =? 0) eqn:?; [lia|].
  pose proof (Z.log2_spec x ltac:(lia)) as [Hl Hu]. pose proof (Z.log2_nonneg x).
  assert (Z.log2 x < 256) by (apply Z.log2_lt_pow2; lia).
  pose proof (Z.div_mod (Z.log2 x + 1) 8). pose proof (Z.mod_pos_bound (Z.log2 x + 1) 8).
  assert (x < 2 ^ (8 * s - 1)) as Hub
    by (eapply Z.lt_le_trans; [exact Hu|apply Z.pow_le_mono_r; lia]).
  assert (2 <= s -> 2 ^ (8 * s - 9) <= x) as Hlb
    by (intros; eapply Z.le_trans; [apply Z.pow_le_mono_r|exact Hl]; lia).
  split; [lia|]. split; [done|]. split; [done|]. split; intros Hc.
  - destruct (decide (s <= 3)); [done|]. pose proof (Hlb ltac:(lia)).
    pose proof (Z.pow_le_mono_r 2 23 (8 * s - 9)). lia.
  - pose proof (Z.pow_le_mono_r 2 (8 * s - 1) 23). lia.
Qed.

(** The mantissa is the three most significant bytes, with its top bit clear. *)
Definition mantissa_of (x s : Z) : Z := if s <=? 3 then x * 256 ^ (3 - s) else x / 256 ^ (s - 3).

Lemma mantissa_of_range x s :
  0 < x -> 1 <= s -> x < 2 ^ (8 * s - 1) -> (2 <= s -> 2 ^ (8 * s - 9) <= x) ->
  2 ^ 15 <= mantissa_of x s < 2 ^ 23.
Proof.
  intros Hx Hs Hu Hl. unfold mantissa_of. destruct (s <=? 3) eqn:?.
  - assert (s = 1 \/ s = 2 \/ s = 3) as [->|[->| ->]] by lia; cbn -[Z.mul Z.add] in *; try pose proof (Hl ltac:(lia)); lia.
  - pose proof (pow256_le 0 (s - 3)). specialize (Hl ltac:(lia)).
    replace (8 * s - 1) with (23 + 8 * (s - 3)) in Hu by lia.
    replace (8 * s - 9) with (15 + 8 * (s - 3)) in Hl by lia.
    rewrite Z.pow_add_r, Z.pow_mul_r in Hu, Hl by lia. change (2 ^ 8) with 256 in *.
    split; [apply Z.div_le_lower_bound|apply Z.div_lt_upper_bound]; lia.
Qed.

Lemma to_compact_spec x : 0 < x < 2 ^ 256 ->
  exists s, 1 <= s <= 33 /\ 2 ^ 15 <= mantissa_of x s < 2 ^ 23 /\ to_compact x = Ok (mantissa_of x s + s * 2 ^ 24).
Proof.
  intros Hx. exists (u256_bits x / 8 + 1).
  destruct (compact_size_bits x Hx) as (Hs & Hu & Hl & Hiff). cbn zeta in *.
  pose proof (mantissa_of_range x _ (proj1 Hx) (proj1 Hs) Hu Hl) as Hm.
  split; [done|]. split; [done|]. unfold to_compact.
  destruct (0 <? x) eqn:?; [|lia]. cbn [assert]. rewrite ?Ok_bind.
  set (s := u256_bits x / 8 + 1) in *.
  assert ((if x <=? UNSIGNED_MANTISSA_MASK then u256_shl x (8 * (3 - s)) else u256_shr x (8 * (s - 3)))
    = mantissa_of x s) as ->.
  { unfold mantissa_of in *. change UNSIGNED_MANTISSA_MASK with (2 ^ 23 - 1).
    destruct (x <=? 2 ^ 23 - 1) eqn:?, (s <=? 3) eqn:?; try lia.
    - unfold u256_shl. rewrite Z.shiftl_mul_pow2, Z.pow_mul_r by lia. apply wrap_fits, fits_U256. change (2 ^ 8) with 256. lia.
    - unfold u256_shr. rewrite Z.shiftr_div_pow2, Z.pow_mul_r by lia. done. }
  change (31 + OFFSET) with 34. destruct (s <? 34) eqn:?; [|lia]. cbn [assert]. rewrite ?Ok_bind.
  rewrite try_from_fits by (apply fits_spec; cbn [ty_min ty_max U32]; lia). cbn [expect]. rewrite ?Ok_bind.
  destruct (mantissa_of x s <=? UNSIGNED_MANTISSA_MASK) eqn:Hmask;
    [|change UNSIGNED_MANTISSA_MASK with (2 ^ 23 - 1) in Hmask; lia].
  cbn [assert]. rewrite ?Ok_bind.
  rewrite try_from_fits by (apply fits_spec; cbn [ty_min ty_max U32]; lia). cbn [expect]. rewrite ?Ok_bind.
  destruct (0 <? mantissa_of x s) eqn:?; [|lia]. rewrite Z.shiftl_mul_pow2 by lia.
  rewrite (wrap_fits U32 (s * _)) by (apply fits_spec; cbn [ty_min ty_max U32]; lia).
  rewrite wrap_fits by (apply fits_spec; cbn [ty_min ty_max U32]; lia). done.
Qed.

(** ** Properties *)

(** [CompactDifficulty::to_expanded] implements [ToTarget] of the protocol
    specification: it never panics, and it returns [x] exactly when the sign bit is clear and
    [x = mantissa * 256^(size - 3)] (rounded down for small sizes) is neither
    zero nor larger than 256 bits. *)
Theorem to_expanded_to_target (c : CompactDifficulty) (Hc : fits U32 c = true) :
  (exists r, to_expanded c = Ok r) /\
  (forall x, to_expanded c = Ok (Some x) <->
     compact_negative c = false /\ x = to_target c /\ 0 < x < 2 ^ 256).
Proof.
  rewrite to_expanded_spec by done. split; [eauto|]. intros x.
  rewrite <- valid_target_Some. split; [by intros [= ->]|by intros ->].
Qed.

Lemma to_expanded_to_target_witness :
  exists r, to_expanded 0x1f07ffff = Ok r.
Proof. refine (proj1 (to_expanded_to_target 0x1f07ffff _)). reflexivity. Defined.

(** The expanded value of the compact form of [x]. *)
Definition rounded (x s : Z) : Z := if s <=? 3 then x else x / 256 ^ (s - 3) * 256 ^ (s - 3).

Lemma to_target_mantissa x s :
  0 < x -> 1 <= s <= 33 -> 2 ^ 15 <= mantissa_of x s < 2 ^ 23 ->
  to_target (mantissa_of x s + s * 2 ^ 24) = rounded x s.
Proof.
  intros Hx Hs Hm. destruct (compact_parts (mantissa_of x s) s) as (_ & Hpm & Hps & _); [lia..|].
  unfold to_target. rewrite Hpm, Hps. unfold rounded, mantissa_of.
  destruct (s <=? 3) eqn:?, (3 <=? s) eqn:?; try lia.
  - assert (s = 3) as -> by lia. change (3 - 3) with 0. lia.
  - pose proof (pow256_le 0 (3 - s)). apply Z.div_mul. lia.
Qed.

Lemma rounded_le x s : 0 < x -> 1 <= s -> rounded x s <= x.
Proof.
  intros. unfold rounded. destruct (s <=? 3) eqn:?; [lia|].
  pose proof (pow256_le 0 (s - 3)). rewrite Z.mul_comm. apply Z.mul_div_le. lia.
Qed.

(** Any target of a compact form is [m * 256^e] with a 23-bit [m]. *)
Lemma to_target_float c : fits U32 c = true -> exists m e, 0 <= e /\ 0 <= m < 2 ^ 23 /\ to_target c = m * 256 ^ e.
Proof.
  intros Hc. pose proof (compact_size_range c Hc).
  assert (0 <= compact_mantissa c < 2 ^ 23) by (apply Z.mod_pos_bound; lia).
  unfold to_target. destruct (3 <=? compact_size c) eqn:?.
  - exists (compact_mantissa c), (compact_size c - 3). lia.
  - exists (compact_mantissa c / 256 ^ (3 - compact_size c)), 0.
    pose proof (pow256_le 0 (3 - compact_size c)).
    split; [lia|]. split; [|lia]. split; [apply Z.div_pos; lia|]. apply Z.div_lt_upper_bound; nia.
Qed.

Lemma rounded_greatest x s m e :
  0 < x -> 1 <= s -> 2 ^ 15 <= mantissa_of x s -> 0 <= e -> 0 <= m < 2 ^ 23 ->
  m * 256 ^ e <= x -> m * 256 ^ e <= rounded x s.
Proof.
  intros Hx Hs Hm He Hr Hle. unfold rounded, mantissa_of in *. destruct (s <=? 3) eqn:?; [done|].
  pose proof (pow256_le 0 (s - 3)). destruct (decide (s - 3 <= e)).
  - rewrite (pow256_split (s - 3) e) in * by lia. rewrite Z.mul_assoc in *.
    apply Z.mul_le_mono_nonneg_r; [lia|]. apply Z.div_le_lower_bound; lia.
  - rewrite (pow256_split (e + 1) (s - 3)) in * by lia. rewrite Z.pow_add_r in * by lia.
    pose proof (pow256_le 0 (s - 3 - (e + 1))). pose proof (pow256_le 0 e).
    set (q := _ / _) in *. change (256 ^ 1) with 256.
    assert (m * 256 ^ e <= 2 ^ 23 * 256 ^ e) by nia.
    assert (2 ^ 15 * (256 ^ (s - 3 - (e + 1)) * (256 ^ e * 256)) <= q * (256 ^ (s - 3 - (e + 1)) * (256 ^ e * 256))) by nia.
    nia.
Qed.

(** A value that has a compact form keeps it: expanding and compacting is idempotent. *)
Lemma compact_fixpoint c x : fits U32 c = true -> to_expanded c = Ok (Some x) ->
  exists c', to_compact x = Ok c' /\ to_expanded c' = Ok (Some x).
Proof.
  intros Hc Hx. pose proof Hx as Hx'. rewrite to_expanded_spec in Hx' by done. injection Hx' as Hx'.
  apply valid_target_Some in Hx' as (_ & Hv & Hr). destruct (to_compact_spec x Hr) as (s & Hs & Hm & Hcs).
  destruct (compact_parts (mantissa_of x s) s) as (Hf & _ & _ & Hneg); [lia..|].
  eexists. split; [done|]. rewrite to_expanded_spec by done. f_equal. apply valid_target_Some.
  rewrite to_target_mantissa by lia. destruct (to_target_float c Hc) as (m & e & He & Hme & Heq).
  pose proof (rounded_le x s ltac:(lia) ltac:(lia)).
  pose proof (rounded_greatest x s m e ltac:(lia) ltac:(lia) ltac:(lia) He Hme ltac:(lia)).
  split; [done|]. split; lia.
Qed.

(** [ExpandedDifficulty::to_compact] never panics on a non-zero value, and
    rounds it down to the nearest value that has a compact form: the result
    expands to some [y <= x], with a relative error below [2^-15], and no
    other compact difficulty expands to a value between [y] and [x]. *)
Theorem to_compact_rounds_down (x : ExpandedDifficulty) (Hx : 0 < x < 2 ^ 256) :
  exists c y, to_compact x = Ok c /\ fits U32 c = true /\ to_expanded c = Ok (Some y) /\
    y <= x /\ (x - y) * 2 ^ 15 <= x /\
    (forall c' z, fits U32 c' = true -> to_expanded c' = Ok (Some z) -> z <= x -> z <= y).
Proof.
  destruct (to_compact_spec x Hx) as (s & Hs & Hm & Hc).
  destruct (compact_parts (mantissa_of x s) s) as (Hf & _ & _ & Hneg); [lia..|].
  exists (mantissa_of x s + s * 2 ^ 24), (rounded x s). split; [done|]. split; [done|].
  pose proof (rounded_le x s ltac:(lia) ltac:(lia)) as Hle.
  assert ((x - rounded x s) * 2 ^ 15 <= x /\ 0 < rounded x s) as [Herr Hpos].
  { unfold rounded, mantissa_of in *. destruct (s <=? 3) eqn:?; [lia|].
    pose proof (pow256_le 0 (s - 3)).
    pose proof (Z.div_mod x (256 ^ (s - 3))). pose proof (Z.mod_pos_bound x (256 ^ (s - 3))).
    nia. }
  rewrite to_expanded_spec by done. split.
  { f_equal. apply valid_target_Some. rewrite to_target_mantissa by lia. repeat split; [done|lia..]. }
  split; [done|]. split; [done|]. intros c' z Hc' Hz Hzx.
  rewrite to_expanded_spec in Hz by done. injection Hz as Hz. apply valid_target_Some in Hz as (_ & -> & Hz).
  destruct (to_target_float c' Hc') as (m & e & He & Hr & Heq). rewrite Heq in *.
  apply rounded_greatest; lia.
Qed.

Lemma to_compact_rounds_down_witness :
  exists c y, to_compact 0x123456789 = Ok c /\ to_expanded c = Ok (Some y) /\ y <= 0x123456789.
Proof.
  destruct (to_compact_rounds_down 0x123456789) as (c & y & Hc & _ & Hy & Hle & _); [lia|].
  exists c, y. split; [exact Hc|]. split; [exact Hy|exact Hle].
Defined.

Lemma div_complement x : 0 <= x < 2 ^ 256 -> (2 ^ 256 - 1 - x) / (x + 1) + 1 = 2 ^ 256 / (x + 1).
Proof.
  intros Hx. replace (2 ^ 256) with ((2 ^ 256 - 1 - x) + 1 * (x + 1)) at 2 by lia.
  rewrite Z.div_add by lia. done.
Qed.

Lemma work_try_from_spec x : 0 < x < 2 ^ 256 - 1 ->
  work_try_from x = if 2 ^ 256 / (x + 1) <? 2 ^ 128 then Ok (2 ^ 256 / (x + 1)) else Err tt.
Proof.
  intros Hx. unfold work_try_from, u256_add, checked_add, u256_div, checked_div, u256_not.
  rewrite try_from_fits by (apply fits_U256; lia). cbn [expect]. rewrite ?Ok_bind.
  destruct (x + 1 =? 0) eqn:?; [lia|]. rewrite Z.quot_div_nonneg by lia.
  pose proof (div_complement x ltac:(lia)) as Hd.
  assert (0 < 2 ^ 256 / (x + 1) < 2 ^ 256) as Hw.
  { split; [apply Z.div_str_pos|apply Z.div_lt]; lia. }
  rewrite try_from_fits by (apply fits_U256; lia). cbn [expect]. rewrite ?Ok_bind.
  rewrite try_from_fits by (apply fits_U256; lia). cbn [expect]. rewrite ?Ok_bind, Hd.
  destruct (_ <=? _) eqn:?, (_ <? _) eqn:?; (done || lia).
Qed.

(** No compact form expands to [2^256 - 1], the only value whose successor overflows. *)
Lemma to_target_not_max c : fits U32 c = true -> to_target c <> 2 ^ 256 - 1.
Proof.
  intros Hc Heq. destruct (to_target_float c Hc) as (m & e & He & Hr & Ht). rewrite Ht in Heq.
  destruct (decide (e = 0)) as [->|].
  - rewrite Z.pow_0_r in Heq. lia.
  - replace e with (e - 1 + 1) in Heq by lia. rewrite Z.pow_add_r in Heq by lia. change (256 ^ 1) with 256 in Heq.
    assert ((m * (256 ^ (e - 1) * 256)) mod 256 = (2 ^ 256 - 1) mod 256) as Hmod by (by rewrite Heq).
    rewrite Z.mul_assoc, Z.mod_mul in Hmod by lia. vm_compute in Hmod. discriminate.
Qed.

Lemma to_work_spec c : fits U32 c = true ->
  to_work c = Ok (x ← valid_target c;
                  if 2 ^ 256 / (x + 1) <? 2 ^ 128 then Some (2 ^ 256 / (x + 1)) else None).
Proof.
  intros Hc. unfold to_work. rewrite to_expanded_spec, Ok_bind by done.
  destruct (valid_target c) as [x|] eqn:Hx; [|done]. apply valid_target_Some in Hx as (_ & Hx & Hr).
  pose proof (to_target_not_max c Hc). rewrite work_try_from_spec by lia. cbn [mbind option_bind].
  by destruct (_ <? _).
Qed.

(** [CompactDifficulty::to_work] never panics, and returns the work
    [floor(2^256 / (target + 1))] of the specification, computed without a 257-bit intermediate,
    whenever that fits in 128 bits. *)
Theorem to_work_floor (c : CompactDifficulty) (Hc : fits U32 c = true) :
  (exists r, to_work c = Ok r) /\
  (forall w, to_work c = Ok (Some w) <->
     exists x, to_expanded c = Ok (Some x) /\ w = 2 ^ 256 / (x + 1) /\ 0 < w < 2 ^ 128).
Proof.
  rewrite to_work_spec, to_expanded_spec by done. split; [eauto|]. intros w.
  destruct (valid_target c) as [x|] eqn:Hx; cbn [mbind option_bind]; [|split; [done|intros (? & [=] & _)]].
  apply valid_target_Some in Hx as (_ & _ & Hr).
  assert (0 < 2 ^ 256 / (x + 1)) by (apply Z.div_str_pos; lia).
  destruct (_ <? _) eqn:?; split.
  - intros [= <-]. exists x. split; [done|]. split; [done|lia].
  - intros (? & [= <-] & -> & _). done.
  - done.
  - intros (? & [= <-] & -> & ?). lia.
Qed.

Lemma to_work_floor_witness : exists r, to_work 0x1f07ffff = Ok r.
Proof. refine (proj1 (to_work_floor 0x1f07ffff _)). reflexivity. Defined.

(** Adding work and taking it back restores the total, without panics in between. *)
Lemma work_add_sub p w p' : work_add p w = Ok p' -> fits U128 p = true -> work_sub p' w = Ok p.
Proof.
  unfold work_add, work_sub, checked_add, checked_sub. intros H Hp.
  destruct (try_from U128 (p + w)) eqn:Ht; [|done]. injection H as <-.
  apply try_from_Some in Ht as [-> _]. replace (p + w - w) with p by lia. by rewrite try_from_fits.
Qed.

Lemma expanded_sum_from_spec ds : forall acc, 0 <= acc ->
  Forall (fun d => 0 <= d) ds -> acc + sum_Z ds < 2 ^ 256 -> expanded_sum_from acc ds = Ok (acc + sum_Z ds).
Proof.
  induction ds as [|d ds IH]; intros acc Hacc Hds Hb; cbn [expanded_sum_from sum_Z] in *.
  - f_equal; lia.
  - apply Forall_cons in Hds as [Hd Hds]. pose proof (sum_Z_nonneg ds Hds).
    unfold u256_add, checked_add. rewrite try_from_fits by (apply fits_U256; lia). cbn [expect]. rewrite Ok_bind.
    rewrite IH by (done || lia). f_equal; lia.
Qed.
