(* ===== verification/CheckpointList.v ===== *)
(** * Checkpoint lists: [zebra-chain/src/parameters/checkpoint/list.rs]

    A checkpoint list is a [BTreeMap] from heights to block hashes; the
    constructor checks that it is a bijection that starts at the genesis block. *)

From S2P Require Import Prelude BTreeMap Height.

(** A block hash: 32 bytes in serialized order. *)
Abbreviation Hash := (list Z) (only parsing).

Definition null_hash : Hash := replicate 32 0.

(** The error messages of [from_list], in the order of its checks. *)
Inductive CheckpointListError :=
| MustStartAtGenesis
| MustHaveACheckpoint
| HeightsMustBeUnique
| HashesMustBeUnique
| FoundNullHash
| HeightAboveMax.

(** [std::ops::Bound], for [RangeBounds] arguments. *)
Inductive Bound := Included (k : Z) | Excluded (k : Z) | Unbounded.

Definition above (lo : Bound) (k : Z) : bool :=
  match lo with Included l => l <=? k | Excluded l => l <? k | Unbounded => true end.
Definition below (hi : Bound) (k : Z) : bool :=
  match hi with Included h => k <=? h | Excluded h => k <? h | Unbounded => true end.

Definition range {V} (lo hi : Bound) (m : list (Z * V)) : list (Z * V) :=
  filter (fun kv => above lo kv.1 && below hi kv.1) m.

Section CheckpointList.
Implicit Types m : list (Z * Hash).

Definition contains m (height : Height) : bool := bool_decide (is_Some (bt_get height m)).
Definition hash m (height : Height) : option Hash := bt_get height m.
Definition len m : nat := length m.

Definition min_height_in_range m (lo hi : Bound) : option Height := fst <$> head (range lo hi m).
Definition max_height_in_range m (lo hi : Bound) : option Height := fst <$> last (range lo hi m).
Definition max_height m : Run Height := expect (max_height_in_range m Unbounded Unbounded).

(** [rposition]: the index of the last key that is at most [height]. *)
Fixpoint rposition (f : Z -> bool) (keys : list Z) (i : nat) : option nat :=
  match keys with
  | [] => None
  | k :: keys' =>
      match rposition f keys' (S i) with
      | Some j => Some j
      | None => if f k then Some i else None
      end
  end.
Definition prev_checkpoint_index m (height : Height) : Run nat :=
  expect (rposition (fun key => key <=? height) (fst <$> m) 0).

Definition from_list (list : list (Z * Hash)) : Res CheckpointListError (Datatypes.list (Z * Hash)) :=
  let original_len := length list in
  let checkpoints := bt_of_list list in
  _ ← match head checkpoints with
      | Some (h, _) => if h =? 0 then Ok tt else Err MustStartAtGenesis
      | None => Err MustHaveACheckpoint
      end;
  if negb (Nat.eqb (length checkpoints) original_len) then Err HeightsMustBeUnique else
  let block_hashes := remove_dups (snd <$> checkpoints) in
  if negb (Nat.eqb (length block_hashes) original_len) then Err HashesMustBeUnique else
  if bool_decide (null_hash ∈ block_hashes) then Err FoundNullHash else
  max ← lift (max_height checkpoints);
  if MAX <? max then Err HeightAboveMax else Ok checkpoints.
End CheckpointList.

(** ** Lemmas *)

Lemma remove_dups_length {A} `{EqDecision A} (l : list A) : length (remove_dups l) = length l <-> NoDup l.
Proof.
  split.
  - intros Hlen. assert (remove_dups l ≡ₚ l) as <-; [|apply NoDup_remove_dups].
    apply submseteq_length_Permutation; [|by rewrite Hlen].
    apply NoDup_submseteq; [apply NoDup_remove_dups|]. intros x. by rewrite elem_of_remove_dups.
  - intros Hnd. enough (remove_dups l = l) as -> by done.
    induction Hnd as [|x l Hx _ IH]; [done|]. cbn. destruct (decide_rel _ x l); [done|by rewrite IH].
Qed.

Lemma range_unbounded {V} (m : list (Z * V)) : range Unbounded Unbounded m = m.
Proof. unfold range. induction m as [|kv m IH]; [done|]. rewrite filter_cons. by rewrite decide_True, IH. Qed.

Lemma max_height_spec m : m <> [] -> exists x, last m = Some x /\ max_height m = Ok (fst x).
Proof.
  intros Hm. unfold max_height, max_height_in_range. rewrite range_unbounded.
  destruct (last m) as [x|] eqn:Hl; [by exists x|]. by apply last_None in Hl.
Qed.

(** What the constructor accepts. *)
Definition valid_checkpoints (l : list (Z * list Z)) : Prop :=
  0 ∈ (fst <$> l) /\ NoDup (fst <$> l) /\ NoDup (snd <$> l) /\ ~ (null_hash ∈ (snd <$> l)) /\ Forall (fun p => p.1 <= MAX) l.

Lemma head_zero (m : list (Z * list Z)) : bt_ok m -> Forall (fun p => 0 <= p.1) m ->
  0 ∈ (fst <$> m) -> exists x, head m = Some (0, x).
Proof.
  intros Hok Hpos Hin. destruct m as [|[k v] m]; [by apply elem_of_nil in Hin|].
  apply bt_ok_cons in Hok as [_ Hlt]. apply Forall_cons in Hpos as [Hk _]. exists v. cbn in *.
  apply elem_of_cons in Hin as [<-|Hin]; [done|]. apply list_elem_of_fmap in Hin as (kv & Heq & Hin).
  rewrite Forall_forall in Hlt. apply Hlt in Hin. lia.
Qed.

Lemma from_list_valid l : Forall (fun p => 0 <= p.1) l -> valid_checkpoints l -> from_list l = Ok (bt_of_list l).
Proof.
  intros Hpos (H0 & Hk & Hv & Hnull & Hmax). pose proof (bt_of_list_NoDup l Hk) as Hp.
  pose proof (bt_ok_of_list l) as Hok. unfold from_list.
  destruct (head_zero (bt_of_list l)) as [x Hx]; [done|by rewrite Hp|by rewrite bt_of_list_keys|].
  rewrite Hx. cbn [Z.eqb mbind Res_bind]. rewrite (proj2 (bt_of_list_length l) Hk), Nat.eqb_refl. cbn [negb].
  rewrite (proj2 (remove_dups_length (snd <$> bt_of_list l))) by (by rewrite Hp).
  rewrite length_fmap, (proj2 (bt_of_list_length l) Hk), Nat.eqb_refl. cbn [negb].
  rewrite bool_decide_eq_false_2 by (by rewrite elem_of_remove_dups, Hp).
  destruct (max_height_spec (bt_of_list l)) as (y & Hy & ->); [intros Hnil; by rewrite Hnil in Hx|]. cbn [lift mbind Res_bind].
  destruct (MAX <? y.1) eqn:Hlt; [|done]. exfalso.
  rewrite <- Hp in Hmax. rewrite Forall_forall in Hmax. specialize (Hmax y). 
  enough (y ∈ bt_of_list l) by (specialize (Hmax ltac:(done)); lia). by apply last_Some_elem_of.
Qed.

Lemma from_list_cases l : from_list l <> Panic /\
  (forall m, from_list l = Ok m -> valid_checkpoints l /\ m = bt_of_list l).
Proof.
  unfold from_list. destruct (head (bt_of_list l)) as [[h x]|] eqn:Hx; [|done].
  destruct (Z.eqb_spec h 0) as [->|]; [|done]. cbn [mbind Res_bind].
  destruct (Nat.eqb_spec (length (bt_of_list l)) (length l)) as [Hk|]; [|done].
  destruct (Nat.eqb_spec (length (remove_dups (snd <$> bt_of_list l))) (length l)) as [Hv|]; [|done]. cbn [negb].
  destruct (bool_decide _) eqn:Hnull; [done|]. apply bool_decide_eq_false_1 in Hnull.
  destruct (max_height_spec (bt_of_list l)) as (y & Hy & ->); [intros Hnil; by rewrite Hnil in Hx|].
  cbn [lift mbind Res_bind]. destruct (MAX <? y.1) eqn:Hlt; [done|]. split; [done|]. intros m [= <-].
  split; [|done]. assert (Hnd : NoDup (fst <$> l)) by (by apply bt_of_list_length).
  pose proof (bt_of_list_NoDup l Hnd) as Hp. rewrite elem_of_remove_dups, Hp in Hnull. split; [|split; [done|split; [|split; [done|]]]].
  - rewrite <- bt_of_list_keys. destruct (bt_of_list l) as [|p m]; [done|]. injection Hx as ->. cbn. by left.
  - rewrite <- Hp. apply remove_dups_length. by rewrite Hv, length_fmap.
  - rewrite <- Hp. destruct y as [ky vy]. apply (bt_last_spec _ ky vy) in Hy as [_ Hall]; [|apply bt_ok_of_list].
    eapply Forall_impl; [exact Hall|]. intros p Hle. cbn in *. lia.
Qed.

(** ** Properties *)

(** the constructor of checkpoint lists never panics, and accepts exactly
    the lists of distinct heights and distinct non-null hashes that cover the genesis height and
    stay within the maximum height; the list it builds has exactly the given checkpoints. *)
Theorem from_list_bijection (l : list (Z * list Z)) (Hpos : Forall (fun p => 0 <= p.1) l) :
  from_list l <> Panic /\
  (valid_checkpoints l <-> exists m, from_list l = Ok m) /\
  (forall m, from_list l = Ok m -> forall height x, hash m height = Some x <-> (height, x) ∈ l).
Proof.
  destruct (from_list_cases l) as [Hnp Hok]. split; [done|]. split.
  - split; [intros Hv; eexists; by apply from_list_valid|]. intros [m Hm]. by apply Hok in Hm as [? _].
  - intros m Hm height x. apply Hok in Hm as [(_ & Hk & _) ->]. unfold hash.
    rewrite bt_get_In by apply bt_ok_of_list. by rewrite (bt_of_list_NoDup l Hk).
Qed.

Lemma from_list_bijection_witness :
  Forall (fun p : Z * list Z => 0 <= p.1) [(0, [1]); (400, [2])] /\
  from_list [(0, [1]); (400, [2])] <> Panic.
Proof.
  split; [repeat constructor; cbn; lia|].
  refine (proj1 (from_list_bijection [(0, [1]); (400, [2])] _)). repeat constructor; cbn; lia.
Defined.

(** The checkpoint at or before a height, by its index. *)
Lemma rposition_spec f keys : forall i,
  match rposition f keys i with
  | Some j => exists n k, j = (i + n)%nat /\ keys !! n = Some k /\ f k = true /\
                (forall n' k', keys !! n' = Some k' -> (n < n')%nat -> f k' = false)
  | None => forall k, k ∈ keys -> f k = false
  end.
Proof.
  induction keys as [|k keys IH]; intros i; cbn; [by intros ? ?%elem_of_nil|].
  specialize (IH (S i)). destruct (rposition f keys (S i)) as [j|].
  - destruct IH as (n & k' & -> & Hk & Hf & Hmax). exists (S n), k'. split; [lia|]. split; [done|]. split; [done|].
    intros [|n'] k'' Hn' Hlt; [lia|]. apply (Hmax n'); [done|lia].
  - destruct (f k) eqn:Hfk.
    + exists 0%nat, k. split; [lia|]. split; [done|]. split; [done|]. intros [|n'] k' Hn' Hlt; [lia|].
      apply IH. by eapply list_elem_of_lookup_2.
    + intros k' [->|Hin]%elem_of_cons; [done|by apply IH].
Qed.
