(* ===== verification/Amount.v ===== *)
(** * Zatoshi amounts: [zebra-chain/src/amount.rs]

    [Amount C] is an [i64] tagged with a constraint marker [C]. The trait
    [Constraint] is a type class; what its users rely on (the range contains
    zero and stays within [MAX_MONEY]) is the law class [ConstraintLaws], which
    the three marker types satisfy. Theorems about the operations are proved
    against the laws, so they hold for every marker. *)

From S2P Require Import Prelude.

Definition COIN : Z := 100000000.
Definition MAX_MONEY : Z := 21000000 * COIN.

Inductive Error :=
| ConstraintError (value : Z) (range : Z * Z)
| Convert (value : Z)
| MultiplicationOverflow (amount multiplier overflowing_result : Z)
| DivideByZero (amount : Z)
| SumOverflow (partial_sum : Z) (remaining_items : nat).

#[export] Instance Error_eq_dec : EqDecision Error.
Proof. solve_decision. Defined.

(** The value an error reports. *)
Definition invalid_value (e : Error) : Z :=
  match e with
  | ConstraintError value _ => value
  | Convert value => value
  | MultiplicationOverflow _ _ overflowing_result => overflowing_result
  | DivideByZero amount => amount
  | SumOverflow partial_sum _ => partial_sum
  end.

(** ** Constraints *)

Class Constraint (C : Type) := { valid_range : Z * Z }.
Arguments valid_range C {_}.

Inductive NegativeAllowed : Set := mk_NegativeAllowed.
Inductive NonNegative : Set := mk_NonNegative.
Inductive NegativeOrZero : Set := mk_NegativeOrZero.

#[export] Instance NegativeAllowed_Constraint : Constraint NegativeAllowed :=
  {| valid_range := (- MAX_MONEY, MAX_MONEY) |}.
#[export] Instance NonNegative_Constraint : Constraint NonNegative :=
  {| valid_range := (0, MAX_MONEY) |}.
#[export] Instance NegativeOrZero_Constraint : Constraint NegativeOrZero :=
  {| valid_range := (- MAX_MONEY, 0) |}.

Definition contains (range : Z * Z) (value : Z) : bool :=
  (fst range <=? value) && (value <=? snd range).

Definition validate (C : Type) `{Constraint C} (value : Z) : Res Error Z :=
  let range := valid_range C in
  if negb (contains range value) then Err (ConstraintError value range) else Ok value.

(** ** The type and its constructors *)

Record Amount (C : Type) := mkAmount { zatoshis : Z }.
Arguments mkAmount {C} _.
Arguments zatoshis {C} _.

#[export] Instance Amount_eq_dec C : EqDecision (Amount C).
Proof. solve_decision. Defined.

Definition try_from_i64 {C} `{Constraint C} (value : Z) : Res Error (Amount C) :=
  mkAmount <$> validate C value.

(** [value.into()] widens the [i32] to an [i64]. *)
Definition try_from_i32 {C} `{Constraint C} (value : Z) : Res Error (Amount C) :=
  mkAmount <$> validate C value.

Definition try_from_u64 {C} `{Constraint C} (value : Z) : Res Error (Amount C) :=
  value ← ok_or (try_from I64 value) (Convert value);
  mkAmount <$> validate C value.

Definition try_from_i128 {C} `{Constraint C} (value : Z) : Res Error (Amount C) :=
  value ← ok_or (try_from I64 value) (Convert value);
  mkAmount <$> validate C value.

Definition new (zatoshis : Z) : Run (Amount NonNegative) :=
  _ ← assert ((zatoshis <=? MAX_MONEY) && (zatoshis >=? 0));
  Ok (mkAmount zatoshis).

Definition new_from_zec (zec_value : Z) : Run (Amount NonNegative) :=
  v ← expect (checked_mul I64 zec_value COIN);
  new v.

Definition div_exact (self : Amount NonNegative) (rhs : Z) : Run (Amount NonNegative) :=
  result ← expect (checked_div I64 (zatoshis self) rhs);
  if negb (Z.rem (zatoshis self) rhs =? 0) then Panic else Ok (mkAmount result).

Definition constrain {C} (C2 : Type) `{Constraint C2} (self : Amount C) : Res Error (Amount C2) :=
  try_from_i64 (zatoshis self).

Definition checked_sub {C C2} (self : Amount C) (rhs : Amount C2) : option (Amount NegativeAllowed) :=
  v ← Prelude.checked_sub I64 (zatoshis self) (zatoshis rhs);
  match try_from_i64 v with Ok a => Some a | _ => None end.

Definition zero {E C} `{Constraint C} : Res E (Amount C) := expect_ok (try_from_i32 0).

Definition is_zero {C} (self : Amount C) : bool := zatoshis self =? 0.

(** ** Arithmetic *)

Section Arithmetic.
Context {C : Type} `{Constraint C}.

Definition add (self rhs : Amount C) : Res Error (Amount C) :=
  value ← expect (checked_add I64 (zatoshis self) (zatoshis rhs));
  try_from_i64 value.

(** [Result<Amount> + Amount] and [Amount + Result<Amount>]. *)
Definition result_add (self : Res Error (Amount C)) (rhs : Amount C) : Res Error (Amount C) :=
  lhs ← self; add lhs rhs.
Definition add_result (self : Amount C) (rhs : Res Error (Amount C)) : Res Error (Amount C) :=
  r ← rhs; add self r.

(** [Result<Amount> += Amount] leaves an error as it is. *)
Definition add_assign (self : Res Error (Amount C)) (rhs : Amount C) : Res Error (Amount C) :=
  match self with Ok lhs => add lhs rhs | r => r end.

Definition sub (self rhs : Amount C) : Res Error (Amount C) :=
  value ← expect (Prelude.checked_sub I64 (zatoshis self) (zatoshis rhs));
  try_from_i64 value.

Definition result_sub (self : Res Error (Amount C)) (rhs : Amount C) : Res Error (Amount C) :=
  lhs ← self; sub lhs rhs.
Definition sub_result (self : Amount C) (rhs : Res Error (Amount C)) : Res Error (Amount C) :=
  r ← rhs; sub self r.
Definition sub_assign (self : Res Error (Amount C)) (rhs : Amount C) : Res Error (Amount C) :=
  match self with Ok lhs => sub lhs rhs | r => r end.

Definition mul (self : Amount C) (rhs : Z) : Res Error (Amount C) :=
  value ← expect (checked_mul I128 (zatoshis self) rhs);
  map_err (λ _, MultiplicationOverflow (zatoshis self) rhs value) (try_from_i128 value).

(** [u64 * Amount]. *)
Definition u64_mul (self : Z) (rhs : Amount C) : Res Error (Amount C) := mul rhs self.

Definition div (self : Amount C) (rhs : Z) : Res Error (Amount C) :=
  quotient ← ok_or (checked_div I128 (zatoshis self) rhs) (DivideByZero (zatoshis self));
  expect_ok (E := Error) (try_from_i128 quotient).

(** [Iterator::try_fold] with [Add]: the result, and the items left unread. *)
Fixpoint try_fold_add (acc : Amount C) (iter : list (Amount C)) :
    Res Error (Amount C) * list (Amount C) :=
  match iter with
  | [] => (Ok acc, [])
  | amount :: rest =>
      match add acc amount with
      | Ok acc' => try_fold_add acc' rest
      | r => (r, rest)
      end
  end.

Definition sum (iter : list (Amount C)) : Res Error (Amount C) :=
  z ← zero;
  let '(sum, rest) := try_fold_add z iter in
  match sum with
  | Ok sum => Ok sum
  | Err (ConstraintError value _) => Err (SumOverflow value (length rest))
  | Err _ => Panic
  | Panic => Panic
  end.

(** [-self.0] wraps on [i64::MIN]. *)
Definition neg (self : Amount C) : Run (Amount NegativeAllowed) :=
  expect_ok (try_from_i64 (wrap I64 (- zatoshis self))).

End Arithmetic.

(** ** Comparison: amounts compare by value, whatever their constraints. *)

Definition eqb {C1 C2} (self : Amount C1) (other : Amount C2) : bool :=
  zatoshis self =? zatoshis other.

Definition cmp {C1 C2} (self : Amount C1) (other : Amount C2) : comparison :=
  zatoshis self ?= zatoshis other.

(** ** Conversions *)

(** [u64::from(Amount<NonNegative>)]. *)
Definition into_u64 (amount : Amount NonNegative) : Run Z :=
  expect (try_from U64 (zatoshis amount)).

(** [jubjub::Fr::from] and [pallas::Scalar::from]: the field is a parameter,
    with its embedding of [u64] and its negation. *)
Definition into_scalar {C F} (from_u64 : Z → F) (field_neg : F → F) (a : Amount C) : Run F :=
  if zatoshis a <? 0 then
    abs_amount ← expect (try_from I128 (Z.abs (zatoshis a)));
    abs_amount ← expect (try_from U64 abs_amount);
    Ok (field_neg (from_u64 abs_amount))
  else
    v ← expect (try_from U64 (zatoshis a));
    Ok (from_u64 v).

(** ** Byte arrays *)

Definition to_bytes {C} (self : Amount C) : list Z := le_bytes 8 (zatoshis self).

Definition from_bytes {C} `{Constraint C} (bytes : list Z) : Res Error (Amount C) :=
  try_from_i64 (i64_of_le_bytes bytes).

(** ** The deferred pool balance change *)

Definition DeferredPoolBalanceChange : Type := Amount NegativeAllowed.
Definition deferred_new (amount : Amount NegativeAllowed) : DeferredPoolBalanceChange := amount.
Definition deferred_zero : Run DeferredPoolBalanceChange := zero.
Definition deferred_value (self : DeferredPoolBalanceChange) : Amount NegativeAllowed := self.

(** ** Laws of constraints *)

Class ConstraintLaws (C : Type) `{Constraint C} : Prop := {
  range_low : - MAX_MONEY ≤ fst (valid_range C) ≤ 0;
  range_high : 0 ≤ snd (valid_range C) ≤ MAX_MONEY;
}.

#[export] Instance NegativeAllowed_laws : ConstraintLaws NegativeAllowed.
Proof. split; cbn; unfold MAX_MONEY, COIN; lia. Qed.
#[export] Instance NonNegative_laws : ConstraintLaws NonNegative.
Proof. split; cbn; unfold MAX_MONEY, COIN; lia. Qed.
#[export] Instance NegativeOrZero_laws : ConstraintLaws NegativeOrZero.
Proof. split; cbn; unfold MAX_MONEY, COIN; lia. Qed.

(** The invariant of the type: the value satisfies its constraint. *)
Definition amount_ok {C} `{Constraint C} (a : Amount C) : bool :=
  contains (valid_range C) (zatoshis a).

(** What an operation on valid amounts may return: a valid amount or an error. *)
Definition closed {C} `{Constraint C} (r : Res Error (Amount C)) : Prop :=
  match r with Ok a => amount_ok a = true | Err _ => True | Panic => False end.

Lemma contains_spec r v : contains r v = true ↔ fst r ≤ v ≤ snd r.
Proof. unfold contains. lia. Qed.

Lemma amount_eq {C} (a b : Amount C) : zatoshis a = zatoshis b → a = b.
Proof. destruct a, b; cbn; congruence. Qed.

Lemma fits_I64_small z : - MAX_MONEY * 2 ≤ z ≤ MAX_MONEY * 2 → fits I64 z = true.
Proof. unfold MAX_MONEY, COIN. int_lia. Qed.

Section Theory.
Context {C : Type} `{CL : ConstraintLaws C}.
Implicit Types a b : Amount C.

Lemma try_from_i64_spec v :
  try_from_i64 (C := C) v =
  if contains (valid_range C) v then Ok (mkAmount v)
  else Err (ConstraintError v (valid_range C)).
Proof. unfold try_from_i64, validate. by destruct (contains _ v). Qed.

Lemma try_from_i64_closed v : closed (try_from_i64 (C := C) v).
Proof.
  rewrite try_from_i64_spec. destruct (contains (valid_range C) v) eqn:E; cbn; auto.
Qed.

Lemma zero_spec {E} : zero (E := E) (C := C) = Ok (mkAmount 0).
Proof.
  unfold zero. change (try_from_i32 0) with (try_from_i64 (C := C) 0).
  rewrite try_from_i64_spec. destruct (contains _ 0) eqn:E'; [done|].
  pose proof range_low. pose proof range_high.
  apply not_true_iff_false in E'. rewrite contains_spec in E'. lia.
Qed.

Lemma zero_ok : amount_ok (C := C) (mkAmount 0) = true.
Proof. apply contains_spec. pose proof range_low. pose proof range_high. cbn. lia. Qed.

Lemma amount_ok_bounds a : amount_ok a = true → - MAX_MONEY ≤ zatoshis a ≤ MAX_MONEY.
Proof.
  unfold amount_ok. rewrite contains_spec. pose proof range_low. pose proof range_high. lia.
Qed.

Lemma add_spec a b :
  amount_ok a = true → amount_ok b = true →
  add a b = try_from_i64 (zatoshis a + zatoshis b).
Proof.
  intros ?%amount_ok_bounds ?%amount_ok_bounds. unfold add, checked_add.
  rewrite try_from_fits; [done|]. apply fits_I64_small. lia.
Qed.

Lemma sub_spec a b :
  amount_ok a = true → amount_ok b = true →
  sub a b = try_from_i64 (zatoshis a - zatoshis b).
Proof.
  intros ?%amount_ok_bounds ?%amount_ok_bounds. unfold sub, Prelude.checked_sub.
  rewrite try_from_fits; [done|]. apply fits_I64_small. lia.
Qed.

Lemma try_from_i128_spec v :
  try_from_i128 (C := C) v =
  if contains (valid_range C) v then Ok (mkAmount v)
  else if fits I64 v then Err (ConstraintError v (valid_range C)) else Err (Convert v).
Proof.
  unfold try_from_i128, try_from. fold (try_from_i64 (C := C)).
  destruct (contains _ v) eqn:E.
  - rewrite fits_I64_small; cbn.
    + fold (try_from_i64 (C := C) v). rewrite try_from_i64_spec. by rewrite E.
    + apply contains_spec in E. pose proof range_low. pose proof range_high. lia.
  - destruct (fits I64 v); cbn; [|done].
    fold (try_from_i64 (C := C) v). rewrite try_from_i64_spec. by rewrite E.
Qed.

Lemma mul_spec a n :
  amount_ok a = true → fits U64 n = true →
  mul a n =
  if contains (valid_range C) (zatoshis a * n) then Ok (mkAmount (zatoshis a * n))
  else Err (MultiplicationOverflow (zatoshis a) n (zatoshis a * n)).
Proof.
  intros Ha%amount_ok_bounds Hn. unfold mul, checked_mul.
  rewrite try_from_fits.
  - cbn. rewrite try_from_i128_spec.
    destruct (contains _ _); [done|]. by destruct (fits I64 _).
  - revert Ha. unfold MAX_MONEY, COIN. rewrite fits_spec in *.
    cbn [ty_min ty_max I128 U64] in *. nia.
Qed.

Lemma quot_between lo hi v n : lo ≤ 0 ≤ hi → lo ≤ v ≤ hi → 0 < n → lo ≤ Z.quot v n ≤ hi.
Proof.
  intros. destruct (Z_le_gt_dec 0 v).
  - pose proof (Z.quot_pos v n). pose proof (Z.quot_le_upper_bound v n v). nia.
  - rewrite <- (Z.opp_involutive v), Z.quot_opp_l by lia.
    pose proof (Z.quot_pos (- v) n). pose proof (Z.quot_le_upper_bound (- v) n (- v)). nia.
Qed.

Lemma div_spec a n :
  amount_ok a = true → fits U64 n = true →
  div a n = if n =? 0 then Err (DivideByZero (zatoshis a)) else Ok (mkAmount (Z.quot (zatoshis a) n)).
Proof.
  intros Ha Hn. unfold div, checked_div. destruct (Z.eqb_spec n 0); [done|].
  assert (Hq : contains (valid_range C) (Z.quot (zatoshis a) n) = true).
  { pose proof range_low. pose proof range_high. unfold amount_ok in Ha.
    rewrite contains_spec in *. apply quot_between; [lia|lia|]. int_lia. }
  rewrite try_from_fits; cbn.
  - rewrite try_from_i128_spec. by rewrite Hq.
  - apply contains_spec in Hq. pose proof range_low. pose proof range_high.
    unfold MAX_MONEY, COIN in *. int_lia.
Qed.

Lemma neg_spec a : amount_ok a = true → neg a = Ok (mkAmount (- zatoshis a)).
Proof.
  intros Ha%amount_ok_bounds. unfold neg.
  rewrite wrap_fits by (apply fits_I64_small; lia).
  unfold try_from_i64, validate, contains. cbn [valid_range NegativeAllowed_Constraint fst snd].
  destruct ((- MAX_MONEY <=? - zatoshis a) && (- zatoshis a <=? MAX_MONEY)) eqn:E; [done|lia].
Qed.

(** Values of the prefixes of a list of amounts. *)
Definition prefix_sum (l : list (Amount C)) (k : nat) : Z := sum_Z (zatoshis <$> take k l).

Lemma try_fold_add_ok acc l s rest :
  amount_ok acc = true → Forall (λ a, amount_ok a = true) l →
  try_fold_add acc l = (Ok s, rest) →
  rest = [] ∧ zatoshis s = zatoshis acc + sum_Z (zatoshis <$> l) ∧
  ∀ k, contains (valid_range C) (zatoshis acc + prefix_sum l k) = true.
Proof.
  intros Hacc Hl. revert acc Hacc. induction Hl as [|a l Ha _ IH]; intros acc Hacc Heq; cbn in Heq.
  - simplify_eq. split_and!; [done|cbn; lia|]. intros k. unfold prefix_sum.
    rewrite take_nil. cbn. by rewrite Z.add_0_r.
  - rewrite add_spec, try_from_i64_spec in Heq by done.
    destruct (contains _ (zatoshis acc + _)) eqn:E; [|done].
    apply IH in Heq as (-> & Hs & Hk); [|done].
    cbn in Hs, Hk |- *. split_and!; [done|lia|]. intros [|k].
    + unfold prefix_sum. cbn. rewrite Z.add_0_r. done.
    + specialize (Hk k). unfold prefix_sum in *. cbn. by rewrite Z.add_assoc.
Qed.

Lemma try_fold_add_err acc l :
  amount_ok acc = true → Forall (λ a, amount_ok a = true) l →
  match try_fold_add acc l with
  | (Ok s, _) => amount_ok s = true
  | (Err e, rest) =>
      ∃ k, (k < length l)%nat ∧ rest = drop (S k) l ∧
        e = ConstraintError (zatoshis acc + prefix_sum l (S k)) (valid_range C) ∧
        contains (valid_range C) (zatoshis acc + prefix_sum l (S k)) = false ∧
        ∀ j, (j ≤ k)%nat → contains (valid_range C) (zatoshis acc + prefix_sum l j) = true
  | (Panic, _) => False
  end.
Proof.
  intros Hacc Hl. revert acc Hacc. induction Hl as [|a l Ha _ IH]; intros acc Hacc; cbn; [done|].
  rewrite add_spec, try_from_i64_spec by done.
  destruct (contains _ (zatoshis acc + _)) eqn:E.
  - specialize (IH (mkAmount (zatoshis acc + zatoshis a)) E).
    destruct (try_fold_add _ l) as [[s|e|] rest]; [done| |done].
    destruct IH as (k & Hk & -> & -> & Hbad & Hgood). cbn in Hbad, Hgood |- *.
    exists (S k). unfold prefix_sum in *. cbn. rewrite Z.add_assoc.
    split_and!; [lia|done|done|done|]. intros [|j] Hj; cbn.
    + rewrite Z.add_0_r. done.
    + rewrite Z.add_assoc. apply Hgood. lia.
  - exists 0%nat. unfold prefix_sum. cbn. rewrite take_0, Z.add_0_r.
    split_and!; [lia|done|done|done|]. intros j Hj. assert (j = 0%nat) as -> by lia. cbn.
    rewrite Z.add_0_r. done.
Qed.

(** [Sum] on valid amounts: the exact sum, or the first prefix out of range. *)
Lemma sum_cases (l : list (Amount C)) :
  Forall (λ a, amount_ok a = true) l →
  match sum l with
  | Ok s => zatoshis s = sum_Z (zatoshis <$> l) ∧ amount_ok s = true ∧
            ∀ k, contains (valid_range C) (prefix_sum l k) = true
  | Err e => ∃ k, (k < length l)%nat ∧
            e = SumOverflow (prefix_sum l (S k)) (length l - S k) ∧
            contains (valid_range C) (prefix_sum l (S k)) = false ∧
            ∀ j, (j ≤ k)%nat → contains (valid_range C) (prefix_sum l j) = true
  | Panic => False
  end.
Proof.
  intros Hl. unfold sum. rewrite zero_spec. cbn.
  pose proof (try_fold_add_err (mkAmount 0) l zero_ok Hl) as H1.
  pose proof (λ s rest, try_fold_add_ok (mkAmount 0) l s rest zero_ok Hl) as H2.
  destruct (try_fold_add _ l) as [[s|e|] rest]; [| |done].
  - destruct (H2 s rest eq_refl) as (_ & Hs & Hk). cbn in *. auto.
  - destruct H1 as (k & Hk & -> & -> & Hbad & Hgood). cbn in *.
    exists k. rewrite length_drop. auto.
Qed.

Lemma div_closed a n : amount_ok a = true → fits U64 n = true → closed (div a n).
Proof.
  intros Ha Hn. rewrite div_spec by done. destruct (Z.eqb_spec n 0); cbn; [done|].
  pose proof range_low. pose proof range_high. unfold amount_ok in *.
  rewrite contains_spec in *. apply quot_between; [lia|lia|]. int_lia.
Qed.

End Theory.

Lemma prefix_sum_non_negative (l : list (Amount NonNegative)) k :
  Forall (λ a, amount_ok a = true) l →
  0 ≤ prefix_sum l k ≤ sum_Z (zatoshis <$> l).
Proof.
  intros Hl. unfold prefix_sum. rewrite fmap_take. apply sum_Z_take.
  rewrite Forall_fmap. eapply Forall_impl; [exact Hl|]. intros a Ha.
  apply contains_spec in Ha. cbn in *. lia.
Qed.

Lemma is_ok_sum_non_negative (l : list (Amount NonNegative)) :
  Forall (λ a, amount_ok a = true) l →
  is_ok (sum l) = bool_decide (sum_Z (zatoshis <$> l) ≤ MAX_MONEY).
Proof.
  intros Hl. pose proof (sum_cases l Hl) as Hs. destruct (sum l) as [s|e|]; [| |done]; cbn.
  - destruct Hs as (Hs & Hok & _). rewrite bool_decide_true; [done|].
    apply contains_spec in Hok. cbn in *. lia.
  - destruct Hs as (k & _ & _ & Hbad & _). rewrite bool_decide_false; [done|]. intros Hle.
    apply not_true_iff_false in Hbad. apply Hbad. apply contains_spec. cbn.
    pose proof (prefix_sum_non_negative l (S k) Hl). lia.
Qed.

(** ** Properties *)

(** arithmetic on valid amounts is closed: for every constraint marker,
    [+], [-], [* u64], [/ u64] and [Sum] return either an amount that satisfies
    the constraint or an error, and never panic; negation always succeeds with
    the exact opposite value. *)
Theorem arithmetic_closed {C} `{ConstraintLaws C} (a b : Amount C) (n : Z) (l : list (Amount C)) :
  amount_ok a = true → amount_ok b = true → fits U64 n = true →
  Forall (λ a, amount_ok a = true) l →
  closed (add a b) ∧ closed (sub a b) ∧ closed (mul a n) ∧ closed (div a n) ∧ closed (sum l) ∧
  ∃ m, neg a = Ok m ∧ amount_ok m = true ∧ zatoshis m = - zatoshis a.
Proof.
  intros Ha Hb Hn Hl. split_and!.
  - rewrite add_spec by done. apply try_from_i64_closed.
  - rewrite sub_spec by done. apply try_from_i64_closed.
  - rewrite mul_spec by done. by destruct (contains _ _) eqn:E.
  - pose proof (div_closed a n Ha Hn) as Hd. exact Hd.
  - pose proof (sum_cases l Hl) as Hs. destruct (sum l); naive_solver.
  - exists (mkAmount (- zatoshis a)). rewrite neg_spec by done. split_and!; [done| |done].
    apply contains_spec. apply amount_ok_bounds in Ha. cbn. lia.
Qed.

Lemma arithmetic_closed_witness :
  ∃ m, neg (C := NonNegative) (mkAmount 5) = Ok m ∧ amount_ok m = true ∧ zatoshis m = - 5.
Proof.
  apply (arithmetic_closed (C := NonNegative) (mkAmount 5) (mkAmount MAX_MONEY) 3 [mkAmount 7]);
    [reflexivity|reflexivity|reflexivity|repeat constructor].
Defined.

(** addition, subtraction and multiplication of valid amounts are exact or
    report the exact out-of-range value; division truncates towards zero and
    fails only on a zero divisor. *)
Theorem arithmetic_exact {C} `{ConstraintLaws C} (a b : Amount C) (n : Z) :
  amount_ok a = true → amount_ok b = true → fits U64 n = true →
  (add a b = if contains (valid_range C) (zatoshis a + zatoshis b)
             then Ok (mkAmount (zatoshis a + zatoshis b))
             else Err (ConstraintError (zatoshis a + zatoshis b) (valid_range C))) ∧
  (sub a b = if contains (valid_range C) (zatoshis a - zatoshis b)
             then Ok (mkAmount (zatoshis a - zatoshis b))
             else Err (ConstraintError (zatoshis a - zatoshis b) (valid_range C))) ∧
  (mul a n = if contains (valid_range C) (zatoshis a * n)
             then Ok (mkAmount (zatoshis a * n))
             else Err (MultiplicationOverflow (zatoshis a) n (zatoshis a * n))) ∧
  (div a n = if n =? 0 then Err (DivideByZero (zatoshis a))
             else Ok (mkAmount (Z.quot (zatoshis a) n))).
Proof.
  intros Ha Hb Hn. rewrite add_spec, sub_spec, !try_from_i64_spec by done.
  split_and!; [done|done|by apply mul_spec|by apply div_spec].
Qed.

Lemma arithmetic_exact_witness :
  add (C := NonNegative) (mkAmount MAX_MONEY) (mkAmount 1) =
    Err (ConstraintError (MAX_MONEY + 1) (0, MAX_MONEY)).
Proof.
  destruct (arithmetic_exact (C := NonNegative) (mkAmount MAX_MONEY) (mkAmount 1) 2)
    as [-> _]; reflexivity.
Defined.

(** [Sum] over valid amounts returns the exact total when every prefix sum
    is in range; otherwise it stops at the first prefix that is not, and
    reports that partial sum and the number of items it did not read. *)
Theorem sum_exact {C} `{ConstraintLaws C} (l : list (Amount C)) :
  Forall (λ a, amount_ok a = true) l →
  ((∀ k, contains (valid_range C) (prefix_sum l k) = true) →
     sum l = Ok (mkAmount (sum_Z (zatoshis <$> l)))) ∧
  (∀ k, (k < length l)%nat → contains (valid_range C) (prefix_sum l (S k)) = false →
     (∀ j, (j ≤ k)%nat → contains (valid_range C) (prefix_sum l j) = true) →
     sum l = Err (SumOverflow (prefix_sum l (S k)) (length l - S k))).
Proof.
  intros Hl. pose proof (sum_cases l Hl) as Hs. destruct (sum l) as [s|e|]; [| |done].
  - destruct Hs as (Hs & _ & Hk). split.
    + intros _. f_equal. by apply amount_eq.
    + intros k ? Hbad. by rewrite Hk in Hbad.
  - destruct Hs as (k & ? & -> & Hbad & Hgood). split.
    + intros Hall. by rewrite Hall in Hbad.
    + intros k' Hk' Hbad' Hgood'. assert (k = k') as ->; [|done].
      destruct (decide (k < k')%nat); [rewrite Hgood' in Hbad by lia; done|].
      destruct (decide (k' < k)%nat); [rewrite Hgood in Hbad' by lia; done|lia].
Qed.

Lemma sum_exact_witness :
  sum (C := NonNegative) [mkAmount 1; mkAmount MAX_MONEY; mkAmount 2; mkAmount 3] =
    Err (SumOverflow (MAX_MONEY + 1) 2).
Proof.
  destruct (sum_exact (C := NonNegative) [mkAmount 1; mkAmount MAX_MONEY; mkAmount 2; mkAmount 3])
    as [_ H]; [repeat constructor|].
  refine (H 1%nat _ _ _).
  - cbn. lia.
  - reflexivity.
  - intros j Hj. destruct j as [|[|j]]; [reflexivity|reflexivity|lia].
Defined.

(** sums of non-negative amounts do not depend on the order of the items:
    they succeed exactly when the total is at most [MAX_MONEY]. *)
Theorem sum_non_negative (l : list (Amount NonNegative)) :
  Forall (λ a, amount_ok a = true) l →
  (sum_Z (zatoshis <$> l) ≤ MAX_MONEY ↔ sum l = Ok (mkAmount (sum_Z (zatoshis <$> l)))) ∧
  ∀ l', l ≡ₚ l' → is_ok (sum l') = is_ok (sum l).
Proof.
  intros Hl. split.
  - pose proof (is_ok_sum_non_negative l Hl) as Hok. pose proof (sum_cases l Hl) as Hs.
    destruct (sum l) as [s|e|]; cbn in Hok; [| |done].
    + symmetry in Hok. apply bool_decide_eq_true in Hok. destruct Hs as (Hs & _).
      split; [|done]. intros _. f_equal. by apply amount_eq.
    + symmetry in Hok. apply bool_decide_eq_false in Hok. naive_solver.
  - intros l' Hp. rewrite !is_ok_sum_non_negative; [|done|by rewrite <- Hp].
    apply bool_decide_ext. by rewrite (sum_Z_perm (zatoshis <$> l') (zatoshis <$> l)) by (by rewrite Hp).
Qed.

Lemma sum_non_negative_witness :
  is_ok (sum (C := NonNegative) [mkAmount 1; mkAmount MAX_MONEY]) =
  is_ok (sum (C := NonNegative) [mkAmount MAX_MONEY; mkAmount 1]).
Proof.
  apply (sum_non_negative [mkAmount MAX_MONEY; mkAmount 1]).
  - repeat constructor.
  - apply Permutation_swap.
Defined.
