(* ===== verification/Serialization.v ===== *)
(** * Consensus-critical serialization

    [zebra-chain/src/serialization/]: [error.rs], [zcash_serialize.rs],
    [zcash_deserialize.rs] and [compact_size.rs], and the [ZcashSerialize] and
    [ZcashDeserialize] implementations of [amount.rs].

    A writer is the bytes written to it: errors of the underlying writer are
    not modelled. A reader is the bytes it has left, and a read past its end is
    the [Io] error. [usize] has 64 bits.

    The traits are the type classes [ZcashSerialize] and [ZcashDeserialize];
    [ZcashCodec] states what users of the two rely on: reading back what was
    written gives the value and the unread rest, every accepted byte string is
    the one the value is written to (encodings are canonical), and reading
    never panics. [Vec<T>] satisfies it whenever [T] does. *)

From stdpp Require Import strings.
From S2P Require Import Prelude Amount.

Inductive SerializationError :=
| Io
| Parse (msg : string)
| TryFromIntError
| AmountError (source : Amount.Error)
| BadTransactionBalance.

#[export] Instance SerializationError_eq_dec : EqDecision SerializationError.
Proof. solve_decision. Defined.

Class ZcashSerialize (T : Type) := zcash_serialize : T → Res SerializationError (list Z).
Class ZcashDeserialize (T : Type) := zcash_deserialize : Parser SerializationError T.
(** A bound on the length of the vectors of [T] an honest peer sends. *)
Class TrustedPreallocate (T : Type) := max_allocation : Z.
Arguments max_allocation T {_}.

Definition MAX_PROTOCOL_MESSAGE_LEN : Z := 2 * 1024 * 1024.
Definition MAX_U8_ALLOCATION : Z := MAX_PROTOCOL_MESSAGE_LEN - 5.

(** ** Primitive reads *)

(** [Read::read_exact] into a buffer of [n] bytes. *)
Definition read_bytes (n : nat) : Parser SerializationError (list Z) := λ bs,
  if (length bs <? n)%nat then Err Io else Ok (take n bs, drop n bs).

(** [read_u8], [read_u16::<LittleEndian>], [read_u32], [read_u64]: [n] bytes. *)
Definition read_uint (n : nat) : Parser SerializationError Z := λ bs,
  '(b, rest) ← read_bytes n bs; Ok (of_le_bytes b, rest).

Definition read_i64 : Parser SerializationError Z := λ bs,
  '(b, rest) ← read_bytes 8 bs; Ok (i64_of_le_bytes b, rest).

(** ** Amounts *)

#[export] Instance NegativeAllowed_serialize : ZcashSerialize (Amount NegativeAllowed) := λ self,
  Ok (le_bytes 8 (zatoshis self)).

#[export] Instance NegativeAllowed_deserialize : ZcashDeserialize (Amount NegativeAllowed) := λ reader,
  '(v, reader) ← read_i64 reader;
  a ← map_err AmountError (try_from_i64 v);
  Ok (a, reader).

#[export] Instance NonNegative_serialize : ZcashSerialize (Amount NonNegative) := λ self,
  amount ← expect (try_from U64 (zatoshis self));
  Ok (le_bytes 8 amount).

#[export] Instance NonNegative_deserialize : ZcashDeserialize (Amount NonNegative) := λ reader,
  '(v, reader) ← read_uint 8 reader;
  a ← map_err AmountError (try_from_u64 v);
  Ok (a, reader).

(** ** [CompactSize64] *)

Record CompactSize64 := mkCompactSize64 { cs64 : Z }.

#[export] Instance CompactSize64_serialize : ZcashSerialize CompactSize64 := λ self,
  let n := cs64 self in
  Ok (if n <=? 0xfc then le_bytes 1 n
      else if n <=? 0xffff then 0xfd :: le_bytes 2 n
      else if n <=? 0xffffffff then 0xfe :: le_bytes 4 n
      else 0xff :: le_bytes 8 n).

(** A size read from [n] bytes, rejected below the least one that needs them. *)
Definition read_canonical (n : nat) (least : Z) : Parser SerializationError CompactSize64 := λ reader,
  '(v, reader) ← read_uint n reader;
  if least <=? v then Ok (mkCompactSize64 v, reader) else Err (Parse "non-canonical CompactSize").

#[export] Instance CompactSize64_deserialize : ZcashDeserialize CompactSize64 := λ reader,
  '(flag_byte, reader) ← read_uint 1 reader;
  if flag_byte <=? 0xfc then Ok (mkCompactSize64 flag_byte, reader)
  else if flag_byte =? 0xfd then read_canonical 2 0xfd reader
  else if flag_byte =? 0xfe then read_canonical 4 0x10000 reader
  else read_canonical 8 0x100000000 reader.

(** ** [CompactSizeMessage] *)

Record CompactSizeMessage := mkCompactSizeMessage { csm : Z }.

(** [CompactSizeMessage::try_from(usize)]. *)
Definition csm_try_from (size : Z) : Res SerializationError CompactSizeMessage :=
  size ← ok_or (try_from U32 size) TryFromIntError;
  limit ← expect (try_from U32 MAX_PROTOCOL_MESSAGE_LEN);
  if limit <? size then Err (Parse "CompactSize larger than protocol message limit")
  else Ok (mkCompactSizeMessage size).

#[export] Instance CompactSizeMessage_serialize : ZcashSerialize CompactSizeMessage := λ self,
  limit ← expect (try_from U32 MAX_PROTOCOL_MESSAGE_LEN);
  _ ← assert (csm self <=? limit);
  zcash_serialize (mkCompactSize64 (csm self)).

#[export] Instance CompactSizeMessage_deserialize : ZcashDeserialize CompactSizeMessage := λ reader,
  '(size, reader) ← (zcash_deserialize : Parser SerializationError CompactSize64) reader;
  size ← ok_or (try_from U64 (cs64 size)) TryFromIntError;
  size ← csm_try_from size;
  Ok (size, reader).

(** ** Vectors *)

Fixpoint serialize_external_count {T} `{ZcashSerialize T} (vec : list T) :
    Res SerializationError (list Z) :=
  match vec with
  | [] => Ok []
  | x :: vec =>
      b ← zcash_serialize x;
      bs ← serialize_external_count vec;
      Ok (b ++ bs)
  end.

#[export] Instance Vec_serialize T `{ZcashSerialize T} : ZcashSerialize (list T) := λ self,
  len ← expect_ok (csm_try_from (Z.of_nat (length self)));
  l ← zcash_serialize len;
  bs ← serialize_external_count self;
  Ok (l ++ bs).

(** The [for] loop of [zcash_deserialize_external_count]. *)
Fixpoint read_items {T} `{ZcashDeserialize T} (count : nat) : Parser SerializationError (list T) :=
  λ reader,
  match count with
  | O => Ok ([], reader)
  | S count =>
      '(x, reader) ← zcash_deserialize reader;
      '(xs, reader) ← read_items count reader;
      Ok (x :: xs, reader)
  end.

Definition deserialize_external_count {T} `{ZcashDeserialize T, TrustedPreallocate T}
    (external_count : Z) : Parser SerializationError (list T) := λ reader,
  if max_allocation T <? external_count then Err (Parse "Vector longer than max_allocation")
  else read_items (Z.to_nat external_count) reader.

#[export] Instance Vec_deserialize T `{ZcashDeserialize T, TrustedPreallocate T} :
    ZcashDeserialize (list T) := λ reader,
  '(len, reader) ← (zcash_deserialize : Parser SerializationError CompactSizeMessage) reader;
  deserialize_external_count (csm len) reader.

(** [Vec<u8>] has its own implementation. *)
Record VecU8 := mkVecU8 { u8s : list Z }.

Definition serialize_bytes (vec : list Z) : Res SerializationError (list Z) :=
  len ← csm_try_from (Z.of_nat (length vec));
  l ← zcash_serialize len;
  Ok (l ++ vec).

Definition deserialize_bytes_external_count (external_count : Z) :
    Parser SerializationError (list Z) := λ reader,
  if MAX_U8_ALLOCATION <? external_count then Err (Parse "Byte vector longer than MAX_U8_ALLOCATION")
  else read_bytes (Z.to_nat external_count) reader.

#[export] Instance VecU8_serialize : ZcashSerialize VecU8 := λ self, serialize_bytes (u8s self).

#[export] Instance VecU8_deserialize : ZcashDeserialize VecU8 := λ reader,
  '(len, reader) ← (zcash_deserialize : Parser SerializationError CompactSizeMessage) reader;
  '(v, reader) ← deserialize_bytes_external_count (csm len) reader;
  Ok (mkVecU8 v, reader).

(** ** The contract of the two traits *)

Class ZcashCodec (T : Type) `{ZcashSerialize T, ZcashDeserialize T} := {
  (** the values the type represents *)
  valid : T → Prop;
  codec_roundtrip : ∀ x, valid x → ∃ enc,
    zcash_serialize x = Ok enc ∧ bytes_ok enc ∧
    ∀ rest, zcash_deserialize (enc ++ rest) = Ok (x, rest);
  codec_canonical : ∀ bs x rest, bytes_ok bs → zcash_deserialize bs = Ok (x, rest) →
    valid x ∧ ∃ enc, zcash_serialize x = Ok enc ∧ bs = enc ++ rest;
  codec_total : ∀ bs, no_panic (zcash_deserialize bs);
}.

Lemma bytes_ok_app bs cs : bytes_ok (bs ++ cs) ↔ bytes_ok bs ∧ bytes_ok cs.
Proof. apply Forall_app. Qed.

Lemma read_bytes_app n b rest : length b = n → read_bytes n (b ++ rest) = Ok (b, rest).
Proof.
  intros <-. unfold read_bytes. rewrite length_app.
  replace (_ <? _)%nat with false by (symmetry; apply Nat.ltb_ge; lia).
  by rewrite take_app_length, drop_app_length.
Qed.

Lemma read_bytes_Ok n bs b rest : read_bytes n bs = Ok (b, rest) → bs = b ++ rest ∧ length b = n.
Proof.
  unfold read_bytes. destruct (Nat.ltb_spec (length bs) n); [done|]. intros [= <- <-].
  rewrite take_drop, length_take_le by lia. done.
Qed.

Lemma read_uint_app n z rest :
  0 ≤ z < 256 ^ Z.of_nat n → read_uint n (le_bytes n z ++ rest) = Ok (z, rest).
Proof.
  intros Hz. unfold read_uint. rewrite read_bytes_app by apply length_le_bytes. cbn.
  by rewrite of_le_bytes_le_bytes, Z.mod_small.
Qed.

Lemma read_uint_Ok n bs z rest :
  bytes_ok bs → read_uint n bs = Ok (z, rest) →
  bs = le_bytes n z ++ rest ∧ 0 ≤ z < 256 ^ Z.of_nat n ∧ bytes_ok rest.
Proof.
  intros Hbs Hr. unfold read_uint in Hr. apply bind_Ok in Hr as ([b r] & Hb & Hr).
  apply read_bytes_Ok in Hb as [-> <-]. simplify_eq. apply bytes_ok_app in Hbs as [Hb Hrest].
  rewrite le_bytes_of_le_bytes by done. auto using of_le_bytes_range.
Qed.

Lemma no_panic_read_bytes n bs : no_panic (read_bytes n bs).
Proof. unfold no_panic, read_bytes. by destruct (_ <? _)%nat. Qed.

Lemma no_panic_read_uint n bs : no_panic (read_uint n bs).
Proof. apply no_panic_bind; [apply no_panic_read_bytes|]. by intros [??] _. Qed.

#[export] Hint Resolve no_panic_read_bytes no_panic_read_uint : zebra.

(** *** Amounts *)

#[export] Program Instance NegativeAllowed_codec : ZcashCodec (Amount NegativeAllowed) :=
  {| valid a := amount_ok a = true |}.
Next Obligation.
  intros a Ha. exists (le_bytes 8 (zatoshis a)). split_and!; [done|apply le_bytes_ok|].
  intros rest. unfold zcash_deserialize, NegativeAllowed_deserialize, read_i64.
  rewrite read_bytes_app by apply length_le_bytes. cbn -[le_bytes].
  pose proof (amount_ok_bounds a Ha).
  rewrite i64_le_bytes_roundtrip by (apply fits_I64_small; lia).
  rewrite try_from_i64_spec. unfold amount_ok in Ha. rewrite Ha. cbn. by destruct a.
Qed.
Next Obligation.
  intros bs x rest Hbs Hd. unfold zcash_deserialize, NegativeAllowed_deserialize, read_i64 in Hd.
  destruct (read_bytes 8 bs) as [[b r]| |] eqn:Hb; [|done|done]. cbn in Hd.
  apply read_bytes_Ok in Hb as [-> Hl].
  rewrite try_from_i64_spec in Hd. destruct (contains _ _) eqn:E; [|done]. cbn in Hd. simplify_eq.
  split; [done|]. exists b. apply bytes_ok_app in Hbs as [Hb _]. split; [|done].
  unfold zcash_serialize, NegativeAllowed_serialize. cbn [zatoshis].
  by rewrite le_bytes_i64_of_le_bytes.
Qed.
Next Obligation.
  intros bs. unfold zcash_deserialize, NegativeAllowed_deserialize, read_i64, read_bytes.
  destruct (_ <? _)%nat; [done|]. cbn. rewrite try_from_i64_spec. by destruct (contains _ _).
Qed.

Lemma try_from_u64_spec v :
  0 ≤ v → try_from_u64 (C := NonNegative) v =
  if v <=? MAX_MONEY then Ok (mkAmount v)
  else if fits I64 v then Err (ConstraintError v (0, MAX_MONEY)) else Err (Convert v).
Proof.
  intros Hv. change (try_from_u64 v) with (try_from_i128 (C := NonNegative) v).
  rewrite try_from_i128_spec.
  unfold contains. cbn [valid_range NonNegative_Constraint fst snd].
  by rewrite (proj2 (Z.leb_le 0 v) Hv).
Qed.

Lemma NonNegative_serialize_spec (a : Amount NonNegative) :
  amount_ok a = true → zcash_serialize a = Ok (le_bytes 8 (zatoshis a)).
Proof.
  intros Ha%contains_spec. cbn in Ha. unfold zcash_serialize, NonNegative_serialize.
  rewrite try_from_fits; [done|]. unfold MAX_MONEY, COIN in Ha. int_lia.
Qed.

#[export] Program Instance NonNegative_codec : ZcashCodec (Amount NonNegative) :=
  {| valid a := amount_ok a = true |}.
Next Obligation.
  intros a Ha. exists (le_bytes 8 (zatoshis a)).
  split_and!; [by apply NonNegative_serialize_spec|apply le_bytes_ok|].
  intros rest. unfold zcash_deserialize, NonNegative_deserialize.
  apply contains_spec in Ha. cbn in Ha.
  rewrite read_uint_app by (unfold MAX_MONEY, COIN in Ha; cbn; lia). cbn.
  rewrite try_from_u64_spec by lia. rewrite (proj2 (Z.leb_le _ _)) by lia. by destruct a.
Qed.
Next Obligation.
  intros bs x rest Hbs Hd. unfold zcash_deserialize, NonNegative_deserialize in Hd.
  destruct (read_uint 8 bs) as [[v r]| |] eqn:Hb; [|done|done]. cbn in Hd.
  apply read_uint_Ok in Hb as (-> & Hv & _); [|done].
  rewrite try_from_u64_spec in Hd by lia.
  destruct (Z.leb_spec v MAX_MONEY); [|by destruct (fits _ _)]. cbn in Hd. simplify_eq.
  assert (amount_ok (C := NonNegative) (mkAmount v) = true) as Hok by (apply contains_spec; cbn; lia).
  split; [done|]. exists (le_bytes 8 v). split; [|done].
  by apply (NonNegative_serialize_spec (mkAmount v)).
Qed.
Next Obligation.
  intros bs. apply no_panic_bind; [apply no_panic_read_uint|]. intros [v r] _.
  apply no_panic_bind; [|done]. apply no_panic_map_err. unfold try_from_u64, try_from.
  destruct (fits _ _); [cbn|done]. unfold validate. by destruct (contains _ _).
Qed.

(** *** Compact sizes *)

Lemma le_bytes_1 n : 0 ≤ n < 256 → le_bytes 1 n = [n].
Proof. intros. cbn. by rewrite Z.mod_small. Qed.

Lemma read_flag b rest : is_byte b = true → read_uint 1 (b :: rest) = Ok (b, rest).
Proof.
  unfold is_byte. intros. change (b :: rest) with ([b] ++ rest). rewrite <- (le_bytes_1 b) by lia.
  apply read_uint_app. cbn. lia.
Qed.

Lemma read_canonical_app n least v rest :
  0 ≤ v < 256 ^ Z.of_nat n → least ≤ v →
  read_canonical n least (le_bytes n v ++ rest) = Ok (mkCompactSize64 v, rest).
Proof.
  intros. unfold read_canonical. rewrite read_uint_app by done. cbn.
  by rewrite (proj2 (Z.leb_le _ _)).
Qed.

Lemma read_canonical_Ok n least bs x rest :
  bytes_ok bs → read_canonical n least bs = Ok (x, rest) →
  bs = le_bytes n (cs64 x) ++ rest ∧ least ≤ cs64 x < 256 ^ Z.of_nat n.
Proof.
  intros Hbs Hr. unfold read_canonical in Hr. apply bind_Ok in Hr as ([v r] & Hv & Hr).
  apply read_uint_Ok in Hv as (-> & ? & _); [|done].
  destruct (Z.leb_spec least v); [|done]. simplify_eq. cbn. split; [done|lia].
Qed.

Lemma no_panic_read_canonical n least bs : no_panic (read_canonical n least bs).
Proof.
  apply no_panic_bind; [apply no_panic_read_uint|]. intros [v r] _. by destruct (_ <=? _).
Qed.

Ltac cs64_cases n :=
  destruct (Z.leb_spec n 0xfc);
  [|destruct (Z.leb_spec n 0xffff); [|destruct (Z.leb_spec n 0xffffffff)]].

Lemma CompactSize64_deserialize_serialize n rest :
  fits U64 n = true → ∃ enc, zcash_serialize (mkCompactSize64 n) = Ok enc ∧ bytes_ok enc ∧
  zcash_deserialize (enc ++ rest) = Ok (mkCompactSize64 n, rest).
Proof.
  intros Hn. rewrite fits_spec in Hn. cbn [ty_min ty_max U64] in Hn.
  unfold zcash_serialize, CompactSize64_serialize, zcash_deserialize, CompactSize64_deserialize.
  cbn [cs64]. eexists. split; [done|].
  cs64_cases n; (split; [rewrite ?le_bytes_1 by lia; repeat first
    [apply le_bytes_ok | apply Forall_cons_2; [unfold is_byte; lia|] | apply Forall_nil_2]|]).
  - rewrite le_bytes_1 by lia. cbn [app]. rewrite read_flag by (unfold is_byte; lia). cbn.
    by rewrite (proj2 (Z.leb_le n 252)) by lia.
  - cbn [app]. rewrite read_flag by done. cbn -[le_bytes read_canonical].
    apply read_canonical_app; cbn; lia.
  - cbn [app]. rewrite read_flag by done. cbn -[le_bytes read_canonical].
    apply read_canonical_app; cbn; lia.
  - cbn [app]. rewrite read_flag by done. cbn -[le_bytes read_canonical].
    apply read_canonical_app; cbn; lia.
Qed.

Lemma CompactSize64_serialize_deserialize bs x rest :
  bytes_ok bs → zcash_deserialize bs = Ok (x, rest) →
  fits U64 (cs64 x) = true ∧ ∃ enc, zcash_serialize x = Ok enc ∧ bs = enc ++ rest.
Proof.
  intros Hbs Hd. unfold zcash_deserialize, CompactSize64_deserialize in Hd.
  apply bind_Ok in Hd as ([f r] & Hf & Hd). apply read_uint_Ok in Hf as (-> & Hf & Hr); [|done].
  change (256 ^ Z.of_nat 1) with 256 in Hf. rewrite le_bytes_1 by lia.
  unfold zcash_serialize, CompactSize64_serialize.
  destruct (Z.leb_spec f 0xfc).
  { simplify_eq. cbn [cs64]. split; [int_lia|]. eexists. split; [done|].
    rewrite (proj2 (Z.leb_le f 0xfc)) by lia. by rewrite le_bytes_1 by lia. }
  destruct (Z.eqb_spec f 0xfd); [|destruct (Z.eqb_spec f 0xfe)];
    apply read_canonical_Ok in Hd as [-> Hx]; try done; cbn in Hx;
    (split; [int_lia|]); eexists; (split; [done|]); cs64_cases (cs64 x); try lia; subst; try done.
  by assert (f = 255) as -> by lia.
Qed.

#[export] Program Instance CompactSize64_codec : ZcashCodec CompactSize64 :=
  {| valid x := fits U64 (cs64 x) = true |}.
Next Obligation.
  intros [n] Hn. destruct (CompactSize64_deserialize_serialize n [] Hn) as (enc & Hs & Hb & _).
  exists enc. split_and!; [done|done|]. intros rest.
  destruct (CompactSize64_deserialize_serialize n rest Hn) as (enc' & Hs' & _ & Hd). congruence.
Qed.
Next Obligation. intros bs x rest. apply CompactSize64_serialize_deserialize. Qed.
Next Obligation.
  intros bs. apply no_panic_bind; [apply no_panic_read_uint|]. intros [f r] _.
  destruct (f <=? 252); [done|]. destruct (f =? 253); [apply no_panic_read_canonical|].
  destruct (f =? 254); apply no_panic_read_canonical.
Qed.

Lemma csm_try_from_spec size :
  fits U64 size = true →
  csm_try_from size =
  if size <=? MAX_PROTOCOL_MESSAGE_LEN then Ok (mkCompactSizeMessage size)
  else if fits U32 size then Err (Parse "CompactSize larger than protocol message limit")
  else Err TryFromIntError.
Proof.
  intros Hs. unfold csm_try_from.
  change (try_from U32 MAX_PROTOCOL_MESSAGE_LEN) with (Some MAX_PROTOCOL_MESSAGE_LEN).
  unfold try_from.
  assert (size ≤ MAX_PROTOCOL_MESSAGE_LEN → fits U32 size = true)
    by (unfold MAX_PROTOCOL_MESSAGE_LEN; int_lia).
  destruct (fits U32 size) eqn:E; cbn -[Z.leb Z.ltb];
    destruct (Z.leb_spec size MAX_PROTOCOL_MESSAGE_LEN).
  - by rewrite (proj2 (Z.ltb_ge _ _)) by lia.
  - by rewrite (proj2 (Z.ltb_lt _ _)) by lia.
  - naive_solver.
  - done.
Qed.

Lemma CompactSizeMessage_serialize_spec x :
  csm x ≤ MAX_PROTOCOL_MESSAGE_LEN → zcash_serialize x = zcash_serialize (mkCompactSize64 (csm x)).
Proof.
  intros. unfold zcash_serialize at 1, CompactSizeMessage_serialize.
  change (try_from U32 MAX_PROTOCOL_MESSAGE_LEN) with (Some MAX_PROTOCOL_MESSAGE_LEN).
  cbn -[Z.leb]. by rewrite (proj2 (Z.leb_le _ _)) by lia.
Qed.

#[export] Program Instance CompactSizeMessage_codec : ZcashCodec CompactSizeMessage :=
  {| valid x := 0 ≤ csm x ≤ MAX_PROTOCOL_MESSAGE_LEN |}.
Next Obligation.
  intros [n] Hn. cbn in Hn.
  assert (Hf : fits U64 n = true) by (unfold MAX_PROTOCOL_MESSAGE_LEN in Hn; int_lia).
  destruct (codec_roundtrip (mkCompactSize64 n)) as (enc & Hs & Hb & Hd); [done|].
  exists enc. rewrite CompactSizeMessage_serialize_spec by (cbn; lia). split_and!; [done|done|].
  intros rest. unfold zcash_deserialize, CompactSizeMessage_deserialize. rewrite Hd. cbn -[csm_try_from].
  rewrite try_from_fits by done. cbn -[csm_try_from]. rewrite csm_try_from_spec by done.
  by rewrite (proj2 (Z.leb_le _ _)) by lia.
Qed.
Next Obligation.
  intros bs x rest Hbs Hd. unfold zcash_deserialize, CompactSizeMessage_deserialize in Hd.
  apply bind_Ok in Hd as ([s r] & Hs & Hd). apply codec_canonical in Hs as (Hv & enc & He & ->); [|done].
  cbn in Hv. rewrite try_from_fits in Hd by done. cbn -[csm_try_from] in Hd.
  rewrite csm_try_from_spec in Hd by done.
  destruct (Z.leb_spec (cs64 s) MAX_PROTOCOL_MESSAGE_LEN); [|by destruct (fits U32 _)].
  cbn in Hd. simplify_eq. cbn. split; [int_lia|].
  exists enc. split; [|done]. rewrite CompactSizeMessage_serialize_spec by done. by destruct s.
Qed.
Next Obligation.
  intros bs. apply no_panic_bind; [apply codec_total|]. intros [s r] _.
  apply no_panic_bind. { unfold try_from. by destruct (fits _ _). }
  intros v Hv. apply no_panic_bind; [|done]. unfold csm_try_from.
  change (try_from U32 MAX_PROTOCOL_MESSAGE_LEN) with (Some MAX_PROTOCOL_MESSAGE_LEN).
  unfold try_from.
  destruct (fits U32 v); [|done]. cbn -[Z.ltb]. by destruct (_ <? _).
Qed.

(** *** Vectors *)

Section Vec.
Context {T : Type} `{ZcashCodec T} `{TrustedPreallocate T}.

Lemma serialize_items_roundtrip (l : list T) :
  Forall valid l → ∃ enc, serialize_external_count l = Ok enc ∧ bytes_ok enc ∧
  ∀ rest, read_items (length l) (enc ++ rest) = Ok (l, rest).
Proof.
  induction 1 as [|x l Hx _ (enc & Hs & Hb & Hd)]; cbn.
  - exists []. split_and!; [done|constructor|done].
  - destruct (codec_roundtrip x Hx) as (e & He & Heb & Hed). exists (e ++ enc).
    rewrite He. cbn. rewrite Hs. cbn. split_and!; [done|by apply bytes_ok_app|].
    intros rest. by rewrite <- (assoc_L _), Hed; cbn; rewrite Hd.
Qed.

Lemma read_items_canonical n bs (l : list T) rest :
  bytes_ok bs → read_items n bs = Ok (l, rest) →
  Forall valid l ∧ length l = n ∧ ∃ enc, serialize_external_count l = Ok enc ∧ bs = enc ++ rest.
Proof.
  revert bs l. induction n as [|n IH]; intros bs l Hbs Hr; cbn in Hr.
  - simplify_eq. split_and!; [constructor|done|by exists []].
  - apply bind_Ok in Hr as ([x r] & Hx & Hr). apply bind_Ok in Hr as ([xs r'] & Hxs & Hr). simplify_eq.
    apply codec_canonical in Hx as (Hv & e & He & ->); [|done].
    apply bytes_ok_app in Hbs as [? ?]. apply IH in Hxs as (? & <- & enc & Hs & ->); [|done].
    split_and!; [by constructor|done|]. exists (e ++ enc). cbn. rewrite He. cbn. rewrite Hs. cbn.
    by rewrite (assoc_L (++)).
Qed.

Lemma no_panic_read_items n bs : no_panic (read_items (T := T) n bs).
Proof.
  revert bs. induction n as [|n IH]; intros bs; cbn; [done|].
  apply no_panic_bind; [apply codec_total|]. intros [x r] _.
  apply no_panic_bind; [apply IH|]. by intros [xs r'] _.
Qed.

#[export] Program Instance Vec_codec : ZcashCodec (list T) :=
  {| valid l := Forall valid l ∧ Z.of_nat (length l) ≤ max_allocation T ∧
                Z.of_nat (length l) ≤ MAX_PROTOCOL_MESSAGE_LEN |}.
Next Obligation.
  intros l (Hl & Hmax & Hlen).
  assert (Hf : fits U64 (Z.of_nat (length l)) = true)
    by (unfold MAX_PROTOCOL_MESSAGE_LEN in Hlen; int_lia).
  destruct (codec_roundtrip (mkCompactSizeMessage (Z.of_nat (length l))))
    as (lenc & Hls & Hlb & Hld); [cbn; lia|].
  destruct (serialize_items_roundtrip l Hl) as (enc & Hs & Hb & Hd).
  exists (lenc ++ enc). unfold zcash_serialize at 1, Vec_serialize.
  rewrite csm_try_from_spec, (proj2 (Z.leb_le _ _) Hlen) by done. cbn -[zcash_serialize].
  rewrite Hls. cbn. rewrite Hs. cbn. split_and!; [done|by apply bytes_ok_app|].
  intros rest. unfold zcash_deserialize, Vec_deserialize. rewrite <- (assoc_L _), Hld.
  cbn. unfold deserialize_external_count. rewrite (proj2 (Z.ltb_ge _ _) Hmax), Nat2Z.id. apply Hd.
Qed.
Next Obligation.
  intros bs l rest Hbs Hd. unfold zcash_deserialize, Vec_deserialize in Hd.
  apply bind_Ok in Hd as ([len r] & Hlen & Hd).
  apply codec_canonical in Hlen as (Hv & lenc & Hls & ->); [|done]. cbn in Hv.
  unfold deserialize_external_count in Hd. destruct (Z.ltb_spec (max_allocation T) (csm len)); [done|].
  apply bytes_ok_app in Hbs as [_ Hr].
  apply read_items_canonical in Hd as (Hl & Hlen & enc & Hs & ->); [|done].
  split; [split; [done|lia]|]. exists (lenc ++ enc). unfold zcash_serialize at 1, Vec_serialize.
  rewrite csm_try_from_spec by (unfold MAX_PROTOCOL_MESSAGE_LEN in Hv; int_lia).
  rewrite (proj2 (Z.leb_le _ _)) by lia. cbn -[zcash_serialize].
  replace (mkCompactSizeMessage (Z.of_nat (length l))) with len
    by (destruct len; cbn in *; f_equal; lia).
  rewrite Hls. cbn. rewrite Hs. cbn. by rewrite (assoc_L (++)).
Qed.
Next Obligation.
  intros bs. apply no_panic_bind; [apply codec_total|]. intros [len r] _.
  unfold deserialize_external_count. destruct (_ <? _); [done|]. apply no_panic_read_items.
Qed.

End Vec.

#[export] Program Instance VecU8_codec : ZcashCodec VecU8 :=
  {| valid v := bytes_ok (u8s v) ∧ Z.of_nat (length (u8s v)) ≤ MAX_U8_ALLOCATION |}.
Next Obligation.
  intros [l] [Hl Hmax]. cbn in *.
  assert (Hlen : Z.of_nat (length l) ≤ MAX_PROTOCOL_MESSAGE_LEN) by (unfold MAX_U8_ALLOCATION in Hmax; lia).
  destruct (codec_roundtrip (mkCompactSizeMessage (Z.of_nat (length l))))
    as (lenc & Hls & Hlb & Hld); [cbn; lia|].
  exists (lenc ++ l). unfold zcash_serialize at 1, VecU8_serialize, serialize_bytes. cbn [u8s].
  rewrite csm_try_from_spec, (proj2 (Z.leb_le _ _) Hlen)
    by (unfold MAX_PROTOCOL_MESSAGE_LEN in Hlen; int_lia). cbn -[zcash_serialize].
  rewrite Hls. cbn. split_and!; [done|by apply bytes_ok_app|].
  intros rest. unfold zcash_deserialize, VecU8_deserialize. rewrite <- (assoc_L _), Hld. cbn.
  unfold deserialize_bytes_external_count. rewrite (proj2 (Z.ltb_ge _ _) Hmax), Nat2Z.id.
  by rewrite read_bytes_app.
Qed.
Next Obligation.
  intros bs l rest Hbs Hd. unfold zcash_deserialize, VecU8_deserialize in Hd.
  apply bind_Ok in Hd as ([len r] & Hlen & Hd). apply bind_Ok in Hd as ([v r'] & Hv & Hd). simplify_eq.
  apply codec_canonical in Hlen as (Hlv & lenc & Hls & ->); [|done]. cbn in Hlv.
  unfold deserialize_bytes_external_count in Hv.
  destruct (Z.ltb_spec MAX_U8_ALLOCATION (csm len)); [done|].
  apply read_bytes_Ok in Hv as [-> Hlen]. rewrite !bytes_ok_app in Hbs. destruct Hbs as (_ & ? & _).
  cbn. split; [split; [done|lia]|]. exists (lenc ++ v).
  unfold zcash_serialize at 1, VecU8_serialize, serialize_bytes. cbn [u8s].
  rewrite csm_try_from_spec by (unfold MAX_PROTOCOL_MESSAGE_LEN in Hlv; int_lia).
  rewrite (proj2 (Z.leb_le _ _)) by lia. cbn -[zcash_serialize].
  replace (mkCompactSizeMessage (Z.of_nat (length v))) with len
    by (destruct len; cbn in *; f_equal; lia).
  rewrite Hls. cbn. by rewrite (assoc_L (++)).
Qed.
Next Obligation.
  intros bs. apply no_panic_bind; [apply codec_total|]. intros [len r] _. apply no_panic_bind.
  - unfold deserialize_bytes_external_count. destruct (_ <? _); [done|]. apply no_panic_read_bytes.
  - by intros [??] _.
Qed.

(** ** Properties *)

(** [CompactSize] encodings are canonical. Every [u64] has an encoding of 1,
    3, 5 or 9 bytes that reads back as the same value and leaves the rest of the
    reader; and any bytes that read as that value are that encoding. *)
Theorem compact_size_canonical (n : Z) (rest : list Z) :
  fits U64 n = true → ∃ enc,
  CompactSize64_serialize (mkCompactSize64 n) = Ok enc ∧ length enc ∈ [1; 3; 5; 9]%nat ∧
  CompactSize64_deserialize (enc ++ rest) = Ok (mkCompactSize64 n, rest) ∧
  ∀ bs, bytes_ok bs → CompactSize64_deserialize bs = Ok (mkCompactSize64 n, rest) → bs = enc ++ rest.
Proof.
  change CompactSize64_serialize with (zcash_serialize (T := CompactSize64)).
  change CompactSize64_deserialize with (zcash_deserialize (T := CompactSize64)).
  intros Hn. destruct (CompactSize64_deserialize_serialize n rest Hn) as (enc & Hs & _ & Hd).
  exists enc. split_and!; [done| |done|].
  - unfold zcash_serialize, CompactSize64_serialize in Hs. simplify_eq.
    cbn [cs64]. cs64_cases n; cbn [length]; rewrite ?length_le_bytes; set_solver.
  - intros bs Hbs Hb. apply codec_canonical in Hb as (_ & enc' & Hs' & ->); [|done]. congruence.
Qed.

Lemma compact_size_canonical_witness :
  CompactSize64_deserialize [0xfd; 0xfd; 0x00; 7] = Ok (mkCompactSize64 0xfd, [7]).
Proof.
  destruct (compact_size_canonical 0xfd [7]) as (enc & Hs & _ & Hd & _); [reflexivity|].
  injection Hs as <-. exact Hd.
Defined.

(** a [CompactSizeMessage] read from any bytes is at most
    [MAX_PROTOCOL_MESSAGE_LEN], larger sizes are an error, and reading never
    panics, whatever the bytes; so a size is safe to preallocate from. *)
Theorem compact_size_message_bounded (bs : list Z) :
  bytes_ok bs →
  match (zcash_deserialize : Parser SerializationError CompactSizeMessage) bs with
  | Ok (size, rest) => 0 ≤ csm size ≤ MAX_PROTOCOL_MESSAGE_LEN ∧ ∃ enc, bs = enc ++ rest
  | Err _ => True
  | Panic => False
  end.
Proof.
  intros Hbs. destruct (zcash_deserialize bs) as [[size rest]| |] eqn:E; [|done|].
  - apply codec_canonical in E as (Hv & enc & _ & ->); [|done]. split; [done|by exists enc].
  - by apply codec_total in E.
Qed.

Lemma compact_size_message_bounded_witness :
  match (zcash_deserialize : Parser SerializationError CompactSizeMessage)
    [0xfe; 0x00; 0x00; 0x20; 0x00] with
  | Ok (size, rest) => 0 ≤ csm size ≤ MAX_PROTOCOL_MESSAGE_LEN ∧
      ∃ enc, [0xfe; 0x00; 0x00; 0x20; 0x00] = enc ++ rest
  | Err _ => True
  | Panic => False
  end.
Proof. apply compact_size_message_bounded. repeat constructor. Defined.

(** vectors of any type whose encoding is canonical are canonical too: a
    vector within the allocation limits reads back as itself, every byte string
    accepted as a vector is the encoding of that vector followed by the unread
    rest, and reading a vector never panics. *)
Theorem vec_codec {T} `{ZcashCodec T, TrustedPreallocate T} :
  (∀ l : list T, Forall valid l → Z.of_nat (length l) ≤ max_allocation T →
     Z.of_nat (length l) ≤ MAX_PROTOCOL_MESSAGE_LEN →
     ∃ enc, zcash_serialize l = Ok enc ∧ ∀ rest, zcash_deserialize (enc ++ rest) = Ok (l, rest)) ∧
  (∀ bs (l : list T) rest, bytes_ok bs → zcash_deserialize bs = Ok (l, rest) →
     Forall valid l ∧ Z.of_nat (length l) ≤ max_allocation T ∧
     ∃ enc, zcash_serialize l = Ok enc ∧ bs = enc ++ rest) ∧
  (∀ bs, no_panic ((zcash_deserialize : Parser SerializationError (list T)) bs)).
Proof.
  split_and!.
  - intros l Hl Hmax Hlen. destruct (codec_roundtrip l) as (enc & ? & _ & ?); [done|eauto].
  - intros bs l rest Hbs Hd. apply codec_canonical in Hd as ((? & ? & _) & ?); eauto.
  - apply codec_total.
Qed.

(** zatoshi amounts read back as written, and every accepted 8-byte string
    is the encoding of the amount it is read as, which satisfies its
    constraint; bytes that encode an out-of-range value are an error. *)
Theorem amount_codec (a : Amount NonNegative) (b : Amount NegativeAllowed) (rest : list Z) :
  amount_ok a = true → amount_ok b = true →
  (NonNegative_serialize a = Ok (le_bytes 8 (zatoshis a)) ∧
   NonNegative_deserialize (le_bytes 8 (zatoshis a) ++ rest) = Ok (a, rest)) ∧
  (NegativeAllowed_serialize b = Ok (le_bytes 8 (zatoshis b)) ∧
   NegativeAllowed_deserialize (le_bytes 8 (zatoshis b) ++ rest) = Ok (b, rest)) ∧
  (∀ bs (x : Amount NonNegative), bytes_ok bs → NonNegative_deserialize bs = Ok (x, rest) →
     amount_ok x = true ∧ bs = le_bytes 8 (zatoshis x) ++ rest) ∧
  (∀ bs (x : Amount NegativeAllowed), bytes_ok bs → NegativeAllowed_deserialize bs = Ok (x, rest) →
     amount_ok x = true ∧ bs = le_bytes 8 (zatoshis x) ++ rest).
Proof.
  change NonNegative_serialize with (zcash_serialize (T := Amount NonNegative)).
  change NonNegative_deserialize with (zcash_deserialize (T := Amount NonNegative)).
  change NegativeAllowed_serialize with (zcash_serialize (T := Amount NegativeAllowed)).
  change NegativeAllowed_deserialize with (zcash_deserialize (T := Amount NegativeAllowed)).
  intros Ha Hb. destruct (codec_roundtrip a) as (ea & Hsa & _ & Hda); [done|].
  destruct (codec_roundtrip b) as (eb & Hsb & _ & Hdb); [done|].
  rewrite NonNegative_serialize_spec in Hsa by done. injection Hsa as <-. injection Hsb as <-.
  split_and!; auto using NonNegative_serialize_spec.
  - intros bs x Hbs Hx. apply codec_canonical in Hx as (Hv & enc & Hs & ->); [|done].
    rewrite NonNegative_serialize_spec in Hs by done. by simplify_eq.
  - intros bs x Hbs Hx. apply codec_canonical in Hx as (Hv & enc & Hs & ->); [|done].
    unfold zcash_serialize, NegativeAllowed_serialize in Hs. by simplify_eq.
Qed.

Lemma amount_codec_witness :
  NonNegative_deserialize (le_bytes 8 MAX_MONEY ++ [1]) =
    Ok ((mkAmount MAX_MONEY : Amount NonNegative), [1]).
Proof.
  destruct (amount_codec (mkAmount MAX_MONEY) (mkAmount (- 1)) [1]) as ((_ & H) & _);
    [reflexivity|reflexivity|exact H].
Defined.
