(* ===== verification/Codec.v ===== *)
(** * Combinators for encodings

    What the [ZcashSerialize] and [ZcashDeserialize] implementations of a type promise, as a
    property of the two functions, and how it follows from that of their parts: sequences of
    fields, counted items, checks after reading, and readers limited to some number of
    bytes ([Read::take]). The class [ZcashCodec] of [Serialization] is the same property for the
    implementations of a type; here it only has to read bytes. *)

From S2P Require Import Prelude Serialization.

Definition Writer (T : Type) : Type := T → Res SerializationError (list Z).
Definition Reader (T : Type) : Type := Parser SerializationError T.

(** Values that satisfy [v] are written to bytes that read back as them, bytes that can be read are
    those of the value they are read as, which satisfies [v], and reading does not panic. *)
Record codec {T} (s : Writer T) (d : Reader T) (v : T → Prop) : Prop := {
  writes : ∀ x, v x → ∃ enc, s x = Ok enc ∧ bytes_ok enc ∧ ∀ rest, d (enc ++ rest) = Ok (x, rest);
  reads : ∀ bs x rest, bytes_ok bs → d bs = Ok (x, rest) → v x ∧ ∃ enc, s x = Ok enc ∧ bs = enc ++ rest;
  reads_total : ∀ bs, bytes_ok bs → no_panic (d bs);
}.
Arguments writes {T s d v}.
Arguments reads {T s d v}.
Arguments reads_total {T s d v}.

(** ** Primitive encodings *)

Lemma codec_class {T} `{ZcashCodec T} : codec (T := T) zcash_serialize zcash_deserialize valid.
Proof. split; [apply codec_roundtrip|apply codec_canonical|]. intros bs _. apply codec_total. Qed.

Definition bytes_n (n : nat) (b : list Z) : Prop := bytes_ok b ∧ length b = n.

Lemma codec_bytes n : codec Ok (read_bytes n) (bytes_n n).
Proof.
  split.
  - intros b [Hb Hl]. exists b. split_and!; [done|done|]. intros rest. by apply read_bytes_app.
  - intros bs b rest Hb Hr. apply read_bytes_Ok in Hr as [-> Hl]. apply bytes_ok_app in Hb as [Hb _].
    split; [done|]. by exists b.
  - intros bs _. apply no_panic_read_bytes.
Qed.

Lemma codec_uint n : codec (λ z, Ok (le_bytes n z)) (read_uint n) (λ z, 0 ≤ z < 256 ^ Z.of_nat n).
Proof.
  split.
  - intros z Hz. exists (le_bytes n z). split_and!; [done|apply le_bytes_ok|]. intros rest. by apply read_uint_app.
  - intros bs z rest Hb Hr. apply read_uint_Ok in Hr as (-> & Hz & _); [|done]. split; [done|]. by exists (le_bytes n z).
  - intros bs _. apply no_panic_read_uint.
Qed.

(** Nothing is written: the value is known. *)
Lemma codec_ret {T} (x : T) : codec (λ _, Ok []) (λ bs, Ok (x, bs)) (.= x).
Proof.
  split.
  - intros y ->. exists []. split_and!; [done|constructor|done].
  - intros bs y rest _ [= <- <-]. split; [done|]. by exists [].
  - done.
Qed.

(** ** Combinators *)

(** Two parts, where the encoding of the second one may depend on the first one. *)
Definition write_seq {A B} (sA : Writer A) (sB : A → Writer B) : Writer (A * B) := λ p,
  x ← sA p.1; y ← sB p.1 p.2; Ok (x ++ y).
Definition read_seq {A B} (dA : Reader A) (dB : A → Reader B) : Reader (A * B) := λ bs,
  '(a, bs) ← dA bs; '(b, bs) ← dB a bs; Ok ((a, b), bs).

Lemma codec_seq {A B} sA dA vA (sB : A → Writer B) dB vB :
  codec sA dA vA → (∀ a, vA a → codec (sB a) (dB a) (vB a)) →
  codec (write_seq sA sB) (read_seq dA dB) (λ p, vA p.1 ∧ vB p.1 p.2).
Proof.
  intros CA CB. split.
  - intros [a b] [Ha Hb]. cbn in Ha, Hb. destruct (writes CA a Ha) as (ea & Hea & Hba & Hda).
    destruct (writes (CB a Ha) b Hb) as (eb & Heb & Hbb & Hdb). exists (ea ++ eb). unfold write_seq, read_seq. cbn [fst snd].
    rewrite Hea, Ok_bind, Heb. split_and!; [done|by apply bytes_ok_app|]. intros rest.
    rewrite <- (assoc_L (++)), Hda, Ok_bind. by rewrite Hdb.
  - intros bs [a b] rest Hbs Hr. unfold read_seq in Hr. apply bind_Ok in Hr as ([a' r] & Ha & ([b' r'] & Hb & Hr)%bind_Ok).
    simplify_eq. apply (reads CA) in Ha as (Ha & ea & Hea & ->); [|done]. apply bytes_ok_app in Hbs as [_ Hr].
    apply (reads (CB a Ha)) in Hb as (Hb & eb & Heb & ->); [|done]. split; [done|]. exists (ea ++ eb).
    unfold write_seq. cbn [fst snd]. rewrite Hea, Ok_bind, Heb. split; [done|]. by rewrite <- (assoc_L (++)).
  - intros bs Hbs. apply no_panic_bind; [by apply (reads_total CA)|]. intros [a r] Ha.
    apply (reads CA) in Ha as (Ha & ea & Hea & ->); [|done]. apply bytes_ok_app in Hbs as [_ Hr].
    apply no_panic_bind; [by apply (reads_total (CB a Ha))|]. by intros [b r'] _.
Qed.

Lemma codec_pair {A B} (sA : Writer A) dA vA (sB : Writer B) dB vB :
  codec sA dA vA → codec sB dB vB →
  codec (write_seq sA (λ _, sB)) (read_seq dA (λ _, dB)) (λ p, vA p.1 ∧ vB p.2).
Proof. intros CA CB. exact (codec_seq sA dA vA _ _ _ CA (λ _ _, CB)). Qed.
Declare Scope codec_scope.
Delimit Scope codec_scope with codec.
Notation "C ;; D" := (codec_pair _ _ _ _ _ _ C D) (at level 100, right associativity) : codec_scope.

(** A writer and a reader of values of another type. *)
Lemma codec_map {A B} s d v (g : A → B) (s' : Writer B) (d' : Reader B) (v' : B → Prop) :
  codec s d v →
  (∀ a, v a → v' (g a) ∧ s' (g a) = s a) → (∀ b, v' b → ∃ a, v a ∧ g a = b) →
  (∀ bs, d' bs = ('(a, bs) ← d bs; Ok (g a, bs))) → codec s' d' v'.
Proof.
  intros C Hg Hv Hd. split.
  - intros b Hb. destruct (Hv b Hb) as (a & Ha & <-). destruct (writes C a Ha) as (enc & He & Hbe & Hde). exists enc.
    destruct (Hg a Ha) as [_ ->]. split_and!; [done|done|]. intros rest. by rewrite Hd, Hde.
  - intros bs b rest Hb Hr. rewrite Hd in Hr. apply bind_Ok in Hr as ([a r] & Ha & Hr). simplify_eq.
    apply (reads C) in Ha as (Ha & enc & He & ->); [|done]. destruct (Hg a Ha) as [Hva ->]. split; [done|]. by exists enc.
  - intros bs Hb. rewrite Hd. apply no_panic_bind; [by apply (reads_total C)|]. by intros [a r] _.
Qed.

(** The same functions on the values that matter. *)
Lemma codec_ext {A} (s s' : Writer A) (d d' : Reader A) v v' :
  codec s d v → (∀ a, v a ↔ v' a) → (∀ a, v a → s' a = s a) → (∀ bs, d' bs = d bs) → codec s' d' v'.
Proof.
  intros C Hv Hs Hd. apply (codec_map s d v id); [done| | |].
  - intros a Ha. split; [by apply Hv|by apply Hs].
  - intros b Hb%Hv. by exists b.
  - intros bs. rewrite Hd. by destruct (d bs) as [[??]| |].
Qed.

(** A check of the value after it is read. *)
Lemma codec_check {A} s d v (check : A → Res SerializationError unit) (d' : Reader A) :
  codec s d v → (∀ a, v a → no_panic (check a)) →
  (∀ bs, d' bs = ('(a, bs) ← d bs; _ ← check a; Ok (a, bs))) →
  codec s d' (λ a, v a ∧ check a = Ok tt).
Proof.
  intros C Hp Hd. split.
  - intros a [Ha Hc]. destruct (writes C a Ha) as (enc & He & Hb & Hde). exists enc. split_and!; [done|done|].
    intros rest. by rewrite Hd, Hde, Ok_bind, Hc.
  - intros bs a rest Hb Hr. rewrite Hd in Hr. apply bind_Ok in Hr as ([a' r] & Ha & ([] & Hc & Hr)%bind_Ok). simplify_eq.
    apply (reads C) in Ha as (Ha & enc & He & ->); [|done]. split; [done|]. by exists enc.
  - intros bs Hb. rewrite Hd. apply no_panic_bind; [by apply (reads_total C)|]. intros [a r] Ha.
    apply (reads C) in Ha as (Ha & _); [|done]. apply no_panic_bind; [by apply Hp|done].
Qed.

(** The values of one constructor among several, by a case of the reader. *)
Lemma codec_false {A} (s : Writer A) (e : SerializationError) : codec s (λ _, Err e) (λ _, False).
Proof. split; [done|done|done]. Qed.

(** *** Items *)

Lemma codec_items {A} (s : Writer A) (d : Reader A) v n : codec s d v →
  codec (@serialize_external_count A s) (@read_items A d n) (λ l, length l = n ∧ Forall v l).
Proof.
  intros C. induction n as [|n IH].
  { apply (codec_ext _ _ _ _ _ _ (codec_ret ([] : list A))); [|by intros a ->|done].
    intros l. split; [by intros ->|]. intros [Hl _]. by apply length_zero_iff_nil. }
  apply (codec_map _ _ _ (λ p : A * list A, p.1 :: p.2) _ _ _ (codec_seq _ _ _ _ _ _ C (λ _ _, IH))).
  - intros [a l] (Ha & Hl & Hf). cbn in *. split; [split; [by f_equal|by constructor]|]. done.
  - intros [|a l] [Hl Hf]; [done|]. apply Forall_cons in Hf as [Ha Hf]. exists (a, l). cbn in *. split; [|done].
    split_and!; [done|lia|done].
  - intros bs. unfold read_seq. cbn. destruct (zcash_deserialize bs) as [[a r]| |] eqn:Ha; unfold zcash_deserialize in Ha; rewrite Ha; cbn; [|done|done].
    by destruct (@read_items A d n r) as [[l r']| |].
Qed.

Lemma codec_external {A} (s : Writer A) (d : Reader A) v max n : 0 ≤ n → codec s d v →
  codec (@serialize_external_count A s) (@deserialize_external_count A d max n)
    (λ l, Z.of_nat (length l) = n ∧ n ≤ max ∧ Forall v l).
Proof.
  intros Hn C. unfold deserialize_external_count, max_allocation. destruct (Z.ltb_spec max n) as [Hlt|Hge].
  - eapply codec_ext; [apply (codec_false (@serialize_external_count A s))| |done|reflexivity]. intros l. split; [done|lia].
  - apply (codec_ext _ _ _ _ _ _ (codec_items s d v (Z.to_nat n) C)); [|done|done]. intros l. split; intros H; split_and!; try tauto; lia.
Qed.

Lemma external_length {A} (d : Reader A) max n bs l rest : 0 ≤ n →
  @deserialize_external_count A d max n bs = Ok (l, rest) → Z.of_nat (length l) = n.
Proof.
  intros Hn. unfold deserialize_external_count. destruct (_ <? _); [done|]. intros H.
  enough (length l = Z.to_nat n) by lia. revert H. generalize (Z.to_nat n). clear. intros n. revert bs l.
  induction n as [|n IH]; intros bs l H; cbn in H; [by simplify_eq|].
  apply bind_Ok in H as ([a r] & _ & ([l' r'] & Hl & H)%bind_Ok). simplify_eq. cbn. f_equal. by eapply IH.
Qed.

(** Items of which an honest peer sends at most [max]. *)
Definition items_ok {A} (v : A → Prop) (max : Z) (l : list A) : Prop :=
  Forall v l ∧ Z.of_nat (length l) ≤ max ∧ Z.of_nat (length l) ≤ MAX_PROTOCOL_MESSAGE_LEN.

Lemma items_ok_nil {A} (v : A → Prop) max : 0 ≤ max → items_ok v max [].
Proof. intros. split_and!; [by apply Forall_nil_2|done|done]. Qed.

Lemma codec_csm : codec (T := CompactSizeMessage) zcash_serialize zcash_deserialize (λ len, 0 ≤ csm len ≤ MAX_PROTOCOL_MESSAGE_LEN).
Proof. exact (codec_class (T := CompactSizeMessage)). Qed.

(** The number of items, and the items. *)
Lemma codec_counted {A} (s : Writer A) (d : Reader A) v max : codec s d v →
  codec (@Vec_serialize A s)
    (λ bs, '(len, bs) ← (zcash_deserialize : Reader CompactSizeMessage) bs; @deserialize_external_count A d max (csm len) bs)
    (items_ok v max).
Proof.
  intros C.
  apply (codec_map _ _ _ snd _ _ _ (codec_seq _ _ _ _ _ _ codec_csm
    (λ len Hlen, codec_external s d v max (csm len) (proj1 Hlen) C))).
  - intros [[n] l] (Hn & Hl & Hmax & Hv). cbn [fst snd csm] in *. subst n. split; [by split_and!; [|lia..]|].
    unfold Vec_serialize, write_seq. rewrite csm_try_from_spec by (unfold MAX_PROTOCOL_MESSAGE_LEN in Hn; int_lia).
    by rewrite (proj2 (Z.leb_le _ _)) by lia.
  - intros l (Hv & Hmax & Hl). exists (mkCompactSizeMessage (Z.of_nat (length l)), l). cbn. split; [|done]. split_and!; first [done|lia].
  - intros bs. unfold read_seq. destruct (zcash_deserialize (T := CompactSizeMessage) bs) as [[len r]| |]; cbn; [|done|done].
    by destruct (deserialize_external_count (csm len) r) as [[l r']| |].
Qed.

Lemma codec_vec {A} (s : Writer A) (d : Reader A) v max : codec s d v →
  codec (@Vec_serialize A s) (@Vec_deserialize A d max) (items_ok v max).
Proof. apply codec_counted. Qed.

(** *** Optional parts *)

(** A part that is present if what was read before says so. *)
Definition write_if {A} (s : Writer A) : Writer (option A) := λ o, match o with Some a => s a | None => Ok [] end.
Definition read_if {A} (present : bool) (d : Reader A) : Reader (option A) := λ bs,
  if present then '(a, bs) ← d bs; Ok (Some a, bs) else Ok (None, bs).
Definition present_ok {A} (present : bool) (v : A → Prop) (o : option A) : Prop :=
  match o with Some a => present = true ∧ v a | None => present = false end.

Lemma codec_if {A} s (d : Reader A) v present : codec s d v → codec (write_if s) (read_if present d) (present_ok present v).
Proof.
  intros C. destruct present.
  - apply (codec_map _ _ _ Some _ _ _ C); [done| |done]. intros [a|] H; [|done]. destruct H as [_ H]. by exists a.
  - apply (codec_ext _ _ _ _ _ _ (codec_ret None)); [|by intros a ->|done].
    intros [a|]; cbn; [|done]. split; [done|]. by intros [? _].
Qed.

(** *** Limited readers *)

(** [Read::take(limit)]: the bytes after the limit stay in the reader. *)
Definition read_limited {A} (limit : Z) (d : Reader A) : Reader A := λ bs,
  '(a, rest) ← d (take (Z.to_nat limit) bs); Ok (a, rest ++ drop (Z.to_nat limit) bs).

Definition written_within {A} (s : Writer A) (limit : Z) (a : A) : Prop :=
  ∀ enc, s a = Ok enc → Z.of_nat (length enc) ≤ limit.

Lemma codec_limited {A} s (d : Reader A) v limit : 0 ≤ limit → codec s d v →
  codec s (read_limited limit d) (λ a, v a ∧ written_within s limit a).
Proof.
  intros Hlim C. split.
  - intros a [Ha Hw]. destruct (writes C a Ha) as (enc & He & Hb & Hd). exists enc. split_and!; [done|done|].
    intros rest. specialize (Hw enc He). unfold read_limited. rewrite take_app_ge, drop_app_ge by lia.
    rewrite Hd, Ok_bind. by rewrite take_drop.
  - intros bs a rest Hb Hr. unfold read_limited in Hr. apply bind_Ok in Hr as ([a' r] & Ha & Hr). simplify_eq.
    apply (reads C) in Ha as (Ha & enc & He & Htake); [|by apply Forall_take].
    assert (Hl : (length enc ≤ Z.to_nat limit)%nat).
    { apply (f_equal length) in Htake. rewrite length_app, length_take in Htake. lia. }
    split; [split; [done|]|]. { intros enc' He'. assert (enc' = enc) as -> by congruence. lia. }
    exists enc. split; [done|]. by rewrite (assoc_L (++)), <- Htake, take_drop.
  - intros bs Hb. apply no_panic_bind; [by apply (reads_total C), Forall_take|]. by intros [a r] _.
Qed.

(** ** Lengths *)

(** Every value is written to at least [n] bytes. *)
Definition at_least {A} (s : Writer A) (v : A → Prop) (n : Z) : Prop :=
  ∀ a enc, v a → s a = Ok enc → n ≤ Z.of_nat (length enc).

Lemma items_at_least {A} (s : Writer A) v n : at_least s v n → ∀ l enc, Forall v l →
  @serialize_external_count A s l = Ok enc → n * Z.of_nat (length l) ≤ Z.of_nat (length enc).
Proof.
  intros Hn l. induction l as [|a l IH]; intros enc Hl Hs; cbn in Hs; [simplify_eq; cbn; lia|].
  apply Forall_cons in Hl as [Ha Hl]. apply bind_Ok in Hs as (ea & Hea & (el & Hel & Hs)%bind_Ok). simplify_eq.
  specialize (Hn a ea Ha Hea). specialize (IH el Hl Hel). rewrite length_app. cbn [length]. lia.
Qed.
