(* ===== verification/ValueBalance.v ===== *)
(** * Value pools: [zebra-chain/src/value_balance.rs]

    A balance in each chain value pool. The chain value pools of a node are a
    [ValueBalance NonNegative]; each block changes them by a
    [ValueBalance NegativeAllowed]. *)

From S2P Require Import Prelude Amount.

Record ValueBalance (C : Type) := mkValueBalance {
  transparent : Amount C;
  sprout : Amount C;
  sapling : Amount C;
  orchard : Amount C;
  deferred : Amount C;
}.
Arguments mkValueBalance {C} _ _ _ _ _.
Arguments transparent {C} _.
Arguments sprout {C} _.
Arguments sapling {C} _.
Arguments orchard {C} _.
Arguments deferred {C} _.

Inductive ValueBalanceError :=
| Transparent (e : Amount.Error)
| Sprout (e : Amount.Error)
| Sapling (e : Amount.Error)
| Orchard (e : Amount.Error)
| Deferred (e : Amount.Error)
| Unparsable.

#[export] Instance ValueBalance_eq_dec C : EqDecision (ValueBalance C).
Proof. solve_decision. Defined.
#[export] Instance ValueBalanceError_eq_dec : EqDecision ValueBalanceError.
Proof. solve_decision. Defined.

(** ** Construction and update of one pool *)

Section Pools.
Context {C : Type} `{Constraint C}.

Definition zero {E} : Res E (ValueBalance C) :=
  zero ← Amount.zero;
  Ok (mkValueBalance zero zero zero zero zero).

Definition from_transparent_amount {E} (transparent_amount : Amount C) : Res E (ValueBalance C) :=
  z ← zero; Ok (mkValueBalance transparent_amount (sprout z) (sapling z) (orchard z) (deferred z)).
Definition from_sprout_amount {E} (sprout_amount : Amount C) : Res E (ValueBalance C) :=
  z ← zero; Ok (mkValueBalance (transparent z) sprout_amount (sapling z) (orchard z) (deferred z)).
Definition from_sapling_amount {E} (sapling_amount : Amount C) : Res E (ValueBalance C) :=
  z ← zero; Ok (mkValueBalance (transparent z) (sprout z) sapling_amount (orchard z) (deferred z)).
Definition from_orchard_amount {E} (orchard_amount : Amount C) : Res E (ValueBalance C) :=
  z ← zero; Ok (mkValueBalance (transparent z) (sprout z) (sapling z) orchard_amount (deferred z)).

Definition set_transparent_value_balance (self v : ValueBalance C) : ValueBalance C :=
  mkValueBalance (transparent v) (sprout self) (sapling self) (orchard self) (deferred self).
Definition set_sprout_value_balance (self v : ValueBalance C) : ValueBalance C :=
  mkValueBalance (transparent self) (sprout v) (sapling self) (orchard self) (deferred self).
Definition set_sapling_value_balance (self v : ValueBalance C) : ValueBalance C :=
  mkValueBalance (transparent self) (sprout self) (sapling v) (orchard self) (deferred self).
Definition set_orchard_value_balance (self v : ValueBalance C) : ValueBalance C :=
  mkValueBalance (transparent self) (sprout self) (sapling self) (orchard v) (deferred self).
Definition set_deferred_amount (self : ValueBalance C) (deferred_amount : Amount C) : ValueBalance C :=
  mkValueBalance (transparent self) (sprout self) (sapling self) (orchard self) deferred_amount.

End Pools.

(** ** Conversion between constraints *)

Definition constrain {C} (C2 : Type) `{Constraint C2} (self : ValueBalance C) :
    Res ValueBalanceError (ValueBalance C2) :=
  t ← map_err Transparent (Amount.constrain C2 (transparent self));
  sp ← map_err Sprout (Amount.constrain C2 (sprout self));
  sa ← map_err Sapling (Amount.constrain C2 (sapling self));
  o ← map_err Orchard (Amount.constrain C2 (orchard self));
  d ← map_err Deferred (Amount.constrain C2 (deferred self));
  Ok (mkValueBalance t sp sa o d).

(** ** Arithmetic, pool by pool *)

Section Arithmetic.
Context {C : Type} `{Constraint C}.

Definition add (self rhs : ValueBalance C) : Res ValueBalanceError (ValueBalance C) :=
  t ← map_err Transparent (Amount.add (transparent self) (transparent rhs));
  sp ← map_err Sprout (Amount.add (sprout self) (sprout rhs));
  sa ← map_err Sapling (Amount.add (sapling self) (sapling rhs));
  o ← map_err Orchard (Amount.add (orchard self) (orchard rhs));
  d ← map_err Deferred (Amount.add (deferred self) (deferred rhs));
  Ok (mkValueBalance t sp sa o d).

Definition result_add (self : Res ValueBalanceError (ValueBalance C)) (rhs : ValueBalance C) :
    Res ValueBalanceError (ValueBalance C) := lhs ← self; add lhs rhs.
Definition add_result (self : ValueBalance C) (rhs : Res ValueBalanceError (ValueBalance C)) :
    Res ValueBalanceError (ValueBalance C) := r ← rhs; add self r.
Definition add_assign (self : Res ValueBalanceError (ValueBalance C)) (rhs : ValueBalance C) :
    Res ValueBalanceError (ValueBalance C) :=
  match self with Ok lhs => add lhs rhs | r => r end.

Definition sub (self rhs : ValueBalance C) : Res ValueBalanceError (ValueBalance C) :=
  t ← map_err Transparent (Amount.sub (transparent self) (transparent rhs));
  sp ← map_err Sprout (Amount.sub (sprout self) (sprout rhs));
  sa ← map_err Sapling (Amount.sub (sapling self) (sapling rhs));
  o ← map_err Orchard (Amount.sub (orchard self) (orchard rhs));
  d ← map_err Deferred (Amount.sub (deferred self) (deferred rhs));
  Ok (mkValueBalance t sp sa o d).

Definition result_sub (self : Res ValueBalanceError (ValueBalance C)) (rhs : ValueBalance C) :
    Res ValueBalanceError (ValueBalance C) := lhs ← self; sub lhs rhs.
Definition sub_result (self : ValueBalance C) (rhs : Res ValueBalanceError (ValueBalance C)) :
    Res ValueBalanceError (ValueBalance C) := r ← rhs; sub self r.
Definition sub_assign (self : Res ValueBalanceError (ValueBalance C)) (rhs : ValueBalance C) :
    Res ValueBalanceError (ValueBalance C) :=
  match self with Ok lhs => sub lhs rhs | r => r end.

Definition neg (self : ValueBalance C) : Run (ValueBalance NegativeAllowed) :=
  t ← Amount.neg (transparent self);
  sp ← Amount.neg (sprout self);
  sa ← Amount.neg (sapling self);
  o ← Amount.neg (orchard self);
  d ← Amount.neg (deferred self);
  Ok (mkValueBalance t sp sa o d).

Fixpoint try_fold_add (acc : ValueBalance C) (iter : list (ValueBalance C)) :
    Res ValueBalanceError (ValueBalance C) :=
  match iter with
  | [] => Ok acc
  | value_balance :: rest => acc ← add acc value_balance; try_fold_add acc rest
  end.

Definition sum (iter : list (ValueBalance C)) : Res ValueBalanceError (ValueBalance C) :=
  z ← zero; try_fold_add z iter.

End Arithmetic.

(** ** Consensus rules on value pools *)

(** What is left of the value of a transaction: the miner fee. *)
Definition remaining_transaction_value (self : ValueBalance NegativeAllowed) :
    Res Amount.Error (Amount NonNegative) :=
  total ← Amount.result_add
            (Amount.result_add (Amount.add (transparent self) (sprout self)) (sapling self))
            (orchard self);
  Amount.constrain NonNegative total.

(** The chain value pools after a block. *)
Definition add_chain_value_pool_change (self : ValueBalance NonNegative)
    (chain_value_pool_change : ValueBalance NegativeAllowed) :
    Res ValueBalanceError (ValueBalance NonNegative) :=
  chain_value_pool ← expect_ok (E := ValueBalanceError) (constrain NegativeAllowed self);
  chain_value_pool ← add chain_value_pool chain_value_pool_change;
  constrain NonNegative chain_value_pool.

(** ** Byte arrays: the format of the value pools in the state database *)

Definition to_bytes (self : ValueBalance NonNegative) : list Z :=
  Amount.to_bytes (transparent self) ++ Amount.to_bytes (sprout self) ++
  Amount.to_bytes (sapling self) ++ Amount.to_bytes (orchard self) ++
  Amount.to_bytes (deferred self).

(** [bytes[a..a + 8]]. *)
Definition slice8 (a : nat) (bytes : list Z) : list Z := take 8 (drop a bytes).

Definition from_bytes (bytes : list Z) : Res ValueBalanceError (ValueBalance NonNegative) :=
  let bytes_length := length bytes in
  if negb ((bytes_length =? 32)%nat || (bytes_length =? 40)%nat) then Err Unparsable else
  transparent ← map_err Transparent (Amount.from_bytes (slice8 0 bytes));
  sprout ← map_err Sprout (Amount.from_bytes (slice8 8 bytes));
  sapling ← map_err Sapling (Amount.from_bytes (slice8 16 bytes));
  orchard ← map_err Orchard (Amount.from_bytes (slice8 24 bytes));
  deferred ← (if (bytes_length =? 32)%nat then Amount.zero
              else if (bytes_length =? 40)%nat then
                map_err Deferred (Amount.from_bytes (slice8 32 bytes))
              else Err Unparsable);
  Ok (mkValueBalance transparent sprout sapling orchard deferred).

(** ** Theory *)

(** The five pool values. *)
Definition pools {C} (v : ValueBalance C) : list Z :=
  [zatoshis (transparent v); zatoshis (sprout v); zatoshis (sapling v);
   zatoshis (orchard v); zatoshis (deferred v)].

(** The invariant of the type. *)
Definition vb_ok {C} `{Constraint C} (v : ValueBalance C) : Prop :=
  Forall (λ z, contains (valid_range C) z = true) (pools v).

Lemma pools_inj {C} (v w : ValueBalance C) : pools v = pools w → v = w.
Proof.
  destruct v as [[][][][][]], w as [[][][][][]]. unfold pools. cbn. by intros [= -> -> -> -> ->].
Qed.

Lemma vb_ok_inv {C} `{Constraint C} (v : ValueBalance C) :
  vb_ok v ↔ amount_ok (transparent v) = true ∧ amount_ok (sprout v) = true ∧
    amount_ok (sapling v) = true ∧ amount_ok (orchard v) = true ∧ amount_ok (deferred v) = true.
Proof. unfold vb_ok, pools, amount_ok. rewrite !Forall_cons. pose proof (Forall_nil_2 (A := Z)). naive_solver. Qed.

(** Case analysis on every range check in the goal. *)
Ltac case_contains :=
  repeat match goal with |- context [contains ?r ?z] => destruct (contains r z) eqn:? end.

Section Theory.
Context {C : Type} `{CL : ConstraintLaws C}.

Lemma vb_ok_bounds (v : ValueBalance C) :
  vb_ok v → Forall (λ z, - MAX_MONEY ≤ z ≤ MAX_MONEY) (pools v).
Proof.
  intros Hv. eapply Forall_impl; [exact Hv|]. intros z Hz%contains_spec.
  pose proof range_low. pose proof range_high. lia.
Qed.

Lemma vb_zero_spec {E} : zero (E := E) (C := C) = Ok (mkValueBalance (mkAmount 0) (mkAmount 0)
  (mkAmount 0) (mkAmount 0) (mkAmount 0)).
Proof. unfold zero. by rewrite Amount.zero_spec. Qed.

Lemma add_Ok (v w x : ValueBalance C) :
  vb_ok v → vb_ok w →
  add v w = Ok x ↔ vb_ok x ∧ pools x = zip_with Z.add (pools v) (pools w).
Proof.
  rewrite !vb_ok_inv. intros (?&?&?&?&?) (?&?&?&?&?). unfold add.
  rewrite !Amount.add_spec, !try_from_i64_spec by done. split.
  - case_contains; cbn; try done. intros [= <-]. split; [|done].
    unfold amount_ok. auto.
  - intros ((?&?&?&?&?) & Hp). destruct x as [[][][][][]]. unfold pools in Hp. cbn in Hp.
    simplify_eq. unfold amount_ok in *. cbn [transparent sprout sapling orchard deferred zatoshis] in *.
    repeat match goal with H : contains _ _ = true |- _ => rewrite H end. done.
Qed.

Lemma sub_Ok (v w x : ValueBalance C) :
  vb_ok v → vb_ok w →
  sub v w = Ok x ↔ vb_ok x ∧ pools x = zip_with Z.sub (pools v) (pools w).
Proof.
  rewrite !vb_ok_inv. intros (?&?&?&?&?) (?&?&?&?&?). unfold sub.
  rewrite !Amount.sub_spec, !try_from_i64_spec by done. split.
  - case_contains; cbn; try done. intros [= <-]. split; [|done].
    unfold amount_ok. auto.
  - intros ((?&?&?&?&?) & Hp). destruct x as [[][][][][]]. unfold pools in Hp. cbn in Hp.
    simplify_eq. unfold amount_ok in *. cbn [transparent sprout sapling orchard deferred zatoshis] in *.
    repeat match goal with H : contains _ _ = true |- _ => rewrite H end. done.
Qed.

Lemma add_no_panic (v w : ValueBalance C) : vb_ok v → vb_ok w → no_panic (add v w).
Proof.
  rewrite !vb_ok_inv. intros (?&?&?&?&?) (?&?&?&?&?). unfold add.
  rewrite !Amount.add_spec, !try_from_i64_spec by done.
  case_contains; done.
Qed.

Lemma vb_neg_spec (v : ValueBalance C) :
  vb_ok v → ∃ w, neg v = Ok w ∧ vb_ok w ∧ pools w = Z.opp <$> pools v.
Proof.
  intros Hv. pose proof (vb_ok_bounds v Hv) as Hb. apply vb_ok_inv in Hv as (?&?&?&?&?).
  unfold neg. rewrite !Amount.neg_spec by done. cbn. eexists. split; [done|]. split; [|done].
  unfold pools in Hb. rewrite !Forall_cons in Hb.
  rewrite vb_ok_inv. unfold amount_ok. rewrite !contains_spec. cbn. lia.
Qed.

End Theory.

Lemma constrain_Ok {C C2} `{Constraint C2} (v : ValueBalance C) (w : ValueBalance C2) :
  constrain C2 v = Ok w ↔ vb_ok w ∧ pools w = pools v.
Proof.
  unfold constrain, Amount.constrain. rewrite !try_from_i64_spec, vb_ok_inv. split.
  - case_contains; cbn; try done. intros [= <-]. split; [|done].
    unfold amount_ok. auto.
  - intros ((?&?&?&?&?) & Hp). destruct w as [[][][][][]], v as [[][][][][]].
    unfold pools in Hp. cbn in Hp. simplify_eq. unfold amount_ok in *.
    cbn [transparent sprout sapling orchard deferred zatoshis] in *.
    repeat match goal with H : contains _ _ = true |- _ => rewrite H end. done.
Qed.

Lemma constrain_no_panic {C C2} `{Constraint C2} (v : ValueBalance C) : no_panic (constrain C2 v).
Proof.
  unfold constrain, Amount.constrain. rewrite !try_from_i64_spec. case_contains; done.
Qed.

(** A balance with given pool values. *)
Definition retag {C} (C2 : Type) (v : ValueBalance C) : ValueBalance C2 :=
  mkValueBalance (mkAmount (zatoshis (transparent v))) (mkAmount (zatoshis (sprout v)))
    (mkAmount (zatoshis (sapling v))) (mkAmount (zatoshis (orchard v)))
    (mkAmount (zatoshis (deferred v))).

Lemma non_negative_allowed (v : ValueBalance NonNegative) :
  vb_ok v → vb_ok (retag NegativeAllowed v).
Proof.
  intros Hv. unfold vb_ok. change (pools (retag NegativeAllowed v)) with (pools v).
  eapply Forall_impl; [exact Hv|]. intros z. rewrite !contains_spec. cbn.
  unfold MAX_MONEY, COIN. lia.
Qed.

(** The pools after a change: exactly the pool-wise sums, when they are all in range. *)
Lemma add_change_Ok (p p' : ValueBalance NonNegative) (d : ValueBalance NegativeAllowed) :
  vb_ok p → vb_ok d →
  add_chain_value_pool_change p d = Ok p' ↔
  vb_ok p' ∧ pools p' = zip_with Z.add (pools p) (pools d).
Proof.
  intros Hp Hd. unfold add_chain_value_pool_change.
  assert (Hc : constrain NegativeAllowed p = Ok (retag NegativeAllowed p))
    by (apply constrain_Ok; split; [by apply non_negative_allowed|done]).
  rewrite Hc. cbn -[add constrain]. rewrite bind_Ok. split.
  - intros (x & Hx & Hp'). apply add_Ok in Hx as [_ Hx]; [|by apply non_negative_allowed|done].
    apply constrain_Ok in Hp' as [? ->]. done.
  - intros [Hp' Heq]. exists (retag NegativeAllowed p'). split.
    + apply add_Ok; [by apply non_negative_allowed|done|]. split; [by apply non_negative_allowed|done].
    + apply constrain_Ok. done.
Qed.

Lemma add_change_no_panic (p : ValueBalance NonNegative) (d : ValueBalance NegativeAllowed) :
  vb_ok p → vb_ok d → no_panic (add_chain_value_pool_change p d).
Proof.
  intros Hp Hd. unfold add_chain_value_pool_change.
  assert (Hc : constrain NegativeAllowed p = Ok (retag NegativeAllowed p))
    by (apply constrain_Ok; split; [by apply non_negative_allowed|done]).
  rewrite Hc. cbn -[add constrain]. apply no_panic_bind.
  - apply add_no_panic; [by apply non_negative_allowed|done].
  - intros x _. apply constrain_no_panic.
Qed.

(** *** Byte arrays *)

Lemma amount_to_from_bytes (a : Amount NonNegative) :
  amount_ok a = true → Amount.from_bytes (Amount.to_bytes a) = Ok a.
Proof.
  intros Ha. unfold Amount.from_bytes, Amount.to_bytes.
  pose proof (amount_ok_bounds a Ha). rewrite i64_le_bytes_roundtrip by (apply fits_I64_small; lia).
  rewrite try_from_i64_spec. unfold amount_ok in Ha. rewrite Ha. by destruct a.
Qed.

Lemma slice8_app (b c : list Z) (n : nat) :
  length b = 8%nat → (slice8 0 (b ++ c) = b) ∧ slice8 (8 + n) (b ++ c) = slice8 n c.
Proof.
  intros Hb. unfold slice8. cbn [drop]. split.
  - rewrite <- Hb. apply take_app_length.
  - rewrite drop_app_ge by lia. by rewrite Hb, Nat.add_comm, Nat.add_sub.
Qed.

Lemma slices_of_five (a b c d e : list Z) :
  length a = 8%nat → length b = 8%nat → length c = 8%nat → length d = 8%nat → (length e ≤ 8)%nat →
  let bs := a ++ b ++ c ++ d ++ e in
  slice8 0 bs = a ∧ slice8 8 bs = b ∧ slice8 16 bs = c ∧ slice8 24 bs = d ∧ slice8 32 bs = e.
Proof.
  intros Ha Hb Hc Hd He bs. unfold bs.
  rewrite (proj1 (slice8_app a _ 0 Ha)).
  rewrite (proj2 (slice8_app a _ 0 Ha)), (proj2 (slice8_app a _ 8 Ha)),
    (proj2 (slice8_app a _ 16 Ha)), (proj2 (slice8_app a _ 24 Ha)).
  rewrite (proj1 (slice8_app b _ 0 Hb)), (proj2 (slice8_app b _ 0 Hb)),
    (proj2 (slice8_app b _ 8 Hb)), (proj2 (slice8_app b _ 16 Hb)).
  rewrite (proj1 (slice8_app c _ 0 Hc)), (proj2 (slice8_app c _ 0 Hc)), (proj2 (slice8_app c _ 8 Hc)).
  rewrite (proj1 (slice8_app d _ 0 Hd)), (proj2 (slice8_app d _ 0 Hd)).
  split_and!; try done. unfold slice8. rewrite drop_0, take_ge by lia. done.
Qed.

(** ** Properties *)

(** a block changes the chain value pools exactly when every pool stays
    between zero and [MAX_MONEY] (ZIP-209): the new pools are the pool-wise
    sums; otherwise the block is rejected with an error, never a panic. *)
Theorem chain_pools_change (p : ValueBalance NonNegative) (d : ValueBalance NegativeAllowed) :
  vb_ok p → vb_ok d →
  (∀ p', add_chain_value_pool_change p d = Ok p' ↔
     pools p' = zip_with Z.add (pools p) (pools d) ∧ Forall (λ z, 0 ≤ z ≤ MAX_MONEY) (pools p')) ∧
  (Forall (λ z, 0 ≤ z ≤ MAX_MONEY) (zip_with Z.add (pools p) (pools d)) ↔
     is_ok (add_chain_value_pool_change p d) = true) ∧
  no_panic (add_chain_value_pool_change p d).
Proof.
  intros Hp Hd. assert (Hok : ∀ p' : ValueBalance NonNegative,
    vb_ok p' ↔ Forall (λ z, 0 ≤ z ≤ MAX_MONEY) (pools p')).
  { intros p'. unfold vb_ok. apply Forall_iff. intros z. apply contains_spec. }
  split_and!.
  - intros p'. rewrite add_change_Ok by done. rewrite Hok. naive_solver.
  - set (p' := mkValueBalance (mkAmount (zatoshis (transparent p) + zatoshis (transparent d)))
      (mkAmount (zatoshis (sprout p) + zatoshis (sprout d)))
      (mkAmount (zatoshis (sapling p) + zatoshis (sapling d)))
      (mkAmount (zatoshis (orchard p) + zatoshis (orchard d)))
      (mkAmount (zatoshis (deferred p) + zatoshis (deferred d))) : ValueBalance NonNegative).
    change (zip_with Z.add (pools p) (pools d)) with (pools p'). rewrite <- Hok. split.
    + intros Hp'. rewrite (proj2 (add_change_Ok p p' d Hp Hd)); [done|]. by split.
    + destruct (add_chain_value_pool_change p d) as [q| |] eqn:E; [|done|done]. intros _.
      apply add_change_Ok in E as [Hq Heq]; [|done|done].
      by assert (q = p') as <- by (apply pools_inj; by rewrite Heq).
  - by apply add_change_no_panic.
Qed.

Lemma chain_pools_change_witness :
  is_ok (add_chain_value_pool_change
    (mkValueBalance (mkAmount 5) (mkAmount 0) (mkAmount 7) (mkAmount 0) (mkAmount 0))
    (mkValueBalance (mkAmount 1) (mkAmount 0) (mkAmount (-7)) (mkAmount 3) (mkAmount 0))) = true.
Proof.
  apply chain_pools_change.
  - repeat constructor.
  - repeat constructor.
  - cbn. repeat constructor; cbn; unfold MAX_MONEY, COIN; lia.
Defined.

(** Rolling a block back restores the chain value pools: after a change that
    succeeded, applying its negation succeeds and gives the pools before. *)
Lemma chain_pools_revert (p p' : ValueBalance NonNegative) (d : ValueBalance NegativeAllowed) :
  vb_ok p → vb_ok d → add_chain_value_pool_change p d = Ok p' →
  ∃ d', neg d = Ok d' ∧ add_chain_value_pool_change p' d' = Ok p.
Proof.
  intros Hp Hd Hadd. apply add_change_Ok in Hadd as [Hp' Heq]; [|done|done].
  destruct (vb_neg_spec d Hd) as (d' & -> & Hd' & Hneg). exists d'. split; [done|].
  apply add_change_Ok; [done|done|]. split; [done|]. rewrite Hneg, Heq.
  unfold pools. cbn. repeat f_equal; lia.
Qed.

(** the value pools stored in the database read back as written; the
    32-byte format without a deferred pool reads as a zero deferred pool; any
    other length is rejected. *)
Theorem value_pools_bytes (v : ValueBalance NonNegative) :
  vb_ok v →
  from_bytes (to_bytes v) = Ok v ∧
  from_bytes (take 32 (to_bytes v)) = Ok (set_deferred_amount v (mkAmount 0)) ∧
  ∀ bs, length bs ≠ 32%nat → length bs ≠ 40%nat → from_bytes bs = Err Unparsable.
Proof.
  intros Hv. apply vb_ok_inv in Hv as (Ht & Hsp & Hsa & Ho & Hd).
  assert (Hl : ∀ a : Amount NonNegative, length (Amount.to_bytes a) = 8%nat)
    by (intros; apply length_le_bytes).
  split_and!.
  - unfold from_bytes, to_bytes. rewrite !length_app, !Hl. cbn -[slice8 Amount.from_bytes Amount.to_bytes].
    edestruct slices_of_five as (-> & -> & -> & -> & ->); [apply Hl..|by rewrite Hl|].
    rewrite !amount_to_from_bytes by done. by destruct v.
  - assert (He : take 32 (to_bytes v) = Amount.to_bytes (transparent v) ++ Amount.to_bytes (sprout v) ++
      Amount.to_bytes (sapling v) ++ Amount.to_bytes (orchard v) ++ []).
    { rewrite app_nil_r. unfold to_bytes. rewrite !(assoc_L (++)). rewrite take_app_length'; [done|].
      by rewrite !length_app, !Hl. }
    rewrite He. unfold from_bytes. rewrite !length_app, !Hl. cbn -[slice8 Amount.from_bytes Amount.to_bytes].
    edestruct slices_of_five as (-> & -> & -> & -> & _); [apply Hl..|cbn; lia|].
    by rewrite !amount_to_from_bytes by done.
  - intros bs H32 H40. unfold from_bytes.
    by rewrite (proj2 (Nat.eqb_neq _ _) H32), (proj2 (Nat.eqb_neq _ _) H40).
Qed.

Lemma value_pools_bytes_witness :
  from_bytes (to_bytes (mkValueBalance (mkAmount 1) (mkAmount 2) (mkAmount 3)
    (mkAmount 4) (mkAmount MAX_MONEY))) =
  Ok (mkValueBalance (mkAmount 1) (mkAmount 2) (mkAmount 3) (mkAmount 4) (mkAmount MAX_MONEY)).
Proof. refine (proj1 (value_pools_bytes _ _)). repeat constructor. Defined.

(** the remaining value of a transaction is the sum of its transparent,
    Sprout, Sapling and Orchard balances, without the deferred pool; it is
    returned exactly when it is not negative and no partial sum exceeds
    [MAX_MONEY] in absolute value, and computing it never panics. *)
Theorem remaining_value_exact (v : ValueBalance NegativeAllowed) :
  vb_ok v →
  let t := zatoshis (transparent v) in let sp := zatoshis (sprout v) in
  let sa := zatoshis (sapling v) in let o := zatoshis (orchard v) in
  (∀ r, remaining_transaction_value v = Ok r ↔
     zatoshis r = t + sp + sa + o ∧ 0 ≤ t + sp + sa + o ≤ MAX_MONEY ∧
     Z.abs (t + sp) ≤ MAX_MONEY ∧ Z.abs (t + sp + sa) ≤ MAX_MONEY) ∧
  no_panic (remaining_transaction_value v).
Proof.
  intros Hv t sp sa o. apply vb_ok_inv in Hv as (Ht & Hsp & Hsa & Ho & _).
  unfold remaining_transaction_value, Amount.result_add, Amount.constrain.
  rewrite Amount.add_spec, try_from_i64_spec by done. fold t sp.
  destruct (contains _ (t + sp)) eqn:E1; cbn -[contains Amount.add MAX_MONEY].
  2:{ apply not_true_iff_false in E1. rewrite contains_spec in E1. cbn in E1.
      split; [|done]. intros r. split; [done|]. unfold MAX_MONEY, COIN in *. lia. }
  rewrite Amount.add_spec, try_from_i64_spec by done. cbn [zatoshis]. fold sa.
  destruct (contains _ (t + sp + sa)) eqn:E2; cbn -[contains Amount.add MAX_MONEY].
  2:{ apply not_true_iff_false in E2. rewrite contains_spec in E2. cbn in E2.
      split; [|done]. intros r. split; [done|]. unfold MAX_MONEY, COIN in *. lia. }
  rewrite Amount.add_spec, try_from_i64_spec by done. cbn [zatoshis]. fold o.
  apply contains_spec in E1, E2. cbn in E1, E2.
  destruct (contains _ (t + sp + sa + o)) eqn:E3; cbn -[contains try_from_i64 MAX_MONEY].
  2:{ apply not_true_iff_false in E3. rewrite contains_spec in E3. cbn in E3.
      split; [|done]. intros r. split; [done|]. unfold MAX_MONEY, COIN in *. lia. }
  rewrite try_from_i64_spec. destruct (contains (valid_range NonNegative) (t + sp + sa + o)) eqn:E4.
  - apply contains_spec in E4. cbn in E4. split; [|done]. intros r. split.
    + intros [= <-]. cbn. unfold MAX_MONEY, COIN in *. lia.
    + intros (Hr & _). f_equal. by apply amount_eq.
  - apply not_true_iff_false in E4. rewrite contains_spec in E4. cbn in E4. split; [|done].
    intros r. split; [done|]. unfold MAX_MONEY, COIN in *. lia.
Qed.

Lemma remaining_value_exact_witness :
  remaining_transaction_value
    (mkValueBalance (mkAmount 100) (mkAmount 0) (mkAmount (-90)) (mkAmount 0) (mkAmount 50)) =
    Ok (mkAmount 10).
Proof.
  refine (proj2 (proj1 (remaining_value_exact _ _) _) _); [repeat constructor|].
  cbn. unfold MAX_MONEY, COIN. lia.
Defined.
