(* ===== verification/Network.v ===== *)
(** * Networks and network upgrades

    [zebra-chain/src/parameters/network_upgrade.rs], the data of
    [parameters/network.rs], [parameters/network/testnet.rs] and
    [parameters/network/subsidy.rs], and the activation heights and constants
    of [parameters/constants.rs].

    Hash maps are [gmap]s: their equality is the map equality of the code, and
    every theorem about an iteration over one is about a quantity that does not
    depend on the order. The address literals of the source and its Testnet checkpoint
    file enter as the class [Literals]. *)

From S2P Require Import Prelude BTreeMap Height Difficulty Amount.

(** ** Network upgrades *)

Inductive NetworkUpgrade :=
| Genesis | BeforeOverwinter | Overwinter | Sapling | Blossom | Heartwood
| Canopy | Nu5 | Nu6 | Nu6_1 | Nu7.

#[export] Instance NetworkUpgrade_eq_dec : EqDecision NetworkUpgrade.
Proof. solve_decision. Defined.

(** [EnumIter]: the upgrades in declaration order. *)
Definition iter : list NetworkUpgrade :=
  [Genesis; BeforeOverwinter; Overwinter; Sapling; Blossom; Heartwood; Canopy; Nu5; Nu6; Nu6_1; Nu7].

(** The derived [Ord]: the position in the declaration. *)
Definition nu_index (nu : NetworkUpgrade) : Z :=
  match nu with
  | Genesis => 0 | BeforeOverwinter => 1 | Overwinter => 2 | Sapling => 3 | Blossom => 4
  | Heartwood => 5 | Canopy => 6 | Nu5 => 7 | Nu6 => 8 | Nu6_1 => 9 | Nu7 => 10
  end.
Definition nu_ltb (a b : NetworkUpgrade) : bool := nu_index a <? nu_index b.
Definition nu_leb (a b : NetworkUpgrade) : bool := nu_index a <=? nu_index b.

Fixpoint skip_while {A} (f : A -> bool) (l : list A) : list A :=
  match l with [] => [] | a :: l' => if f a then skip_while f l' else l end.

Definition next_upgrade (self : NetworkUpgrade) : option NetworkUpgrade :=
  skip_while (fun nu => bool_decide (self <> nu)) iter !! 1%nat.
Definition previous_upgrade (self : NetworkUpgrade) : option NetworkUpgrade :=
  skip_while (fun nu => bool_decide (self <> nu)) (reverse iter) !! 1%nat.

Definition MAINNET_ACTIVATION_HEIGHTS : list (Z * NetworkUpgrade) :=
  [(0, Genesis); (1, BeforeOverwinter); (347500, Overwinter); (419200, Sapling); (653600, Blossom);
   (903000, Heartwood); (1046400, Canopy); (1687104, Nu5); (2726400, Nu6); (3146400, Nu6_1)].

Definition TESTNET_ACTIVATION_HEIGHTS : list (Z * NetworkUpgrade) :=
  [(0, Genesis); (1, BeforeOverwinter); (207500, Overwinter); (280000, Sapling); (584000, Blossom);
   (903800, Heartwood); (1028500, Canopy); (1842420, Nu5); (2976000, Nu6); (3536500, Nu6_1)].

Definition CONSENSUS_BRANCH_IDS : list (NetworkUpgrade * Z) :=
  [(Overwinter, 0x5ba81b19); (Sapling, 0x76b809bb); (Blossom, 0x2bb40e60); (Heartwood, 0xf5b9230b);
   (Canopy, 0xe9ff75a6); (Nu5, 0xc2d6d0b4); (Nu6, 0xc8e71055); (Nu6_1, 0x4dec4df0)].

Definition branch_id (self : NetworkUpgrade) : option Z :=
  snd <$> List.find (fun p => bool_decide (p.1 = self)) CONSENSUS_BRANCH_IDS.

(** [TryFrom<u32> for NetworkUpgrade]; the error is [InvalidConsensusBranchId]. *)
Definition try_from_branch_id (branch_id : Z) : Res unit NetworkUpgrade :=
  ok_or (fst <$> List.find (fun id => id.2 =? branch_id) CONSENSUS_BRANCH_IDS) tt.

Definition PRE_BLOSSOM_POW_TARGET_SPACING : Z := 150.
Definition POST_BLOSSOM_POW_TARGET_SPACING : Z := 75.
Definition POW_AVERAGING_WINDOW : Z := 17.
Definition TESTNET_MINIMUM_DIFFICULTY_GAP_MULTIPLIER : Z := 6.
Definition TESTNET_MINIMUM_DIFFICULTY_START_HEIGHT : Height := 299188.
Definition TESTNET_MAX_TIME_START_HEIGHT : Height := 653606.

(** ** Parameters of test networks *)

Inductive NetworkKind := MainnetKind | TestnetKind | RegtestKind.

#[export] Instance NetworkKind_eq_dec : EqDecision NetworkKind.
Proof. solve_decision. Defined.

(** [transparent::Address]; the hashes are 20 bytes. *)
Inductive Address :=
| PayToScriptHash (network_kind : NetworkKind) (script_hash : list Z)
| PayToPublicKeyHash (network_kind : NetworkKind) (pub_key_hash : list Z)
| Tex (network_kind : NetworkKind) (validating_key_hash : list Z).

#[export] Instance Address_eq_dec : EqDecision Address.
Proof. solve_decision. Defined.

Definition network_kind (self : Address) : NetworkKind :=
  match self with PayToScriptHash k _ | PayToPublicKeyHash k _ | Tex k _ => k end.

Inductive FundingStreamReceiver := Ecc | ZcashFoundation | MajorGrants | Deferred.

#[export] Instance FundingStreamReceiver_eq_dec : EqDecision FundingStreamReceiver.
Proof. solve_decision. Defined.

Definition receiver_index (r : FundingStreamReceiver) : nat :=
  match r with Ecc => 0 | ZcashFoundation => 1 | MajorGrants => 2 | Deferred => 3 end.
Definition receiver_of_index (n : nat) : option FundingStreamReceiver :=
  [Ecc; ZcashFoundation; MajorGrants; Deferred] !! n.

#[export] Instance FundingStreamReceiver_countable : Countable FundingStreamReceiver.
Proof. refine (inj_countable receiver_index receiver_of_index _). by intros []. Defined.

Definition is_deferred (self : FundingStreamReceiver) : bool :=
  match self with Deferred => true | _ => false end.

Record FundingStreamRecipient := mkRecipient { numerator : Z; addresses : list Address }.

#[export] Instance FundingStreamRecipient_eq_dec : EqDecision FundingStreamRecipient.
Proof. solve_decision. Defined.

(** [height_range] is the half-open range [start..end]. *)
Record FundingStreams := mkStreams {
  height_range : Height * Height;
  recipients : gmap FundingStreamReceiver FundingStreamRecipient;
}.

#[export] Instance FundingStreams_eq_dec : EqDecision FundingStreams.
Proof. solve_decision. Defined.

Definition range_contains (range : Height * Height) (height : Height) : bool :=
  (range.1 <=? height) && (height <? range.2).

Record Parameters := mkParameters {
  network_name : list Z;
  network_magic : list Z;
  genesis_hash : list Z;
  activation_heights : list (Z * NetworkUpgrade);
  params_slow_start_interval : Height;
  params_slow_start_shift : Height;
  params_funding_streams : list FundingStreams;
  params_target_difficulty_limit : ExpandedDifficulty;
  params_disable_pow : bool;
  params_allow_unshielded_coinbase_spends : bool;
  params_pre_blossom_halving_interval : HeightDiff;
  params_post_blossom_halving_interval : HeightDiff;
  params_lockbox_disbursements : list (list Z * Amount NonNegative);
  checkpoints : list (Z * list Z);
}.

#[export] Instance Parameters_eq_dec : EqDecision Parameters.
Proof. solve_decision. Defined.

Inductive Network := Mainnet | Testnet (params : Parameters).

#[export] Instance Network_eq_dec : EqDecision Network.
Proof. solve_decision. Defined.

(** ** Literals

    The address strings of the constants, after parsing where the code parses them once
    ([FundingStreamRecipient::new]), the parser of transparent addresses, and the Testnet checkpoints. *)

Class Literals := {
  parse_address : list Z -> option Address;
  mainnet_ECC_ADDRESSES : list Address;
  mainnet_ZF_ADDRESSES : list Address;
  mainnet_MG_ADDRESSES : list Address;
  mainnet_POST_NU6_FPF_ADDRESSES : list Address;
  mainnet_POST_NU6_1_FPF_ADDRESSES : list Address;
  mainnet_FOUNDER_ADDRESS_LIST : list (list Z);
  mainnet_LOCKBOX_ADDRESS : list Z;
  testnet_ECC_ADDRESSES : list Address;
  testnet_ZF_ADDRESSES : list Address;
  testnet_MG_ADDRESSES : list Address;
  testnet_POST_NU6_FPF_ADDRESSES : list Address;
  testnet_POST_NU6_1_FPF_ADDRESSES : list Address;
  testnet_FOUNDER_ADDRESS_LIST : list (list Z);
  testnet_LOCKBOX_ADDRESS : list Z;
  TESTNET_CHECKPOINT_LIST : list (Z * list Z);
}.

(** The lengths of the literal arrays ([FUNDING_STREAMS_NUM_ADDRESSES] and the like). *)
Class LiteralLengths `{Literals} : Prop := {
  length_mainnet_ECC : length mainnet_ECC_ADDRESSES = 48%nat;
  length_mainnet_ZF : length mainnet_ZF_ADDRESSES = 48%nat;
  length_mainnet_MG : length mainnet_MG_ADDRESSES = 48%nat;
  length_mainnet_POST_NU6 : length mainnet_POST_NU6_FPF_ADDRESSES = 12%nat;
  length_mainnet_POST_NU6_1 : length mainnet_POST_NU6_1_FPF_ADDRESSES = 36%nat;
  length_mainnet_FOUNDER : length mainnet_FOUNDER_ADDRESS_LIST = 48%nat;
}.

(** A concrete instance, with arrays of the lengths of the source. *)
Definition sample_address : Address := PayToScriptHash TestnetKind (replicate 20 0).
Definition sample_literals : Literals := {|
  parse_address := fun _ => Some sample_address;
  mainnet_ECC_ADDRESSES := replicate 48 sample_address;
  mainnet_ZF_ADDRESSES := replicate 48 sample_address;
  mainnet_MG_ADDRESSES := replicate 48 sample_address;
  mainnet_POST_NU6_FPF_ADDRESSES := replicate 12 sample_address;
  mainnet_POST_NU6_1_FPF_ADDRESSES := replicate 36 sample_address;
  mainnet_FOUNDER_ADDRESS_LIST := replicate 48 [];
  mainnet_LOCKBOX_ADDRESS := [];
  testnet_ECC_ADDRESSES := replicate 51 sample_address;
  testnet_ZF_ADDRESSES := replicate 51 sample_address;
  testnet_MG_ADDRESSES := replicate 51 sample_address;
  testnet_POST_NU6_FPF_ADDRESSES := replicate 13 sample_address;
  testnet_POST_NU6_1_FPF_ADDRESSES := replicate 27 sample_address;
  testnet_FOUNDER_ADDRESS_LIST := replicate 48 [];
  testnet_LOCKBOX_ADDRESS := [];
  TESTNET_CHECKPOINT_LIST := [(0, replicate 32 1)];
|}.
Lemma sample_lengths : @LiteralLengths sample_literals.
Proof. by constructor. Qed.

Definition SLOW_START_INTERVAL : Height := 20000.
Definition SLOW_START_SHIFT : Height := SLOW_START_INTERVAL / 2.
Definition POST_NU6_FUNDING_STREAM_NUM_BLOCKS : Z := 420000.

Definition stream_recipients (l : list (FundingStreamReceiver * FundingStreamRecipient)) :
  gmap FundingStreamReceiver FundingStreamRecipient := list_to_map l.

Definition mainnet_FUNDING_STREAMS `{Literals} : list FundingStreams :=
  [mkStreams (1046400, 2726400)
     (stream_recipients [(Ecc, mkRecipient 7 mainnet_ECC_ADDRESSES);
        (ZcashFoundation, mkRecipient 5 mainnet_ZF_ADDRESSES); (MajorGrants, mkRecipient 8 mainnet_MG_ADDRESSES)]);
   mkStreams (2726400, 2726400 + POST_NU6_FUNDING_STREAM_NUM_BLOCKS)
     (stream_recipients [(Deferred, mkRecipient 12 []); (MajorGrants, mkRecipient 8 mainnet_POST_NU6_FPF_ADDRESSES)]);
   mkStreams (3146400, 4406400)
     (stream_recipients [(Deferred, mkRecipient 12 []); (MajorGrants, mkRecipient 8 mainnet_POST_NU6_1_FPF_ADDRESSES)])].

Definition testnet_FUNDING_STREAMS `{Literals} : list FundingStreams :=
  [mkStreams (1028500, 2796000)
     (stream_recipients [(Ecc, mkRecipient 7 testnet_ECC_ADDRESSES);
        (ZcashFoundation, mkRecipient 5 testnet_ZF_ADDRESSES); (MajorGrants, mkRecipient 8 testnet_MG_ADDRESSES)]);
   mkStreams (2976000, 2976000 + POST_NU6_FUNDING_STREAM_NUM_BLOCKS)
     (stream_recipients [(Deferred, mkRecipient 12 []); (MajorGrants, mkRecipient 8 testnet_POST_NU6_FPF_ADDRESSES)]);
   mkStreams (3536500, 4476000)
     (stream_recipients [(Deferred, mkRecipient 12 []); (MajorGrants, mkRecipient 8 testnet_POST_NU6_1_FPF_ADDRESSES)])].

(** ** Accessors of a network *)

Definition slow_start_interval (self : Network) : Height :=
  match self with Testnet params => params_slow_start_interval params | Mainnet => SLOW_START_INTERVAL end.
Definition slow_start_shift (self : Network) : Height :=
  match self with Testnet params => params_slow_start_shift params | Mainnet => SLOW_START_SHIFT end.
Definition disable_pow (self : Network) : bool :=
  match self with Testnet params => params_disable_pow params | Mainnet => false end.
Definition should_allow_unshielded_coinbase_spends (self : Network) : bool :=
  match self with Testnet params => params_allow_unshielded_coinbase_spends params | Mainnet => false end.
Definition all_funding_streams `{Literals} (self : Network) : list FundingStreams :=
  match self with Testnet params => params_funding_streams params | Mainnet => mainnet_FUNDING_STREAMS end.
Definition funding_streams `{Literals} (self : Network) (height : Height) : option FundingStreams :=
  List.find (fun streams => range_contains (height_range streams) height) (all_funding_streams self).
Definition founder_address_list `{Literals} (self : Network) : list (list Z) :=
  match self with Mainnet => mainnet_FOUNDER_ADDRESS_LIST | Testnet _ => testnet_FOUNDER_ADDRESS_LIST end.

(** [ParameterDifficulty for Network]. *)
Definition target_difficulty_limit (self : Network) : Run ExpandedDifficulty :=
  match self with
  | Mainnet =>
      let limit := u256_shl 1 243 - 1 in
      compact ← to_compact limit;
      expanded ← to_expanded compact;
      expect expanded
  | Testnet params => Ok (params_target_difficulty_limit params)
  end.

Definition is_max_block_time_enforced (self : Network) (height : Height) : bool :=
  match self with Mainnet => true | Testnet _ => TESTNET_MAX_TIME_START_HEIGHT <=? height end.

(** ** Activation heights *)

Definition activation_list (self : Network) : list (Z * NetworkUpgrade) :=
  match self with
  | Mainnet => bt_of_list MAINNET_ACTIVATION_HEIGHTS
  | Testnet params => activation_heights params
  end.

Definition current_with_activation_height (network : Network) (height : Height) : Run (NetworkUpgrade * Height) :=
  expect ((fun p => (p.2, p.1)) <$> bt_last (bt_range_le height (activation_list network))).

Definition current (network : Network) (height : Height) : Run NetworkUpgrade :=
  expect (snd <$> bt_last (bt_range_le height (activation_list network))).

Definition is_activation_height (network : Network) (height : Height) : bool :=
  bool_decide (is_Some (bt_get height (activation_list network))).

(** The height of [self] in the activation list. *)
Definition find_activation (network : Network) (self : NetworkUpgrade) : option Height :=
  fst <$> List.find (fun p => bool_decide (p.2 = self)) (activation_list network).

(** The recursion goes to the next upgrade, so its depth is at most the number of upgrades. *)
Fixpoint activation_height_fuel (fuel : nat) (self : NetworkUpgrade) (network : Network) : option Height :=
  match find_activation network self with
  | Some height => Some height
  | None =>
      match fuel with
      | O => None
      | S fuel => next_nu ← next_upgrade self; activation_height_fuel fuel next_nu network
      end
  end.
Definition activation_height (self : NetworkUpgrade) (network : Network) : option Height :=
  activation_height_fuel (length iter) self network.

Definition full_activation_list (self : Network) : list (Height * NetworkUpgrade) :=
  omap (fun nu => height ← activation_height nu self; Some (height, nu)) iter.

Definition mandatory_checkpoint_height (self : Network) : Run Height :=
  canopy ← expect (activation_height Canopy self);
  expect_ok (previous canopy).

Definition sapling_activation_height (self : Network) : Run Height :=
  expect (activation_height Sapling self).

Definition branch_id_current (network : Network) (height : Height) : Run (option Z) :=
  branch_id <$> current network height.

(** ** Target spacings, in seconds *)

Definition target_spacing (self : NetworkUpgrade) : Z :=
  match self with
  | Genesis | BeforeOverwinter | Overwinter | Sapling => PRE_BLOSSOM_POW_TARGET_SPACING
  | Blossom | Heartwood | Canopy | Nu5 | Nu6 | Nu6_1 | Nu7 => POST_BLOSSOM_POW_TARGET_SPACING
  end.

Definition target_spacing_for_height (network : Network) (height : Height) : Run Z :=
  target_spacing <$> current network height.

Definition target_spacings (network : Network) : list (Height * Z) :=
  omap (fun '(upgrade, spacing_seconds) =>
          height ← activation_height upgrade network; Some (height, spacing_seconds))
    [(Genesis, PRE_BLOSSOM_POW_TARGET_SPACING); (Blossom, POST_BLOSSOM_POW_TARGET_SPACING)].

Definition minimum_difficulty_spacing_for_height (network : Network) (height : Height) : Run (option Z) :=
  match network with
  | Testnet _ =>
      if height <? TESTNET_MINIMUM_DIFFICULTY_START_HEIGHT then Ok None
      else network_upgrade ← current network height;
           Ok (Some (target_spacing network_upgrade * TESTNET_MINIMUM_DIFFICULTY_GAP_MULTIPLIER))
  | Mainnet => Ok None
  end.

Definition is_testnet_min_difficulty_block
    (network : Network) (block_height : Height) (block_time previous_block_time : Z) : Run bool :=
  let block_time_gap := block_time - previous_block_time in
  gap ← minimum_difficulty_spacing_for_height network block_height;
  Ok (match gap with
      | Some min_difficulty_gap => min_difficulty_gap <? block_time_gap
      | None => false
      end).

Definition averaging_window_timespan (self : NetworkUpgrade) : Z := target_spacing self * POW_AVERAGING_WINDOW.
Definition averaging_window_timespan_for_height (network : Network) (height : Height) : Run Z :=
  averaging_window_timespan <$> current network height.

(** ** Well-formed activation lists

    Height 0 is [Genesis], and later upgrades activate at later heights. *)

Definition activation_lt (a b : Z * NetworkUpgrade) : Prop := a.1 < b.1 /\ nu_index a.2 < nu_index b.2.

Definition activations_ok (l : list (Z * NetworkUpgrade)) : Prop :=
  head l = Some (0, Genesis) /\ StronglySorted activation_lt l.

Lemma activations_ok_bt l : activations_ok l -> bt_ok l.
Proof.
  intros [_ Hs]. unfold bt_ok. induction Hs as [|a l _ IH Ha]; cbn; constructor; [done|].
  apply Forall_fmap. eapply Forall_impl; [exact Ha|]. intros x [Hx _]. exact Hx.
Qed.

Lemma activations_ok_mainnet : activations_ok (activation_list Mainnet).
Proof. split; [done|]. repeat (constructor; [|repeat constructor]). constructor. Qed.

Lemma activations_ok_testnet : activations_ok TESTNET_ACTIVATION_HEIGHTS.
Proof. split; [done|]. repeat (constructor; [|repeat constructor]). constructor. Qed.

Lemma activation_lt_elem l h1 n1 h2 n2 : StronglySorted activation_lt l ->
  (h1, n1) ∈ l -> (h2, n2) ∈ l -> (h1 < h2 <-> nu_index n1 < nu_index n2) /\ (n1 = n2 -> h1 = h2).
Proof.
  induction 1 as [|[h n] l _ IH Ha]; [by intros ?%elem_of_nil|].
  rewrite Forall_forall in Ha. rewrite !elem_of_cons.
  intros [[= -> ->]|H1] [[= -> ->]|H2].
  - split; [lia|done].
  - destruct (Ha _ H2) as [??]; cbn in *. split; [lia|intros ->; lia].
  - destruct (Ha _ H1) as [??]; cbn in *. split; [lia|intros ->; lia].
  - by apply IH.
Qed.

(** [c] is the last upgrade activated at or below [height], at [hc]. *)
Definition latest (l : list (Z * NetworkUpgrade)) (height hc : Z) (c : NetworkUpgrade) : Prop :=
  (hc, c) ∈ l /\ hc <= height /\ (forall h nu, (h, nu) ∈ l -> h <= height -> h <= hc).

Lemma bt_last_range_latest l height hc c : bt_ok l ->
  bt_last (bt_range_le height l) = Some (hc, c) <-> latest l height hc c.
Proof.
  intros Hl. rewrite bt_last_range_le by done. unfold latest. rewrite bt_get_In by done.
  split; intros (H1 & H2 & H3); (split; [done|split; [done|]]); intros h nu Hin; apply (H3 h nu);
    by apply bt_get_In.
Qed.

Lemma current_latest network height : activations_ok (activation_list network) -> 0 <= height ->
  exists hc c, latest (activation_list network) height hc c /\
    current network height = Ok c /\ current_with_activation_height network height = Ok (c, hc).
Proof.
  intros Hok Hh. unfold current, current_with_activation_height.
  destruct (bt_last _) as [[hc c]|] eqn:Hl.
  - exists hc, c. split; [|done]. apply bt_last_range_latest; [by apply activations_ok_bt|done].
  - exfalso. destruct Hok as [Hhd _]. destruct (activation_list network) as [|a l]; [done|].
    injection Hhd as ->. unfold bt_range_le in Hl. rewrite filter_cons, decide_True in Hl by done.
    unfold bt_last in Hl. by apply last_None in Hl.
Qed.

Lemma nu_index_inj a b : nu_index a = nu_index b -> a = b.
Proof. destruct a, b; done || (intros ?; cbn in *; lia). Qed.

Lemma next_upgrade_index nu :
  match next_upgrade nu with
  | Some nu' => nu_index nu' = nu_index nu + 1
  | None => nu_index nu = 10
  end.
Proof. by destruct nu. Qed.

Lemma nu_index_bounds nu : 0 <= nu_index nu <= 10.
Proof. destruct nu; cbn; lia. Qed.

Lemma find_activation_Some network nu h : find_activation network nu = Some h -> (h, nu) ∈ activation_list network.
Proof.
  unfold find_activation. destruct (List.find _ _) as [[h' nu']|] eqn:Hf; [|done]. intros [= <-].
  apply List.find_some in Hf as [Hin Hd%bool_decide_eq_true_1]. cbn in *; subst. by apply list_elem_of_In.
Qed.

Lemma find_activation_None network nu h : find_activation network nu = None -> (h, nu) ∉ activation_list network.
Proof.
  unfold find_activation. destruct (List.find _ _) eqn:Hf; [done|]. intros _ Hin%list_elem_of_In.
  eapply List.find_none in Hf; [|exact Hin]. cbn in Hf. by rewrite bool_decide_eq_true_2 in Hf.
Qed.

(** [activation_height nu] is the height of the first listed upgrade from [nu] on. *)
Definition first_from (l : list (Z * NetworkUpgrade)) (nu : NetworkUpgrade) (o : option Height) : Prop :=
  match o with
  | Some h => exists nu', (h, nu') ∈ l /\ nu_index nu <= nu_index nu' /\
      (forall h'' nu'', (h'', nu'') ∈ l -> nu_index nu <= nu_index nu'' -> nu_index nu' <= nu_index nu'')
  | None => forall h' nu', (h', nu') ∈ l -> nu_index nu' < nu_index nu
  end.

Lemma activation_height_fuel_first network fuel : forall nu, 10 - nu_index nu <= Z.of_nat fuel ->
  first_from (activation_list network) nu (activation_height_fuel fuel nu network).
Proof.
  induction fuel as [|fuel IH]; intros nu Hf; cbn [activation_height_fuel];
    (destruct (find_activation network nu) as [h|] eqn:Hfind;
      [by exists nu; apply find_activation_Some in Hfind|]).
  - intros h' nu' Hin. pose proof (nu_index_bounds nu'). pose proof (nu_index_bounds nu).
    destruct (decide (nu_index nu' = nu_index nu)) as [->%nu_index_inj|]; [|lia].
    by eapply find_activation_None in Hfind.
  - assert (Hge : forall h' nu', (h', nu') ∈ activation_list network -> nu_index nu <= nu_index nu' ->
      nu_index nu + 1 <= nu_index nu').
    { intros h' nu' Hin Hle. destruct (decide (nu_index nu = nu_index nu')) as [->%nu_index_inj|]; [|lia].
      by eapply find_activation_None in Hfind. }
    pose proof (next_upgrade_index nu) as Hn. destruct (next_upgrade nu) as [nu1|]; cbn [mbind option_bind].
    + specialize (IH nu1 ltac:(lia)). destruct (activation_height_fuel fuel nu1 network) as [h|]; cbn in *.
      * destruct IH as (nu' & Hin & Hle & Hmin). exists nu'. split; [done|]. split; [lia|].
        intros h'' nu'' Hin'' Hle''. apply (Hmin h''); [done|]. rewrite Hn. by apply (Hge h'').
      * intros h' nu' Hin. specialize (IH _ _ Hin). destruct (decide (nu_index nu <= nu_index nu')); [|lia].
        specialize (Hge _ _ Hin). lia.
    + intros h' nu' Hin. pose proof (nu_index_bounds nu'). specialize (Hge _ _ Hin). lia.
Qed.

Lemma activation_height_first network nu :
  first_from (activation_list network) nu (activation_height nu network).
Proof. apply activation_height_fuel_first. pose proof (nu_index_bounds nu). cbn; lia. Qed.

(** The bridge between the two ways the code asks whether an upgrade is active. *)
Lemma active_iff network height c nu :
  activations_ok (activation_list network) -> 0 <= height -> current network height = Ok c ->
  nu_index nu <= nu_index c <-> exists h, activation_height nu network = Some h /\ h <= height.
Proof.
  intros Hok Hh Hc. destruct (current_latest _ _ Hok Hh) as (hc & c' & (Hin & Hle & Hmax) & Hc' & _).
  rewrite Hc in Hc'. injection Hc' as <-. destruct Hok as [_ Hs].
  pose proof (activation_height_first network nu) as Hf. split.
  - intros Hnu. destruct (activation_height nu network) as [h|]; cbn in Hf.
    + destruct Hf as (nu' & Hin' & Hle' & Hmin). exists h. split; [done|].
      specialize (Hmin _ _ Hin Hnu). pose proof (activation_lt_elem _ _ _ _ _ Hs Hin Hin') as [Hlt _]. lia.
    + specialize (Hf _ _ Hin). lia.
  - intros (h & Hact & Hhh). rewrite Hact in Hf. destruct Hf as (nu' & Hin' & Hle' & _).
    specialize (Hmax _ _ Hin' Hhh). pose proof (activation_lt_elem _ _ _ _ _ Hs Hin Hin') as [Hlt _]. lia.
Qed.

(** ** Properties *)

(** on a network whose activation list is in order, every block height has a
    current network upgrade; it is the one with the greatest activation
    height at or below the block; and an upgrade is at or before the current one exactly when its
    [activation_height] has been reached, also for upgrades that the list leaves out. *)
Theorem upgrade_schedule (network : Network) (height : Height)
  (Hok : activations_ok (activation_list network)) (Hh : 0 <= height) :
  exists c hc,
    current network height = Ok c /\ current_with_activation_height network height = Ok (c, hc) /\
    latest (activation_list network) height hc c /\
    (forall nu, nu_leb nu c = true <-> exists h, activation_height nu network = Some h /\ h <= height).
Proof.
  destruct (current_latest _ _ Hok Hh) as (hc & c & Hl & Hc & Hc').
  exists c, hc. split; [done|]. split; [done|]. split; [done|]. intros nu.
  unfold nu_leb. rewrite Z.leb_le. by apply active_iff.
Qed.

Lemma upgrade_schedule_witness : exists c, current Mainnet 1000000 = Ok c.
Proof.
  destruct (upgrade_schedule Mainnet 1000000) as (c & hc & Hc & _);
    [exact activations_ok_mainnet|lia|]. exists c. exact Hc.
Defined.
