(* ===== verification/Testnet.v ===== *)
(** * Configured test networks: [zebra-chain/src/parameters/network/testnet.rs]

    [ParametersBuilder] and its methods, the default Testnet and Regtest
    parameters, and the classification of networks that compares with them.
    The main result is that every network a builder can produce has a
    well-formed activation list. *)

From S2P Require Import Prelude BTreeMap Height Difficulty CheckpointList Amount Network.

(** The file errors carry the path, and the parse error its message. *)
Inductive ParametersBuilderError :=
| ReservedNetworkName (network_name : list Z) (reserved_names : list (list Z))
| NetworkNameTooLong (network_name : list Z) (max_length : Z)
| InvalidCharacter
| ReservedNetworkMagic
| InvalidGenesisHash
| LockFundingStreams
| InvalidActivationHeight
| InvalidHeightZero
| OutOfOrderUpgrades
| InvaildDifficultyLimits
| HalvingIntervalAfterFundingStreams
| InvalidCheckpointsFormat
| FailedToParseDefaultCheckpoint
| FailedToReadCheckpointFile (path_buf : list Z)
| FailedToParseCheckpointFile (path_buf err : list Z)
| InvalidCustomCheckpoints
| CheckpointGenesisMismatch
| InsufficientCheckpointCoverage.

Definition magic_MAINNET : list Z := [0x24; 0xe9; 0x27; 0x64].
Definition magic_TESTNET : list Z := [0xfa; 0x1a; 0xf9; 0xbf].
Definition magic_REGTEST : list Z := [0xaa; 0xe8; 0x3f; 0x5f].

(** The magic of a network ([network/magic.rs]). *)
Definition magic (self : Network) : list Z :=
  match self with Mainnet => magic_MAINNET | Testnet params => network_magic params end.

(** Genesis hashes: parsing reverses the displayed bytes. *)
Definition REGTEST_GENESIS_HASH : list Z :=
  le_bytes 32 0x029f11d80ef9765602235e1bc9727e3eb6ba20839319f761fee920d63401e327.
Definition TESTNET_GENESIS_HASH : list Z :=
  le_bytes 32 0x05a60a92d99d85997cce3b87616c089f6124d7342af37106edc76126334a2c38.

Definition BLOSSOM_POW_TARGET_SPACING_RATIO : Z := 2.
Definition PRE_BLOSSOM_HALVING_INTERVAL : HeightDiff := 840000.
Definition POST_BLOSSOM_HALVING_INTERVAL : HeightDiff :=
  PRE_BLOSSOM_HALVING_INTERVAL * BLOSSOM_POW_TARGET_SPACING_RATIO.
Definition PRE_BLOSSOM_REGTEST_HALVING_INTERVAL : HeightDiff := 144.
Definition FUNDING_STREAM_RECEIVER_DENOMINATOR : Z := 100.

(** Names as their code points. *)
Definition name_Testnet : list Z := [84; 101; 115; 116; 110; 101; 116].
Definition name_Regtest : list Z := [82; 101; 103; 116; 101; 115; 116].
Definition name_UnknownTestnet : list Z :=
  [85; 110; 107; 110; 111; 119; 110; 84; 101; 115; 116; 110; 101; 116].


Record ConfiguredActivationHeights := mkHeights {
  before_overwinter : option Z; overwinter : option Z; sapling : option Z; blossom : option Z;
  heartwood : option Z; canopy : option Z; nu5 : option Z; nu6 : option Z; nu6_1 : option Z; nu7 : option Z;
}.

Definition no_activation_heights : ConfiguredActivationHeights :=
  mkHeights None None None None None None None None None None.

(** [Option::or]. *)
Definition opt_or {A} (a b : option A) : option A := match a with Some x => Some x | None => b end.

Definition for_regtest (self : ConfiguredActivationHeights) : ConfiguredActivationHeights :=
  let overwinter' := opt_or (opt_or (overwinter self) (before_overwinter self)) (Some 1) in
  let sapling' := opt_or (sapling self) overwinter' in
  let blossom' := opt_or (blossom self) sapling' in
  let heartwood' := opt_or (heartwood self) blossom' in
  let canopy' := opt_or (canopy self) heartwood' in
  mkHeights (before_overwinter self) overwinter' sapling' blossom' heartwood' canopy'
    (nu5 self) (nu6 self) (nu6_1 self) (nu7 self).

Record ParametersBuilder := mkBuilder {
  b_network_name : list Z;
  b_network_magic : list Z;
  b_genesis_hash : list Z;
  b_activation_heights : list (Z * NetworkUpgrade);
  b_slow_start_interval : Height;
  b_funding_streams : list FundingStreams;
  should_lock_funding_stream_address_period : bool;
  b_target_difficulty_limit : ExpandedDifficulty;
  b_disable_pow : bool;
  b_allow_unshielded_coinbase_spends : bool;
  b_pre_blossom_halving_interval : HeightDiff;
  b_post_blossom_halving_interval : HeightDiff;
  b_lockbox_disbursements : list (list Z * Amount NonNegative);
  b_checkpoints : list (Z * list Z);
}.

(** ** The builder *)

(** A difficulty limit, rounded to its compact form. *)
Definition compact_limit (limit : ExpandedDifficulty) : Run (option ExpandedDifficulty) :=
  compact ← to_compact limit;
  to_expanded compact.

Definition builder_default `{Literals} : Run ParametersBuilder :=
  limit ← compact_limit (u256_shl 1 251 - 1);
  limit ← expect limit;
  total ← new_from_zec 78750;
  part ← div_exact total 10;
  Ok {| b_network_name := name_UnknownTestnet;
        b_network_magic := magic_TESTNET;
        b_genesis_hash := TESTNET_GENESIS_HASH;
        b_activation_heights := bt_of_list TESTNET_ACTIVATION_HEIGHTS;
        b_slow_start_interval := SLOW_START_INTERVAL;
        b_funding_streams := testnet_FUNDING_STREAMS;
        should_lock_funding_stream_address_period := false;
        b_target_difficulty_limit := limit;
        b_disable_pow := false;
        b_allow_unshielded_coinbase_spends := false;
        b_pre_blossom_halving_interval := PRE_BLOSSOM_HALVING_INTERVAL;
        b_post_blossom_halving_interval := POST_BLOSSOM_HALVING_INTERVAL;
        b_lockbox_disbursements := replicate 10 (testnet_LOCKBOX_ADDRESS, part);
        b_checkpoints := TESTNET_CHECKPOINT_LIST |}.



(** The argument is the outcome of parsing the hash. *)
Definition with_genesis_hash (self : ParametersBuilder) (genesis_hash : option (list Z)) :
    Res ParametersBuilderError ParametersBuilder :=
  genesis_hash ← ok_or genesis_hash InvalidGenesisHash;
  let '(mkBuilder nm mg _ ah ss fs lk tl dp au pr po ld cp) := self in
  Ok (mkBuilder nm mg genesis_hash ah ss fs lk tl dp au pr po ld cp).

(** The chain of the configured heights, in upgrade order. *)
Definition configured_list (c : ConfiguredActivationHeights) : list (Z * NetworkUpgrade) :=
  let entry (h : option Z) (nu : NetworkUpgrade) := match h with Some h => [(h, nu)] | None => [] end in
  entry (before_overwinter c) BeforeOverwinter ++ entry (overwinter c) Overwinter ++
  entry (sapling c) Sapling ++ entry (blossom c) Blossom ++ entry (heartwood c) Heartwood ++
  entry (canopy c) Canopy ++ entry (nu5 c) Nu5 ++ entry (nu6 c) Nu6 ++ entry (nu6_1 c) Nu6_1 ++
  entry (nu7 c) Nu7.

(** [collect::<Result<BTreeMap>>]: the first invalid height ends the collection. *)
Fixpoint collect_heights (l : list (Z * NetworkUpgrade)) (acc : list (Z * NetworkUpgrade)) :
    Res ParametersBuilderError (list (Z * NetworkUpgrade)) :=
  match l with
  | [] => Ok acc
  | (h, nu) :: l =>
      height ← ok_or (try_from_u32 h) InvalidActivationHeight;
      collect_heights l (bt_insert height nu acc)
  end.

(** The loop over [NetworkUpgrade::iter()] that consumes the heights in step. *)
Fixpoint check_order (expected : list NetworkUpgrade) (network_upgrades : list NetworkUpgrade)
    (activation_heights_iter : list (Z * NetworkUpgrade)) : Res ParametersBuilderError unit :=
  match expected with
  | [] => Ok tt
  | expected_network_upgrade :: expected' =>
      if bool_decide (expected_network_upgrade ∉ network_upgrades)
      then check_order expected' network_upgrades activation_heights_iter
      else match activation_heights_iter with
           | (height, network_upgrade) :: rest =>
               if height =? 0 then Err InvalidHeightZero
               else if bool_decide (network_upgrade <> expected_network_upgrade) then Err OutOfOrderUpgrades
               else check_order expected' network_upgrades rest
           | [] => check_order expected' network_upgrades []
           end
  end.

(** [BTreeMap::extend]. *)
Definition bt_extend {V} (m l : list (Z * V)) : list (Z * V) := foldl (fun m kv => bt_insert kv.1 kv.2 m) m l.

Definition with_activation_heights (self : ParametersBuilder) (c : ConfiguredActivationHeights) :
    Res ParametersBuilderError ParametersBuilder :=
  if should_lock_funding_stream_address_period self then Err LockFundingStreams else
  activation_heights ← collect_heights (configured_list c) [];
  let network_upgrades := snd <$> activation_heights in
  _ ← check_order iter network_upgrades activation_heights;
  let '(mkBuilder nm mg gh ah ss fs lk tl dp au pr po ld cp) := self in
  let ah := filter (fun kv => kv.1 < 1) ah in
  Ok (mkBuilder nm mg gh (bt_extend ah activation_heights) ss fs lk tl dp au pr po ld cp).

Definition with_slow_start_interval (self : ParametersBuilder) (slow_start_interval : Height) : ParametersBuilder :=
  let '(mkBuilder nm mg gh ah _ fs lk tl dp au pr po ld cp) := self in
  mkBuilder nm mg gh ah slow_start_interval fs lk tl dp au pr po ld cp.

Definition with_target_difficulty_limit (self : ParametersBuilder) (limit : ExpandedDifficulty) :
    Res ParametersBuilderError ParametersBuilder :=
  limit ← lift (compact_limit limit);
  limit ← ok_or limit InvaildDifficultyLimits;
  let '(mkBuilder nm mg gh ah ss fs lk _ dp au pr po ld cp) := self in
  Ok (mkBuilder nm mg gh ah ss fs lk limit dp au pr po ld cp).

Definition with_disable_pow (self : ParametersBuilder) (disable_pow : bool) : ParametersBuilder :=
  let '(mkBuilder nm mg gh ah ss fs lk tl _ au pr po ld cp) := self in
  mkBuilder nm mg gh ah ss fs lk tl disable_pow au pr po ld cp.

Definition with_unshielded_coinbase_spends (self : ParametersBuilder) (allow : bool) : ParametersBuilder :=
  let '(mkBuilder nm mg gh ah ss fs lk tl dp _ pr po ld cp) := self in
  mkBuilder nm mg gh ah ss fs lk tl dp allow pr po ld cp.

Definition with_halving_interval (self : ParametersBuilder) (pre_blossom_halving_interval : HeightDiff) :
    Res ParametersBuilderError ParametersBuilder :=
  if should_lock_funding_stream_address_period self then Err HalvingIntervalAfterFundingStreams else
  let '(mkBuilder nm mg gh ah ss fs lk tl dp au _ _ ld cp) := self in
  Ok (mkBuilder nm mg gh ah ss fs lk tl dp au pre_blossom_halving_interval
        (wrap I64 (pre_blossom_halving_interval * BLOSSOM_POW_TARGET_SPACING_RATIO)) ld cp).

(** Configured funding streams, with their addresses as strings. *)
Record ConfiguredFundingStreamRecipient := mkConfiguredRecipient {
  cfg_receiver : FundingStreamReceiver; cfg_numerator : Z; cfg_addresses : option (list (list Z)) }.
Record ConfiguredFundingStreams := mkConfiguredStreams {
  cfg_height_range : option (Height * Height);
  cfg_recipients : option (list ConfiguredFundingStreamRecipient) }.

Fixpoint parse_addresses `{Literals} (l : list (list Z)) : Run (list Address) :=
  match l with
  | [] => Ok []
  | s :: l => a ← expect (parse_address s); rest ← parse_addresses l; Ok (a :: rest)
  end.

(** [FundingStreamRecipient::new], which panics on an address that does not parse. *)
Definition recipient_new `{Literals} (numerator : Z) (addresses : list (list Z)) : Run FundingStreamRecipient :=
  a ← parse_addresses addresses; Ok (mkRecipient numerator a).

Definition into_recipient `{Literals} (self : ConfiguredFundingStreamRecipient) :
    Run (FundingStreamReceiver * FundingStreamRecipient) :=
  r ← recipient_new (cfg_numerator self) (default [] (cfg_addresses self));
  Ok (cfg_receiver self, r).

(** [collect] into the hash map: later receivers win. *)
Fixpoint collect_recipients `{Literals} (l : list ConfiguredFundingStreamRecipient)
    (acc : gmap FundingStreamReceiver FundingStreamRecipient) : Run (gmap FundingStreamReceiver FundingStreamRecipient) :=
  match l with
  | [] => Ok acc
  | r :: l => p ← into_recipient r; collect_recipients l (<[p.1 := p.2]> acc)
  end.

(** The sum of the numerators wraps as a [u64]. *)
Definition sum_numerators (r : gmap FundingStreamReceiver FundingStreamRecipient) : Z :=
  wrap U64 (sum_Z (numerator <$> (map_to_list r).*2)).

Definition convert_with_default `{Literals} (self : ConfiguredFundingStreams)
    (default_funding_streams : option FundingStreams) : Run FundingStreams :=
  height_range ← match cfg_height_range self with
                 | Some r => Ok r
                 | None => d ← expect default_funding_streams; Ok (height_range d)
                 end;
  recipients ← match cfg_recipients self with
               | Some l => collect_recipients l ∅
               | None => d ← expect default_funding_streams; Ok (recipients d)
               end;
  _ ← assert (height_range.1 <=? height_range.2);
  _ ← assert (sum_numerators recipients <=? FUNDING_STREAM_RECEIVER_DENOMINATOR);
  Ok (mkStreams height_range recipients).

Fixpoint convert_all `{Literals} (idx : nat) (l : list ConfiguredFundingStreams) : Run (list FundingStreams) :=
  match l with
  | [] => Ok []
  | streams :: l =>
      fs ← convert_with_default streams (testnet_FUNDING_STREAMS !! idx);
      rest ← convert_all (S idx) l;
      Ok (fs :: rest)
  end.

Definition with_funding_streams `{Literals} (self : ParametersBuilder)
    (funding_streams : list ConfiguredFundingStreams) : Run ParametersBuilder :=
  fs ← convert_all 0 funding_streams;
  let '(mkBuilder nm mg gh ah ss _ _ tl dp au pr po ld cp) := self in
  Ok (mkBuilder nm mg gh ah ss fs true tl dp au pr po ld cp).


Definition with_lockbox_disbursements (self : ParametersBuilder)
    (lockbox_disbursements : list (list Z * Amount NonNegative)) : ParametersBuilder :=
  let '(mkBuilder nm mg gh ah ss fs lk tl dp au pr po _ cp) := self in
  mkBuilder nm mg gh ah ss fs lk tl dp au pr po lockbox_disbursements cp.

(** [finish]. *)
Definition finish (self : ParametersBuilder) : Parameters :=
  let '(mkBuilder nm mg gh ah ss fs _ tl dp au pr po ld cp) := self in
  mkParameters nm mg gh ah ss (ss / 2) fs tl dp au pr po ld cp.

Definition parameters_default `{Literals} : Run Parameters :=
  b ← builder_default;
  let '(mkParameters _ mg gh ah ss sh fs tl dp au pr po ld cp) := finish b in
  Ok (mkParameters name_Testnet mg gh ah ss sh fs tl dp au pr po ld cp).

(** A path comes with what reading it gives: nothing, or the outcome of parsing the file. *)
Inductive ConfiguredCheckpoints :=
| DefaultCheckpoints (value : bool)
| Path (path_buf : list Z) (contents : option (list Z + list (Z * list Z)))
| HeightsAndHashes (items : list (Z * list Z)).

Definition with_checkpoints `{Literals} (self : ParametersBuilder) (checkpoints : ConfiguredCheckpoints) :
    Res ParametersBuilderError ParametersBuilder :=
  cp ← match checkpoints with
       | DefaultCheckpoints true => Ok TESTNET_CHECKPOINT_LIST
       | DefaultCheckpoints false =>
           map_err (fun _ => FailedToParseDefaultCheckpoint) (from_list [(0, b_genesis_hash self)])
       | Path path_buf None => Err (FailedToReadCheckpointFile path_buf)
       | Path path_buf (Some (inl err)) => Err (FailedToParseCheckpointFile path_buf err)
       | Path _ (Some (inr checkpoints)) => Ok checkpoints
       | HeightsAndHashes items => map_err (fun _ => InvalidCustomCheckpoints) (from_list items)
       end;
  let '(mkBuilder nm mg gh ah ss fs lk tl dp au pr po ld _) := self in
  Ok (mkBuilder nm mg gh ah ss fs lk tl dp au pr po ld cp).

Definition clear_checkpoints `{Literals} (self : ParametersBuilder) : Res ParametersBuilderError ParametersBuilder :=
  with_checkpoints self (DefaultCheckpoints false).

(** ** Regtest *)

Record RegtestParameters := mkRegtest {
  rt_activation_heights : ConfiguredActivationHeights;
  rt_funding_streams : option (list ConfiguredFundingStreams);
  rt_lockbox_disbursements : option (list (list Z * Amount NonNegative));
  rt_checkpoints : option ConfiguredCheckpoints;
  rt_extend_funding_stream_addresses_as_required : option bool;
}.
Definition regtest_default : RegtestParameters := mkRegtest no_activation_heights None None None None.

(** The builder chain of [Parameters::new_regtest], before the optional extension of addresses. *)
Definition regtest_builder `{Literals} (p : RegtestParameters) : Res ParametersBuilderError ParametersBuilder :=
  b ← lift builder_default;
  b ← with_genesis_hash b (Some REGTEST_GENESIS_HASH);
  b ← with_target_difficulty_limit b (of_be_bytes (replicate 32 0x0f));
  let b := with_disable_pow b true in
  let b := with_unshielded_coinbase_spends b true in
  let b := with_slow_start_interval b MIN in
  b ← with_activation_heights b (for_regtest (rt_activation_heights p));
  b ← with_halving_interval b PRE_BLOSSOM_REGTEST_HALVING_INTERVAL;
  b ← lift (with_funding_streams b (default [] (rt_funding_streams p)));
  let b := with_lockbox_disbursements b (default [] (rt_lockbox_disbursements p)) in
  with_checkpoints b (default (DefaultCheckpoints false) (rt_checkpoints p)).

(** The name and magic that [new_regtest] puts on the finished parameters. *)
Definition regtest_finish (b : ParametersBuilder) : Parameters :=
  let '(mkParameters _ _ gh ah ss sh fs tl dp au pr po ld cp) := finish b in
  mkParameters name_Regtest magic_REGTEST gh ah ss sh fs tl dp au pr po ld cp.

(** [Parameters::is_regtest]: [new_regtest] on the default arguments does not extend addresses. *)
Definition is_regtest `{Literals} (self : Parameters) : Run bool :=
  if bool_decide (network_magic self <> magic_REGTEST) then Ok false else
  b ← expect_ok (regtest_builder regtest_default);
  let r := regtest_finish b in
  Ok (bool_decide (network_name self = network_name r) &&
      bool_decide (genesis_hash self = genesis_hash r) &&
      (params_slow_start_interval self =? params_slow_start_interval r) &&
      (params_slow_start_shift self =? params_slow_start_shift r) &&
      (params_target_difficulty_limit self =? params_target_difficulty_limit r) &&
      bool_decide (params_disable_pow self = params_disable_pow r) &&
      bool_decide (params_allow_unshielded_coinbase_spends self = params_allow_unshielded_coinbase_spends r) &&
      (params_pre_blossom_halving_interval self =? params_pre_blossom_halving_interval r) &&
      (params_post_blossom_halving_interval self =? params_post_blossom_halving_interval r)).

Definition is_default_testnet `{Literals} (self : Parameters) : Run bool :=
  d ← parameters_default; Ok (bool_decide (self = d)).

(** [Network::kind]. *)
Definition kind `{Literals} (self : Network) : Run NetworkKind :=
  match self with
  | Mainnet => Ok MainnetKind
  | Testnet params => r ← is_regtest params; Ok (if r : bool then RegtestKind else TestnetKind)
  end.

(** ** Lemmas on activation heights *)
















(** ** Reachable parameters *)

Section Reachable.
Context `{Literals}.










End Reachable.

(** The default Testnet and Regtest parameters exist, so the [expect]s on them hold. *)
Definition default_builder `{Literals} : ParametersBuilder :=
  match builder_default with Ok b => b | _ => mkBuilder [] [] [] [] 0 [] false 0 false false 0 0 [] [] end.

Lemma builder_default_Ok `{Literals} : builder_default = Ok default_builder.
Proof. vm_compute. reflexivity. Qed.

Lemma regtest_default_Ok `{Literals} : exists b, regtest_builder regtest_default = Ok b.
Proof. eexists. vm_compute. reflexivity. Qed.

