(* ===== verification/Subsidy.v ===== *)
(** * Block subsidies and funding streams

    [zebra-chain/src/parameters/network/subsidy.rs] and
    [zebra-consensus/src/block/subsidy.rs]: halvings, the block subsidy, the
    founders reward, the funding streams and their addresses. *)

From S2P Require Import Prelude BTreeMap Height Difficulty CheckpointList Amount Network Testnet.

Definition MAX_BLOCK_SUBSIDY : Z := (25 * COIN) / 2.

Inductive SubsidyError :=
| NoCoinbase
| FundingStreamNotFound
| FoundersRewardNotFound
| OneTimeLockboxDisbursementNotFound
| InvalidMinerFees
| Overflow
| Underflow
| UnsupportedHeight
| InvalidAmount (e : Error).

(** [i64] division, which panics on a zero divisor. *)
Definition i64_div {E} (a b : Z) : Res E Z := expect (checked_div I64 a b).

(** ** [ParameterSubsidy for Network] *)

Definition post_blossom_halving_interval (self : Network) : HeightDiff :=
  match self with
  | Mainnet => POST_BLOSSOM_HALVING_INTERVAL
  | Testnet params => params_post_blossom_halving_interval params
  end.

Definition pre_blossom_halving_interval (self : Network) : HeightDiff :=
  match self with
  | Mainnet => PRE_BLOSSOM_HALVING_INTERVAL
  | Testnet params => params_pre_blossom_halving_interval params
  end.

Definition funding_stream_address_change_interval (self : Network) : HeightDiff :=
  Z.quot (post_blossom_halving_interval self) 48.

Definition height_for_halving (halving : Z) (network : Network) : option Height :=
  if halving =? 0 then Some 0 else
  let slow_start_shift := slow_start_shift network in
  blossom_height ← activation_height Blossom network;
  unscaled_height ← checked_mul I64 halving (pre_blossom_halving_interval network);
  pre_blossom_height ← checked_add I64 (Z.min unscaled_height blossom_height) slow_start_shift;
  scaled ← checked_mul I64 (Z.max 0 (wrap I64 (unscaled_height - blossom_height))) BLOSSOM_POW_TARGET_SPACING_RATIO;
  post_blossom_height ← checked_add I64 scaled slow_start_shift;
  height ← checked_add I64 pre_blossom_height post_blossom_height;
  height ← try_from U32 height;
  try_from_u32 height.

Definition regtest_FIRST_HALVING : Height := 287.
Definition testnet_FIRST_HALVING : Height := 1116000.

Definition height_for_first_halving `{Literals} (self : Network) : Run Height :=
  match self with
  | Mainnet => expect (activation_height Canopy self)
  | Testnet params =>
      is_regtest ← is_regtest params;
      if is_regtest : bool then Ok regtest_FIRST_HALVING else
      is_default ← is_default_testnet params;
      if is_default : bool then Ok testnet_FIRST_HALVING else
      expect (height_for_halving 1 self)
  end.

Definition funding_stream_address_period `{Literals} (height : Height) (network : Network) : Run Z :=
  first ← height_for_first_halving network;
  let height_after_first_halving := sub_height height first in
  address_period ← i64_div (wrap I64 (height_after_first_halving + post_blossom_halving_interval network))
                           (funding_stream_address_change_interval network);
  expect (try_from U32 address_period).

(** ** Halvings *)

Definition halving (height : Height) (network : Network) : Run Z :=
  let slow_start_shift := slow_start_shift network in
  blossom_height ← expect (activation_height Blossom network);
  halving_index ←
    (if height <? slow_start_shift then Ok 0
     else if height <? blossom_height then
       let pre_blossom_height := sub_height height slow_start_shift in
       i64_div pre_blossom_height (pre_blossom_halving_interval network)
     else
       let pre_blossom_height := sub_height blossom_height slow_start_shift in
       let scaled_pre_blossom_height := wrap I64 (pre_blossom_height * BLOSSOM_POW_TARGET_SPACING_RATIO) in
       let post_blossom_height := sub_height height blossom_height in
       i64_div (wrap I64 (scaled_pre_blossom_height + post_blossom_height)) (post_blossom_halving_interval network));
  expect (try_from U32 halving_index).

(** [1u64.checked_shl(n)]. *)
Definition halving_divisor (height : Height) (network : Network) : Run (option Z) :=
  n ← halving height network;
  Ok (if n <? 64 then Some (2 ^ n) else None).

Definition block_subsidy (height : Height) (net : Network) : Res SubsidyError (Amount NonNegative) :=
  halving_div ← lift (halving_divisor height net);
  match halving_div with
  | None => zero
  | Some halving_div =>
      let slow_start_interval := slow_start_interval net in
      amount ←
        (if height <? slow_start_interval then
           let slow_start_rate := MAX_BLOCK_SUBSIDY / slow_start_interval in
           if height <? slow_start_shift net then Ok (wrap U64 (slow_start_rate * height))
           else Ok (wrap U64 (slow_start_rate * wrap U64 (height + 1)))
         else
           nu ← lift (current net height);
           let base_subsidy :=
             if nu_ltb nu Blossom then MAX_BLOCK_SUBSIDY
             else MAX_BLOCK_SUBSIDY / BLOSSOM_POW_TARGET_SPACING_RATIO in
           Ok (base_subsidy / halving_div));
      map_err InvalidAmount (try_from_u64 amount)
  end.

Definition founders_reward (net : Network) (height : Height) : Run (Amount NonNegative) :=
  n ← halving height net;
  if n <? 1 then
    nu ← current net height;
    if nu_ltb nu Canopy then
      subsidy ← expect_ok (block_subsidy height net);
      div_exact subsidy 5
    else zero
  else zero.

Definition founders_reward_address `{Literals} (net : Network) (height : Height) : Run (option Address) :=
  let founders_address_list := founder_address_list net in
  let parse (i : Z) : option Address := a ← founders_address_list !! Z.to_nat i; parse_address a in
  let interval : option Z :=
    num_founder_addresses ← try_from U32 (Z.of_nat (length founders_address_list));
    pre_blossom_halving_interval ← try_from U32 (pre_blossom_halving_interval net);
    checked_add U32 (slow_start_shift net) pre_blossom_halving_interval in
  match interval with
  | None => Ok None
  | Some total =>
      (* [u32::div_ceil] panics on a zero divisor *)
      _ ← assert (negb (Nat.eqb (length founders_address_list) 0));
      let num := Z.of_nat (length founders_address_list) in
      let founder_address_change_interval := total / num + (if total mod num =? 0 then 0 else 1) in
      nu ← current net height;
      let adjusted : option Z :=
        if nu_ltb nu Blossom then Some height
        else blossom_activation_height ← activation_height Blossom net;
             d ← Prelude.checked_sub U32 height blossom_activation_height;
             checked_add U32 blossom_activation_height (d / BLOSSOM_POW_TARGET_SPACING_RATIO) in
      match adjusted with
      | None => Ok None
      | Some founder_address_adjusted_height =>
          founder_address_index ← expect (checked_div U32 founder_address_adjusted_height founder_address_change_interval);
          Ok (parse founder_address_index)
      end
  end.

(** ** Funding streams *)

(** The loop over the recipients, which stops at the first error. *)
Fixpoint stream_values (expected_block_subsidy : Amount NonNegative)
    (l : list (FundingStreamReceiver * FundingStreamRecipient))
    (results : gmap FundingStreamReceiver (Amount NonNegative)) :
    Res Error (gmap FundingStreamReceiver (Amount NonNegative)) :=
  match l with
  | [] => Ok results
  | (receiver, recipient) :: l =>
      m ← mul expected_block_subsidy (numerator recipient);
      amount_value ← div m FUNDING_STREAM_RECEIVER_DENOMINATOR;
      stream_values expected_block_subsidy l (<[receiver := amount_value]> results)
  end.

Definition funding_stream_values `{Literals} (height : Height) (network : Network)
    (expected_block_subsidy : Amount NonNegative) : Res Error (gmap FundingStreamReceiver (Amount NonNegative)) :=
  if is_zero expected_block_subsidy then Ok ∅ else
  nu ← lift (current network height);
  if nu_leb Canopy nu then
    match funding_streams network height with
    | Some funding_streams => stream_values expected_block_subsidy (map_to_list (recipients funding_streams)) ∅
    | None => Ok ∅
    end
  else Ok ∅.

Definition miner_subsidy `{Literals} (height : Height) (network : Network)
    (expected_block_subsidy : Amount NonNegative) : Res Error (Amount NonNegative) :=
  founders_reward ← lift (founders_reward network height);
  values ← funding_stream_values height network expected_block_subsidy;
  funding_streams_sum ← sum (map_to_list values).*2;
  result_sub (sub expected_block_subsidy founders_reward) funding_streams_sum.

(** [zebra-consensus/src/block/subsidy.rs]. *)
Definition funding_stream_address_index `{Literals} (height : Height) (network : Network)
    (receiver : FundingStreamReceiver) : Run (option nat) :=
  if bool_decide (receiver = Deferred) then Ok None else
  match funding_streams network height with
  | None => Ok None
  | Some fs =>
      match recipients fs !! receiver with
      | None => Ok None
      | Some recipient =>
          let num_addresses := length (addresses recipient) in
          period ← funding_stream_address_period height network;
          match checked_add U32 1 period with
          | None => Ok None
          | Some p =>
              start ← funding_stream_address_period (height_range fs).1 network;
              match Prelude.checked_sub U32 p start with
              | None => Ok None
              | Some index =>
                  _ ← assert ((0 <? index) && (index <=? Z.of_nat num_addresses));
                  Ok (Some (Z.to_nat (index - 1)))
              end
          end
      end
  end.

Definition funding_stream_address `{Literals} (height : Height) (network : Network)
    (receiver : FundingStreamReceiver) : Run (option Address) :=
  index ← funding_stream_address_index height network receiver;
  Ok (i ← index; fs ← funding_streams network height; r ← recipients fs !! receiver; addresses r !! i).

(** ** Well-formed networks

    What the builder of custom test networks and Mainnet guarantee (the
    activation list and the ratio of the halving intervals), together with what
    the formulas of the specification presuppose: a positive halving
    interval and a Blossom activation that is not inside the slow-start shift. *)

Record subsidy_ok (net : Network) (blossom : Z) : Prop := {
  so_activations : activations_ok (activation_list net);
  so_blossom : activation_height Blossom net = Some blossom;
  so_shift : 0 <= slow_start_shift net <= blossom;
  so_interval : slow_start_shift net <= slow_start_interval net <= MAX;
  so_blossom_max : blossom <= MAX;
  so_pre : 0 < pre_blossom_halving_interval net <= MAX;
  so_post : post_blossom_halving_interval net = 2 * pre_blossom_halving_interval net;
}.

Lemma mainnet_subsidy_ok : subsidy_ok Mainnet 653600.
Proof.
  constructor; [exact activations_ok_mainnet|reflexivity| | | | |reflexivity]; vm_compute;
    repeat split; discriminate.
Qed.

Lemma fits_I64_diff z : - (2 ^ 62) <= z <= 2 ^ 62 -> fits I64 z = true.
Proof. intros. apply fits_spec. cbn [ty_min ty_max I64]. lia. Qed.

Lemma sub_height_exact a b : 0 <= a <= MAX -> 0 <= b <= MAX -> sub_height a b = a - b.
Proof. rewrite MAX_eq. intros. unfold sub_height. apply wrap_fits, fits_I64_diff. lia. Qed.

Lemma i64_div_pos {E} a b : 0 <= a <= 2 ^ 62 -> 0 < b -> i64_div (E:=E) a b = Ok (a / b).
Proof.
  intros Ha Hb. unfold i64_div, checked_div. destruct (Z.eqb_spec b 0); [lia|].
  rewrite Z.quot_div_nonneg by lia. rewrite try_from_fits; [done|]. apply fits_I64_diff.
  pose proof (Z.div_pos a b). pose proof (Z.div_le_upper_bound a b a). nia.
Qed.

(** Heights since the slow-start shift, in units of post-Blossom blocks. *)
Definition scaled_height (blossom shift height : Z) : Z :=
  if height <? shift then 0
  else if height <? blossom then 2 * (height - shift)
  else 2 * (blossom - shift) + (height - blossom).

Lemma scaled_height_mono b s h h' : s <= b -> h <= h' -> scaled_height b s h <= scaled_height b s h'.
Proof. unfold scaled_height. intros. repeat case_match; lia. Qed.

Lemma halving_spec net b h : subsidy_ok net b -> 0 <= h <= MAX ->
  halving h net = Ok (scaled_height b (slow_start_shift net) h / (2 * pre_blossom_halving_interval net)).
Proof.
  intros [_ Hb Hs Hi Hbm Hp Hpost] Hh. unfold halving. rewrite Hb. cbn [expect]. rewrite Ok_bind.
  set (s := slow_start_shift net) in *. set (p := pre_blossom_halving_interval net) in *.
  assert (Hfin : forall v, 0 <= v <= 2 ^ 32 - 1 -> expect (E:=Empty_set) (try_from U32 v) = Ok v).
  { intros v Hv. rewrite try_from_fits; [done|]. apply fits_spec. cbn [ty_min ty_max U32]. lia. }
  unfold scaled_height. rewrite MAX_eq in *.
  destruct (h <? s) eqn:Hhs; [rewrite Ok_bind, Z.div_0_l by lia; by apply Hfin|].
  destruct (h <? b) eqn:Hhb.
  - rewrite sub_height_exact by (rewrite MAX_eq; lia). rewrite i64_div_pos by lia. rewrite Ok_bind.
    rewrite Z.div_mul_cancel_l by lia. apply Hfin. 
    pose proof (Z.div_pos (h - s) p). pose proof (Z.div_le_upper_bound (h - s) p (h - s)). nia.
  - rewrite !sub_height_exact by (rewrite MAX_eq; lia).
    change BLOSSOM_POW_TARGET_SPACING_RATIO with 2. rewrite (wrap_fits I64 ((b - s) * 2)) by (apply fits_I64_diff; lia).
    rewrite wrap_fits by (apply fits_I64_diff; lia). rewrite Hpost, i64_div_pos by lia. rewrite Ok_bind.
    replace ((b - s) * 2 + (h - b)) with (2 * (b - s) + (h - b)) by lia. apply Hfin.
    pose proof (Z.div_pos (2 * (b - s) + (h - b)) (2 * p)).
    pose proof (Z.div_le_upper_bound (2 * (b - s) + (h - b)) (2 * p) (2 * (b - s) + (h - b))). nia.
Qed.

(** ** The value of the block subsidy *)

Definition halving_index (net : Network) (blossom height : Z) : Z :=
  scaled_height blossom (slow_start_shift net) height / (2 * pre_blossom_halving_interval net).

Definition subsidy_value (net : Network) (blossom height : Z) : Z :=
  if 64 <=? halving_index net blossom height then 0
  else if height <? slow_start_interval net then
    MAX_BLOCK_SUBSIDY / slow_start_interval net * (if height <? slow_start_shift net then height else height + 1)
  else (if height <? blossom then MAX_BLOCK_SUBSIDY else MAX_BLOCK_SUBSIDY / 2) / 2 ^ halving_index net blossom height.

Lemma MAX_BLOCK_SUBSIDY_eq : MAX_BLOCK_SUBSIDY = 1250000000.
Proof. reflexivity. Qed.

Lemma halving_index_nonneg net b h : subsidy_ok net b -> 0 <= halving_index net b h.
Proof.
  intros [_ _ Hs _ _ Hp _]. unfold halving_index. apply Z.div_pos; [|lia].
  unfold scaled_height. repeat case_match; lia.
Qed.

Lemma div_bounds a d : 0 <= a -> 0 < d -> 0 <= a / d <= a.
Proof. intros. pose proof (Z.div_pos a d). pose proof (Z.div_le_upper_bound a d a). nia. Qed.

Lemma subsidy_value_bounds net b h : subsidy_ok net b -> 0 <= h ->
  0 <= subsidy_value net b h <= MAX_BLOCK_SUBSIDY.
Proof.
  intros Hok Hh. pose proof (halving_index_nonneg net b h Hok) as Hn. destruct Hok as [_ _ Hs Hi _ _ _].
  unfold subsidy_value. rewrite MAX_BLOCK_SUBSIDY_eq. destruct (64 <=? _); [lia|].
  destruct (h <? slow_start_interval net) eqn:Hlt.
  - pose proof (div_bounds 1250000000 (slow_start_interval net)).
    pose proof (Z.mul_div_le 1250000000 (slow_start_interval net)).
    destruct (h <? slow_start_shift net); nia.
  - pose proof (Z.pow_pos_nonneg 2 (halving_index net b h)).
    destruct (h <? b); [pose proof (div_bounds 1250000000 (2 ^ halving_index net b h))|
      change (1250000000 / 2) with 625000000; pose proof (div_bounds 625000000 (2 ^ halving_index net b h))]; lia.
Qed.

Lemma current_blossom net b h nu : subsidy_ok net b -> 0 <= h -> current net h = Ok nu ->
  nu_ltb nu Blossom = (h <? b).
Proof.
  intros [Ha Hb _ _ _ _ _] Hh Hc. pose proof (active_iff net h nu Blossom Ha Hh Hc) as Hiff.
  unfold nu_ltb. destruct (h <? b) eqn:?.
  - apply Z.ltb_lt. destruct (decide (nu_index nu < nu_index Blossom)); [done|].
    destruct Hiff as [Hx _]. destruct Hx as (h' & Hh' & ?); [lia|]. rewrite Hb in Hh'. simplify_eq. lia.
  - apply Z.ltb_ge, Hiff. exists b. split; [done|lia].
Qed.

Lemma try_from_u64_small v : 0 <= v <= MAX_MONEY ->
  try_from_u64 (C:=NonNegative) v = Ok (mkAmount v).
Proof.
  intros Hv. unfold try_from_u64. rewrite try_from_fits by (apply fits_I64_small; lia). cbn [ok_or].
  rewrite Ok_bind. change (mkAmount <$> validate NonNegative v) with (try_from_i64 (C:=NonNegative) v).
  rewrite try_from_i64_spec. destruct (contains _ v) eqn:E; [done|].
  apply not_true_iff_false in E. rewrite contains_spec in E. cbn in E. lia.
Qed.

Lemma block_subsidy_spec net b h : subsidy_ok net b -> 0 <= h <= MAX ->
  block_subsidy h net = Ok (mkAmount (subsidy_value net b h)).
Proof.
  intros Hok Hh. pose proof (subsidy_value_bounds net b h Hok ltac:(lia)) as Hv.
  unfold block_subsidy, halving_divisor. rewrite (halving_spec net b) by done. fold (halving_index net b h).
  rewrite Ok_bind. cbn [lift]. rewrite Ok_bind. unfold subsidy_value in *. rewrite MAX_BLOCK_SUBSIDY_eq in *.
  destruct (halving_index net b h <? 64) eqn:Hn; destruct (64 <=? halving_index net b h) eqn:Hn'; try lia.
  2: { rewrite zero_spec. done. }
  destruct (h <? slow_start_interval net) eqn:Hlt.
  - pose proof (so_interval _ _ Hok) as Hi. pose proof (so_shift _ _ Hok) as Hs. rewrite MAX_eq in *.
    assert (Hw : forall z, 0 <= z <= 1250000000 -> wrap U64 z = z).
    { intros z Hz. apply wrap_fits, fits_spec. cbn [ty_min ty_max U64]. lia. }
    rewrite (wrap_fits U64 (h + 1)) by (apply fits_spec; cbn [ty_min ty_max U64]; lia).
    destruct (h <? slow_start_shift net); rewrite Ok_bind, Hw by lia;
      rewrite try_from_u64_small by (unfold MAX_MONEY, COIN; lia); done.
  - destruct (current_latest net h (so_activations _ _ Hok) ltac:(lia)) as (hc & nu & _ & Hc & _).
    rewrite Hc. cbn [lift]. rewrite !Ok_bind. rewrite (current_blossom net b h nu) by (done || lia).
    change BLOSSOM_POW_TARGET_SPACING_RATIO with 2.
    rewrite try_from_u64_small; [done|]. unfold MAX_MONEY, COIN. lia.
Qed.

Lemma halving_index_mono net b h h' : subsidy_ok net b -> h <= h' -> halving_index net b h <= halving_index net b h'.
Proof.
  intros [_ _ Hs _ _ Hp _] Hle. apply Z.div_le_mono; [lia|]. apply scaled_height_mono; lia.
Qed.

Lemma div_pow2_antitone a a' n n' : 0 <= a' <= a -> 0 <= n <= n' -> a' / 2 ^ n' <= a / 2 ^ n.
Proof.
  intros Ha Hn. pose proof (Z.pow_pos_nonneg 2 n ltac:(lia) ltac:(lia)).
  pose proof (Z.pow_le_mono_r 2 n n' ltac:(lia) ltac:(lia)).
  transitivity (a' / 2 ^ n); [apply Z.div_le_compat_l; lia|apply Z.div_le_mono; lia].
Qed.

Lemma subsidy_value_after net b h : subsidy_ok net b -> slow_start_interval net <= h ->
  subsidy_value net b h = (if h <? b then MAX_BLOCK_SUBSIDY else MAX_BLOCK_SUBSIDY / 2) / 2 ^ halving_index net b h.
Proof.
  intros Hok Hh. unfold subsidy_value. destruct (h <? slow_start_interval net) eqn:?; [lia|].
  destruct (64 <=? halving_index net b h) eqn:Hn; [|done]. symmetry. apply Z.div_small.
  pose proof (Z.pow_le_mono_r 2 64 (halving_index net b h)). rewrite MAX_BLOCK_SUBSIDY_eq. 
  change (1250000000 / 2) with 625000000. destruct (h <? b); lia.
Qed.

(** ** The supply of Mainnet *)

(** What can still be issued from [h] on. *)
Definition remaining_supply (h : Z) : Z :=
  if h <? 10000 then MAX_MONEY - 31250 * (h * (h - 1))
  else if h <? 20000 then MAX_MONEY - 31250 * (10000 * 9999) - 31250 * (h * (h + 1) - 10000 * 10001)
  else if h <? 653600 then MAX_MONEY - 12500000000000 - 1250000000 * (h - 20000)
  else if h <? 1046400 then MAX_MONEY - 12500000000000 - 1250000000 * 633600 - 625000000 * (h - 653600)
  else let n := (h + 633600) / 1680000 in
       625000000 / 2 ^ n * ((n + 1) * 1680000 - (h + 633600)) + 1680000 * (625000000 / 2 ^ n).

Lemma mainnet_halving_index h : 0 <= h ->
  halving_index Mainnet 653600 h = if h <? 1046400 then 0 else (h + 633600) / 1680000.
Proof.
  intros Hh. unfold halving_index, scaled_height. cbn [slow_start_shift pre_blossom_halving_interval].
  change SLOW_START_SHIFT with 10000. change (2 * PRE_BLOSSOM_HALVING_INTERVAL) with 1680000.
  destruct (h <? 10000) eqn:?; [by destruct (h <? 1046400) eqn:?; [|lia]|].
  destruct (h <? 653600) eqn:?; [destruct (h <? 1046400) eqn:?; [|lia]; apply Z.div_small; lia|].
  replace (2 * (653600 - 10000) + (h - 653600)) with (h + 633600) by lia.
  destruct (h <? 1046400) eqn:?; [apply Z.div_small; lia|done].
Qed.

Lemma mainnet_subsidy h : 0 <= h -> subsidy_value Mainnet 653600 h =
  if h <? 10000 then 62500 * h
  else if h <? 20000 then 62500 * (h + 1)
  else if h <? 653600 then 1250000000
  else if h <? 1046400 then 625000000
  else 625000000 / 2 ^ ((h + 633600) / 1680000).
Proof.
  intros Hh. destruct (h <? 20000) eqn:Hlt.
  - unfold subsidy_value. rewrite mainnet_halving_index by done. destruct (h <? 1046400) eqn:?; [|lia].
    cbn [slow_start_interval slow_start_shift]. change SLOW_START_INTERVAL with 20000.
    change SLOW_START_SHIFT with 10000. rewrite Hlt. change (64 <=? 0) with false. cbn match.
    change (MAX_BLOCK_SUBSIDY / 20000) with 62500. by destruct (h <? 10000).
  - rewrite (subsidy_value_after Mainnet); [|exact mainnet_subsidy_ok|cbn; change SLOW_START_INTERVAL with 20000; lia].
    rewrite mainnet_halving_index by done. rewrite MAX_BLOCK_SUBSIDY_eq. change (1250000000 / 2) with 625000000.
    destruct (h <? 10000) eqn:?; [lia|]. destruct (h <? 653600) eqn:?, (h <? 1046400) eqn:?; try lia; done.
Qed.

Lemma half_era a n : 0 <= a -> 0 <= n -> 0 <= a / 2 ^ n /\ 2 * (a / 2 ^ (n + 1)) <= a / 2 ^ n.
Proof.
  intros Ha Hn. pose proof (Z.pow_pos_nonneg 2 n ltac:(lia) ltac:(lia)). split; [apply Z.div_pos; lia|].
  rewrite Z.pow_add_r, <- Z.div_div by lia. apply Z.mul_div_le. lia.
Qed.

Lemma remaining_supply_step h : 0 <= h ->
  0 <= remaining_supply h /\ subsidy_value Mainnet 653600 h + remaining_supply (h + 1) <= remaining_supply h.
Proof.
  intros Hh. rewrite mainnet_subsidy by done. unfold remaining_supply. change MAX_MONEY with 2100000000000000.
  destruct (decide (h < 1046399)) as [Hlt|Hge].
  { destruct (h <? 10000) eqn:?, (h + 1 <? 10000) eqn:?, (h <? 20000) eqn:?, (h + 1 <? 20000) eqn:?,
      (h <? 653600) eqn:?, (h + 1 <? 653600) eqn:?, (h <? 1046400) eqn:?, (h + 1 <? 1046400) eqn:?; try lia; nia. }
  destruct (h + 1 <? 10000) eqn:?; [lia|]. destruct (h + 1 <? 20000) eqn:?; [lia|].
  destruct (h + 1 <? 653600) eqn:?; [lia|]. destruct (h + 1 <? 1046400) eqn:?; [lia|].
  destruct (h <? 10000) eqn:?; [lia|]. destruct (h <? 20000) eqn:?; [lia|]. destruct (h <? 653600) eqn:?; [lia|].
  destruct (h <? 1046400) eqn:?.
  { assert (h = 1046399) as -> by lia. vm_compute. split; discriminate. }
  cbn zeta. set (n := (h + 633600) / 1680000).
  pose proof (Z.div_mod (h + 633600) 1680000 ltac:(lia)) as Hdm. fold n in Hdm.
  pose proof (Z.mod_pos_bound (h + 633600) 1680000 ltac:(lia)) as Hr. set (r := (h + 633600) mod 1680000) in *.
  assert (0 <= n) by (apply Z.div_pos; lia). destruct (half_era 625000000 n ltac:(lia) ltac:(lia)) as [Hp Hhalf].
  destruct (decide (r = 1679999)) as [Hlast|].
  - assert ((h + 1 + 633600) / 1680000 = n + 1) as ->
      by (symmetry; apply (Z.div_unique _ _ _ 0); lia).
    set (s := 625000000 / 2 ^ n) in *. set (s' := 625000000 / 2 ^ (n + 1)) in *. nia.
  - assert ((h + 1 + 633600) / 1680000 = n) as -> by (symmetry; apply (Z.div_unique _ _ _ (r + 1)); lia).
    set (s := 625000000 / 2 ^ n) in *. nia.
Qed.

(** ** The split of the subsidy *)

Definition numerators_ok (fs : FundingStreams) : Prop :=
  Forall (fun r => 0 <= numerator r) (map_to_list (recipients fs)).*2 /\
  sum_Z (numerator <$> (map_to_list (recipients fs)).*2) <= FUNDING_STREAM_RECEIVER_DENOMINATOR.

(** Slow-start subsidies are multiples of five, which [founders_reward] needs to be exact. *)
Definition slow_start_exact (net : Network) : Prop :=
  slow_start_interval net = 0 \/ (MAX_BLOCK_SUBSIDY / slow_start_interval net) mod 5 = 0.

Definition stream_share (a : Amount NonNegative) (r : FundingStreamRecipient) : Amount NonNegative :=
  mkAmount (zatoshis a * numerator r / FUNDING_STREAM_RECEIVER_DENOMINATOR).

Lemma stream_value_Ok (a : Amount NonNegative) num :
  0 <= zatoshis a <= MAX_BLOCK_SUBSIDY -> 0 <= num <= 100 ->
  (m ← mul a num; div m FUNDING_STREAM_RECEIVER_DENOMINATOR) = Ok (mkAmount (zatoshis a * num / 100)).
Proof.
  intros Ha Hnum. rewrite MAX_BLOCK_SUBSIDY_eq in Ha.
  assert (Hok : forall v, 0 <= v <= MAX_MONEY -> contains (valid_range NonNegative) v = true)
    by (intros v Hv; apply contains_spec; cbn; lia).
  assert (0 <= zatoshis a * num <= MAX_MONEY) as Hm by (unfold MAX_MONEY, COIN; nia).
  rewrite mul_spec; [|apply Hok; unfold MAX_MONEY, COIN; lia|apply fits_spec; cbn [ty_min ty_max U64]; lia].
  rewrite Hok by done. rewrite Ok_bind, div_spec by (try apply Hok; done). cbn [zatoshis].
  change FUNDING_STREAM_RECEIVER_DENOMINATOR with 100. rewrite Z.quot_div_nonneg by lia. done.
Qed.

Lemma stream_values_Ok (a : Amount NonNegative) l : forall acc,
  0 <= zatoshis a <= MAX_BLOCK_SUBSIDY -> Forall (fun r => 0 <= numerator r <= 100) l.*2 ->
  NoDup l.*1 -> (forall k, k ∈ l.*1 -> acc !! k = None) ->
  stream_values a l acc = Ok (acc ∪ (stream_share a <$> list_to_map l)).
Proof.
  induction l as [|[k r] l IH]; intros acc Ha Hnum Hnd Hacc; cbn [stream_values].
  { cbn. by rewrite fmap_empty, (right_id_L ∅ (∪)). }
  apply Forall_cons in Hnum as [Hr Hnum]. apply NoDup_cons in Hnd as [Hk Hnd].
  pose proof (stream_value_Ok a (numerator r) Ha Hr) as Hv. apply bind_Ok in Hv as (m & Hm & Hd).
  rewrite Hm, Ok_bind, Hd, Ok_bind. rewrite IH; [|done|done|done|].
  - cbn [list_to_map foldr prod_map]. cbn. rewrite fmap_insert.
    rewrite <- insert_union_l, insert_union_r by (apply Hacc; by left). done.
  - intros k' Hk'. rewrite lookup_insert_ne by (intros ->; done). apply Hacc. by right.
Qed.

Lemma sum_Z_div_le a l : 0 <= a -> Forall (fun n => 0 <= n) l ->
  0 <= sum_Z ((fun n => a * n / 100) <$> l) /\ 100 * sum_Z ((fun n => a * n / 100) <$> l) <= a * sum_Z l.
Proof.
  intros Ha. induction 1 as [|n l Hn _ [IH1 IH2]]; [cbn; lia|]. rewrite fmap_cons. cbn [sum_Z].
  pose proof (Z.mul_div_le (a * n) 100 ltac:(lia)). pose proof (Z.div_pos (a * n) 100 ltac:(nia) ltac:(lia)).
  lia.
Qed.

Lemma sum_Z_upper l x : Forall (fun n => 0 <= n) l -> x ∈ l -> x <= sum_Z l.
Proof.
  induction 1 as [|n l Hn Hl IH]; [by intros ?%elem_of_nil|]. cbn [sum_Z].
  pose proof (sum_Z_nonneg l Hl). intros [->|Hx]%elem_of_cons; [lia|]. specialize (IH Hx). lia.
Qed.

Lemma founders_reward_spec net b h : subsidy_ok net b -> slow_start_exact net -> 0 <= h <= MAX ->
  exists fr nu, founders_reward net h = Ok fr /\ current net h = Ok nu /\
    (zatoshis fr = 0 \/ nu_ltb nu Canopy = true /\ 5 * zatoshis fr = subsidy_value net b h) /\
    0 <= zatoshis fr <= subsidy_value net b h.
Proof.
  intros Hok Hexact Hh. pose proof (subsidy_value_bounds net b h Hok ltac:(lia)) as Hv.
  destruct (current_latest net h (so_activations _ _ Hok) ltac:(lia)) as (hc & nu & _ & Hc & _).
  unfold founders_reward. rewrite (halving_spec net b) by done. rewrite Ok_bind, Hc, Ok_bind.
  fold (halving_index net b h). rewrite zero_spec.
  destruct (halving_index net b h <? 1) eqn:Hn; [|exists (mkAmount 0), nu; cbn [zatoshis]; split_and!; [done|done|by left|lia|lia]].
  destruct (nu_ltb nu Canopy) eqn:Hnu; [|exists (mkAmount 0), nu; cbn [zatoshis]; split_and!; [done|done|by left|lia|lia]].
  rewrite (block_subsidy_spec net b) by done. cbn [expect_ok]. rewrite Ok_bind.
  assert (Hdiv : subsidy_value net b h mod 5 = 0).
  { unfold subsidy_value. destruct (64 <=? _) eqn:?; [done|]. pose proof (halving_index_nonneg net b h Hok).
    destruct (h <? slow_start_interval net) eqn:Hlt.
    - destruct Hexact as [Hz|Hz]; [lia|]. rewrite Z.mul_mod, Hz by lia. done.
    - assert (halving_index net b h = 0) as -> by lia. by destruct (h <? b). }
  apply Z.div_exact in Hdiv; [|lia]. unfold div_exact, checked_div. cbn [zatoshis].
  rewrite Z.quot_div_nonneg, Z.rem_mod_nonneg by lia. change (5 =? 0) with false. cbn match.
  pose proof (div_bounds (subsidy_value net b h) 5 ltac:(lia) ltac:(lia)). rewrite MAX_BLOCK_SUBSIDY_eq in Hv.
  rewrite try_from_fits by (apply fits_I64_diff; lia). cbn [expect]. rewrite Ok_bind.
  replace (subsidy_value net b h mod 5) with 0 by (symmetry; apply Z.div_exact; lia). cbn [Z.eqb negb].
  exists (mkAmount (subsidy_value net b h / 5)), nu. cbn [zatoshis]. split; [done|]. split; [done|].
  split; [right; split; [done|lia]|lia].
Qed.

Lemma funding_stream_values_spec `{Literals} net h nu (a : Amount NonNegative) :
  0 <= zatoshis a <= MAX_BLOCK_SUBSIDY -> Forall numerators_ok (all_funding_streams net) -> current net h = Ok nu ->
  exists values, funding_stream_values h net a = Ok values /\
    Forall (fun v => 0 <= zatoshis v <= MAX_MONEY) (map_to_list values).*2 /\
    0 <= sum_Z (zatoshis <$> (map_to_list values).*2) <= zatoshis a /\
    (nu_ltb nu Canopy = true -> values = ∅).
Proof.
  intros Ha Hfs Hc. unfold funding_stream_values.
  assert (Hempty : forall P : Prop, exists values : gmap FundingStreamReceiver (Amount NonNegative),
    Ok (E:=Error) ∅ = Ok values /\ Forall (fun v => 0 <= zatoshis v <= MAX_MONEY) (map_to_list values).*2 /\
    0 <= sum_Z (zatoshis <$> (map_to_list values).*2) <= zatoshis a /\ (P -> values = ∅)).
  { intros P. exists ∅. rewrite map_to_list_empty. split_and!; [done|constructor|cbn; lia..|done]. }
  destruct (is_zero a); [apply Hempty|]. rewrite Hc. cbn [lift]. rewrite Ok_bind.
  destruct (nu_leb Canopy nu) eqn:Hnu; [|apply Hempty].
  unfold funding_streams. destruct (List.find _ _) as [fs|] eqn:Hfind; [|apply Hempty].
  apply List.find_some in Hfind as [Hin%list_elem_of_In _]. rewrite Forall_forall in Hfs.
  destruct (Hfs fs Hin) as [Hpos Hsum]. change FUNDING_STREAM_RECEIVER_DENOMINATOR with 100 in Hsum.
  assert (Hpos' : Forall (fun n => 0 <= n) (numerator <$> (map_to_list (recipients fs)).*2))
    by (by apply Forall_fmap).
  rewrite stream_values_Ok; [|done| |apply NoDup_fst_map_to_list|intros; apply lookup_empty].
  2: { rewrite Forall_forall in Hpos |- *. intros r Hr. split; [by apply Hpos|].
       transitivity (sum_Z (numerator <$> (map_to_list (recipients fs)).*2)); [|done].
       apply sum_Z_upper; [done|]. by apply list_elem_of_fmap_2. }
  rewrite (left_id_L ∅ (∪)), list_to_map_to_list. eexists. split; [done|].
  assert ((map_to_list (stream_share a <$> recipients fs)).*2 = stream_share a <$> (map_to_list (recipients fs)).*2) as ->.
  { rewrite map_to_list_fmap, <- !list_fmap_compose. apply list_fmap_ext. by intros ? []. }
  pose proof (sum_Z_div_le (zatoshis a) _ ltac:(lia) Hpos') as [Hs1 Hs2].
  assert (sum_Z (zatoshis <$> (stream_share a <$> (map_to_list (recipients fs)).*2)) =
    sum_Z ((fun n => zatoshis a * n / 100) <$> (numerator <$> (map_to_list (recipients fs)).*2))) as ->
    by (f_equal; rewrite <- !list_fmap_compose; done).
  split; [|split; [nia|]].
  - apply Forall_fmap. rewrite Forall_forall in Hpos |- *. intros r Hr. cbn.
    change FUNDING_STREAM_RECEIVER_DENOMINATOR with 100.
    assert (numerator r <= 100).
    { transitivity (sum_Z (numerator <$> (map_to_list (recipients fs)).*2)); [|done].
      apply sum_Z_upper; [done|]. by apply list_elem_of_fmap_2. }
    specialize (Hpos r Hr). rewrite MAX_BLOCK_SUBSIDY_eq in Ha.
    pose proof (Z.div_pos (zatoshis a * numerator r) 100 ltac:(nia) ltac:(lia)).
    pose proof (Z.mul_div_le (zatoshis a * numerator r) 100 ltac:(lia)). unfold MAX_MONEY, COIN. nia.
  - intros Hlt. unfold nu_ltb, nu_leb in *. lia.
Qed.

(** The total that blocks [0 .. n-1] of Mainnet issue. *)
Fixpoint issued (n : nat) : Res SubsidyError Z :=
  match n with
  | O => Ok 0
  | S k => total ← issued k; subsidy ← block_subsidy (Z.of_nat k) Mainnet; Ok (total + zatoshis subsidy)
  end.

(** ** Properties *)

(** the block subsidies of Mainnet never add up to more than [MAX_MONEY],
    the 21 million ZEC limit: whatever number of blocks the chain has, every
    subsidy is defined and their sum stays within the limit. *)
Theorem mainnet_supply_limit (n : nat) (Hn : Z.of_nat n <= MAX + 1) :
  exists total, issued n = Ok total /\ 0 <= total <= MAX_MONEY.
Proof.
  assert (exists total, issued n = Ok total /\ 0 <= total <= MAX_MONEY - remaining_supply (Z.of_nat n)) as (t & Ht & Hb).
  { induction n as [|k IH]; [by exists 0|]. destruct IH as (t & Ht & Hb); [lia|].
    pose proof (remaining_supply_step (Z.of_nat k) ltac:(lia)) as [_ Hstep].
    pose proof (subsidy_value_bounds _ _ (Z.of_nat k) mainnet_subsidy_ok ltac:(lia)) as Hv.
    cbn [issued]. rewrite Ht, Ok_bind, (block_subsidy_spec _ _ _ mainnet_subsidy_ok) by lia. rewrite Ok_bind.
    eexists. split; [done|]. cbn [zatoshis]. replace (Z.of_nat (S k)) with (Z.of_nat k + 1) by lia. lia. }
  exists t. split; [done|]. pose proof (remaining_supply_step (Z.of_nat n) ltac:(lia)) as [Hr _]. lia.
Qed.

Lemma mainnet_supply_limit_witness : exists total, issued 3 = Ok total /\ 0 <= total <= MAX_MONEY.
Proof. apply (mainnet_supply_limit 3). rewrite MAX_eq. cbn. lia. Defined.

(** on a well-formed network every height has a block subsidy; it is at
    most 12.5 ZEC, and from the end of the slow start it is
    [floor(MaxBlockSubsidy / (BlossomRatio * 2^Halving(height)))] and never increases again. *)
Theorem block_subsidy_total (net : Network) (blossom height : Z)
  (Hok : subsidy_ok net blossom) (Hh : 0 <= height <= MAX) :
  exists a n, block_subsidy height net = Ok a /\ halving height net = Ok n /\
    0 <= zatoshis a <= MAX_BLOCK_SUBSIDY /\
    (slow_start_interval net <= height ->
       zatoshis a = (if height <? blossom then MAX_BLOCK_SUBSIDY else MAX_BLOCK_SUBSIDY / 2) / 2 ^ n /\
       forall height' a', height <= height' <= MAX -> block_subsidy height' net = Ok a' -> zatoshis a' <= zatoshis a).
Proof.
  exists (mkAmount (subsidy_value net blossom height)), (halving_index net blossom height).
  split; [by apply block_subsidy_spec|]. split; [by apply halving_spec|].
  split; [apply subsidy_value_bounds; [done|lia]|]. intros Hs. cbn [zatoshis].
  split; [by apply subsidy_value_after|]. intros h' a' Hh' Ha'. rewrite (block_subsidy_spec net blossom) in Ha' by (done || lia).
  injection Ha' as <-. cbn [zatoshis]. rewrite !subsidy_value_after by (done || lia).
  apply div_pow2_antitone.
  - rewrite MAX_BLOCK_SUBSIDY_eq. change (1250000000 / 2) with 625000000.
    destruct (h' <? blossom) eqn:?, (height <? blossom) eqn:?; lia.
  - split; [by apply halving_index_nonneg|]. apply halving_index_mono; [done|lia].
Qed.

Lemma block_subsidy_total_witness :
  exists a n, block_subsidy 1046400 Mainnet = Ok a /\ halving 1046400 Mainnet = Ok n /\ 0 <= zatoshis a <= MAX_BLOCK_SUBSIDY.
Proof.
  destruct (block_subsidy_total Mainnet 653600 1046400) as (a & n & Ha & Hn & Hb & _);
    [exact mainnet_subsidy_ok|rewrite MAX_eq; lia|].
  exists a, n. split; [exact Ha|]. split; [exact Hn|exact Hb].
Defined.

(** [height_for_halving] returns the first height of a halving: from the
    returned height on [halving] gives the index, and one block earlier it
    gives the previous one, for every halving that is not before the Blossom activation in
    unscaled blocks. *)
Theorem height_for_halving_first (net : Network) (blossom n : Z)
  (Hok : subsidy_ok net blossom) (Hn : 0 < n <= MAX)
  (Hlate : blossom <= n * pre_blossom_halving_interval net)
  (Hmax : blossom + 2 * slow_start_shift net + 2 * (n * pre_blossom_halving_interval net - blossom) <= MAX) :
  exists height, height_for_halving n net = Some height /\
    halving height net = Ok n /\ halving (height - 1) net = Ok (n - 1).
Proof.
  pose proof Hok as [_ Hb Hs Hi Hbm Hp _]. unfold height_for_halving.
  destruct (n =? 0) eqn:?; [lia|]. rewrite Hb. cbn [mbind option_bind].
  set (s := slow_start_shift net) in *. set (p := pre_blossom_halving_interval net) in *.
  set (H := blossom + 2 * s + 2 * (n * p - blossom)) in *. rewrite MAX_eq in *.
  unfold checked_mul, checked_add. change BLOSSOM_POW_TARGET_SPACING_RATIO with 2.
  rewrite (try_from_fits I64 (n * p)) by (apply fits_I64_diff; lia). cbn [mbind option_bind].
  rewrite (wrap_fits I64) by (apply fits_I64_diff; lia). rewrite Z.min_r, Z.max_r by lia.
  do 4 (rewrite try_from_fits by (apply fits_I64_diff; lia); cbn [mbind option_bind]).
  rewrite try_from_fits by (apply fits_spec; cbn [ty_min ty_max U32]; lia). cbn [mbind option_bind].
  exists H. unfold try_from_u32. rewrite MAX_eq. destruct (_ <=? _) eqn:?; [|lia]. split; [f_equal; lia|].
  rewrite !(halving_spec net blossom) by (done || (rewrite MAX_eq; lia)). fold s p. unfold scaled_height.
  destruct (H <? s) eqn:?; [lia|]. destruct (H <? blossom) eqn:?; [lia|]. split.
  - f_equal. symmetry. apply (Z.div_unique _ _ _ 0); lia.
  - f_equal. symmetry. destruct (H - 1 <? s) eqn:?; [apply (Z.div_unique _ _ _ (2 * p * (1 - n)))|]; [nia|nia|].
    destruct (H - 1 <? blossom) eqn:?; [apply (Z.div_unique _ _ _ (2 * p - 2))|apply (Z.div_unique _ _ _ (2 * p - 1))]; lia.
Qed.

Lemma height_for_halving_first_witness :
  exists height, height_for_halving 1 Mainnet = Some height /\
    halving height Mainnet = Ok 1 /\ halving (height - 1) Mainnet = Ok (1 - 1).
Proof.
  apply (height_for_halving_first Mainnet 653600 1); [exact mainnet_subsidy_ok| | |]; vm_compute;
    repeat split; discriminate.
Defined.

Lemma nonneg_amount_ok (a : Amount NonNegative) : 0 <= zatoshis a <= MAX_MONEY -> amount_ok a = true.
Proof. intros. by apply contains_spec. Qed.

Lemma sub_nonneg (a c : Amount NonNegative) : 0 <= zatoshis c <= zatoshis a -> zatoshis a <= MAX_MONEY ->
  sub a c = Ok (mkAmount (zatoshis a - zatoshis c)).
Proof.
  intros Hc Ha. rewrite sub_spec, try_from_i64_spec by (apply nonneg_amount_ok; lia).
  destruct (contains _ _) eqn:E; [done|]. apply not_true_iff_false in E. rewrite contains_spec in E. cbn in E. lia.
Qed.

Lemma sum_Ok_nonneg (l : list (Amount NonNegative)) :
  Forall (fun v => 0 <= zatoshis v <= MAX_MONEY) l -> sum_Z (zatoshis <$> l) <= MAX_MONEY ->
  sum l = Ok (mkAmount (sum_Z (zatoshis <$> l))).
Proof.
  intros Hl Hs. assert (Hl' : Forall (fun a => amount_ok a = true) l)
    by (eapply Forall_impl; [exact Hl|intros; by apply nonneg_amount_ok]).
  pose proof (is_ok_sum_non_negative l Hl') as Hok. rewrite bool_decide_true in Hok by done.
  pose proof (sum_cases l Hl') as Hc. destruct (sum l) as [s| |]; [|done..].
  destruct Hc as (Hc & _). f_equal. by apply amount_eq.
Qed.

(** C34: the block subsidy is split exactly: on a well-formed network whose
    funding streams keep within their denominator, the founders reward, the
    funding streams and the miner subsidy are all defined, non-negative, and add up to the block subsidy. *)
Theorem subsidy_split `{Literals} (net : Network) (blossom height : Z)
  (Hok : subsidy_ok net blossom) (Hexact : slow_start_exact net)
  (Hstreams : Forall numerators_ok (all_funding_streams net)) (Hh : 0 <= height <= MAX) :
  exists subsidy founders values miner,
    block_subsidy height net = Ok subsidy /\ founders_reward net height = Ok founders /\
    funding_stream_values height net subsidy = Ok values /\ miner_subsidy height net subsidy = Ok miner /\
    0 <= zatoshis founders /\ 0 <= zatoshis miner /\ Forall (fun v => 0 <= zatoshis v) (map_to_list values).*2 /\
    zatoshis miner + zatoshis founders + sum_Z (zatoshis <$> (map_to_list values).*2) = zatoshis subsidy.
Proof.
  pose proof (subsidy_value_bounds net blossom height Hok ltac:(lia)) as Hv.
  destruct (founders_reward_spec net blossom height Hok Hexact Hh) as (fr & nu & Hfr & Hc & Hcase & Hfb).
  set (a := mkAmount (C:=NonNegative) (subsidy_value net blossom height)).
  destruct (funding_stream_values_spec net height nu a Hv Hstreams Hc) as (values & Hvals & Hpos & Hsum & Hempty).
  assert (Hle : zatoshis fr + sum_Z (zatoshis <$> (map_to_list values).*2) <= zatoshis a).
  { destruct Hcase as [Hz|[Hlt _]]; [lia|]. rewrite (Hempty Hlt), map_to_list_empty in *. cbn in *. lia. }
  rewrite MAX_BLOCK_SUBSIDY_eq in Hv. assert (zatoshis a <= MAX_MONEY) by (unfold MAX_MONEY, COIN; cbn; lia).
  exists a, fr, values. eexists. split; [by apply block_subsidy_spec|]. split; [done|]. split; [done|].
  unfold miner_subsidy. rewrite Hfr. cbn [lift]. rewrite Ok_bind, Hvals, Ok_bind, sum_Ok_nonneg by (done || lia).
  rewrite Ok_bind. unfold result_sub. rewrite sub_nonneg, Ok_bind by lia.
  rewrite sub_nonneg by (cbn [zatoshis]; lia). split; [done|]. cbn [zatoshis].
  split; [lia|]. split; [lia|]. split; [|lia].
  eapply Forall_impl; [exact Hpos|]. intros v Hvv. exact (proj1 Hvv).
Qed.

Lemma mainnet_numerators_ok `{Literals} : Forall numerators_ok (all_funding_streams Mainnet).
Proof.
  repeat constructor; vm_compute; (repeat constructor; discriminate) || discriminate.
Qed.

Lemma subsidy_split_witness :
  exists subsidy founders values miner,
    block_subsidy 1046400 Mainnet = Ok subsidy /\ founders_reward Mainnet 1046400 = Ok founders /\
    @funding_stream_values sample_literals 1046400 Mainnet subsidy = Ok values /\
    @miner_subsidy sample_literals 1046400 Mainnet subsidy = Ok miner.
Proof.
  destruct (@subsidy_split sample_literals Mainnet 653600 1046400)
    as (s & f & v & m & H1 & H2 & H3 & H4 & _);
    [exact mainnet_subsidy_ok|right; reflexivity|exact (@mainnet_numerators_ok sample_literals)|rewrite MAX_eq; lia|].
  exists s, f, v, m. split; [exact H1|]. split; [exact H2|]. split; [exact H3|exact H4].
Defined.

(** ** Custom networks

    Two consequences of the code on networks that the builder accepts. *)

(** A builder call that may fail, on the default builder. *)
Definition custom_network `{Literals} (f : ParametersBuilder -> Res ParametersBuilderError ParametersBuilder) : option Network :=
  match f default_builder with Ok b => Some (Testnet (finish b)) | _ => None end.

(** with a halving interval of 100,000 blocks the first halving comes before
    Blossom: [halving] changes at height 110,000, but [height_for_halving] adds
    the slow-start shift twice and returns 120,000. *)
Theorem height_for_halving_before_blossom `{Literals} :
  match custom_network (fun b => with_halving_interval b 100000) with
  | Some net => height_for_halving 1 net = Some 120000 /\
      halving 110000 net = Ok 1 /\ halving 109999 net = Ok 0
  | None => False
  end.
Proof. vm_compute. split; [|split]; reflexivity. Qed.

(** with a slow-start interval of three blocks the subsidy of height 1 is not a
    multiple of five, and [founders_reward] panics in [div_exact]. *)
Theorem founders_reward_inexact `{Literals} :
  match custom_network (fun b => Ok (with_slow_start_interval b 3)) with
  | Some net => block_subsidy 1 net = Ok (mkAmount 833333332) /\ founders_reward net 1 = Panic
  | None => False
  end.
Proof. vm_compute. split; reflexivity. Qed.

(** ** Addresses of the Mainnet funding streams *)

Lemma mainnet_address_period `{Literals} h : 1046400 <= h <= MAX ->
  funding_stream_address_period h Mainnet = Ok ((h + 633600) / 35000).
Proof.
  intros Hh. unfold funding_stream_address_period.
  change (height_for_first_halving Mainnet) with (Ok (E:=Empty_set) 1046400). rewrite Ok_bind.
  change (post_blossom_halving_interval Mainnet) with 1680000.
  change (funding_stream_address_change_interval Mainnet) with 35000. rewrite MAX_eq in Hh.
  rewrite sub_height_exact by (rewrite MAX_eq; lia). rewrite wrap_fits by (apply fits_I64_diff; lia).
  rewrite i64_div_pos by lia. rewrite Ok_bind.
  replace (h - 1046400 + 1680000) with (h + 633600) by lia.
  pose proof (div_bounds (h + 633600) 35000 ltac:(lia) ltac:(lia)).
  rewrite try_from_fits; [done|]. apply fits_spec. cbn [ty_min ty_max U32]. lia.
Qed.

(** The streams of Mainnet with their ranges and the number of addresses of their recipients. *)
Lemma mainnet_stream_cases `{LiteralLengths} h fs r rec :
  funding_streams Mainnet h = Some fs -> recipients fs !! r = Some rec -> r <> Deferred ->
  exists lo hi n, height_range fs = (lo, hi) /\ lo <= h < hi /\ length (addresses rec) = n /\
    ((lo, hi, n) = (1046400, 2726400, 48%nat) \/ (lo, hi, n) = (2726400, 3146400, 12%nat) \/
     (lo, hi, n) = (3146400, 4406400, 36%nat)).
Proof.
  intros Hfs Hrec Hdef. unfold funding_streams in Hfs. apply List.find_some in Hfs as [Hin Hr].
  unfold range_contains in Hr. apply andb_prop in Hr as [Hlo%Z.leb_le Hhi%Z.ltb_lt].
  assert (Hone : forall (l : list (FundingStreamReceiver * FundingStreamRecipient)) n,
    Forall (fun p => p.1 = Deferred \/ length (addresses p.2) = n) l ->
    stream_recipients l !! r = Some rec -> length (addresses rec) = n).
  { intros l n Hl Hlook. apply elem_of_list_to_map_2 in Hlook. rewrite Forall_forall in Hl.
    destruct (Hl _ Hlook); [done|done]. }
  destruct Hin as [<-|[<-|[<-|[]]]]; cbn [height_range fst snd recipients] in *;
    [exists 1046400, 2726400, 48%nat|exists 2726400, 3146400, 12%nat|exists 3146400, 4406400, 36%nat];
    (split; [done|]; split; [done|]; split; [eapply Hone; [|exact Hrec]|auto]);
    repeat (apply List.Forall_cons || apply List.Forall_nil); cbn [fst snd addresses];
    (left; done) || (right; destruct H0; assumption).
Qed.

(** on Mainnet every active funding stream other than the deferred pool has
    an address for every height: the address index never trips its range
    assertion, and the address is one of the recipient's. *)
Theorem mainnet_stream_address `{LiteralLengths} (height : Height) (fs : FundingStreams)
  (receiver : FundingStreamReceiver) (recipient : FundingStreamRecipient)
  (Hfs : funding_streams Mainnet height = Some fs) (Hrec : recipients fs !! receiver = Some recipient)
  (Hdef : receiver <> Deferred) :
  exists a, funding_stream_address height Mainnet receiver = Ok (Some a) /\ a ∈ addresses recipient.
Proof.
  destruct (mainnet_stream_cases height fs receiver recipient Hfs Hrec Hdef) as (lo & hi & n & Hrange & Hin & Hlen & Hcase).
  assert (Hidx : exists i, funding_stream_address_index height Mainnet receiver = Ok (Some i) /\ (i < n)%nat).
  { unfold funding_stream_address_index. rewrite bool_decide_false by done. rewrite Hfs, Hrec, Hrange. cbn [fst].
    assert (1046400 <= lo /\ height <= MAX) by (rewrite MAX_eq; destruct Hcase as [Hc|[Hc|Hc]]; injection Hc as -> -> ->; lia).
    rewrite !mainnet_address_period by lia. rewrite Ok_bind.
    pose proof (div_bounds (height + 633600) 35000 ltac:(lia) ltac:(lia)). rewrite MAX_eq in *.
    unfold checked_add, Prelude.checked_sub. rewrite try_from_fits by (apply fits_spec; cbn [ty_min ty_max U32]; lia).
    rewrite Ok_bind. set (q := (height + 633600) / 35000) in *.
    assert (Hq : 35000 * q <= height + 633600 < 35000 * q + 35000)
      by (pose proof (Z.div_mod (height + 633600) 35000); pose proof (Z.mod_pos_bound (height + 633600) 35000); lia).
    clearbody q. destruct Hcase as [Hc|[Hc|Hc]]; injection Hc as -> -> ->; rewrite Hlen;
      match goal with |- context [(?l + 633600) / 35000] =>
        let v := eval vm_compute in ((l + 633600) / 35000) in change ((l + 633600) / 35000) with v end;
      match goal with |- context [Z.of_nat ?n] =>
        let v := eval vm_compute in (Z.of_nat n) in change (Z.of_nat n) with v end;
      (rewrite try_from_fits by (apply fits_spec; cbn [ty_min ty_max U32]; lia));
      (destruct (_ && _) eqn:Hb; [|exfalso; lia]); cbn [assert]; rewrite ?Ok_bind; eexists; (split; [done|lia]). }
  destruct Hidx as (i & Hi & Hlt). unfold funding_stream_address. rewrite Hi, Ok_bind, Hfs. cbn [mbind option_bind].
  rewrite Hrec. cbn [mbind option_bind]. destruct (lookup_lt_is_Some_2 (addresses recipient) i) as [a Ha]; [lia|].
  exists a. rewrite Ha. split; [done|]. by eapply list_elem_of_lookup_2.
Qed.

Lemma mainnet_stream_address_witness :
  exists a, @funding_stream_address sample_literals 3000000 Mainnet MajorGrants = Ok (Some a).
Proof.
  destruct (@mainnet_stream_address sample_literals sample_lengths 3000000
    (mkStreams (2726400, 3146400) (stream_recipients [(Deferred, mkRecipient 12 []);
       (MajorGrants, mkRecipient 8 (replicate 12 sample_address))]))
    MajorGrants (mkRecipient 8 (replicate 12 sample_address))) as (a & Ha & _);
    [reflexivity|reflexivity|discriminate|].
  exists a. exact Ha.
Defined.
