(* ===== verification/Transaction.v ===== *)
(** * Transactions and blocks

    [zebra-chain/src/transaction.rs], [transaction/lock_time.rs],
    [transaction/joinsplit.rs], [transparent.rs], [transparent/utxo.rs],
    [sprout/joinsplit.rs], [sapling/shielded_data.rs],
    [orchard/shielded_data.rs] and [block.rs]: the data of transactions and
    blocks, their accessors, and the value balances they contribute to the
    chain value pools.

    Hashes, nullifiers, commitments, anchors, keys, proofs, signatures,
    ciphertexts and scripts are byte strings: points and field elements are
    their canonical encodings. The unstable [V6] transaction, which
    is behind a compile-time feature, is not modelled. [chrono] times are
    seconds since the Unix epoch. *)

From S2P Require Import Prelude Height Difficulty Amount ValueBalance Network.

(** ** Lock times *)

Inductive LockTime :=
| LockHeight (height : Height)
| LockTimestamp (time : Z).

#[export] Instance LockTime_eq_dec : EqDecision LockTime.
Proof. solve_decision. Defined.

Definition MIN_TIMESTAMP : Z := 500000000.
Definition MAX_TIMESTAMP : Z := 2 ^ 32 - 1.
Definition MAX_LOCK_HEIGHT : Height := wrap U32 (MIN_TIMESTAMP - 1).

Definition unlocked : LockTime := LockHeight 0.
Definition min_lock_time_timestamp : LockTime := LockTimestamp MIN_TIMESTAMP.
Definition max_lock_time_timestamp : LockTime := LockTimestamp MAX_TIMESTAMP.
Definition is_time (self : LockTime) : bool :=
  match self with LockTimestamp _ => true | LockHeight _ => false end.

(** [LockTime::zcash_serialize]: a time outside of [u32] panics. *)
Definition lock_time_serialize (self : LockTime) : Run (list Z) :=
  match self with
  | LockHeight n => Ok (le_bytes 4 n)
  | LockTimestamp t => n ← expect (try_from U32 t); Ok (le_bytes 4 n)
  end.

(** [LockTime::zcash_deserialize], after [read_u32]. *)
Definition lock_time_of_u32 (n : Z) : LockTime :=
  if n <? MIN_TIMESTAMP then LockHeight n else LockTimestamp n.

(** ** Transparent inputs and outputs *)

(** [transaction::Hash], [block::Hash] and the like are 32 bytes. *)
Definition Hash : Type := list Z.
Definition Script : Type := list Z.

#[export] Instance Hash_eq_dec : EqDecision Hash := list_eq_dec.
#[export] Instance Hash_countable : Countable Hash := list_countable.

Record OutPoint := mkOutPoint { outpoint_hash : Hash; outpoint_index : Z }.

#[export] Instance OutPoint_eq_dec : EqDecision OutPoint.
Proof. solve_decision. Defined.
#[export] Instance OutPoint_countable : Countable OutPoint.
Proof.
  refine (inj_countable' (fun o => (outpoint_hash o, outpoint_index o))
                         (fun p => mkOutPoint p.1 p.2) _).
  by intros [].
Defined.

(** [OutPoint::from_usize]. *)
Definition outpoint_from_usize {E} (hash : Hash) (index : Z) : Res E OutPoint :=
  index ← expect (try_from U32 index); Ok (mkOutPoint hash index).

Inductive Input :=
| PrevOut (outpoint : OutPoint) (unlock_script : Script) (sequence : Z)
| Coinbase (height : Height) (data : list Z) (sequence : Z).

#[export] Instance Input_eq_dec : EqDecision Input.
Proof. solve_decision. Defined.

Record Output := mkOutput { value : Amount NonNegative; lock_script : Script }.

#[export] Instance Output_eq_dec : EqDecision Output.
Proof. solve_decision. Defined.

Record Utxo := mkUtxo { output : Output; utxo_height : Height; from_coinbase : bool }.

#[export] Instance Utxo_eq_dec : EqDecision Utxo.
Proof. solve_decision. Defined.

Record OrderedUtxo := mkOrderedUtxo { utxo : Utxo; tx_index_in_block : Z }.

#[export] Instance OrderedUtxo_eq_dec : EqDecision OrderedUtxo.
Proof. solve_decision. Defined.

(** [Utxo::from_location] and [OrderedUtxo::new]. *)
Definition utxo_from_location (output : Output) (height : Height) (tx_index_in_block : Z) : Utxo :=
  mkUtxo output height (tx_index_in_block =? 0).
Definition ordered_utxo_new (output : Output) (height : Height) (tx_index_in_block : Z) : OrderedUtxo :=
  mkOrderedUtxo (mkUtxo output height (tx_index_in_block =? 0)) tx_index_in_block.

Definition extra_coinbase_data (self : Input) : option (list Z) :=
  match self with PrevOut _ _ _ => None | Coinbase _ data _ => Some data end.
Definition input_sequence (self : Input) : Z :=
  match self with PrevOut _ _ sequence | Coinbase _ _ sequence => sequence end.
Definition outpoint (self : Input) : option OutPoint :=
  match self with PrevOut outpoint _ _ => Some outpoint | Coinbase _ _ _ => None end.

(** [Input::value_from_outputs]: a missing output panics. *)
Definition value_from_outputs {E} (self : Input) (outputs : gmap OutPoint Output) :
    Res E (Amount NonNegative) :=
  match self with
  | PrevOut outpoint _ _ => output ← expect (outputs !! outpoint); Ok (value output)
  | Coinbase _ _ _ => Amount.zero
  end.

(** [Input::value] and [Input::value_from_ordered_utxos]. *)
Definition input_value {E} (self : Input) (utxos : gmap OutPoint Utxo) : Res E (Amount NonNegative) :=
  match outpoint self with
  | Some outpoint =>
      utxo ← expect (utxos !! outpoint);
      value_from_outputs self {[outpoint := output utxo]}
  | None => value_from_outputs self ∅
  end.
Definition value_from_ordered_utxos {E} (self : Input) (ordered_utxos : gmap OutPoint OrderedUtxo) :
    Res E (Amount NonNegative) :=
  match outpoint self with
  | Some outpoint =>
      ordered_utxo ← expect (ordered_utxos !! outpoint);
      value_from_outputs self {[outpoint := output (utxo ordered_utxo)]}
  | None => value_from_outputs self ∅
  end.

(** The maps are collected from an iterator over a map, so the keys are kept. *)
Definition utxos_from_ordered_utxos (ordered_utxos : gmap OutPoint OrderedUtxo) : gmap OutPoint Utxo :=
  utxo <$> ordered_utxos.
Definition outputs_from_utxos (utxos : gmap OutPoint Utxo) : gmap OutPoint Output :=
  output <$> utxos.

(** ** Shielded data *)

(** [sprout::JoinSplit]: the arrays have two elements. *)
Record JoinSplit := mkJoinSplit {
  vpub_old : Amount NonNegative;
  vpub_new : Amount NonNegative;
  joinsplit_anchor : Hash;
  joinsplit_nullifiers : list Hash;
  joinsplit_commitments : list Hash;
  joinsplit_ephemeral_key : list Z;
  random_seed : list Z;
  vmacs : list Hash;
  joinsplit_zkproof : list Z;
  joinsplit_enc_ciphertexts : list (list Z);
}.

(** [JoinSplit::value_balance]. *)
Definition joinsplit_value_balance {E} (self : JoinSplit) : Res E (Amount NegativeAllowed) :=
  vpub_new ← expect_ok (Amount.constrain NegativeAllowed (vpub_new self));
  vpub_old ← expect_ok (Amount.constrain NegativeAllowed (vpub_old self));
  expect_ok (Amount.sub vpub_new vpub_old).

Record JoinSplitData := mkJoinSplitData {
  first : JoinSplit;
  rest : list JoinSplit;
  pub_key : list Z;
  sig : list Z;
}.

Definition joinsplits (self : JoinSplitData) : list JoinSplit := first self :: rest self.
Definition joinsplit_data_nullifiers (self : JoinSplitData) : list Hash :=
  joinsplits self ≫= joinsplit_nullifiers.
Definition joinsplit_data_note_commitments (self : JoinSplitData) : list Hash :=
  joinsplits self ≫= joinsplit_commitments.

(** The iterator maps a function that may panic: its items are outcomes. *)
Fixpoint collect {E A} (l : list (Res E A)) : Res E (list A) :=
  match l with
  | [] => Ok []
  | r :: l => a ← r; l ← collect l; Ok (a :: l)
  end.

Definition joinsplit_value_balances {E} (self : JoinSplitData) : Res E (list (Amount NegativeAllowed)) :=
  collect (joinsplit_value_balance <$> joinsplits self).
Definition joinsplit_data_value_balance (self : JoinSplitData) : Res Amount.Error (Amount NegativeAllowed) :=
  balances ← joinsplit_value_balances self; Amount.sum balances.

(** [sapling::Spend<AnchorV>] and [sapling::ShieldedData<AnchorV>], for the
    associated types [Shared] and [PerSpend] of [AnchorV]. *)
Record Spend (PerSpend : Type) := mkSpend {
  spend_cv : list Z;
  per_spend_anchor : PerSpend;
  spend_nullifier : Hash;
  spend_rk : list Z;
  spend_zkproof : list Z;
  spend_auth_sig : list Z;
}.
Arguments mkSpend {PerSpend}.
Arguments spend_cv {PerSpend}.
Arguments per_spend_anchor {PerSpend}.
Arguments spend_nullifier {PerSpend}.
Arguments spend_rk {PerSpend}.
Arguments spend_zkproof {PerSpend}.
Arguments spend_auth_sig {PerSpend}.

(** [sapling::Output]. *)
Record SaplingOutput := mkSaplingOutput {
  output_cv : list Z;
  cm_u : Hash;
  output_ephemeral_key : list Z;
  output_enc_ciphertext : list Z;
  output_out_ciphertext : list Z;
  output_zkproof : list Z;
}.

Inductive TransferData (Shared PerSpend : Type) :=
| SpendsAndMaybeOutputs (shared_anchor : Shared) (spends : list (Spend PerSpend))
    (maybe_outputs : list SaplingOutput)
| JustOutputs (outputs : list SaplingOutput).
Arguments SpendsAndMaybeOutputs {Shared PerSpend}.
Arguments JustOutputs {Shared PerSpend}.

Record SaplingShieldedData (Shared PerSpend : Type) := mkSapling {
  sapling_value : Amount NegativeAllowed;
  transfers : TransferData Shared PerSpend;
  sapling_binding_sig : list Z;
}.
Arguments mkSapling {Shared PerSpend}.
Arguments sapling_value {Shared PerSpend}.
Arguments transfers {Shared PerSpend}.
Arguments sapling_binding_sig {Shared PerSpend}.

(** [From<(Spend<AnchorV>, AnchorV::Shared)> for Spend<PerSpendAnchor>]. *)
Class AnchorVariant (Shared PerSpend : Type) := {
  to_per_spend : Spend PerSpend -> Shared -> Spend Hash;
}.
Inductive FieldNotPresent : Set := mkFieldNotPresent.
#[export] Instance PerSpendAnchor : AnchorVariant FieldNotPresent Hash := {
  to_per_spend spend _ := spend;
}.
#[export] Instance SharedAnchor : AnchorVariant Hash FieldNotPresent := {
  to_per_spend spend anchor :=
    mkSpend (spend_cv spend) anchor (spend_nullifier spend) (spend_rk spend) (spend_zkproof spend)
      (spend_auth_sig spend);
}.

Section Sapling.
Context {Shared PerSpend : Type}.
Implicit Types self : SaplingShieldedData Shared PerSpend.

Definition spends self : list (Spend PerSpend) :=
  match transfers self with SpendsAndMaybeOutputs _ spends _ => spends | JustOutputs _ => [] end.
Definition sapling_data_outputs self : list SaplingOutput :=
  match transfers self with SpendsAndMaybeOutputs _ _ outputs | JustOutputs outputs => outputs end.
Definition shared_anchor self : option Shared :=
  match transfers self with SpendsAndMaybeOutputs anchor _ _ => Some anchor | JustOutputs _ => None end.
Definition sapling_data_nullifiers self : list Hash := spend_nullifier <$> spends self.
Definition sapling_data_note_commitments self : list Hash := cm_u <$> sapling_data_outputs self.

(** [TransferData::spends_per_anchor]: the shared anchor is only asked for
    when there is a spend. *)
Definition spends_per_anchor `{!AnchorVariant Shared PerSpend} {E} self : Res E (list (Spend Hash)) :=
  collect ((fun spend => anchor ← expect (shared_anchor self); Ok (to_per_spend spend anchor))
           <$> spends self).
End Sapling.

(** [itertools::unique_by]: the first of each group of equal items. *)
Fixpoint unique {A} `{EqDecision A} (l : list A) : list A :=
  match l with
  | [] => []
  | a :: l => a :: filter (.≠ a) (unique l)
  end.

(** [sapling::ShieldedData::anchors]. *)
Definition sapling_data_anchors {Shared PerSpend} `{!AnchorVariant Shared PerSpend} {E}
    (self : SaplingShieldedData Shared PerSpend) : Res E (list Hash) :=
  spends ← spends_per_anchor self; Ok (unique (per_spend_anchor <$> spends)).

(** [orchard::Flags], [orchard::Action] and [orchard::ShieldedData]. *)
Definition ENABLE_SPENDS : Z := 1.
Definition ENABLE_OUTPUTS : Z := 2.
(** [Flags::contains] and [Flags::intersects]. *)
Definition flags_contains (self other : Z) : bool := Z.land self other =? other.
Definition flags_intersects (self other : Z) : bool := negb (Z.land self other =? 0).

Record Action := mkAction {
  action_cv : list Z;
  action_nullifier : Hash;
  action_rk : list Z;
  cm_x : Hash;
  action_ephemeral_key : list Z;
  action_enc_ciphertext : list Z;
  action_out_ciphertext : list Z;
}.
Record AuthorizedAction := mkAuthorizedAction { action : Action; action_spend_auth_sig : list Z }.
Record OrchardShieldedData := mkOrchard {
  flags : Z;
  orchard_value : Amount NegativeAllowed;
  orchard_shared_anchor : Hash;
  proof : list Z;
  authorized_actions : list AuthorizedAction;
  orchard_binding_sig : list Z;
}.

Definition actions (self : OrchardShieldedData) : list Action := action <$> authorized_actions self.

Definition orchard_data_nullifiers (self : OrchardShieldedData) : list Hash :=
  action_nullifier <$> actions self.
Definition orchard_data_note_commitments (self : OrchardShieldedData) : list Hash :=
  cm_x <$> actions self.

(** ** Transactions *)

Inductive Transaction :=
| V1 (inputs : list Input) (outputs : list Output) (lock_time : LockTime)
| V2 (inputs : list Input) (outputs : list Output) (lock_time : LockTime)
     (joinsplit_data : option JoinSplitData)
| V3 (inputs : list Input) (outputs : list Output) (lock_time : LockTime) (expiry_height : Height)
     (joinsplit_data : option JoinSplitData)
| V4 (inputs : list Input) (outputs : list Output) (lock_time : LockTime) (expiry_height : Height)
     (joinsplit_data : option JoinSplitData)
     (sapling_shielded_data : option (SaplingShieldedData FieldNotPresent Hash))
| V5 (network_upgrade : NetworkUpgrade) (lock_time : LockTime) (expiry_height : Height)
     (inputs : list Input) (outputs : list Output)
     (sapling_shielded_data : option (SaplingShieldedData Hash FieldNotPresent))
     (orchard_shielded_data : option OrchardShieldedData).

Definition inputs (self : Transaction) : list Input :=
  match self with
  | V1 i _ _ | V2 i _ _ _ | V3 i _ _ _ _ | V4 i _ _ _ _ _ | V5 _ _ _ i _ _ _ => i
  end.
Definition outputs (self : Transaction) : list Output :=
  match self with
  | V1 _ o _ | V2 _ o _ _ | V3 _ o _ _ _ | V4 _ o _ _ _ _ | V5 _ _ _ _ o _ _ => o
  end.
Definition version (self : Transaction) : Z :=
  match self with
  | V1 _ _ _ => 1 | V2 _ _ _ _ => 2 | V3 _ _ _ _ _ => 3 | V4 _ _ _ _ _ _ => 4 | V5 _ _ _ _ _ _ _ => 5
  end.
Definition is_overwintered (self : Transaction) : bool :=
  match self with
  | V1 _ _ _ | V2 _ _ _ _ => false
  | V3 _ _ _ _ _ | V4 _ _ _ _ _ _ | V5 _ _ _ _ _ _ _ => true
  end.

(** The [lock_time] field, and the methods [raw_lock_time] and [lock_time]. *)
Definition lock_time_field (self : Transaction) : LockTime :=
  match self with
  | V1 _ _ l | V2 _ _ l _ | V3 _ _ l _ _ | V4 _ _ l _ _ _ | V5 _ l _ _ _ _ _ => l
  end.
Definition raw_lock_time (self : Transaction) : Run Z :=
  bytes ← lock_time_serialize (lock_time_field self); Ok (of_le_bytes bytes).
Definition lock_time (self : Transaction) : option LockTime :=
  let lock_time := lock_time_field self in
  if decide (lock_time = unlocked) then None
  else
    let has_sequence_number_enabling_lock_time :=
      existsb (fun sequence_number => negb (sequence_number =? 2 ^ 32 - 1))
              (input_sequence <$> inputs self) in
    if has_sequence_number_enabling_lock_time then Some lock_time else None.
Definition lock_time_is_time (self : Transaction) : bool :=
  match lock_time self with Some lock_time => is_time lock_time | None => false end.

Definition expiry_height (self : Transaction) : option Height :=
  match self with
  | V1 _ _ _ | V2 _ _ _ _ => None
  | V3 _ _ _ expiry _ | V4 _ _ _ expiry _ _ | V5 _ _ expiry _ _ _ _ =>
      if expiry =? 0 then None else Some expiry
  end.
Definition tx_network_upgrade (self : Transaction) : option NetworkUpgrade :=
  match self with V5 nu _ _ _ _ _ _ => Some nu | _ => None end.

Definition spent_outpoints (self : Transaction) : list OutPoint := omap outpoint (inputs self).
Definition is_coinbase (self : Transaction) : bool :=
  match inputs self with [Coinbase _ _ _] => true | _ => false end.
Definition is_valid_non_coinbase (self : Transaction) : bool :=
  forallb (fun input => match input with PrevOut _ _ _ => true | Coinbase _ _ _ => false end) (inputs self).

(** The [joinsplit_data] that the versions with JoinSplits have. *)
Definition joinsplit_data (self : Transaction) : option JoinSplitData :=
  match self with
  | V2 _ _ _ joinsplit_data | V3 _ _ _ _ joinsplit_data | V4 _ _ _ _ joinsplit_data _ => joinsplit_data
  | V1 _ _ _ | V5 _ _ _ _ _ _ _ => None
  end.

Definition sprout_groth16_joinsplits (self : Transaction) : list JoinSplit :=
  match self with V4 _ _ _ _ (Some joinsplit_data) _ => joinsplits joinsplit_data | _ => [] end.
Definition sprout_joinsplits (self : Transaction) : list JoinSplit :=
  match joinsplit_data self with Some joinsplit_data => joinsplits joinsplit_data | None => [] end.
Definition joinsplit_count (self : Transaction) : Z :=
  match joinsplit_data self with
  | Some joinsplit_data => Z.of_nat (length (joinsplits joinsplit_data))
  | None => 0
  end.
Definition sprout_nullifiers (self : Transaction) : list Hash :=
  match joinsplit_data self with
  | Some joinsplit_data => joinsplit_data_nullifiers joinsplit_data
  | None => []
  end.
Definition has_sprout_joinsplit_data (self : Transaction) : bool := bool_decide (is_Some (joinsplit_data self)).
Definition sprout_note_commitments (self : Transaction) : list Hash :=
  match joinsplit_data self with
  | Some joinsplit_data => joinsplit_data_note_commitments joinsplit_data
  | None => []
  end.
Definition output_values_to_sprout (self : Transaction) : list (Amount NonNegative) :=
  match joinsplit_data self with
  | Some joinsplit_data => vpub_old <$> joinsplits joinsplit_data
  | None => []
  end.
Definition input_values_from_sprout (self : Transaction) : list (Amount NonNegative) :=
  match joinsplit_data self with
  | Some joinsplit_data => vpub_new <$> joinsplits joinsplit_data
  | None => []
  end.

Definition sapling_anchors {E} (self : Transaction) : Res E (list Hash) :=
  match self with
  | V4 _ _ _ _ _ (Some data) => sapling_data_anchors data
  | V5 _ _ _ _ _ (Some data) _ => sapling_data_anchors data
  | _ => Ok []
  end.
Definition sapling_spends_per_anchor {E} (self : Transaction) : Res E (list (Spend Hash)) :=
  match self with
  | V4 _ _ _ _ _ (Some data) => spends_per_anchor data
  | V5 _ _ _ _ _ (Some data) _ => spends_per_anchor data
  | _ => Ok []
  end.
Definition sapling_outputs (self : Transaction) : list SaplingOutput :=
  match self with
  | V4 _ _ _ _ _ (Some data) => sapling_data_outputs data
  | V5 _ _ _ _ _ (Some data) _ => sapling_data_outputs data
  | _ => []
  end.
Definition sapling_nullifiers (self : Transaction) : list Hash :=
  match self with
  | V4 _ _ _ _ _ (Some data) => sapling_data_nullifiers data
  | V5 _ _ _ _ _ (Some data) _ => sapling_data_nullifiers data
  | _ => []
  end.
Definition sapling_note_commitments (self : Transaction) : list Hash :=
  match self with
  | V4 _ _ _ _ _ (Some data) => sapling_data_note_commitments data
  | V5 _ _ _ _ _ (Some data) _ => sapling_data_note_commitments data
  | _ => []
  end.
Definition has_sapling_shielded_data (self : Transaction) : bool :=
  match self with
  | V4 _ _ _ _ _ (Some _) | V5 _ _ _ _ _ (Some _) _ => true
  | _ => false
  end.

Definition orchard_shielded_data (self : Transaction) : option OrchardShieldedData :=
  match self with V5 _ _ _ _ _ _ data => data | _ => None end.
Definition orchard_actions (self : Transaction) : list Action :=
  match orchard_shielded_data self with Some data => actions data | None => [] end.
Definition orchard_nullifiers (self : Transaction) : list Hash :=
  match orchard_shielded_data self with Some data => orchard_data_nullifiers data | None => [] end.
Definition orchard_note_commitments (self : Transaction) : list Hash :=
  match orchard_shielded_data self with Some data => orchard_data_note_commitments data | None => [] end.
Definition orchard_flags (self : Transaction) : option Z := flags <$> orchard_shielded_data self.
Definition has_orchard_shielded_data (self : Transaction) : bool :=
  bool_decide (is_Some (orchard_shielded_data self)).

Definition has_transparent_inputs (self : Transaction) : bool := negb (bool_decide (inputs self = [])).
Definition has_transparent_outputs (self : Transaction) : bool := negb (bool_decide (outputs self = [])).
Definition has_transparent_inputs_or_outputs (self : Transaction) : bool :=
  has_transparent_inputs self || has_transparent_outputs self.
(** [count() > 0] on the iterator over the spends: [spends_per_anchor] may panic. *)
Definition has_shielded_inputs {E} (self : Transaction) : Res E bool :=
  if 0 <? joinsplit_count self then Ok true
  else
    spends ← sapling_spends_per_anchor self;
    Ok ((0 <? Z.of_nat (length spends))
        || ((0 <? Z.of_nat (length (orchard_actions self)))
            && flags_contains (default 0 (orchard_flags self)) ENABLE_SPENDS)).
Definition has_shielded_outputs (self : Transaction) : bool :=
  (0 <? joinsplit_count self)
  || (0 <? Z.of_nat (length (sapling_outputs self)))
  || ((0 <? Z.of_nat (length (orchard_actions self)))
      && flags_contains (default 0 (orchard_flags self)) ENABLE_OUTPUTS).
Definition has_transparent_or_shielded_inputs {E} (self : Transaction) : Res E bool :=
  if has_transparent_inputs self then Ok true else has_shielded_inputs self.
Definition has_transparent_or_shielded_outputs (self : Transaction) : bool :=
  has_transparent_outputs self || has_shielded_outputs self.
Definition has_enough_orchard_flags (self : Transaction) : bool :=
  if (version self <? 5) || (Z.of_nat (length (orchard_actions self)) =? 0) then true
  else flags_intersects (default 0 (orchard_flags self)) (Z.lor ENABLE_SPENDS ENABLE_OUTPUTS).

Inductive CoinbaseSpendRestriction :=
| DisallowCoinbaseSpend
| CheckCoinbaseMaturity (spend_height : Height).

Definition coinbase_spend_restriction (self : Transaction) (network : Network) (spend_height : Height) :
    CoinbaseSpendRestriction :=
  if negb (has_transparent_outputs self) || should_allow_unshielded_coinbase_spends network
  then CheckCoinbaseMaturity spend_height
  else DisallowCoinbaseSpend.

(** *** Value balances *)

Definition transparent_value_balance_from_outputs (self : Transaction) (outs : gmap OutPoint Output) :
    Res ValueBalanceError (ValueBalance NegativeAllowed) :=
  values ← collect ((fun i => value_from_outputs i outs) <$> inputs self);
  input_value ← map_err Transparent (Amount.sum values);
  input_value ← expect_ok (Amount.constrain NegativeAllowed input_value);
  output_value ← map_err Transparent (Amount.sum (value <$> outputs self));
  output_value ← expect_ok (Amount.constrain NegativeAllowed output_value);
  difference ← map_err Transparent (Amount.sub input_value output_value);
  from_transparent_amount difference.

Definition sprout_joinsplit_value_balances {E} (self : Transaction) :
    Res E (list (ValueBalance NegativeAllowed)) :=
  balances ← match joinsplit_data self with
             | Some joinsplit_data => joinsplit_value_balances joinsplit_data
             | None => Ok []
             end;
  collect (from_sprout_amount <$> balances).
Definition sprout_value_balance (self : Transaction) : Res ValueBalanceError (ValueBalance NegativeAllowed) :=
  balances ← sprout_joinsplit_value_balances self; ValueBalance.sum balances.

Definition sapling_value_balance {E} (self : Transaction) : Res E (ValueBalance NegativeAllowed) :=
  sapling_value_balance ←
    match self with
    | V4 _ _ _ _ _ (Some data) => Ok (sapling_value data)
    | V5 _ _ _ _ _ (Some data) _ => Ok (sapling_value data)
    | _ => Amount.zero
    end;
  from_sapling_amount sapling_value_balance.
Definition orchard_value_balance {E} (self : Transaction) : Res E (ValueBalance NegativeAllowed) :=
  orchard_value_balance ← match orchard_shielded_data self with
                          | Some data => Ok (orchard_value data)
                          | None => Amount.zero
                          end;
  from_orchard_amount orchard_value_balance.

(** [value_balance_from_outputs]: the operands are evaluated from the left,
    each before the sum it is added to. *)
Definition value_balance_from_outputs (self : Transaction) (outs : gmap OutPoint Output) :
    Res ValueBalanceError (ValueBalance NegativeAllowed) :=
  transparent ← transparent_value_balance_from_outputs self outs;
  sprout ← sprout_value_balance self;
  sapling ← sapling_value_balance self;
  orchard ← orchard_value_balance self;
  ValueBalance.result_add (ValueBalance.result_add (ValueBalance.add transparent sprout) sapling) orchard.
Definition value_balance (self : Transaction) (utxos : gmap OutPoint Utxo) :
    Res ValueBalanceError (ValueBalance NegativeAllowed) :=
  value_balance_from_outputs self (outputs_from_utxos utxos).

(** ** Blocks *)

(** [equihash::Solution] and [block::Header]; times are seconds since the epoch. *)
Inductive Solution := Common (solution : list Z) | Regtest_solution (solution : list Z).

Record Header := mkHeader {
  header_version : Z;
  previous_block_hash : Hash;
  merkle_root : Hash;
  commitment_bytes : list Z;
  time : Z;
  difficulty_threshold : CompactDifficulty;
  nonce : list Z;
  solution : Solution;
}.

Record Block := mkBlock { header : Header; transactions : list Transaction }.

Definition coinbase_height (self : Block) : option Height :=
  tx ← head (transactions self);
  input ← head (inputs tx);
  match input with Coinbase height _ _ => Some height | PrevOut _ _ _ => None end.

Definition block_sprout_nullifiers (self : Block) : list Hash := transactions self ≫= sprout_nullifiers.
Definition block_sapling_nullifiers (self : Block) : list Hash := transactions self ≫= sapling_nullifiers.
Definition block_orchard_nullifiers (self : Block) : list Hash := transactions self ≫= orchard_nullifiers.
Definition block_sprout_note_commitments (self : Block) : list Hash :=
  transactions self ≫= sprout_note_commitments.
Definition block_sapling_note_commitments (self : Block) : list Hash :=
  transactions self ≫= sapling_note_commitments.
Definition block_orchard_note_commitments (self : Block) : list Hash :=
  transactions self ≫= orchard_note_commitments.
Definition sapling_transactions_count (self : Block) : Z :=
  Z.of_nat (length (List.filter has_sapling_shielded_data (transactions self))).
Definition orchard_transactions_count (self : Block) : Z :=
  Z.of_nat (length (List.filter has_orchard_shielded_data (transactions self))).

(** The fold of [flat_map(value_balance).sum()]: [flat_map] yields the value of
    an [Ok] and nothing for an [Err], and [try_fold] stops at the first sum that
    fails. *)
Fixpoint flat_map_sum (acc : ValueBalance NegativeAllowed) (txs : list Transaction)
    (utxos : gmap OutPoint Utxo) : Res ValueBalanceError (ValueBalance NegativeAllowed) :=
  match txs with
  | [] => Ok acc
  | t :: txs =>
      match value_balance t utxos with
      | Ok balance => acc ← ValueBalance.add acc balance; flat_map_sum acc txs utxos
      | Err _ => flat_map_sum acc txs utxos
      | Panic => Panic
      end
  end.

Definition chain_value_pool_change (self : Block) (utxos : gmap OutPoint Utxo)
    (deferred_pool_balance_change : option DeferredPoolBalanceChange) :
    Res ValueBalanceError (ValueBalance NegativeAllowed) :=
  zero ← ValueBalance.zero;
  sum ← flat_map_sum zero (transactions self) utxos;
  change ← lift (ValueBalance.neg sum);
  default_amount ← Amount.zero;
  Ok (set_deferred_amount change
        (default default_amount (deferred_value <$> deferred_pool_balance_change))).

(** [check_transaction_network_upgrade_consistency]; the error is
    [WrongTransactionConsensusBranchId]. *)
Definition check_transaction_network_upgrade_consistency `{!Literals} (self : Block) (network : Network) :
    Res unit unit :=
  height ← expect (coinbase_height self);
  block_nu ← lift (current network height);
  if existsb (fun trans_nu => negb (bool_decide (trans_nu = block_nu)))
             (omap tx_network_upgrade (transactions self))
  then Err tt else Ok tt.

(** *** Outputs created by a block *)

(** The entries inserted by [new_transaction_ordered_outputs], in order. *)
Fixpoint transaction_outputs_from {E} (index : Z) (outs : list Output) (hash : Hash)
    (tx_index_in_block : Z) (height : Height) : Res E (list (OutPoint * OrderedUtxo)) :=
  match outs with
  | [] => Ok []
  | output :: outs =>
      output_index_in_transaction ← expect (try_from U32 index);
      rest ← transaction_outputs_from (index + 1) outs hash tx_index_in_block height;
      Ok ((mkOutPoint hash output_index_in_transaction,
           ordered_utxo_new output height tx_index_in_block) :: rest)
  end.

(** [HashMap::extend]: later entries replace earlier ones. *)
Definition extend {K A} `{Countable K} (m : gmap K A) (l : list (K * A)) : gmap K A :=
  foldl (fun m kv => <[kv.1 := kv.2]> m) m l.

Definition new_transaction_ordered_outputs {E} (transaction : Transaction) (hash : Hash)
    (tx_index_in_block : Z) (height : Height) : Res E (gmap OutPoint OrderedUtxo) :=
  entries ← transaction_outputs_from 0 (outputs transaction) hash tx_index_in_block height;
  Ok (extend ∅ entries).

(** The loop over the transactions zipped with their hashes, from [tx_index]. *)
Fixpoint ordered_outputs_from {E} (tx_index : Z) (txs : list (Transaction * Hash)) (height : Height)
    (new_ordered_outputs : gmap OutPoint OrderedUtxo) : Res E (gmap OutPoint OrderedUtxo) :=
  match txs with
  | [] => Ok new_ordered_outputs
  | (transaction, hash) :: txs =>
      tx_outputs ← new_transaction_ordered_outputs transaction hash tx_index height;
      ordered_outputs_from (tx_index + 1) txs height (tx_outputs ∪ new_ordered_outputs)
  end.

Definition new_ordered_outputs_with_height {E} (block : Block) (height : Height)
    (transaction_hashes : list Hash) : Res E (gmap OutPoint OrderedUtxo) :=
  ordered_outputs_from 0 (zip (transactions block) transaction_hashes) height ∅.
Definition new_ordered_outputs {E} (block : Block) (transaction_hashes : list Hash) :
    Res E (gmap OutPoint OrderedUtxo) :=
  height ← expect (coinbase_height block);
  new_ordered_outputs_with_height block height transaction_hashes.
Definition new_outputs {E} (block : Block) (transaction_hashes : list Hash) : Res E (gmap OutPoint Utxo) :=
  ordered ← new_ordered_outputs block transaction_hashes; Ok (utxos_from_ordered_utxos ordered).

(** ** Lemmas *)

Lemma collect_Ok {E A} (l : list (Res E A)) xs : collect l = Ok xs ↔ l = Ok <$> xs.
Proof.
  revert xs. induction l as [|r l IH]; intros xs; cbn.
  - destruct xs; naive_solver.
  - rewrite bind_Ok. setoid_rewrite bind_Ok. setoid_rewrite IH.
    destruct xs as [|x xs]; cbn; naive_solver.
Qed.

Lemma collect_no_panic {E A} (l : list (Res E A)) : Forall no_panic l → no_panic (collect l).
Proof.
  induction 1; cbn; [done|]. apply no_panic_bind; [done|]. intros a _.
  apply no_panic_bind; [done|]. done.
Qed.

(** Pool-wise values: every pool but the named one is zero. *)
Lemma from_amounts {E} (a : Amount NegativeAllowed) :
  let z := mkAmount 0 in
  from_transparent_amount (E := E) a = Ok (mkValueBalance a z z z z) ∧
  from_sprout_amount (E := E) a = Ok (mkValueBalance z a z z z) ∧
  from_sapling_amount (E := E) a = Ok (mkValueBalance z z a z z) ∧
  from_orchard_amount (E := E) a = Ok (mkValueBalance z z z a z).
Proof.
  unfold from_transparent_amount, from_sprout_amount, from_sapling_amount, from_orchard_amount.
  rewrite vb_zero_spec. done.
Qed.

Lemma constrain_non_negative {E} (a : Amount NonNegative) :
  amount_ok a = true →
  expect_ok (F := E) (Amount.constrain NegativeAllowed a) = Ok (mkAmount (zatoshis a)).
Proof.
  intros Ha%amount_ok_bounds. unfold Amount.constrain. rewrite try_from_i64_spec.
  destruct (contains _ _) eqn:Hc; [done|]. apply not_true_iff_false in Hc.
  rewrite contains_spec in Hc. cbn in Hc. lia.
Qed.

Lemma retagged_ok (a : Amount NonNegative) :
  amount_ok a = true → amount_ok (C := NegativeAllowed) (mkAmount (zatoshis a)) = true.
Proof. intros Ha%amount_ok_bounds. apply contains_spec. cbn. lia. Qed.

(** A JoinSplit moves [vpub_new - vpub_old] into the transaction value pool. *)
Definition joinsplit_ok (j : JoinSplit) : Prop :=
  amount_ok (vpub_old j) = true ∧ amount_ok (vpub_new j) = true.
Definition joinsplit_value (j : JoinSplit) : Z := zatoshis (vpub_new j) - zatoshis (vpub_old j).

Lemma joinsplit_value_balance_spec {E} (j : JoinSplit) :
  joinsplit_ok j →
  joinsplit_value_balance (E := E) j = Ok (mkAmount (joinsplit_value j)) ∧
  amount_ok (C := NegativeAllowed) (mkAmount (joinsplit_value j)) = true.
Proof.
  intros [Ho Hn]. unfold joinsplit_value_balance.
  rewrite !constrain_non_negative, !Ok_bind, Amount.sub_spec by auto using retagged_ok.
  rewrite try_from_i64_spec. apply contains_spec in Ho, Hn. cbn [valid_range] in *.
  unfold amount_ok. destruct (contains _ _) eqn:Hc; [done|].
  apply not_true_iff_false in Hc. rewrite contains_spec in Hc. cbn in *. lia.
Qed.

(** The amounts a transaction holds are valid: the invariant of [Amount]. *)
Record tx_ok (t : Transaction) : Prop := {
  tx_outputs_ok : Forall (fun o => amount_ok (value o) = true) (outputs t);
  tx_joinsplits_ok : Forall joinsplit_ok (sprout_joinsplits t);
  tx_sapling_ok : amount_ok (match t with
    | V4 _ _ _ _ _ (Some d) => sapling_value d
    | V5 _ _ _ _ _ (Some d) _ => sapling_value d
    | _ => mkAmount 0 end) = true;
  tx_orchard_ok : amount_ok (from_option orchard_value (mkAmount 0) (orchard_shielded_data t)) = true;
}.
Definition outs_ok (outs : gmap OutPoint Output) : Prop :=
  map_Forall (fun _ o => amount_ok (value o) = true) outs.

(** The value of the four pools a transaction moves value between. *)
Definition spent_value (outs : gmap OutPoint Output) (i : Input) : Z :=
  match outpoint i with
  | Some o => from_option (fun out => zatoshis (value out)) 0 (outs !! o)
  | None => 0
  end.
Definition transparent_in (outs : gmap OutPoint Output) (t : Transaction) : Z :=
  sum_Z (spent_value outs <$> inputs t).
Definition transparent_out (t : Transaction) : Z := sum_Z ((fun o => zatoshis (value o)) <$> outputs t).
Definition sprout_value (t : Transaction) : Z := sum_Z (joinsplit_value <$> sprout_joinsplits t).
Definition sapling_balance (t : Transaction) : Z :=
  zatoshis (match t with
    | V4 _ _ _ _ _ (Some d) => sapling_value d
    | V5 _ _ _ _ _ (Some d) _ => sapling_value d
    | _ => mkAmount 0 end).
Definition orchard_balance (t : Transaction) : Z :=
  zatoshis (from_option orchard_value (mkAmount 0) (orchard_shielded_data t)).
Definition tx_pools (outs : gmap OutPoint Output) (t : Transaction) : list Z :=
  [transparent_in outs t - transparent_out t; sprout_value t; sapling_balance t; orchard_balance t; 0].

(** Every output the transaction spends is known. *)
Definition inputs_known (outs : gmap OutPoint Output) (t : Transaction) : Prop :=
  Forall (fun o => is_Some (outs !! o)) (spent_outpoints t).

Lemma value_from_outputs_spec {E} outs i :
  outs_ok outs →
  match value_from_outputs (E := E) i outs with
  | Ok a => zatoshis a = spent_value outs i ∧ amount_ok a = true
  | Err _ => False
  | Panic => ∃ o, outpoint i = Some o ∧ outs !! o = None
  end.
Proof.
  intros Hok. destruct i as [o s n|h d n]; unfold value_from_outputs, spent_value; cbn [outpoint].
  - destruct (outs !! o) as [out|] eqn:Ho; cbn; [|eauto]. split; [done|]. by apply (Hok o).
  - rewrite Amount.zero_spec. done.
Qed.

Lemma collect_values {E} outs l :
  outs_ok outs →
  match collect (E := E) ((fun i => value_from_outputs i outs) <$> l) with
  | Ok vs => zatoshis <$> vs = spent_value outs <$> l ∧ Forall (fun a => amount_ok a = true) vs
  | Err _ => False
  | Panic => Exists (fun o => outs !! o = None) (omap outpoint l)
  end.
Proof.
  intros Hok. induction l as [|i l IH]; cbn; [done|].
  pose proof (value_from_outputs_spec (E := E) outs i Hok) as Hi.
  destruct (value_from_outputs i outs) as [a|e|]; cbn; [|done|].
  - destruct (collect _) as [vs|e|]; cbn; [|done|].
    + destruct IH as [IH1 IH2], Hi as [Hi1 Hi2]. rewrite IH1, Hi1. auto.
    + destruct (outpoint i); [by apply Exists_cons_tl|done].
  - destruct Hi as (o & -> & Ho). by apply Exists_cons_hd.
Qed.

(** A sum of valid amounts is exact and valid, when it is not an error. *)
Lemma sum_Ok {C} `{ConstraintLaws C} (l : list (Amount C)) s :
  Forall (fun a => amount_ok a = true) l → Amount.sum l = Ok s →
  zatoshis s = sum_Z (zatoshis <$> l) ∧ amount_ok s = true.
Proof. intros Hl Hs. pose proof (sum_cases l Hl) as Hc. rewrite Hs in Hc. naive_solver. Qed.

Lemma sum_no_panic {C} `{ConstraintLaws C} (l : list (Amount C)) :
  Forall (fun a => amount_ok a = true) l → no_panic (Amount.sum l).
Proof. intros Hl. pose proof (sum_cases l Hl) as Hc. unfold no_panic. by destruct (Amount.sum l). Qed.

Lemma outputs_values_ok t :
  tx_ok t → Forall (fun a => amount_ok a = true) (value <$> outputs t).
Proof. intros Ht. apply Forall_fmap, (tx_outputs_ok t Ht). Qed.

Lemma transparent_balance_spec t outs :
  tx_ok t → outs_ok outs →
  (∀ v, transparent_value_balance_from_outputs t outs = Ok v →
     v = mkValueBalance (mkAmount (transparent_in outs t - transparent_out t))
           (mkAmount 0) (mkAmount 0) (mkAmount 0) (mkAmount 0) ∧ vb_ok v) ∧
  (inputs_known outs t → no_panic (transparent_value_balance_from_outputs t outs)).
Proof.
  intros Ht Ho. unfold transparent_value_balance_from_outputs.
  pose proof (collect_values (E := ValueBalanceError) outs (inputs t) Ho) as Hc.
  destruct (collect _) as [vs|e|]; cbn [mbind Res_bind]; [|done|].
  2:{ split; [done|]. intros Hk. unfold inputs_known, spent_outpoints in Hk.
      apply Exists_exists in Hc as (o & Hin & Hn). eapply Forall_forall in Hk; [|exact Hin].
      by destruct Hk as [? Hk]; rewrite Hn in Hk. }
  destruct Hc as [Hv Hvs]. pose proof (outputs_values_ok t Ht) as Hos.
  split.
  - intros v Hr. res_inv.
    repeat match goal with H : Amount.sum _ = Ok _ |- _ =>
      apply sum_Ok in H as [? ?]; [|done] end.
    repeat match goal with H : expect_ok (Amount.constrain _ _) = Ok _ |- _ =>
      rewrite constrain_non_negative in H by done; injection H as <- end.
    match goal with H : Amount.sub _ _ = Ok _ |- _ =>
      rewrite Amount.sub_spec, try_from_i64_spec in H by auto using retagged_ok;
      destruct (contains _ _) eqn:Hc in H; [|done]; injection H as <- end.
    rewrite (proj1 (from_amounts _)) in Hr. injection Hr as <-.
    cbn [zatoshis] in *. unfold transparent_in, transparent_out.
    rewrite <- Hv. rewrite <- list_fmap_compose in *. unfold compose in *.
    split; [congruence|]. apply vb_ok_inv. cbn. unfold amount_ok. cbn.
    split; [exact Hc|done].
  - intros _. apply no_panic_bind; [apply no_panic_map_err, sum_no_panic; done|].
    intros a Ha%map_err_Ok%sum_Ok; [|done]. rewrite constrain_non_negative, Ok_bind by apply Ha.
    apply no_panic_bind; [apply no_panic_map_err, sum_no_panic; done|].
    intros b Hb%map_err_Ok%sum_Ok; [|done]. rewrite constrain_non_negative, Ok_bind by apply Hb.
    rewrite Amount.sub_spec, try_from_i64_spec by (apply retagged_ok; naive_solver).
    destruct (contains _ _); cbn [map_err]; [|done].
    rewrite Ok_bind, (proj1 (from_amounts _)). done.
Qed.

(** Pool-wise sums. *)
Definition add_pools (p q : list Z) : list Z := zip_with Z.add p q.

Lemma vb_fold_spec (acc : ValueBalance NegativeAllowed) l :
  vb_ok acc → Forall vb_ok l →
  (∀ v, ValueBalance.try_fold_add acc l = Ok v →
     vb_ok v ∧ pools v = foldl add_pools (pools acc) (pools <$> l)) ∧
  no_panic (ValueBalance.try_fold_add acc l).
Proof.
  intros Ha Hl. revert acc Ha. induction Hl as [|w l Hw _ IH]; intros acc Ha; cbn.
  - split; [|done]. intros v [= <-]. done.
  - split.
    + intros v Hv. res_inv. match goal with H : ValueBalance.add _ _ = Ok _ |- _ =>
        apply add_Ok in H as [Hx Hp]; [|done|done] end.
      apply IH in Hv as [Hv ->]; [|done]. by rewrite Hp.
    + apply no_panic_bind; [by apply add_no_panic|]. intros x Hx.
      apply add_Ok in Hx as [Hx _]; [|done|done]. by apply IH.
Qed.

Lemma vb_zero_ok : vb_ok (C := NegativeAllowed)
  (mkValueBalance (mkAmount 0) (mkAmount 0) (mkAmount 0) (mkAmount 0) (mkAmount 0)).
Proof. apply vb_ok_inv. cbn [transparent sprout sapling orchard deferred]. rewrite zero_ok. auto. Qed.

(** A list that is zero but for one pool adds up in that pool. *)
Lemma foldl_sprout (a b c d e : Z) (l : list Z) :
  foldl add_pools [a; b; c; d; e] ((fun z => [0; z; 0; 0; 0]) <$> l) = [a; b + sum_Z l; c; d; e].
Proof.
  revert b. induction l as [|z l IH]; intros b; cbn; [by rewrite Z.add_0_r|].
  rewrite !Z.add_0_r, IH. by rewrite Z.add_assoc.
Qed.

Lemma sprout_balances_spec {E} t :
  tx_ok t →
  sprout_joinsplit_value_balances (E := E) t =
  Ok ((fun j => mkValueBalance (mkAmount 0) (mkAmount (joinsplit_value j)) (mkAmount 0)
                  (mkAmount 0) (mkAmount 0)) <$> sprout_joinsplits t).
Proof.
  intros Ht. unfold sprout_joinsplit_value_balances.
  assert (Hb : match joinsplit_data t with
               | Some d => joinsplit_value_balances d | None => Ok [] end
             = Ok (E := E) ((fun j => mkAmount (joinsplit_value j)) <$> sprout_joinsplits t)).
  { pose proof (tx_joinsplits_ok t Ht) as Hj. unfold sprout_joinsplits in *.
    destruct (joinsplit_data t) as [d|]; [|done]. apply collect_Ok.
    rewrite <- list_fmap_compose. apply list_fmap_ext. intros i j Hij. cbn.
    eapply Forall_lookup_1 in Hj; [|exact Hij]. by apply joinsplit_value_balance_spec. }
  rewrite Hb, Ok_bind. apply collect_Ok. rewrite <- !list_fmap_compose.
  apply list_fmap_ext. intros i j _. cbn. apply from_amounts.
Qed.

Lemma sprout_value_balance_spec t :
  tx_ok t →
  (∀ v, sprout_value_balance t = Ok v → vb_ok v ∧ pools v = [0; sprout_value t; 0; 0; 0]) ∧
  no_panic (sprout_value_balance t).
Proof.
  intros Ht. unfold sprout_value_balance. rewrite sprout_balances_spec, Ok_bind by done.
  unfold ValueBalance.sum. rewrite vb_zero_spec, Ok_bind.
  match goal with |- context [ValueBalance.try_fold_add ?z ?l] =>
    destruct (vb_fold_spec z l) as [Hs Hn] end.
  - apply vb_zero_ok.
  - apply Forall_fmap. eapply Forall_impl; [apply (tx_joinsplits_ok t Ht)|]. intros j Hj. cbn.
    apply vb_ok_inv. cbn. destruct (joinsplit_value_balance_spec (E := Empty_set) j Hj) as [_ ?]. auto.
  - split; [|done]. intros v Hv. apply Hs in Hv as [Hv ->]. split; [done|].
    rewrite <- list_fmap_compose. unfold sprout_value.
    pose proof (foldl_sprout 0 0 0 0 0 (joinsplit_value <$> sprout_joinsplits t)) as Hf.
    rewrite <- list_fmap_compose in Hf. exact Hf.
Qed.

Lemma sapling_value_balance_spec {E} t :
  sapling_value_balance (E := E) t =
  Ok (mkValueBalance (mkAmount 0) (mkAmount 0) (mkAmount (sapling_balance t)) (mkAmount 0) (mkAmount 0)).
Proof.
  unfold sapling_value_balance, sapling_balance.
  destruct t as [| | |????? [[[] ?]|]|????? [[[] ?]|] ?]; cbn -[Amount.zero from_sapling_amount];
    rewrite ?Amount.zero_spec, ?Ok_bind; apply from_amounts.
Qed.

Lemma orchard_value_balance_spec {E} t :
  orchard_value_balance (E := E) t =
  Ok (mkValueBalance (mkAmount 0) (mkAmount 0) (mkAmount 0) (mkAmount (orchard_balance t)) (mkAmount 0)).
Proof.
  unfold orchard_value_balance, orchard_balance.
  destruct (orchard_shielded_data t) as [[? [] ? ?]|]; cbn -[Amount.zero from_orchard_amount];
    rewrite ?Amount.zero_spec, ?Ok_bind; apply from_amounts.
Qed.

Lemma shielded_balances_ok t :
  tx_ok t →
  vb_ok (C := NegativeAllowed)
    (mkValueBalance (mkAmount 0) (mkAmount 0) (mkAmount (sapling_balance t)) (mkAmount 0) (mkAmount 0)) ∧
  vb_ok (C := NegativeAllowed)
    (mkValueBalance (mkAmount 0) (mkAmount 0) (mkAmount 0) (mkAmount (orchard_balance t)) (mkAmount 0)).
Proof.
  intros Ht. rewrite !vb_ok_inv. cbn [transparent sprout sapling orchard deferred].
  pose proof (tx_sapling_ok t Ht) as Hs. pose proof (tx_orchard_ok t Ht) as Ho.
  unfold sapling_balance, orchard_balance, amount_ok in *. cbn [zatoshis]. done.
Qed.

(** The value balance of a transaction, pool by pool. *)
Lemma value_balance_spec t outs :
  tx_ok t → outs_ok outs →
  (∀ v, value_balance_from_outputs t outs = Ok v → vb_ok v ∧ pools v = tx_pools outs t) ∧
  (inputs_known outs t → no_panic (value_balance_from_outputs t outs)).
Proof.
  intros Ht Ho. destruct (transparent_balance_spec t outs Ht Ho) as [Hts Htn].
  destruct (sprout_value_balance_spec t Ht) as [Hss Hsn].
  destruct (shielded_balances_ok t Ht) as [Hsa Hoa].
  unfold value_balance_from_outputs, result_add.
  rewrite sapling_value_balance_spec, orchard_value_balance_spec. split.
  - intros v Hv. res_inv.
    match goal with H : transparent_value_balance_from_outputs _ _ = Ok _ |- _ =>
      apply Hts in H as [-> ?] end.
    match goal with H : sprout_value_balance _ = Ok _ |- _ => apply Hss in H as [? Hp] end.
    do 3 match goal with H : ValueBalance.add _ _ = Ok _ |- _ =>
      apply add_Ok in H as [? ?]; [|done|done] end.
    split; [done|]. unfold tx_pools.
    repeat match goal with H : pools ?x = _ |- _ => rewrite H; clear H end.
    cbn. rewrite !Z.add_0_r. done.
  - intros Hk. apply no_panic_bind; [auto|]. intros a [-> Ha]%Hts.
    apply no_panic_bind; [done|]. intros b [Hb _]%Hss. rewrite !Ok_bind.
    apply no_panic_bind; [apply no_panic_bind|].
    + by apply add_no_panic.
    + intros x [Hx _]%add_Ok; [|done|done]. by apply add_no_panic.
    + intros x Hx. res_inv.
      repeat match goal with H : ValueBalance.add _ _ = Ok _ |- _ =>
        apply add_Ok in H as [? ?]; [|done|done] end.
      by apply add_no_panic.
Qed.

Lemma flat_map_sum_spec txs utxos acc :
  Forall tx_ok txs → outs_ok (outputs_from_utxos utxos) → vb_ok acc →
  Forall (fun t => is_ok (value_balance t utxos) = true) txs →
  (∀ v, flat_map_sum acc txs utxos = Ok v →
     vb_ok v ∧ pools v = foldl add_pools (pools acc) (tx_pools (outputs_from_utxos utxos) <$> txs)) ∧
  no_panic (flat_map_sum acc txs utxos).
Proof.
  intros Htx Ho. revert acc. induction Htx as [|t txs Ht _ IH]; intros acc Ha Hok; cbn.
  - split; [|done]. by intros v [= <-].
  - apply Forall_cons in Hok as [Hv Hok].
    destruct (value_balance t utxos) as [b| |] eqn:Hb; [|done|done].
    apply value_balance_spec in Hb as [Hbok Hbp]; [|done|done]. split.
    + intros v Hr. res_inv. match goal with H : ValueBalance.add _ _ = Ok _ |- _ =>
        apply add_Ok in H as [Hx Hp]; [|done|done] end.
      apply IH in Hr as [Hr ->]; [|done|done]. by rewrite Hp, Hbp.
    + apply no_panic_bind; [by apply add_no_panic|]. intros x [Hx _]%add_Ok; [|done|done].
      by apply IH.
Qed.

Lemma foldl_tx_pools outs txs a b c d e :
  foldl add_pools [a; b; c; d; e] (tx_pools outs <$> txs) =
  [a + sum_Z ((fun t => transparent_in outs t - transparent_out t) <$> txs);
   b + sum_Z (sprout_value <$> txs); c + sum_Z (sapling_balance <$> txs);
   d + sum_Z (orchard_balance <$> txs); e].
Proof.
  revert a b c d e. induction txs as [|t txs IH]; intros; cbn; [by rewrite !Z.add_0_r|].
  rewrite Z.add_0_r, IH. by rewrite !Z.add_assoc.
Qed.

(** The entries of [transaction_outputs_from]. *)
Lemma transaction_outputs_from_spec {E} outs index hash txi height :
  0 ≤ index → index + Z.of_nat (length outs) ≤ 2 ^ 32 →
  transaction_outputs_from (E := E) index outs hash txi height =
  Ok (imap (fun k o => (mkOutPoint hash (index + Z.of_nat k), ordered_utxo_new o height txi)) outs).
Proof.
  revert index. induction outs as [|o outs IH]; intros index Hi Hl; cbn [transaction_outputs_from]; [done|].
  cbn [length] in Hl. rewrite try_from_fits by (apply fits_spec; cbn; lia).
  cbn [expect]. rewrite Ok_bind, IH, Ok_bind by lia. cbn [imap]. rewrite Z.add_0_r. f_equal. f_equal.
  apply imap_ext. intros k x _. unfold compose. do 2 f_equal. lia.
Qed.

Lemma extend_empty {K A} `{Countable K} (l : list (K * A)) :
  NoDup l.*1 → extend ∅ l = list_to_map l.
Proof.
  unfold extend. intros Hn.
  assert (Hg : ∀ m : gmap K A, (∀ k, k ∈ l.*1 → m !! k = None) →
    foldl (fun m kv => <[kv.1 := kv.2]> m) m l = list_to_map l ∪ m).
  { induction l as [|[k v] l IH]; intros m Hm; cbn; [by rewrite (left_id_L _ _)|].
    apply NoDup_cons in Hn as [Hk Hn]. rewrite IH; [|done|].
    - rewrite <- insert_union_l, insert_union_r; [done|]. by apply not_elem_of_list_to_map.
    - intros x Hx. rewrite lookup_insert_ne by (intros ->; done). apply Hm. by right. }
  rewrite Hg by (intros; apply lookup_empty). by rewrite (right_id_L _ _).
Qed.

(** The outputs of a transaction, by outpoint. *)
Lemma new_transaction_ordered_outputs_spec {E} t hash txi height :
  Z.of_nat (length (outputs t)) ≤ 2 ^ 32 →
  ∃ m, new_transaction_ordered_outputs (E := E) t hash txi height = Ok m ∧
    ∀ p u, m !! p = Some u ↔
      ∃ (k : nat) o, p = mkOutPoint hash (Z.of_nat k) ∧ outputs t !! k = Some o ∧
        u = ordered_utxo_new o height txi.
Proof.
  intros Hl. unfold new_transaction_ordered_outputs.
  rewrite transaction_outputs_from_spec, Ok_bind by lia. eexists. split; [done|].
  set (l := imap _ _).
  assert (Hn : NoDup l.*1).
  { apply NoDup_alt. intros i j x. unfold l. rewrite !list_lookup_fmap, !list_lookup_imap.
    destruct (outputs t !! i), (outputs t !! j); cbn; [|done..]. intros [= <-] [=]. lia. }
  rewrite extend_empty by done. intros p u. rewrite <- elem_of_list_to_map by done.
  unfold l. rewrite elem_of_lookup_imap. setoid_rewrite Z.add_0_l. naive_solver.
Qed.

(** [u] is the output that transaction number [j] creates at [p]. *)
Definition created_at (txs : list (Transaction * Hash)) (height : Height) (j : nat) (p : OutPoint)
    (u : OrderedUtxo) (i : Z) : Prop :=
  ∃ tx (k : nat) o, txs !! j = Some (tx, outpoint_hash p) ∧ outpoint_index p = Z.of_nat k ∧
    outputs tx !! k = Some o ∧ u = ordered_utxo_new o height (i + Z.of_nat j).

Lemma created_at_hash txs height j p u i : created_at txs height j p u i → outpoint_hash p ∈ txs.*2.
Proof.
  intros (tx & k & o & Ht & _). apply list_elem_of_fmap. exists (tx, outpoint_hash p).
  split; [done|]. eapply list_elem_of_lookup_2, Ht.
Qed.

Lemma ordered_outputs_from_spec {E} txs height i acc :
  NoDup txs.*2 → Forall (fun t => Z.of_nat (length (outputs t.1)) ≤ 2 ^ 32) txs →
  (∀ p u, acc !! p = Some u → outpoint_hash p ∉ txs.*2) →
  ∃ m, ordered_outputs_from (E := E) i txs height acc = Ok m ∧
    ∀ p u, m !! p = Some u ↔ acc !! p = Some u ∨ ∃ j, created_at txs height j p u i.
Proof.
  revert i acc. induction txs as [|[tx h] txs IH]; intros i acc Hn Hl Hacc; cbn [ordered_outputs_from].
  { exists acc. split; [done|]. intros p u. split; [auto|]. intros [?|(j & ? & ? & ? & [=] & _)]. done. }
  apply NoDup_cons in Hn as [Hh Hn]. apply Forall_cons in Hl as [Hl Hls].
  destruct (new_transaction_ordered_outputs_spec (E := E) tx h i height Hl) as (m0 & -> & Hm0).
  rewrite Ok_bind.
  assert (Hkey : ∀ p u, m0 !! p = Some u → outpoint_hash p = h) by naive_solver.
  destruct (IH (i + 1) (m0 ∪ acc)) as (m & -> & Hm); [done|done| |].
  { intros p u [Hp|[_ Hp]]%lookup_union_Some_raw; [by rewrite (Hkey p u Hp)|].
    specialize (Hacc _ _ Hp). cbn in Hacc. set_solver. }
  exists m. split; [done|]. intros p u. rewrite Hm, lookup_union_Some_raw. split.
  - intros [[Hp|[_ Hp]]|(j & tx' & k & o & Ht & Hk & Ho & ->)]; [|by left|].
    + right. exists 0%nat. apply Hm0 in Hp as (k & o & -> & Ho & ->). exists tx, k, o.
      rewrite Z.add_0_r. done.
    + right. exists (S j), tx', k, o. split_and!; [done..|]. f_equal. lia.
  - intros [Hp|(j & tx' & k & o & Ht & Hk & Ho & ->)].
    + left. right. split; [|done]. destruct (m0 !! p) eqn:Hp0; [|done].
      apply Hkey in Hp0. apply Hacc in Hp. cbn in Hp. set_solver.
    + destruct j as [|j]; cbn in Ht.
      * injection Ht as -> ->. left. left. apply Hm0. exists k, o.
        rewrite Z.add_0_r. destruct p as [ph pi]. cbn in *. by subst.
      * right. exists j, tx', k, o. split_and!; [done..|]. f_equal. lia.
Qed.

(** The chain value pool change of a block whose value balances are defined. *)
Lemma chain_value_pool_change_spec (b : Block) (utxos : gmap OutPoint Utxo) (deferred_change : option DeferredPoolBalanceChange)
    (outs := outputs_from_utxos utxos) (txs := transactions b) :
  Forall tx_ok txs → outs_ok outs → Forall (fun t => is_ok (value_balance t utxos) = true) txs →
  no_panic (chain_value_pool_change b utxos deferred_change) ∧
  ∀ c, chain_value_pool_change b utxos deferred_change = Ok c →
    pools c = [sum_Z ((fun t => transparent_out t - transparent_in outs t) <$> txs);
               - sum_Z (sprout_value <$> txs);
               - sum_Z (sapling_balance <$> txs);
               - sum_Z (orchard_balance <$> txs);
               from_option zatoshis 0 deferred_change].
Proof.
  intros Htx Ho Hok. unfold chain_value_pool_change. rewrite vb_zero_spec, Ok_bind.
  destruct (flat_map_sum_spec txs utxos _ Htx Ho vb_zero_ok Hok) as [Hs Hn].
  rewrite Amount.zero_spec. split.
  - apply no_panic_bind; [done|]. intros v [Hv _]%Hs.
    destruct (vb_neg_spec v Hv) as (w & -> & _). done.
  - intros c Hc. apply bind_Ok in Hc as (v & [Hv Hp]%Hs & Hc).
    destruct (vb_neg_spec v Hv) as (w & Hw & _ & Hwp). rewrite Hw in Hc. cbn in Hc. injection Hc as <-.
    rewrite Hp in Hwp. unfold pools at 2 in Hwp. cbn [zatoshis transparent sprout sapling orchard deferred] in Hwp.
    rewrite foldl_tx_pools in Hwp. unfold pools in Hwp |- *. cbn in Hwp |- *. injection Hwp as H1 H2 H3 H4 H5.
    rewrite H1, H2, H3, H4. f_equal; [|by destruct deferred_change].
    fold outs. subst txs. clearbody outs. clear.
    induction (transactions b) as [|t l IH]; cbn in *; lia.
Qed.

(** ** Properties *)

(** the value a block moves between the chain value pools is conserved.
    When the value balance of every transaction is defined, the block's chain
    value pool change adds to the transparent pool exactly the outputs created
    minus the outputs spent, to the Sprout pool the [vpub_old] minus [vpub_new]
    of its JoinSplits, to the Sapling and Orchard pools the opposite of the
    value balances, and to the deferred pool the given change; and neither the
    value balance of a transaction whose spent outputs are known nor the block's
    change panics. *)
Theorem block_value_conserved (b : Block) (utxos : gmap OutPoint Utxo)
    (deferred_change : option DeferredPoolBalanceChange) :
  let outs := outputs_from_utxos utxos in
  let txs := transactions b in
  Forall tx_ok txs → outs_ok outs →
  (Forall (inputs_known outs) txs → Forall (fun t => no_panic (value_balance t utxos)) txs) ∧
  (Forall (fun t => is_ok (value_balance t utxos) = true) txs →
   no_panic (chain_value_pool_change b utxos deferred_change) ∧
   ∀ c, chain_value_pool_change b utxos deferred_change = Ok c →
     pools c = [sum_Z ((fun t => transparent_out t - transparent_in outs t) <$> txs);
                - sum_Z (sprout_value <$> txs);
                - sum_Z (sapling_balance <$> txs);
                - sum_Z (orchard_balance <$> txs);
                from_option zatoshis 0 deferred_change]).
Proof.
  intros outs txs Htx Ho. split.
  { intros Hk. apply Forall_forall. intros t Hin. eapply Forall_forall in Hk; [|exact Hin].
    eapply Forall_forall in Htx; [|exact Hin]. by apply value_balance_spec. }
  intros Hok. by apply chain_value_pool_change_spec.
Qed.

Lemma block_value_conserved_witness :
  let p := mkOutPoint [1] 0 in
  let o v := mkOutput (mkAmount v) [] in
  let t := V4 [PrevOut p [] 0] [o 30; o 20] unlocked 0
              (Some (mkJoinSplitData (mkJoinSplit (mkAmount 25) (mkAmount 5) [] [] [] [] [] [] [] []) [] [] [])) None in
  let b := mkBlock (mkHeader 4 [] [] [] 0 0 [] (Common [])) [t] in
  pools (mkValueBalance (mkAmount (-50)) (mkAmount 20) (mkAmount 0) (mkAmount 0)
           (mkAmount 0) : ValueBalance NegativeAllowed)
  = [sum_Z ((fun t => transparent_out t - transparent_in {[p := o 100]} t) <$> [t]);
     - sum_Z (sprout_value <$> [t]); - sum_Z (sapling_balance <$> [t]);
     - sum_Z (orchard_balance <$> [t]); 0].
Proof.
  intros p o t b.
  refine (proj2 (proj2 (block_value_conserved b {[p := mkUtxo (o 100) 0 false]} None _ _) _) _ _).
  - repeat constructor.
  - intros k out Hk. unfold outputs_from_utxos in Hk. rewrite map_fmap_singleton in Hk.
    apply lookup_singleton_Some in Hk as [_ <-]. reflexivity.
  - constructor; [|constructor]. vm_compute. reflexivity.
  - vm_compute. reflexivity.
Defined.

(** [new_ordered_outputs] indexes exactly the outputs of the block's
    transactions: every output under the hash of its transaction and its
    position in it, with the block's height, the transaction's position, and
    marked as a coinbase output when its transaction is the first one. *)
Theorem new_ordered_outputs_exact (b : Block) (hashes : list Hash) (height : Height) :
  let txs := zip (transactions b) hashes in
  coinbase_height b = Some height →
  NoDup txs.*2 → Forall (fun t => Z.of_nat (length (outputs t)) ≤ 2 ^ 32) (transactions b) →
  ∃ m, new_ordered_outputs (E := Empty_set) b hashes = Ok m ∧
    ∀ p u, m !! p = Some u ↔
      ∃ (j k : nat) tx o, txs !! j = Some (tx, outpoint_hash p) ∧ outpoint_index p = Z.of_nat k ∧
        outputs tx !! k = Some o ∧
        u = mkOrderedUtxo (mkUtxo o height (bool_decide (j = 0%nat))) (Z.of_nat j).
Proof.
  intros txs Hh Hn Hl. unfold new_ordered_outputs. rewrite Hh. cbn [expect]. rewrite Ok_bind.
  destruct (ordered_outputs_from_spec (E := Empty_set) txs height 0 ∅ Hn) as (m & Hm & Hl').
  - apply Forall_forall. intros [t h] Hin. eapply Forall_forall in Hl; [exact Hl|].
    by apply elem_of_zip_l in Hin.
  - intros p u Hp. by rewrite lookup_empty in Hp.
  - exists m. split; [exact Hm|]. intros p u. rewrite Hl', lookup_empty. unfold created_at, ordered_utxo_new.
    setoid_rewrite Z.add_0_l.
    assert (Hj : ∀ j : nat, (Z.of_nat j =? 0) = bool_decide (j = 0%nat)).
    { intros j. case_bool_decide; lia. }
    setoid_rewrite Hj. naive_solver.
Qed.

Lemma new_ordered_outputs_exact_witness :
  let t := V5 Nu5 unlocked 0 [Coinbase 7 [] 0] [mkOutput (mkAmount 3) []] None None in
  ∃ m, new_ordered_outputs (E := Empty_set) (mkBlock (mkHeader 4 [] [] [] 0 0 [] (Common [])) [t]) [[9]] = Ok m.
Proof.
  intros t. destruct (new_ordered_outputs_exact (mkBlock (mkHeader 4 [] [] [] 0 0 [] (Common [])) [t]) [[9]] 7) as (m & Hm & _).
  - reflexivity.
  - apply NoDup_singleton.
  - constructor; [vm_compute; discriminate|constructor].
  - exists m. exact Hm.
Defined.

(** a transaction whose value balance is an error does not make its block's
    chain value pool change an error: [flat_map] skips it. The coinbase
    transaction below creates twice [MAX_MONEY], and the block changes no pool. *)
Theorem failed_value_balance_skipped :
  let o := mkOutput (mkAmount MAX_MONEY) [] in
  let t := V4 [Coinbase 1 [] 0] [o; o] unlocked 0 None None in
  tx_ok t ∧
  value_balance t ∅ = Err (Transparent (SumOverflow (2 * MAX_MONEY) 0)) ∧
  ∃ c, chain_value_pool_change (mkBlock (mkHeader 4 [] [] [] 0 0 [] (Common [])) [t]) ∅ None = Ok c ∧
    pools c = [0; 0; 0; 0; 0].
Proof.
  intros o t. split; [|split].
  - split; [repeat constructor|constructor|done|done].
  - vm_compute. reflexivity.
  - exists (mkValueBalance (mkAmount 0) (mkAmount 0) (mkAmount 0) (mkAmount 0) (mkAmount 0)).
    split; [vm_compute; reflexivity|done].
Qed.
