(* ===== verification/Merkle.v ===== *)
(** * Merkle roots of blocks

    The transaction Merkle tree and the authorizing data tree of
    [zebra-chain/src/block/merkle.rs], with the double hash of
    [zebra-chain/src/serialization/sha256d.rs]. The two hash functions are
    library code: they are the operations of the class [HashFns], without any
    law. The binding theorems therefore do not assume that they are injective,
    which no function to 32 bytes is: they say that two lists with one root
    are equal or that two of the inputs hashed for these roots collide. *)

From S2P Require Import Prelude Transaction.

Class HashFns := {
  sha256 : list Z → list Z;
  blake2b_256 : (* personalization *) list Z → list Z → list Z;
}.

Section Merkle.
Context `{HF : !HashFns}.

(** [sha256d::Writer::finish]. *)
Definition sha256d (bytes : list Z) : list Z := sha256 (sha256 bytes).

(** [hash] and [auth_data_hash]; the personalization is "ZcashAuthDatHash". *)
Definition merkle_hash (h1 h2 : Hash) : Hash := sha256d (h1 ++ h2).
Definition ZcashAuthDatHash : list Z :=
  [90; 99; 97; 115; 104; 65; 117; 116; 104; 68; 97; 116; 72; 97; 115; 104].
Definition auth_data_hash (h1 h2 : Hash) : Hash := blake2b_256 ZcashAuthDatHash (h1 ++ h2).

(** One round of the loop of [Root::from_iter]: [chunks(2)]. *)
Fixpoint root_round (hashes : list Hash) : list Hash :=
  match hashes with
  | h1 :: h2 :: hashes => merkle_hash h1 h2 :: root_round hashes
  | [h1] => [merkle_hash h1 h1]
  | [] => []
  end.

(** The loop [while hashes.len() > 1]. The fuel is the number of hashes, and
    every round makes a list of two or more hashes shorter. *)
Fixpoint root_loop (fuel : nat) (hashes : list Hash) : option (list Hash) :=
  if decide (length hashes ≤ 1)%nat then Some hashes
  else match fuel with
       | O => None
       | S fuel => root_loop fuel (root_round hashes)
       end.

(** [Root::from_iter] of transaction hashes. *)
Definition merkle_root_of (hashes : list Hash) : Run Hash :=
  hashes ← expect (root_loop (length hashes) hashes);
  expect (head hashes).

(** [AuthDataRoot::from_iter] of authorizing data digests. *)
Fixpoint auth_round {E} (hashes : list Hash) : Res E (list Hash) :=
  match hashes with
  | h1 :: h2 :: hashes => rest ← auth_round hashes; Ok (auth_data_hash h1 h2 :: rest)
  | [_] => Panic
  | [] => Ok []
  end.

Fixpoint auth_loop (fuel : nat) (hashes : list Hash) : Run (list Hash) :=
  if decide (length hashes ≤ 1)%nat then Ok hashes
  else match fuel with
       | O => Panic
       | S fuel => hashes ← auth_round hashes; auth_loop fuel hashes
       end.

Definition is_power_of_two (n : Z) : bool := (0 <? n) && (n =? 2 ^ Z.log2 n).
Definition next_power_of_two (n : Z) : Z := 2 ^ Z.log2_up n.

Definition auth_data_root_of (hashes : list Hash) : Run Hash :=
  let len := Z.of_nat (length hashes) in
  let pad_count := next_power_of_two len - len in
  let hashes := hashes ++ replicate (Z.to_nat pad_count) (replicate 32 0) in
  _ ← assert (is_power_of_two (Z.of_nat (length hashes)));
  hashes ← auth_loop (length hashes) hashes;
  expect (head hashes).

(** [AUTH_DIGEST_PLACEHOLDER], and the root of the transactions of a block,
    some of which have no digest. *)
Definition AUTH_DIGEST_PLACEHOLDER : Hash := replicate 32 0xFF.
Definition auth_data_root_from (digests : list (option Hash)) : Run Hash :=
  auth_data_root_of (default AUTH_DIGEST_PLACEHOLDER <$> digests).

(** ** The inputs hashed for a root *)

(** The pairs hashed in a round. *)
Fixpoint pairs (hashes : list Hash) : list (Hash * Hash) :=
  match hashes with
  | h1 :: h2 :: hashes => (h1, h2) :: pairs hashes
  | [h1] => [(h1, h1)]
  | [] => []
  end.

(** The pairs hashed for the root. *)
Fixpoint hashed (fuel : nat) (hashes : list Hash) : list (Hash * Hash) :=
  if decide (length hashes ≤ 1)%nat then []
  else match fuel with
       | O => []
       | S fuel => pairs hashes ++ hashed fuel (root_round hashes)
       end.
Definition root_inputs (hashes : list Hash) : list (Hash * Hash) := hashed (length hashes) hashes.

(** Two different inputs among the given ones with one output. *)
Definition collision (f : Hash → Hash → Hash) (l : list (Hash * Hash)) : Prop :=
  ∃ p q, p ∈ l ∧ q ∈ l ∧ p ≠ q ∧ f p.1 p.2 = f q.1 q.2.

(** An element of [l] is the output of one of the inputs [ps]. *)
Definition inner_node (l : list Hash) (ps : list (Hash * Hash)) : Prop :=
  ∃ x p, x ∈ l ∧ p ∈ ps ∧ x = merkle_hash p.1 p.2.

(** *** Rounds *)

Lemma pairs_ind (P : list Hash → Prop) :
  P [] → (∀ a, P [a]) → (∀ a b l, P l → P (a :: b :: l)) → ∀ l, P l.
Proof.
  intros H0 H1 H2 l. cut (P l ∧ ∀ a, P (a :: l)); [tauto|].
  induction l as [|b l [IH1 IH2]]; split; auto.
Qed.

Lemma root_round_pairs l : root_round l = (λ p, merkle_hash p.1 p.2) <$> pairs l.
Proof. induction l using pairs_ind; cbn; congruence. Qed.

Lemma length_pairs l : length (pairs l) = Nat.div2 (S (length l)).
Proof. induction l as [| |a b l IH] using pairs_ind; cbn [pairs length]; [done..|]. by rewrite IH. Qed.

Lemma length_root_round l : length (root_round l) = Nat.div2 (S (length l)).
Proof. by rewrite root_round_pairs, length_fmap, length_pairs. Qed.

Lemma round_shorter l : (2 ≤ length l)%nat → (1 ≤ length (root_round l) < length l)%nat.
Proof.
  rewrite length_root_round. generalize (length l). intros n Hn.
  pose proof (Nat.div2_odd (S n)). destruct (Nat.odd (S n)); cbn [Nat.b2n] in *; lia.
Qed.

Lemma pairs_elem l p : p ∈ pairs l → p.1 ∈ l ∧ p.2 ∈ l.
Proof.
  induction l as [|a|a b l IH] using pairs_ind; cbn [pairs]; rewrite ?elem_of_cons, ?elem_of_nil; [done|..].
  - intros [->|[]]. cbn. auto.
  - intros [->|Hp]; cbn; [auto|]. destruct (IH Hp). auto.
Qed.

(** Pairs of distinct hashes are distinct, and determine the list. *)
Lemma pairs_NoDup l : NoDup l → NoDup (pairs l).
Proof.
  induction l as [|a|a b l IH] using pairs_ind; cbn [pairs]; intros Hl; [constructor|by apply NoDup_singleton|].
  apply NoDup_cons in Hl as [Ha [Hb Hl]%NoDup_cons]. apply NoDup_cons. split; [|auto].
  intros [H1 _]%pairs_elem. apply Ha, elem_of_cons. auto.
Qed.

Lemma pairs_inj l : ∀ l', NoDup l → NoDup l' → pairs l = pairs l' → l = l'.
Proof.
  induction l as [|a|a b l IH] using pairs_ind; intros [|a' [|b' l']] Hl Hl'; cbn [pairs]; intros Heq; simplify_eq; auto.
  - apply NoDup_cons in Hl' as [Ha _]. exfalso. apply Ha, elem_of_cons. auto.
  - apply NoDup_cons in Hl as [Ha _]. exfalso. apply Ha, elem_of_cons. auto.
  - apply NoDup_cons in Hl as [_ [_ Hl]%NoDup_cons]. apply NoDup_cons in Hl' as [_ [_ Hl']%NoDup_cons].
    by rewrite (IH l').
Qed.

(** *** The loop *)

Lemma root_loop_total fuel : ∀ l, l ≠ [] → (length l ≤ fuel)%nat → ∃ r, root_loop fuel l = Some [r].
Proof.
  induction fuel as [|fuel IH]; intros l Hl Hf; (destruct l as [|a [|b l]]; [done|by exists a|]).
  - cbn in Hf. lia.
  - cbn [root_loop]. rewrite decide_False by (cbn; lia).
    destruct (round_shorter (a :: b :: l)) as [H1 H2]; [cbn; lia|].
    apply IH; [|lia]. intros Hn. rewrite Hn in H1. cbn in H1. lia.
Qed.

Lemma root_loop_round fuel l : (2 ≤ length l)%nat → root_loop (S fuel) l = root_loop fuel (root_round l).
Proof. intros Hl. cbn [root_loop]. by rewrite decide_False by lia. Qed.

Lemma hashed_round fuel l : (2 ≤ length l)%nat → hashed (S fuel) l = pairs l ++ hashed fuel (root_round l).
Proof. intros Hl. cbn [hashed]. by rewrite decide_False by lia. Qed.

(** Inputs hashed above a list: each part of one is in the list or is the output of another. *)
Lemma hashed_parts fuel : ∀ l p x, p ∈ hashed fuel l → x = p.1 ∨ x = p.2 →
  x ∈ l ∨ ∃ q, q ∈ hashed fuel l ∧ x = merkle_hash q.1 q.2.
Proof.
  induction fuel as [|fuel IH]; intros l p x; cbn [hashed]; destruct (decide _) as [|Hl];
    try (by intros ?%elem_of_nil).
  rewrite elem_of_app. intros [Hp|Hp] Hx.
  - apply pairs_elem in Hp as [H1 H2]. left. by destruct Hx as [-> | ->].
  - right. destruct (IH _ _ _ Hp Hx) as [Hin|(q & Hq & ->)].
    + rewrite root_round_pairs in Hin. apply list_elem_of_fmap in Hin as (q & -> & Hq).
      exists q. rewrite elem_of_app. auto.
    + exists q. rewrite elem_of_app. auto.
Qed.

Lemma collision_mono f l l' : l ⊆ l' → collision f l → collision f l'.
Proof. intros Hs (p & q & Hp & Hq & H). exists p, q. auto. Qed.

(** Without collisions, hashing a list of distinct inputs gives distinct outputs, and
    equal outputs come from equal inputs. *)
Lemma map_inj_or_collision f (l : list (Hash * Hash)) : ∀ l', (λ p, f p.1 p.2) <$> l = (λ p, f p.1 p.2) <$> l' →
  l = l' ∨ collision f (l ++ l').
Proof.
  induction l as [|p l IH]; intros [|p' l']; [by left|done|done|]. cbn. intros [= Hp Hl].
  destruct (decide (p = p')) as [->|Hne].
  - destruct (IH _ Hl) as [->|Hc]; [by left|]. right. eapply collision_mono; [|exact Hc]. set_solver.
  - right. exists p, p'. set_solver.
Qed.

Lemma map_NoDup_or_collision f (l : list (Hash * Hash)) :
  NoDup l → NoDup ((λ p, f p.1 p.2) <$> l) ∨ collision f l.
Proof.
  induction 1 as [|p l Hp _ IH]; [left; constructor|].
  destruct IH as [IH|Hc]; [|right; eapply collision_mono; [|exact Hc]; set_solver].
  destruct (decide (f p.1 p.2 ∈ (λ p, f p.1 p.2) <$> l)) as [Hin|Hin].
  - right. apply list_elem_of_fmap in Hin as (q & Hq & Hin). exists p, q.
    split; [set_solver|]. split; [set_solver|]. split; [by intros -> |done].
  - left. by constructor.
Qed.

(** What it takes for two lists to have one root. *)
Definition ambiguous (l l' : list Hash) (ps ps' : list (Hash * Hash)) : Prop :=
  collision merkle_hash (ps ++ ps') ∨ inner_node l ps' ∨ inner_node l' ps.

Lemma ambiguous_round l l' ps ps' : (∀ p, p ∈ ps → ∀ x, x = p.1 ∨ x = p.2 →
    x ∈ root_round l ∨ ∃ q, q ∈ ps ∧ x = merkle_hash q.1 q.2) →
  (∀ p, p ∈ ps' → ∀ x, x = p.1 ∨ x = p.2 → x ∈ root_round l' ∨ ∃ q, q ∈ ps' ∧ x = merkle_hash q.1 q.2) →
  ambiguous (root_round l) (root_round l') ps ps' → ambiguous l l' (pairs l ++ ps) (pairs l' ++ ps').
Proof.
  assert (Hone : ∀ k k' qs qs', (∀ p, p ∈ qs' → ∀ x, x = p.1 ∨ x = p.2 →
      x ∈ root_round k' ∨ ∃ q, q ∈ qs' ∧ x = merkle_hash q.1 q.2) → inner_node (root_round k) qs' →
      collision merkle_hash ((pairs k ++ qs) ++ (pairs k' ++ qs')) ∨ inner_node k (pairs k' ++ qs')).
  { intros k k' qs qs' Hparts (x & p & Hx & Hp & ->). rewrite root_round_pairs in Hx.
    apply list_elem_of_fmap in Hx as (q & Hq & Hin). destruct (decide (p = q)) as [<-|Hne].
    - right. apply pairs_elem in Hin as [Hin _]. exists p.1.
      destruct (Hparts _ Hp p.1) as [Hr|(r & Hr & Hx)]; [auto|..].
      + rewrite root_round_pairs in Hr. apply list_elem_of_fmap in Hr as (r & Hx & Hr). exists r. set_solver.
      + exists r. set_solver.
    - left. exists p, q. set_solver. }
  intros Hps Hps' [Hc|[Hi|Hi]].
  - left. eapply collision_mono; [|exact Hc]. set_solver.
  - destruct (Hone l l' ps ps' Hps' Hi); [by left|right; by left].
  - destruct (Hone l' l ps' ps Hps Hi) as [Hc|]; [|right; by right].
    left. eapply collision_mono; [|exact Hc]. set_solver.
Qed.

Lemma root_round_NoDup l : NoDup l → NoDup (root_round l) ∨ collision merkle_hash (pairs l).
Proof. intros Hl. rewrite root_round_pairs. by apply map_NoDup_or_collision, pairs_NoDup. Qed.

Lemma root_loop_last fuel : ∀ l r, (2 ≤ length l)%nat → root_loop fuel l = Some [r] →
  ∃ p, p ∈ hashed fuel l ∧ r = merkle_hash p.1 p.2.
Proof.
  induction fuel as [|fuel IH]; intros l r Hl Hr.
  - cbn in Hr. by rewrite decide_False in Hr by lia.
  - rewrite root_loop_round in Hr by done. rewrite hashed_round by done.
    destruct (decide (2 ≤ length (root_round l))%nat) as [H2|H2].
    + destruct (IH _ _ H2 Hr) as (p & Hp & ->). exists p. set_solver.
    + assert (Hrr : root_round l = [r]).
      { destruct fuel; cbn in Hr; rewrite decide_True in Hr by lia; congruence. }
      rewrite root_round_pairs in Hrr. destruct (pairs l) as [|p [|??]]; simplify_eq/=. exists p. set_solver.
Qed.

Lemma root_loop_short fuel l : (length l ≤ 1)%nat → root_loop fuel l = Some l.
Proof. intros Hl. by destruct fuel; cbn [root_loop]; rewrite decide_True by done. Qed.

Lemma same_root fuel : ∀ fuel' l l' r, (length l ≤ fuel)%nat → (length l' ≤ fuel')%nat →
  NoDup l → NoDup l' → root_loop fuel l = Some [r] → root_loop fuel' l' = Some [r] →
  l = l' ∨ ambiguous l l' (hashed fuel l) (hashed fuel' l').
Proof.
  induction fuel as [|fuel IH]; intros fuel' l l' r Hf Hf' Hl Hl' Hr Hr'.
  { destruct l; [done|cbn in Hf; lia]. }
  destruct (decide (2 ≤ length l)%nat) as [H2|H2], (decide (2 ≤ length l')%nat) as [H2'|H2'].
  - destruct fuel' as [|fuel']; [lia|]. rewrite root_loop_round in Hr, Hr' by done.
    rewrite !hashed_round by done. pose proof (round_shorter l H2). pose proof (round_shorter l' H2').
    destruct (root_round_NoDup l Hl) as [Hd|Hc];
      [|right; left; eapply collision_mono; [|exact Hc]; set_solver].
    destruct (root_round_NoDup l' Hl') as [Hd'|Hc];
      [|right; left; eapply collision_mono; [|exact Hc]; set_solver].
    destruct (IH fuel' (root_round l) (root_round l') r ltac:(lia) ltac:(lia) Hd Hd' Hr Hr') as [Heq|Ham].
    + rewrite !root_round_pairs in Heq. destruct (map_inj_or_collision _ _ _ Heq) as [Hp|Hc].
      * left. by apply pairs_inj.
      * right. left. eapply collision_mono; [|exact Hc]. set_solver.
    + right. apply ambiguous_round; [| |done]; intros p Hp x; by apply hashed_parts.
  - rewrite (root_loop_short fuel' l') in Hr' by lia. simplify_eq. right. right. right.
    destruct (root_loop_last _ _ _ H2 Hr) as (p & Hp & ->). exists (merkle_hash p.1 p.2), p. set_solver.
  - rewrite (root_loop_short (S fuel) l) in Hr by lia. simplify_eq. right. right. left.
    destruct (root_loop_last _ _ _ H2' Hr') as (p & Hp & ->). exists (merkle_hash p.1 p.2), p. set_solver.
  - rewrite root_loop_short in Hr, Hr' by lia. left. congruence.
Qed.

Lemma merkle_root_of_Ok l r : merkle_root_of l = Ok r ↔ l ≠ [] ∧ root_loop (length l) l = Some [r].
Proof.
  unfold merkle_root_of. destruct l as [|a l]; [by split; [|intros []]|].
  destruct (root_loop_total (length (a :: l)) (a :: l)) as (r' & ->); [done|lia|].
  cbn. split; [intros [= ->]; done|intros [_ [= ->]]; done].
Qed.

Lemma merkle_root_binds l l' r : NoDup l → NoDup l' → merkle_root_of l = Ok r → merkle_root_of l' = Ok r →
  l = l' ∨ ambiguous l l' (root_inputs l) (root_inputs l').
Proof.
  intros Hl Hl' [_ Hr]%merkle_root_of_Ok [_ Hr']%merkle_root_of_Ok. by apply (same_root _ _ l l' r).
Qed.

(** *** Full trees *)

Definition auth_node (p : Hash * Hash) : Hash := auth_data_hash p.1 p.2.

(** The pairs hashed for a full tree of height [k]. *)
Fixpoint full_inputs (k : nat) (hashes : list Hash) : list (Hash * Hash) :=
  match k with
  | O => []
  | S k => pairs hashes ++ full_inputs k (auth_node <$> pairs hashes)
  end.

Definition padded (hashes : list Hash) : list Hash :=
  hashes ++ replicate (Z.to_nat (next_power_of_two (Z.of_nat (length hashes)) - Z.of_nat (length hashes)))
              (replicate 32 0).
Definition tree_height (hashes : list Hash) : nat := Z.to_nat (Z.log2_up (Z.of_nat (length hashes))).
Definition auth_inputs (hashes : list Hash) : list (Hash * Hash) :=
  full_inputs (tree_height hashes) (padded hashes).

Lemma auth_round_even {E} l : ∀ n, length l = (2 * n)%nat → auth_round (E := E) l = Ok (auth_node <$> pairs l).
Proof.
  induction l as [|a|a b l IH] using pairs_ind; intros n Hn; cbn in Hn |- *; [done|lia|].
  by rewrite (IH (n - 1)%nat) by lia.
Qed.

Lemma length_full_round k l : length l = (2 ^ S k)%nat → length (auth_node <$> pairs l) = (2 ^ k)%nat.
Proof. intros Hl. rewrite length_fmap, length_pairs, Hl, Nat.pow_succ_r'. apply Nat.div2_succ_double. Qed.

Lemma pow2_pos k : (1 ≤ 2 ^ k)%nat.
Proof. pose proof (Nat.pow_nonzero 2 k). lia. Qed.

Lemma auth_loop_full k : ∀ fuel l, (k ≤ fuel)%nat → length l = (2 ^ k)%nat → ∃ r, auth_loop fuel l = Ok [r].
Proof.
  induction k as [|k IH]; intros fuel l Hf Hl.
  - destruct l as [|r [|]]; cbn in Hl; try lia. exists r. by destruct fuel.
  - destruct fuel as [|fuel]; [lia|]. pose proof (pow2_pos k). cbn [auth_loop].
    rewrite decide_False by (rewrite Hl, Nat.pow_succ_r'; lia).
    rewrite (auth_round_even _ (2 ^ k)) by (by rewrite Hl, Nat.pow_succ_r'). rewrite Ok_bind.
    apply IH; [lia|]. by apply length_full_round.
Qed.

Lemma pairs_even_inj l : ∀ l', length l = length l' → pairs l = pairs l' → l = l'.
Proof.
  induction l as [|a|a b l IH] using pairs_ind; intros [|a' [|b' l']] Hl; cbn in Hl |- *; intros Heq;
    simplify_eq; try done. f_equal. f_equal. by apply IH.
Qed.

Lemma auth_loop_inj k : ∀ fuel l l', (k ≤ fuel)%nat → length l = (2 ^ k)%nat → length l' = (2 ^ k)%nat →
  auth_loop fuel l = auth_loop fuel l' → l = l' ∨ collision auth_data_hash (full_inputs k l ++ full_inputs k l').
Proof.
  induction k as [|k IH]; intros fuel l l' Hf Hl Hl' Heq.
  - destruct l as [|r [|]], l' as [|r' [|]]; cbn in Hl, Hl'; try lia. left; destruct fuel; by injection Heq as ->.
  - destruct fuel as [|fuel]; [lia|]. pose proof (pow2_pos k). cbn [auth_loop full_inputs] in *.
    rewrite !decide_False in Heq by (rewrite ?Hl, ?Hl', Nat.pow_succ_r'; lia).
    rewrite (auth_round_even l (2 ^ k)) in Heq by (by rewrite Hl, Nat.pow_succ_r').
    rewrite (auth_round_even l' (2 ^ k)) in Heq by (by rewrite Hl', Nat.pow_succ_r').
    rewrite !Ok_bind in Heq. apply IH in Heq as [Heq|Hc]; [..|lia|by apply length_full_round|by apply length_full_round].
    + destruct (map_inj_or_collision auth_data_hash _ _ Heq) as [Hp|Hc].
      * left. apply pairs_even_inj; [congruence|done].
      * right. eapply collision_mono; [|exact Hc]. set_solver.
    + right. eapply collision_mono; [|exact Hc]. set_solver.
Qed.

Lemma length_padded l : length (padded l) = (2 ^ tree_height l)%nat.
Proof.
  unfold padded, tree_height, next_power_of_two. rewrite length_app, length_replicate.
  pose proof (Z.log2_up_nonneg (Z.of_nat (length l))).
  assert (Z.of_nat (length l) ≤ 2 ^ Z.log2_up (Z.of_nat (length l))).
  { destruct l; [cbn; lia|]. by apply Z.log2_log2_up_spec. }
  apply Nat2Z.inj. rewrite Nat2Z.inj_add, Nat2Z.inj_pow, !Z2Nat.id by lia. lia.
Qed.

Lemma auth_data_root_of_padded l :
  auth_data_root_of l = hashes ← auth_loop (length (padded l)) (padded l); expect (head hashes).
Proof.
  unfold auth_data_root_of. fold (padded l). unfold is_power_of_two, assert.
  assert (Hp : Z.of_nat (length (padded l)) = 2 ^ Z.of_nat (tree_height l)) by (by rewrite length_padded, Nat2Z.inj_pow).
  rewrite Hp, Z.log2_pow2, Z.eqb_refl, andb_true_r by lia.
  rewrite (proj2 (Z.ltb_lt _ _)) by lia. by rewrite Ok_bind.
Qed.

Lemma height_fuel l : (tree_height l ≤ length (padded l))%nat.
Proof. rewrite length_padded. pose proof (Nat.pow_gt_lin_r 2 (tree_height l)). lia. Qed.

Lemma auth_data_root_Ok l : ∃ r, auth_data_root_of l = Ok r.
Proof.
  rewrite auth_data_root_of_padded.
  destruct (auth_loop_full (tree_height l) (length (padded l)) (padded l)) as (r & ->);
    [apply height_fuel|apply length_padded|by exists r].
Qed.

(** both Merkle roots are always computed: the loops end within the number of
    hashes as fuel, the transaction root panics exactly on an empty list, and the
    authorizing data root, whose tree is padded to a power of two, on no list. *)
Theorem merkle_roots_total (hashes : list Hash) :
  (merkle_root_of hashes = Panic ↔ hashes = []) ∧ no_panic (auth_data_root_of hashes).
Proof.
  split.
  - destruct hashes as [|h hashes]; [done|]. unfold merkle_root_of.
    destruct (root_loop_total (length (h :: hashes)) (h :: hashes)) as (r & ->); done.
  - unfold no_panic. by destruct (auth_data_root_Ok hashes) as [r ->].
Qed.

(** the authorizing data root binds the digests of a block: two lists of as many
    digests with one root are equal, or two different inputs hashed for the two roots
    have the same hash. *)
Theorem auth_data_root_binds (hashes hashes' : list Hash) (Hlen : length hashes = length hashes')
    (Hroot : auth_data_root_of hashes = auth_data_root_of hashes') :
  hashes = hashes' ∨ collision auth_data_hash (auth_inputs hashes ++ auth_inputs hashes').
Proof.
  rewrite !auth_data_root_of_padded in Hroot. unfold auth_inputs.
  pose proof (length_padded hashes) as Hp. pose proof (length_padded hashes') as Hp'.
  assert (Hh : tree_height hashes' = tree_height hashes) by (unfold tree_height; by rewrite Hlen).
  rewrite Hh in Hp' |- *. rewrite Hp, Hp' in Hroot. pose proof (height_fuel hashes) as Hf. rewrite Hp in Hf.
  destruct (auth_loop_inj _ _ _ _ Hf Hp Hp') as [Heq|Hc]; [|left|by right].
  - destruct (auth_loop_full _ _ _ Hf Hp) as (r & Hr), (auth_loop_full _ _ _ Hf Hp') as (r' & Hr').
    rewrite Hr, Hr' in Hroot |- *. cbn in Hroot. congruence.
  - unfold padded in Heq. by apply app_inj_1 in Heq as [? _].
Qed.

End Merkle.

(** *** An instance: hashes that keep their input *)

#[local] Instance sample_hashes : HashFns := {| sha256 bytes := bytes; blake2b_256 p bytes := p ++ bytes |}.

Lemma auth_data_root_binds_witness :
  [[1]; [2]; [3]] = [[1]; [2]; [3]] ∨
  collision auth_data_hash (auth_inputs [[1]; [2]; [3]] ++ auth_inputs [[1]; [2]; [3]]).
Proof. apply (auth_data_root_binds [[1]; [2]; [3]] [[1]; [2]; [3]]); reflexivity. Defined.
