(* ===== verification/BlockHeader.v ===== *)
(** * Block headers

    [zebra-chain/src/block/header.rs], the header codec of
    [zebra-chain/src/block/serialize.rs], the solution codec of
    [zebra-chain/src/work/equihash.rs], the block hash of
    [zebra-chain/src/block/hash.rs], and the reading of the commitment field of
    [zebra-chain/src/block/commitment.rs] with [Block::commitment].

    The Equihash verifier and the Sapling root parser are library code: they
    are arguments. A read error and the error of a writer are both [Io]. *)

From stdpp Require Import strings.
From S2P Require Import Prelude BTreeMap Height Difficulty Serialization Network Transaction Merkle.

(** ** Equihash solutions *)

Definition SOLUTION_SIZE : Z := 1344.
Definition REGTEST_SOLUTION_SIZE : Z := 36.
Definition INPUT_LENGTH : Z := 4 + 32 * 3 + 4 * 2.

Definition solution_value (self : Solution) : list Z :=
  match self with Common solution => solution | Regtest_solution solution => solution end.

Definition solution_from_bytes (solution : list Z) : Res SerializationError Solution :=
  let len := Z.of_nat (length solution) in
  if len =? SOLUTION_SIZE then Ok (Common solution)
  else if len =? REGTEST_SOLUTION_SIZE then Ok (Regtest_solution solution)
  else Err (Parse "incorrect equihash solution size").

Definition for_proposal : Solution := Common (replicate (Z.to_nat SOLUTION_SIZE) 0).

#[export] Instance Solution_serialize : ZcashSerialize Solution := λ self,
  serialize_bytes (solution_value self).

#[export] Instance Solution_deserialize : ZcashDeserialize Solution := λ reader,
  '(len, reader) ← (zcash_deserialize : Parser SerializationError CompactSizeMessage) reader;
  if SOLUTION_SIZE <? csm len then Err (Parse "incorrect equihash solution size") else
  '(solution, reader) ← deserialize_bytes_external_count (csm len) reader;
  solution ← solution_from_bytes solution;
  Ok (solution, reader).

(** ** Headers *)

Definition ZCASH_BLOCK_VERSION : Z := 4.

Definition check_version (version : Z) : Res string unit :=
  if negb (Z.shiftr version 31 =? 0) then Err "high bit was set in version field"%string
  else if version <? ZCASH_BLOCK_VERSION then Err "version must be at least 4"%string
  else Ok tt.

#[export] Instance Header_serialize : ZcashSerialize Header := λ self,
  _ ← map_err (λ _, Io) (check_version (header_version self));
  timestamp ← expect (try_from U32 (time self));
  solution ← zcash_serialize (solution self);
  Ok (le_bytes 4 (header_version self) ++ previous_block_hash self ++ merkle_root self ++
      commitment_bytes self ++ le_bytes 4 timestamp ++ le_bytes 4 (difficulty_threshold self) ++
      nonce self ++ solution).

#[export] Instance Header_deserialize : ZcashDeserialize Header := λ reader,
  '(version, reader) ← read_uint 4 reader;
  _ ← map_err Parse (check_version version);
  '(previous_block_hash, reader) ← read_bytes 32 reader;
  '(merkle_root, reader) ← read_bytes 32 reader;
  '(commitment_bytes, reader) ← read_bytes 32 reader;
  '(time, reader) ← read_uint 4 reader;
  '(difficulty_threshold, reader) ← read_uint 4 reader;
  '(nonce, reader) ← read_bytes 32 reader;
  '(solution, reader) ← (zcash_deserialize : Parser SerializationError Solution) reader;
  Ok (mkHeader version previous_block_hash merkle_root commitment_bytes time difficulty_threshold
        nonce solution, reader).

(** [CountedHeader]: a header followed by a transaction count, which is written as zero. *)
Record CountedHeader := mkCounted { counted_header : Header }.

#[export] Instance CountedHeader_serialize : ZcashSerialize CountedHeader := λ self,
  h ← zcash_serialize (counted_header self);
  transaction_count ← expect_ok (csm_try_from 0);
  c ← zcash_serialize transaction_count;
  Ok (h ++ c).

#[export] Instance CountedHeader_deserialize : ZcashDeserialize CountedHeader := λ reader,
  '(header, reader) ← (zcash_deserialize : Parser SerializationError Header) reader;
  '(_transaction_count, reader) ← (zcash_deserialize : Parser SerializationError CompactSizeMessage) reader;
  Ok (mkCounted header, reader).

Definition BLOCK_HEADER_LENGTH : Z := INPUT_LENGTH + 32 + 3 + SOLUTION_SIZE.
Definition MIN_COUNTED_HEADER_LEN : Z := BLOCK_HEADER_LENGTH + 1.
#[export] Instance CountedHeader_preallocate : TrustedPreallocate CountedHeader :=
  (MAX_PROTOCOL_MESSAGE_LEN - 1) / MIN_COUNTED_HEADER_LEN.

(** [Hash::from(&Header)]. *)
Definition header_hash `{!HashFns} (self : Header) : Run Hash :=
  bytes ← expect_ok (zcash_serialize self);
  Ok (sha256d bytes).

(** [Solution::check]: the verifier gets the header up to the nonce. *)
Definition solution_check {E} (is_valid_solution : Z → Z → list Z → list Z → list Z → Res E unit)
    (self : Solution) (header : Header) : Res E unit :=
  input ← expect_ok (zcash_serialize header);
  input ← expect (if (INPUT_LENGTH <=? Z.of_nat (length input))
                  then Some (take (Z.to_nat INPUT_LENGTH) input) else None);
  is_valid_solution 200 9 input (nonce header) (solution_value self).

(** [Header::time_is_valid_at]; [now] is a time of the clock, so two hours later is in range. *)
Inductive BlockTimeError := InvalidBlockTime (time : Z) (height : Height) (hash : Hash) (limit : Z).
Definition time_is_valid_at (self : Header) (now : Z) (height : Height) (hash : Hash) : Res BlockTimeError unit :=
  let two_hours_in_the_future := now + 2 * 60 * 60 in
  if time self <=? two_hours_in_the_future then Ok tt
  else Err (InvalidBlockTime (time self) height hash two_hours_in_the_future).

(** ** The codecs are canonical *)

Lemma check_version_Ok v : 0 ≤ v < 2 ^ 32 → check_version v = Ok tt ↔ 4 ≤ v < 2 ^ 31.
Proof.
  intros Hv. unfold check_version, ZCASH_BLOCK_VERSION. rewrite Z.shiftr_div_pow2 by lia.
  destruct (Z.eqb_spec (v / 2 ^ 31) 0) as [H|H]; cbn [negb].
  - apply Z.div_small_iff in H; [|lia]. destruct (Z.ltb_spec v 4); [|split; [lia|done]]. split; [done|lia].
  - split; [done|]. intros Hv'. exfalso. apply H, Z.div_small. lia.
Qed.

Lemma check_version_ok v : 4 ≤ v < 2 ^ 31 → check_version v = Ok tt.
Proof. intros Hv. apply check_version_Ok; lia. Qed.

Definition solution_ok (s : Solution) : Prop :=
  bytes_ok (solution_value s) ∧ solution_from_bytes (solution_value s) = Ok s.

Lemma solution_from_bytes_Ok l s : solution_from_bytes l = Ok s →
  l = solution_value s ∧ (length l = 1344 ∨ length l = 36)%nat.
Proof.
  unfold solution_from_bytes, SOLUTION_SIZE, REGTEST_SOLUTION_SIZE.
  destruct (Z.eqb_spec (Z.of_nat (length l)) 1344); [intros [= <-]; split; [done|lia]|].
  destruct (Z.eqb_spec (Z.of_nat (length l)) 36); [intros [= <-]; split; [done|lia]|done].
Qed.

(** A solution is a byte vector of one of two lengths. *)
Lemma Solution_deserialize_VecU8 bs :
  (zcash_deserialize : Parser SerializationError Solution) bs =
  '(len, reader) ← (zcash_deserialize : Parser SerializationError CompactSizeMessage) bs;
  if SOLUTION_SIZE <? csm len then Err (Parse "incorrect equihash solution size") else
  '(v, rest) ← (zcash_deserialize : Parser SerializationError VecU8) bs;
  s ← solution_from_bytes (u8s v); Ok (s, rest).
Proof.
  change (zcash_deserialize (T := Solution)) with Solution_deserialize.
  change (zcash_deserialize (T := VecU8)) with VecU8_deserialize.
  unfold Solution_deserialize, VecU8_deserialize.
  destruct (zcash_deserialize (T := CompactSizeMessage) bs) as [[len r]| |] eqn:Hl; [|done|done]. rewrite !Ok_bind.
  destruct (SOLUTION_SIZE <? csm len); [done|].
  by destruct (deserialize_bytes_external_count (csm len) r) as [[v r']| |].
Qed.

#[export] Program Instance Solution_codec : ZcashCodec Solution := {| valid s := solution_ok s |}.
Next Obligation.
  intros s [Hb Hs]. destruct (solution_from_bytes_Ok _ _ Hs) as [_ Hlen].
  destruct (codec_roundtrip (mkVecU8 (solution_value s))) as (enc & He & Heb & Hd).
  { split; [done|]. cbn. unfold MAX_U8_ALLOCATION, MAX_PROTOCOL_MESSAGE_LEN. lia. }
  exists enc. split; [exact He|]. split; [done|]. intros rest. specialize (Hd rest).
  rewrite Solution_deserialize_VecU8, Hd. change (VecU8_deserialize (enc ++ rest) = Ok (mkVecU8 (solution_value s), rest)) in Hd.
  apply bind_Ok in Hd as ([len r] & Hl & ([v r'] & Hv & Hd)%bind_Ok). rewrite Hl, Ok_bind. simplify_eq.
  unfold deserialize_bytes_external_count in Hv.
  destruct (MAX_U8_ALLOCATION <? csm len); [done|]. apply read_bytes_Ok in Hv as [-> Hl'].
  rewrite (proj2 (Z.ltb_ge _ _)) by (unfold SOLUTION_SIZE; lia). rewrite Ok_bind. cbn [u8s]. by rewrite Hs.
Qed.
Next Obligation.
  intros bs s rest Hbs Hd. rewrite Solution_deserialize_VecU8 in Hd.
  apply bind_Ok in Hd as ([len r] & _ & Hd). destruct (SOLUTION_SIZE <? csm len); [done|].
  apply bind_Ok in Hd as ([v r'] & Hv & (s' & Hs & Hd)%bind_Ok). simplify_eq.
  apply codec_canonical in Hv as ([Hb _] & enc & He & ->); [|done].
  destruct (solution_from_bytes_Ok _ _ Hs) as [Heq _]. rewrite Heq in Hs, Hb.
  split; [done|]. exists enc. split; [|done].
  unfold zcash_serialize, VecU8_serialize in He. rewrite Heq in He. exact He.
Qed.
Next Obligation.
  intros bs. rewrite Solution_deserialize_VecU8. apply no_panic_bind; [apply codec_total|]. intros [len r] _.
  destruct (_ <? _); [done|]. apply no_panic_bind; [apply codec_total|]. intros [v r'] _.
  apply no_panic_bind; [|done]. unfold solution_from_bytes.
  destruct (_ =? SOLUTION_SIZE); [done|]. by destruct (_ =? _).
Qed.

Lemma solution_length s enc : solution_ok s → zcash_serialize s = Ok enc →
  Z.of_nat (length enc) = match s with Common _ => 1347 | Regtest_solution _ => 37 end.
Proof.
  intros [_ Hs]. unfold solution_from_bytes, zcash_serialize, Solution_serialize, serialize_bytes in *.
  destruct (Z.eqb_spec (Z.of_nat (length (solution_value s))) SOLUTION_SIZE) as [Hl|].
  { simplify_eq. rewrite <- Hs. cbn [solution_value]. rewrite Hl. cbn. intros [= <-].
    cbn [length]. unfold SOLUTION_SIZE in Hl. lia. }
  destruct (Z.eqb_spec (Z.of_nat (length (solution_value s))) REGTEST_SOLUTION_SIZE) as [Hl|]; [|done].
  simplify_eq. rewrite <- Hs. cbn [solution_value]. rewrite Hl. cbn. intros [= <-].
  cbn [length]. unfold REGTEST_SOLUTION_SIZE in Hl. lia.
Qed.

Definition bytes32 (l : list Z) : Prop := bytes_ok l ∧ length l = 32%nat.

Definition header_ok (h : Header) : Prop :=
  4 ≤ header_version h < 2 ^ 31 ∧ bytes32 (previous_block_hash h) ∧ bytes32 (merkle_root h) ∧
  bytes32 (commitment_bytes h) ∧ 0 ≤ time h < 2 ^ 32 ∧ 0 ≤ difficulty_threshold h < 2 ^ 32 ∧
  bytes32 (nonce h) ∧ solution_ok (solution h).

Lemma header_serialize_spec h : header_ok h → ∃ enc,
  zcash_serialize (solution h) = Ok enc ∧ bytes_ok enc ∧
  (∀ rest, (zcash_deserialize : Parser SerializationError Solution) (enc ++ rest) = Ok (solution h, rest)) ∧
  zcash_serialize h = Ok (le_bytes 4 (header_version h) ++ previous_block_hash h ++ merkle_root h ++
    commitment_bytes h ++ le_bytes 4 (time h) ++ le_bytes 4 (difficulty_threshold h) ++ nonce h ++ enc).
Proof.
  intros (Hv & _ & _ & _ & Ht & _ & _ & Hs). destruct (codec_roundtrip (solution h)) as (enc & He & Hb & Hd); [exact Hs|].
  exists enc. split; [done|]. split; [done|]. split; [done|].
  unfold zcash_serialize at 1, Header_serialize. rewrite (check_version_ok _ Hv).
  cbn [map_err]. rewrite Ok_bind, try_from_fits by int_lia. cbn [expect]. rewrite Ok_bind.
  rewrite He. by rewrite Ok_bind.
Qed.

#[export] Program Instance Header_codec : ZcashCodec Header := {| valid h := header_ok h |}.
Next Obligation.
  intros h Hh. destruct (header_serialize_spec h Hh) as (enc & _ & Hb & Hd & Hs).
  destruct Hh as (Hv & [Hp Hpl] & [Hm Hml] & [Hc Hcl] & Ht & Hdf & [Hn Hnl] & _).
  eexists. split; [exact Hs|]. split; [rewrite !bytes_ok_app; auto 10 using le_bytes_ok|].
  intros rest. rewrite <- !(assoc_L (++)). unfold zcash_deserialize, Header_deserialize.
  rewrite read_uint_app by (cbn; lia). rewrite Ok_bind. cbv beta iota.
  rewrite (check_version_ok _ Hv). cbn [map_err]. rewrite Ok_bind.
  do 3 (rewrite read_bytes_app by done; rewrite Ok_bind; cbv beta iota).
  do 2 (rewrite read_uint_app by (cbn; lia); rewrite Ok_bind; cbv beta iota).
  rewrite read_bytes_app by done. rewrite Ok_bind. cbv beta iota. rewrite Hd, Ok_bind. by destruct h.
Qed.
Next Obligation.
  intros bs h rest Hbs Hd. unfold zcash_deserialize, Header_deserialize in Hd.
  apply bind_Ok in Hd as ([v r1] & H1 & (u & Hv & Hd)%bind_Ok). apply map_err_Ok in Hv. destruct u.
  apply bind_Ok in Hd as ([p r2] & H2 & ([m r3] & H3 & ([c r4] & H4 & Hd)%bind_Ok)%bind_Ok).
  apply bind_Ok in Hd as ([t r5] & H5 & ([d r6] & H6 & ([n r7] & H7 & Hd)%bind_Ok)%bind_Ok).
  apply bind_Ok in Hd as ([s r8] & H8 & Hd). simplify_eq.
  apply read_uint_Ok in H1 as (-> & Hv' & Hbs1); [|done]. apply check_version_Ok in Hv; [|exact Hv'].
  apply read_bytes_Ok in H2 as [-> Hp]. apply bytes_ok_app in Hbs1 as [? Hbs2].
  apply read_bytes_Ok in H3 as [-> Hm]. apply bytes_ok_app in Hbs2 as [? Hbs3].
  apply read_bytes_Ok in H4 as [-> Hc]. apply bytes_ok_app in Hbs3 as [? Hbs4].
  apply read_uint_Ok in H5 as (-> & Ht & Hbs5); [|done]. apply read_uint_Ok in H6 as (-> & Hdf & Hbs6); [|done].
  apply read_bytes_Ok in H7 as [-> Hn]. apply bytes_ok_app in Hbs6 as [? Hbs7].
  apply codec_canonical in H8 as (Hs & enc & He & ->); [|done].
  assert (Hok : header_ok (mkHeader v p m c t d n s)) by (repeat split; try done; cbn in *; lia || apply Hs).
  split; [exact Hok|]. destruct (header_serialize_spec _ Hok) as (enc' & He' & _ & _ & Hser). cbn in He'.
  eexists. split; [exact Hser|]. cbn -[le_bytes]. rewrite He in He'. simplify_eq. by rewrite <- !(assoc_L (++)).
Qed.
Next Obligation.
  intros bs. unfold zcash_deserialize, Header_deserialize.
  repeat first [done | apply no_panic_read_uint | apply no_panic_read_bytes | apply codec_total
    | apply no_panic_bind; [|intros [??] ?] | apply no_panic_bind; [apply no_panic_map_err|intros ??]].
  unfold check_version. destruct (negb _); [done|]. by destruct (_ <? _).
Qed.

(** block headers have one encoding each. A header with a version from 4 to
    [2^31 - 1], fields of the right sizes and a solution of one of the two sizes is
    written to [BLOCK_HEADER_LENGTH] bytes, or to 177 on Regtest, that read back as it;
    whatever bytes read as a header are the encoding of that header, so a header has one
    hash; and reading never panics. *)
Theorem header_codec :
  (∀ h, header_ok h → ∃ enc, Header_serialize h = Ok enc ∧
     Z.of_nat (length enc) = (match solution h with Common _ => BLOCK_HEADER_LENGTH | Regtest_solution _ => 177 end) ∧
     ∀ rest, Header_deserialize (enc ++ rest) = Ok (h, rest)) ∧
  (∀ bs h rest, bytes_ok bs → Header_deserialize bs = Ok (h, rest) →
     header_ok h ∧ ∃ enc, Header_serialize h = Ok enc ∧ bs = enc ++ rest) ∧
  (∀ bs, no_panic (Header_deserialize bs)).
Proof.
  split_and!.
  - intros h Hh. destruct (codec_roundtrip h) as (enc & Hs & _ & Hd); [exact Hh|]. exists enc.
    split; [exact Hs|]. split; [|exact Hd].
    destruct (header_serialize_spec h Hh) as (senc & Hse & _ & _ & Hs'). rewrite Hs in Hs'. assert (Henc := f_equal (λ r, match r with Ok b => length b | _ => O end) Hs').
    cbv beta iota in Henc. rewrite Henc.
    destruct Hh as (_ & [_ Hp] & [_ Hm] & [_ Hc] & _ & _ & [_ Hn] & Hsol).
    rewrite !length_app, !length_le_bytes, Hp, Hm, Hc, Hn. pose proof (solution_length _ _ Hsol Hse) as Hl.
    destruct (solution h); unfold BLOCK_HEADER_LENGTH, INPUT_LENGTH, SOLUTION_SIZE; lia.
  - intros bs h rest Hbs Hd. exact (codec_canonical (T := Header) bs h rest Hbs Hd).
  - apply (codec_total (T := Header)).
Qed.

(** ** Commitments *)

Inductive Commitment :=
| PreSaplingReserved (bytes : list Z)
| FinalSaplingRoot (root : Hash)
| ChainHistoryActivationReserved
| ChainHistoryRoot (hash : Hash)
| ChainHistoryBlockTxAuthCommitment (hash : Hash).

Inductive CommitmentError :=
| InvalidFinalSaplingRoot (expected actual : list Z)
| InvalidChainHistoryActivationReserved (actual : list Z)
| InvalidChainHistoryRoot (expected actual : list Z)
| InvalidChainHistoryBlockTxAuthCommitment (expected actual : list Z)
| MissingBlockHeight (block_hash : Hash)
| InvalidSapingRootBytes.

Definition CHAIN_HISTORY_ACTIVATION_RESERVED : list Z := replicate 32 0.

Section Commitment.
(** [sapling::tree::Root::try_from]: whether the bytes are a field element. *)
Context (sapling_root_try_from : list Z → option Hash).

Definition activation_reserved (bytes : list Z) : Res CommitmentError Commitment :=
  if bool_decide (bytes = CHAIN_HISTORY_ACTIVATION_RESERVED) then Ok ChainHistoryActivationReserved
  else Err (InvalidChainHistoryActivationReserved bytes).

Definition commitment_from_bytes (bytes : list Z) (network : Network) (height : Height) :
    Res CommitmentError Commitment :=
  '(upgrade, activation_height) ← lift (current_with_activation_height network height);
  match upgrade with
  | Genesis | BeforeOverwinter | Overwinter => Ok (PreSaplingReserved bytes)
  | Network.Sapling | Blossom =>
      match sapling_root_try_from bytes with
      | Some root => Ok (FinalSaplingRoot root)
      | None => Err InvalidSapingRootBytes
      end
  | Heartwood =>
      if height =? activation_height then activation_reserved bytes else Ok (ChainHistoryRoot bytes)
  | Canopy =>
      if bool_decide (Some height = Network.activation_height Heartwood network)
      then activation_reserved bytes else Ok (ChainHistoryRoot bytes)
  | Nu5 | Nu6 | Nu6_1 | Nu7 => Ok (ChainHistoryBlockTxAuthCommitment bytes)
  end.

(** [Block::commitment]. *)
Definition block_commitment `{!HashFns} (self : Block) (network : Network) : Res CommitmentError Commitment :=
  match coinbase_height self with
  | None => block_hash ← lift (header_hash (header self)); Err (MissingBlockHeight block_hash)
  | Some height => commitment_from_bytes (commitment_bytes (header self)) network height
  end.

End Commitment.

(** [ChainHistoryBlockTxAuthCommitmentHash::from_commitments]; the personalization
    is "ZcashBlockCommit". *)
Definition ZcashBlockCommit : list Z :=
  [90; 99; 97; 115; 104; 66; 108; 111; 99; 107; 67; 111; 109; 109; 105; 116].
Definition from_commitments `{!HashFns} (history_tree_root auth_data_root : Hash) : Hash :=
  blake2b_256 ZcashBlockCommit (history_tree_root ++ auth_data_root ++ replicate 32 0).

(** ** The commitment rule of each upgrade

    The upgrades of [ZIP 221] and [ZIP 244], by the heights they activate at. *)

Definition reached (nu : NetworkUpgrade) (network : Network) (height : Height) : bool :=
  match activation_height nu network with Some h => h <=? height | None => false end.

Lemma reached_index network height c nu : activations_ok (activation_list network) → 0 ≤ height →
  current network height = Ok c → reached nu network height = (nu_index nu <=? nu_index c).
Proof.
  intros Hok Hh Hc. pose proof (active_iff network height c nu Hok Hh Hc) as Hiff. unfold reached.
  destruct (activation_height nu network) as [h|].
  - destruct (Z.leb_spec h height).
    + symmetry. apply Z.leb_le, Hiff. eauto.
    + symmetry. apply Z.leb_gt. destruct (decide (nu_index nu ≤ nu_index c)); [|lia].
      destruct Hiff as [(h' & [= <-] & ?) _]; [done|lia].
  - symmetry. apply Z.leb_gt. destruct (decide (nu_index nu ≤ nu_index c)); [|lia].
    by destruct Hiff as [(h' & ? & ?) _].
Qed.

Definition commitment_rule (try_from : list Z → option Hash) (network : Network) (height : Height)
    (bytes : list Z) : Res CommitmentError Commitment :=
  if reached Nu5 network height then Ok (ChainHistoryBlockTxAuthCommitment bytes)
  else if reached Heartwood network height then
    if bool_decide (activation_height Heartwood network = Some height)
    then activation_reserved bytes else Ok (ChainHistoryRoot bytes)
  else if reached Network.Sapling network height
  then match try_from bytes with Some root => Ok (FinalSaplingRoot root) | None => Err InvalidSapingRootBytes end
  else Ok (PreSaplingReserved bytes).

Lemma commitment_from_bytes_rule try_from network height bytes :
  activations_ok (activation_list network) → 0 ≤ height →
  commitment_from_bytes try_from bytes network height = commitment_rule try_from network height bytes.
Proof.
  intros Hok Hh. destruct (current_latest network height Hok Hh) as (hc & c & (Hin & Hle & Hmax) & Hc & Hc').
  unfold commitment_from_bytes, commitment_rule. rewrite Hc'. cbn [lift]. rewrite Ok_bind.
  rewrite !(reached_index network height c) by done.
  destruct c; cbn -[activation_height]; try done.
  - (* Heartwood: listed at [hc] *)
    replace (activation_height Heartwood network) with (Some hc).
    + destruct (Z.eqb_spec height hc) as [->|Hne]; [by rewrite bool_decide_eq_true_2|].
      by rewrite bool_decide_eq_false_2 by (intros [=]; lia).
    + pose proof (activation_height_first network Heartwood) as Hf. destruct Hok as [_ Hs].
      destruct (activation_height Heartwood network) as [h|]; cbn in Hf.
      * destruct Hf as (nu' & Hin' & Hle' & Hmin). specialize (Hmin _ _ Hin ltac:(cbn; lia)).
        assert (nu' = Heartwood) as -> by (apply nu_index_inj; cbn in *; lia).
        destruct (activation_lt_elem _ _ _ _ _ Hs Hin Hin') as [_ Heq]. by rewrite Heq.
      * specialize (Hf _ _ Hin). cbn in Hf. lia.
  - (* Canopy *)
    destruct (decide (activation_height Heartwood network = Some height)) as [He|He].
    + by rewrite !bool_decide_eq_true_2.
    + by rewrite !bool_decide_eq_false_2 by congruence.
Qed.
