(* ===== verification/TransparentCodec.v ===== *)
(** * The encoding of transparent inputs and outputs

    [zebra-chain/src/transparent/serialize.rs]: the encodings of outpoints, inputs
    and outputs, with the block height at the start of the coinbase data (BIP 34).
    Scripts are byte vectors ([zebra-chain/src/transparent/script.rs]). *)

From stdpp Require Import strings.
From S2P Require Import Prelude Height Amount Serialization Transaction.

Definition MAX_COINBASE_DATA_LEN : Z := 100.
Definition MIN_COINBASE_DATA_LEN : Z := 2.
Definition GENESIS_COINBASE_DATA : list Z :=
  [4; 255; 255; 7; 31; 1; 4; 69; 90; 99; 97; 115; 104; 48; 98; 57; 99; 52; 101; 101; 102; 56; 98;
   55; 99; 99; 52; 49; 55; 101; 101; 53; 48; 48; 49; 101; 51; 53; 48; 48; 57; 56; 52; 98; 54; 102;
   101; 97; 51; 53; 54; 56; 51; 97; 55; 99; 97; 99; 49; 52; 49; 97; 48; 52; 51; 99; 52; 50; 48;
   54; 52; 56; 51; 53; 100; 51; 52].

(** ** Outpoints *)

#[export] Instance OutPoint_serialize : ZcashSerialize OutPoint := λ self,
  Ok (outpoint_hash self ++ le_bytes 4 (outpoint_index self)).
#[export] Instance OutPoint_deserialize : ZcashDeserialize OutPoint := λ reader,
  '(hash, reader) ← read_bytes 32 reader;
  '(index, reader) ← read_uint 4 reader;
  Ok (mkOutPoint hash index, reader).

(** ** Coinbase heights *)

(** The height in [data[1..=n]], if the last of these bytes is below [0x80] and the height is in
    the range from [low] to [high]. *)
Definition height_bytes (n : nat) (low high : Z) (data : list Z) : Res SerializationError (Height * list Z) :=
  let h := of_le_bytes (take n (drop 1 data)) in
  if (low <=? h) && (h <=? high) then Ok (h, drop (S n) data) else Err (Parse "Invalid block height").

Definition parse_coinbase_height (data : list Z) : Res SerializationError (Height * list Z) :=
  let byte i := nth i data 0 in
  let has n := (n <? length data)%nat && (byte n <? 0x80) in
  match data with
  | [] => Err (Parse "Could not parse BIP34 height in coinbase data")
  | op :: rest =>
      if (0x51 <=? op) && (op <=? 0x60) then Ok (op - 0x50, rest)
      else if (op =? 1) && has 1%nat then height_bytes 1 17 127 data
      else if (op =? 2) && has 2%nat then height_bytes 2 128 32767 data
      else if (op =? 3) && has 3%nat then height_bytes 3 32768 8388607 data
      else if (op =? 4) && bool_decide (data = GENESIS_COINBASE_DATA) then Ok (0, data)
      else if (op =? 4) && has 4%nat then height_bytes 4 8388608 MAX data
      else Err (Parse "Could not parse BIP34 height in coinbase data")
  end.

Definition write_coinbase_height (height : Height) (coinbase_data : list Z) : Res SerializationError (list Z) :=
  if height =? 0 then
    if bool_decide (coinbase_data = GENESIS_COINBASE_DATA) then Ok [] else Err Io
  else if (1 <=? height) && (height <=? 16) then Ok [0x50 + height]
  else if (17 <=? height) && (height <=? 127) then Ok [0x01; height]
  else if (128 <=? height) && (height <=? 32767) then Ok (0x02 :: le_bytes 2 height)
  else if (32768 <=? height) && (height <=? 8388607) then
    Ok [0x03; wrap U8 height; wrap U8 (Z.shiftr height 8); wrap U8 (Z.shiftr height 16)]
  else if (8388608 <=? height) && (height <=? MAX) then Ok (0x04 :: le_bytes 4 height)
  else Panic.

(** ** Inputs and outputs *)

#[export] Instance Input_serialize : ZcashSerialize Input := λ self,
  match self with
  | PrevOut outpoint unlock_script sequence =>
      o ← zcash_serialize outpoint;
      s ← serialize_bytes unlock_script;
      Ok (o ++ s ++ le_bytes 4 sequence)
  | Coinbase height data sequence =>
      h ← write_coinbase_height height data;
      s ← serialize_bytes (h ++ data);
      Ok (replicate 32 0 ++ le_bytes 4 0xffffffff ++ s ++ le_bytes 4 sequence)
  end.

#[export] Instance Input_deserialize : ZcashDeserialize Input := λ reader,
  '(bytes, reader) ← read_bytes 32 reader;
  if bool_decide (bytes = replicate 32 0) then
    '(index, reader) ← read_uint 4 reader;
    if negb (index =? 0xffffffff) then Err (Parse "wrong index in coinbase") else
    '(len, reader) ← (zcash_deserialize : Parser SerializationError CompactSizeMessage) reader;
    if MAX_COINBASE_DATA_LEN <? csm len then Err (Parse "coinbase data is too long")
    else if csm len <? MIN_COINBASE_DATA_LEN then Err (Parse "coinbase data is too short") else
    '(data, reader) ← deserialize_bytes_external_count (csm len) reader;
    '(height, data) ← parse_coinbase_height data;
    '(sequence, reader) ← read_uint 4 reader;
    Ok (Coinbase height data sequence, reader)
  else
    '(index, reader) ← read_uint 4 reader;
    '(unlock_script, reader) ← (zcash_deserialize : Parser SerializationError VecU8) reader;
    '(sequence, reader) ← read_uint 4 reader;
    Ok (PrevOut (mkOutPoint bytes index) (u8s unlock_script) sequence, reader).

#[export] Instance Output_serialize : ZcashSerialize Output := λ self,
  v ← zcash_serialize (value self);
  s ← serialize_bytes (lock_script self);
  Ok (v ++ s).
#[export] Instance Output_deserialize : ZcashDeserialize Output := λ reader,
  '(value, reader) ← (zcash_deserialize : Parser SerializationError (Amount NonNegative)) reader;
  '(lock_script, reader) ← (zcash_deserialize : Parser SerializationError VecU8) reader;
  Ok (mkOutput value (u8s lock_script), reader).

(** ** The codecs *)

Lemma script_read (s : Script) : bytes_ok s → Z.of_nat (length s) ≤ MAX_U8_ALLOCATION →
  ∃ enc, serialize_bytes s = Ok enc ∧ bytes_ok enc ∧
    ∀ rest, (zcash_deserialize : Parser SerializationError VecU8) (enc ++ rest) = Ok (mkVecU8 s, rest).
Proof. intros Hb Hl. exact (codec_roundtrip (mkVecU8 s) (conj Hb Hl)). Qed.

Lemma script_canonical bs v rest : bytes_ok bs →
  (zcash_deserialize : Parser SerializationError VecU8) bs = Ok (v, rest) →
  bytes_ok (u8s v) ∧ Z.of_nat (length (u8s v)) ≤ MAX_U8_ALLOCATION ∧ bytes_ok rest ∧
  ∃ enc, serialize_bytes (u8s v) = Ok enc ∧ bs = enc ++ rest.
Proof.
  intros Hb Hd. destruct (codec_canonical bs v rest Hb Hd) as ([H1 H2] & enc & He & ->).
  split_and!; [done|done|by apply bytes_ok_app in Hb as [_ ?]|]. by exists enc.
Qed.

#[export] Program Instance OutPoint_codec : ZcashCodec OutPoint :=
  {| valid o := bytes_ok (outpoint_hash o) ∧ length (outpoint_hash o) = 32%nat ∧ 0 ≤ outpoint_index o < 2 ^ 32 |}.
Next Obligation.
  intros [h i] (Hb & Hl & Hi). cbn [outpoint_hash outpoint_index] in *. eexists. split; [reflexivity|].
  split; [apply bytes_ok_app; split; [done|apply le_bytes_ok]|]. intros rest. rewrite <- (assoc_L (++)).
  unfold zcash_deserialize, OutPoint_deserialize. cbn [outpoint_hash outpoint_index].
  rewrite read_bytes_app, Ok_bind by done. by rewrite read_uint_app, Ok_bind by (cbn; lia).
Qed.
Next Obligation.
  intros bs o rest Hb Hd. apply bind_Ok in Hd as ([h r] & H1 & ([i r'] & H2 & Hd)%bind_Ok). simplify_eq.
  apply read_bytes_Ok in H1 as [-> Hl]. apply bytes_ok_app in Hb as [Hh Hb].
  apply read_uint_Ok in H2 as (-> & Hi & _); [|done]. split; [done|]. eexists. split; [reflexivity|].
  by rewrite <- (assoc_L (++)).
Qed.
Next Obligation.
  intros bs. apply no_panic_bind; [apply no_panic_read_bytes|]. intros [h r] _.
  apply no_panic_bind; [apply no_panic_read_uint|]. by intros [i r'] _.
Qed.

#[export] Program Instance Output_codec : ZcashCodec Output :=
  {| valid o := amount_ok (value o) = true ∧ bytes_ok (lock_script o) ∧
                Z.of_nat (length (lock_script o)) ≤ MAX_U8_ALLOCATION |}.
Next Obligation.
  intros [v s] (Hv & Hb & Hl). cbn [value lock_script] in *.
  destruct (codec_roundtrip v) as (ve & He & Heb & Hd); [exact Hv|]. destruct (script_read s Hb Hl) as (se & Hs & Hsb & Hsd).
  exists (ve ++ se). split; [|split; [by apply bytes_ok_app|]].
  - unfold zcash_serialize, Output_serialize. cbn [value lock_script]. by rewrite He, Ok_bind, Hs, Ok_bind.
  - intros rest. rewrite <- (assoc_L (++)). unfold zcash_deserialize, Output_deserialize. rewrite Hd, Ok_bind. by rewrite Hsd, Ok_bind.
Qed.
Next Obligation.
  intros bs o rest Hb Hd. apply bind_Ok in Hd as ([v r] & H1 & ([s r'] & H2 & Hd)%bind_Ok). simplify_eq.
  apply codec_canonical in H1 as (Hv & ve & He & ->); [|done]. apply bytes_ok_app in Hb as [_ Hb].
  apply script_canonical in H2 as (Hs & Hl & _ & se & Hse & ->); [|done]. split; [done|].
  exists (ve ++ se). split; [|by rewrite <- (assoc_L (++))]. unfold zcash_serialize, Output_serialize. cbn [value lock_script].
  by rewrite He, Ok_bind, Hse, Ok_bind.
Qed.
Next Obligation.
  intros bs. apply no_panic_bind; [apply codec_total|]. intros [v r] _.
  apply no_panic_bind; [apply codec_total|]. by intros [s r'] _.
Qed.

(** *** Coinbase heights *)

(** The heights written with [n] bytes, and what the reader checks of them. *)
Definition height_range (n : nat) (h : Z) : Prop :=
  match n with
  | 1%nat => 17 ≤ h ≤ 127
  | 2%nat => 128 ≤ h ≤ 32767
  | 3%nat => 32768 ≤ h ≤ 8388607
  | 4%nat => 8388608 ≤ h ≤ MAX
  | _ => False
  end.

Lemma height_ranges h : 1 ≤ h ≤ MAX → (1 ≤ h ≤ 16) ∨ ∃ n, height_range n h.
Proof.
  intros Hh. destruct (decide (h ≤ 16)); [left; lia|right].
  destruct (decide (h ≤ 127)); [exists 1%nat; cbn; lia|]. destruct (decide (h ≤ 32767)); [exists 2%nat; cbn; lia|].
  destruct (decide (h ≤ 8388607)); [exists 3%nat; cbn; lia|]. exists 4%nat. cbn. lia.
Qed.

Ltac range_cases n H := destruct n as [|[|[|[|[|n]]]]]; cbn [height_range] in H; try tauto.
Ltac range_tests := repeat match goal with
  | |- context [?a =? ?b] => first [rewrite (proj2 (Z.eqb_eq a b)) by lia | rewrite (proj2 (Z.eqb_neq a b)) by lia]
  | |- context [?a <=? ?b] => first [rewrite (proj2 (Z.leb_le a b)) by lia | rewrite (proj2 (Z.leb_gt a b)) by lia]
  | |- context [?a <? ?b] => first [rewrite (proj2 (Z.ltb_lt a b)) by lia | rewrite (proj2 (Z.ltb_ge a b)) by lia]
  end; cbn [andb negb].

Lemma write_height_bytes n h d : height_range n h → write_coinbase_height h d = Ok (Z.of_nat n :: le_bytes n h).
Proof.
  intros Hn. pose proof MAX_eq. unfold write_coinbase_height. range_cases n Hn; range_tests; try done.
  - cbn. by rewrite Z.mod_small by lia.
  - do 2 f_equal. cbn. unfold wrap. cbn. rewrite !Z.shiftr_div_pow2 by lia. rewrite Z.div_div by lia. by rewrite !Z.sub_0_r, !Z.add_0_r.
Qed.

Lemma last_height_byte n h : height_range n h → nth (n - 1) (le_bytes n h) 0 < 128 ∧ 0 ≤ h < 256 ^ Z.of_nat n.
Proof.
  intros Hn. pose proof MAX_eq. range_cases n Hn; cbn [Nat.sub nth le_bytes]; rewrite ?Z.div_div by lia; cbn;
    (split; [|lia]); rewrite Z.mod_small by (split; [first [lia|apply Z.div_pos; lia]|first [lia|apply Z.div_lt_upper_bound; lia]]);
    first [lia|apply Z.div_lt_upper_bound; lia].
Qed.

(** A coinbase height and data that the encoding determines: the genesis block has no
    height in its data, so no other block can have the same data. *)
Definition coinbase_ok (h : Height) (d : list Z) : Prop :=
  bytes_ok d ∧ (h = 0 ∧ d = GENESIS_COINBASE_DATA ∨
  1 ≤ h ≤ MAX ∧ ∃ enc, write_coinbase_height h d = Ok enc ∧ 2 ≤ Z.of_nat (length (enc ++ d)) ≤ 100 ∧
    enc ++ d ≠ GENESIS_COINBASE_DATA).

Lemma parse_height_bytes n h d : height_range n h → Z.of_nat n :: le_bytes n h ++ d ≠ GENESIS_COINBASE_DATA →
  parse_coinbase_height (Z.of_nat n :: le_bytes n h ++ d) = Ok (h, d).
Proof.
  intros Hn Hg. destruct (last_height_byte n h Hn) as [Hlast Hrange].
  assert (Hb : height_bytes n (match n with 1%nat => 17 | 2%nat => 128 | 3%nat => 32768 | _ => 8388608 end)
    (match n with 1%nat => 127 | 2%nat => 32767 | 3%nat => 8388607 | _ => MAX end) (Z.of_nat n :: le_bytes n h ++ d) = Ok (h, d)).
  { unfold height_bytes. change (drop 1 (Z.of_nat n :: le_bytes n h ++ d)) with (le_bytes n h ++ d).
    change (drop (S n) (Z.of_nat n :: le_bytes n h ++ d)) with (drop n (le_bytes n h ++ d)). rewrite take_app_length', drop_app_length' by (by rewrite length_le_bytes).
    rewrite of_le_bytes_le_bytes, Z.mod_small by done. range_cases n Hn; range_tests; done. }
  assert (Hlen : (n <? length (Z.of_nat n :: le_bytes n h ++ d))%nat = true).
  { apply Nat.ltb_lt. cbn [length]. rewrite length_app, length_le_bytes. lia. }
  unfold parse_coinbase_height. rewrite (bool_decide_false _ Hg).
  range_cases n Hn; range_tests; (cbn [andb]; rewrite Hlen; cbn [andb]);
    (rewrite (proj2 (Z.ltb_lt _ _)) by exact Hlast); exact Hb.
Qed.

Lemma parse_written h d : coinbase_ok h d → ∃ enc, write_coinbase_height h d = Ok enc ∧ bytes_ok (enc ++ d) ∧
  2 ≤ Z.of_nat (length (enc ++ d)) ≤ 100 ∧ parse_coinbase_height (enc ++ d) = Ok (h, d).
Proof.
  intros [Hd [[-> ->]|(Hh & enc & Hw & Hl & Hg)]].
  { exists []. split_and!; [by rewrite bool_decide_true in * || done|done|cbn; lia..|vm_compute; reflexivity]. }
  exists enc. split_and!; [done| |lia..|].
  - apply bytes_ok_app. split; [|done]. destruct (height_ranges h Hh) as [Hs|[n Hn]].
    + unfold write_coinbase_height in Hw. revert Hw. range_tests. intros [= <-]. repeat constructor. unfold is_byte. lia.
    + rewrite (write_height_bytes n h d Hn) in Hw. injection Hw as <-. constructor; [|apply le_bytes_ok].
      range_cases n Hn; done.
  - destruct (height_ranges h Hh) as [Hs|[n Hn]].
    + unfold write_coinbase_height in Hw. revert Hw. range_tests. intros [= <-]. unfold parse_coinbase_height. cbn [app].
      range_tests. f_equal. f_equal. lia.
    + rewrite (write_height_bytes n h d Hn) in Hw. injection Hw as <-. by apply parse_height_bytes.
Qed.

Lemma height_bytes_canonical n low high op rest h d : bytes_ok rest → (n ≤ length rest)%nat →
  height_bytes n low high (op :: rest) = Ok (h, d) → low ≤ h ≤ high ∧ rest = le_bytes n h ++ d.
Proof.
  intros Hb Hl. unfold height_bytes. change (drop 1 (op :: rest)) with rest. change (drop (S n) (op :: rest)) with (drop n rest).
  destruct (Z.leb_spec low (of_le_bytes (take n rest))); [|done]. destruct (Z.leb_spec (of_le_bytes (take n rest)) high); [|done].
  intros [= <- <-]. split; [done|]. rewrite <- (length_take_le rest n Hl) at 1.
  rewrite le_bytes_of_le_bytes; [by rewrite take_drop|]. by apply Forall_take.
Qed.

Lemma parse_canonical data h d : bytes_ok data → 2 ≤ Z.of_nat (length data) ≤ 100 →
  parse_coinbase_height data = Ok (h, d) → coinbase_ok h d ∧ ∃ enc, write_coinbase_height h d = Ok enc ∧ data = enc ++ d.
Proof.
  intros Hb Hl Hp. destruct data as [|op rest]; [done|]. pose proof Hb as [Hop Hrest]%Forall_cons. pose proof MAX_eq as HM.
  assert (Hn : ∀ n low high, height_bytes n low high (op :: rest) = Ok (h, d) → (n < length (op :: rest))%nat →
    op = Z.of_nat n → op :: rest ≠ GENESIS_COINBASE_DATA → (low ≤ h ≤ high → height_range n h) →
    coinbase_ok h d ∧ ∃ enc, write_coinbase_height h d = Ok enc ∧ op :: rest = enc ++ d).
  { intros n low high Hh Hln -> Hg Hr. apply height_bytes_canonical in Hh as [Hh ->]; [|done|cbn in Hln; lia].
    specialize (Hr Hh). pose proof (write_height_bytes n h d Hr) as Hw. split; [|by exists (Z.of_nat n :: le_bytes n h)].
    apply Forall_app in Hrest as [_ Hd]. split; [done|right]. split; [range_cases n Hr; lia|]. eexists. split; [exact Hw|]. done. }
  unfold parse_coinbase_height in Hp. destruct ((0x51 <=? op) && (op <=? 0x60)) eqn:H1.
  { injection Hp as <- <-. assert (Hw : write_coinbase_height (op - 0x50) rest = Ok [op]).
    { unfold write_coinbase_height. range_tests. do 2 f_equal. lia. }
    split; [|by exists [op]]. split; [done|right]. split; [lia|]. exists [op]. split_and!; [exact Hw|cbn [app length] in Hl |- *; lia..|]. intros [= -> _]. lia. }
  clear H1. destruct ((op =? 1) && _) eqn:H1 in Hp.
  { apply andb_true_iff in H1 as [->%Z.eqb_eq [Hlt%Nat.ltb_lt _]%andb_true_iff]. by apply (Hn 1%nat 17 127). }
  clear H1. destruct ((op =? 2) && _) eqn:H1 in Hp.
  { apply andb_true_iff in H1 as [->%Z.eqb_eq [Hlt%Nat.ltb_lt _]%andb_true_iff]. by apply (Hn 2%nat 128 32767). }
  clear H1. destruct ((op =? 3) && _) eqn:H1 in Hp.
  { apply andb_true_iff in H1 as [->%Z.eqb_eq [Hlt%Nat.ltb_lt _]%andb_true_iff]. by apply (Hn 3%nat 32768 8388607). }
  clear H1. destruct ((op =? 4) && bool_decide _) eqn:H1 in Hp.
  { apply andb_true_iff in H1 as [_ Hg%bool_decide_eq_true]. injection Hp as <- <-. rewrite Hg in Hb |- *.
    split; [by split; [|left]|]. by exists []. }
  destruct ((op =? 4) && _) eqn:H2 in Hp; [|done].
  apply andb_true_iff in H2 as [->%Z.eqb_eq [Hlt%Nat.ltb_lt _]%andb_true_iff].
  apply (Hn 4%nat 8388608 MAX); [done|done|done| |done]. intros Hg. rewrite bool_decide_true in H1 by done. done.
Qed.

Lemma parse_no_panic data : no_panic (parse_coinbase_height data).
Proof.
  assert (∀ n low high, no_panic (height_bytes n low high data)) as Hn.
  { intros n low high. unfold height_bytes. by destruct (_ && _). }
  unfold parse_coinbase_height. destruct data as [|op rest]; [done|].
  repeat match goal with |- no_panic (if ?b then _ else _) => destruct b end; try done.
Qed.

(** *** Inputs *)

Definition input_ok (i : Input) : Prop :=
  match i with
  | PrevOut o s q => valid o ∧ outpoint_hash o ≠ replicate 32 0 ∧ bytes_ok s ∧
      Z.of_nat (length s) ≤ MAX_U8_ALLOCATION ∧ 0 ≤ q < 2 ^ 32
  | Coinbase h d q => coinbase_ok h d ∧ 0 ≤ q < 2 ^ 32
  end.

(** A byte vector with its length before it. *)
Lemma serialize_bytes_parts data : Z.of_nat (length data) ≤ 100 →
  ∃ l, serialize_bytes data = Ok (l ++ data) ∧ bytes_ok l ∧
    ∀ rest, (zcash_deserialize : Parser SerializationError CompactSizeMessage) (l ++ rest) =
      Ok (mkCompactSizeMessage (Z.of_nat (length data)), rest).
Proof.
  intros Hl. destruct (codec_roundtrip (mkCompactSizeMessage (Z.of_nat (length data)))) as (l & He & Hb & Hd).
  { cbn. unfold MAX_PROTOCOL_MESSAGE_LEN. lia. }
  exists l. split_and!; [|done|done]. unfold serialize_bytes. rewrite csm_try_from_spec by int_lia.
  rewrite (proj2 (Z.leb_le _ _)) by (unfold MAX_PROTOCOL_MESSAGE_LEN; lia). by rewrite Ok_bind, He, Ok_bind.
Qed.

Lemma read_parts bs len r data rest : bytes_ok bs →
  (zcash_deserialize : Parser SerializationError CompactSizeMessage) bs = Ok (len, r) →
  deserialize_bytes_external_count (csm len) r = Ok (data, rest) →
  csm len = Z.of_nat (length data) ∧ bytes_ok data ∧ bytes_ok rest ∧ ∃ enc, serialize_bytes data = Ok enc ∧ bs = enc ++ rest.
Proof.
  intros Hb H1 H2. assert (Hv : (zcash_deserialize : Parser SerializationError VecU8) bs = Ok (mkVecU8 data, rest)).
  { unfold zcash_deserialize, VecU8_deserialize. by rewrite H1, Ok_bind, H2, Ok_bind. }
  apply script_canonical in Hv as (Hd & _ & Hr & Henc); [|done]. split_and!; [|done|done|done].
  unfold deserialize_bytes_external_count in H2. destruct (_ <? _); [done|]. apply read_bytes_Ok in H2 as [_ H2].
  apply codec_canonical in H1 as ([Hc _] & _); [|done]. lia.
Qed.

#[export] Program Instance Input_codec : ZcashCodec Input := {| valid i := input_ok i |}.
Next Obligation.
  intros [o s q|h d q] Hi.
  - destruct Hi as (Ho & Hh & Hs & Hl & Hq). pose proof Ho as (_ & Hol & Hoi).
    destruct (codec_roundtrip o) as (oe & He & Hoeb & Hod); [exact Ho|]. destruct (script_read s Hs Hl) as (se & Hse & Hsb & Hsd).
    exists (oe ++ se ++ le_bytes 4 q). split; [|split].
    + unfold zcash_serialize, Input_serialize. by rewrite He, Ok_bind, Hse, Ok_bind.
    + rewrite !bytes_ok_app. auto using le_bytes_ok.
    + intros rest. assert (oe = outpoint_hash o ++ le_bytes 4 (outpoint_index o)) as ->.
      { apply (f_equal (ok_value [])) in He. symmetry. exact He. }
      unfold zcash_deserialize, Input_deserialize. rewrite <- !(assoc_L (++)).
      rewrite read_bytes_app, Ok_bind by done. rewrite bool_decide_false by done. rewrite read_uint_app, Ok_bind by (cbn; lia).
      rewrite Hsd, Ok_bind. rewrite read_uint_app, Ok_bind by (cbn; lia). by destruct o.
  - destruct Hi as (Hc & Hq). destruct (parse_written h d Hc) as (enc & Hw & Hb & Hl & Hp).
    destruct (serialize_bytes_parts (enc ++ d)) as (l & Hs & Hlb & Hd); [lia|].
    exists (replicate 32 0 ++ le_bytes 4 0xffffffff ++ (l ++ enc ++ d) ++ le_bytes 4 q). split; [|split].
    + unfold zcash_serialize, Input_serialize. by rewrite Hw, Ok_bind, Hs, Ok_bind.
    + rewrite !bytes_ok_app in *. split_and!; auto using le_bytes_ok; [by apply Forall_replicate|tauto..].
    + intros rest. unfold zcash_deserialize, Input_deserialize. rewrite <- !(assoc_L (++)).
      rewrite read_bytes_app, Ok_bind by done. rewrite bool_decide_true by done. rewrite read_uint_app, Ok_bind by (cbn; lia).
      cbn [Z.eqb negb Pos.eqb]. rewrite (assoc_L (++) enc d), Hd, Ok_bind. cbn [csm]. unfold MAX_COINBASE_DATA_LEN, MIN_COINBASE_DATA_LEN.
      rewrite !(proj2 (Z.ltb_ge _ _)) by lia. unfold deserialize_bytes_external_count.
      rewrite (proj2 (Z.ltb_ge _ _)) by (unfold MAX_U8_ALLOCATION, MAX_PROTOCOL_MESSAGE_LEN; lia).
      rewrite read_bytes_app, Ok_bind by (by rewrite Nat2Z.id). rewrite Hp, Ok_bind.
      by rewrite read_uint_app, Ok_bind by (cbn; lia).
Qed.
Next Obligation.
  intros bs i rest Hb Hd. apply bind_Ok in Hd as ([hash r] & H1 & Hd). apply read_bytes_Ok in H1 as [-> Hl].
  apply bytes_ok_app in Hb as [Hhb Hb]. case_bool_decide as Hz.
  - apply bind_Ok in Hd as ([ix r1] & H2 & Hd). apply read_uint_Ok in H2 as (-> & _ & Hb1); [|done].
    destruct (Z.eqb_spec ix 0xffffffff) as [->|]; [|done]. cbn [negb] in Hd.
    apply bind_Ok in Hd as ([len r2] & H3 & Hd). unfold MAX_COINBASE_DATA_LEN, MIN_COINBASE_DATA_LEN in Hd.
    destruct (Z.ltb_spec 100 (csm len)); [done|]. destruct (Z.ltb_spec (csm len) 2); [done|].
    apply bind_Ok in Hd as ([data r3] & H4 & ([h d] & Hp & ([q r4] & H5 & Hd)%bind_Ok)%bind_Ok). simplify_eq.
    destruct (read_parts _ _ _ _ _ Hb1 H3 H4) as (Hlen & Hdb & Hb3 & enc & He & ->).
    apply read_uint_Ok in H5 as (-> & Hq & _); [|done].
    apply parse_canonical in Hp as (Hc & w & Hw & ->); [|done|lia]. split; [done|].
    exists (replicate 32 0 ++ le_bytes 4 0xffffffff ++ enc ++ le_bytes 4 q). split; [|by rewrite <- !(assoc_L (++))].
    unfold zcash_serialize, Input_serialize. by rewrite Hw, Ok_bind, He, Ok_bind.
  - apply bind_Ok in Hd as ([ix r1] & H2 & ([s r2] & H3 & ([q r3] & H4 & Hd)%bind_Ok)%bind_Ok). simplify_eq.
    apply read_uint_Ok in H2 as (-> & Hix & Hb1); [|done]. apply script_canonical in H3 as (Hs & Hsl & Hb2 & enc & He & ->); [|done].
    apply read_uint_Ok in H4 as (-> & Hq & _); [|done]. split; [split_and!; [exact (conj Hhb (conj Hl Hix))|done|done|done|cbn in Hq; lia..]|].
    exists ((hash ++ le_bytes 4 ix) ++ enc ++ le_bytes 4 q). split; [|by rewrite <- !(assoc_L (++))].
    unfold zcash_serialize, Input_serialize. rewrite He. done.
Qed.
Next Obligation.
  intros bs. unfold zcash_deserialize, Input_deserialize.
  repeat first [done | apply no_panic_read_uint | apply no_panic_read_bytes | apply codec_total | apply parse_no_panic
    | apply no_panic_bind; [|intros [??] ?]
    | match goal with |- no_panic (if ?b then _ else _) => destruct b end].
  unfold deserialize_bytes_external_count. destruct (_ <? _); [done|]. apply no_panic_read_bytes.
Qed.

(** ** Preallocation *)

Definition MAX_BLOCK_BYTES : Z := 2000000.
Definition MIN_TRANSPARENT_INPUT_SIZE : Z := 32 + 4 + 4 + 1.
Definition MIN_TRANSPARENT_OUTPUT_SIZE : Z := 8 + 1.
#[export] Instance Input_preallocate : TrustedPreallocate Input := MAX_BLOCK_BYTES / MIN_TRANSPARENT_INPUT_SIZE.
#[export] Instance Output_preallocate : TrustedPreallocate Output := MAX_BLOCK_BYTES / MIN_TRANSPARENT_OUTPUT_SIZE.

(** Every length is written to a byte or more. *)
Lemma csm_length (len : CompactSizeMessage) l : zcash_serialize len = Ok l → (1 ≤ length l)%nat.
Proof.
  intros (lim & _ & (u & _ & Hl)%bind_Ok)%bind_Ok. injection Hl as <-. apply Nat.neq_0_lt_0.
  repeat match goal with |- context [if ?b then _ else _] => destruct b end; done.
Qed.
Lemma serialize_bytes_length s e : serialize_bytes s = Ok e → (1 + length s ≤ length e)%nat.
Proof. intros (len & _ & (l & Hl%csm_length & [= <-])%bind_Ok)%bind_Ok. rewrite length_app. lia. Qed.

Lemma input_length i enc : input_ok i → Input_serialize i = Ok enc → 41 ≤ Z.of_nat (length enc).
Proof.
  destruct i as [o s q|h d q].
  - intros ((_ & Hl & _) & _) (oe & [= <-] & (se & Hse%serialize_bytes_length & [= <-])%bind_Ok)%bind_Ok.
    rewrite !length_app, Hl. cbn [length]. lia.
  - intros _ (he & _ & (se & Hse%serialize_bytes_length & Heq)%bind_Ok)%bind_Ok. apply (f_equal (ok_value [])) in Heq. cbn [ok_value] in Heq.
    rewrite <- Heq, !length_app, length_replicate, !length_le_bytes. lia.
Qed.

(** Transparent inputs have one encoding each. An input with an outpoint other than the
    null one, or a coinbase input whose height and data are not those of the genesis data, is
    written to at least [MIN_TRANSPARENT_INPUT_SIZE] bytes that read back as it; whatever bytes read as an
    input are the encoding of that input, and the height they contain is written in the
    shortest way; and reading never panics. *)
Theorem input_codec :
  (∀ i, input_ok i → ∃ enc, Input_serialize i = Ok enc ∧ MIN_TRANSPARENT_INPUT_SIZE ≤ Z.of_nat (length enc) ∧
     ∀ rest, Input_deserialize (enc ++ rest) = Ok (i, rest)) ∧
  (∀ bs i rest, bytes_ok bs → Input_deserialize bs = Ok (i, rest) →
     input_ok i ∧ ∃ enc, Input_serialize i = Ok enc ∧ bs = enc ++ rest) ∧
  (∀ bs, no_panic (Input_deserialize bs)).
Proof.
  split_and!.
  - intros i Hi. destruct (codec_roundtrip i) as (enc & Hs & _ & Hd); [exact Hi|]. exists enc.
    split; [exact Hs|]. split; [|exact Hd]. by apply input_length with i.
  - intros bs i rest Hb Hd. exact (codec_canonical (T := Input) bs i rest Hb Hd).
  - apply (codec_total (T := Input)).
Qed.

(** The null outpoint is read as a coinbase input, and a coinbase input at height 520617983 with
    the rest of the genesis data is read as the genesis input. *)
Lemma genesis_data_ambiguous :
  ∃ enc, Input_serialize (Coinbase 520617983 (drop 5 GENESIS_COINBASE_DATA) 0) = Ok enc ∧
    Input_deserialize enc = Ok (Coinbase 0 GENESIS_COINBASE_DATA 0, []).
Proof.
  exists (ok_value [] (Input_serialize (Coinbase 520617983 (drop 5 GENESIS_COINBASE_DATA) 0))).
  split; [apply ok_value_eq; vm_compute; reflexivity|vm_compute; reflexivity].
Qed.
