(* ===== verification/ShieldedCodec.v ===== *)
(** * The encodings of shielded data

    The [ZcashSerialize] and [ZcashDeserialize] implementations of JoinSplits
    ([zebra-chain/src/sprout/joinsplit.rs]), Sapling spends and outputs ([sapling/spend.rs],
    [sapling/output.rs], [sapling/commitment.rs], [sapling/keys.rs], [sapling/tree.rs]), Orchard actions
    ([orchard/action.rs], [orchard/shielded_data.rs] and its parts), and the encodings of the shielded data of a
    transaction in [zebra-chain/src/transaction/serialize.rs].

    Points and field elements are their encodings: whether the libraries decode 32 bytes to an
    element is a class parameter, and an element is encoded as the bytes it was decoded from. *)

From stdpp Require Import strings.
From S2P Require Import Prelude Amount Serialization Codec Transaction TransparentCodec.

Class CurveLib := {
  (** [sapling_crypto::value::ValueCommitment::from_bytes_not_small_order] *)
  value_commitment_from_bytes : list Z → bool;
  (** [sapling_crypto::note::ExtractedNoteCommitment::from_bytes] *)
  note_commitment_from_bytes : list Z → bool;
  (** [jubjub::AffinePoint::from_bytes] and [is_small_order] *)
  jubjub_point : list Z → bool;
  jubjub_small_order : list Z → bool;
  (** [jubjub::Base::from_bytes] *)
  jubjub_base : list Z → bool;
  (** [redjubjub::VerificationKey::try_from] *)
  redjubjub_key : list Z → bool;
  (** [pallas::Base::from_repr], [pallas::Affine::from_bytes] and [is_identity] *)
  pallas_base : list Z → bool;
  pallas_point : list Z → bool;
  pallas_identity : list Z → bool;
}.

(** A RedJubjub verification key is the encoding of a point. *)
Class CurveLaws `{!CurveLib} : Prop := { key_is_point : ∀ b, redjubjub_key b = true → jubjub_point b = true }.

(** Byte arrays: proofs, signatures and ciphertexts. *)
Definition array_serialize : ZcashSerialize (list Z) := λ self, Ok self.
Definition array_deserialize (n : nat) : ZcashDeserialize (list Z) := read_bytes n.

(** [zcash_serialize_empty_list]. *)
Definition serialize_empty_list : Res SerializationError (list Z) := zcash_serialize (mkCompactSizeMessage 0).

Section Shielded.
Context `{CL : !CurveLib}.

(** 32 bytes that a library decodes. *)
Definition read_element (try_from : list Z → Res SerializationError unit) : Reader (list Z) := λ reader,
  '(bytes, reader) ← read_bytes 32 reader;
  _ ← try_from bytes;
  Ok (bytes, reader).
Definition decodes (accepts : list Z → bool) (msg : string) (bytes : list Z) : Res SerializationError unit :=
  if accepts bytes then Ok tt else Err (Parse msg).

(** ** Sprout *)

(** The trait [ZkSnarkProof]: the size of a proof, and of the JoinSplits with such proofs. *)
Definition BCTV14_PROOF_SIZE : nat := 296.
Definition GROTH16_PROOF_SIZE : nat := 192.
Definition JOINSPLIT_SIZE_WITHOUT_ZKPROOF : Z := 8 + 8 + 32 + 32 * 2 + 32 * 2 + 32 + 32 + 32 * 2 + 601 * 2.
Definition JoinSplit_preallocate (proof_size : nat) : TrustedPreallocate JoinSplit :=
  (MAX_BLOCK_BYTES - 1) / (JOINSPLIT_SIZE_WITHOUT_ZKPROOF + Z.of_nat proof_size).

Definition JoinSplit_serialize : ZcashSerialize JoinSplit := λ self,
  old ← zcash_serialize (vpub_old self);
  new ← zcash_serialize (vpub_new self);
  Ok (old ++ new ++ joinsplit_anchor self ++
      nth 0 (joinsplit_nullifiers self) [] ++ nth 1 (joinsplit_nullifiers self) [] ++
      nth 0 (joinsplit_commitments self) [] ++ nth 1 (joinsplit_commitments self) [] ++
      joinsplit_ephemeral_key self ++ random_seed self ++
      nth 0 (vmacs self) [] ++ nth 1 (vmacs self) [] ++ joinsplit_zkproof self ++
      nth 0 (joinsplit_enc_ciphertexts self) [] ++ nth 1 (joinsplit_enc_ciphertexts self) []).

Definition JoinSplit_deserialize (proof_size : nat) : ZcashDeserialize JoinSplit := λ reader,
  '(vpub_old, reader) ← (zcash_deserialize : Reader (Amount NonNegative)) reader;
  '(vpub_new, reader) ← (zcash_deserialize : Reader (Amount NonNegative)) reader;
  '(anchor, reader) ← read_bytes 32 reader;
  '(nullifier_0, reader) ← read_bytes 32 reader;
  '(nullifier_1, reader) ← read_bytes 32 reader;
  '(commitment_0, reader) ← read_bytes 32 reader;
  '(commitment_1, reader) ← read_bytes 32 reader;
  '(ephemeral_key, reader) ← read_bytes 32 reader;
  '(random_seed, reader) ← read_bytes 32 reader;
  '(vmac_0, reader) ← read_bytes 32 reader;
  '(vmac_1, reader) ← read_bytes 32 reader;
  '(zkproof, reader) ← read_bytes proof_size reader;
  '(enc_ciphertext_0, reader) ← read_bytes 601 reader;
  '(enc_ciphertext_1, reader) ← read_bytes 601 reader;
  Ok (mkJoinSplit vpub_old vpub_new anchor [nullifier_0; nullifier_1] [commitment_0; commitment_1]
        ephemeral_key random_seed [vmac_0; vmac_1] zkproof [enc_ciphertext_0; enc_ciphertext_1], reader).

Definition JoinSplitData_serialize : ZcashSerialize JoinSplitData := λ self,
  joinsplits ← Vec_serialize _ (H := JoinSplit_serialize) (joinsplits self);
  Ok (joinsplits ++ pub_key self ++ sig self).
Definition joinsplit_data_serialize (self : option JoinSplitData) : Res SerializationError (list Z) :=
  match self with
  | None => serialize_empty_list
  | Some joinsplit_data => JoinSplitData_serialize joinsplit_data
  end.

Definition joinsplit_data_deserialize (proof_size : nat) : Reader (option JoinSplitData) := λ reader,
  '(joinsplits, reader) ←
    @Vec_deserialize JoinSplit (JoinSplit_deserialize proof_size) (JoinSplit_preallocate proof_size) reader;
  match joinsplits with
  | [] => Ok (None, reader)
  | first :: rest =>
      '(pub_key, reader) ← read_bytes 32 reader;
      '(sig, reader) ← read_bytes 64 reader;
      Ok (Some (mkJoinSplitData first rest pub_key sig), reader)
  end.

(** ** Sapling *)

Definition sapling_value_commitment : list Z → Res SerializationError unit :=
  decodes value_commitment_from_bytes "invalid ValueCommitment bytes".
Definition sapling_note_commitment : list Z → Res SerializationError unit :=
  decodes note_commitment_from_bytes "invalid ExtractedNoteCommitment bytes".
Definition sapling_root : list Z → Res SerializationError unit :=
  decodes jubjub_base "Invalid jubjub::Base value for Sapling note commitment tree root".

(** [EphemeralPublicKey::try_from]. *)
Definition sapling_ephemeral_key (bytes : list Z) : Res SerializationError unit :=
  if negb (jubjub_point bytes)
  then Err (Parse "Invalid jubjub::AffinePoint value for Sapling EphemeralPublicKey")
  else if jubjub_small_order bytes
  then Err (Parse "jubjub::AffinePoint value for Sapling EphemeralPublicKey point is of small order")
  else Ok tt.

(** [ValidatingKey::try_from]: the decoding of the key as a point is unwrapped. *)
Definition validating_key (bytes : list Z) : Res SerializationError unit :=
  if negb (redjubjub_key bytes)
  then Err (Parse "Invalid redjubjub::ValidatingKey for Sapling ValidatingKey")
  else if negb (jubjub_point bytes) then Panic
  else if jubjub_small_order bytes
  then Err (Parse "jubjub::AffinePoint value for Sapling ValidatingKey is of small order")
  else Ok tt.

(** [Spend<PerSpendAnchor>], in a [V4] transaction. *)
Definition Spend_serialize : ZcashSerialize (Spend Hash) := λ self,
  Ok (spend_cv self ++ per_spend_anchor self ++ spend_nullifier self ++ spend_rk self ++
      spend_zkproof self ++ spend_auth_sig self).
Definition Spend_deserialize : ZcashDeserialize (Spend Hash) := λ reader,
  '(cv, reader) ← read_element sapling_value_commitment reader;
  '(per_spend_anchor, reader) ← read_element sapling_root reader;
  '(nullifier, reader) ← read_bytes 32 reader;
  '(rk, reader) ← read_element validating_key reader;
  '(zkproof, reader) ← read_bytes 192 reader;
  '(spend_auth_sig, reader) ← read_bytes 64 reader;
  Ok (mkSpend cv per_spend_anchor nullifier rk zkproof spend_auth_sig, reader).

Record SpendPrefixInTransactionV5 := mkSpendPrefix { prefix_cv : list Z; prefix_nullifier : Hash; prefix_rk : list Z }.

Definition spend_from_v5_parts (prefix : SpendPrefixInTransactionV5) (zkproof spend_auth_sig : list Z) :
    Spend FieldNotPresent :=
  mkSpend (prefix_cv prefix) mkFieldNotPresent (prefix_nullifier prefix) (prefix_rk prefix) zkproof spend_auth_sig.
Definition spend_into_v5_parts (self : Spend FieldNotPresent) : SpendPrefixInTransactionV5 * list Z * list Z :=
  (mkSpendPrefix (spend_cv self) (spend_nullifier self) (spend_rk self), spend_zkproof self, spend_auth_sig self).

Definition SpendPrefix_serialize : ZcashSerialize SpendPrefixInTransactionV5 := λ self,
  Ok (prefix_cv self ++ prefix_nullifier self ++ prefix_rk self).
Definition SpendPrefix_deserialize : ZcashDeserialize SpendPrefixInTransactionV5 := λ reader,
  '(cv, reader) ← read_element sapling_value_commitment reader;
  '(nullifier, reader) ← read_bytes 32 reader;
  '(rk, reader) ← read_element validating_key reader;
  Ok (mkSpendPrefix cv nullifier rk, reader).

Definition SHARED_ANCHOR_SPEND_PREFIX_SIZE : Z := 32 + 32 + 32.
Definition SHARED_ANCHOR_SPEND_SIZE : Z := SHARED_ANCHOR_SPEND_PREFIX_SIZE + 192 + 64.
Definition ANCHOR_PER_SPEND_SIZE : Z := SHARED_ANCHOR_SPEND_SIZE + 32.
Definition Spend_preallocate : TrustedPreallocate (Spend Hash) := (MAX_BLOCK_BYTES - 1) / ANCHOR_PER_SPEND_SIZE.
Definition SpendPrefix_preallocate : TrustedPreallocate SpendPrefixInTransactionV5 :=
  (MAX_BLOCK_BYTES - 1) / SHARED_ANCHOR_SPEND_SIZE.
Definition sapling_signature_preallocate : TrustedPreallocate (list Z) := SpendPrefix_preallocate.

(** [OutputInTransactionV4]. *)
Definition OutputV4_serialize : ZcashSerialize SaplingOutput := λ self,
  Ok (output_cv self ++ cm_u self ++ output_ephemeral_key self ++ output_enc_ciphertext self ++
      output_out_ciphertext self ++ output_zkproof self).
Definition OutputV4_deserialize : ZcashDeserialize SaplingOutput := λ reader,
  '(cv, reader) ← read_element sapling_value_commitment reader;
  '(cm_u, reader) ← read_element sapling_note_commitment reader;
  '(ephemeral_key, reader) ← read_element sapling_ephemeral_key reader;
  '(enc_ciphertext, reader) ← read_bytes 580 reader;
  '(out_ciphertext, reader) ← read_bytes 80 reader;
  '(zkproof, reader) ← read_bytes 192 reader;
  Ok (mkSaplingOutput cv cm_u ephemeral_key enc_ciphertext out_ciphertext zkproof, reader).

Record OutputPrefixInTransactionV5 := mkOutputPrefix {
  oprefix_cv : list Z;
  oprefix_cm_u : Hash;
  oprefix_ephemeral_key : list Z;
  oprefix_enc_ciphertext : list Z;
  oprefix_out_ciphertext : list Z;
}.

Definition output_from_v5_parts (prefix : OutputPrefixInTransactionV5) (zkproof : list Z) : SaplingOutput :=
  mkSaplingOutput (oprefix_cv prefix) (oprefix_cm_u prefix) (oprefix_ephemeral_key prefix)
    (oprefix_enc_ciphertext prefix) (oprefix_out_ciphertext prefix) zkproof.
Definition output_into_v5_parts (self : SaplingOutput) : OutputPrefixInTransactionV5 * list Z :=
  (mkOutputPrefix (output_cv self) (cm_u self) (output_ephemeral_key self) (output_enc_ciphertext self)
     (output_out_ciphertext self), output_zkproof self).

Definition OutputPrefix_serialize : ZcashSerialize OutputPrefixInTransactionV5 := λ self,
  Ok (oprefix_cv self ++ oprefix_cm_u self ++ oprefix_ephemeral_key self ++ oprefix_enc_ciphertext self ++
      oprefix_out_ciphertext self).
Definition OutputPrefix_deserialize : ZcashDeserialize OutputPrefixInTransactionV5 := λ reader,
  '(cv, reader) ← read_element sapling_value_commitment reader;
  '(cm_u, reader) ← read_element sapling_note_commitment reader;
  '(ephemeral_key, reader) ← read_element sapling_ephemeral_key reader;
  '(enc_ciphertext, reader) ← read_bytes 580 reader;
  '(out_ciphertext, reader) ← read_bytes 80 reader;
  Ok (mkOutputPrefix cv cm_u ephemeral_key enc_ciphertext out_ciphertext, reader).

Definition OUTPUT_PREFIX_SIZE : Z := 32 + 32 + 32 + 580 + 80.
Definition OUTPUT_SIZE : Z := OUTPUT_PREFIX_SIZE + 192.
Definition OutputV4_preallocate : TrustedPreallocate SaplingOutput := (MAX_BLOCK_BYTES - 1) / OUTPUT_SIZE.
Definition OutputPrefix_preallocate : TrustedPreallocate OutputPrefixInTransactionV5 := OutputV4_preallocate.
Definition groth16_preallocate : TrustedPreallocate (list Z) := Z.max SpendPrefix_preallocate OutputPrefix_preallocate.

(** [ShieldedData<SharedAnchor>], in a [V5] transaction. *)
Definition SaplingV5_serialize : ZcashSerialize (SaplingShieldedData Hash FieldNotPresent) := λ self,
  let spend_prefixes := (λ s, (spend_into_v5_parts s).1.1) <$> spends self in
  let spend_proofs := (λ s, (spend_into_v5_parts s).1.2) <$> spends self in
  let spend_sigs := (λ s, (spend_into_v5_parts s).2) <$> spends self in
  let output_prefixes := (λ o, (output_into_v5_parts o).1) <$> sapling_data_outputs self in
  let output_proofs := (λ o, (output_into_v5_parts o).2) <$> sapling_data_outputs self in
  spend_prefixes ← Vec_serialize _ (H := SpendPrefix_serialize) spend_prefixes;
  output_prefixes ← Vec_serialize _ (H := OutputPrefix_serialize) output_prefixes;
  value_balance ← zcash_serialize (sapling_value self);
  spend_proofs ← @serialize_external_count _ array_serialize spend_proofs;
  spend_sigs ← @serialize_external_count _ array_serialize spend_sigs;
  output_proofs ← @serialize_external_count _ array_serialize output_proofs;
  Ok (spend_prefixes ++ output_prefixes ++ value_balance ++ default [] (shared_anchor self) ++
      spend_proofs ++ spend_sigs ++ output_proofs ++ sapling_binding_sig self).
Definition sapling_v5_serialize (self : option (SaplingShieldedData Hash FieldNotPresent)) :
    Res SerializationError (list Z) :=
  match self with
  | None => spends ← serialize_empty_list; outputs ← serialize_empty_list; Ok (spends ++ outputs)
  | Some sapling_shielded_data => SaplingV5_serialize sapling_shielded_data
  end.

Definition deserialize_v5_sapling_shielded_data (is_coinbase : bool) :
    Reader (option (SaplingShieldedData Hash FieldNotPresent)) := λ reader,
  '(spend_count, reader) ← (zcash_deserialize : Reader CompactSizeMessage) reader;
  if is_coinbase && (0 <? csm spend_count)
  then Err (Parse "coinbase transaction must not have Sapling spends") else
  '(spend_prefixes, reader) ←
    @deserialize_external_count _ SpendPrefix_deserialize SpendPrefix_preallocate (csm spend_count) reader;
  '(output_prefixes, reader) ← @Vec_deserialize _ OutputPrefix_deserialize OutputPrefix_preallocate reader;
  let spends_count := Z.of_nat (length spend_prefixes) in
  let outputs_count := Z.of_nat (length output_prefixes) in
  if (spends_count =? 0) && (outputs_count =? 0) then Ok (None, reader) else
  '(value_balance, reader) ← (zcash_deserialize : Reader (Amount NegativeAllowed)) reader;
  '(shared_anchor, reader) ←
    (if 0 <? spends_count then '(anchor, reader) ← read_element sapling_root reader; Ok (Some anchor, reader)
     else Ok (None, reader));
  '(spend_proofs, reader) ←
    @deserialize_external_count _ (array_deserialize 192) groth16_preallocate spends_count reader;
  '(spend_sigs, reader) ←
    @deserialize_external_count _ (array_deserialize 64) sapling_signature_preallocate spends_count reader;
  '(output_proofs, reader) ←
    @deserialize_external_count _ (array_deserialize 192) groth16_preallocate outputs_count reader;
  '(binding_sig, reader) ← read_bytes 64 reader;
  let spends := zip_with (λ p sig, spend_from_v5_parts p.1 p.2 sig) (zip spend_prefixes spend_proofs) spend_sigs in
  let outputs := zip_with output_from_v5_parts output_prefixes output_proofs in
  transfers ← match shared_anchor with
              | Some shared_anchor =>
                  _ ← assert (negb (bool_decide (spends = [])));
                  Ok (SpendsAndMaybeOutputs shared_anchor spends outputs)
              | None =>
                  _ ← assert (negb (bool_decide (outputs = [])));
                  Ok (JustOutputs outputs)
              end;
  Ok (Some (mkSapling value_balance transfers binding_sig), reader).

(** ** Orchard *)

Definition orchard_value_commitment : list Z → Res SerializationError unit :=
  decodes pallas_point "Invalid pallas::Affine value".
Definition orchard_nullifier : list Z → Res SerializationError unit :=
  decodes pallas_base "Invalid pallas::Base value for orchard Nullifier".
Definition orchard_cm_x : list Z → Res SerializationError unit :=
  decodes pallas_base "Invalid pallas::Base, input not canonical".
Definition orchard_root : list Z → Res SerializationError unit :=
  decodes pallas_base "Invalid pallas::Base value for Orchard note commitment tree root".
Definition orchard_rk (rk_bytes : list Z) : Res SerializationError unit :=
  if bool_decide (rk_bytes = replicate 32 0)
  then Err (Parse "Orchard action rk must not be the identity point") else Ok tt.
Definition orchard_ephemeral_key (bytes : list Z) : Res SerializationError unit :=
  if pallas_point bytes then
    if pallas_identity bytes
    then Err (Parse "pallas::Affine value for Orchard EphemeralPublicKey is the identity") else Ok tt
  else Err (Parse "Invalid pallas::Affine value for Orchard EphemeralPublicKey").

Definition Action_serialize : ZcashSerialize Action := λ self,
  Ok (action_cv self ++ action_nullifier self ++ action_rk self ++ cm_x self ++ action_ephemeral_key self ++
      action_enc_ciphertext self ++ action_out_ciphertext self).
Definition Action_deserialize : ZcashDeserialize Action := λ reader,
  '(cv, reader) ← read_element orchard_value_commitment reader;
  '(nullifier, reader) ← read_element orchard_nullifier reader;
  '(rk, reader) ← read_element orchard_rk reader;
  '(cm_x, reader) ← read_element orchard_cm_x reader;
  '(ephemeral_key, reader) ← read_element orchard_ephemeral_key reader;
  '(enc_ciphertext, reader) ← read_bytes 580 reader;
  '(out_ciphertext, reader) ← read_bytes 80 reader;
  Ok (mkAction cv nullifier rk cm_x ephemeral_key enc_ciphertext out_ciphertext, reader).

Definition ACTION_SIZE : Z := 5 * 32 + 580 + 80.
Definition SPEND_AUTH_SIG_SIZE : Z := 64.
Definition AUTHORIZED_ACTION_SIZE : Z := ACTION_SIZE + SPEND_AUTH_SIG_SIZE.
Definition Action_preallocate : TrustedPreallocate Action := (MAX_BLOCK_BYTES - 1) / AUTHORIZED_ACTION_SIZE.
Definition orchard_signature_preallocate : TrustedPreallocate (list Z) := Action_preallocate.

(** [Flags::from_bits]: no bits but those of the flags. *)
Definition flags_from_bits (bits : Z) : Res SerializationError unit :=
  if Z.land bits (Z.lnot (Z.lor ENABLE_SPENDS ENABLE_OUTPUTS)) =? 0 then Ok tt
  else Err (Parse "invalid reserved orchard flags").
Definition Flags_deserialize : Reader Z := λ reader,
  '(bits, reader) ← read_uint 1 reader;
  _ ← flags_from_bits bits;
  Ok (bits, reader).
Definition Flags_serialize (self : Z) : Res SerializationError (list Z) := Ok (le_bytes 1 self).

Definition Orchard_serialize : ZcashSerialize OrchardShieldedData := λ self,
  let sigs := action_spend_auth_sig <$> authorized_actions self in
  actions ← Vec_serialize _ (H := Action_serialize) (action <$> authorized_actions self);
  flags ← Flags_serialize (flags self);
  value_balance ← zcash_serialize (orchard_value self);
  proof ← serialize_bytes (proof self);
  sigs ← @serialize_external_count _ array_serialize sigs;
  Ok (actions ++ flags ++ value_balance ++ orchard_shared_anchor self ++ proof ++ sigs ++ orchard_binding_sig self).
Definition orchard_serialize (self : option OrchardShieldedData) : Res SerializationError (list Z) :=
  match self with
  | None => serialize_empty_list
  | Some orchard_shielded_data => Orchard_serialize orchard_shielded_data
  end.

Definition orchard_deserialize : Reader (option OrchardShieldedData) := λ reader,
  '(actions, reader) ← @Vec_deserialize _ Action_deserialize Action_preallocate reader;
  if Z.of_nat (length actions) =? 0 then Ok (None, reader) else
  '(flags, reader) ← Flags_deserialize reader;
  '(value_balance, reader) ← (zcash_deserialize : Reader (Amount NegativeAllowed)) reader;
  '(shared_anchor, reader) ← read_element orchard_root reader;
  '(proof, reader) ← (zcash_deserialize : Reader VecU8) reader;
  '(sigs, reader) ←
    @deserialize_external_count _ (array_deserialize 64) orchard_signature_preallocate
      (Z.of_nat (length actions)) reader;
  '(binding_sig, reader) ← read_bytes 64 reader;
  let authorized_actions := zip_with mkAuthorizedAction actions sigs in
  _ ← (if bool_decide (authorized_actions = []) then Err (Parse "vector length out of bounds") else Ok tt);
  Ok (Some (mkOrchard flags value_balance shared_anchor (u8s proof) authorized_actions binding_sig), reader).

End Shielded.

(** ** The codecs of the descriptions *)

(** Readers of records: both sides read the same parts in the same order. *)
Ltac same_reads :=
  repeat match goal with
  | |- context [mbind _ (?d ?r)] => lazymatch d with context [mbind] => fail | _ => idtac end;
      destruct (d r) as [[? ?]| |]; cbn [mbind Res_bind]; try reflexivity
  end.

(** A check of 32 bytes that accepts the bytes of an element, and does not panic. *)
Class Element (try_from : list Z → Res SerializationError unit) := element_no_panic b : no_panic (try_from b).
Definition element (try_from : list Z → Res SerializationError unit) (b : list Z) : Prop :=
  bytes_n 32 b ∧ try_from b = Ok tt.

Lemma codec_element try_from `{!Element try_from} : codec Ok (read_element try_from) (element try_from).
Proof. apply (codec_check _ _ _ _ _ (codec_bytes 32)); [intros; apply element_no_panic|done]. Qed.

Section Codecs.
Context `{CL : !CurveLib, CW : !CurveLaws}.
Local Open Scope codec_scope.

#[local] Instance decodes_element accepts msg : Element (decodes accepts msg).
Proof. intros b. unfold decodes. by destruct (accepts b). Qed.
#[local] Instance sapling_ephemeral_key_element : Element sapling_ephemeral_key.
Proof. intros b. unfold sapling_ephemeral_key. destruct (negb _); [done|]. by destruct (jubjub_small_order b). Qed.
#[local] Instance validating_key_element : Element validating_key.
Proof.
  intros b. unfold validating_key. destruct (redjubjub_key b) eqn:Hk; [|done]. rewrite (key_is_point b Hk). cbn.
  by destruct (jubjub_small_order b).
Qed.
#[local] Instance orchard_rk_element : Element orchard_rk.
Proof. intros b. unfold orchard_rk. by case_bool_decide. Qed.
#[local] Instance orchard_ephemeral_key_element : Element orchard_ephemeral_key.
Proof. intros b. unfold orchard_ephemeral_key. destruct (pallas_point b); [|done]. by destruct (pallas_identity b). Qed.
#[local] Hint Extern 0 (Element sapling_value_commitment) => apply decodes_element : typeclass_instances.
#[local] Hint Extern 0 (Element sapling_note_commitment) => apply decodes_element : typeclass_instances.
#[local] Hint Extern 0 (Element sapling_root) => apply decodes_element : typeclass_instances.
#[local] Hint Extern 0 (Element orchard_value_commitment) => apply decodes_element : typeclass_instances.
#[local] Hint Extern 0 (Element orchard_nullifier) => apply decodes_element : typeclass_instances.
#[local] Hint Extern 0 (Element orchard_cm_x) => apply decodes_element : typeclass_instances.
#[local] Hint Extern 0 (Element orchard_root) => apply decodes_element : typeclass_instances.

Definition action_ok (a : Action) : Prop :=
  element orchard_value_commitment (action_cv a) ∧ element orchard_nullifier (action_nullifier a) ∧
  element orchard_rk (action_rk a) ∧ element orchard_cm_x (cm_x a) ∧
  element orchard_ephemeral_key (action_ephemeral_key a) ∧ bytes_n 580 (action_enc_ciphertext a) ∧
  bytes_n 80 (action_out_ciphertext a).

Lemma action_codec : codec Action_serialize Action_deserialize action_ok.
Proof.
  apply (codec_map _ _ _ (λ '(cv, (nf, (rk, (cm, (ek, (enc, out)))))), mkAction cv nf rk cm ek enc out) _ _ _
    (codec_element orchard_value_commitment ;; codec_element orchard_nullifier ;; codec_element orchard_rk ;;
     codec_element orchard_cm_x ;; codec_element orchard_ephemeral_key ;; codec_bytes 580 ;; codec_bytes 80)).
  - intros (cv & nf & rk & cm & ek & enc & out) H. split; [exact H|reflexivity].
  - intros [cv nf rk cm ek enc out] H. by exists (cv, (nf, (rk, (cm, (ek, (enc, out)))))).
  - intros bs. unfold Action_deserialize, read_seq. same_reads.
Qed.

Definition spend_ok (s : Spend Hash) : Prop :=
  element sapling_value_commitment (spend_cv s) ∧ element sapling_root (per_spend_anchor s) ∧
  bytes_n 32 (spend_nullifier s) ∧ element validating_key (spend_rk s) ∧
  bytes_n 192 (spend_zkproof s) ∧ bytes_n 64 (spend_auth_sig s).

Lemma spend_codec : codec Spend_serialize Spend_deserialize spend_ok.
Proof.
  apply (codec_map _ _ _ (λ '(cv, (a, (nf, (rk, (pf, sg))))), mkSpend cv a nf rk pf sg) _ _ _
    (codec_element sapling_value_commitment ;; codec_element sapling_root ;; codec_bytes 32 ;;
     codec_element validating_key ;; codec_bytes 192 ;; codec_bytes 64)).
  - intros (cv & a & nf & rk & pf & sg) H. split; [exact H|reflexivity].
  - intros [cv a nf rk pf sg] H. by exists (cv, (a, (nf, (rk, (pf, sg))))).
  - intros bs. unfold Spend_deserialize, read_seq. same_reads.
Qed.

Definition spend_prefix_ok (s : SpendPrefixInTransactionV5) : Prop :=
  element sapling_value_commitment (prefix_cv s) ∧ bytes_n 32 (prefix_nullifier s) ∧
  element validating_key (prefix_rk s).

Lemma spend_prefix_codec : codec SpendPrefix_serialize SpendPrefix_deserialize spend_prefix_ok.
Proof.
  apply (codec_map _ _ _ (λ '(cv, (nf, rk)), mkSpendPrefix cv nf rk) _ _ _
    (codec_element sapling_value_commitment ;; codec_bytes 32 ;; codec_element validating_key)).
  - intros (cv & nf & rk) H. split; [exact H|reflexivity].
  - intros [cv nf rk] H. by exists (cv, (nf, rk)).
  - intros bs. unfold SpendPrefix_deserialize, read_seq. same_reads.
Qed.

Definition output_prefix_ok (o : OutputPrefixInTransactionV5) : Prop :=
  element sapling_value_commitment (oprefix_cv o) ∧ element sapling_note_commitment (oprefix_cm_u o) ∧
  element sapling_ephemeral_key (oprefix_ephemeral_key o) ∧ bytes_n 580 (oprefix_enc_ciphertext o) ∧
  bytes_n 80 (oprefix_out_ciphertext o).

Lemma output_prefix_codec : codec OutputPrefix_serialize OutputPrefix_deserialize output_prefix_ok.
Proof.
  apply (codec_map _ _ _ (λ '(cv, (cm, (ek, (enc, out)))), mkOutputPrefix cv cm ek enc out) _ _ _
    (codec_element sapling_value_commitment ;; codec_element sapling_note_commitment ;;
     codec_element sapling_ephemeral_key ;; codec_bytes 580 ;; codec_bytes 80)).
  - intros (cv & cm & ek & enc & out) H. split; [exact H|reflexivity].
  - intros [cv cm ek enc out] H. by exists (cv, (cm, (ek, (enc, out)))).
  - intros bs. unfold OutputPrefix_deserialize, read_seq. same_reads.
Qed.

Definition sapling_output_ok (o : SaplingOutput) : Prop :=
  output_prefix_ok (output_into_v5_parts o).1 ∧ bytes_n 192 (output_zkproof o).

Lemma output_v4_codec : codec OutputV4_serialize OutputV4_deserialize sapling_output_ok.
Proof.
  apply (codec_map _ _ _ (λ p, output_from_v5_parts p.1 p.2) _ _ _ (output_prefix_codec ;; codec_bytes 192)).
  - intros [p pf] H. split; [by destruct p|]. unfold write_seq, OutputPrefix_serialize, OutputV4_serialize.
    cbn. by rewrite <- !(assoc_L (++)).
  - intros [cv cm ek enc out pf] H. by exists (mkOutputPrefix cv cm ek enc out, pf).
  - intros bs. unfold OutputV4_deserialize, read_seq, OutputPrefix_deserialize. same_reads.
Qed.

Definition joinsplit_wire_ok (proof_size : nat) (j : JoinSplit) : Prop :=
  joinsplit_ok j ∧ bytes_n 32 (joinsplit_anchor j) ∧
  (length (joinsplit_nullifiers j) = 2%nat ∧ Forall (bytes_n 32) (joinsplit_nullifiers j)) ∧
  (length (joinsplit_commitments j) = 2%nat ∧ Forall (bytes_n 32) (joinsplit_commitments j)) ∧
  bytes_n 32 (joinsplit_ephemeral_key j) ∧ bytes_n 32 (random_seed j) ∧
  (length (vmacs j) = 2%nat ∧ Forall (bytes_n 32) (vmacs j)) ∧ bytes_n proof_size (joinsplit_zkproof j) ∧
  (length (joinsplit_enc_ciphertexts j) = 2%nat ∧ Forall (bytes_n 601) (joinsplit_enc_ciphertexts j)).

(** Two arrays of [n] bytes. *)
Lemma codec_two n : codec (λ l, Ok (nth 0 l [] ++ nth 1 l []))
  (λ bs, '(a, bs) ← read_bytes n bs; '(b, bs) ← read_bytes n bs; Ok ([a; b], bs))
  (λ l, length l = 2%nat ∧ Forall (bytes_n n) l).
Proof.
  apply (codec_map _ _ _ (λ '(a, b), [a; b]) _ _ _ (codec_bytes n ;; codec_bytes n)).
  - intros [a b] [Ha Hb]. split; [|reflexivity]. split; [done|]. by apply Forall_cons_2, Forall_cons_2, Forall_nil_2.
  - intros l [Hl Hf]. destruct l as [|a [|b [|]]]; try done. exists (a, b). split; [|done].
    rewrite !Forall_cons in Hf. naive_solver.
  - intros bs. unfold read_seq. same_reads.
Qed.

Lemma joinsplit_codec n : codec JoinSplit_serialize (JoinSplit_deserialize n) (joinsplit_wire_ok n).
Proof.
  apply (codec_map _ _ _ (λ '(o, (w, (a, (nf, (cm, (ek, (rs, (vm, (pf, en))))))))), mkJoinSplit o w a nf cm ek rs vm pf en) _ _ _
    (codec_class (T := Amount NonNegative) ;; codec_class (T := Amount NonNegative) ;; codec_bytes 32 ;; codec_two 32 ;;
     codec_two 32 ;; codec_bytes 32 ;; codec_bytes 32 ;; codec_two 32 ;; codec_bytes n ;; codec_two 601)).
  - intros (o & w & a & nf & cm & ek & rs & vm & pf & en) (Ho & Hw & H). split; [exact (conj (conj Ho Hw) H)|].
    unfold write_seq, JoinSplit_serialize. cbn [fst snd vpub_old vpub_new].
    destruct (zcash_serialize o); cbn [mbind Res_bind]; [|done|done].
    destruct (zcash_serialize w); cbn [mbind Res_bind]; [|done|done].
    cbn. by rewrite <- !(assoc_L (++)).
  - intros [o w a nf cm ek rs vm pf en] ((Ho & Hw) & H).
    by exists (o, (w, (a, (nf, (cm, (ek, (rs, (vm, (pf, en))))))))).
  - intros bs. unfold JoinSplit_deserialize, read_seq. same_reads.
Qed.

(** *** JoinSplits of a transaction *)

Definition joinsplit_data_ok (n : nat) (o : option JoinSplitData) : Prop :=
  match o with
  | None => True
  | Some d => items_ok (joinsplit_wire_ok n) (JoinSplit_preallocate n) (joinsplits d) ∧
              bytes_n 32 (pub_key d) ∧ bytes_n 64 (sig d)
  end.

Definition joinsplit_data_of (p : list JoinSplit * option (list Z * list Z)) : option JoinSplitData :=
  match p with
  | (first :: rest, Some (pub_key, sig)) => Some (mkJoinSplitData first rest pub_key sig)
  | _ => None
  end.

Lemma joinsplit_data_codec n : codec joinsplit_data_serialize (joinsplit_data_deserialize n) (joinsplit_data_ok n).
Proof.
  apply (codec_map _ _ _ joinsplit_data_of _ _ _ (codec_seq _ _ _ _ _ _
    (codec_vec _ _ _ (JoinSplit_preallocate n) (joinsplit_codec n))
    (λ l _, codec_if _ _ _ (negb (bool_decide (l = []))) (codec_bytes 32 ;; codec_bytes 64)))).
  - intros [[|j l] [[k g]|]] [Hl Ho]; cbn in Ho; try (by destruct Ho). split; [by destruct Ho|].
    unfold joinsplit_data_of, joinsplit_data_serialize, JoinSplitData_serialize, write_seq. cbn [fst snd joinsplits first rest pub_key sig].
    done.
  - intros [[j l k g]|] H; cbn in H.
    + exists (j :: l, Some (k, g)). split; [|done]. split; [apply H|]. cbn. split; [done|apply H].
    + exists ([], None). split; [|done]. split; [|done]. apply items_ok_nil, Z.div_pos; [done|]. unfold JOINSPLIT_SIZE_WITHOUT_ZKPROOF. lia.
  - intros bs. unfold joinsplit_data_deserialize, read_seq, read_if.
    destruct (Vec_deserialize JoinSplit bs) as [[[|j l] r]| |]; cbn [mbind Res_bind]; [done| |done|done].
    rewrite bool_decide_false by done. cbn [negb]. unfold read_seq. same_reads.
Qed.

(** *** Sapling shielded data of a [V5] transaction *)

(** The arrays of parts of the spends and the outputs. *)
Definition spends_of_parts (prefixes : list SpendPrefixInTransactionV5) (proofs sigs : list (list Z)) :
    list (Spend FieldNotPresent) :=
  zip_with (λ p sig, spend_from_v5_parts p.1 p.2 sig) (zip prefixes proofs) sigs.
Definition prefixes_of (l : list (Spend FieldNotPresent)) := (λ s, (spend_into_v5_parts s).1.1) <$> l.
Definition proofs_of (l : list (Spend FieldNotPresent)) := (λ s, (spend_into_v5_parts s).1.2) <$> l.
Definition sigs_of (l : list (Spend FieldNotPresent)) := (λ s, (spend_into_v5_parts s).2) <$> l.
Definition oprefixes_of (l : list SaplingOutput) := (λ o, (output_into_v5_parts o).1) <$> l.
Definition oproofs_of (l : list SaplingOutput) := (λ o, (output_into_v5_parts o).2) <$> l.

Lemma parts_of_spends prefixes proofs sigs :
  length proofs = length prefixes → length sigs = length prefixes →
  let l := spends_of_parts prefixes proofs sigs in
  prefixes_of l = prefixes ∧ proofs_of l = proofs ∧ sigs_of l = sigs.
Proof.
  revert proofs sigs. induction prefixes as [|[cv nf rk] prefixes IH]; intros [|pf proofs] [|sg sigs] H1 H2; try done.
  injection H1 as H1. injection H2 as H2. destruct (IH proofs sigs H1 H2) as (E1 & E2 & E3).
  split_and!; (apply (f_equal2 cons); [reflexivity|assumption]).
Qed.
Lemma spends_of_parts_of l : spends_of_parts (prefixes_of l) (proofs_of l) (sigs_of l) = l.
Proof. induction l as [|[cv [] nf rk pf sg] l IH]; [done|]. unfold spends_of_parts in *. cbn. f_equal. apply IH. Qed.
Lemma parts_of_outputs prefixes proofs : length proofs = length prefixes →
  let l := zip_with output_from_v5_parts prefixes proofs in oprefixes_of l = prefixes ∧ oproofs_of l = proofs.
Proof.
  revert proofs. induction prefixes as [|[] prefixes IH]; intros [|pf proofs] H; try done.
  injection H as H. destruct (IH proofs H) as [E1 E2]. split; (apply (f_equal2 cons); [reflexivity|assumption]).
Qed.
Lemma outputs_of_parts_of l : zip_with output_from_v5_parts (oprefixes_of l) (oproofs_of l) = l.
Proof. induction l as [|[] l IH]; [done|]. cbn. f_equal. apply IH. Qed.

Definition sapling_v5_ok (is_coinbase : bool) (o : option (SaplingShieldedData Hash FieldNotPresent)) : Prop :=
  match o with
  | None => True
  | Some d =>
      (is_coinbase = true → spends d = []) ∧
      match transfers d with
      | SpendsAndMaybeOutputs anchor spends _ => spends ≠ [] ∧ element sapling_root anchor
      | JustOutputs outputs => outputs ≠ []
      end ∧
      items_ok spend_prefix_ok SpendPrefix_preallocate (prefixes_of (spends d)) ∧
      items_ok output_prefix_ok OutputPrefix_preallocate (oprefixes_of (sapling_data_outputs d)) ∧
      amount_ok (sapling_value d) = true ∧ Forall (bytes_n 192) (proofs_of (spends d)) ∧
      Forall (bytes_n 64) (sigs_of (spends d)) ∧ Forall (bytes_n 192) (oproofs_of (sapling_data_outputs d)) ∧
      bytes_n 64 (sapling_binding_sig d)
  end.

(** What is read: the prefixes of the spends and their count, the prefixes of the outputs, and the rest if there is
    a spend or an output. *)
Definition SaplingTail : Type :=
  Amount NegativeAllowed * (option (list Z) * (list (list Z) * (list (list Z) * (list (list Z) * list Z)))).
Definition sapling_v5_of (p : (CompactSizeMessage * list SpendPrefixInTransactionV5) *
    (list OutputPrefixInTransactionV5 * option SaplingTail)) : option (SaplingShieldedData Hash FieldNotPresent) :=
  match p with
  | ((_, prefixes), (oprefixes, Some (value, (anchor, (proofs, (sigs, (oproofs, binding_sig))))))) =>
      let spends := spends_of_parts prefixes proofs sigs in
      let outputs := zip_with output_from_v5_parts oprefixes oproofs in
      Some (mkSapling value (match anchor with
                             | Some anchor => SpendsAndMaybeOutputs anchor spends outputs
                             | None => JustOutputs outputs
                             end) binding_sig)
  | _ => None
  end.

Definition coinbase_check (is_coinbase : bool) (spend_count : CompactSizeMessage) : Res SerializationError unit :=
  if is_coinbase && (0 <? csm spend_count)
  then Err (Parse "coinbase transaction must not have Sapling spends") else Ok tt.
Lemma coinbase_check_no_panic is_coinbase len : no_panic (coinbase_check is_coinbase len).
Proof. unfold coinbase_check. by destruct (_ && _). Qed.

Definition tail_present (prefixes : list SpendPrefixInTransactionV5) (oprefixes : list OutputPrefixInTransactionV5) : bool :=
  negb ((Z.of_nat (length prefixes) =? 0) && (Z.of_nat (length oprefixes) =? 0)).

Lemma tail_present_spec ps os : tail_present ps os = false ↔ ps = [] ∧ os = [].
Proof.
  unfold tail_present. rewrite negb_false_iff, andb_true_iff, !Z.eqb_eq. rewrite <- !length_zero_iff_nil. lia.
Qed.

Definition sapling_tail_codec (ns no : nat) :=
  codec_class (T := Amount NegativeAllowed) ;;
  codec_if _ _ _ (0 <? Z.of_nat ns) (codec_element sapling_root) ;;
  codec_external array_serialize (array_deserialize 192) _ groth16_preallocate (Z.of_nat ns) (Nat2Z.is_nonneg _) (codec_bytes 192) ;;
  codec_external array_serialize (array_deserialize 64) _ sapling_signature_preallocate (Z.of_nat ns) (Nat2Z.is_nonneg _) (codec_bytes 64) ;;
  codec_external array_serialize (array_deserialize 192) _ groth16_preallocate (Z.of_nat no) (Nat2Z.is_nonneg _) (codec_bytes 192) ;;
  codec_bytes 64.

Lemma sapling_v5_reads is_coinbase bs :
  deserialize_v5_sapling_shielded_data is_coinbase bs =
  ('(p, bs) ← read_seq (read_seq
     (λ bs, '(len, bs) ← (zcash_deserialize : Reader CompactSizeMessage) bs; _ ← coinbase_check is_coinbase len; Ok (len, bs))
     (λ len, @deserialize_external_count _ SpendPrefix_deserialize SpendPrefix_preallocate (csm len)))
     (λ p, read_seq (@Vec_deserialize _ OutputPrefix_deserialize OutputPrefix_preallocate) (λ o,
        read_if (tail_present p.2 o)
          (let ns := Z.of_nat (length p.2) in let no := Z.of_nat (length o) in
           read_seq (zcash_deserialize : Reader (Amount NegativeAllowed)) (λ _,
           read_seq (read_if (0 <? ns) (read_element sapling_root)) (λ _,
           read_seq (@deserialize_external_count _ (array_deserialize 192) groth16_preallocate ns) (λ _,
           read_seq (@deserialize_external_count _ (array_deserialize 64) sapling_signature_preallocate ns) (λ _,
           read_seq (@deserialize_external_count _ (array_deserialize 192) groth16_preallocate no) (λ _,
           read_bytes 64)))))))) bs;
   Ok (sapling_v5_of p, bs)).
Proof.
  unfold deserialize_v5_sapling_shielded_data, read_seq at 1 2, coinbase_check.
  destruct (zcash_deserialize (T := CompactSizeMessage) bs) as [[len r]| |]; cbn [mbind Res_bind]; [|done|done].
  destruct (is_coinbase && (0 <? csm len)); cbn [mbind Res_bind]; [done|].
  destruct (@deserialize_external_count _ SpendPrefix_deserialize _ (csm len) r) as [[ps r1]| |]; cbn [mbind Res_bind]; [|done|done].
  unfold read_seq at 1. cbn [snd].
  destruct (@Vec_deserialize _ OutputPrefix_deserialize _ r1) as [[os r2]| |]; cbn [mbind Res_bind]; [|done|done].
  unfold read_if at 1, tail_present. destruct ((_ =? 0) && _) eqn:He; cbn [negb mbind Res_bind]; [done|]. unfold read_seq.
  destruct (zcash_deserialize (T := Amount NegativeAllowed) r2) as [[vb r3]| |]; cbn [mbind Res_bind]; [|done|done].
  assert (Ha : ∀ bs : list Z, read_if (0 <? Z.of_nat (length ps)) (read_element sapling_root) bs =
    if 0 <? Z.of_nat (length ps) then '(anchor, reader) ← read_element sapling_root bs; Ok (Some anchor, reader) else Ok (None, bs)) by done.
  rewrite <- Ha. destruct (read_if (0 <? Z.of_nat (length ps)) (read_element sapling_root) r3) as [[an r4]| |] eqn:Han; cbn [mbind Res_bind]; [|done|done].
  destruct (@deserialize_external_count _ _ _ (Z.of_nat (length ps)) r4) as [[pf r5]| |] eqn:Hpf; cbn [mbind Res_bind]; [|done|done].
  destruct (@deserialize_external_count _ _ _ (Z.of_nat (length ps)) r5) as [[sg r6]| |] eqn:Hsg; cbn [mbind Res_bind]; [|done|done].
  destruct (@deserialize_external_count _ _ _ (Z.of_nat (length os)) r6) as [[op r7]| |] eqn:Hop; cbn [mbind Res_bind]; [|done|done].
  destruct (read_bytes 64 r7) as [[b r8]| |]; cbn [mbind Res_bind]; [|done|done].
  apply external_length in Hpf, Hsg, Hop; [|lia..]. fold (spends_of_parts ps pf sg).
  destruct (parts_of_spends ps pf sg) as (Hps & _); [lia..|]. destruct (parts_of_outputs os op) as [Hos _]; [lia|].
  unfold read_if in Han. destruct (Z.ltb_spec 0 (Z.of_nat (length ps))) as [Hlt|Hge].
  - apply bind_Ok in Han as ([a r9] & _ & Han). simplify_eq.
    rewrite bool_decide_false; [done|]. intros Heq. rewrite Heq in Hps. cbn in Hps. subst ps. cbn in Hlt. lia.
  - simplify_eq. rewrite bool_decide_false; [done|]. intros Heq. cbn in Hos. rewrite Heq in Hos. cbn in Hos. subst os. apply andb_false_iff in He as [He|He]; [apply Z.eqb_neq in He; lia|done].
Qed.

Lemma preallocations_positive : 0 ≤ SpendPrefix_preallocate ∧ 0 ≤ OutputPrefix_preallocate ∧ 0 ≤ Action_preallocate ∧
  SpendPrefix_preallocate ≤ groth16_preallocate ∧ OutputPrefix_preallocate ≤ groth16_preallocate.
Proof. split_and!; by vm_compute. Qed.

Lemma fmap_length_Z {A B} (f : A → B) l : Z.of_nat (length (f <$> l)) = Z.of_nat (length l).
Proof. by rewrite length_fmap. Qed.

Lemma sapling_v5_written is_coinbase len prefixes oprefixes tail :
  (0 ≤ csm len ≤ MAX_PROTOCOL_MESSAGE_LEN ∧ coinbase_check is_coinbase len = Ok tt) →
  (Z.of_nat (length prefixes) = csm len ∧ csm len ≤ SpendPrefix_preallocate ∧ Forall spend_prefix_ok prefixes) →
  items_ok output_prefix_ok OutputPrefix_preallocate oprefixes →
  present_ok (tail_present prefixes oprefixes) (λ t : SaplingTail,
    valid t.1 ∧ present_ok (0 <? Z.of_nat (length prefixes)) (element sapling_root) t.2.1 ∧
    (Z.of_nat (length t.2.2.1) = Z.of_nat (length prefixes) ∧ Z.of_nat (length prefixes) ≤ groth16_preallocate ∧ Forall (bytes_n 192) t.2.2.1) ∧
    (Z.of_nat (length t.2.2.2.1) = Z.of_nat (length prefixes) ∧ Z.of_nat (length prefixes) ≤ sapling_signature_preallocate ∧ Forall (bytes_n 64) t.2.2.2.1) ∧
    (Z.of_nat (length t.2.2.2.2.1) = Z.of_nat (length oprefixes) ∧ Z.of_nat (length oprefixes) ≤ groth16_preallocate ∧ Forall (bytes_n 192) t.2.2.2.2.1) ∧
    bytes_n 64 t.2.2.2.2.2) tail →
  sapling_v5_ok is_coinbase (sapling_v5_of ((len, prefixes), (oprefixes, tail))).
Proof.
  intros [Hlen Hc] (Hn & Hmax & Hps) Hos Ht. destruct tail as [(vb & an & pf & sg & op & b)|]; [|done].
  destruct Ht as (Hp & Hvb & Han & (Hpf & _ & Hpfv) & (Hsg & _ & Hsgv) & (Hop & _ & Hopv) & Hb). cbn [fst snd] in *.
  destruct (parts_of_spends prefixes pf sg) as (E1 & E2 & E3); [lia..|]. destruct (parts_of_outputs oprefixes op) as [F1 F2]; [lia|].
  unfold sapling_v5_of, sapling_v5_ok. cbn [transfers sapling_value sapling_binding_sig].
  set (l := spends_of_parts prefixes pf sg) in *. set (o := zip_with output_from_v5_parts oprefixes op) in *.
  assert (Hitems : items_ok spend_prefix_ok SpendPrefix_preallocate prefixes) by (split_and!; [done|lia..]).
  destruct an as [a|]; cbn [present_ok] in Han; unfold spends, sapling_data_outputs; cbn [transfers].
  - destruct Han as [Hlt%Z.ltb_lt Ha]. rewrite E1, E2, E3, F1, F2. split_and!; try done.
    + intros ->. unfold coinbase_check in Hc. rewrite (proj2 (Z.ltb_lt _ _)) in Hc by lia. done.
    + intros Hnil. rewrite Hnil in E1. cbn in E1. subst prefixes. done.
  - apply Z.ltb_ge in Han. rewrite F1, F2. split_and!; try done.
    + intros Hnil. rewrite Hnil in F1. cbn in F1. subst oprefixes.
      assert (prefixes = []) as -> by (apply length_zero_iff_nil; lia). done.
Qed.

(** The parts of what was read, written in the same order. *)
Lemma sapling_v5_parts prefixes oprefixes vb an pf sg op b :
  length pf = length prefixes → length sg = length prefixes → length op = length oprefixes →
  (an = None → prefixes = []) → ∀ len, ∃ d, sapling_v5_of ((len, prefixes), (oprefixes, Some (vb, (an, (pf, (sg, (op, b))))))) = Some d ∧
  prefixes_of (spends d) = prefixes ∧ proofs_of (spends d) = pf ∧ sigs_of (spends d) = sg ∧
  oprefixes_of (sapling_data_outputs d) = oprefixes ∧ oproofs_of (sapling_data_outputs d) = op ∧
  sapling_value d = vb ∧ shared_anchor d = an ∧ sapling_binding_sig d = b.
Proof.
  intros H1 H2 H3 Hnil len. destruct (parts_of_spends prefixes pf sg H1 H2) as (E1 & E2 & E3).
  destruct (parts_of_outputs oprefixes op H3) as [F1 F2]. eexists. split; [reflexivity|].
  destruct an as [a|]; [by split_and!|]. specialize (Hnil eq_refl). subst prefixes.
  apply length_zero_iff_nil in H1, H2. subst. by split_and!.
Qed.

Lemma sapling_v5_serialized len prefixes oprefixes tail :
  0 ≤ csm len ≤ MAX_PROTOCOL_MESSAGE_LEN → Z.of_nat (length prefixes) = csm len →
  match tail with
  | Some t => length t.2.2.1 = length prefixes ∧ length t.2.2.2.1 = length prefixes ∧
              length t.2.2.2.2.1 = length oprefixes ∧ (t.2.1 = None → prefixes = [])
  | None => prefixes = [] ∧ oprefixes = []
  end →
  sapling_v5_serialize (sapling_v5_of ((len, prefixes), (oprefixes, tail))) =
  write_seq (write_seq zcash_serialize (λ _, @serialize_external_count _ SpendPrefix_serialize))
    (λ _, write_seq (Vec_serialize _ (H := OutputPrefix_serialize)) (λ _, write_if
      (write_seq zcash_serialize (λ _, write_seq (write_if Ok) (λ _,
       write_seq (@serialize_external_count _ array_serialize) (λ _, write_seq (@serialize_external_count _ array_serialize) (λ _,
       write_seq (@serialize_external_count _ array_serialize) (λ _, Ok))))))))
    ((len, prefixes), (oprefixes, tail)).
Proof.
  intros Hlen Hn Ht. destruct tail as [(vb & an & pf & sg & op & b)|].
  - cbn [fst snd] in Ht. destruct Ht as (H1 & H2 & H3 & Hnil).
    destruct (sapling_v5_parts prefixes oprefixes vb an pf sg op b H1 H2 H3 Hnil len) as (d & -> & E1 & E2 & E3 & F1 & F2 & G1 & G2 & G3).
    unfold sapling_v5_serialize, SaplingV5_serialize.
    fold (prefixes_of (spends d)) (proofs_of (spends d)) (sigs_of (spends d)) (oprefixes_of (sapling_data_outputs d)) (oproofs_of (sapling_data_outputs d)).
    rewrite E1, E2, E3, F1, F2, G1, G2, G3.
    assert (Hv : Vec_serialize _ (H := SpendPrefix_serialize) prefixes = write_seq zcash_serialize (λ _, @serialize_external_count _ SpendPrefix_serialize) (len, prefixes)).
    { unfold Vec_serialize, write_seq. rewrite Hn, csm_try_from_spec by (unfold MAX_PROTOCOL_MESSAGE_LEN in Hlen; int_lia).
      rewrite (proj2 (Z.leb_le _ _)) by lia. by destruct len. }
    rewrite Hv. unfold write_seq. cbn [fst snd write_if].
    destruct (zcash_serialize len); cbn [mbind Res_bind]; [|done|done].
    destruct (@serialize_external_count _ SpendPrefix_serialize prefixes); cbn [mbind Res_bind]; [|done|done].
    destruct (Vec_serialize _ oprefixes); cbn [mbind Res_bind]; [|done|done].
    destruct (zcash_serialize vb); cbn [mbind Res_bind]; [|done|done].
    destruct (@serialize_external_count _ array_serialize pf); destruct an; cbn [mbind Res_bind write_if]; try done;
    destruct (@serialize_external_count _ array_serialize sg); cbn [mbind Res_bind]; try done;
    destruct (@serialize_external_count _ array_serialize op); cbn [mbind Res_bind]; try done;
    cbn [default from_option id]; by rewrite <- !(assoc_L (++)).
  - destruct Ht as [-> ->]. destruct len as [n]. cbn in Hn. subst n. done.
Qed.

Lemma sapling_v5_codec is_coinbase :
  codec sapling_v5_serialize (deserialize_v5_sapling_shielded_data is_coinbase) (sapling_v5_ok is_coinbase).
Proof.
  apply (codec_map _ _ _ sapling_v5_of _ _ _ (codec_seq _ _ _ _ _ _
    (codec_seq _ _ _ _ _ _
      (codec_check _ _ _ (coinbase_check is_coinbase)
        (λ bs, '(len, bs) ← (zcash_deserialize : Reader CompactSizeMessage) bs; _ ← coinbase_check is_coinbase len; Ok (len, bs))
        codec_csm (λ len _, coinbase_check_no_panic is_coinbase len) (λ _, eq_refl))
      (λ len Hlen, codec_external SpendPrefix_serialize SpendPrefix_deserialize _ SpendPrefix_preallocate (csm len)
        (proj1 (proj1 Hlen)) spend_prefix_codec))
    (λ p _, codec_seq _ _ _ _ _ _ (codec_vec OutputPrefix_serialize OutputPrefix_deserialize _ OutputPrefix_preallocate output_prefix_codec)
      (λ o _, codec_if _ _ _ (tail_present p.2 o) (sapling_tail_codec (length p.2) (length o)))))).
  - intros [[len ps] [os tail]] ((Hlen & Hps) & (Hos & Ht)). cbn [fst snd] in *.
    split; [by apply sapling_v5_written|].
    apply sapling_v5_serialized; [apply Hlen|apply Hps|]. destruct tail as [(vb & an & pf & sg & op & b)|]; cbn in Ht |- *.
    + destruct Ht as (_ & _ & Han & (Hpf & _) & (Hsg & _) & (Hop & _) & _). split_and!; [lia..|].
      intros ->. cbn in Han. apply length_zero_iff_nil. lia.
    + by apply tail_present_spec.
  - intros [d|] H.
    + destruct H as (Hc & Htr & Hps & Hos & Hvb & Hpf & Hsg & Hop & Hb). set (n := length (spends d)).
      exists ((mkCompactSizeMessage (Z.of_nat n), prefixes_of (spends d)), (oprefixes_of (sapling_data_outputs d),
        Some (sapling_value d, (shared_anchor d, (proofs_of (spends d), (sigs_of (spends d),
          (oproofs_of (sapling_data_outputs d), sapling_binding_sig d))))))). split.
      * assert (Hn : ∀ B (f : Spend FieldNotPresent → B), Z.of_nat (length (f <$> spends d)) = Z.of_nat n) by (intros; apply fmap_length_Z).
        assert (Ho : ∀ B (f : SaplingOutput → B), length (f <$> sapling_data_outputs d) = length (sapling_data_outputs d)) by (intros; apply length_fmap).
        pose proof preallocations_positive as (_ & _ & _ & Hg1 & Hg2). destruct Hps as (Hps & Hmax & Hmsg). destruct Hos as (Hos & Hmaxo & Hmsgo).
        unfold prefixes_of, proofs_of, sigs_of, oprefixes_of, oproofs_of in *. rewrite Hn in *. rewrite Ho in *.
        split; [split; [split|split_and!]|split; [split_and!|]]; cbn [fst snd csm]; try done; [lia| |by rewrite Ho..|].
        -- unfold coinbase_check. cbn [csm]. destruct is_coinbase; [|done]. unfold n. by rewrite Hc by done.
        -- split.
           ++ apply not_false_iff_true. intros [H1 H2]%tail_present_spec. apply fmap_nil_inv in H1, H2.
              unfold spends, sapling_data_outputs in H1, H2. destruct (transfers d); [by destruct Htr|done].
           ++ cbn [fst snd]. split_and!; try done; rewrite ?Hn, ?Ho; first [lia|exact Hmax|idtac].
              unfold shared_anchor, present_ok. subst n. unfold spends in *. destruct (transfers d) as [a sp os|os].
              ** split; [|apply Htr]. apply Z.ltb_lt. destruct sp; [by destruct Htr|]. cbn. lia.
              ** done.
      * unfold sapling_v5_of. rewrite spends_of_parts_of, outputs_of_parts_of. destruct d as [v [] b]; done.
    + exists ((mkCompactSizeMessage 0, []), ([], None)). split; [|done]. split; [split|split].
      * split; [cbn; unfold MAX_PROTOCOL_MESSAGE_LEN; lia|]. unfold coinbase_check. by destruct is_coinbase.
      * split_and!; [done|apply preallocations_positive|constructor].
      * apply items_ok_nil, preallocations_positive.
      * done.
  - apply sapling_v5_reads.
Qed.

(** *** Orchard shielded data *)

Definition flags_ok (bits : Z) : Prop := 0 ≤ bits < 4.

Lemma flags_codec : codec Flags_serialize Flags_deserialize flags_ok.
Proof.
  assert (Hp : ∀ bits, 0 ≤ bits < 256 ^ Z.of_nat 1 → no_panic (flags_from_bits bits)).
  { intros bits _. unfold flags_from_bits. by destruct (Z.land bits _ =? 0). }
  apply (codec_ext _ _ _ _ _ _ (codec_check _ _ _ flags_from_bits Flags_deserialize (codec_uint 1) Hp (λ _, eq_refl))); [|done|done].
  intros bits. unfold flags_from_bits. change (Z.lor ENABLE_SPENDS ENABLE_OUTPUTS) with (Z.ones 2).
  rewrite <- Z.ldiff_land, Z.ldiff_ones_r, Z.shiftr_div_pow2, Z.shiftl_mul_pow2 by lia. unfold flags_ok. cbn [Z.of_nat Z.pow Z.pow_pos].
  change (256 ^ 1) with 256. change (2 ^ 2) with 4. pose proof (Z.div_mod bits 4 ltac:(lia)). pose proof (Z.mod_pos_bound bits 4 ltac:(lia)).
  destruct (Z.eqb_spec (bits / 4 * 4) 0); split; [lia|intros; split; [lia|done]|by intros [_ ?]|lia].
Qed.

Definition orchard_ok (o : option OrchardShieldedData) : Prop :=
  match o with
  | None => True
  | Some d => authorized_actions d ≠ [] ∧ items_ok action_ok Action_preallocate (actions d) ∧ flags_ok (flags d) ∧
      amount_ok (orchard_value d) = true ∧ element orchard_root (orchard_shared_anchor d) ∧
      (bytes_ok (proof d) ∧ Z.of_nat (length (proof d)) ≤ MAX_U8_ALLOCATION) ∧
      Forall (bytes_n 64) (action_spend_auth_sig <$> authorized_actions d) ∧ bytes_n 64 (orchard_binding_sig d)
  end.

Lemma parts_of_actions acts sigs : length sigs = length acts →
  let l := zip_with mkAuthorizedAction acts sigs in action <$> l = acts ∧ action_spend_auth_sig <$> l = sigs.
Proof.
  revert sigs. induction acts as [|a acts IH]; intros [|s sigs] H; try done. injection H as H.
  destruct (IH sigs H) as [E1 E2]. split; (apply (f_equal2 cons); [reflexivity|assumption]).
Qed.
Lemma actions_of_parts_of l : zip_with mkAuthorizedAction (action <$> l) (action_spend_auth_sig <$> l) = l.
Proof. induction l as [|[] l IH]; [done|]. cbn. f_equal. apply IH. Qed.

Definition OrchardTail : Type := Z * (Amount NegativeAllowed * (list Z * (VecU8 * (list (list Z) * list Z)))).
Definition orchard_of (p : list Action * option OrchardTail) : option OrchardShieldedData :=
  match p with
  | (acts, Some (flags, (value, (anchor, (proof, (sigs, binding_sig)))))) =>
      Some (mkOrchard flags value anchor (u8s proof) (zip_with mkAuthorizedAction acts sigs) binding_sig)
  | _ => None
  end.

Lemma orchard_codec : codec orchard_serialize orchard_deserialize orchard_ok.
Proof.
  apply (codec_map _ _ _ orchard_of _ _ _ (codec_seq _ _ _ _ _ _
    (codec_vec Action_serialize Action_deserialize _ Action_preallocate action_codec)
    (λ l _, codec_if _ _ _ (negb (Z.of_nat (length l) =? 0)) (flags_codec ;; codec_class (T := Amount NegativeAllowed) ;;
      codec_element orchard_root ;; codec_class (T := VecU8) ;;
      codec_external array_serialize (array_deserialize 64) _ orchard_signature_preallocate (Z.of_nat (length l)) (Nat2Z.is_nonneg _) (codec_bytes 64) ;;
      codec_bytes 64)))).
  - intros [acts [(f & v & a & pf & sg & b)|]] [Ha Ht]; cbn [fst snd present_ok] in Ha, Ht.
    + destruct Ht as (Hn & Hf & Hv & Han & Hpf & (Hsg & _ & Hsv) & Hb). destruct (parts_of_actions acts sg) as [E1 E2]; [lia|].
      unfold orchard_of. split.
      * unfold orchard_ok, actions. cbn [authorized_actions flags orchard_value orchard_shared_anchor proof orchard_binding_sig].
        rewrite E1, E2. split_and!; try done; [|apply Hpf..]. intros Hnil. rewrite Hnil in E1. cbn in E1. by subst acts.
      * unfold orchard_serialize, Orchard_serialize, write_seq, write_if, Flags_serialize.
        cbn [authorized_actions flags orchard_value orchard_shared_anchor proof orchard_binding_sig fst snd]. rewrite E1, E2.
        change (zcash_serialize pf) with (serialize_bytes (u8s pf)).
        destruct (Vec_serialize _ acts); cbn [mbind Res_bind]; [|done|done].
        destruct (zcash_serialize v); cbn [mbind Res_bind]; [|done|done].
        destruct (serialize_bytes (u8s pf)); cbn [mbind Res_bind]; [|done|done].
        destruct (@serialize_external_count _ array_serialize sg); cbn [mbind Res_bind]; [|done|done].
        done.
    + apply negb_false_iff, Z.eqb_eq in Ht. assert (acts = []) as -> by (apply length_zero_iff_nil; lia). done.
  - intros [[f v a pf acts b]|] H.
    + exists (action <$> acts, Some (f, (v, (a, (mkVecU8 pf, (action_spend_auth_sig <$> acts, b)))))). cbn in H.
      destruct H as (Hne & Hit & Hf & Hv & Han & Hpf & Hsg & Hb). unfold actions in Hit. cbn in Hit. split.
      * split; [done|]. cbn [fst snd present_ok]. rewrite !fmap_length_Z. split; [destruct acts; [done|apply negb_true_iff, Z.eqb_neq; cbn [length]; lia]|].
        split_and!; try done; [apply Hpf..|]. destruct Hit as (_ & Hit & _). rewrite fmap_length_Z in Hit. exact Hit.
      * unfold orchard_of. by rewrite actions_of_parts_of.
    + exists ([], None). split; [|done]. split; [|done]. apply items_ok_nil, preallocations_positive.
  - intros bs. unfold orchard_deserialize, read_seq, read_if.
    destruct (@Vec_deserialize _ Action_deserialize _ bs) as [[acts r]| |]; cbn [mbind Res_bind]; [|done|done].
    destruct (Z.eqb_spec (Z.of_nat (length acts)) 0) as [He|He]; cbn [negb]; [done|]. cbn [mbind Res_bind].
    destruct (Flags_deserialize r) as [[f r1]| |]; cbn [mbind Res_bind]; [|done|done].
    destruct (zcash_deserialize (T := Amount NegativeAllowed) r1) as [[v r2]| |]; cbn [mbind Res_bind]; [|done|done].
    destruct (read_element orchard_root r2) as [[a r3]| |]; cbn [mbind Res_bind]; [|done|done].
    destruct (zcash_deserialize (T := VecU8) r3) as [[pf r4]| |]; cbn [mbind Res_bind]; [|done|done].
    destruct (@deserialize_external_count _ _ _ (Z.of_nat (length acts)) r4) as [[sg r5]| |] eqn:Hsg; cbn [mbind Res_bind]; [|done|done].
    destruct (read_bytes 64 r5) as [[b r6]| |]; cbn [mbind Res_bind]; [|done|done].
    apply external_length in Hsg; [|lia]. destruct (parts_of_actions acts sg) as [E1 _]; [lia|].
    rewrite bool_decide_false; [done|]. intros Hnil. rewrite Hnil in E1. cbn in E1. by subst acts.
Qed.

End Codecs.
