(* ===== verification/TransactionCodec.v ===== *)
(** * The encodings of transactions and blocks

    [zebra-chain/src/transaction/serialize.rs]: the [ZcashSerialize] and [ZcashDeserialize] implementations of
    [Transaction], with [LockTime] of [transaction/lock_time.rs], [to_librustzcash] of [transaction.rs], and
    the encoding of blocks of [zebra-chain/src/block/serialize.rs].

    The [librustzcash] parser, to which a version 5 transaction is converted after it is read, is a class
    parameter: whether it knows a branch id, and the transaction it reads from bytes, if any. *)

From stdpp Require Import strings.
From S2P Require Import Prelude Height Amount Serialization Codec Network Transaction Merkle BlockHeader.
From S2P Require Import TransparentCodec ShieldedCodec.

Definition OVERWINTER_VERSION_GROUP_ID : Z := 0x03C48270.
Definition SAPLING_VERSION_GROUP_ID : Z := 0x892F2085.
Definition TX_V5_VERSION_GROUP_ID : Z := 0x26A7270A.

Class LibRustZcash := {
  LibTransaction : Type;
  (** [zcash_protocol::consensus::BranchId::try_from] *)
  lib_branch_id : Z → bool;
  (** [zcash_primitives::transaction::Transaction::read] *)
  lib_transaction_read : list Z → Z → option LibTransaction;
}.

(** [zebra_chain::Error], and its conversion to [SerializationError]. *)
Inductive ChainError :=
| InvalidConsensusBranchId
| ChainIo
| MissingNetworkUpgrade
| ChainAmount
| Conversion (msg : string).
Definition chain_error_into (e : ChainError) : SerializationError :=
  match e with
  | InvalidConsensusBranchId => Parse "invalid consensus branch id"
  | ChainIo => Io
  | MissingNetworkUpgrade => Parse "missing network upgrade"
  | ChainAmount => BadTransactionBalance
  | Conversion _ => Parse "Zebra's type could not be converted to its librustzcash equivalent"
  end.

(** ** Lock times *)

#[export] Instance LockTime_serialize : ZcashSerialize LockTime := λ self, lift (lock_time_serialize self).
#[export] Instance LockTime_deserialize : ZcashDeserialize LockTime := λ reader,
  '(n, reader) ← read_uint 4 reader; Ok (lock_time_of_u32 n, reader).

(** ** Writing transactions *)

Definition tx_body_serialize `{!CurveLib} (self : Transaction) : Res SerializationError (list Z) :=
  match self with
  | V1 inputs outputs lock_time =>
      inputs ← zcash_serialize inputs;
      outputs ← zcash_serialize outputs;
      lock_time ← zcash_serialize lock_time;
      Ok (inputs ++ outputs ++ lock_time)
  | V2 inputs outputs lock_time joinsplit_data =>
      inputs ← zcash_serialize inputs;
      outputs ← zcash_serialize outputs;
      lock_time ← zcash_serialize lock_time;
      joinsplit_data ← joinsplit_data_serialize joinsplit_data;
      Ok (inputs ++ outputs ++ lock_time ++ joinsplit_data)
  | V3 inputs outputs lock_time expiry_height joinsplit_data =>
      inputs ← zcash_serialize inputs;
      outputs ← zcash_serialize outputs;
      lock_time ← zcash_serialize lock_time;
      joinsplit_data ← joinsplit_data_serialize joinsplit_data;
      Ok (le_bytes 4 OVERWINTER_VERSION_GROUP_ID ++ inputs ++ outputs ++ lock_time ++ le_bytes 4 expiry_height ++
          joinsplit_data)
  | V4 inputs outputs lock_time expiry_height joinsplit_data sapling_shielded_data =>
      inputs ← zcash_serialize inputs;
      outputs ← zcash_serialize outputs;
      lock_time ← zcash_serialize lock_time;
      sapling ← match sapling_shielded_data with
                | None =>
                    spends ← serialize_empty_list;
                    outputs ← serialize_empty_list;
                    Ok (le_bytes 8 0 ++ spends ++ outputs)
                | Some sapling_shielded_data =>
                    value_balance ← zcash_serialize (sapling_value sapling_shielded_data);
                    spends ← Vec_serialize _ (H := Spend_serialize) (spends sapling_shielded_data);
                    outputs ← Vec_serialize _ (H := OutputV4_serialize) (sapling_data_outputs sapling_shielded_data);
                    Ok (value_balance ++ spends ++ outputs)
                end;
      joinsplit_data ← joinsplit_data_serialize joinsplit_data;
      let binding_sig := match sapling_shielded_data with Some data => sapling_binding_sig data | None => [] end in
      Ok (le_bytes 4 SAPLING_VERSION_GROUP_ID ++ inputs ++ outputs ++ lock_time ++ le_bytes 4 expiry_height ++
          sapling ++ joinsplit_data ++ binding_sig)
  | V5 network_upgrade lock_time expiry_height inputs outputs sapling_shielded_data orchard_shielded_data =>
      branch_id ← expect (branch_id network_upgrade);
      lock_time ← zcash_serialize lock_time;
      inputs ← zcash_serialize inputs;
      outputs ← zcash_serialize outputs;
      sapling_shielded_data ← sapling_v5_serialize sapling_shielded_data;
      orchard_shielded_data ← orchard_serialize orchard_shielded_data;
      Ok (le_bytes 4 TX_V5_VERSION_GROUP_ID ++ le_bytes 4 branch_id ++ lock_time ++ le_bytes 4 expiry_height ++
          inputs ++ outputs ++ sapling_shielded_data ++ orchard_shielded_data)
  end.

#[export] Instance Transaction_serialize `{!CurveLib} : ZcashSerialize Transaction := λ self,
  let overwintered_flag := if is_overwintered self then Z.shiftl 1 31 else 0 in
  let version := Z.lor overwintered_flag (version self) in
  body ← tx_body_serialize self;
  Ok (le_bytes 4 version ++ body).

(** [Transaction::to_librustzcash]. *)
Definition to_librustzcash `{!CurveLib, !LibRustZcash} (self : Transaction) (nu : NetworkUpgrade) : Res ChainError LibTransaction :=
  if (match tx_network_upgrade self with Some tx_nu => negb (bool_decide (tx_nu = nu)) | None => false end)
  then Err InvalidConsensusBranchId else
  match branch_id nu with
  | None => Err InvalidConsensusBranchId
  | Some branch_id =>
      if negb (lib_branch_id branch_id) then Err InvalidConsensusBranchId else
      bytes ← map_err (λ _, ChainIo) (zcash_serialize self);
      ok_or (lib_transaction_read bytes branch_id) ChainIo
  end.

(** ** Reading transactions *)

Definition LOW_31_BITS : Z := Z.shiftl 1 31 - 1.

(** A version group ID. *)
Definition read_group_id (id : Z) (msg : string) : Reader unit := λ reader,
  '(read_id, reader) ← read_uint 4 reader;
  if negb (read_id =? id) then Err (Parse msg) else Ok (tt, reader).

(** The one input of a coinbase transaction. *)
Definition inputs_coinbase (inputs : list Input) : bool :=
  (Z.of_nat (length inputs) =? 1) && (match head inputs with Some (Coinbase _ _ _) => true | _ => false end).

Section Read.
Context `{CL : !CurveLib, LZ : !LibRustZcash}.

Definition read_v4 : Reader Transaction := λ limited_reader,
  '(_, limited_reader) ← read_group_id SAPLING_VERSION_GROUP_ID "expected SAPLING_VERSION_GROUP_ID" limited_reader;
  '(inputs, limited_reader) ← (zcash_deserialize : Reader (list Input)) limited_reader;
  '(outputs, limited_reader) ← (zcash_deserialize : Reader (list Output)) limited_reader;
  let is_coinbase := inputs_coinbase inputs in
  '(lock_time, limited_reader) ← (zcash_deserialize : Reader LockTime) limited_reader;
  '(expiry_height, limited_reader) ← read_uint 4 limited_reader;
  '(value_balance, limited_reader) ← (zcash_deserialize : Reader (Amount NegativeAllowed)) limited_reader;
  '(spend_count, limited_reader) ← (zcash_deserialize : Reader CompactSizeMessage) limited_reader;
  _ ← coinbase_check is_coinbase spend_count;
  '(shielded_spends, limited_reader) ←
    @deserialize_external_count _ Spend_deserialize Spend_preallocate (csm spend_count) limited_reader;
  '(shielded_outputs, limited_reader) ← @Vec_deserialize _ OutputV4_deserialize OutputV4_preallocate limited_reader;
  '(joinsplit_data, limited_reader) ← joinsplit_data_deserialize GROTH16_PROOF_SIZE limited_reader;
  sapling_transfers ←
    (if negb (bool_decide (shielded_spends = []))
     then Ok (Some (SpendsAndMaybeOutputs mkFieldNotPresent shielded_spends shielded_outputs))
     else if negb (bool_decide (shielded_outputs = [])) then Ok (Some (JustOutputs shielded_outputs))
     else if negb (zatoshis value_balance =? 0) then Err BadTransactionBalance
     else Ok None);
  '(sapling_shielded_data, limited_reader) ←
    match sapling_transfers with
    | Some transfers =>
        '(binding_sig, limited_reader) ← read_bytes 64 limited_reader;
        Ok (Some (mkSapling value_balance transfers binding_sig), limited_reader)
    | None => Ok (None, limited_reader)
    end;
  Ok (V4 inputs outputs lock_time expiry_height joinsplit_data sapling_shielded_data, limited_reader).

Definition read_v5 : Reader Transaction := λ limited_reader,
  '(_, limited_reader) ← read_group_id TX_V5_VERSION_GROUP_ID "expected TX_V5_VERSION_GROUP_ID" limited_reader;
  '(branch_id, limited_reader) ← read_uint 4 limited_reader;
  network_upgrade ← map_err (λ _, chain_error_into InvalidConsensusBranchId) (try_from_branch_id branch_id);
  if nu_ltb network_upgrade Nu5 then Err (Parse "v5 transaction must have NU5 or later consensus branch ID") else
  '(lock_time, limited_reader) ← (zcash_deserialize : Reader LockTime) limited_reader;
  '(expiry_height, limited_reader) ← read_uint 4 limited_reader;
  '(inputs, limited_reader) ← (zcash_deserialize : Reader (list Input)) limited_reader;
  '(outputs, limited_reader) ← (zcash_deserialize : Reader (list Output)) limited_reader;
  let is_coinbase := inputs_coinbase inputs in
  '(sapling_shielded_data, limited_reader) ← deserialize_v5_sapling_shielded_data is_coinbase limited_reader;
  '(orchard_shielded_data, limited_reader) ← orchard_deserialize limited_reader;
  let tx := V5 network_upgrade lock_time expiry_height inputs outputs sapling_shielded_data orchard_shielded_data in
  _ ← map_err chain_error_into (to_librustzcash tx network_upgrade);
  Ok (tx, limited_reader).

(** The transaction after its header, by the version and the overwintered flag of the header. *)
Definition read_body (version : Z) (overwintered : bool) : Reader Transaction := λ limited_reader,
  if (version =? 1) && negb overwintered then
    '(inputs, limited_reader) ← (zcash_deserialize : Reader (list Input)) limited_reader;
    '(outputs, limited_reader) ← (zcash_deserialize : Reader (list Output)) limited_reader;
    '(lock_time, limited_reader) ← (zcash_deserialize : Reader LockTime) limited_reader;
    Ok (V1 inputs outputs lock_time, limited_reader)
  else if (version =? 2) && negb overwintered then
    '(inputs, limited_reader) ← (zcash_deserialize : Reader (list Input)) limited_reader;
    '(outputs, limited_reader) ← (zcash_deserialize : Reader (list Output)) limited_reader;
    '(lock_time, limited_reader) ← (zcash_deserialize : Reader LockTime) limited_reader;
    '(joinsplit_data, limited_reader) ← joinsplit_data_deserialize BCTV14_PROOF_SIZE limited_reader;
    Ok (V2 inputs outputs lock_time joinsplit_data, limited_reader)
  else if (version =? 3) && overwintered then
    '(_, limited_reader) ← read_group_id OVERWINTER_VERSION_GROUP_ID "expected OVERWINTER_VERSION_GROUP_ID" limited_reader;
    '(inputs, limited_reader) ← (zcash_deserialize : Reader (list Input)) limited_reader;
    '(outputs, limited_reader) ← (zcash_deserialize : Reader (list Output)) limited_reader;
    '(lock_time, limited_reader) ← (zcash_deserialize : Reader LockTime) limited_reader;
    '(expiry_height, limited_reader) ← read_uint 4 limited_reader;
    '(joinsplit_data, limited_reader) ← joinsplit_data_deserialize BCTV14_PROOF_SIZE limited_reader;
    Ok (V3 inputs outputs lock_time expiry_height joinsplit_data, limited_reader)
  else if (version =? 4) && overwintered then read_v4 limited_reader
  else if (version =? 5) && overwintered then read_v5 limited_reader
  else Err (Parse "bad tx header").

#[export] Instance Transaction_deserialize : ZcashDeserialize Transaction := read_limited MAX_BLOCK_BYTES (λ limited_reader,
  '(header, limited_reader) ← read_uint 4 limited_reader;
  let version := Z.land header LOW_31_BITS in
  let overwintered := negb (Z.shiftr header 31 =? 0) in
  read_body version overwintered limited_reader).

End Read.

(** ** The codecs of the versions *)

Definition lock_time_ok (l : LockTime) : Prop :=
  match l with
  | LockHeight h => 0 ≤ h < MIN_TIMESTAMP
  | LockTimestamp t => MIN_TIMESTAMP ≤ t < 2 ^ 32
  end.

Lemma lock_time_codec : codec LockTime_serialize LockTime_deserialize lock_time_ok.
Proof.
  apply (codec_map _ _ _ lock_time_of_u32 _ _ _ (codec_uint 4)).
  - intros n Hn. change (256 ^ Z.of_nat 4) with (2 ^ 32) in Hn. unfold lock_time_of_u32.
    destruct (Z.ltb_spec n MIN_TIMESTAMP); [split; [cbn; lia|done]|]. split; [cbn; lia|].
    unfold LockTime_serialize, lock_time_serialize. by rewrite try_from_fits by int_lia.
  - intros [h|t] H; cbn in H; unfold MIN_TIMESTAMP in *; [exists h|exists t]; unfold lock_time_of_u32; change (256 ^ Z.of_nat 4) with (2 ^ 32).
    + split; [lia|]. unfold MIN_TIMESTAMP. by rewrite (proj2 (Z.ltb_lt _ _)) by lia.
    + split; [lia|]. unfold MIN_TIMESTAMP. by rewrite (proj2 (Z.ltb_ge _ _)) by lia.
  - done.
Qed.

Lemma group_codec id msg : 0 ≤ id < 2 ^ 32 → codec (λ _, Ok (le_bytes 4 id)) (read_group_id id msg) (λ _, True).
Proof.
  intros Hid. split.
  - intros [] _. exists (le_bytes 4 id). split_and!; [done|apply le_bytes_ok|]. intros rest. unfold read_group_id.
    rewrite read_uint_app, Ok_bind by done. by rewrite Z.eqb_refl.
  - intros bs [] rest Hb Hr. unfold read_group_id in Hr. apply bind_Ok in Hr as ([i r] & Hi & Hr).
    apply read_uint_Ok in Hi as (-> & _ & _); [|done]. destruct (Z.eqb_spec i id) as [->|]; [|done]. cbn in Hr. simplify_eq.
    split; [done|]. by exists (le_bytes 4 id).
  - intros bs _. apply no_panic_bind; [apply no_panic_read_uint|]. intros [i r] _. by destruct (negb _).
Qed.

Definition inputs_ok : list Input → Prop := items_ok input_ok Input_preallocate.
Definition outputs_wire_ok : list Output → Prop := items_ok valid Output_preallocate.
Lemma inputs_codec : codec (zcash_serialize : Writer (list Input)) zcash_deserialize inputs_ok.
Proof. exact (codec_vec _ _ _ Input_preallocate (codec_class (T := Input))). Qed.
Lemma outputs_codec : codec (zcash_serialize : Writer (list Output)) zcash_deserialize outputs_wire_ok.
Proof. exact (codec_vec _ _ _ Output_preallocate (codec_class (T := Output))). Qed.

Definition expiry_ok (h : Height) : Prop := 0 ≤ h < 2 ^ 32.
Definition expiry_codec : codec (λ z, Ok (le_bytes 4 z)) (read_uint 4) expiry_ok := codec_uint 4.

(** Both sides read or write [r] next. *)
Tactic Notation "read_step" constr(r) ident(a) ident(bs) := destruct r as [[a bs]| |]; cbn [mbind Res_bind]; [|reflexivity|reflexivity].
Ltac write_step r := destruct r; cbn [mbind Res_bind]; [|reflexivity|reflexivity].

Section Codecs.
Context `{CL : !CurveLib, CW : !CurveLaws, LZ : !LibRustZcash}.
Local Open Scope codec_scope.

(** *** Versions 1, 2 and 3 *)

Definition v1_ok (t : Transaction) : Prop :=
  match t with
  | V1 inputs outputs lock_time => inputs_ok inputs ∧ outputs_wire_ok outputs ∧ lock_time_ok lock_time
  | _ => False
  end.
Definition v2_ok (t : Transaction) : Prop :=
  match t with
  | V2 inputs outputs lock_time joinsplit_data =>
      inputs_ok inputs ∧ outputs_wire_ok outputs ∧ lock_time_ok lock_time ∧ joinsplit_data_ok BCTV14_PROOF_SIZE joinsplit_data
  | _ => False
  end.
Definition v3_ok (t : Transaction) : Prop :=
  match t with
  | V3 inputs outputs lock_time expiry_height joinsplit_data =>
      inputs_ok inputs ∧ outputs_wire_ok outputs ∧ lock_time_ok lock_time ∧ expiry_ok expiry_height ∧
      joinsplit_data_ok BCTV14_PROOF_SIZE joinsplit_data
  | _ => False
  end.

Definition v1_of (p : list Input * (list Output * LockTime)) : Transaction :=
  let '(inputs, (outputs, lock_time)) := p in V1 inputs outputs lock_time.
Definition v2_of (p : list Input * (list Output * (LockTime * option JoinSplitData))) : Transaction :=
  let '(inputs, (outputs, (lock_time, joinsplit_data))) := p in V2 inputs outputs lock_time joinsplit_data.
Definition v3_of (p : unit * (list Input * (list Output * (LockTime * (Height * option JoinSplitData))))) : Transaction :=
  let '(_, (inputs, (outputs, (lock_time, (expiry_height, joinsplit_data))))) := p in
  V3 inputs outputs lock_time expiry_height joinsplit_data.

Lemma v1_codec : codec tx_body_serialize (read_body 1 false) v1_ok.
Proof.
  apply (codec_map _ _ _ v1_of _ _ _ (inputs_codec ;; outputs_codec ;; lock_time_codec)).
  - intros (ins & outs & lt) H. split; [exact H|]. unfold v1_of, tx_body_serialize, write_seq. cbn [fst snd].
    change (zcash_serialize (T := LockTime)) with LockTime_serialize.
    write_step (zcash_serialize ins). write_step (zcash_serialize outs). by write_step (LockTime_serialize lt).
  - intros [ins outs lt| | | |] H; try done. by exists (ins, (outs, lt)).
  - intros bs. cbn -[zcash_deserialize]. unfold read_seq. read_step (zcash_deserialize (T := list Input) bs) ins r0.
    read_step (zcash_deserialize (T := list Output) r0) outs r1. change (zcash_deserialize (T := LockTime)) with LockTime_deserialize.
    by read_step (LockTime_deserialize r1) lt r2.
Qed.

Lemma v2_codec : codec tx_body_serialize (read_body 2 false) v2_ok.
Proof.
  apply (codec_map _ _ _ v2_of _ _ _ (inputs_codec ;; outputs_codec ;; lock_time_codec ;; joinsplit_data_codec BCTV14_PROOF_SIZE)).
  - intros (ins & outs & lt & js) H. split; [exact H|]. unfold v2_of, tx_body_serialize, write_seq. cbn [fst snd].
    change (zcash_serialize (T := LockTime)) with LockTime_serialize.
    write_step (zcash_serialize ins). write_step (zcash_serialize outs). write_step (LockTime_serialize lt).
    by write_step (joinsplit_data_serialize js).
  - intros [|ins outs lt js| | |] H; try done. by exists (ins, (outs, (lt, js))).
  - intros bs. unfold read_body, read_seq. cbn [Z.eqb Pos.eqb negb andb].
    read_step (zcash_deserialize (T := list Input) bs) ins r0. read_step (zcash_deserialize (T := list Output) r0) outs r1.
    change (zcash_deserialize (T := LockTime)) with LockTime_deserialize. read_step (LockTime_deserialize r1) lt r2.
    by read_step (joinsplit_data_deserialize BCTV14_PROOF_SIZE r2) js r3.
Qed.

Lemma v3_codec : codec tx_body_serialize (read_body 3 true) v3_ok.
Proof.
  apply (codec_map _ _ _ v3_of _ _ _ (
    group_codec OVERWINTER_VERSION_GROUP_ID "expected OVERWINTER_VERSION_GROUP_ID" ltac:(done) ;;
    inputs_codec ;; outputs_codec ;; lock_time_codec ;; expiry_codec ;; joinsplit_data_codec BCTV14_PROOF_SIZE)).
  - intros ([] & ins & outs & lt & ex & js) [_ H]. split; [exact H|]. unfold v3_of, tx_body_serialize, write_seq. cbn [fst snd].
    change (zcash_serialize (T := LockTime)) with LockTime_serialize. cbn [mbind Res_bind].
    write_step (zcash_serialize ins). write_step (zcash_serialize outs). write_step (LockTime_serialize lt).
    by write_step (joinsplit_data_serialize js).
  - intros [| |ins outs lt ex js| |] H; try done. by exists (tt, (ins, (outs, (lt, (ex, js))))).
  - intros bs. unfold read_body, read_seq. cbn [Z.eqb Pos.eqb negb andb].
    read_step (read_group_id OVERWINTER_VERSION_GROUP_ID "expected OVERWINTER_VERSION_GROUP_ID" bs) u r.
    read_step (zcash_deserialize (T := list Input) r) ins r0. read_step (zcash_deserialize (T := list Output) r0) outs r1.
    change (zcash_deserialize (T := LockTime)) with LockTime_deserialize. read_step (LockTime_deserialize r1) lt r2.
    read_step (read_uint 4 r2) ex r3. by read_step (joinsplit_data_deserialize BCTV14_PROOF_SIZE r3) js r4.
Qed.

(** *** Version 4 *)

Definition sapling_v4_ok (is_coinbase : bool) (o : option (SaplingShieldedData FieldNotPresent Hash)) : Prop :=
  match o with
  | None => True
  | Some d =>
      (is_coinbase = true → spends d = []) ∧
      match transfers d with
      | SpendsAndMaybeOutputs _ spends _ => spends ≠ []
      | JustOutputs outputs => outputs ≠ []
      end ∧
      items_ok spend_ok Spend_preallocate (spends d) ∧
      items_ok sapling_output_ok OutputV4_preallocate (sapling_data_outputs d) ∧
      amount_ok (sapling_value d) = true ∧ bytes_n 64 (sapling_binding_sig d)
  end.

Definition V4Head : Type := unit * (list Input * (list Output * (LockTime * Height))).
Definition V4Sapling : Type :=
  Amount NegativeAllowed * ((CompactSizeMessage * list (Spend Hash)) * (list SaplingOutput * option JoinSplitData)).

Definition v4_balance_check (s : V4Head * V4Sapling) : Res SerializationError unit :=
  let '(value, ((_, spends), (outputs, _))) := s.2 in
  if bool_decide (spends = []) && bool_decide (outputs = []) && negb (zatoshis value =? 0)
  then Err BadTransactionBalance else Ok tt.
Definition v4_has_sapling (s : V4Head * V4Sapling) : bool :=
  negb (bool_decide (s.2.2.1.2 = []) && bool_decide (s.2.2.2.1 = [])).

Definition v4_of (p : (V4Head * V4Sapling) * option (list Z)) : Transaction :=
  let '(((_, (inputs, (outputs, (lock_time, expiry_height)))), (value, ((_, spends), (souts, joinsplit_data)))), binding_sig) := p in
  V4 inputs outputs lock_time expiry_height joinsplit_data
    (match binding_sig with
     | Some binding_sig =>
         Some (mkSapling value (if bool_decide (spends = []) then JustOutputs souts
                                else SpendsAndMaybeOutputs mkFieldNotPresent spends souts) binding_sig)
     | None => None
     end).

Definition v4_head_codec := group_codec SAPLING_VERSION_GROUP_ID "expected SAPLING_VERSION_GROUP_ID" ltac:(done) ;;
  inputs_codec ;; outputs_codec ;; lock_time_codec ;; expiry_codec.
Definition v4_spends_codec (is_coinbase : bool) := codec_seq _ _ _ _ _ _
  (codec_check _ _ _ (coinbase_check is_coinbase)
    (λ bs, '(len, bs) ← (zcash_deserialize : Reader CompactSizeMessage) bs; _ ← coinbase_check is_coinbase len; Ok (len, bs))
    codec_csm (λ len _, coinbase_check_no_panic is_coinbase len) (λ _, eq_refl))
  (λ len Hlen, codec_external Spend_serialize Spend_deserialize _ Spend_preallocate (csm len) (proj1 (proj1 Hlen)) spend_codec).
Definition v4_sapling_codec (is_coinbase : bool) :=
  codec_class (T := Amount NegativeAllowed) ;; v4_spends_codec is_coinbase ;;
  codec_vec OutputV4_serialize OutputV4_deserialize _ OutputV4_preallocate output_v4_codec ;;
  joinsplit_data_codec GROTH16_PROOF_SIZE.

Lemma v4_balance_check_no_panic s : no_panic (v4_balance_check s).
Proof. unfold v4_balance_check. destruct s as [? [v [[? ?] [? ?]]]]. cbn. by case_match. Qed.

Definition v4_ok (t : Transaction) : Prop :=
  match t with
  | V4 inputs outputs lock_time expiry_height joinsplit_data sapling =>
      (inputs_ok inputs ∧ outputs_wire_ok outputs ∧ lock_time_ok lock_time ∧ expiry_ok expiry_height) ∧
      joinsplit_data_ok GROTH16_PROOF_SIZE joinsplit_data ∧ sapling_v4_ok (inputs_coinbase inputs) sapling
  | _ => False
  end.

Lemma v4_written_ok is_coinbase (len : CompactSizeMessage) sps sos (vb : Amount NegativeAllowed) g :
  coinbase_check is_coinbase len = Ok tt → 0 ≤ csm len ≤ MAX_PROTOCOL_MESSAGE_LEN →
  (Z.of_nat (length sps) = csm len ∧ csm len ≤ Spend_preallocate ∧ Forall spend_ok sps) →
  items_ok sapling_output_ok OutputV4_preallocate sos → amount_ok vb = true → bytes_n 64 g →
  negb (bool_decide (sps = []) && bool_decide (sos = [])) = true →
  sapling_v4_ok is_coinbase (Some (mkSapling vb (if bool_decide (sps = []) then JustOutputs sos
                                else SpendsAndMaybeOutputs mkFieldNotPresent sps sos) g)).
Proof.
  intros Hc Hlen (Hn & Hmax & Hf) Hso Hvb Hg Hne. unfold coinbase_check in Hc. case_bool_decide as Hsp; cbn in Hne; cbn.
  - case_bool_decide; [done|]. split_and!; try done.
  - assert (0 < csm len) by (rewrite <- Hn; destruct sps; [done|cbn; lia]). unfold spends, sapling_data_outputs. cbn.
    split_and!; try done; [|split_and!; [done|lia..]].
    intros ->. rewrite (proj2 (Z.ltb_lt _ _)) in Hc by lia. done.
Qed.

Lemma v4_serialized ins outs lt ex vb len sps sos js bsig :
  0 ≤ csm len ≤ MAX_PROTOCOL_MESSAGE_LEN → Z.of_nat (length sps) = csm len →
  (bsig = None → sps = [] ∧ sos = [] ∧ zatoshis vb = 0) →
  tx_body_serialize (v4_of (((tt, (ins, (outs, (lt, ex)))), (vb, ((len, sps), (sos, js)))), bsig)) =
  write_seq (write_seq
    (write_seq (λ _, Ok (le_bytes 4 SAPLING_VERSION_GROUP_ID)) (λ _, write_seq zcash_serialize (λ _, write_seq zcash_serialize (λ _,
       write_seq LockTime_serialize (λ _ z, Ok (le_bytes 4 z))))))
    (λ _, write_seq zcash_serialize (λ _, write_seq (write_seq zcash_serialize (λ _, @serialize_external_count _ Spend_serialize)) (λ _,
       write_seq (Vec_serialize _ (H := OutputV4_serialize)) (λ _, joinsplit_data_serialize)))))
    (λ _, write_if Ok) (((tt, (ins, (outs, (lt, ex)))), (vb, ((len, sps), (sos, js)))), bsig).
Proof.
  intros Hlen Hn Hsig.
  assert (Hv : Vec_serialize _ (H := Spend_serialize) sps = write_seq zcash_serialize (λ _, @serialize_external_count _ Spend_serialize) (len, sps)).
  { unfold Vec_serialize, write_seq. rewrite Hn, csm_try_from_spec by (unfold MAX_PROTOCOL_MESSAGE_LEN in Hlen; int_lia).
    rewrite (proj2 (Z.leb_le _ _)) by lia. by destruct len. }
  unfold v4_of, tx_body_serialize. change (zcash_serialize (T := LockTime)) with LockTime_serialize.
  destruct bsig as [g|].
  - replace (spends _) with sps by (case_bool_decide; by subst). replace (sapling_data_outputs _) with sos by by case_bool_decide.
    cbn [sapling_value sapling_binding_sig]. rewrite Hv. unfold write_seq, write_if. cbn [fst snd].
    write_step (zcash_serialize ins). write_step (zcash_serialize outs). write_step (LockTime_serialize lt).
    write_step (zcash_serialize vb). write_step (zcash_serialize len). write_step (@serialize_external_count _ Spend_serialize sps).
    write_step (Vec_serialize _ (H := OutputV4_serialize) sos). write_step (joinsplit_data_serialize js).
    by rewrite <- !(assoc_L (++)).
  - destruct (Hsig eq_refl) as (-> & -> & Hz). destruct len as [n]. cbn in Hn. subst n. destruct vb as [z]. cbn in Hz. subst z.
    unfold write_seq, write_if. cbn [fst snd].
    write_step (zcash_serialize ins). write_step (zcash_serialize outs). write_step (LockTime_serialize lt).
    change (zcash_serialize (mkAmount 0)) with (Ok (E := SerializationError) (le_bytes 8 0)). cbn [mbind Res_bind].
    change serialize_empty_list with (Ok (E := SerializationError) [0]).
    change (zcash_serialize (mkCompactSizeMessage (Z.of_nat 0))) with (Ok (E := SerializationError) [0]).
    change (Vec_serialize SaplingOutput []) with (Ok (E := SerializationError) [0]).
    change (@serialize_external_count _ Spend_serialize []) with (Ok (E := SerializationError) (A := list Z) []).
    cbn [mbind Res_bind]. write_step (joinsplit_data_serialize js).
    by rewrite <- !(assoc_L (++)), !app_nil_r.
Qed.

Lemma v4_codec : codec tx_body_serialize read_v4 v4_ok.
Proof.
  apply (codec_map _ _ _ v4_of _ _ _ (codec_seq _ _ _ _ _ _
    (codec_check _ _ _ v4_balance_check
      (λ bs, '(p, bs) ← read_seq _ (λ h : V4Head, _) bs; _ ← v4_balance_check p; Ok (p, bs))
      (codec_seq _ _ _ _ _ _ v4_head_codec (λ h _, v4_sapling_codec (inputs_coinbase h.2.1)))
      (λ p _, v4_balance_check_no_panic p) (λ _, eq_refl))
    (λ p _, codec_if _ _ _ (v4_has_sapling p) (codec_bytes 64)))).
  - intros [[([] & ins & outs & lt & ex) (vb & (len & sps) & sos & js)] bsig]
      ((((_ & Hi & Ho & Hl & He) & Hvb & ((Hlen & Hc) & Hsp) & Hso & Hj) & Hbal) & Hsig).
    cbn [fst snd] in *. unfold v4_has_sapling in Hsig. cbn [fst snd] in Hsig. split.
    + unfold v4_of, v4_ok. split; [done|]. split; [done|]. destruct bsig as [g|]; [|done]. destruct Hsig as [Hne Hg].
      by apply (v4_written_ok _ len).
    + apply v4_serialized; [done|apply Hsp|]. intros ->. cbn in Hsig. apply negb_false_iff, andb_true_iff in Hsig as [H1%bool_decide_eq_true H2%bool_decide_eq_true].
      split_and!; [done|done|]. unfold v4_balance_check in Hbal. cbn [snd] in Hbal. subst.
      destruct (Z.eqb_spec (zatoshis vb) 0); [done|]. done.
  - intros t Ht. destruct t as [| | |ins outs lt ex js sap|]; try done. destruct Ht as ((Hi & Ho & Hl & He) & Hj & Hs).
    destruct sap as [d|].
    + destruct Hs as (Hc & Htr & (Hsp & Hmax & Hmsg) & Hso & Hvb & Hg).
      exists (((tt, (ins, (outs, (lt, ex)))), (sapling_value d, ((mkCompactSizeMessage (Z.of_nat (length (spends d))), spends d),
        (sapling_data_outputs d, js)))), Some (sapling_binding_sig d)). split.
      * assert (Hne : spends d = [] → sapling_data_outputs d = [] → False).
        { unfold spends, sapling_data_outputs. by destruct (transfers d). }
        split; [split|]; cbn [fst snd].
        -- split; [done|]. cbn [csm]. split_and!; try done; [lia| |apply Hso..].
           unfold coinbase_check. cbn [csm]. destruct (inputs_coinbase ins); [|done]. by rewrite Hc.
        -- unfold v4_balance_check. cbn [snd]. case_bool_decide; [|done]. case_bool_decide; [|done]. tauto.
        -- split; [|done]. unfold v4_has_sapling. cbn [fst snd]. case_bool_decide; [|done]. case_bool_decide; [|done]. tauto.
      * unfold v4_of. f_equal. f_equal. destruct d as [v tr g]. unfold spends, sapling_data_outputs in *. cbn in *.
        f_equal. destruct tr as [[] sp os|os]; [|done]. by rewrite bool_decide_false.
    + exists (((tt, (ins, (outs, (lt, ex)))), (mkAmount 0, ((mkCompactSizeMessage 0, []), ([], js)))), None). split; [|done].
      split; [split|]; [|done|done]. split; [done|]. cbn [fst snd csm]. split_and!; try done.
      unfold coinbase_check. by destruct (inputs_coinbase ins).
  - intros bs. unfold read_v4, read_seq.
    read_step (read_group_id SAPLING_VERSION_GROUP_ID "expected SAPLING_VERSION_GROUP_ID" bs) u r0.
    read_step (zcash_deserialize (T := list Input) r0) ins r1. read_step (zcash_deserialize (T := list Output) r1) outs r2.
    change (zcash_deserialize (T := LockTime)) with LockTime_deserialize. read_step (LockTime_deserialize r2) lt r3.
    read_step (read_uint 4 r3) ex r4. read_step (zcash_deserialize (T := Amount NegativeAllowed) r4) vb r5. cbn [fst snd].
    read_step (zcash_deserialize (T := CompactSizeMessage) r5) len r6. write_step (coinbase_check (inputs_coinbase ins) len).
    read_step (@deserialize_external_count _ Spend_deserialize Spend_preallocate (csm len) r6) sps r7.
    read_step (@Vec_deserialize _ OutputV4_deserialize OutputV4_preallocate r7) sos r8.
    read_step (joinsplit_data_deserialize GROTH16_PROOF_SIZE r8) js r9.
    unfold v4_balance_check, read_if. cbn [snd].
    assert (Hhas : ∀ h l s o j, v4_has_sapling (h, (vb, ((l, s), (o, j)))) = negb (bool_decide (s = []) && bool_decide (o = []))) by done.
    destruct (bool_decide (sps = [])) eqn:H1; cbn [negb andb mbind Res_bind].
    + destruct (bool_decide (sos = [])) eqn:H2; cbn [negb andb mbind Res_bind].
      * destruct (negb (zatoshis vb =? 0)); cbn [mbind Res_bind]; [done|]. by rewrite Hhas, H1, H2.
      * rewrite Hhas, H1, H2. cbn [negb andb]. read_step (read_bytes 64 r9) g r10. unfold v4_of. by rewrite H1.
    + rewrite Hhas, H1. cbn [negb andb]. read_step (read_bytes 64 r9) g r10. unfold v4_of. by rewrite H1.
Qed.

(** *** Version 5 *)

Definition read_network_upgrade : Reader NetworkUpgrade := λ reader,
  '(branch_id, reader) ← read_uint 4 reader;
  network_upgrade ← map_err (λ _, chain_error_into InvalidConsensusBranchId) (try_from_branch_id branch_id);
  if nu_ltb network_upgrade Nu5 then Err (Parse "v5 transaction must have NU5 or later consensus branch ID")
  else Ok (network_upgrade, reader).

(** The upgrades from NU5 that have a branch id. *)
Definition v5_upgrade (nu : NetworkUpgrade) : Prop := nu = Nu5 ∨ nu = Nu6 ∨ nu = Nu6_1.

Lemma network_upgrade_codec :
  codec (λ nu, id ← expect (branch_id nu); Ok (le_bytes 4 id)) read_network_upgrade v5_upgrade.
Proof.
  split.
  - intros nu Hnu. assert (∃ id, branch_id nu = Some id ∧ 0 ≤ id < 2 ^ 32 ∧ try_from_branch_id id = Ok nu ∧ nu_ltb nu Nu5 = false)
      as (id & -> & Hid & Ht & Hlt).
    { destruct Hnu as [-> | [-> | ->]]; eexists; (split; [reflexivity|split; [done|split; reflexivity]]). }
    exists (le_bytes 4 id). split_and!; [done|apply le_bytes_ok|]. intros rest. unfold read_network_upgrade.
    rewrite read_uint_app, Ok_bind by done. rewrite Ht. cbn [map_err]. by rewrite Ok_bind, Hlt.
  - intros bs nu rest Hb Hr. unfold read_network_upgrade in Hr. apply bind_Ok in Hr as ([id r] & Hid & (nu' & Hnu%map_err_Ok & Hr)%bind_Ok).
    destruct (nu_ltb nu' Nu5) eqn:Hlt; [done|]. simplify_eq. apply read_uint_Ok in Hid as (-> & _ & _); [|done].
    unfold try_from_branch_id, ok_or in Hnu. destruct (List.find _ _) as [[n i]|] eqn:Hf; [|done].
    apply find_some in Hf as [Hin Hi%Z.eqb_eq]. cbn in Hi, Hnu. injection Hnu as ->. subst i.
    repeat (destruct Hin as [Heq|Hin]; [injection Heq as <- <-; first [discriminate Hlt|split; [unfold v5_upgrade; tauto|eexists; split; reflexivity]]|]). done.
  - intros bs Hb. apply no_panic_bind; [apply no_panic_read_uint|]. intros [id r] _. apply no_panic_bind.
    + apply no_panic_map_err. unfold try_from_branch_id, ok_or. by destruct (fst <$> _).
    + intros nu _. by destruct (nu_ltb nu Nu5).
Qed.

Definition V5Parts : Type :=
  unit * (NetworkUpgrade * (LockTime * (Height * (list Input * (list Output *
    (option (SaplingShieldedData Hash FieldNotPresent) * option OrchardShieldedData)))))).
Definition v5_of (p : V5Parts) : Transaction :=
  let '(_, (nu, (lock_time, (expiry_height, (inputs, (outputs, (sapling, orchard))))))) := p in
  V5 nu lock_time expiry_height inputs outputs sapling orchard.

Definition v5_parts_ok (t : Transaction) : Prop :=
  match t with
  | V5 nu lock_time expiry_height inputs outputs sapling orchard =>
      v5_upgrade nu ∧ lock_time_ok lock_time ∧ expiry_ok expiry_height ∧ inputs_ok inputs ∧ outputs_wire_ok outputs ∧
      sapling_v5_ok (inputs_coinbase inputs) sapling ∧ orchard_ok orchard
  | _ => False
  end.

Definition v5_convert (t : Transaction) : Res SerializationError unit :=
  match t with
  | V5 nu _ _ _ _ _ _ => _ ← map_err chain_error_into (to_librustzcash t nu); Ok tt
  | _ => Ok tt
  end.

Definition v5_reader : Reader V5Parts :=
  read_seq (read_group_id TX_V5_VERSION_GROUP_ID "expected TX_V5_VERSION_GROUP_ID") (λ _,
  read_seq read_network_upgrade (λ _, read_seq LockTime_deserialize (λ _, read_seq (read_uint 4) (λ _,
  read_seq zcash_deserialize (λ inputs, read_seq zcash_deserialize (λ _,
  read_seq (deserialize_v5_sapling_shielded_data (inputs_coinbase inputs)) (λ _, orchard_deserialize))))))).

Lemma v5_parts_codec : codec tx_body_serialize (λ bs, '(p, bs) ← v5_reader bs; Ok (v5_of p, bs)) v5_parts_ok.
Proof.
  apply (codec_map _ v5_reader _ v5_of _ _ _ (
    group_codec TX_V5_VERSION_GROUP_ID "expected TX_V5_VERSION_GROUP_ID" ltac:(done) ;; network_upgrade_codec ;; lock_time_codec ;;
    expiry_codec ;; codec_seq _ _ _ _ _ _ inputs_codec (λ inputs _,
      outputs_codec ;; sapling_v5_codec (inputs_coinbase inputs) ;; orchard_codec))).
  - intros ([] & nu & lt & ex & ins & outs & sap & orc) (_ & Hok). cbn [fst snd] in Hok. split; [exact Hok|].
    unfold v5_of, tx_body_serialize, write_seq. cbn [fst snd]. change (zcash_serialize (T := LockTime)) with LockTime_serialize.
    cbn [mbind Res_bind]. write_step (expect (E := SerializationError) (branch_id nu)). write_step (LockTime_serialize lt).
    write_step (zcash_serialize ins). write_step (zcash_serialize outs). write_step (sapling_v5_serialize sap).
    write_step (orchard_serialize orc). by rewrite <- ?(assoc_L (++)).
  - intros [| | | |nu lt ex ins outs sap orc] H; try done. by exists (tt, (nu, (lt, (ex, (ins, (outs, (sap, orc))))))).
  - done.
Qed.

Definition v5_ok (t : Transaction) : Prop := v5_parts_ok t ∧ v5_convert t = Ok tt.

Lemma v5_codec : codec tx_body_serialize read_v5 v5_ok.
Proof.
  apply (codec_check _ _ _ v5_convert _ v5_parts_codec).
  - intros [| | | |nu lt ex ins outs sap orc] Ht; try done. unfold v5_convert. apply no_panic_bind; [|done].
    apply no_panic_map_err. unfold to_librustzcash. destruct (match tx_network_upgrade _ with Some _ => _ | None => _ end); [done|].
    destruct (branch_id nu); [|done]. destruct (negb _); [done|]. apply no_panic_bind.
    + apply no_panic_map_err. destruct (writes v5_parts_codec _ Ht) as (enc & He & _). unfold zcash_serialize, Transaction_serialize.
      by rewrite He.
    + intros b _. unfold ok_or. by destruct (lib_transaction_read _ _).
  - intros bs. unfold read_v5, v5_reader, read_seq, read_network_upgrade.
    read_step (read_group_id TX_V5_VERSION_GROUP_ID "expected TX_V5_VERSION_GROUP_ID" bs) u r0.
    read_step (read_uint 4 r0) id r1. write_step (map_err (λ _ : (), chain_error_into InvalidConsensusBranchId) (try_from_branch_id id)).
    destruct (nu_ltb a Nu5); [done|]. cbn [mbind Res_bind]. change (zcash_deserialize (T := LockTime)) with LockTime_deserialize.
    read_step (LockTime_deserialize r1) lt r2. read_step (read_uint 4 r2) ex r3. read_step (zcash_deserialize (T := list Input) r3) ins r4.
    read_step (zcash_deserialize (T := list Output) r4) outs r5.
    read_step (deserialize_v5_sapling_shielded_data (inputs_coinbase ins) r5) sap r6. read_step (orchard_deserialize r6) orc r7.
    unfold v5_of, v5_convert. by destruct (map_err chain_error_into _).
Qed.

(** *** Any version *)

Definition tx_header (t : Transaction) : Z := Z.lor (if is_overwintered t then Z.shiftl 1 31 else 0) (version t).

(** The values that the encodings of a version stand for. *)
Definition tx_body_ok (t : Transaction) : Prop :=
  match t with
  | V1 _ _ _ => v1_ok t | V2 _ _ _ _ => v2_ok t | V3 _ _ _ _ _ => v3_ok t | V4 _ _ _ _ _ _ => v4_ok t | V5 _ _ _ _ _ _ _ => v5_ok t
  end.

Lemma tx_header_cases t : tx_header t = 1 ∨ tx_header t = 2 ∨ 2 ^ 31 + 3 ≤ tx_header t ≤ 2 ^ 31 + 5.
Proof. destruct t; vm_compute; intuition congruence. Qed.

Lemma header_fields h : 0 ≤ h < 2 ^ 32 →
  Z.land h LOW_31_BITS = h mod 2 ^ 31 ∧ negb (Z.shiftr h 31 =? 0) = (2 ^ 31 <=? h).
Proof.
  intros Hh. change LOW_31_BITS with (Z.ones 31). rewrite Z.land_ones, Z.shiftr_div_pow2 by lia. split; [done|].
  destruct (Z.leb_spec (2 ^ 31) h).
  - apply negb_true_iff, Z.eqb_neq. assert (1 ≤ h / 2 ^ 31) by (apply Z.div_le_lower_bound; lia). lia.
  - by rewrite Z.div_small by lia.
Qed.

Ltac header_case :=
  let H := fresh in
  intros []; split; intros H; first [exact (False_ind _ H)|exact (False_ind _ (proj1 H))|discriminate (proj1 H)|split; [reflexivity|exact H]|exact (proj2 H)].

Lemma body_codec h : 0 ≤ h < 2 ^ 32 →
  codec tx_body_serialize (read_body (Z.land h LOW_31_BITS) (negb (Z.shiftr h 31 =? 0))) (λ t, tx_header t = h ∧ tx_body_ok t).
Proof.
  intros Hh. destruct (header_fields h Hh) as [-> ->].
  assert (Hmod : h = h mod 2 ^ 31 + if 2 ^ 31 <=? h then 2 ^ 31 else 0).
  { destruct (Z.leb_spec (2 ^ 31) h); [|rewrite Z.mod_small; lia]. rewrite <- (Z.mod_unique h (2 ^ 31) 1 (h - 2 ^ 31)); lia. }
  assert (Hb : 0 ≤ h mod 2 ^ 31) by (by apply Z.mod_pos_bound). remember (h mod 2 ^ 31) as v eqn:Hv. clear Hv. destruct (2 ^ 31 <=? h) eqn:Ho.
  - destruct (decide (v = 3)) as [->|]; [|destruct (decide (v = 4)) as [->|]; [|destruct (decide (v = 5)) as [->|]]]; subst h.
    + apply (codec_ext _ _ _ _ _ _ v3_codec); [header_case|done|done].
    + apply (codec_ext _ _ _ _ _ _ v4_codec); [header_case|done|done].
    + apply (codec_ext _ _ _ _ _ _ v5_codec); [header_case|done|done].
    + apply (codec_ext _ _ _ _ _ _ (codec_false tx_body_serialize (Parse "bad tx header"))); [|done|].
      * intros t; split; [done|]. intros [H _]. pose proof (tx_header_cases t). lia.
      * intros bs. unfold read_body. rewrite !andb_false_r. cbn [andb]. by rewrite !(proj2 (Z.eqb_neq _ _)) by done.
  - destruct (decide (v = 1)) as [->|]; [|destruct (decide (v = 2)) as [->|]]; subst h.
    + apply (codec_ext _ _ _ _ _ _ v1_codec); [header_case|done|done].
    + apply (codec_ext _ _ _ _ _ _ v2_codec); [header_case|done|done].
    + apply (codec_ext _ _ _ _ _ _ (codec_false tx_body_serialize (Parse "bad tx header"))); [|done|].
      * intros t; split; [done|]. intros [H _]. pose proof (tx_header_cases t). lia.
      * intros bs. unfold read_body. rewrite !andb_false_r. cbn [andb]. by rewrite !(proj2 (Z.eqb_neq _ _)) by done.
Qed.

Definition tx_wire_ok (t : Transaction) : Prop :=
  tx_body_ok t ∧ written_within Transaction_serialize MAX_BLOCK_BYTES t.

Lemma tx_codec : codec Transaction_serialize Transaction_deserialize tx_wire_ok.
Proof.
  apply (codec_limited Transaction_serialize _ tx_body_ok); [done|].
  apply (codec_map _ _ _ snd _ _ _ (codec_seq _ _ _ _ _ _ (codec_uint 4) body_codec)).
  - intros [h t] [Hh [Ht Hok]]. split; [done|]. cbn [snd fst] in *. unfold Transaction_serialize, write_seq. cbn [fst snd].
    cbn [mbind Res_bind]. change (Z.lor _ _) with (tx_header t). by rewrite Ht.
  - intros t Ht. exists (tx_header t, t). split; [|done]. split; [|done]. cbn [fst]. pose proof (tx_header_cases t).
    change (256 ^ Z.of_nat 4) with (2 ^ 32). lia.
  - intros bs. unfold read_seq. read_step (read_uint 4 bs) h r. by destruct (read_body _ _ r) as [[t r']| |].
Qed.

(** ** Blocks *)

Definition MIN_TRANSPARENT_TX_SIZE : Z := MIN_TRANSPARENT_INPUT_SIZE + 4 + MIN_TRANSPARENT_OUTPUT_SIZE.
#[export] Instance Transaction_preallocate : TrustedPreallocate Transaction := MAX_BLOCK_BYTES / MIN_TRANSPARENT_TX_SIZE.

#[export] Instance Block_serialize : ZcashSerialize Block := λ self,
  header ← zcash_serialize (header self);
  transactions ← zcash_serialize (transactions self);
  Ok (header ++ transactions).

#[export] Instance Block_deserialize : ZcashDeserialize Block := read_limited MAX_BLOCK_BYTES (λ limited_reader,
  '(header, limited_reader) ← (zcash_deserialize : Reader Header) limited_reader;
  '(transactions, limited_reader) ← (zcash_deserialize : Reader (list Transaction)) limited_reader;
  Ok (mkBlock header transactions, limited_reader)).

Definition block_wire_ok (b : Block) : Prop :=
  (header_ok (header b) ∧ items_ok tx_wire_ok Transaction_preallocate (transactions b)) ∧
  written_within Block_serialize MAX_BLOCK_BYTES b.

Lemma block_wire_codec : codec Block_serialize Block_deserialize block_wire_ok.
Proof.
  apply (codec_limited Block_serialize _ (λ b, header_ok (header b) ∧ items_ok tx_wire_ok Transaction_preallocate (transactions b)));
    [done|].
  apply (codec_map _ _ _ (λ p, mkBlock p.1 p.2) _ _ _
    (codec_class (T := Header) ;; codec_vec _ _ _ Transaction_preallocate tx_codec)).
  - intros [h l] H. split; [exact H|done].
  - intros [h l] H. by exists (h, l).
  - intros bs. unfold read_seq. read_step (zcash_deserialize (T := Header) bs) h r.
    change (@zcash_deserialize (list Transaction) _) with (@Vec_deserialize Transaction Transaction_deserialize Transaction_preallocate).
    by destruct (@Vec_deserialize Transaction Transaction_deserialize Transaction_preallocate r) as [[t r']| |].
Qed.

(** ** The limits on the numbers of items

    A list with a count is read only if the count is at most the number of the smallest items that fit in a
    block. *)

Lemma vec_at_least {A} (s : Writer A) v n l enc : at_least s v n → Forall v l →
  @Vec_serialize A s l = Ok enc → n * Z.of_nat (length l) + 1 ≤ Z.of_nat (length enc).
Proof.
  intros Hn Hl (len & _ & (c & Hc%csm_length & (bs & Hbs & [= <-])%bind_Ok)%bind_Ok)%bind_Ok.
  pose proof (items_at_least s v n Hn l bs Hl Hbs). rewrite length_app. lia.
Qed.

Ltac wire_length :=
  intros ? ? ?; repeat match goal with
  | H : _ ∧ _ |- _ => destruct H
  | H : element _ _ |- _ => destruct H
  | H : bytes_n _ _ |- _ => destruct H
  end; intros [= <-]; rewrite !length_app; cbn [length]; lia.

Lemma amount_length (a : Amount NonNegative) enc : zcash_serialize a = Ok enc → length enc = 8%nat.
Proof.
  intros (z & _ & Heq)%bind_Ok. apply (f_equal (ok_value [])) in Heq. cbn [ok_value] in Heq. rewrite <- Heq. apply length_le_bytes.
Qed.
Lemma array_at_least n : at_least Ok (bytes_n n) (Z.of_nat n).
Proof. intros b enc [_ H] [= <-]. lia. Qed.
Lemma spend_at_least : at_least Spend_serialize spend_ok ANCHOR_PER_SPEND_SIZE.
Proof. unfold ANCHOR_PER_SPEND_SIZE, SHARED_ANCHOR_SPEND_SIZE, SHARED_ANCHOR_SPEND_PREFIX_SIZE, Spend_serialize, spend_ok. wire_length. Qed.
Lemma spend_prefix_at_least : at_least SpendPrefix_serialize spend_prefix_ok SHARED_ANCHOR_SPEND_PREFIX_SIZE.
Proof. unfold SHARED_ANCHOR_SPEND_PREFIX_SIZE, SpendPrefix_serialize, spend_prefix_ok. wire_length. Qed.
Lemma output_prefix_at_least : at_least OutputPrefix_serialize output_prefix_ok OUTPUT_PREFIX_SIZE.
Proof. unfold OUTPUT_PREFIX_SIZE, OutputPrefix_serialize, output_prefix_ok. wire_length. Qed.
Lemma output_v4_at_least : at_least OutputV4_serialize sapling_output_ok OUTPUT_SIZE.
Proof.
  unfold OUTPUT_SIZE, OUTPUT_PREFIX_SIZE, OutputV4_serialize, sapling_output_ok, output_prefix_ok. cbn [fst output_into_v5_parts
    oprefix_cv oprefix_cm_u oprefix_ephemeral_key oprefix_enc_ciphertext oprefix_out_ciphertext]. wire_length.
Qed.
Lemma action_at_least : at_least Action_serialize action_ok ACTION_SIZE.
Proof. unfold ACTION_SIZE, Action_serialize, action_ok. wire_length. Qed.
Lemma input_at_least : at_least Input_serialize input_ok MIN_TRANSPARENT_INPUT_SIZE.
Proof. exact input_length. Qed.
Lemma output_at_least : at_least Output_serialize (λ _, True) MIN_TRANSPARENT_OUTPUT_SIZE.
Proof.
  intros o enc _ (v & Hv%amount_length & (se & Hse%serialize_bytes_length & [= <-])%bind_Ok)%bind_Ok.
  rewrite length_app. unfold MIN_TRANSPARENT_OUTPUT_SIZE. lia.
Qed.
Lemma joinsplit_at_least n :
  at_least JoinSplit_serialize (joinsplit_wire_ok n) (JOINSPLIT_SIZE_WITHOUT_ZKPROOF + Z.of_nat n).
Proof.
  assert (Htwo : ∀ k l, length l = 2%nat ∧ Forall (bytes_n k) l → length (nth 0 l []) = k ∧ length (nth 1 l []) = k).
  { intros k [|x [|y [|]]] [Hl Hf]; try done. apply Forall_cons in Hf as [[_ ?] [[_ ?] _]%Forall_cons]. done. }
  intros j enc (_ & [_ Ha] & Hn & Hc & [_ He] & [_ Hr] & Hm & [_ Hz] & Hx) (a & Hva%amount_length & (b & Hvb%amount_length & [= <-])%bind_Ok)%bind_Ok.
  apply Htwo in Hn, Hc, Hm, Hx. rewrite !length_app. unfold Hash in *. unfold JOINSPLIT_SIZE_WITHOUT_ZKPROOF. lia.
Qed.

(** The number of items of each list of a transaction, with the limit its reader has. *)
Definition tx_counts (t : Transaction) : list (Z * Z) :=
  let joinsplits n (js : option JoinSplitData) :=
    match js with Some d => [(Z.of_nat (length (joinsplits d)), JoinSplit_preallocate n)] | None => [] end in
  [(Z.of_nat (length (inputs t)), Input_preallocate); (Z.of_nat (length (outputs t)), Output_preallocate)] ++
  match t with
  | V1 _ _ _ => []
  | V2 _ _ _ js | V3 _ _ _ _ js => joinsplits BCTV14_PROOF_SIZE js
  | V4 _ _ _ _ js sapling =>
      joinsplits GROTH16_PROOF_SIZE js ++
      match sapling with
      | Some d => [(Z.of_nat (length (spends d)), Spend_preallocate);
                   (Z.of_nat (length (sapling_data_outputs d)), OutputV4_preallocate)]
      | None => []
      end
  | V5 _ _ _ _ _ sapling orchard =>
      match sapling with
      | Some d => [(Z.of_nat (length (spends d)), SpendPrefix_preallocate);
                   (Z.of_nat (length (sapling_data_outputs d)), OutputPrefix_preallocate)]
      | None => []
      end ++
      match orchard with Some d => [(Z.of_nat (length (actions d)), Action_preallocate)] | None => [] end
  end.

(** The items themselves are such as the readers accept. *)
Definition tx_items_ok (t : Transaction) : Prop :=
  let joinsplits n (js : option JoinSplitData) :=
    match js with Some d => Forall (joinsplit_wire_ok n) (joinsplits d) | None => True end in
  Forall input_ok (inputs t) ∧
  match t with
  | V1 _ _ _ => True
  | V2 _ _ _ js | V3 _ _ _ _ js => joinsplits BCTV14_PROOF_SIZE js
  | V4 _ _ _ _ js sapling =>
      joinsplits GROTH16_PROOF_SIZE js ∧
      match sapling with
      | Some d => Forall spend_ok (spends d) ∧ Forall sapling_output_ok (sapling_data_outputs d)
      | None => True
      end
  | V5 _ _ _ _ _ sapling orchard =>
      match sapling with
      | Some d => Forall spend_prefix_ok (prefixes_of (spends d)) ∧ Forall (bytes_n 192) (proofs_of (spends d)) ∧
                  Forall (bytes_n 64) (sigs_of (spends d)) ∧
                  Forall output_prefix_ok (oprefixes_of (sapling_data_outputs d)) ∧
                  Forall (bytes_n 192) (oproofs_of (sapling_data_outputs d))
      | None => True
      end ∧
      match orchard with
      | Some d => Forall action_ok (actions d) ∧ Forall (bytes_n 64) (action_spend_auth_sig <$> authorized_actions d)
      | None => True
      end
  end.

Definition within (c : Z * Z) : Prop := c.1 ≤ c.2.

(** The items and their count are in [enc], so their number is below what the limit allows. *)
Lemma count_within {A} (s : Writer A) v size (l : list A) enc (max : Z) : at_least s v size → 0 < size →
  max = (MAX_BLOCK_BYTES - 1) / size → Forall v l → @Vec_serialize A s l = Ok enc → Z.of_nat (length enc) ≤ MAX_BLOCK_BYTES →
  within (Z.of_nat (length l), max).
Proof.
  intros Hs Hpos -> Hl He Hlen. pose proof (vec_at_least _ _ _ _ _ Hs Hl He). unfold within. cbn.
  apply Z.div_le_lower_bound; lia.
Qed.

Lemma joinsplit_data_count n js enc :
  match js with Some d => Forall (joinsplit_wire_ok n) (joinsplits d) | None => True end →
  joinsplit_data_serialize js = Ok enc → Z.of_nat (length enc) ≤ MAX_BLOCK_BYTES →
  Forall within (match js with Some d => [(Z.of_nat (length (joinsplits d)), JoinSplit_preallocate n)] | None => [] end).
Proof.
  destruct js as [d|]; [|by constructor]. intros Hd (e & He & [= <-])%bind_Ok Hlen. rewrite !length_app in Hlen.
  apply Forall_singleton, (count_within _ _ _ _ e _ (joinsplit_at_least n)); try done; [|lia]. unfold JOINSPLIT_SIZE_WITHOUT_ZKPROOF. lia.
Qed.

Lemma transparent_count (ins : list Input) (outs : list Output) ei eo : Forall input_ok ins → zcash_serialize ins = Ok ei → zcash_serialize outs = Ok eo →
  Z.of_nat (length ei) ≤ MAX_BLOCK_BYTES → Z.of_nat (length eo) ≤ MAX_BLOCK_BYTES →
  Forall within [(Z.of_nat (length ins), Input_preallocate); (Z.of_nat (length outs), Output_preallocate)].
Proof.
  intros Hi Hei Heo Hli Hlo. pose proof (vec_at_least _ _ _ _ _ input_at_least Hi Hei) as H1.
  pose proof (vec_at_least _ _ _ _ _ output_at_least (Forall_true _ _ (λ _, I)) Heo) as H2.
  apply Forall_cons_2; [|apply Forall_singleton]; (apply Z.div_le_lower_bound; [done|]); cbn [fst]; lia.
Qed.

Lemma sapling_v5_count o enc :
  match o with
  | Some d => Forall spend_prefix_ok (prefixes_of (spends d)) ∧ Forall (bytes_n 192) (proofs_of (spends d)) ∧
              Forall (bytes_n 64) (sigs_of (spends d)) ∧ Forall output_prefix_ok (oprefixes_of (sapling_data_outputs d)) ∧
              Forall (bytes_n 192) (oproofs_of (sapling_data_outputs d))
  | None => True
  end → sapling_v5_serialize o = Ok enc → Z.of_nat (length enc) ≤ MAX_BLOCK_BYTES →
  Forall within (match o with
    | Some d => [(Z.of_nat (length (spends d)), SpendPrefix_preallocate);
                 (Z.of_nat (length (sapling_data_outputs d)), OutputPrefix_preallocate)]
    | None => [] end).
Proof.
  destruct o as [d|]; [|by constructor]. intros (Hs & Hp & Hg & Ho & Hop) H Hlen. unfold sapling_v5_serialize, SaplingV5_serialize in H.
  apply bind_Ok in H as (e1 & H1 & (e2 & H2 & (e3 & _ & (e4 & H4 & (e5 & H5 & (e6 & H6 & [= <-])%bind_Ok)%bind_Ok)%bind_Ok)%bind_Ok)%bind_Ok).
  pose proof (vec_at_least _ _ _ _ _ spend_prefix_at_least Hs H1) as L1. pose proof (vec_at_least _ _ _ _ _ output_prefix_at_least Ho H2) as L2.
  pose proof (items_at_least _ _ _ (array_at_least 192) _ _ Hp H4) as L4. pose proof (items_at_least _ _ _ (array_at_least 64) _ _ Hg H5) as L5.
  pose proof (items_at_least _ _ _ (array_at_least 192) _ _ Hop H6) as L6. 
  unfold prefixes_of, proofs_of, sigs_of, oprefixes_of, oproofs_of in *. rewrite length_fmap in L1. rewrite length_fmap in L2.
  rewrite length_fmap in L4. rewrite length_fmap in L5. rewrite length_fmap in L6. rewrite !length_app in Hlen.
  unfold SHARED_ANCHOR_SPEND_PREFIX_SIZE, OUTPUT_PREFIX_SIZE in *.
  apply Forall_cons_2; [|apply Forall_singleton]; (apply Z.div_le_lower_bound; [done|]); cbn [fst];
    unfold SHARED_ANCHOR_SPEND_SIZE, SHARED_ANCHOR_SPEND_PREFIX_SIZE, OUTPUT_SIZE, OUTPUT_PREFIX_SIZE; lia.
Qed.

Lemma orchard_count o enc :
  match o with
  | Some d => Forall action_ok (actions d) ∧ Forall (bytes_n 64) (action_spend_auth_sig <$> authorized_actions d)
  | None => True
  end → orchard_serialize o = Ok enc → Z.of_nat (length enc) ≤ MAX_BLOCK_BYTES →
  Forall within (match o with Some d => [(Z.of_nat (length (actions d)), Action_preallocate)] | None => [] end).
Proof.
  destruct o as [d|]; [|by constructor]. intros (Ha & Hg) H Hlen. unfold orchard_serialize, Orchard_serialize in H.
  apply bind_Ok in H as (e1 & H1 & (e2 & _ & (e3 & _ & (e4 & _ & (e5 & H5 & [= <-])%bind_Ok)%bind_Ok)%bind_Ok)%bind_Ok).
  pose proof (vec_at_least _ _ _ _ _ action_at_least Ha H1) as L1. pose proof (items_at_least _ _ _ (array_at_least 64) _ _ Hg H5) as L5.
  unfold actions in *. rewrite length_fmap in L1. rewrite length_fmap in L5. rewrite !length_app in Hlen. unfold ACTION_SIZE in *.
  apply Forall_singleton, Z.div_le_lower_bound; [done|]. unfold AUTHORIZED_ACTION_SIZE, ACTION_SIZE, SPEND_AUTH_SIG_SIZE, actions. cbn [fst]. rewrite length_fmap. lia.
Qed.

Lemma counts_within t enc : tx_items_ok t → tx_body_serialize t = Ok enc → Z.of_nat (length enc) ≤ MAX_BLOCK_BYTES →
  Forall within (tx_counts t).
Proof.
  intros [Hi Hok] H Hlen. unfold tx_counts. destruct t as [ins outs lt|ins outs lt js|ins outs lt ex js|ins outs lt ex js sap|nu lt ex ins outs sap orc];
    unfold tx_body_serialize in H; cbn [inputs outputs] in *.
  - apply bind_Ok in H as (ei & Hei & (eo & Heo & (el & _ & [= <-])%bind_Ok)%bind_Ok). rewrite !length_app in Hlen.
    apply Forall_app_2; [apply (transparent_count ins outs ei eo); first [done|lia]|by constructor].
  - apply bind_Ok in H as (ei & Hei & (eo & Heo & (el & _ & (ej & Hej & [= <-])%bind_Ok)%bind_Ok)%bind_Ok). rewrite !length_app in Hlen.
    apply Forall_app_2; [apply (transparent_count ins outs ei eo); first [done|lia]|apply (joinsplit_data_count _ js ej); first [done|lia]].
  - apply bind_Ok in H as (ei & Hei & (eo & Heo & (el & _ & (ej & Hej & Heq)%bind_Ok)%bind_Ok)%bind_Ok).
    apply (f_equal (ok_value [])) in Heq. cbn [ok_value] in Heq. rewrite <- Heq, !length_app in Hlen.
    apply Forall_app_2; [apply (transparent_count ins outs ei eo); first [done|lia]|apply (joinsplit_data_count _ js ej); first [done|lia]].
  - apply bind_Ok in H as (ei & Hei & (eo & Heo & (el & _ & (es & Hes & (ej & Hej & Heq)%bind_Ok)%bind_Ok)%bind_Ok)%bind_Ok).
    apply (f_equal (ok_value [])) in Heq. cbn [ok_value] in Heq. rewrite <- Heq, !length_app in Hlen. destruct Hok as [Hj Hs].
    apply Forall_app_2; [apply (transparent_count ins outs ei eo); first [done|lia]|].
    apply Forall_app_2; [apply (joinsplit_data_count _ js ej); first [done|lia]|]. destruct sap as [d|]; [|by constructor].
    apply bind_Ok in Hes as (ev & _ & (e1 & He1 & (e2 & He2 & [= <-])%bind_Ok)%bind_Ok). rewrite !length_app in Hlen. destruct Hs as [Hs Ho].
    apply Forall_cons_2; [|apply Forall_singleton].
    + apply (count_within _ _ _ _ e1 _ spend_at_least); try done. lia.
    + apply (count_within _ _ _ _ e2 _ output_v4_at_least); try done. lia.
  - apply bind_Ok in H as (id & _ & (el & _ & (ei & Hei & (eo & Heo & (es & Hes & (er & Her & Heq)%bind_Ok)%bind_Ok)%bind_Ok)%bind_Ok)%bind_Ok).
    apply (f_equal (ok_value [])) in Heq. cbn [ok_value] in Heq. rewrite <- Heq, !length_app in Hlen. destruct Hok as [Hs Ho].
    apply Forall_app_2; [apply (transparent_count ins outs ei eo); first [done|lia]|].
    apply Forall_app_2; [apply (sapling_v5_count sap es); first [done|lia]|apply (orchard_count orc er); first [done|lia]].
Qed.

End Codecs.

(** ** The encodings *)

(** C12: transactions have one encoding each. A transaction of any version whose parts and numbers of
    items are within the ranges of their types ([tx_wire_ok]) is written to at most [MAX_BLOCK_BYTES] bytes, which
    read back as the transaction and leave the bytes after them; whatever bytes read as a transaction are the
    encoding of that transaction; and reading bytes never panics. *)
Theorem transaction_codec `{CL : !CurveLib, CW : !CurveLaws, LZ : !LibRustZcash} :
  (∀ t, tx_wire_ok t → ∃ enc, Transaction_serialize t = Ok enc ∧ bytes_ok enc ∧ Z.of_nat (length enc) ≤ MAX_BLOCK_BYTES ∧
     ∀ rest, Transaction_deserialize (enc ++ rest) = Ok (t, rest)) ∧
  (∀ bs t rest, bytes_ok bs → Transaction_deserialize bs = Ok (t, rest) →
     tx_wire_ok t ∧ ∃ enc, Transaction_serialize t = Ok enc ∧ bs = enc ++ rest) ∧
  (∀ bs, bytes_ok bs → no_panic (Transaction_deserialize bs)).
Proof.
  split_and!; [|exact (reads tx_codec)|exact (reads_total tx_codec)].
  intros t Ht. destruct (writes tx_codec t Ht) as (enc & He & Hb & Hd). exists enc. split_and!; [done|done| |done].
  destruct Ht as [_ Hw]. by apply Hw.
Qed.

(** C28: blocks have one encoding each, and a node accepts the blocks it sends. A block whose header and
    transactions are those of encodings is written to at most [MAX_BLOCK_BYTES] bytes if it fits, and these read back as the
    block; whatever bytes read as a block are its encoding; and reading bytes never panics. *)
Theorem block_codec `{CL : !CurveLib, CW : !CurveLaws, LZ : !LibRustZcash} :
  (∀ b, block_wire_ok b → ∃ enc, Block_serialize b = Ok enc ∧ bytes_ok enc ∧ Z.of_nat (length enc) ≤ MAX_BLOCK_BYTES ∧
     ∀ rest, Block_deserialize (enc ++ rest) = Ok (b, rest)) ∧
  (∀ bs b rest, bytes_ok bs → Block_deserialize bs = Ok (b, rest) →
     block_wire_ok b ∧ ∃ enc, Block_serialize b = Ok enc ∧ bs = enc ++ rest) ∧
  (∀ bs, bytes_ok bs → no_panic (Block_deserialize bs)).
Proof.
  split_and!; [|exact (reads block_wire_codec)|exact (reads_total block_wire_codec)].
  intros b Hb. destruct (writes block_wire_codec b Hb) as (enc & He & Hbs & Hd). exists enc. split_and!; [done|done| |done].
  destruct Hb as [_ Hw]. by apply Hw.
Qed.

(** C35: the limits on the numbers of items never reject a transaction that fits in a block. When the
    items of a transaction are such as the readers accept, and the encoding has at most [MAX_BLOCK_BYTES] bytes, then the number of
    its inputs, outputs, JoinSplits, Sapling spends and outputs, and Orchard actions are each within the
    preallocation limit of their type. *)
Theorem preallocation_complete `{CL : !CurveLib} t enc :
  tx_items_ok t → Transaction_serialize t = Ok enc → Z.of_nat (length enc) ≤ MAX_BLOCK_BYTES →
  Forall within (tx_counts t).
Proof.
  intros Hok (body & Hbody & Heq)%bind_Ok Hlen. apply (f_equal (ok_value [])) in Heq. cbn [ok_value] in Heq.
  rewrite <- Heq, length_app in Hlen. apply (counts_within t body); [done|done|lia].
Qed.

(** *** A transaction and a block *)

#[local] Instance sample_curves : CurveLib := {|
  value_commitment_from_bytes _ := true; note_commitment_from_bytes _ := true; jubjub_point _ := true;
  jubjub_small_order _ := false; jubjub_base _ := true; redjubjub_key _ := true; pallas_base _ := true;
  pallas_point _ := true; pallas_identity _ := false |}.
#[local] Instance sample_curve_laws : CurveLaws.
Proof. done. Qed.
#[local] Instance sample_lib : LibRustZcash := {|
  LibTransaction := list Z; lib_branch_id id := id =? 3268858036; lib_transaction_read bytes _ := Some bytes |}.

Definition sample_action : AuthorizedAction := mkAuthorizedAction
  (mkAction (replicate 32 1) (replicate 32 2) (replicate 32 3) (replicate 32 4) (replicate 32 5) (replicate 580 6) (replicate 80 7))
  (replicate 64 8).
Definition sample_tx : Transaction := V5 Nu5 (LockHeight 100) 200
  [PrevOut (mkOutPoint (replicate 32 1) 7) [1; 2; 3] 5] [mkOutput (mkAmount 1000) [4; 5]] None
  (Some (mkOrchard 3 (mkAmount (-5)) (replicate 32 9) [1; 2; 3] [sample_action] (replicate 64 10))).
Definition sample_block : Block :=
  mkBlock (mkHeader 4 (replicate 32 1) (replicate 32 2) (replicate 32 3) 1700000000 0x1f07ffff (replicate 32 4)
    (Common (replicate 1344 5))) [sample_tx].

Lemma bytes_ok_forallb bs : forallb (λ b, (0 <=? b) && (b <? 256)) bs = true → bytes_ok bs.
Proof.
  intros H. apply Forall_forall. intros b Hb%list_elem_of_In. apply forallb_forall with (x := b) in H; [|done]. unfold is_byte. lia.
Qed.
Lemma sample_tx_ok : tx_wire_ok sample_tx.
Proof.
  apply (reads tx_codec (ok_value [] (Transaction_serialize sample_tx)) sample_tx []).
  - apply bytes_ok_forallb. vm_compute. reflexivity.
  - vm_compute. reflexivity.
Qed.
Lemma sample_block_ok : block_wire_ok sample_block.
Proof.
  apply (reads block_wire_codec (ok_value [] (Block_serialize sample_block)) sample_block []).
  - apply bytes_ok_forallb. vm_compute. reflexivity.
  - vm_compute. reflexivity.
Qed.

Lemma transaction_codec_witness : ∃ enc, Transaction_serialize sample_tx = Ok enc ∧
  Transaction_deserialize (enc ++ [42]) = Ok (sample_tx, [42]).
Proof.
  destruct (transaction_codec (CL := sample_curves) (LZ := sample_lib)) as (Hw & _).
  destruct (Hw sample_tx sample_tx_ok) as (enc & He & _ & _ & Hd). exists enc. split; [exact He|exact (Hd [42])].
Defined.

Lemma block_codec_witness : ∃ enc, Block_serialize sample_block = Ok enc ∧
  Block_deserialize (enc ++ [42]) = Ok (sample_block, [42]).
Proof.
  destruct (block_codec (CL := sample_curves) (LZ := sample_lib)) as (Hw & _).
  destruct (Hw sample_block sample_block_ok) as (enc & He & _ & _ & Hd). exists enc. split; [exact He|exact (Hd [42])].
Defined.

Lemma preallocation_complete_witness : Forall within (tx_counts sample_tx).
Proof.
  apply (preallocation_complete sample_tx (ok_value [] (Transaction_serialize sample_tx))).
  - destruct sample_tx_ok as [[(_ & _ & _ & [Hi _] & _ & _ & (_ & [Ha _] & _ & _ & _ & _ & Hg & _)) _] _].
    split; [exact Hi|]. split; [exact I|]. split; [exact Ha|exact Hg].
  - apply ok_value_eq. vm_compute. reflexivity.
  - vm_compute. discriminate.
Defined.
