(* ===== verification/Sighash.v ===== *)
(** * Transaction ids, authorizing data digests and signature hashes

    [zebra-chain/src/transaction/txid.rs], the conversions to [Hash] and [AuthDigest] of
    [transaction/hash.rs] and [transaction/auth_digest.rs], [SigHasher] of [transaction/sighash.rs], and its
    implementation in [zebra-chain/src/primitives/zcash_primitives.rs].

    The digests of a transaction that [librustzcash] parsed are class parameters, with the parts of the parsed
    transaction that the code looks at: the number of its transparent inputs, and its shielded bundles. *)

From S2P Require Import Prelude Height Amount Serialization Codec Network Transaction Merkle.
From S2P Require Import TransparentCodec ShieldedCodec TransactionCodec.

(** [zp_tx::sighash::SignableInput]. *)
Inductive SignableInput :=
| SignShielded
| SignTransparent (hash_type index : Z) (script_code script_pubkey : list Z) (value : Z).

Class SighashLib `{!LibRustZcash} := {
  (** [Transaction::txid] and [Transaction::auth_commitment] *)
  lib_txid : LibTransaction → Hash;
  lib_auth_commitment : LibTransaction → Hash;
  (** The number of inputs of [transparent_bundle], if the transaction has one *)
  lib_transparent_vin : LibTransaction → option Z;
  LibSaplingBundle : Type;
  LibOrchardBundle : Type;
  lib_sapling_bundle : LibTransaction → option LibSaplingBundle;
  lib_orchard_bundle : LibTransaction → option LibOrchardBundle;
  (** [Zatoshis::from_nonnegative_i64] accepts an amount *)
  lib_zatoshis : Z → bool;
  (** [zp_tx::sighash::signature_hash], which may ask for the amounts and the scripts of the previous outputs *)
  lib_signature_hash : LibTransaction → Run (list Z) → list (list Z) → SignableInput → Run Hash;
}.

(** ** Transaction ids *)

Section Ids.
Context `{CL : !CurveLib, LZ : !LibRustZcash, SL : !SighashLib, HF : !HashFns}.

Definition txid_v1_to_v4 (trans : Transaction) : option Hash :=
  match zcash_serialize trans with Ok bytes => Some (sha256d bytes) | _ => None end.

Definition txid_v5 (trans : Transaction) : option Hash :=
  nu ← tx_network_upgrade trans;
  match to_librustzcash trans nu with Ok tx => Some (lib_txid tx) | _ => None end.

Definition txid (trans : Transaction) : option Hash :=
  match trans with
  | V1 _ _ _ | V2 _ _ _ _ | V3 _ _ _ _ _ | V4 _ _ _ _ _ _ => txid_v1_to_v4 trans
  | V5 _ _ _ _ _ _ _ => txid_v5 trans
  end.

(** [Transaction::hash], [Hash::from]. *)
Definition tx_hash (transaction : Transaction) : Run Hash := expect (txid transaction).

(** [auth_digest] of [zcash_primitives.rs], and [Transaction::auth_digest]. *)
Definition lib_auth_digest (tx : Transaction) : Run Hash :=
  nu ← expect (tx_network_upgrade tx);
  tx ← expect_ok (to_librustzcash tx nu);
  Ok (lib_auth_commitment tx).
Definition tx_auth_digest (self : Transaction) : Run (option Hash) :=
  match self with
  | V1 _ _ _ | V2 _ _ _ _ | V3 _ _ _ _ _ | V4 _ _ _ _ _ _ => Ok None
  | V5 _ _ _ _ _ _ _ => digest ← lib_auth_digest self; Ok (Some digest)
  end.

End Ids.

(** ** Signature hashes *)

(** The flags of [HashType]. *)
Definition HASH_ALL : Z := 1.
Definition HASH_NONE : Z := 2.
Definition HASH_SINGLE : Z := Z.lor HASH_ALL HASH_NONE.
Definition HASH_ANYONECANPAY : Z := 128.

(** [SighashType::try_from]: the types of the library, by their bytes. *)
Definition sighash_type (hash_type : Z) : option Z :=
  if bool_decide (hash_type ∈ [HASH_ALL; HASH_NONE; HASH_SINGLE; Z.lor HASH_ALL HASH_ANYONECANPAY;
                               Z.lor HASH_NONE HASH_ANYONECANPAY; Z.lor HASH_SINGLE HASH_ANYONECANPAY])
  then Some hash_type else None.

Inductive SighashError :=
| InputIndexOutOfBounds (input_index input_count : Z)
| NoTransparentBundle
| BundleInputCountMismatch (input_index bundle_vin_len all_prev_outputs_len : Z)
| InvalidPreviousOutputAmount.

Section Sighash.
Context `{CL : !CurveLib, LZ : !LibRustZcash, SL : !SighashLib}.

(** [PrecomputedTxData], the only field of [SigHasher]: the parsed transaction with the previous outputs as its
    transparent authorization. *)
Record PrecomputedTxData := mkPrecomputed { tx_data : LibTransaction; precomputed_outputs : list Output }.

(** [PrecomputedTxData::new], [SigHasher::new] and [Transaction::sighasher]. *)
Definition sighasher (tx : Transaction) (nu : NetworkUpgrade) (all_previous_outputs : list Output) :
    Res ChainError PrecomputedTxData :=
  tx ← to_librustzcash tx nu;
  Ok (mkPrecomputed tx all_previous_outputs).

(** [TransparentAuth::input_amounts] and [input_scriptpubkeys]. *)
Definition input_amounts (all_prev_outputs : list Output) : Run (list Z) :=
  collect ((λ prevout, if lib_zatoshis (zatoshis (value prevout)) then Ok (zatoshis (value prevout)) else Panic) <$> all_prev_outputs).
Definition input_scriptpubkeys (all_prev_outputs : list Output) : list (list Z) := lock_script <$> all_prev_outputs.

Definition sighash_inner (precomputed : PrecomputedTxData) (sighash_type : Z)
    (input_index_script_code : option (nat * list Z)) : Res SighashError Hash :=
  let outputs := precomputed_outputs precomputed in
  signable_input ←
    match input_index_script_code with
    | Some (input_index, script_code) =>
        let index := Z.of_nat input_index in
        let all_prev_outputs_len := Z.of_nat (length outputs) in
        output ← ok_or (outputs !! input_index) (InputIndexOutOfBounds index all_prev_outputs_len);
        bundle_vin_len ← ok_or (lib_transparent_vin (tx_data precomputed)) NoTransparentBundle;
        if negb (lib_zatoshis (zatoshis (value output))) then Err InvalidPreviousOutputAmount
        else if bundle_vin_len <=? index then Err (BundleInputCountMismatch index bundle_vin_len all_prev_outputs_len)
        else Ok (SignTransparent sighash_type index script_code (lock_script output) (zatoshis (value output)))
    | None => Ok SignShielded
    end;
  lift (lib_signature_hash (tx_data precomputed) (input_amounts outputs) (input_scriptpubkeys outputs) signable_input).

Definition sighash (self : PrecomputedTxData) (hash_type : Z) (input_index_script_code : option (nat * list Z)) : Run Hash :=
  sighash_type ← expect (sighash_type hash_type);
  expect_ok (sighash_inner self sighash_type input_index_script_code).

Definition sighash_v4_raw (self : PrecomputedTxData) (raw_hash_type : Z)
    (input_index_script_code : option (nat * list Z)) : Run Hash :=
  expect_ok (sighash_inner self raw_hash_type input_index_script_code).

End Sighash.

(** ** The conversions succeed *)

(** What the code relies on: the parser keeps the transparent inputs of the bytes it reads, and has a transparent
    bundle if there are any inputs or outputs; amounts are within the range of [Zatoshis]; and a signature hash
    panics only if the amounts do. *)
Class SighashLaws `{!CurveLib, !LibRustZcash, !SighashLib} : Prop := {
  transparent_vin_read : ∀ t id bytes l, tx_wire_ok t → Transaction_serialize t = Ok bytes → lib_transaction_read bytes id = Some l →
    lib_transparent_vin l = if bool_decide (inputs t = []) && bool_decide (outputs t = []) then None
                            else Some (Z.of_nat (length (inputs t)));
  zatoshis_amount : ∀ v, 0 ≤ v ≤ MAX_MONEY → lib_zatoshis v = true;
  signature_hash_total : ∀ l amounts scripts i, no_panic amounts → no_panic (lib_signature_hash l amounts scripts i);
}.

Lemma to_librustzcash_read `{CL : !CurveLib, LZ : !LibRustZcash} t nu l : to_librustzcash t nu = Ok l →
  ∃ id bytes, branch_id nu = Some id ∧ Transaction_serialize t = Ok bytes ∧ lib_transaction_read bytes id = Some l.
Proof.
  unfold to_librustzcash. destruct (match tx_network_upgrade t with Some _ => _ | None => _ end); [done|].
  destruct (branch_id nu) as [id|]; [|done]. destruct (negb _); [done|].
  intros (bytes & Hb%map_err_Ok & Hl)%bind_Ok. exists id, bytes. split_and!; [done|done|].
  unfold ok_or in Hl. destruct (lib_transaction_read bytes id); [|done]. by injection Hl as ->.
Qed.

Section Total.
Context `{CL : !CurveLib, CW : !CurveLaws, LZ : !LibRustZcash, SL : !SighashLib, SW : !SighashLaws, HF : !HashFns}.

Lemma v5_converts nu lt ex ins outs sap orc : let t := V5 nu lt ex ins outs sap orc in
  tx_wire_ok t → ∃ l, to_librustzcash t nu = Ok l.
Proof.
  intros t [[_ Hc] _]. apply bind_Ok in Hc as (l & Hl%map_err_Ok & _). by exists l.
Qed.

Lemma tx_hash_Ok t : tx_wire_ok t → ∃ h, tx_hash t = Ok h.
Proof.
  intros Ht. destruct (writes tx_codec t Ht) as (enc & He & _). unfold tx_hash, txid.
  destruct t; unfold txid_v1_to_v4; try (unfold zcash_serialize; rewrite He; by eexists).
  destruct (v5_converts _ _ _ _ _ _ _ Ht) as [l Hl]. unfold txid_v5. cbn [tx_network_upgrade mbind option_bind]. rewrite Hl. by eexists.
Qed.

Lemma tx_auth_digest_Ok t : tx_wire_ok t → ∃ d, tx_auth_digest t = Ok d.
Proof.
  intros Ht. destruct t; try by eexists. destruct (v5_converts _ _ _ _ _ _ _ Ht) as [l Hl].
  unfold tx_auth_digest, lib_auth_digest. cbn [tx_network_upgrade expect]. rewrite Ok_bind, Hl. by eexists.
Qed.

Lemma input_amounts_Ok (outs : list Output) : Forall (λ o, amount_ok (value o) = true) outs → no_panic (input_amounts outs).
Proof.
  intros H. unfold input_amounts. enough (∃ l, collect (E := Empty_set) ((λ prevout, if lib_zatoshis (zatoshis (value prevout))
    then Ok (zatoshis (value prevout)) else Panic) <$> outs) = Ok l) as [l ->] by done.
  induction H as [|o outs Ho H IH]; [by exists []|]. destruct IH as [l Hl].
  apply contains_spec in Ho. cbn in Ho. exists (zatoshis (value o) :: l). rewrite fmap_cons. cbn [collect].
  by rewrite zatoshis_amount, Ok_bind, Hl by exact Ho.
Qed.

(** The preconditions of a signature hash: the previous outputs match the inputs, and an input is one of them. *)
Lemma sighash_inner_Ok t nu outs s ty i : tx_wire_ok t → sighasher t nu outs = Ok s → Forall (λ o, amount_ok (value o) = true) outs →
  match i with Some (n, _) => length outs = length (inputs t) ∧ (n < length outs)%nat | None => True end →
  ∃ h, sighash_inner s ty i = Ok h.
Proof.
  intros Ht (l & (id & bytes & _ & Hs & Hr)%to_librustzcash_read & [= <-])%bind_Ok Ha Hi.
  assert (Hh : ∀ x, ∃ h, lift (E := SighashError) (lib_signature_hash l (input_amounts outs) (input_scriptpubkeys outs) x) = Ok h).
  { intros x. pose proof (signature_hash_total l (input_amounts outs) (input_scriptpubkeys outs) x (input_amounts_Ok _ Ha)) as Hp.
    destruct (lib_signature_hash _ _ _ x) as [h|[]|]; [by exists h|done]. }
  unfold sighash_inner. cbn [precomputed_outputs tx_data]. destruct i as [[n code]|]; [|apply Hh].
  destruct Hi as [Hlen Hn]. destruct (lookup_lt_is_Some_2 outs n Hn) as [o Ho]. rewrite Ho. cbn [ok_or]. rewrite Ok_bind.
  rewrite (transparent_vin_read t id bytes l Ht Hs Hr), bool_decide_false by (intros H; rewrite H in Hlen; cbn in Hlen; lia).
  cbn [andb ok_or]. rewrite Ok_bind. pose proof (Forall_lookup_1 _ _ _ _ Ha Ho) as Hv. apply contains_spec in Hv. cbn in Hv.
  rewrite zatoshis_amount by exact Hv. cbn [negb]. rewrite (proj2 (Z.leb_gt _ _)) by lia. apply Hh.
Qed.

End Total.

(** ** An instance of the laws

    The library that keeps what it reads: a parsed transaction is its bytes, and the number of its transparent
    inputs is that of the transaction the bytes encode. *)
#[local] Existing Instance sample_curves.
#[local] Existing Instance sample_curve_laws.
#[local] Existing Instance sample_lib.
Definition sample_vin (bytes : list Z) : option Z :=
  match Transaction_deserialize bytes with
  | Ok (t, _) => if bool_decide (inputs t = []) && bool_decide (outputs t = []) then None else Some (Z.of_nat (length (inputs t)))
  | _ => None
  end.
Definition sample_sighash : SighashLib := {|
  lib_txid l := take 32 l; lib_auth_commitment l := take 32 l; lib_transparent_vin := sample_vin;
  LibSaplingBundle := unit; LibOrchardBundle := unit; lib_sapling_bundle _ := None; lib_orchard_bundle _ := None;
  lib_zatoshis v := (0 <=? v) && (v <=? MAX_MONEY);
  lib_signature_hash l amounts _ _ := amounts ← amounts; Ok (take 32 (l ++ amounts)) |}.
#[local] Existing Instance sample_sighash.
Lemma sample_sighash_laws : SighashLaws.
Proof.
  split.
  - intros t id bytes l Ht Hs [= <-]. destruct (writes tx_codec t Ht) as (enc & He & _ & Hd).
    assert (enc = bytes) as -> by congruence. specialize (Hd []). rewrite (right_id_L [] (++)) in Hd.
    transitivity (sample_vin bytes); [reflexivity|]. unfold sample_vin. by rewrite Hd.
  - intros v Hv. cbn. by rewrite !(proj2 (Z.leb_le _ _)) by lia.
  - intros l amounts scripts i Ha. apply no_panic_bind; [done|done].
Qed.
Definition sample_hashes : HashFns := {| sha256 b := take 32 b; blake2b_256 _ b := take 32 b |}.
