(* ===== verification/Unmined.v ===== *)
(** * Unmined transactions and the ZIP-317 fee rules

    [zebra-chain/src/transaction/unmined.rs] and its [zip317.rs]: identifiers of unmined
    transactions, conventional fees, unpaid actions, and the checks and costs of
    verified transactions in the mempool.

    The fee weight ratio, an [f32], is left out. *)

From S2P Require Import Prelude Height Amount Serialization Network Transaction Merkle.
From S2P Require Import TransparentCodec ShieldedCodec TransactionCodec Sighash.

Definition MARGINAL_FEE : Z := 5000.
Definition GRACE_ACTIONS : Z := 2.
Definition P2PKH_STANDARD_INPUT_SIZE : Z := 150.
Definition P2PKH_STANDARD_OUTPUT_SIZE : Z := 34.
Definition BLOCK_UNPAID_ACTION_LIMIT : Z := 0.
Definition MIN_MEMPOOL_TX_FEE_RATE : Z := 100.
Definition MEMPOOL_TX_FEE_REQUIREMENT_CAP : Z := 1000.
Definition MEMPOOL_TRANSACTION_COST_THRESHOLD : Z := 10000.
Definition MEMPOOL_TRANSACTION_LOW_FEE_PENALTY : Z := 40000.

Inductive Zip317Error := UnpaidActions | FeeBelowMinimumRate | InvalidMinFee.

(** ** Conventional fees *)

(** [zcash_serialized_size]: writes to a writer that counts. *)
Definition serialized_size {T} `{ZcashSerialize T} (self : T) : Run Z :=
  bytes ← expect_ok (zcash_serialize self); Ok (Z.of_nat (length bytes)).

(** [num_integer::div_ceil] of non-negative numbers. *)
Definition div_ceil (a b : Z) : Z := (a + b - 1) / b.

Definition conventional_actions (transaction : Transaction) : Run Z :=
  tx_in_sizes ← collect (serialized_size <$> inputs transaction);
  tx_out_sizes ← collect (serialized_size <$> outputs transaction);
  let n_join_split := joinsplit_count transaction in
  spends ← sapling_spends_per_anchor transaction;
  let n_spends_sapling := Z.of_nat (length spends) in
  let n_outputs_sapling := Z.of_nat (length (sapling_outputs transaction)) in
  let n_actions_orchard := Z.of_nat (length (orchard_actions transaction)) in
  let tx_in_logical_actions := div_ceil (sum_Z tx_in_sizes) P2PKH_STANDARD_INPUT_SIZE in
  let tx_out_logical_actions := div_ceil (sum_Z tx_out_sizes) P2PKH_STANDARD_OUTPUT_SIZE in
  let logical_actions := Z.max tx_in_logical_actions tx_out_logical_actions + 2 * n_join_split
    + Z.max n_spends_sapling n_outputs_sapling + n_actions_orchard in
  logical_actions ← expect (try_from U32 logical_actions);
  Ok (Z.max GRACE_ACTIONS logical_actions).

Definition conventional_fee (transaction : Transaction) : Run (Amount NonNegative) :=
  marginal_fee ← expect_ok (try_from_u64 MARGINAL_FEE);
  actions ← conventional_actions transaction;
  expect_ok (mul marginal_fee actions).

(** ** Unmined transactions *)

Inductive UnminedTxId :=
| Legacy (id : Hash)
| Witnessed (id : Hash) (auth_digest : Hash).

#[export] Instance UnminedTxId_eq_dec : EqDecision UnminedTxId.
Proof. solve_decision. Defined.
#[export] Instance UnminedTxId_countable : Countable UnminedTxId.
Proof.
  refine (inj_countable' (λ i, match i with Legacy h => inl h | Witnessed h a => inr (h, a) end)
    (λ s, match s with inl h => Legacy h | inr (h, a) => Witnessed h a end) _).
  by intros [].
Defined.

Section Unmined.
Context `{CL : !CurveLib, LZ : !LibRustZcash, SL : !SighashLib, HF : !HashFns}.

(** [UnminedTxId::from]; the [WtxId] of a [V5] transaction is its id and its digest. *)
Definition unmined_id (transaction : Transaction) : Run UnminedTxId :=
  match transaction with
  | V1 _ _ _ | V2 _ _ _ _ | V3 _ _ _ _ _ | V4 _ _ _ _ _ _ => id ← tx_hash transaction; Ok (Legacy id)
  | V5 _ _ _ _ _ _ _ =>
      id ← tx_hash transaction;
      auth_digest ← lib_auth_digest transaction;
      Ok (Witnessed id auth_digest)
  end.

Definition mined_id (self : UnminedTxId) : Hash :=
  match self with Legacy id | Witnessed id _ => id end.

Record UnminedTx := mkUnmined {
  unmined_transaction : Transaction;
  unmined_tx_id : UnminedTxId;
  unmined_size : Z;
  unmined_conventional_fee : Amount NonNegative;
}.

(** [UnminedTx::from]. *)
Definition unmined_from (transaction : Transaction) : Run UnminedTx :=
  size ← serialized_size transaction;
  conventional_fee ← conventional_fee transaction;
  id ← unmined_id transaction;
  Ok (mkUnmined transaction id size conventional_fee).

Definition unpaid_actions (transaction : UnminedTx) (miner_fee : Amount NonNegative) : Run Z :=
  actions ← conventional_actions (unmined_transaction transaction);
  ratio ← expect_ok (div miner_fee MARGINAL_FEE);
  Ok (default 0 (try_from U32 (actions - zatoshis ratio))).

Definition mempool_checks (unpaid_actions : Z) (miner_fee : Amount NonNegative) (transaction_size : Z) :
    Res Zip317Error unit :=
  if BLOCK_UNPAID_ACTION_LIMIT <? unpaid_actions then Err UnpaidActions else
  max_block_size ← ok_or (try_from U64 MAX_BLOCK_BYTES) InvalidMinFee;
  _ ← assert (MIN_MEMPOOL_TX_FEE_RATE <? (2 ^ 64 - 1) / max_block_size);
  let rate := wrap U64 (MIN_MEMPOOL_TX_FEE_RATE * transaction_size) / 1000 in
  let min_fee := Z.max MIN_MEMPOOL_TX_FEE_RATE (Z.min MEMPOOL_TX_FEE_REQUIREMENT_CAP rate) in
  min_fee ← ok_or (try_from U64 min_fee) InvalidMinFee;
  min_fee ← map_err (λ _, InvalidMinFee) (try_from_u64 (C := NonNegative) min_fee);
  if zatoshis miner_fee <? zatoshis min_fee then Err FeeBelowMinimumRate else Ok tt.

Record VerifiedUnminedTx := mkVerified {
  verified_transaction : UnminedTx;
  verified_miner_fee : Amount NonNegative;
  verified_legacy_sigop_count : Z;
  verified_p2sh_sigop_count : Z;
  verified_conventional_actions : Z;
  verified_unpaid_actions : Z;
  verified_time : option Z;
  verified_height : option Height;
  verified_spent_outputs : list Output;
}.

(** [VerifiedUnminedTx::new]. *)
Definition verified_new (transaction : UnminedTx) (miner_fee : Amount NonNegative)
    (legacy_sigop_count p2sh_sigop_count : Z) (spent_outputs : list Output) : Res Zip317Error VerifiedUnminedTx :=
  conventional_actions ← lift (conventional_actions (unmined_transaction transaction));
  unpaid_actions ← lift (unpaid_actions transaction miner_fee);
  _ ← mempool_checks unpaid_actions miner_fee (unmined_size transaction);
  Ok (mkVerified transaction miner_fee legacy_sigop_count p2sh_sigop_count conventional_actions unpaid_actions
        None None spent_outputs).

Definition block_sigop_count (self : VerifiedUnminedTx) : Z :=
  Z.min (2 ^ 32 - 1) (verified_legacy_sigop_count self + verified_p2sh_sigop_count self).

Definition pays_conventional_fee (self : VerifiedUnminedTx) : bool :=
  zatoshis (unmined_conventional_fee (verified_transaction self)) <=? zatoshis (verified_miner_fee self).

Definition cost (self : VerifiedUnminedTx) : Z :=
  Z.max (unmined_size (verified_transaction self)) MEMPOOL_TRANSACTION_COST_THRESHOLD.

Definition eviction_weight (self : VerifiedUnminedTx) : Z :=
  if pays_conventional_fee self then cost self else wrap U64 (cost self + MEMPOOL_TRANSACTION_LOW_FEE_PENALTY).

End Unmined.

(** ** What the checks accept *)

Section Exact.
Context `{CL : !CurveLib, LZ : !LibRustZcash, SL : !SighashLib, HF : !HashFns}.

Lemma conventional_actions_range t a : conventional_actions t = Ok a → 2 ≤ a < 2 ^ 32.
Proof.
  intros (? & _ & (? & _ & (? & _ & (l & Hl & [= <-])%bind_Ok)%bind_Ok)%bind_Ok)%bind_Ok.
  unfold expect in Hl. destruct (try_from U32 _) as [l'|] eqn:Ht; [|done]. injection Hl as ->.
  apply try_from_Some in Ht as [-> Ht]. unfold GRACE_ACTIONS. int_lia.
Qed.

Lemma conventional_fee_value t f : conventional_fee t = Ok f → ∃ a, conventional_actions t = Ok a ∧ zatoshis f = 5000 * a.
Proof.
  intros (m & Hm & (a & Ha & Hf)%bind_Ok)%bind_Ok. vm_compute in Hm. injection Hm as <-.
  exists a. split; [done|]. pose proof (conventional_actions_range _ _ Ha) as Hr.
  rewrite mul_spec in Hf; [|done|int_lia]. destruct (contains _ _); [|done]. cbn in Hf. by injection Hf as <-.
Qed.

Lemma unpaid_actions_value u a (fee : Amount NonNegative) : conventional_actions (unmined_transaction u) = Ok a → amount_ok fee = true →
  unpaid_actions u fee = Ok (Z.max 0 (a - zatoshis fee / 5000)).
Proof.
  intros Ha Hf. pose proof (conventional_actions_range _ _ Ha) as Hr. unfold unpaid_actions. rewrite Ha, Ok_bind.
  rewrite div_spec by done. cbn [Z.eqb MARGINAL_FEE expect_ok]. rewrite Ok_bind. cbn [zatoshis]. f_equal.
  apply contains_spec in Hf. cbn in Hf. unfold MARGINAL_FEE. rewrite Z.quot_div_nonneg by lia.
  assert (0 ≤ zatoshis fee / 5000) by (apply Z.div_pos; lia).
  destruct (Z.max_spec 0 (a - zatoshis fee / 5000)) as [[H1 ->]|[H1 ->]].
  - rewrite try_from_fits by int_lia. done.
  - destruct (try_from U32 _) as [z|] eqn:Ht; [|done]. apply try_from_Some in Ht as [-> Ht]. cbn. int_lia.
Qed.

Lemma mempool_checks_paid fee size : 1000 ≤ zatoshis fee → mempool_checks 0 fee size = Ok tt.
Proof.
  intros Hf. unfold mempool_checks. change (BLOCK_UNPAID_ACTION_LIMIT <? 0) with false. cbv iota.
  set (rate := wrap U64 (MIN_MEMPOOL_TX_FEE_RATE * size) / 1000).
  change (ok_or (try_from U64 MAX_BLOCK_BYTES) InvalidMinFee) with (Ok (E := Zip317Error) MAX_BLOCK_BYTES). rewrite Ok_bind.
  change (assert _) with (Ok (E := Zip317Error) tt). rewrite Ok_bind.
  set (m := Z.max _ _). assert (Hm : 100 ≤ m ≤ 1000) by (subst m; unfold MIN_MEMPOOL_TX_FEE_RATE, MEMPOOL_TX_FEE_REQUIREMENT_CAP; lia).
  rewrite try_from_fits by int_lia. cbn [ok_or]. rewrite Ok_bind, try_from_u64_spec by lia.
  rewrite (proj2 (Z.leb_le _ _)) by (unfold MAX_MONEY, COIN; lia). cbn [map_err]. rewrite Ok_bind. cbn [zatoshis].
  by rewrite (proj2 (Z.ltb_ge _ _)) by lia.
Qed.

(** C31: the mempool accepts exactly the transactions that pay their conventional fee, which is
    at least 10000 zatoshis. The other ones are rejected for unpaid actions; the check of the
    minimum fee rate never fails after that one; and an accepted transaction has
    no low fee penalty in its eviction weight. *)
Theorem verified_new_exact t u (fee : Amount NonNegative) legacy_sigops p2sh_sigops spent_outputs
    (Hu : unmined_from t = Ok u) (Hfee : amount_ok fee = true) :
  10000 ≤ zatoshis (unmined_conventional_fee u) ∧
  (zatoshis (unmined_conventional_fee u) ≤ zatoshis fee → ∃ v,
     verified_new u fee legacy_sigops p2sh_sigops spent_outputs = Ok v ∧ verified_unpaid_actions v = 0 ∧
     pays_conventional_fee v = true ∧ eviction_weight v = cost v) ∧
  (zatoshis fee < zatoshis (unmined_conventional_fee u) →
     verified_new u fee legacy_sigops p2sh_sigops spent_outputs = Err UnpaidActions).
Proof.
  apply bind_Ok in Hu as (size & _ & (f & Hf & (id & _ & [= <-])%bind_Ok)%bind_Ok). cbn [unmined_conventional_fee].
  destruct (conventional_fee_value t f Hf) as (a & Ha & Hz). pose proof (conventional_actions_range _ _ Ha) as Hr.
  rewrite Hz. split; [lia|]. unfold verified_new. cbn [unmined_transaction unmined_size]. rewrite Ha.
  set (u := mkUnmined _ _ _ _). rewrite (unpaid_actions_value u a fee Ha Hfee). cbn [lift]. rewrite !Ok_bind.
  split; intros H.
  - assert (Hq : a ≤ zatoshis fee / 5000) by (apply Z.div_le_lower_bound; lia). rewrite Z.max_l by lia.
    rewrite mempool_checks_paid, Ok_bind by lia. eexists. split; [reflexivity|].
    assert (Hp : (zatoshis f <=? zatoshis fee) = true) by (apply Z.leb_le; lia).
    unfold eviction_weight, pays_conventional_fee. cbn. by rewrite Hp.
  - assert (Hq : zatoshis fee / 5000 < a) by (apply Z.div_lt_upper_bound; lia). rewrite Z.max_r by lia.
    unfold mempool_checks. rewrite (proj2 (Z.ltb_lt _ _)) by (unfold BLOCK_UNPAID_ACTION_LIMIT; lia). done.
Qed.

End Exact.

Definition unmined_sample : Transaction :=
  V4 [PrevOut (mkOutPoint (replicate 32 1) 0) (replicate 100 0) 0] [mkOutput (mkAmount 5) [7]] unlocked 0 None None.
#[local] Existing Instance sample_curves.
#[local] Existing Instance sample_lib.
#[local] Existing Instance sample_sighash.
#[local] Existing Instance sample_hashes.
Definition unmined_sample_tx : UnminedTx := ok_value (mkUnmined unmined_sample (Legacy []) 0 (mkAmount 0)) (unmined_from unmined_sample).

Lemma verified_new_exact_witness :
  unmined_from unmined_sample = Ok unmined_sample_tx ∧ unmined_size unmined_sample_tx = 180 ∧
  verified_new unmined_sample_tx (mkAmount 9999) 0 0 [] = Err UnpaidActions.
Proof.
  assert (H : unmined_from unmined_sample = Ok unmined_sample_tx) by (apply ok_value_eq; vm_compute; reflexivity).
  split; [exact H|]. split; [vm_compute; reflexivity|].
  apply (verified_new_exact unmined_sample unmined_sample_tx (mkAmount 9999) 0 0 [] H); vm_compute; reflexivity.
Defined.
