(* ===== verification/Reversible.v ===== *)
(** * Updates that can be undone

    [UpdateWith] of [zebra-state/src/service/non_finalized_state/chain.rs] pairs
    every update of a chain index with its inverse, and both run over the
    transactions of a block from the first to the last: an update is undone
    while later updates are still in place. [Reversible] states what makes this
    right, for an index with states [S] and updates [O]; instances are given for
    the maps and sets the chain is made of, and for pairs of indexes. *)

From S2P Require Import Prelude.

(** A loop over [l] that updates a state and may fail. *)
Fixpoint foldM {E S O} (f : S → O → Res E S) (s : S) (l : list O) : Res E S :=
  match l with
  | [] => Ok s
  | o :: l => s ← f s o; foldM f s l
  end.

Lemma foldM_app {E S O} (f : S → O → Res E S) s l k :
  foldM f s (l ++ k) = s ← foldM f s l; foldM f s k.
Proof. revert s. induction l as [|o l IH]; intros s; cbn; [done|]. destruct (f s o); cbn; auto. Qed.

Lemma foldM_fmap {E S O P} (f : S → O → Res E S) (g : P → O) s l :
  foldM f s (g <$> l) = foldM (fun s p => f s (g p)) s l.
Proof. revert s. induction l as [|p l IH]; intros s; cbn; [done|]. destruct (f s (g p)); cbn; auto. Qed.

(** A predicate that every step preserves holds at the end of the loop. *)
(** Loops of checks. *)
Lemma foldM_unit {E A} (f : A → Res E unit) l x :
  foldM (fun _ a => f a) tt l = Ok x ↔ Forall (fun a => f a = Ok tt) l.
Proof.
  induction l as [|a l IH]; cbn; [split; [constructor|by destruct x]|].
  rewrite Forall_cons, <- IH. destruct (f a) as [[]| |] eqn:?; cbn; naive_solver.
Qed.

Lemma foldM_unit_no_panic {E A} (f : A → Res E unit) l :
  Forall (fun a => no_panic (f a)) l → no_panic (foldM (fun _ a => f a) tt l).
Proof. induction 1 as [|a l Ha _ IH]; [done|]. cbn. apply no_panic_bind; [done|]. by intros []. Qed.

Lemma Forall_imap_pair {A} (P : A → Prop) (l : list A) : Forall (fun it => P it.2) (imap pair l) ↔ Forall P l.
Proof.
  rewrite <- (Forall_fmap snd P). f_equiv. rewrite fmap_imap. unfold compose. cbn.
  clear. induction l using rev_ind; [done|]. by rewrite imap_app, IHl.
Qed.

Lemma foldM_inv {E S O} (f : S → O → Res E S) (P : S → Prop) s l s' :
  (∀ s o s', P s → f s o = Ok s' → P s') → P s → foldM f s l = Ok s' → P s'.
Proof.
  intros Hf. revert s. induction l as [|o l IH]; intros s Hs; cbn; [by intros [= <-]|].
  intros (s1 & H1 & H2)%bind_Ok. eauto.
Qed.

(** [adm s l]: the updates [l] are admissible from [s], in any order. *)
Class Reversible {E S O : Type} (apply : S → O → Res E S) (undo : S → O → Run S)
    (adm : S → list O → Prop) : Prop := {
  adm_perm s l l' : l ≡ₚ l' → adm s l → adm s l';
  adm_tail s o l : adm s (o :: l) → adm s l;
  adm_step s o l s' : adm s (o :: l) → apply s o = Ok s' → adm s' l;
  undo_apply s o l s' : adm s (o :: l) → apply s o = Ok s' → undo s' o = Ok s;
  apply_comm s a b l s1 s2 :
    adm s (a :: b :: l) → apply s a = Ok s1 → apply s1 b = Ok s2 →
    ∃ s1', apply s b = Ok s1' ∧ apply s1' a = Ok s2;
}.

Section Reversible.
Context {E S O : Type} {apply : S → O → Res E S} {undo : S → O → Run S} {adm : S → list O → Prop}.
Context `{R : !Reversible apply undo adm}.

(** Admissible updates can be made in any order. *)
Lemma apply_perm s l l' s' :
  l ≡ₚ l' → adm s l → foldM apply s l = Ok s' → foldM apply s l' = Ok s'.
Proof.
  intros Hp. revert s. induction Hp as [|o l l' Hp IH|a b l|l1 l2 l3 Hp1 IH1 Hp2 IH2]; intros s Ha; cbn.
  - done.
  - intros (s1 & H1 & H2)%bind_Ok. rewrite H1, Ok_bind. eapply IH; [|done]. eapply adm_step; eassumption.
  - intros (s1 & H1 & H2)%bind_Ok. apply bind_Ok in H2 as (s2 & H2 & H3).
    edestruct apply_comm as (s1' & H1' & H2'); [exact Ha|exact H1|exact H2|].
    by rewrite H1', Ok_bind, H2', Ok_bind.
  - intros H. eapply IH2; [eapply adm_perm; eassumption|]. by apply IH1.
Qed.

Lemma adm_app_l s l k : adm s (l ++ k) → adm s l.
Proof.
  intros Ha. apply (adm_perm s _ (k ++ l) (Permutation_app_comm l k)) in Ha.
  induction k as [|o k IH]; [done|]. eapply IH, adm_tail, Ha.
Qed.

Lemma adm_fold s l k s' : adm s (l ++ k) → foldM apply s l = Ok s' → adm s' k.
Proof.
  revert s. induction l as [|o l IH]; intros s Ha; cbn; [by intros [= <-]|].
  intros (s1 & H1 & H2)%bind_Ok. eapply IH; [|done]. eapply adm_step; eassumption.
Qed.

(** Undoing the first updates of a sequence, in any order, leaves the state the
    others would have built on their own. *)
Lemma undo_prefix s l k s' l' :
  l' ≡ₚ l → adm s (l ++ k) → foldM apply s (l ++ k) = Ok s' →
  ∃ s'', foldM undo s' l' = Ok s'' ∧ foldM apply s k = Ok s''.
Proof.
  intros Hp Ha Hs. assert (Hp' : l ++ k ≡ₚ l' ++ k) by (by rewrite Hp).
  eapply apply_perm in Hs; [|exact Hp'|done]. eapply adm_perm in Ha; [|exact Hp'].
  clear Hp Hp' l. revert s' k Ha Hs. induction l' as [|o l IH]; intros s' k Ha Hs; [eauto|].
  assert (Hp : (o :: l) ++ k ≡ₚ (l ++ k) ++ [o]).
  { rewrite (Permutation_app_comm (l ++ k) [o]). done. }
  eapply apply_perm in Hs; [|exact Hp|done]. rewrite foldM_app in Hs.
  apply bind_Ok in Hs as (s1 & H1 & H2). cbn [foldM] in H2. apply bind_Ok in H2 as (s2 & H2 & [= <-]).
  assert (Hu : undo s2 o = Ok s1).
  { eapply undo_apply; [|exact H2]. eapply adm_fold; [|exact H1]. by eapply adm_perm. }
  cbn [foldM]. rewrite Hu, Ok_bind. apply IH; [|exact H1]. eapply adm_tail, Ha.
Qed.

Lemma undo_all s l s' l' :
  l' ≡ₚ l → adm s l → foldM apply s l = Ok s' → foldM undo s' l' = Ok s.
Proof.
  intros Hp Ha Hs. edestruct (undo_prefix s l [] s' l') as (s'' & Hu & [= ->]); rewrite ?app_nil_r; done.
Qed.

End Reversible.

(** ** Pairs of indexes: each update is an update of one of them *)

Definition lefts {A B} (l : list (A + B)) : list A :=
  omap (fun x => match x with inl a => Some a | inr _ => None end) l.
Definition rights {A B} (l : list (A + B)) : list B :=
  omap (fun x => match x with inr b => Some b | inl _ => None end) l.

Definition pair_apply {E S O S' O'} (f : S → O → Res E S) (g : S' → O' → Res E S')
    (s : S * S') (o : O + O') : Res E (S * S') :=
  match o with
  | inl o => s1 ← f s.1 o; Ok (s1, s.2)
  | inr o => s2 ← g s.2 o; Ok (s.1, s2)
  end.
Definition pair_adm {S O S' O'} (p : S → list O → Prop) (q : S' → list O' → Prop)
    (s : S * S') (l : list (O + O')) : Prop := p s.1 (lefts l) ∧ q s.2 (rights l).

#[export] Instance pair_reversible {E S O S' O'}
    (f : S → O → Res E S) (fu : S → O → Run S) fa (g : S' → O' → Res E S') (gu : S' → O' → Run S') ga :
  Reversible f fu fa → Reversible g gu ga →
  Reversible (pair_apply f g) (pair_apply fu gu) (pair_adm fa ga).
Proof.
  intros Rf Rg. unfold pair_adm, lefts, rights. split.
  - intros s l l' Hp [H1 H2]. split; (eapply adm_perm; [|eassumption]); by apply omap_Permutation.
  - intros s [o|o] l [H1 H2]; cbn in *; split; try assumption; eapply adm_tail; eassumption.
  - intros [s1 s2] [o|o] l s' [H1 H2]; cbn in *; intros (x & Hx & [= <-])%bind_Ok; cbn;
      split; try assumption; eapply adm_step; eassumption.
  - intros [s1 s2] [o|o] l s' [H1 H2]; cbn in *; intros (x & Hx & [= <-])%bind_Ok; cbn;
      erewrite undo_apply by eassumption; done.
  - intros [s1 s2] [a|a] [b|b] l t u [H1 H2]; cbn in *; intros (x & Hx & [= <-])%bind_Ok; cbn;
      intros (y & Hy & [= <-])%bind_Ok.
    + edestruct (apply_comm s1 a b) as (z & -> & Hz); [exact H1|done|done|].
      eexists. split; [done|]. cbn. by rewrite Hz.
    + exists (s1, y). rewrite Hy. split; [done|]. cbn. by rewrite Hx.
    + exists (y, s2). rewrite Hy. split; [done|]. cbn. by rewrite Hx.
    + edestruct (apply_comm s2 a b) as (z & -> & Hz); [exact H2|done|done|].
      eexists. split; [done|]. cbn. by rewrite Hz.
Qed.

(** ** Maps: insertions of absent keys *)

(** A failure of any type: an error or a panic. *)
Definition fail {E A} (r : Res E Empty_set) : Res E A :=
  match r with Ok x => match x with end | Err e => Err e | Panic => Panic end.

(** [HashMap::insert] that fails with [failure] when the key is present, and
    [HashMap::remove] that panics when the key is absent. *)
Definition insert_new {E K A} `{Countable K} (failure : K → Res E Empty_set) (m : gmap K A) (kv : K * A) :
    Res E (gmap K A) :=
  match m !! kv.1 with
  | Some _ => fail (failure kv.1)
  | None => Ok (<[kv.1 := kv.2]> m)
  end.
Definition remove_present {K A} `{Countable K} (m : gmap K A) (k : K) : Run (gmap K A) :=
  match m !! k with Some _ => Ok (delete k m) | None => Panic end.

Lemma fail_Ok {E A} (r : Res E Empty_set) (a : A) : fail r ≠ Ok a.
Proof. by destruct r as [[]| |]. Qed.

Section Maps.
Context {E K A : Type} `{Countable K}.
Implicit Types (failure : K → Res E Empty_set) (m : gmap K A).

Lemma insert_new_Ok failure m kv m' :
  insert_new failure m kv = Ok m' ↔ m !! kv.1 = None ∧ m' = <[kv.1 := kv.2]> m.
Proof.
  unfold insert_new. destruct (m !! kv.1); [|naive_solver].
  split; [intros Hf; by apply fail_Ok in Hf|naive_solver].
Qed.

#[export] Instance insert_new_reversible failure :
  Reversible (insert_new (A := A) failure) (fun m kv => remove_present m kv.1) (fun _ _ => True).
Proof.
  split; try done.
  - intros m [k v] _ m' _ [Hk ->]%insert_new_Ok. unfold remove_present. cbn in *.
    rewrite lookup_insert_eq. by rewrite delete_insert_id.
  - intros m [k v] [k' v'] l m1 m2 _ [Hk ->]%insert_new_Ok [Hk' ->]%insert_new_Ok. cbn in *.
    apply lookup_insert_None in Hk' as [Hk' Hne].
    exists (<[k' := v']> m). rewrite !insert_new_Ok. cbn. rewrite lookup_insert_ne by done.
    split_and!; [done..|]. by apply insert_insert_ne.
Qed.

(** The entries of a map after insertions: the old ones and the new ones. *)
Lemma foldM_insert_new failure m l m' :
  foldM (insert_new failure) m l = Ok m' →
  NoDup l.*1 ∧ (∀ k, k ∈ l.*1 → m !! k = None) ∧ m' = list_to_map l ∪ m.
Proof.
  revert m. induction l as [|[k v] l IH]; intros m; cbn.
  - intros [= <-]. split_and!; [constructor|set_solver|by rewrite (left_id_L _ _)].
  - intros (m1 & [Hk ->]%insert_new_Ok & Hm)%bind_Ok. cbn in *.
    apply IH in Hm as (Hn & Hl & ->).
    assert (Hkl : k ∉ l.*1) by (intros Hin%Hl; by rewrite lookup_insert_eq in Hin).
    split_and!.
    + by constructor.
    + intros x [->|Hx]%elem_of_cons; [done|]. specialize (Hl x Hx).
      by apply lookup_insert_None in Hl as [? _].
    + rewrite <- insert_union_l, insert_union_r; [done|]. by apply not_elem_of_list_to_map.
Qed.

End Maps.

(** ** The same index, represented in another way *)

Lemma reversible_iso {E S O S' O'} (to : S → S') (from : S' → S) (inject : O → O')
    (apply : S → O → Res E S) (undo : S → O → Run S)
    (apply' : S' → O' → Res E S') (undo' : S' → O' → Run S') adm' :
  (∀ s, from (to s) = s) → (∀ s, to (from s) = s) →
  (∀ s o, apply s o = from <$> apply' (to s) (inject o)) →
  (∀ s o, undo s o = from <$> undo' (to s) (inject o)) →
  Reversible apply' undo' adm' →
  Reversible apply undo (fun s l => adm' (to s) (inject <$> l)).
Proof.
  intros Hft Htf Ha Hu R. split.
  - intros s l l' Hp. apply adm_perm. by apply Permutation_map.
  - intros s o l. rewrite fmap_cons. apply adm_tail.
  - intros s o l s'. rewrite fmap_cons, Ha. intros H1 (t & Ht & ->)%fmap_Ok. rewrite Htf.
    eapply adm_step; eassumption.
  - intros s o l s'. rewrite fmap_cons, Ha. intros H1 (t & Ht & ->)%fmap_Ok. rewrite Hu, Htf.
    erewrite undo_apply by eassumption. cbn. by rewrite Hft.
  - intros s a b l s1 s2. rewrite !fmap_cons, !Ha. intros H1 (t & Ht & ->)%fmap_Ok.
    rewrite Htf. intros (u & Hu' & ->)%fmap_Ok.
    edestruct (apply_comm (Reversible := R)) as (x & Hx & Hy); [exact H1|exact Ht|exact Hu'|].
    exists (from x). rewrite !Ha, Hx, Htf, Hy. done.
Qed.
