(* ===== verification/Script.v ===== *)
(** * Script verification and signature operation counts

    [zebra-script/src/lib.rs]: [CachedFfiTransaction], which verifies the scripts of a transaction with the
    [zcash_script] interpreter, and the counts of signature operations; [coinbase_script] of
    [zebra-chain/src/transparent.rs]; and the script verifier service of [zebra-consensus/src/script.rs].

    The interpreter and the parser of scripts are class parameters. The interpreter calls back to compute signature
    hashes: the callback is a function that may panic, and the bytes that it draws at random when there is no
    signature hash are an argument, a function of the call. *)

From stdpp Require Import strings.
From S2P Require Import Prelude Height Amount Serialization Codec Network Transaction.
From S2P Require Import TransparentCodec ShieldedCodec TransactionCodec Sighash Reversible.

(** [zcash_script::signature]: the type of a signature, in its last byte. *)
Inductive SignedOutputs := SignedAll | SignedSingle | SignedNone.
#[export] Instance SignedOutputs_eq_dec : EqDecision SignedOutputs.
Proof. solve_decision. Defined.
Record LibHashType := mkHashType { raw_bits : Z; signed_outputs : SignedOutputs; anyone_can_pay : bool }.

(** [zcash_script::interpreter::Flags]. *)
Inductive ScriptFlag := P2SH | CHECKLOCKTIMEVERIFY.

Class ScriptLib := {
  ScriptLibError : Type;
  (** [verify_callback] of the interpreter made by [get_interpreter] *)
  verify_callback : (list Z → LibHashType → Run (option Hash)) → (* lock_time *) Z → (* is_final *) bool →
    (* signature_script *) list Z → (* script_pub_key *) list Z → list ScriptFlag → Res ScriptLibError bool;
  (** [legacy_sigop_count_script] *)
  legacy_sigop_count_script : list Z → Res ScriptLibError Z;
  (** [script::Code::parse]: the data of each opcode that pushes a value, and nothing for other opcodes and errors *)
  parse_pushes : list Z → list (option (list Z));
  is_pay_to_script_hash : list Z → bool;
  sig_op_count : (* accurate *) bool → list Z → Z;
}.

Section Script.
Context `{CL : !CurveLib, LZ : !LibRustZcash, SL : !SighashLib, ZS : !ScriptLib}.

Inductive ScriptError :=
| ScriptInvalid
| TxIndex
| TxCoinbase
| Unknown (e : ScriptLibError)
| TxInvalid (e : ChainError).

Record CachedFfiTransaction := mkCached {
  cached_transaction : Transaction;
  all_previous_outputs : list Output;
  cached_sighasher : PrecomputedTxData;
}.

(** [CachedFfiTransaction::new]. *)
Definition cached_new (transaction : Transaction) (all_previous_outputs : list Output) (nu : NetworkUpgrade) :
    Res ScriptError CachedFfiTransaction :=
  sighasher ← map_err TxInvalid (sighasher transaction nu all_previous_outputs);
  Ok (mkCached transaction all_previous_outputs sighasher).

(** ** Signature hashes for the interpreter *)

Definition valid_v5_types : list Z := [0x01; 0x02; 0x03; 0x81; 0x82; 0x83].

(** [computed]: the signature hash, if the type of the signature has one. *)
Definition compute_sighash (self : CachedFfiTransaction) (input_index : nat) (script_code : list Z)
    (hash_type : LibHashType) : Run (option Hash) :=
  let transaction := cached_transaction self in
  if (5 <=? version transaction) && negb (bool_decide (raw_bits hash_type ∈ valid_v5_types)) then Ok None
  else if (5 <=? version transaction) && bool_decide (signed_outputs hash_type = SignedSingle)
          && (length (outputs transaction) <=? input_index)%nat then Ok None
  else if version transaction <? 5 then
    hash ← sighash_v4_raw (cached_sighasher self) (wrap U8 (raw_bits hash_type)) (Some (input_index, script_code));
    Ok (Some hash)
  else
    let our_hash_type :=
      match signed_outputs hash_type with SignedAll => HASH_ALL | SignedSingle => HASH_SINGLE | SignedNone => HASH_NONE end in
    let our_hash_type := if anyone_can_pay hash_type then Z.lor our_hash_type HASH_ANYONECANPAY else our_hash_type in
    hash ← sighash (cached_sighasher self) our_hash_type (Some (input_index, script_code));
    Ok (Some hash).

(** The callback, where [random] is what the random number generator fills the bytes with. *)
Definition calculate_sighash (random : list Z → LibHashType → Hash) (self : CachedFfiTransaction) (input_index : nat)
    (script_code : list Z) (hash_type : LibHashType) : Run (option Hash) :=
  computed ← compute_sighash self input_index script_code hash_type;
  Ok (Some (default (random script_code hash_type) computed)).

Definition is_valid (random : list Z → LibHashType → Hash) (self : CachedFfiTransaction) (input_index : nat) :
    Res ScriptError unit :=
  let inputs := inputs (cached_transaction self) in
  previous_output ←
    ok_or (output ← all_previous_outputs self !! input_index;
           if (length (all_previous_outputs self) =? length inputs)%nat then Some output else None) TxIndex;
  let script_pub_key := lock_script previous_output in
  lock_time ← lift (raw_lock_time (cached_transaction self));
  input ← expect (inputs !! input_index);
  let is_final := input_sequence input =? 2 ^ 32 - 1 in
  signature_script ← match input with PrevOut _ unlock_script _ => Ok unlock_script | Coinbase _ _ _ => Err TxCoinbase end;
  res ← map_err Unknown (verify_callback (calculate_sighash random self input_index) lock_time is_final
          signature_script script_pub_key [P2SH; CHECKLOCKTIMEVERIFY]);
  if (res : bool) then Ok tt else Err ScriptInvalid.

(** ** The script verifier service *)

Inductive ScriptServiceError :=
| MissingInput (input_index : nat)
| ScriptFailed (e : ScriptError)
| UnexpectedCoinbaseInput.

(** [Verifier::call] of [zebra-consensus/src/script.rs]. *)
Definition script_call (random : list Z → LibHashType → Hash) (cached_ffi_transaction : CachedFfiTransaction) (input_index : nat) :
    Res ScriptServiceError unit :=
  input ← ok_or (inputs (cached_transaction cached_ffi_transaction) !! input_index) (MissingInput input_index);
  match input with
  | PrevOut _ _ _ => map_err ScriptFailed (is_valid random cached_ffi_transaction input_index)
  | Coinbase _ _ _ => Err UnexpectedCoinbaseInput
  end.

(** ** Signature operations *)

Definition coinbase_script (self : Input) : Run (option (list Z)) :=
  match self with
  | PrevOut _ _ _ => Ok None
  | Coinbase height data _ =>
      match write_coinbase_height height data with
      | Ok height => Ok (Some (height ++ data))
      | Err _ => Ok None
      | Panic => Panic
      end
  end.

(** [Sigops::scripts]: the scripts that the iterator makes on demand. *)
Definition input_script (input : Input) : Run (list Z) :=
  match input with
  | PrevOut _ unlock_script _ => Ok unlock_script
  | Coinbase _ _ _ => script ← coinbase_script input; expect script
  end.
Definition scripts (self : Transaction) : list (Run (list Z)) :=
  (input_script <$> inputs self) ++ ((λ o, Ok (lock_script o)) <$> outputs self).

Definition sigops (self : Transaction) : Res ScriptLibError Z :=
  foldM (λ acc s, s ← lift s; n ← legacy_sigop_count_script s; Ok (wrap U32 (acc + n))) 0 (scripts self).

(** The last value that is pushed, if all the opcodes push values. *)
Fixpoint last_push_data (opcodes : list (option (list Z))) (last : option (list Z)) : option (list Z) :=
  match opcodes with
  | [] => last
  | Some value :: opcodes => last_push_data opcodes (Some value)
  | None :: _ => None
  end.
Definition extract_p2sh_redeem_script (unlock_script : list Z) : option (list Z) :=
  last_push_data (parse_pushes unlock_script) None.

Definition p2sh_input_sigop_count (input : Input) (spent_output : Output) : Z :=
  match input with
  | PrevOut _ unlock_script _ =>
      if negb (is_pay_to_script_hash (lock_script spent_output)) then 0
      else match extract_p2sh_redeem_script unlock_script with
           | Some redeemed_bytes => sig_op_count true redeemed_bytes
           | None => 0
           end
  | Coinbase _ _ _ => 0
  end.

Definition p2sh_sigop_count (tx : Transaction) (spent_outputs : list Output) : Z :=
  if is_coinbase tx then 0
  else foldl (λ sum n, wrap U32 (sum + n)) 0 (zip_with p2sh_input_sigop_count (inputs tx) spent_outputs).

Definition p2sh_sigops (self : CachedFfiTransaction) : Z :=
  p2sh_sigop_count (cached_transaction self) (all_previous_outputs self).

End Script.

(** ** Correctness of the callback *)

(** What the code relies on: the interpreter panics only if the callback does. *)
Class ScriptLaws `{!ScriptLib} : Prop := {
  verify_callback_total : ∀ callback lock_time is_final signature_script script_pub_key flags,
    (∀ code ty, no_panic (callback code ty)) →
    no_panic (verify_callback callback lock_time is_final signature_script script_pub_key flags);
}.

(** The fields of a hash type that are those of its byte, as far as version 5 transactions use them. *)
Definition hash_type_ok (h : LibHashType) : Prop :=
  raw_bits h ∈ valid_v5_types →
  signed_outputs h = (if Z.land (raw_bits h) 0x1f =? 1 then SignedAll
                      else if Z.land (raw_bits h) 0x1f =? 2 then SignedNone else SignedSingle) ∧
  anyone_can_pay h = negb (Z.land (raw_bits h) 0x80 =? 0).

(** The types for which a version 5 transaction has no signature hash. *)
Definition no_sighash (t : Transaction) (i : nat) (h : LibHashType) : Prop :=
  5 ≤ version t ∧ (raw_bits h ∉ valid_v5_types ∨ signed_outputs h = SignedSingle ∧ (length (outputs t) ≤ i)%nat).
#[export] Instance no_sighash_decision t i h : Decision (no_sighash t i h).
Proof. unfold no_sighash. apply _. Defined.

Section Correct.
Context `{CL : !CurveLib, LZ : !LibRustZcash, SL : !SighashLib, ZS : !ScriptLib, SW : !SighashLaws, ZW : !ScriptLaws}.

Lemma cached_new_Ok t outs nu c : cached_new t outs nu = Ok c →
  ∃ l, to_librustzcash t nu = Ok l ∧ c = mkCached t outs (mkPrecomputed l outs).
Proof.
  intros (s & (l & Hl & [= <-])%map_err_Ok%bind_Ok & [= <-])%bind_Ok. by exists l.
Qed.

(** The signature hash of an input, with a type. *)
Definition input_sighash (l : LibTransaction) (outs : list Output) (ty : Z) (i : nat) (code : list Z) (o : Output) : Run Hash :=
  lib_signature_hash l (input_amounts outs) (input_scriptpubkeys outs)
    (SignTransparent ty (Z.of_nat i) code (lock_script o) (zatoshis (value o))).

Lemma sighash_inner_input t nu l outs ty i code o : tx_wire_ok t → to_librustzcash t nu = Ok l →
  Forall (λ o, amount_ok (value o) = true) outs → length outs = length (inputs t) → outs !! i = Some o →
  sighash_inner (mkPrecomputed l outs) ty (Some (i, code)) = lift (input_sighash l outs ty i code o).
Proof.
  intros Ht (id & bytes & _ & Hs & Hr)%to_librustzcash_read Ha Hlen Ho. pose proof (lookup_lt_Some _ _ _ Ho) as Hi.
  unfold sighash_inner. cbn [precomputed_outputs tx_data]. rewrite Ho. cbn [ok_or]. rewrite Ok_bind.
  rewrite (transparent_vin_read t id bytes l Ht Hs Hr), bool_decide_false by (intros H; rewrite H in Hlen; cbn in Hlen; lia).
  cbn [andb ok_or]. rewrite Ok_bind. pose proof (Forall_lookup_1 _ _ _ _ Ha Ho) as Hv. apply contains_spec in Hv. cbn in Hv.
  rewrite zatoshis_amount by exact Hv. cbn [negb]. by rewrite (proj2 (Z.leb_gt _ _)) by lia.
Qed.

Lemma expect_ok_lift {E A} (r : Run A) : expect_ok (F := Empty_set) (lift (E := E) r) = r.
Proof. by destruct r as [|[]|]. Qed.

Lemma our_hash_type h : raw_bits h ∈ valid_v5_types → hash_type_ok h →
  sighash_type (let ty := match signed_outputs h with SignedAll => HASH_ALL | SignedSingle => HASH_SINGLE | SignedNone => HASH_NONE end in
    if anyone_can_pay h then Z.lor ty HASH_ANYONECANPAY else ty) = Some (wrap U8 (raw_bits h)).
Proof.
  intros Hv Hok. destruct (Hok Hv) as [-> ->]. destruct h as [raw so acp]. cbn in Hv |- *. unfold valid_v5_types in Hv.
  rewrite !elem_of_cons, elem_of_nil in Hv. destruct_or! Hv; try done; subst raw; reflexivity.
Qed.

Lemma calculate_sighash_spec random t outs nu c i o code h : tx_wire_ok t → cached_new t outs nu = Ok c →
  Forall (λ o, amount_ok (value o) = true) outs → length outs = length (inputs t) → outs !! i = Some o → hash_type_ok h →
  ∃ l, to_librustzcash t nu = Ok l ∧
    calculate_sighash random c i code h =
      if decide (no_sighash t i h) then Ok (Some (random code h))
      else (hash ← input_sighash l outs (wrap U8 (raw_bits h)) i code o; Ok (Some hash)).
Proof.
  intros Ht (l & Hl & ->)%cached_new_Ok Ha Hlen Ho Hok. exists l. split; [done|].
  unfold calculate_sighash, compute_sighash. cbn [cached_transaction cached_sighasher]. unfold sighash_v4_raw, sighash.
  destruct (decide (version t < 5)) as [Hv|Hv].
  - rewrite (proj2 (Z.leb_gt 5 (version t))), (proj2 (Z.ltb_lt (version t) 5)) by lia. cbn [andb].
    rewrite decide_False by (intros [? _]; lia).
    rewrite (sighash_inner_input t nu l outs _ i code o), expect_ok_lift by done. by destruct (input_sighash _ _ _ _ _ _).
  - rewrite (proj2 (Z.leb_le 5 (version t))), (proj2 (Z.ltb_ge (version t) 5)) by lia. cbn [andb]. unfold no_sighash.
    destruct (decide (raw_bits h ∈ valid_v5_types)) as [Hr|Hr].
    2: { rewrite bool_decide_false by done. rewrite decide_True by (split; [lia|by left]). done. }
    rewrite bool_decide_true by done. cbn [negb]. destruct (decide (signed_outputs h = SignedSingle ∧ (length (outputs t) ≤ i)%nat)) as [Hs|Hs].
    + destruct Hs as [Hs Hi]. rewrite bool_decide_true, (proj2 (Nat.leb_le _ _)) by done. cbn [andb].
      rewrite decide_True by (split; [lia|by right]). done.
    + replace (bool_decide (signed_outputs h = SignedSingle) && (length (outputs t) <=? i)%nat) with false.
      2: { symmetry. apply andb_false_iff. destruct (decide (signed_outputs h = SignedSingle)) as [He|He].
           - right. apply Nat.leb_gt. destruct (decide (length (outputs t) ≤ i)%nat); [tauto|lia].
           - left. by rewrite bool_decide_false. }
      rewrite decide_False by (intros [_ [?|?]]; tauto). pose proof (our_hash_type h Hr Hok) as Hty.
      cbv zeta in Hty |- *. rewrite Hty. cbn [expect]. rewrite Ok_bind.
      rewrite (sighash_inner_input t nu l outs _ i code o), expect_ok_lift by done. by destruct (input_sighash _ _ _ _ _ _).
Qed.

Lemma raw_lock_time_Ok t : tx_wire_ok t → ∃ n, raw_lock_time t = Ok n.
Proof.
  intros [Hok _]. assert (lock_time_ok (lock_time_field t)) as Hl.
  { destruct t; cbn in Hok |- *; [by destruct_and! Hok..|]. destruct Hok as [Hok _]. by destruct_and! Hok. }
  unfold raw_lock_time. destruct (lock_time_field t) as [n|n]; [by eexists|]. cbn in Hl. unfold MIN_TIMESTAMP in Hl. cbn [lock_time_serialize].
  rewrite try_from_fits by int_lia. by eexists.
Qed.

Lemma calculate_sighash_no_panic random t outs nu c i code h : tx_wire_ok t → cached_new t outs nu = Ok c →
  Forall (λ o, amount_ok (value o) = true) outs → length outs = length (inputs t) → (i < length outs)%nat →
  no_panic (calculate_sighash random c i code h).
Proof.
  intros Ht (l & Hl & ->)%cached_new_Ok Ha Hlen Hi. destruct (lookup_lt_is_Some_2 outs i Hi) as [o Ho].
  assert (Hs : ∀ ty, no_panic (expect_ok (F := Empty_set) (sighash_inner (mkPrecomputed l outs) ty (Some (i, code))))).
  { intros ty. rewrite (sighash_inner_input t nu l outs ty i code o), expect_ok_lift by done.
    by apply signature_hash_total, input_amounts_Ok. }
  unfold calculate_sighash, compute_sighash. cbn [cached_transaction cached_sighasher]. unfold sighash_v4_raw, sighash.
  apply no_panic_bind; [|done]. destruct (_ && negb _); [done|]. destruct (_ && _ && _); [done|].
  destruct (version t <? 5); (apply no_panic_bind; [|done]); [apply Hs|].
  apply no_panic_bind; [|intros ty _; apply Hs]. by destruct (signed_outputs h), (anyone_can_pay h).
Qed.

Lemma is_valid_no_panic random t outs nu c i : tx_wire_ok t → cached_new t outs nu = Ok c →
  Forall (λ o, amount_ok (value o) = true) outs → no_panic (is_valid random c i).
Proof.
  intros Ht Hc Ha. pose proof Hc as (l & Hl & ->)%cached_new_Ok. unfold is_valid. cbn [cached_transaction all_previous_outputs].
  apply no_panic_bind; [unfold ok_or; by case_match|]. intros o Ho. unfold ok_or in Ho.
  destruct (outs !! i) as [o'|] eqn:Hi; [|done]. cbn in Ho. destruct (Nat.eqb_spec (length outs) (length (inputs t))) as [Hlen|]; [|done].
  pose proof (lookup_lt_Some _ _ _ Hi) as Hlt. destruct (raw_lock_time_Ok t Ht) as [n ->]. cbn [lift]. rewrite Ok_bind.
  destruct (lookup_lt_is_Some_2 (inputs t) i) as [inp ->]; [lia|]. cbn [expect]. rewrite Ok_bind.
  apply no_panic_bind; [by destruct inp|]. intros sig _. apply no_panic_bind; [|by intros []].
  apply no_panic_map_err, verify_callback_total. intros code ty. by apply (calculate_sighash_no_panic random t outs nu).
Qed.

(** C36: the interpreter gets the signature hash of the input it verifies. For a transaction that
    was read from its encoding, with the output that each input spends, the callback for an input computes
    the library's hash for the index, the value and the lock script of the output that this input spends, and for
    the byte of the hash type of the signature, also if the byte is not canonical before version 5. A version 5 transaction has
    no hash for other bytes than the six canonical ones, or for a single output that is missing: then the
    callback's result is random. *)
Theorem sighash_callback random t outs nu c i o code h :
  tx_wire_ok t → cached_new t outs nu = Ok c →
  Forall (λ o, amount_ok (value o) = true) outs → length outs = length (inputs t) → outs !! i = Some o → hash_type_ok h →
  ∃ l, to_librustzcash t nu = Ok l ∧
    calculate_sighash random c i code h =
      if decide (no_sighash t i h) then Ok (Some (random code h))
      else (hash ← input_sighash l outs (wrap U8 (raw_bits h)) i code o; Ok (Some hash)).
Proof. apply calculate_sighash_spec. Qed.

End Correct.

(** ** The counts of signature operations do not overflow *)

(** What the code relies on: an opcode has at most 20 signature operations, and the values that a
    script pushes are in the script. *)
Class SigopLaws `{!ScriptLib} : Prop := {
  legacy_sigop_bound : ∀ s n, legacy_sigop_count_script s = Ok n → 0 ≤ n ≤ 20 * Z.of_nat (length s);
  sig_op_bound : ∀ accurate s, 0 ≤ sig_op_count accurate s ≤ 20 * Z.of_nat (length s);
  pushed_length : ∀ s v, Some v ∈ parse_pushes s → (length v ≤ length s)%nat;
}.

Section Sigops.
Context `{CL : !CurveLib, CW : !CurveLaws, LZ : !LibRustZcash, ZS : !ScriptLib, SG : !SigopLaws}.

(** The bytes of the script of an input and of an output. *)
Definition input_script_bytes (i : Input) : Z := match input_script i with Ok s => Z.of_nat (length s) | _ => 0 end.
Definition script_bytes (t : Transaction) : Z :=
  sum_Z (input_script_bytes <$> inputs t) + sum_Z ((λ o, Z.of_nat (length (lock_script o))) <$> outputs t).

Lemma input_script_length i enc : Input_serialize i = Ok enc → input_script_bytes i ≤ Z.of_nat (length enc).
Proof.
  destruct i as [o s q|h d q]; unfold input_script_bytes; cbn [input_script].
  - intros (oe & _ & (se & Hse%serialize_bytes_length & [= <-])%bind_Ok)%bind_Ok. rewrite !length_app. lia.
  - intros (he & Hh & (se & Hse%serialize_bytes_length & Heq)%bind_Ok)%bind_Ok. cbn [coinbase_script]. rewrite Hh. cbn.
    apply (f_equal (ok_value [])) in Heq. cbn [ok_value] in Heq. rewrite length_app in Hse. rewrite <- Heq, !length_app. lia.
Qed.

Lemma items_bytes {A} (s : Writer A) (f : A → Z) l enc : (∀ a e, s a = Ok e → f a ≤ Z.of_nat (length e)) →
  @Vec_serialize A s l = Ok enc → sum_Z (f <$> l) ≤ Z.of_nat (length enc).
Proof.
  intros Hf (len & _ & (c & _ & (bs & Hbs & [= <-])%bind_Ok)%bind_Ok)%bind_Ok. rewrite length_app.
  enough (sum_Z (f <$> l) ≤ Z.of_nat (length bs)) by lia. clear c. revert bs Hbs. induction l as [|a l IH]; intros bs Hbs; [cbn in *; lia|].
  cbn in Hbs. apply bind_Ok in Hbs as (e & He & (es & Hes & [= <-])%bind_Ok). rewrite length_app. cbn.
  specialize (Hf a e He). specialize (IH es Hes). lia.
Qed.

Lemma script_bytes_within t enc : tx_body_serialize t = Ok enc → script_bytes t ≤ Z.of_nat (length enc).
Proof.
  assert (Hp : ∀ ins outs ei eo, zcash_serialize ins = Ok ei → zcash_serialize outs = Ok eo →
    sum_Z (input_script_bytes <$> ins) + sum_Z ((λ o, Z.of_nat (length (lock_script o))) <$> outs) ≤ Z.of_nat (length ei) + Z.of_nat (length eo)).
  { intros ins outs ei eo Hi Ho. pose proof (items_bytes _ _ _ _ input_script_length Hi).
    enough (sum_Z ((λ o, Z.of_nat (length (lock_script o))) <$> outs) ≤ Z.of_nat (length eo)) by lia.
    refine (items_bytes _ _ _ _ _ Ho). intros o e (v & _ & (se & Hse%serialize_bytes_length & [= <-])%bind_Ok)%bind_Ok.
    rewrite length_app. lia. }
  unfold script_bytes. destruct t as [ins outs lt|ins outs lt js|ins outs lt ex js|ins outs lt ex js sap|nu lt ex ins outs sap orc]; cbn [tx_body_serialize inputs outputs];
    intros H; repeat (apply bind_Ok in H as (? & ? & H)); apply (f_equal (ok_value [])) in H; cbn [ok_value] in H; rewrite <- H, !length_app;
    match goal with Hi : zcash_serialize ins = Ok ?ei, Ho : zcash_serialize outs = Ok ?eo |- _ => specialize (Hp ins outs ei eo Hi Ho) end; lia.
Qed.

Lemma script_bytes_limit t : tx_wire_ok t → 0 ≤ script_bytes t ≤ MAX_BLOCK_BYTES.
Proof.
  intros Ht. destruct (writes tx_codec t Ht) as (enc & He & _). split.
  - apply Z.add_nonneg_nonneg; apply sum_Z_nonneg, Forall_fmap, Forall_true; intros x; cbn; [|lia].
    unfold input_script_bytes. case_match; lia.
  - destruct Ht as [_ Hw]. specialize (Hw enc He). apply bind_Ok in He as (body & Hb%script_bytes_within & Heq).
    apply (f_equal (ok_value [])) in Heq. cbn [ok_value] in Heq. rewrite <- Heq, length_app in Hw. lia.
Qed.

(** The count of a script, where the interpreter counts it. *)
Definition legacy_count (s : Run (list Z)) : Z :=
  match s with Ok s => match legacy_sigop_count_script s with Ok n => n | _ => 0 end | _ => 0 end.
Definition run_bytes (s : Run (list Z)) : Z := match s with Ok s => Z.of_nat (length s) | _ => 0 end.

Lemma legacy_fold l acc n : 0 ≤ acc → acc + 20 * sum_Z (run_bytes <$> l) < 2 ^ 32 →
  foldM (λ acc s, s ← lift s; n ← legacy_sigop_count_script s; Ok (wrap U32 (acc + n))) acc l = Ok n →
  n = acc + sum_Z (legacy_count <$> l) ∧ 0 ≤ sum_Z (legacy_count <$> l) ≤ 20 * sum_Z (run_bytes <$> l).
Proof.
  revert acc. induction l as [|s l IH]; intros acc Ha Hb H; cbn [foldM] in H; [injection H as <-; cbn; lia|].
  apply bind_Ok in H as (acc' & (s' & Hs & (k & Hk & [= <-])%bind_Ok)%bind_Ok & H). destruct s as [x|[]|]; [|done]. injection Hs as ->.
  cbn [fmap list_fmap sum_Z run_bytes legacy_count] in *. rewrite Hk. pose proof (legacy_sigop_bound _ _ Hk) as Hl.
  assert (0 ≤ sum_Z (run_bytes <$> l)).
  { apply sum_Z_nonneg, Forall_fmap, Forall_true. intros r. cbn. unfold run_bytes. case_match; lia. }
  assert (Hw : wrap U32 (acc + k) = acc + k) by (apply wrap_fits; int_lia). rewrite Hw in H. apply IH in H; lia.
Qed.

Lemma sigops_spec t n : tx_wire_ok t → sigops t = Ok n →
  n = sum_Z (legacy_count <$> scripts t) ∧ 0 ≤ n ≤ 20 * script_bytes t.
Proof.
  intros Ht Hn. pose proof (script_bytes_limit t Ht) as Hl.
  assert (Hr : sum_Z (run_bytes <$> scripts t) = script_bytes t).
  { unfold scripts, script_bytes. by rewrite fmap_app, sum_Z_app, <- !list_fmap_compose. }
  unfold MAX_BLOCK_BYTES in Hl. apply legacy_fold in Hn as [-> Hb]; [|done|rewrite Hr; lia]. rewrite Hr in Hb. by rewrite Z.add_0_l.
Qed.

Lemma last_push_data_elem l last v : last_push_data l last = Some v → Some v ∈ l ∨ last = Some v.
Proof.
  revert last. induction l as [|[x|] l IH]; intros last H; cbn in H; [by right| |done].
  apply IH in H as [H|[= ->]]; left; [by apply elem_of_cons; right|by apply elem_of_cons; left].
Qed.

Lemma p2sh_input_bound i o : 0 ≤ p2sh_input_sigop_count i o ≤ 20 * input_script_bytes i.
Proof.
  assert (0 ≤ input_script_bytes i) by (unfold input_script_bytes; case_match; lia).
  destruct i as [p s q|h d q]; cbn [p2sh_input_sigop_count]; [|lia]. destruct (negb _); [lia|].
  destruct (extract_p2sh_redeem_script s) as [r|] eqn:Hr; [|lia]. unfold extract_p2sh_redeem_script in Hr.
  apply last_push_data_elem in Hr as [Hr%pushed_length|]; [|done]. pose proof (sig_op_bound true r). unfold input_script_bytes. cbn. lia.
Qed.

Lemma wrap_sum l acc : Forall (λ n, 0 ≤ n) l → 0 ≤ acc → acc + sum_Z l < 2 ^ 32 →
  foldl (λ sum n, wrap U32 (sum + n)) acc l = acc + sum_Z l.
Proof.
  revert acc. induction l as [|n l IH]; intros acc Hl Ha Hb; cbn in *; [lia|]. apply Forall_cons in Hl as [Hn Hl].
  pose proof (sum_Z_nonneg l Hl). rewrite wrap_fits by int_lia. rewrite IH by (done || lia). lia.
Qed.

Lemma p2sh_sum_bound ins outs : 0 ≤ sum_Z (zip_with p2sh_input_sigop_count ins outs) ≤ 20 * sum_Z (input_script_bytes <$> ins).
Proof.
  revert outs. induction ins as [|i ins IH]; intros outs; [destruct outs; cbn; lia|].
  assert (0 ≤ input_script_bytes i) by (unfold input_script_bytes; case_match; lia).
  destruct outs as [|o outs]; cbn.
  - pose proof (IH []). destruct ins; cbn in *; lia.
  - pose proof (p2sh_input_bound i o). specialize (IH outs). lia.
Qed.

(** the counts of signature operations are exact. For a transaction that was read from its
    encoding, which is at most [MAX_BLOCK_BYTES] long, neither the sum of the counts of its scripts, nor the sum of the counts of the
    redeem scripts of its inputs wraps around in [u32], and both are at most twenty times the bytes
    of the scripts. *)
Theorem sigop_counts_exact t spent_outputs n : tx_wire_ok t → sigops t = Ok n →
  n = sum_Z (legacy_count <$> scripts t) ∧
  p2sh_sigop_count t spent_outputs =
    (if is_coinbase t then 0 else sum_Z (zip_with p2sh_input_sigop_count (inputs t) spent_outputs)) ∧
  0 ≤ n ≤ 20 * MAX_BLOCK_BYTES ∧ 0 ≤ p2sh_sigop_count t spent_outputs ≤ 20 * MAX_BLOCK_BYTES.
Proof.
  intros Ht Hn. pose proof (script_bytes_limit t Ht) as Hl. destruct (sigops_spec t n Ht Hn) as [Hs Hb].
  pose proof (p2sh_sum_bound (inputs t) spent_outputs) as Hp.
  assert (sum_Z (input_script_bytes <$> inputs t) ≤ script_bytes t).
  { unfold script_bytes. enough (0 ≤ sum_Z ((λ o, Z.of_nat (length (lock_script o))) <$> outputs t)) by lia.
    apply sum_Z_nonneg, Forall_fmap, Forall_true. intros o. cbn. lia. }
  assert (Hw : p2sh_sigop_count t spent_outputs = if is_coinbase t then 0 else sum_Z (zip_with p2sh_input_sigop_count (inputs t) spent_outputs)).
  { unfold p2sh_sigop_count. destruct (is_coinbase t); [done|]. rewrite wrap_sum; [lia| |lia|unfold MAX_BLOCK_BYTES in Hl; lia].
    apply Forall_zip_with_fst with (P := λ _, True); [by apply Forall_true|]. apply Forall_true. intros i ? o. apply p2sh_input_bound. }
  split_and!; [exact Hs|exact Hw|lia..| |]; rewrite Hw; destruct (is_coinbase t); lia.
Qed.

End Sigops.

(** ** An instance of the library *)

#[local] Existing Instance sample_curves.
#[local] Existing Instance sample_curve_laws.
#[local] Existing Instance sample_lib.
#[local] Existing Instance sample_sighash.
#[local] Existing Instance sample_sighash_laws.

(** Signature checks are the bytes [0xac], a script is one value, and an input is accepted if it has a signature
    hash. *)
Definition sample_script : ScriptLib := {|
  ScriptLibError := unit;
  verify_callback callback _ _ signature_script _ _ :=
    hash ← lift (callback signature_script (mkHashType 1 SignedAll false)); Ok (match hash with Some _ => true | None => false end);
  legacy_sigop_count_script s := Ok (Z.of_nat (length (filter (.= 0xac) s)));
  parse_pushes s := [Some s];
  is_pay_to_script_hash s := bool_decide (s = [4; 5]);
  sig_op_count _ s := Z.of_nat (length (filter (.= 0xac) s)) |}.
#[local] Existing Instance sample_script.
Lemma sample_script_laws : ScriptLaws.
Proof.
  split. intros callback lock_time is_final ss spk flags Hc. apply no_panic_bind; [|done].
  specialize (Hc ss (mkHashType 1 SignedAll false)). by destruct (callback _ _) as [|[]|].
Qed.
Lemma sample_sigop_laws : SigopLaws.
Proof.
  split.
  - intros s n [= <-]. pose proof (length_filter (.= 0xac) s). lia.
  - intros a s. cbn. pose proof (length_filter (.= 0xac) s). lia.
  - intros s v H. apply list_elem_of_singleton in H. by injection H as ->.
Qed.

Definition sample_outs : list Output := [mkOutput (mkAmount 7) [4; 5]].
Definition sample_cached : CachedFfiTransaction := mkCached sample_tx sample_outs (mkPrecomputed (ok_value [] (Transaction_serialize sample_tx)) sample_outs).

Lemma sighash_callback_witness : ∃ l, to_librustzcash sample_tx Nu5 = Ok l ∧
  calculate_sighash (λ _ _, []) sample_cached 0 [1; 2; 3] (mkHashType 0x83 SignedSingle true) =
  (hash ← input_sighash l sample_outs 0x83 0 [1; 2; 3] (mkOutput (mkAmount 7) [4; 5]); Ok (Some hash)).
Proof.
  destruct (sighash_callback (λ _ _, []) sample_tx sample_outs Nu5 sample_cached 0 (mkOutput (mkAmount 7) [4; 5]) [1; 2; 3]
    (mkHashType 0x83 SignedSingle true)) as (l & Hl & Hc).
  - exact sample_tx_ok.
  - vm_compute. reflexivity.
  - apply Forall_singleton. reflexivity.
  - reflexivity.
  - reflexivity.
  - intros _. split; reflexivity.
  - exists l. split; [exact Hl|]. rewrite Hc. rewrite decide_False; [reflexivity|]. intros [_ [H|[_ H]]].
    + apply H. unfold valid_v5_types. repeat (apply list_elem_of_here || apply list_elem_of_further).
    + cbn in H. lia.
Defined.

Lemma sigop_counts_exact_witness : sigops sample_tx = Ok 0 ∧ p2sh_sigop_count sample_tx sample_outs = 0.
Proof.
  assert (Hs : sigops sample_tx = Ok 0) by (vm_compute; reflexivity). split; [exact Hs|].
  destruct (sigop_counts_exact (SG := sample_sigop_laws) sample_tx sample_outs 0 sample_tx_ok Hs) as (_ & Hp & _).
  rewrite Hp. vm_compute. reflexivity.
Defined.
