(* ===== verification/Transfers.v ===== *)
(** * Transparent transfers of an address

    [zebra-state/src/service/non_finalized_state/chain/index.rs]: the balance,
    the transactions, the created and the spent outputs of an address in a
    non-finalized chain, and the locations of
    [zebra-state/src/service/finalized_state/disk_format/block.rs] and
    [disk_format/transparent.rs] they are indexed by.

    [mset::MultiSet] is a finite multiset; the [BTreeMap] and [BTreeSet], which
    are read by key, are a finite map and a finite set. *)

From S2P Require Import Prelude Height Amount ValueBalance Network Transaction Reversible.

(** ** Locations *)

Record TransactionLocation := mkTxLoc { tx_loc_height : Height; tx_loc_index : Z }.
Record OutputLocation := mkOutLoc { transaction_loc : TransactionLocation; output_index : Z }.

#[export] Instance TransactionLocation_eq_dec : EqDecision TransactionLocation.
Proof. solve_decision. Defined.
#[export] Instance TransactionLocation_countable : Countable TransactionLocation.
Proof.
  refine (inj_countable' (fun l => (tx_loc_height l, tx_loc_index l)) (fun p => mkTxLoc p.1 p.2) _).
  by intros [].
Defined.
#[export] Instance OutputLocation_eq_dec : EqDecision OutputLocation.
Proof. solve_decision. Defined.
#[export] Instance OutputLocation_countable : Countable OutputLocation.
Proof.
  refine (inj_countable' (fun l => (transaction_loc l, output_index l)) (fun p => mkOutLoc p.1 p.2) _).
  by intros [].
Defined.

(** [TransactionIndex::from_usize], [TransactionLocation::from_usize]: an index
    that does not fit in [u16] panics. *)
Definition tx_loc_from_usize {E} (height : Height) (transaction_index : Z) : Res E TransactionLocation :=
  index ← expect (try_from U16 transaction_index); Ok (mkTxLoc height index).
(** [OutputLocation::from_outpoint]. *)
Definition from_outpoint (transaction_location : TransactionLocation) (outpoint : OutPoint) : OutputLocation :=
  mkOutLoc transaction_location (outpoint_index outpoint).
(** [transaction_location]. *)
Definition transaction_location {E} (ordered_utxo : OrderedUtxo) : Res E TransactionLocation :=
  tx_loc_from_usize (utxo_height (utxo ordered_utxo)) (tx_index_in_block ordered_utxo).

(** ** Multisets *)

(** [MultiSet::remove] returns whether the element was present; the callers assert it. *)
Definition mset_remove {E A} `{Countable A} (X : gmultiset A) (x : A) : Res E (gmultiset A) :=
  if decide (x ∈ X) then Ok (X ∖ {[+ x +]}) else Panic.

Lemma mset_remove_insert {E A} `{Countable A} (X : gmultiset A) x :
  mset_remove (E := E) ({[+ x +]} ⊎ X) x = Ok X.
Proof.
  unfold mset_remove. rewrite decide_True by multiset_solver. f_equal. multiset_solver.
Qed.

(** ** Transfers *)

Record TransparentTransfers := mkTransfers {
  balance : Amount NegativeAllowed;
  tx_ids : gmultiset Hash;
  created_outputs : gmap OutputLocation Output;
  spent_outputs : gset OutputLocation;
}.

Definition transfers_default {E} : Res E TransparentTransfers :=
  zero ← Amount.zero; Ok (mkTransfers zero ∅ ∅ ∅).

(** [UpdateWith<(&OutPoint, &OrderedUtxo)>]. *)
Definition update_created {E} (self : TransparentTransfers) (outpoint : OutPoint) (created_utxo : OrderedUtxo) :
    Res E TransparentTransfers :=
  value ← expect_ok (Amount.constrain NegativeAllowed (value (output (utxo created_utxo))));
  balance ← expect_ok (Amount.add (balance self) value);
  transaction_location ← transaction_location created_utxo;
  let output_location := from_outpoint transaction_location outpoint in
  match created_outputs self !! output_location with
  | Some _ => Panic
  | None =>
      Ok (mkTransfers balance ({[+ outpoint_hash outpoint +]} ⊎ tx_ids self)
            (<[output_location := output (utxo created_utxo)]> (created_outputs self))
            (spent_outputs self))
  end.

Definition revert_created (self : TransparentTransfers) (outpoint : OutPoint) (created_utxo : OrderedUtxo) :
    Run TransparentTransfers :=
  value ← expect_ok (Amount.constrain NegativeAllowed (value (output (utxo created_utxo))));
  balance ← expect_ok (Amount.sub (balance self) value);
  transaction_location ← transaction_location created_utxo;
  let output_location := from_outpoint transaction_location outpoint in
  created ← remove_present (created_outputs self) output_location;
  tx_ids ← mset_remove (tx_ids self) (outpoint_hash outpoint);
  Ok (mkTransfers balance tx_ids created (spent_outputs self)).

(** [UpdateWith<(&Input, &transaction::Hash, &OrderedUtxo)>]. *)
Definition update_spent {E} (self : TransparentTransfers) (spending_input : Input) (spending_tx_hash : Hash)
    (spent_output : OrderedUtxo) : Res E TransparentTransfers :=
  value ← expect_ok (Amount.constrain NegativeAllowed (value (output (utxo spent_output))));
  balance ← expect_ok (Amount.sub (balance self) value);
  spent_outpoint ← expect (outpoint spending_input);
  spent_output_tx_loc ← transaction_location spent_output;
  let output_location := from_outpoint spent_output_tx_loc spent_outpoint in
  if decide (output_location ∈ spent_outputs self) then Panic
  else Ok (mkTransfers balance ({[+ spending_tx_hash +]} ⊎ tx_ids self) (created_outputs self)
             ({[output_location]} ∪ spent_outputs self)).

Definition revert_spent (self : TransparentTransfers) (spending_input : Input) (spending_tx_hash : Hash)
    (spent_output : OrderedUtxo) : Run TransparentTransfers :=
  value ← expect_ok (Amount.constrain NegativeAllowed (value (output (utxo spent_output))));
  balance ← expect_ok (Amount.add (balance self) value);
  spent_outpoint ← expect (outpoint spending_input);
  spent_output_tx_loc ← transaction_location spent_output;
  let output_location := from_outpoint spent_output_tx_loc spent_outpoint in
  if decide (output_location ∈ spent_outputs self) then
    tx_ids ← mset_remove (tx_ids self) spending_tx_hash;
    Ok (mkTransfers balance tx_ids (created_outputs self) (spent_outputs self ∖ {[output_location]}))
  else Panic.

Definition is_empty (self : TransparentTransfers) : bool :=
  (zatoshis (balance self) =? 0)
  && bool_decide (tx_ids self = ∅)
  && bool_decide (created_outputs self = ∅)
  && bool_decide (spent_outputs self = ∅).

(** [received]: the sum of [u64] values wraps around. *)
Definition received (self : TransparentTransfers) : Run Z :=
  values ← collect ((fun o => into_u64 (value o)) <$> (map_to_list (created_outputs self)).*2);
  Ok (wrap U64 (sum_Z values)).

(** [tx_ids]: the transactions in the queried heights, by location. A hash that
    is not in [chain_tx_loc_by_hash] panics. *)
Definition tx_ids_in_range (self : TransparentTransfers)
    (chain_tx_loc_by_hash : gmap Hash TransactionLocation) (query_height_range : Height * Height) :
    Run (gmap TransactionLocation Hash) :=
  locations ← collect ((fun tx_hash => loc ← expect (chain_tx_loc_by_hash !! tx_hash); Ok (loc, tx_hash))
                         <$> elements (dom (tx_ids self)));
  Ok (extend ∅ (filter (fun l => query_height_range.1 ≤ tx_loc_height l.1 ≤ query_height_range.2) locations)).

(** ** The index of all addresses *)

#[export] Instance NetworkKind_countable : Countable NetworkKind.
Proof.
  refine (inj_countable (fun k => match k with MainnetKind => 0 | TestnetKind => 1 | RegtestKind => 2 end)%nat
    (fun n => [MainnetKind; TestnetKind; RegtestKind] !! n) _).
  by intros [].
Defined.
#[export] Instance Address_countable : Countable Address.
Proof.
  refine (inj_countable' (fun a => match a with
      | PayToScriptHash k h => (0%nat, k, h)
      | PayToPublicKeyHash k h => (1%nat, k, h)
      | Tex k h => (2%nat, k, h) end)
    (fun p => match p with
      | (O, k, h) => PayToScriptHash k h
      | (S O, k, h) => PayToPublicKeyHash k h
      | (_, k, h) => Tex k h end) _).
  by intros [].
Defined.

(** A transfer to or from an address. *)
Inductive Transfer :=
| Created (outpoint : OutPoint) (created_utxo : OrderedUtxo)
| Spent (spending_input : Input) (spending_tx_hash : Hash) (spent_output : OrderedUtxo).

Definition update_transfer {E} (self : TransparentTransfers) (t : Transfer) : Res E TransparentTransfers :=
  match t with
  | Created outpoint utxo => update_created self outpoint utxo
  | Spent input hash utxo => update_spent self input hash utxo
  end.
Definition revert_transfer (self : TransparentTransfers) (t : Transfer) : Run TransparentTransfers :=
  match t with
  | Created outpoint utxo => revert_created self outpoint utxo
  | Spent input hash utxo => revert_spent self input hash utxo
  end.

(** [entry(address).or_default()], then the update of the transfers. *)
Definition update_transfers {E} (m : gmap Address TransparentTransfers) (t : Address * Transfer) :
    Res E (gmap Address TransparentTransfers) :=
  address_transfers ← match m !! t.1 with Some transfers => Ok transfers | None => transfers_default end;
  address_transfers ← update_transfer address_transfers t.2;
  Ok (<[t.1 := address_transfers]> m).
(** [get_mut(&address).expect(..)], the revert, and the removal of empty transfers. *)
Definition revert_transfers (m : gmap Address TransparentTransfers) (t : Address * Transfer) :
    Run (gmap Address TransparentTransfers) :=
  address_transfers ← expect (m !! t.1);
  address_transfers ← revert_transfer address_transfers t.2;
  Ok (if is_empty address_transfers then delete t.1 m else <[t.1 := address_transfers]> m).

(** ** Lemmas *)

Definition no_transfers : TransparentTransfers := mkTransfers (mkAmount 0) ∅ ∅ ∅.

Lemma transfers_default_spec {E} : transfers_default (E := E) = Ok no_transfers.
Proof. unfold transfers_default. by rewrite Amount.zero_spec. Qed.

Definition transfer_utxo (t : Transfer) : OrderedUtxo :=
  match t with Created _ u | Spent _ _ u => u end.
Definition transfer_amount (t : Transfer) : Amount NonNegative := value (output (utxo (transfer_utxo t))).

(** The values moved by the transfers [l] can be added to or taken from the
    balance in any order, without leaving the range of amounts. *)
Definition balance_bounded (self : TransparentTransfers) (l : list Transfer) : Prop :=
  Forall (fun t => amount_ok (transfer_amount t) = true) l ∧
  Z.abs (zatoshis (balance self)) + sum_Z ((fun t => zatoshis (transfer_amount t)) <$> l) ≤ MAX_MONEY.

Lemma balance_bounded_perm self l l' : l ≡ₚ l' → balance_bounded self l → balance_bounded self l'.
Proof.
  intros Hp [H1 H2]. split; [by rewrite <- Hp|]. erewrite sum_Z_perm; [exact H2|].
  by apply Permutation_map.
Qed.

Lemma balance_bounded_cons self t l :
  balance_bounded self (t :: l) ↔
  amount_ok (transfer_amount t) = true ∧ Forall (fun t => amount_ok (transfer_amount t) = true) l ∧
  Z.abs (zatoshis (balance self)) + zatoshis (transfer_amount t)
    + sum_Z ((fun t => zatoshis (transfer_amount t)) <$> l) ≤ MAX_MONEY.
Proof. unfold balance_bounded. rewrite Forall_cons, fmap_cons. cbn [sum_Z]. rewrite Z.add_assoc. tauto. Qed.

Lemma transfers_sum_nonneg l :
  Forall (fun t => amount_ok (transfer_amount t) = true) l →
  0 ≤ sum_Z ((fun t => zatoshis (transfer_amount t)) <$> l).
Proof.
  intros Hl. apply sum_Z_nonneg, Forall_fmap. eapply Forall_impl; [exact Hl|].
  intros t Ht%contains_spec. cbn in *. lia.
Qed.

(** The balance after a bounded change. *)
Lemma balance_add {E} (b : Amount NegativeAllowed) z :
  - MAX_MONEY ≤ zatoshis b ≤ MAX_MONEY → - MAX_MONEY ≤ z ≤ MAX_MONEY →
  - MAX_MONEY ≤ zatoshis b + z ≤ MAX_MONEY →
  expect_ok (F := E) (Amount.add b (mkAmount z)) = Ok (mkAmount (zatoshis b + z)).
Proof.
  intros Hb Hz Hs. rewrite Amount.add_spec, try_from_i64_spec by (apply contains_spec; cbn; lia).
  rewrite (proj2 (contains_spec _ _)); [done|]. cbn. lia.
Qed.
Lemma balance_sub {E} (b : Amount NegativeAllowed) z :
  - MAX_MONEY ≤ zatoshis b ≤ MAX_MONEY → - MAX_MONEY ≤ z ≤ MAX_MONEY →
  - MAX_MONEY ≤ zatoshis b - z ≤ MAX_MONEY →
  expect_ok (F := E) (Amount.sub b (mkAmount z)) = Ok (mkAmount (zatoshis b - z)).
Proof.
  intros Hb Hz Hs. rewrite Amount.sub_spec, try_from_i64_spec by (apply contains_spec; cbn; lia).
  rewrite (proj2 (contains_spec _ _)); [done|]. cbn. lia.
Qed.

(** What a transfer does to the four fields. *)
Definition transfer_location (t : Transfer) : Run OutputLocation :=
  match t with
  | Created outpoint u => loc ← transaction_location u; Ok (from_outpoint loc outpoint)
  | Spent input _ u =>
      outpoint ← expect (outpoint input); loc ← transaction_location u; Ok (from_outpoint loc outpoint)
  end.
Definition transfer_fresh (self : TransparentTransfers) (t : Transfer) (loc : OutputLocation) : Prop :=
  match t with
  | Created _ _ => created_outputs self !! loc = None
  | Spent _ _ _ => loc ∉ spent_outputs self
  end.
Definition transferred (self : TransparentTransfers) (t : Transfer) (loc : OutputLocation) :
    TransparentTransfers :=
  match t with
  | Created outpoint u =>
      mkTransfers (mkAmount (zatoshis (balance self) + zatoshis (transfer_amount t)))
        ({[+ outpoint_hash outpoint +]} ⊎ tx_ids self)
        (<[loc := output (utxo u)]> (created_outputs self)) (spent_outputs self)
  | Spent _ hash _ =>
      mkTransfers (mkAmount (zatoshis (balance self) - zatoshis (transfer_amount t)))
        ({[+ hash +]} ⊎ tx_ids self) (created_outputs self) ({[loc]} ∪ spent_outputs self)
  end.

Lemma transaction_location_Ok {E F} u loc :
  transaction_location (E := E) u = Ok loc → transaction_location (E := F) u = Ok loc.
Proof.
  unfold transaction_location, tx_loc_from_usize. destruct (try_from _ _); cbn; naive_solver.
Qed.

Lemma balance_bounded_ranges self t l :
  balance_bounded self (t :: l) →
  amount_ok (transfer_amount t) = true ∧
  - MAX_MONEY ≤ zatoshis (balance self) ≤ MAX_MONEY ∧
  0 ≤ zatoshis (transfer_amount t) ≤ MAX_MONEY ∧
  - MAX_MONEY ≤ zatoshis (balance self) + zatoshis (transfer_amount t) ≤ MAX_MONEY ∧
  - MAX_MONEY ≤ zatoshis (balance self) - zatoshis (transfer_amount t) ≤ MAX_MONEY.
Proof.
  intros (Ht & Hl & Hs)%balance_bounded_cons. pose proof (transfers_sum_nonneg l Hl).
  split; [done|]. apply contains_spec in Ht. cbn in Ht. lia.
Qed.

Lemma update_transfer_spec {E} self t l self' :
  balance_bounded self (t :: l) →
  update_transfer (E := E) self t = Ok self' ↔
  ∃ loc, transfer_location t = Ok loc ∧ transfer_fresh self t loc ∧ self' = transferred self t loc.
Proof.
  intros (Hok & Hb & Ht & Hp & Hm)%balance_bounded_ranges.
  destruct t as [p u|i h u]; cbn [update_transfer transfer_location transfer_fresh transferred];
    unfold update_created, update_spent, transfer_amount in *; cbn [transfer_utxo] in *;
    rewrite constrain_non_negative, Ok_bind by done;
    rewrite ?balance_add, ?balance_sub, Ok_bind by lia.
  - destruct (transaction_location (E := E) u) as [loc|e|] eqn:Hl;
      unfold transaction_location, tx_loc_from_usize in *;
      destruct (try_from U16 _); cbn in *; simplify_eq; [|naive_solver].
    destruct (created_outputs self !! _) eqn:Hc; naive_solver.
  - destruct (outpoint i) as [p|]; cbn; [|naive_solver].
    destruct (transaction_location (E := E) u) as [loc|e|] eqn:Hl;
      unfold transaction_location, tx_loc_from_usize in *;
      destruct (try_from U16 _); cbn in *; simplify_eq; [|naive_solver].
    case_decide as Hd; split; [done| |intros [= <-]; eauto|].
    + intros (? & [= <-] & Hf & _). contradiction.
    + intros (? & [= <-] & _ & ->). done.
Qed.

Lemma transferred_bounded self t l loc :
  balance_bounded self (t :: l) → balance_bounded (transferred self t loc) l.
Proof.
  intros (Ht & Hl & Hs)%balance_bounded_cons. split; [done|].
  apply contains_spec in Ht. cbn in Ht.
  destruct t; cbn [transferred balance zatoshis] in *; lia.
Qed.

Lemma revert_transferred self t l loc :
  balance_bounded self (t :: l) → transfer_location t = Ok loc → transfer_fresh self t loc →
  revert_transfer (transferred self t loc) t = Ok self.
Proof.
  intros (Hok & Hb & Ht & Hp & Hm)%balance_bounded_ranges Hloc Hf.
  destruct self as [[b] ids cs ss].
  destruct t as [p u|i h u]; cbn [revert_transfer transferred transfer_fresh transfer_location] in *;
    unfold revert_created, revert_spent, transfer_amount in *;
    cbn [transfer_utxo balance tx_ids created_outputs spent_outputs zatoshis] in *;
    rewrite constrain_non_negative, Ok_bind by done.
  - rewrite balance_sub, Ok_bind by (cbn; lia).
    apply bind_Ok in Hloc as (tl & -> & [= <-]). rewrite Ok_bind.
    unfold remove_present. rewrite lookup_insert_eq, Ok_bind, mset_remove_insert, Ok_bind.
    rewrite delete_insert_id by done. cbn. do 3 f_equal. lia.
  - rewrite balance_add, Ok_bind by (cbn; lia).
    apply bind_Ok in Hloc as (p & -> & Hloc). apply bind_Ok in Hloc as (tl & -> & [= <-]).
    rewrite !Ok_bind. rewrite decide_True by set_solver. rewrite mset_remove_insert, Ok_bind.
    cbn. do 2 f_equal; [f_equal; lia|set_solver].
Qed.

(** *** The transfers without the range of balances *)

#[export] Instance transfer_fresh_dec self t loc : Decision (transfer_fresh self t loc).
Proof. destruct t; cbn; apply _. Defined.

(** The update and its inverse with the balance as an integer of any size: the
    reference the bounded arithmetic of the code is compared with. *)
Definition ideal_update {E} (self : TransparentTransfers) (t : Transfer) : Res E TransparentTransfers :=
  loc ← lift (transfer_location t);
  if decide (transfer_fresh self t loc) then Ok (transferred self t loc) else Panic.
Definition ideal_revert (self : TransparentTransfers) (t : Transfer) : Run TransparentTransfers :=
  loc ← transfer_location t;
  match t with
  | Created outpoint _ =>
      created ← remove_present (created_outputs self) loc;
      ids ← mset_remove (tx_ids self) (outpoint_hash outpoint);
      Ok (mkTransfers (mkAmount (zatoshis (balance self) - zatoshis (transfer_amount t))) ids created (spent_outputs self))
  | Spent _ hash _ =>
      if decide (loc ∈ spent_outputs self) then
        ids ← mset_remove (tx_ids self) hash;
        Ok (mkTransfers (mkAmount (zatoshis (balance self) + zatoshis (transfer_amount t))) ids (created_outputs self)
              (spent_outputs self ∖ {[loc]}))
      else Panic
  end.

Lemma ideal_update_Ok {E} self t self' :
  ideal_update (E := E) self t = Ok self' ↔
  ∃ loc, transfer_location t = Ok loc ∧ transfer_fresh self t loc ∧ self' = transferred self t loc.
Proof.
  unfold ideal_update. destruct (transfer_location t) as [loc|[]|]; cbn [lift].
  - rewrite Ok_bind. case_decide; naive_solver.
  - split; [done|naive_solver].
Qed.

(** The amounts an update or its inverse computes are the exact ones. *)
Lemma constrain_value {F} (v : Amount NonNegative) (v' : Amount NegativeAllowed) :
  expect_ok (F := F) (Amount.constrain NegativeAllowed v) = Ok v' → zatoshis v' = zatoshis v.
Proof. unfold Amount.constrain. rewrite try_from_i64_spec. destruct (contains _ _); by intros [= <-]. Qed.
Lemma add_value {F} (a b c : Amount NegativeAllowed) :
  expect_ok (F := F) (Amount.add a b) = Ok c → c = mkAmount (zatoshis a + zatoshis b).
Proof.
  unfold Amount.add, checked_add. destruct (try_from I64 _) as [v|] eqn:Hv; [|done].
  apply try_from_Some in Hv as [-> _]. cbn [expect]. rewrite Ok_bind, try_from_i64_spec. destruct (contains _ _); by intros [= <-].
Qed.
Lemma sub_value {F} (a b c : Amount NegativeAllowed) :
  expect_ok (F := F) (Amount.sub a b) = Ok c → c = mkAmount (zatoshis a - zatoshis b).
Proof.
  unfold Amount.sub, Prelude.checked_sub. destruct (try_from I64 _) as [v|] eqn:Hv; [|done].
  apply try_from_Some in Hv as [-> _]. cbn [expect]. rewrite Ok_bind, try_from_i64_spec. destruct (contains _ _); by intros [= <-].
Qed.

(** An update that returns is the ideal one. *)
Lemma update_transfer_ideal {E} self t self' :
  update_transfer (E := E) self t = Ok self' → ideal_update (E := E) self t = Ok self'.
Proof.
  intros H. apply ideal_update_Ok.
  destruct t as [p u|i h u]; cbn [update_transfer transfer_location transfer_fresh transferred] in *;
    unfold update_created, update_spent, transfer_amount in *; cbn [transfer_utxo].
  - apply bind_Ok in H as (v & <-%constrain_value & H). apply bind_Ok in H as (b & ->%add_value & H).
    apply bind_Ok in H as (loc & Hl%(transaction_location_Ok (F := Empty_set)) & H). rewrite Hl.
    eexists. split; [done|]. destruct (created_outputs self !! _) eqn:Hc; [done|]. by injection H as <-.
  - apply bind_Ok in H as (v & <-%constrain_value & H). apply bind_Ok in H as (b & ->%sub_value & H).
    apply bind_Ok in H as (o & Ho & H). destruct (outpoint i) as [o'|]; [injection Ho as ->|done].
    apply bind_Ok in H as (loc & Hl%(transaction_location_Ok (F := Empty_set)) & H). cbn [expect]. rewrite Ok_bind, Hl.
    eexists. split; [done|]. cbn beta. case_decide; [done|]. by injection H as <-.
Qed.

(** An inverse that returns is the ideal one. *)
Lemma revert_transfer_ideal self t self' : revert_transfer self t = Ok self' → ideal_revert self t = Ok self'.
Proof.
  destruct t as [p u|i h u]; cbn [revert_transfer]; unfold revert_created, revert_spent, ideal_revert, transfer_amount;
    cbn [transfer_utxo transfer_location]; intros (v & <-%constrain_value & H)%bind_Ok.
  - apply bind_Ok in H as (b & ->%sub_value & H). by destruct (transaction_location u) as [loc|[]|].
  - apply bind_Ok in H as (b & ->%add_value & H). destruct (outpoint i) as [o|]; [|done].
    by destruct (transaction_location u) as [loc|[]|].
Qed.

(** Within the bounds, the ideal update does not panic in the code. *)
Lemma ideal_update_bounded {E} self t l self' :
  balance_bounded self (t :: l) → ideal_update (E := E) self t = Ok self' ↔ update_transfer (E := E) self t = Ok self'.
Proof. intros Hb. by rewrite ideal_update_Ok, (update_transfer_spec _ _ _ _ Hb). Qed.

#[export] Instance ideal_transfer_reversible {E} : Reversible (ideal_update (E := E)) ideal_revert (fun _ _ => True).
Proof.
  split; [done|done|done|..].
  - intros s t l s' _ (loc & Hl & Hf & ->)%ideal_update_Ok. unfold ideal_revert. rewrite Hl, Ok_bind.
    destruct s as [[b] ids cs ss], t as [p u|i h u];
      cbn [transferred transfer_fresh created_outputs spent_outputs tx_ids balance zatoshis] in *.
    + unfold remove_present. rewrite lookup_insert_eq, Ok_bind, mset_remove_insert, Ok_bind, delete_insert_id by done.
      do 3 f_equal. lia.
    + rewrite decide_True, mset_remove_insert, Ok_bind by set_solver. do 2 f_equal; [f_equal; lia|set_solver].
  - intros s a b l s1 s2 _ (la & Hla & Hfa & ->)%ideal_update_Ok (lb & Hlb & Hfb & ->)%ideal_update_Ok.
    exists (transferred s b lb). rewrite !ideal_update_Ok.
    destruct s as [[z] ids cs ss], a as [pa ua|ia ha ua], b as [pb ub|ib hb ub];
      cbn [transfer_fresh transferred balance tx_ids created_outputs spent_outputs zatoshis] in *.
    all: try (apply lookup_insert_None in Hfb as [Hfb Hne]).
    all: (split; [exists lb; split; [done|split; [first [done|set_solver]|done]]|exists la; split; [done|split]]).
    all: try (rewrite lookup_insert_ne by done); try done; try set_solver.
    all: f_equal; try (f_equal; lia); try multiset_solver; try set_solver.
    by rewrite insert_insert_ne by done.
Qed.

#[export] Instance transfer_reversible {E} :
  Reversible (update_transfer (E := E)) revert_transfer balance_bounded.
Proof.
  split.
  - intros s l l' Hp. by apply balance_bounded_perm.
  - intros s t l (Ht & Hl & Hs)%balance_bounded_cons. split; [done|].
    apply contains_spec in Ht. cbn in Ht. lia.
  - intros s t l s' Ha (loc & _ & _ & ->)%(update_transfer_spec _ _ _ _ Ha). by apply transferred_bounded.
  - intros s t l s' Ha (loc & Hl & Hf & ->)%(update_transfer_spec _ _ _ _ Ha).
    by eapply revert_transferred.
  - intros s a b l s1 s2 Ha H1%update_transfer_ideal H2%update_transfer_ideal.
    destruct (apply_comm (Reversible := ideal_transfer_reversible (E := E)) s a b [] s1 s2 I H1 H2) as (s1' & H1' & H2').
    assert (Ha' : balance_bounded s (b :: a :: l)) by (eapply balance_bounded_perm; [|exact Ha]; constructor).
    apply (ideal_update_bounded _ _ _ _ Ha') in H1'. exists s1'. split; [done|].
    apply (update_transfer_spec _ _ _ _ Ha') in H1' as (loc & _ & _ & ->).
    by apply (ideal_update_bounded _ _ _ _ (transferred_bounded _ _ _ loc Ha')).
Qed.

(** The transfers of one address. *)
Definition transfers_of (a : Address) (l : list (Address * Transfer)) : list Transfer :=
  omap (fun t => if decide (t.1 = a) then Some t.2 else None) l.
Definition transfers_at (m : gmap Address TransparentTransfers) (a : Address) : TransparentTransfers :=
  default no_transfers (m !! a).

(** No entry is empty, and the transfers of each address are admissible. *)
Definition index_adm (adm : TransparentTransfers → list Transfer → Prop) (m : gmap Address TransparentTransfers)
    (l : list (Address * Transfer)) : Prop :=
  (∀ a, adm (transfers_at m a) (transfers_of a l)) ∧ map_Forall (fun _ t => is_empty t = false) m.
Definition transfers_adm : gmap Address TransparentTransfers → list (Address * Transfer) → Prop :=
  index_adm balance_bounded.
Definition ideal_transfers_adm : gmap Address TransparentTransfers → list (Address * Transfer) → Prop :=
  index_adm (fun _ _ => True).

Definition ideal_update_transfers {E} (m : gmap Address TransparentTransfers) (t : Address * Transfer) :
    Res E (gmap Address TransparentTransfers) :=
  address_transfers ← ideal_update (transfers_at m t.1) t.2;
  Ok (<[t.1 := address_transfers]> m).
Definition ideal_revert_transfers (m : gmap Address TransparentTransfers) (t : Address * Transfer) :
    Run (gmap Address TransparentTransfers) :=
  address_transfers ← expect (m !! t.1);
  address_transfers ← ideal_revert address_transfers t.2;
  Ok (if is_empty address_transfers then delete t.1 m else <[t.1 := address_transfers]> m).

(** It is enough that all the transfers move at most the money supply. *)
Lemma transfers_adm_total l :
  Forall (fun t => amount_ok (transfer_amount t.2) = true) l →
  sum_Z ((fun t => zatoshis (transfer_amount t.2)) <$> l) ≤ MAX_MONEY → transfers_adm ∅ l.
Proof.
  intros Hl Hs. split; [|apply map_Forall_empty]. intros a. unfold transfers_at. rewrite lookup_empty. cbn [from_option id].
  assert (Hg : Forall (fun t => amount_ok (transfer_amount t) = true) (transfers_of a l) ∧
    sum_Z ((fun t => zatoshis (transfer_amount t)) <$> transfers_of a l)
      ≤ sum_Z ((fun t => zatoshis (transfer_amount t.2)) <$> l)).
  { clear Hs. induction Hl as [|[b t] l Ht Hl [IH1 IH2]]; [by split|]. apply contains_spec in Ht as Ht'. cbn in Ht, Ht'.
    unfold transfers_of in *. cbn -[zatoshis transfer_amount] in *. case_decide; cbn -[zatoshis transfer_amount] in *.
    - split; [by constructor|]. unfold fmap in *. lia.
    - split; [done|]. unfold fmap in *. lia. }
  split; [apply Hg|]. cbn. destruct Hg as [_ Hg]. lia.
Qed.

Lemma update_transfers_Ok {E} m t m' :
  update_transfers (E := E) m t = Ok m' ↔
  ∃ t', update_transfer (E := E) (transfers_at m t.1) t.2 = Ok t' ∧ m' = <[t.1 := t']> m.
Proof.
  unfold update_transfers, transfers_at. rewrite transfers_default_spec.
  destruct (m !! t.1) as [s|]; cbn [default]; rewrite Ok_bind, bind_Ok; naive_solver.
Qed.

Lemma transfers_at_insert m a t b :
  transfers_at (<[a := t]> m) b = if decide (a = b) then t else transfers_at m b.
Proof. unfold transfers_at. rewrite lookup_insert. by case_decide. Qed.

Lemma is_empty_default : is_empty no_transfers = true.
Proof. reflexivity. Qed.

Lemma ideal_update_not_empty {E} s t s' : ideal_update (E := E) s t = Ok s' → is_empty s' = false.
Proof.
  intros (loc & _ & _ & ->)%ideal_update_Ok.
  unfold is_empty. apply not_true_iff_false. rewrite !andb_true_iff, !bool_decide_eq_true.
  destruct t; cbn [transferred tx_ids]; intros [[[_ Hx] _] _]; multiset_solver.
Qed.

Lemma transfers_of_cons a t l :
  transfers_of a (t :: l) = if decide (t.1 = a) then t.2 :: transfers_of a l else transfers_of a l.
Proof. unfold transfers_of. cbn. by case_decide. Qed.

(** An index by address of transfers that can be undone. *)
Lemma index_reversible {E} (update : TransparentTransfers → Transfer → Res E TransparentTransfers) revert adm
    (updates : gmap Address TransparentTransfers → Address * Transfer → Res E (gmap Address TransparentTransfers)) reverts :
  Reversible update revert adm → (∀ s t s', update s t = Ok s' → is_empty s' = false) →
  (∀ m t m', updates m t = Ok m' ↔ ∃ t', update (transfers_at m t.1) t.2 = Ok t' ∧ m' = <[t.1 := t']> m) →
  (∀ m t, reverts m t = s ← expect (m !! t.1); s ← revert s t.2;
                        Ok (if is_empty s then delete t.1 m else <[t.1 := s]> m)) →
  Reversible updates reverts (index_adm adm).
Proof.
  intros R Hne Hup Hrev. split.
  - intros m l l' Hp [Hb He]. split; [|done]. intros a. eapply adm_perm; [|apply Hb]. by apply omap_Permutation.
  - intros m t l [Hb He]. split; [|done]. intros a. specialize (Hb a). rewrite transfers_of_cons in Hb.
    case_decide; [eapply (adm_tail (apply := update)), Hb|done].
  - intros m t l m' [Hb He] (t' & Ht & ->)%Hup. split; [|apply map_Forall_insert_2; [by eapply Hne|done]].
    intros a. rewrite transfers_at_insert. specialize (Hb a). rewrite transfers_of_cons in Hb.
    case_decide; subst; [|done]. eapply adm_step; eassumption.
  - intros m t l m' [Hb He] (t' & Ht & ->)%Hup. rewrite Hrev, lookup_insert_eq. cbn [expect]. rewrite Ok_bind.
    specialize (Hb t.1). rewrite transfers_of_cons, decide_True in Hb by done.
    erewrite (undo_apply (apply := update)) by eassumption. rewrite Ok_bind. unfold transfers_at.
    destruct (m !! t.1) as [s|] eqn:Hm; cbn [from_option id].
    + rewrite (He _ _ Hm), insert_insert_eq. by rewrite insert_id.
    + rewrite is_empty_default. by rewrite delete_insert_id.
  - intros m a b l m1 m2 [Hb He] (ta & Hta & ->)%Hup (tb & Htb & ->)%Hup.
    setoid_rewrite Hup. rewrite transfers_at_insert in Htb. case_decide as Hab.
    + specialize (Hb a.1). rewrite !transfers_of_cons, decide_True, decide_True in Hb by congruence.
      edestruct (apply_comm (apply := update) (undo := revert)) as (t1 & Ht1 & Ht2); [exact Hb|exact Hta|exact Htb|].
      exists (<[b.1 := t1]> m). split; [exists t1; by rewrite <- Hab|].
      exists tb. rewrite transfers_at_insert, decide_True by done. split; [done|].
      rewrite Hab. by rewrite !insert_insert_eq.
    + exists (<[b.1 := tb]> m). split; [by exists tb|]. exists ta.
      rewrite transfers_at_insert, decide_False by done. split; [done|].
      by apply insert_insert_ne.
Qed.

#[export] Instance transfers_reversible {E} :
  Reversible (update_transfers (E := E)) revert_transfers transfers_adm.
Proof.
  apply (index_reversible update_transfer revert_transfer); [apply _| |apply update_transfers_Ok|done].
  intros s t s' Hu%update_transfer_ideal. by eapply ideal_update_not_empty.
Qed.

Lemma ideal_update_transfers_Ok {E} m t m' :
  ideal_update_transfers (E := E) m t = Ok m' ↔
  ∃ t', ideal_update (E := E) (transfers_at m t.1) t.2 = Ok t' ∧ m' = <[t.1 := t']> m.
Proof. unfold ideal_update_transfers. rewrite bind_Ok. naive_solver. Qed.

#[export] Instance ideal_transfers_reversible {E} :
  Reversible (ideal_update_transfers (E := E)) ideal_revert_transfers ideal_transfers_adm.
Proof.
  apply (index_reversible ideal_update ideal_revert); [apply _| |apply ideal_update_transfers_Ok|done].
  intros s t s'. apply ideal_update_not_empty.
Qed.

(** What the code computes is the ideal index; within the bounds it computes it. *)
Lemma update_transfers_ideal {E} m t m' :
  update_transfers (E := E) m t = Ok m' → ideal_update_transfers (E := E) m t = Ok m'.
Proof. intros (t' & Ht%update_transfer_ideal & ->)%update_transfers_Ok. apply ideal_update_transfers_Ok. eauto. Qed.
Lemma revert_transfers_ideal m t m' : revert_transfers m t = Ok m' → ideal_revert_transfers m t = Ok m'.
Proof.
  unfold revert_transfers, ideal_revert_transfers. destruct (m !! t.1); [|done]. cbn [expect]. rewrite !Ok_bind.
  intros (s & Hs%revert_transfer_ideal & [= <-])%bind_Ok. by rewrite Hs.
Qed.
Lemma ideal_transfers_bounded {E} m t l m' : transfers_adm m (t :: l) →
  ideal_update_transfers (E := E) m t = Ok m' → update_transfers (E := E) m t = Ok m'.
Proof.
  intros [Hb _] (t' & Ht & ->)%ideal_update_transfers_Ok. apply update_transfers_Ok. exists t'. split; [|done].
  specialize (Hb t.1). rewrite transfers_of_cons, decide_True in Hb by done. by apply (ideal_update_bounded _ _ _ _ Hb).
Qed.
