(* ===== verification/TreeIndex.v ===== *)
(** * Note commitment tree and anchor indexes

    The functions of [zebra-state/src/service/non_finalized_state/chain.rs] that
    index the Sprout, Sapling and Orchard note commitment trees and anchors, and
    the history trees, of a non-finalized chain by height.

    The three pools have the same code up to the types, but for the Sprout index
    of trees by anchor: the common part is the record [PoolTrees]. The trees
    themselves are a parameter, the class [NoteTree]: a tree has a root, and
    trees compare by their roots, which is what [PartialEq for
    NoteCommitmentTree] does on trees whose roots are cached (all the trees of
    the index, because [tree.root()] caches it). [NoteTreeLaws] adds that equal
    trees can replace each other.

    [from_height] and [compress] are the specification: an index represents a
    sequence of trees at consecutive heights. *)

From S2P Require Import Prelude BTreeMap Height Transfers.

Class NoteTree (T R : Type) := {
  tree_root : T → R;
  tree_root_eq_dec :: EqDecision R;
  tree_root_countable :: Countable R;
}.

Class NoteTreeLaws (T R : Type) `{!NoteTree T R} : Prop := {
  tree_root_inj :: Inj (=) (=) (tree_root (T := T) (R := R));
}.

Inductive RevertPosition := Root | Tip.

Section Pool.
Context {T R : Type} `{N : !NoteTree T R}.

(** [tree == other]. *)
Definition tree_eqb (tree other : T) : bool := bool_decide (tree_root tree = tree_root other).

Record PoolTrees := mkPool {
  anchors : gmultiset R;
  anchors_by_height : list (Z * R);
  trees_by_height : list (Z * T);
}.

Definition pool_new : PoolTrees := mkPool ∅ [] [].

(** [sprout_tree], [sapling_tree] and [orchard_tree], by height. *)
Definition tree_at (self : PoolTrees) (height : Height) : option T :=
  snd <$> bt_last (bt_range_le height (trees_by_height self)).

(** [sprout_note_commitment_tree_for_tip] and its Sapling and Orchard counterparts. *)
Definition tree_for_tip {E} (self : PoolTrees) : Res E T :=
  snd <$> expect (bt_last (trees_by_height self)).

(** [add_sprout_tree_and_anchor] (the part common to the pools),
    [add_sapling_tree_and_anchor] and [add_orchard_tree_and_anchor]. *)
Definition add_tree_and_anchor {E} (self : PoolTrees) (height : Height) (tree : T) : Res E PoolTrees :=
  let anchor := tree_root tree in
  differs ←
    if is_min height then Ok true
    else
      prev ← expect_ok (previous height);
      Ok (match tree_at self prev with Some prev_tree => negb (tree_eqb prev_tree tree) | None => true end);
  trees ← if differs : bool then
            match bt_get height (trees_by_height self) with
            | None => Ok (bt_insert height tree (trees_by_height self))
            | Some _ => Panic
            end
          else Ok (trees_by_height self);
  match bt_get height (anchors_by_height self) with
  | None => Ok (mkPool ({[+ anchor +]} ⊎ anchors self) (bt_insert height anchor (anchors_by_height self)) trees)
  | Some _ => Panic
  end.

(** The body of the loop over the removed heights; the anchor is returned. *)
Definition remove_height (self : PoolTrees) (height : Height) : Run (PoolTrees * R) :=
  anchor ← expect (bt_get height (anchors_by_height self));
  anchors ← mset_remove (anchors self) anchor;
  Ok (mkPool anchors (bt_remove height (anchors_by_height self))
        (bt_remove height (trees_by_height self)), anchor).

Fixpoint remove_heights (self : PoolTrees) (heights : list Height) : Run PoolTrees :=
  match heights with
  | [] => Ok self
  | height :: heights => '(self, _) ← remove_height self height; remove_heights self heights
  end.

(** The heights to remove, and the cached highest removed tree. *)
Definition removed_heights (self : PoolTrees) (position : RevertPosition) (height : Height) :
    list Height * option T :=
  match position with
  | Root => (filter (fun h => h ≤ height) (anchors_by_height self).*1, tree_at self height)
  | Tip => ([height], None)
  end.

(** The end of the removal: the tree just above [height] is stored, when the
    chain has a block there. [tip] is the tip height of the chain, if any. *)
Definition restore_tree (self : PoolTrees) (height : Height) (highest_removed_tree : option T)
    (tip : option Height) : Run PoolTrees :=
  match tip with
  | Some tip =>
      if height <? tip then
        next_height ← expect_ok (next height);
        match bt_get next_height (trees_by_height self) with
        | Some _ => Ok self
        | None =>
            tree ← expect highest_removed_tree;
            Ok (mkPool (anchors self) (anchors_by_height self)
                  (bt_insert next_height tree (trees_by_height self)))
        end
      else Ok self
  | None => Ok self
  end.

(** [remove_sapling_tree_and_anchor] and [remove_orchard_tree_and_anchor]. *)
Definition remove_tree_and_anchor (self : PoolTrees) (position : RevertPosition) (height : Height)
    (tip : option Height) : Run PoolTrees :=
  let '(heights, highest_removed_tree) := removed_heights self position height in
  self ← remove_heights self heights;
  restore_tree self height highest_removed_tree tip.

(** *** The Sprout index, with the trees by anchor *)

Record SproutTrees := mkSprout { sprout_pool : PoolTrees; trees_by_anchor : gmap R T }.

Definition sprout_trees_new : SproutTrees := mkSprout pool_new ∅.

Definition add_sprout_tree_and_anchor {E} (self : SproutTrees) (height : Height) (tree : T) : Res E SproutTrees :=
  pool ← add_tree_and_anchor (sprout_pool self) height tree;
  Ok (mkSprout pool (<[tree_root tree := tree]> (trees_by_anchor self))).

Fixpoint remove_sprout_heights (self : SproutTrees) (heights : list Height) : Run SproutTrees :=
  match heights with
  | [] => Ok self
  | height :: heights =>
      '(pool, anchor) ← remove_height (sprout_pool self) height;
      let trees := if decide (anchor ∈ anchors pool) then trees_by_anchor self
                   else delete anchor (trees_by_anchor self) in
      remove_sprout_heights (mkSprout pool trees) heights
  end.

Definition remove_sprout_tree_and_anchor (self : SproutTrees) (position : RevertPosition) (height : Height)
    (tip : option Height) : Run SproutTrees :=
  let '(heights, highest_removed_tree) := removed_heights (sprout_pool self) position height in
  self ← remove_sprout_heights self heights;
  pool ← restore_tree (sprout_pool self) height highest_removed_tree tip;
  Ok (mkSprout pool (trees_by_anchor self)).

End Pool.
Arguments PoolTrees T R {_}.
Arguments SproutTrees T R {_}.

(** *** History trees *)

Section History.
Context {H : Type}.
Implicit Types m : list (Z * H).

(** [history_block_commitment_tree] and [history_tree] by height. *)
Definition history_for_tip {E} m : Res E H := snd <$> expect (bt_last m).
Definition history_at m (height : Height) : option H := bt_get height m.

Definition add_history_tree {E} m (height : Height) (tree : H) : Res E (list (Z * H)) :=
  match bt_get height m with None => Ok (bt_insert height tree m) | Some _ => Panic end.

Definition remove_history_tree m (position : RevertPosition) (height : Height) : Run (list (Z * H)) :=
  match position with
  | Root => Ok (filter (fun e => height < e.1) m)
  | Tip => _ ← expect (bt_get height m); Ok (bt_remove height m)
  end.

End History.

(** ** Values at consecutive heights *)

Fixpoint from_height {A} (lo : Height) (l : list A) : list (Z * A) :=
  match l with
  | [] => []
  | x :: l => (lo, x) :: from_height (lo + 1) l
  end.

(** The height of the value number [n]. *)
Definition height_of (lo : Height) (n : nat) : Height := lo + Z.of_nat n.

Section FromHeight.
Context {A : Type}.
Implicit Types l : list A.

Lemma length_from_height lo l : length (from_height lo l) = length l.
Proof. revert lo. induction l; intros lo; cbn; auto. Qed.

Lemma snd_from_height lo l : (from_height lo l).*2 = l.
Proof. revert lo. induction l as [|x l IH]; intros lo; cbn; [done|]. f_equal. apply IH. Qed.

Lemma from_height_app lo l k :
  from_height lo (l ++ k) = from_height lo l ++ from_height (height_of lo (length l)) k.
Proof.
  revert lo. unfold height_of. induction l as [|x l IH]; intros lo; cbn; [by rewrite Z.add_0_r|].
  rewrite IH. do 3 f_equal. lia.
Qed.

Lemma from_height_bounds lo l : Forall (fun e => lo ≤ e.1 < height_of lo (length l)) (from_height lo l).
Proof.
  revert lo. unfold height_of. induction l as [|x l IH]; intros lo; cbn; constructor; cbn; [lia|].
  eapply Forall_impl; [apply IH|]. cbn. lia.
Qed.

Lemma from_height_ok lo l : bt_ok (from_height lo l).
Proof.
  revert lo. induction l as [|x l IH]; intros lo; cbn; [constructor|].
  apply bt_ok_cons. split; [apply IH|]. eapply Forall_impl; [apply from_height_bounds|]. cbn. lia.
Qed.

Lemma bt_get_from_height lo l h :
  bt_get h (from_height lo l) = if lo <=? h then l !! Z.to_nat (h - lo) else None.
Proof.
  revert lo. induction l as [|x l IH]; intros lo; cbn; [by destruct (lo <=? h)|].
  rewrite IH. destruct (Z.eqb_spec h lo) as [->|].
  - rewrite Z.leb_refl, Z.sub_diag. done.
  - destruct (Z.leb_spec (lo + 1) h), (Z.leb_spec lo h); try lia; [|done].
    replace (Z.to_nat (h - lo)) with (S (Z.to_nat (h - (lo + 1)))) by lia. done.
Qed.

(** The height after the last one has no value, and can be given one. *)
Lemma from_height_fresh lo l : bt_get (height_of lo (length l)) (from_height lo l) = None.
Proof.
  rewrite bt_get_from_height. unfold height_of. destruct (Z.leb_spec lo (lo + Z.of_nat (length l))); [|done].
  apply lookup_ge_None_2. lia.
Qed.

Lemma from_height_snoc lo l x :
  bt_insert (height_of lo (length l)) x (from_height lo l) = from_height lo (l ++ [x]).
Proof.
  rewrite bt_insert_last, from_height_app; [done|].
  eapply Forall_impl; [apply from_height_bounds|]. cbn. lia.
Qed.

Lemma from_height_get_last lo l x :
  bt_get (height_of lo (length l)) (from_height lo (l ++ [x])) = Some x.
Proof.
  rewrite bt_get_from_height. unfold height_of.
  destruct (Z.leb_spec lo (lo + Z.of_nat (length l))); [|lia].
  replace (Z.to_nat (lo + Z.of_nat (length l) - lo)) with (length l) by lia. by rewrite list_lookup_middle.
Qed.

Lemma bt_remove_absent {V} k (m : list (Z * V)) : k ∉ m.*1 → bt_remove k m = m.
Proof.
  induction m as [|[k' v] m IH]; intros Hk; cbn; [done|].
  destruct (Z.eqb_spec k k') as [->|]; [set_solver|]. rewrite IH; set_solver.
Qed.

Lemma bt_remove_last {V} k v (m : list (Z * V)) : k ∉ m.*1 → bt_remove k (m ++ [(k, v)]) = m.
Proof.
  induction m as [|[k' v'] m IH]; intros Hk; cbn.
  - by rewrite Z.eqb_refl.
  - destruct (Z.eqb_spec k k') as [->|]; [set_solver|]. rewrite IH; set_solver.
Qed.

Lemma from_height_keys_lt lo l h : height_of lo (length l) ≤ h → h ∉ (from_height lo l).*1.
Proof.
  intros Hh [[k v] [-> Hin]]%list_elem_of_fmap. cbn in *.
  pose proof (from_height_bounds lo l) as Hb. rewrite Forall_forall in Hb. apply Hb in Hin. cbn in *. lia.
Qed.

Lemma from_height_remove_last lo l x :
  bt_remove (height_of lo (length l)) (from_height lo (l ++ [x])) = from_height lo l.
Proof. rewrite from_height_app. apply bt_remove_last, from_height_keys_lt. lia. Qed.

Lemma from_height_last lo l x : snd <$> bt_last (from_height lo (l ++ [x])) = Some x.
Proof. rewrite from_height_app. unfold bt_last. cbn. by rewrite last_snoc. Qed.

(** The entries above the first [n] heights. *)
Lemma from_height_filter_gt lo l n :
  filter (fun e => height_of lo n - 1 < e.1) (from_height lo l) = from_height (height_of lo n) (drop n l).
Proof.
  unfold height_of. revert lo n. induction l as [|x l IH]; intros lo n; cbn [from_height]; [by rewrite drop_nil|].
  destruct n as [|n].
  - rewrite filter_cons_True by (cbn; lia). specialize (IH (lo + 1) 0%nat).
    rewrite drop_0, !Z.add_0_r in *. cbn [from_height]. f_equal. etrans; [|exact IH].
    apply filter_ext_in. intros e He.
    pose proof (from_height_bounds (lo + 1) l) as Hb. rewrite Forall_forall in Hb. apply Hb in He. lia.
  - rewrite filter_cons_False by (cbn; lia). specialize (IH (lo + 1) n). cbn [drop].
    replace (lo + Z.of_nat (S n)) with (lo + 1 + Z.of_nat n) by lia. done.
Qed.

(** The keys of the first [n] heights. *)
Lemma from_height_filter_le lo l n :
  filter (fun h => h ≤ height_of lo n - 1) (from_height lo l).*1 = (from_height lo (take n l)).*1.
Proof.
  unfold height_of. revert lo n. induction l as [|x l IH]; intros lo n; cbn [from_height]; [by rewrite take_nil|].
  rewrite fmap_cons. cbn [fst]. destruct n as [|n].
  - rewrite filter_cons_False by lia. specialize (IH (lo + 1) 0%nat). rewrite take_0 in *. cbn in IH |- *.
    rewrite !Z.add_0_r in *. etrans; [|exact IH]. apply filter_ext_in. intros e [[k v] [-> He]]%list_elem_of_fmap.
    pose proof (from_height_bounds (lo + 1) l) as Hb. rewrite Forall_forall in Hb. apply Hb in He. cbn in *. lia.
  - rewrite filter_cons_True by lia. cbn [take from_height]. rewrite fmap_cons. cbn [fst]. f_equal.
    rewrite <- (IH (lo + 1) n). replace (lo + Z.of_nat (S n)) with (lo + 1 + Z.of_nat n) by lia. done.
Qed.

End FromHeight.

(** ** What an index represents *)

Section Represents.
Context {T R : Type} `{N : !NoteTree T R, L : !NoteTreeLaws T R}.
Implicit Types (ts : list T) (prev : option T).

Definition same prev (t : T) : bool := match prev with Some p => tree_eqb p t | None => false end.

(** The first tree of each series of equal trees. *)
Fixpoint compress prev (lo : Height) ts : list (Z * T) :=
  match ts with
  | [] => []
  | t :: ts => (if same prev t then [] else [(lo, t)]) ++ compress (Some t) (lo + 1) ts
  end.

(** The index of the trees [ts] at the heights from [lo]. *)
Definition pool_of (lo : Height) ts : PoolTrees T R :=
  mkPool (list_to_set_disj (tree_root <$> ts)) (from_height lo (tree_root <$> ts)) (compress None lo ts).

Lemma tree_eqb_eq (a b : T) : tree_eqb a b = true ↔ a = b.
Proof. unfold tree_eqb. rewrite bool_decide_eq_true. split; [apply (inj _)|by intros ->]. Qed.

Lemma compress_app prev lo ts ks :
  compress prev lo (ts ++ ks) =
  compress prev lo ts ++ compress (match last ts with Some t => Some t | None => prev end)
                           (height_of lo (length ts)) ks.
Proof.
  unfold height_of. revert prev lo. induction ts as [|t ts IH]; intros prev lo.
  - cbn. by rewrite Z.add_0_r.
  - cbn [compress app]. rewrite IH, <- app_assoc. do 2 f_equal. cbn [length].
    replace (lo + 1 + Z.of_nat (length ts)) with (lo + Z.of_nat (S (length ts))) by lia.
    f_equal. destruct ts as [|t' ts]; [done|]. change (last (t :: t' :: ts)) with (last (t' :: ts)).
    by destruct (proj2 (last_is_Some (t' :: ts)) ltac:(done)) as [x ->].
Qed.

Lemma compress_bounds prev lo ts :
  Forall (fun e => lo ≤ e.1 < height_of lo (length ts)) (compress prev lo ts).
Proof.
  unfold height_of. revert prev lo. induction ts as [|t ts IH]; intros prev lo; cbn [compress length]; [constructor|].
  apply Forall_app. split.
  - destruct (same prev t); repeat constructor; cbn; lia.
  - eapply Forall_impl; [apply IH|]. cbn. lia.
Qed.

Lemma compress_ok prev lo ts : bt_ok (compress prev lo ts).
Proof.
  revert prev lo. induction ts as [|t ts IH]; intros prev lo; cbn [compress]; [constructor|].
  destruct (same prev t); [apply IH|]. apply bt_ok_cons. split; [apply IH|].
  eapply Forall_impl; [apply compress_bounds|]. cbn. lia.
Qed.

Lemma compress_filter_le prev lo ts n :
  filter (fun e => e.1 ≤ height_of lo n - 1) (compress prev lo ts) = compress prev lo (take n ts).
Proof.
  rewrite <- (take_drop n ts) at 1. rewrite compress_app, filter_app.
  rewrite (filter_all _ (compress prev lo (take n ts))), (filter_none _ (compress _ _ (drop n ts))).
  - by rewrite app_nil_r.
  - intros e He. pose proof (compress_bounds (match last (take n ts) with Some t => Some t | None => prev end)
      (height_of lo (length (take n ts))) (drop n ts)) as Hb.
    rewrite Forall_forall in Hb. apply Hb in He. unfold height_of in *. rewrite length_take in *.
    destruct (Nat.le_gt_cases n (length ts)); [lia|]. rewrite length_drop in He. lia.
  - intros e He. pose proof (compress_bounds prev lo (take n ts)) as Hb.
    rewrite Forall_forall in Hb. apply Hb in He. unfold height_of in *. rewrite length_take in *. lia.
Qed.

Lemma compress_last lo ts : snd <$> last (compress None lo ts) = last ts.
Proof.
  induction ts as [|t ts IH] using rev_ind; [done|].
  rewrite compress_app, last_snoc. cbn [compress]. rewrite app_nil_r.
  destruct (last ts) as [p|] eqn:Hl; cbn [same].
  - destruct (tree_eqb p t) eqn:He.
    + rewrite app_nil_r, IH. f_equal. by apply tree_eqb_eq.
    + by rewrite last_snoc.
  - by rewrite last_snoc.
Qed.

Lemma tree_at_pool_of lo ts n : tree_at (pool_of lo ts) (height_of lo n - 1) = last (take n ts).
Proof. unfold tree_at, bt_range_le, bt_last. cbn [trees_by_height pool_of]. by rewrite compress_filter_le, compress_last. Qed.

Lemma tree_for_tip_pool_of {E} lo ts t : tree_for_tip (E := E) (pool_of lo (ts ++ [t])) = Ok t.
Proof.
  unfold tree_for_tip, bt_last. cbn [trees_by_height pool_of].
  pose proof (compress_last lo (ts ++ [t])) as Hl. rewrite last_snoc in Hl.
  destruct (last _); cbn in *; by simplify_eq.
Qed.

Lemma compress_keys_lt prev lo ts h : height_of lo (length ts) ≤ h → h ∉ (compress prev lo ts).*1.
Proof.
  intros Hh [[k v] [-> Hin]]%list_elem_of_fmap. cbn in *.
  pose proof (compress_bounds prev lo ts) as Hb. rewrite Forall_forall in Hb. apply Hb in Hin. cbn in *. lia.
Qed.

Lemma bt_get_absent {V} k (m : list (Z * V)) : k ∉ m.*1 → bt_get k m = None.
Proof.
  induction m as [|[k' v] m IH]; intros Hk; cbn; [done|].
  destruct (Z.eqb_spec k k') as [->|]; [set_solver|]. apply IH. set_solver.
Qed.

Lemma anchors_snoc ts t :
  list_to_set_disj (tree_root <$> (ts ++ [t])) =@{gmultiset R} {[+ tree_root t +]} ⊎ list_to_set_disj (tree_root <$> ts).
Proof. 
  rewrite fmap_app, list_to_set_disj_app. change (tree_root <$> [t]) with [tree_root t].
  rewrite list_to_set_disj_cons, list_to_set_disj_nil, (right_id_L ∅ (⊎)). apply (comm_L (⊎)).
Qed.

(** Adding a tree at the next height. *)
Lemma add_pool_of {E} lo ts t :
  0 ≤ lo → height_of lo (length ts) ≤ MAX →
  add_tree_and_anchor (E := E) (pool_of lo ts) (height_of lo (length ts)) t = Ok (pool_of lo (ts ++ [t])).
Proof.
  intros Hlo Hmax. unfold add_tree_and_anchor. set (h := height_of lo (length ts)) in *.
  assert (Hd : (if is_min h then Ok (E := E) true
    else prev ← expect_ok (previous h);
         Ok (match tree_at (pool_of lo ts) prev with
             | Some prev_tree => negb (tree_eqb prev_tree t) | None => true end))
    = Ok (negb (same (last ts) t))).
  { unfold is_min, MIN. destruct (Z.eqb_spec h 0) as [H0|H0].
    - destruct ts; [done|]. unfold h, height_of in H0. cbn in H0. lia.
    - rewrite previous_Ok by (unfold h, height_of in *; lia).
      cbn [expect_ok]. rewrite Ok_bind. unfold h. rewrite tree_at_pool_of, firstn_all. by destruct (last ts). }
  rewrite Hd, Ok_bind. cbn [trees_by_height anchors_by_height anchors pool_of].
  rewrite (bt_get_absent h (compress None lo ts)) by (apply compress_keys_lt; done).
  assert (Hh : h = height_of lo (length (tree_root <$> ts))) by (unfold h; by rewrite length_fmap).
  assert (Hf : bt_get h (from_height lo (tree_root <$> ts)) = None) by (rewrite Hh; apply from_height_fresh).
  assert (Hi : bt_insert h (tree_root t) (from_height lo (tree_root <$> ts))
    = from_height lo (tree_root <$> (ts ++ [t]))) by (rewrite fmap_app, Hh; apply from_height_snoc).
  rewrite Hf. unfold pool_of. rewrite anchors_snoc, compress_app, Hi. fold h.
  replace (match last ts with Some t0 => Some t0 | None => None end) with (last ts) by (by destruct (last ts)).
  cbn [compress]. rewrite app_nil_r.
  destruct (same (last ts) t); cbn [negb]; rewrite Ok_bind; [by rewrite app_nil_r|].
  rewrite bt_insert_last; [done|]. eapply Forall_impl; [apply compress_bounds|]. cbn. fold h. lia.
Qed.

(** Removing the tip. *)
Lemma mset_remove_head {E} (r : R) (rs : list R) :
  mset_remove (E := E) (list_to_set_disj (r :: rs)) r = Ok (list_to_set_disj rs).
Proof. rewrite list_to_set_disj_cons. apply mset_remove_insert. Qed.

Lemma remove_height_last lo ts t :
  remove_height (pool_of lo (ts ++ [t])) (height_of lo (length ts)) = Ok (pool_of lo ts, tree_root t).
Proof.
  unfold remove_height. cbn [anchors anchors_by_height trees_by_height pool_of].
  rewrite fmap_app. change (tree_root <$> [t]) with [tree_root t].
  pose proof (from_height_get_last lo (tree_root <$> ts) (tree_root t)) as Hg.
  pose proof (from_height_remove_last lo (tree_root <$> ts) (tree_root t)) as Hr.
  rewrite length_fmap in Hg, Hr. rewrite Hg, Hr.
  cbn [expect]. rewrite Ok_bind.
  pose proof (anchors_snoc ts t) as Ha. rewrite fmap_app in Ha. change (tree_root <$> [t]) with [tree_root t] in Ha.
  rewrite Ha, mset_remove_insert, Ok_bind. unfold pool_of. do 3 f_equal.
  rewrite compress_app. cbn [compress]. rewrite app_nil_r. destruct (same _ t).
  - rewrite app_nil_r. apply bt_remove_absent, compress_keys_lt. done.
  - apply bt_remove_last, compress_keys_lt. done.
Qed.

(** Nothing above [height] is left in the chain. *)
Definition no_block_above (height : Height) (tip : option Height) : Prop :=
  match tip with Some tip => tip ≤ height | None => True end.

Lemma restore_tree_no_block (self : PoolTrees T R) height tree tip :
  no_block_above height tip → restore_tree self height tree tip = Ok self.
Proof. unfold restore_tree. destruct tip as [tip|]; cbn; [|done]. destruct (Z.ltb_spec height tip); [lia|done]. Qed.

Lemma remove_pool_tip lo ts t tip :
  no_block_above (height_of lo (length ts)) tip →
  remove_tree_and_anchor (pool_of lo (ts ++ [t])) Tip (height_of lo (length ts)) tip = Ok (pool_of lo ts).
Proof.
  intros Htip. unfold remove_tree_and_anchor. cbn [removed_heights remove_heights].
  rewrite remove_height_last, !Ok_bind. by apply restore_tree_no_block.
Qed.

(** Removing the first heights. *)
Definition upto (hi : Height) (m : list (Z * T)) : Prop := Forall (fun e => hi ≤ e.1) m.

Lemma remove_height_first lo (r : R) rs (A B : list (Z * T)) :
  bt_ok A → upto lo A → upto (lo + 1) B →
  ∃ A', remove_height (mkPool (list_to_set_disj (r :: rs)) (from_height lo (r :: rs)) (A ++ B)) lo
        = Ok (mkPool (list_to_set_disj rs) (from_height (lo + 1) rs) (A' ++ B), r) ∧
    bt_ok A' ∧ upto (lo + 1) A' ∧ A' ⊆ A.
Proof.
  intros HA HA' HB. unfold remove_height. cbn [anchors anchors_by_height trees_by_height from_height bt_get bt_remove].
  rewrite Z.eqb_refl. cbn [expect]. rewrite Ok_bind, mset_remove_head, Ok_bind.
  assert (Habs : ∀ m : list (Z * T), upto (lo + 1) m → bt_remove lo m = m).
  { intros m Hm. apply bt_remove_absent. intros [[k v] [-> Hin]]%list_elem_of_fmap.
    unfold upto in Hm. rewrite Forall_forall in Hm. apply Hm in Hin. cbn in *. lia. }
  destruct A as [|[k v] A].
  - exists []. cbn [app]. rewrite Habs by done. split_and!; [done|constructor|constructor|set_solver].
  - apply bt_ok_cons in HA as [HA Hlt]. apply Forall_cons in HA' as [Hk HA']. cbn in Hk.
    destruct (Z.eqb_spec lo k) as [->|Hne].
    + exists A. cbn [app bt_remove]. rewrite Z.eqb_refl. split_and!; [done..| |set_solver].
      eapply Forall_impl; [exact Hlt|]. cbn. lia.
    + exists ((k, v) :: A).
      assert (Hall : upto (lo + 1) ((k, v) :: A)).
      { constructor; [cbn; lia|]. eapply Forall_impl; [exact Hlt|]. cbn. lia. }
      rewrite Habs by (by apply Forall_app). split_and!; [done| |done|done].
      by apply bt_ok_cons.
Qed.

Lemma remove_heights_first lo (rs rs' : list R) (A B : list (Z * T)) :
  bt_ok A → upto lo A → Forall (fun e => e.1 < height_of lo (length rs)) A → upto (height_of lo (length rs)) B →
  remove_heights (mkPool (list_to_set_disj (rs ++ rs')) (from_height lo (rs ++ rs')) (A ++ B))
    (from_height lo rs).*1
  = Ok (mkPool (list_to_set_disj rs') (from_height (height_of lo (length rs)) rs') B).
Proof.
  unfold height_of. revert lo A. induction rs as [|r rs IH]; intros lo A HA Hlo Hhi HB.
  - cbn [length app from_height fmap list_fmap remove_heights] in *. rewrite Z.add_0_r in *. destruct A as [|e A]; [done|].
    apply Forall_cons in Hlo as [Hlo _]. apply Forall_cons in Hhi as [Hhi _]. lia.
  - cbn [app length from_height] in *. rewrite fmap_cons. cbn [fst remove_heights].
    destruct (remove_height_first lo r (rs ++ rs') A B) as (A' & Hr & HA' & Hlo' & Hsub); [done|done| |].
    { eapply Forall_impl; [exact HB|]. cbn. lia. }
    cbn [from_height] in Hr. rewrite Hr, Ok_bind. rewrite (IH (lo + 1) A').
    + do 3 f_equal. lia.
    + done.
    + done.
    + rewrite Forall_forall in Hhi |- *. intros e He%Hsub. apply Hhi in He. lia.
    + eapply Forall_impl; [exact HB|]. cbn. lia.
Qed.

(** The blocks left above the removed heights. *)
Definition tip_above (height : Height) ts' (tip : option Height) : Prop :=
  match ts' with [] => no_block_above height tip | _ => ∃ tip', tip = Some tip' ∧ height < tip' end.

Lemma restore_compressed (anc : gmultiset R) abh p lo ts' tip :
  0 ≤ lo ≤ MAX → tip_above (lo - 1) ts' tip → 0 < lo →
  restore_tree (mkPool anc abh (compress (Some p) lo ts')) (lo - 1) (Some p) tip
  = Ok (mkPool anc abh (compress None lo ts')).
Proof.
  intros Hlo Htip Hpos. destruct ts' as [|t ts']; cbn [tip_above] in Htip; [by apply restore_tree_no_block|].
  destruct Htip as (tip' & -> & Htip). unfold restore_tree. destruct (Z.ltb_spec (lo - 1) tip'); [|lia].
  rewrite next_Ok by lia. cbn [expect_ok]. rewrite Ok_bind, Z.sub_add.
  cbn [trees_by_height anchors anchors_by_height compress same]. destruct (tree_eqb p t) eqn:He.
  - apply tree_eqb_eq in He as ->. cbn [app].
    rewrite bt_get_absent.
    + cbn [expect]. rewrite Ok_bind. do 2 f_equal.
      assert (Hb : Forall (fun e => lo < e.1) (compress (Some t) (lo + 1) ts')).
      { eapply Forall_impl; [apply compress_bounds|]. cbn. lia. }
      destruct (compress (Some t) (lo + 1) ts') as [|[k v] m]; [done|]. cbn.
      apply Forall_cons in Hb as [Hk _]. cbn in Hk. destruct (Z.ltb_spec lo k); [done|lia].
    + intros [[k v] [-> Hin]]%list_elem_of_fmap. cbn in *.
      pose proof (compress_bounds (Some t) (k + 1) ts') as Hb. rewrite Forall_forall in Hb.
      apply Hb in Hin. cbn in *. lia.
  - cbn [app bt_get]. by rewrite Z.eqb_refl.
Qed.

Lemma last_take_app ts ts' : last (take (length ts) (ts ++ ts')) = last ts.
Proof. by rewrite take_app_length. Qed.

Lemma pool_of_app lo ts t ts' :
  let ts0 := ts ++ [t] in
  pool_of lo (ts0 ++ ts') =
  mkPool (list_to_set_disj ((tree_root <$> ts0) ++ (tree_root <$> ts')))
    (from_height lo ((tree_root <$> ts0) ++ (tree_root <$> ts')))
    (compress None lo ts0 ++ compress (Some t) (height_of lo (length ts0)) ts').
Proof.
  intros ts0. assert (Hl : last ts0 = Some t) by apply last_snoc.
  unfold pool_of. by rewrite fmap_app, compress_app, Hl.
Qed.

Lemma removed_heights_root lo ts t ts' :
  let ts0 := ts ++ [t] in
  removed_heights (pool_of lo (ts0 ++ ts')) Root (height_of lo (length ts0) - 1)
  = ((from_height lo (tree_root <$> ts0)).*1, Some t).
Proof.
  intros ts0. assert (Hl : last ts0 = Some t) by apply last_snoc.
  cbn [removed_heights]. rewrite tree_at_pool_of, last_take_app, Hl. f_equal. cbn [anchors_by_height pool_of].
  rewrite from_height_filter_le, fmap_app, take_app_length'; [done|by rewrite length_fmap].
Qed.

Lemma remove_pool_root lo ts t ts' tip :
  let ts0 := ts ++ [t] in
  0 ≤ lo → height_of lo (length ts0) ≤ MAX → tip_above (height_of lo (length ts0) - 1) ts' tip →
  remove_tree_and_anchor (pool_of lo (ts0 ++ ts')) Root (height_of lo (length ts0) - 1) tip
  = Ok (pool_of (height_of lo (length ts0)) ts').
Proof.
  intros ts0 Hlo Hmax Htip. unfold remove_tree_and_anchor. subst ts0.
  rewrite removed_heights_root, pool_of_app, remove_heights_first.
  - rewrite Ok_bind, length_fmap. rewrite restore_compressed; [done|unfold height_of in *; lia|done|].
    unfold height_of. rewrite length_app. cbn. lia.
  - apply compress_ok.
  - eapply Forall_impl; [apply compress_bounds|]. cbn. lia.
  - rewrite length_fmap. eapply Forall_impl; [apply compress_bounds|]. cbn. lia.
  - rewrite length_fmap. eapply Forall_impl; [apply compress_bounds|]. cbn. lia.
Qed.

(** *** Sprout: the trees by anchor *)

Definition anchor_map ts : gmap R T := list_to_map ((fun t => (tree_root t, t)) <$> ts).
Definition sprout_of (lo : Height) ts : SproutTrees T R := mkSprout (pool_of lo ts) (anchor_map ts).

Lemma anchor_map_lookup ts r t : anchor_map ts !! r = Some t ↔ t ∈ ts ∧ tree_root t = r.
Proof.
  unfold anchor_map. induction ts as [|x ts IH]; cbn; [set_solver|].
  rewrite lookup_insert_Some, IH, elem_of_cons. split.
  - intros [[<- ->]|[Hne [? ?]]]; auto.
  - intros [[->|Hin] <-]; [by left|]. destruct (decide (tree_root x = tree_root t)) as [He|He]; [|by right].
    left. split; [done|]. by apply (inj tree_root).
Qed.

Lemma anchor_map_ext ts ts' : (∀ t, t ∈ ts ↔ t ∈ ts') → anchor_map ts = anchor_map ts'.
Proof.
  intros He. apply map_eq. intros r. apply option_eq. intros t. rewrite !anchor_map_lookup. by rewrite He.
Qed.

Lemma add_sprout_of {E} lo ts t :
  0 ≤ lo → height_of lo (length ts) ≤ MAX →
  add_sprout_tree_and_anchor (E := E) (sprout_of lo ts) (height_of lo (length ts)) t = Ok (sprout_of lo (ts ++ [t])).
Proof.
  intros Hlo Hmax. unfold add_sprout_tree_and_anchor. cbn [sprout_pool sprout_of trees_by_anchor].
  rewrite add_pool_of, Ok_bind by done. unfold sprout_of. do 2 f_equal.
  apply (anchor_map_ext (t :: ts)). set_solver.
Qed.

(** Removing one tree of [t :: ts]. *)
Lemma anchor_map_remove t ts :
  (if decide (tree_root t ∈@{gmultiset R} list_to_set_disj (tree_root <$> ts)) then anchor_map (t :: ts)
   else delete (tree_root t) (anchor_map (t :: ts))) = anchor_map ts.
Proof.
  case_decide as Hd; rewrite elem_of_list_to_set_disj, list_elem_of_fmap in Hd.
  - destruct Hd as (t' & He & Hin). apply (inj tree_root) in He as ->. apply anchor_map_ext. set_solver.
  - apply map_eq. intros r. apply option_eq. intros t'.
    rewrite lookup_delete_Some, !anchor_map_lookup, elem_of_cons. split.
    + intros (Hne & [->|Hin] & Hr); [congruence|done].
    + intros (Hin & <-). split; [|auto]. intros He. apply Hd. eauto.
Qed.

Lemma remove_sprout_tip lo ts t tip :
  no_block_above (height_of lo (length ts)) tip →
  remove_sprout_tree_and_anchor (sprout_of lo (ts ++ [t])) Tip (height_of lo (length ts)) tip = Ok (sprout_of lo ts).
Proof.
  intros Htip. unfold remove_sprout_tree_and_anchor. cbn [removed_heights sprout_pool sprout_of remove_sprout_heights].
  rewrite remove_height_last, !Ok_bind. cbn [sprout_pool trees_by_anchor].
  rewrite restore_tree_no_block, Ok_bind by done. unfold sprout_of. do 2 f_equal.
  rewrite (anchor_map_ext (ts ++ [t]) (t :: ts)) by set_solver. apply anchor_map_remove.
Qed.

Lemma remove_sprout_heights_first lo ts ts' (A B : list (Z * T)) :
  bt_ok A → upto lo A → Forall (fun e => e.1 < height_of lo (length ts)) A → upto (height_of lo (length ts)) B →
  remove_sprout_heights
    (mkSprout (mkPool (list_to_set_disj (tree_root <$> (ts ++ ts'))) (from_height lo (tree_root <$> (ts ++ ts')))
                 (A ++ B)) (anchor_map (ts ++ ts')))
    (from_height lo (tree_root <$> ts)).*1
  = Ok (mkSprout (mkPool (list_to_set_disj (tree_root <$> ts'))
                    (from_height (height_of lo (length ts)) (tree_root <$> ts')) B) (anchor_map ts')).
Proof.
  unfold height_of. revert lo A. induction ts as [|t ts IH]; intros lo A HA Hlo Hhi HB.
  - cbn [length app from_height fmap list_fmap remove_sprout_heights] in *. rewrite Z.add_0_r in *.
    destruct A as [|e A]; [done|].
    apply Forall_cons in Hlo as [Hlo _]. apply Forall_cons in Hhi as [Hhi _]. lia.
  - cbn [app length] in *. rewrite !(fmap_cons tree_root). cbn [from_height]. rewrite fmap_cons.
    cbn [fst remove_sprout_heights sprout_pool trees_by_anchor].
    destruct (remove_height_first lo (tree_root t) (tree_root <$> (ts ++ ts')) A B)
      as (A' & Hr & HA' & Hlo' & Hsub); [done|done| |].
    { eapply Forall_impl; [exact HB|]. cbn. lia. }
    cbn [from_height] in Hr. rewrite Hr, Ok_bind. cbn [anchors].
    rewrite anchor_map_remove, (IH (lo + 1) A').
    + do 4 f_equal. lia.
    + done.
    + done.
    + rewrite Forall_forall in Hhi |- *. intros e He%Hsub. apply Hhi in He. lia.
    + eapply Forall_impl; [exact HB|]. cbn. lia.
Qed.

Lemma remove_sprout_root lo ts t ts' tip :
  let ts0 := ts ++ [t] in
  0 ≤ lo → height_of lo (length ts0) ≤ MAX → tip_above (height_of lo (length ts0) - 1) ts' tip →
  remove_sprout_tree_and_anchor (sprout_of lo (ts0 ++ ts')) Root (height_of lo (length ts0) - 1) tip
  = Ok (sprout_of (height_of lo (length ts0)) ts').
Proof.
  intros ts0 Hlo Hmax Htip. unfold remove_sprout_tree_and_anchor. subst ts0. cbn [sprout_pool sprout_of].
  rewrite removed_heights_root. unfold sprout_of. rewrite pool_of_app, <- fmap_app, remove_sprout_heights_first.
  - rewrite Ok_bind. cbn [sprout_pool trees_by_anchor].
    rewrite restore_compressed, Ok_bind; [done|unfold height_of in *; lia|done|].
    unfold height_of. rewrite length_app. cbn. lia.
  - apply compress_ok.
  - eapply Forall_impl; [apply compress_bounds|]. cbn. lia.
  - eapply Forall_impl; [apply compress_bounds|]. cbn. lia.
  - eapply Forall_impl; [apply compress_bounds|]. cbn. lia.
Qed.

End Represents.

(** History trees at consecutive heights. *)
Lemma add_history_of {E A} lo (l : list A) x :
  add_history_tree (E := E) (from_height lo l) (height_of lo (length l)) x = Ok (from_height lo (l ++ [x])).
Proof. unfold add_history_tree. by rewrite from_height_fresh, from_height_snoc. Qed.

Lemma remove_history_tip {A} lo (l : list A) x :
  remove_history_tree (from_height lo (l ++ [x])) Tip (height_of lo (length l)) = Ok (from_height lo l).
Proof. cbn [remove_history_tree]. by rewrite from_height_get_last, from_height_remove_last. Qed.

Lemma remove_history_root {A} lo (l k : list A) :
  remove_history_tree (from_height lo (l ++ k)) Root (height_of lo (length l) - 1)
  = Ok (from_height (height_of lo (length l)) k).
Proof. cbn [remove_history_tree]. by rewrite from_height_filter_gt, drop_app_length. Qed.

Lemma history_for_tip_of {E A} lo (l : list A) x : history_for_tip (E := E) (from_height lo (l ++ [x])) = Ok x.
Proof.
  unfold history_for_tip. pose proof (from_height_last lo l x) as Hl.
  destruct (bt_last _); cbn in *; by simplify_eq.
Qed.
