(* ===== verification/Ledger.v ===== *)
(** * Transactions in a non-finalized chain

    The indexes of [zebra-state/src/service/non_finalized_state/chain.rs] that
    follow the transactions of a chain, and the [UpdateWith] implementations
    that add the transactions of a block to them and remove them again:
    transaction locations, created and spent transparent outputs, the transfers
    of each address, and the nullifiers of each shielded pool (with
    [zebra-state/src/service/check/nullifier.rs] and the errors of
    [zebra-state/src/error.rs]).

    The [indexer] feature, which [zebrad] enables, is on: spent outputs and
    nullifiers map to the hash of the spending transaction. The [cfg!(test)]
    exception for missing spent outputs is off. *)

From S2P Require Import Prelude Height Difficulty Amount ValueBalance Network Transaction BlockHeader.
From S2P Require Import Reversible Transfers.

(** ** Errors *)

(** [sprout::tree::NoteCommitmentTreeError] and the like: the tree is full. *)
Inductive NoteCommitmentTreeError := SproutFullTree | SaplingFullTree | OrchardFullTree.
(** [HistoryTreeError]: the causes are errors of [zcash_history] and of [std::io]. *)
Inductive HistoryTreeError := HistoryInnerError | HistoryIOError.

(** [ValidateContextError]. *)
Inductive ValidateContextError :=
| BlockPreviouslyInvalidated (block_hash : Hash)
| NotReadyToBeCommitted
| OrphanedBlock (candidate_height finalized_tip_height : Height)
| NonSequentialBlock (candidate_height parent_height : Height)
| TimeTooEarly (candidate_time median_time_past : Z)
| TimeTooLate (candidate_time block_time_max : Z)
| InvalidDifficultyThreshold (difficulty_threshold expected_difficulty : CompactDifficulty)
| DuplicateTransparentSpend (outpoint : OutPoint) (in_same_block : bool)
| MissingTransparentOutput (outpoint : OutPoint)
| EarlyTransparentSpend (outpoint : OutPoint)
| UnshieldedTransparentCoinbaseSpend (outpoint : OutPoint)
| ImmatureTransparentCoinbaseSpend (outpoint : OutPoint)
    (spend_height min_spend_height created_height : Height)
| DuplicateSproutNullifier (nullifier : Hash) (in_finalized_state : bool)
| DuplicateSaplingNullifier (nullifier : Hash) (in_finalized_state : bool)
| DuplicateOrchardNullifier (nullifier : Hash) (in_finalized_state : bool)
| NegativeRemainingTransactionValue (amount_error : Amount.Error) (height : Height)
    (tx_index_in_block : Z) (transaction_hash : Hash)
| CalculateRemainingTransactionValue (amount_error : Amount.Error) (height : Height)
    (tx_index_in_block : Z) (transaction_hash : Hash)
| CalculateTransactionValueBalances (value_balance_error : ValueBalanceError) (height : Height)
    (tx_index_in_block : Z) (transaction_hash : Hash)
| CalculateBlockChainValueChange (value_balance_error : ValueBalanceError) (height : Height)
    (block_hash : Hash) (transaction_count spent_utxo_count : Z)
| AddValuePool (value_balance_error : ValueBalanceError) (chain_value_pools : ValueBalance NonNegative)
    (block_value_pool_change : ValueBalance NegativeAllowed) (height : option Height)
| TreeError (error : NoteCommitmentTreeError)
| HistoryError (error : HistoryTreeError)
| InvalidBlockCommitment (error : CommitmentError)
| UnknownSproutAnchor (anchor : Hash) (height : option Height) (tx_index_in_block : option Z)
    (transaction_hash : Hash)
| UnknownSaplingAnchor (anchor : Hash) (height : option Height) (tx_index_in_block : option Z)
    (transaction_hash : Hash)
| UnknownOrchardAnchor (anchor : Hash) (height : option Height) (tx_index_in_block : option Z)
    (transaction_hash : Hash).

(** The pools of nullifiers, and [DuplicateNullifierError]. *)
Inductive Pool := Sprout | Sapling | Orchard.

Definition duplicate_nullifier_error (pool : Pool) (nullifier : Hash) (in_finalized_state : bool) :
    ValidateContextError :=
  match pool with
  | Sprout => DuplicateSproutNullifier nullifier in_finalized_state
  | Sapling => DuplicateSaplingNullifier nullifier in_finalized_state
  | Orchard => DuplicateOrchardNullifier nullifier in_finalized_state
  end.

(** ** Nullifier sets *)

Definition NullifierMap : Type := gmap Hash Hash.

(** One step of [add_to_non_finalized_chain_unique] and of
    [remove_from_non_finalized_chain]. *)
Definition insert_nullifier (pool : Pool) (m : NullifierMap) (kv : Hash * Hash) :
    Res ValidateContextError NullifierMap :=
  insert_new (fun nullifier => Err (duplicate_nullifier_error pool nullifier false)) m kv.

Definition add_to_non_finalized_chain_unique (pool : Pool) (chain_nullifiers : NullifierMap)
    (shielded_data_nullifiers : list Hash) (revealing_tx_id : Hash) : Res ValidateContextError NullifierMap :=
  foldM (fun m nullifier => insert_nullifier pool m (nullifier, revealing_tx_id))
        chain_nullifiers shielded_data_nullifiers.
Definition remove_from_non_finalized_chain (chain_nullifiers : NullifierMap)
    (shielded_data_nullifiers : list Hash) : Run NullifierMap :=
  foldM remove_present chain_nullifiers shielded_data_nullifiers.

(** [no_duplicates_in_finalized_chain], one pool: [contains] is a database lookup. *)
Fixpoint no_duplicates_in_finalized (pool : Pool) (contains : Hash → bool) (nullifiers : list Hash) :
    Res ValidateContextError unit :=
  match nullifiers with
  | [] => Ok tt
  | nullifier :: nullifiers =>
      if contains nullifier then Err (duplicate_nullifier_error pool nullifier true)
      else no_duplicates_in_finalized pool contains nullifiers
  end.
Definition no_duplicates_in_finalized_chain (block : Block)
    (contains_sprout contains_sapling contains_orchard : Hash → bool) : Res ValidateContextError unit :=
  _ ← no_duplicates_in_finalized Sprout contains_sprout (block_sprout_nullifiers block);
  _ ← no_duplicates_in_finalized Sapling contains_sapling (block_sapling_nullifiers block);
  no_duplicates_in_finalized Orchard contains_orchard (block_orchard_nullifiers block).

(** [find_duplicate_nullifier]. *)
Fixpoint find_duplicate_nullifier (pool : Pool) (revealed_nullifiers : list Hash)
    (finalized_chain_contains : Hash → bool) (non_finalized_chain_contains : option (Hash → bool)) :
    Res ValidateContextError unit :=
  match revealed_nullifiers with
  | [] => Ok tt
  | nullifier :: rest =>
      if default false ((fun f => f nullifier) <$> non_finalized_chain_contains)
      then Err (duplicate_nullifier_error pool nullifier false)
      else if finalized_chain_contains nullifier
      then Err (duplicate_nullifier_error pool nullifier true)
      else find_duplicate_nullifier pool rest finalized_chain_contains non_finalized_chain_contains
  end.

(** ** The indexes *)

Record Ledger := mkLedger {
  tx_loc_by_hash : gmap Hash TransactionLocation;
  created_utxos : gmap OutPoint OrderedUtxo;
  spent_utxos : gmap OutPoint Hash;
  sprout_nullifier_map : NullifierMap;
  sapling_nullifier_map : NullifierMap;
  orchard_nullifier_map : NullifierMap;
  partial_transparent_transfers : gmap Address TransparentTransfers;
}.

Definition ledger_new : Ledger := mkLedger ∅ ∅ ∅ ∅ ∅ ∅ ∅.

(** [tx_no_duplicates_in_chain]. *)
Definition tx_no_duplicates_in_chain (contains_sprout contains_sapling contains_orchard : Hash → bool)
    (non_finalized_chain : option Ledger) (transaction : Transaction) : Res ValidateContextError unit :=
  let contains (m : Ledger → NullifierMap) :=
    (fun chain nullifier => bool_decide (is_Some (m chain !! nullifier))) <$> non_finalized_chain in
  _ ← find_duplicate_nullifier Sprout (sprout_nullifiers transaction) contains_sprout
        (contains sprout_nullifier_map);
  _ ← find_duplicate_nullifier Sapling (sapling_nullifiers transaction) contains_sapling
        (contains sapling_nullifier_map);
  find_duplicate_nullifier Orchard (orchard_nullifiers transaction) contains_orchard
    (contains orchard_nullifier_map).

(** The updates of a single index: each inserts an entry that must be absent,
    but for the transfers of an address. A duplicate location, output or spend
    panics; a duplicate nullifier is an error. *)
Inductive Update :=
| UTxLoc (entry : Hash * TransactionLocation)
| UCreated (entry : OutPoint * OrderedUtxo)
| USpent (entry : OutPoint * Hash)
| UNullifier (pool : Pool) (entry : Hash * Hash)
| UTransfer (transfer : Address * Transfer).

Definition apply (l : Ledger) (u : Update) : Res ValidateContextError Ledger :=
  let '(mkLedger txs cs ss sp sa oc tr) := l in
  match u with
  | UTxLoc e => txs ← insert_new (fun _ => Panic) txs e; Ok (mkLedger txs cs ss sp sa oc tr)
  | UCreated e => cs ← insert_new (fun _ => Panic) cs e; Ok (mkLedger txs cs ss sp sa oc tr)
  | USpent e => ss ← insert_new (fun _ => Panic) ss e; Ok (mkLedger txs cs ss sp sa oc tr)
  | UNullifier Sprout e => sp ← insert_nullifier Sprout sp e; Ok (mkLedger txs cs ss sp sa oc tr)
  | UNullifier Sapling e => sa ← insert_nullifier Sapling sa e; Ok (mkLedger txs cs ss sp sa oc tr)
  | UNullifier Orchard e => oc ← insert_nullifier Orchard oc e; Ok (mkLedger txs cs ss sp sa oc tr)
  | UTransfer t => tr ← update_transfers tr t; Ok (mkLedger txs cs ss sp sa oc tr)
  end.
Definition revert (l : Ledger) (u : Update) : Run Ledger :=
  let '(mkLedger txs cs ss sp sa oc tr) := l in
  match u with
  | UTxLoc e => txs ← remove_present txs e.1; Ok (mkLedger txs cs ss sp sa oc tr)
  | UCreated e => cs ← remove_present cs e.1; Ok (mkLedger txs cs ss sp sa oc tr)
  | USpent e => ss ← remove_present ss e.1; Ok (mkLedger txs cs ss sp sa oc tr)
  | UNullifier Sprout e => sp ← remove_present sp e.1; Ok (mkLedger txs cs ss sp sa oc tr)
  | UNullifier Sapling e => sa ← remove_present sa e.1; Ok (mkLedger txs cs ss sp sa oc tr)
  | UNullifier Orchard e => oc ← remove_present oc e.1; Ok (mkLedger txs cs ss sp sa oc tr)
  | UTransfer t => tr ← revert_transfers tr t; Ok (mkLedger txs cs ss sp sa oc tr)
  end.

(** ** Addresses of outputs *)

(** [zcash_transparent::address::TransparentAddress]. *)
Inductive TransparentAddress := PublicKeyHash (pkh : list Z) | ScriptHash (sh : list Z).

(** The script parser of the [zcash_transparent] library:
    [TxOut::try_from(output).ok()?.recipient_address()]. *)
Class ScriptParser := { recipient_address : Output → option TransparentAddress }.

Definition t_addr_kind (self : Network) : NetworkKind :=
  match self with Mainnet => MainnetKind | Testnet _ => TestnetKind end.

Definition address `{!ScriptParser} (self : Output) (net : Network) : option Address :=
  match recipient_address self with
  | Some (PublicKeyHash pkh) => Some (PayToPublicKeyHash (t_addr_kind net) pkh)
  | Some (ScriptHash sh) => Some (PayToScriptHash (t_addr_kind net) sh)
  | None => None
  end.

(** ** Adding and removing the transactions of a block *)

Section UpdateWith.
Context `{SP : !ScriptParser} (network : Network).

(** *** Created outputs *)

Definition update_created_output (creating_tx_hash : Hash) (block_created_outputs : gmap OutPoint OrderedUtxo)
    (self : Ledger) (output_index : nat) : Res ValidateContextError Ledger :=
  outpoint ← outpoint_from_usize creating_tx_hash (Z.of_nat output_index);
  created_utxo ← expect (block_created_outputs !! outpoint);
  self ← apply self (UCreated (outpoint, created_utxo));
  match address (output (utxo created_utxo)) network with
  | Some receiving_address => apply self (UTransfer (receiving_address, Created outpoint created_utxo))
  | None => Ok self
  end.
Definition update_outputs (self : Ledger) (created_outputs : list Output) (creating_tx_hash : Hash)
    (block_created_outputs : gmap OutPoint OrderedUtxo) : Res ValidateContextError Ledger :=
  foldM (update_created_output creating_tx_hash block_created_outputs) self (seq 0 (length created_outputs)).

Definition revert_created_output (creating_tx_hash : Hash) (block_created_outputs : gmap OutPoint OrderedUtxo)
    (self : Ledger) (output_index : nat) : Run Ledger :=
  outpoint ← outpoint_from_usize creating_tx_hash (Z.of_nat output_index);
  created_utxo ← expect (block_created_outputs !! outpoint);
  self ← revert self (UCreated (outpoint, created_utxo));
  match address (output (utxo created_utxo)) network with
  | Some receiving_address => revert self (UTransfer (receiving_address, Created outpoint created_utxo))
  | None => Ok self
  end.
Definition revert_outputs (self : Ledger) (created_outputs : list Output) (creating_tx_hash : Hash)
    (block_created_outputs : gmap OutPoint OrderedUtxo) : Run Ledger :=
  foldM (revert_created_output creating_tx_hash block_created_outputs) self (seq 0 (length created_outputs)).

(** *** Transparent inputs *)

Definition update_input (spending_tx_hash : Hash) (spent_outputs : gmap OutPoint OrderedUtxo)
    (self : Ledger) (spending_input : Input) : Res ValidateContextError Ledger :=
  match outpoint spending_input with
  | None => Ok self
  | Some spent_outpoint =>
      self ← apply self (USpent (spent_outpoint, spending_tx_hash));
      spent_output ← expect (spent_outputs !! spent_outpoint);
      match address (output (utxo spent_output)) network with
      | Some spending_address =>
          apply self (UTransfer (spending_address, Spent spending_input spending_tx_hash spent_output))
      | None => Ok self
      end
  end.
Definition update_inputs (self : Ledger) (spending_inputs : list Input) (spending_tx_hash : Hash)
    (spent_outputs : gmap OutPoint OrderedUtxo) : Res ValidateContextError Ledger :=
  foldM (update_input spending_tx_hash spent_outputs) self spending_inputs.

Definition revert_input (spending_tx_hash : Hash) (spent_outputs : gmap OutPoint OrderedUtxo)
    (self : Ledger) (spending_input : Input) : Run Ledger :=
  match outpoint spending_input with
  | None => Ok self
  | Some spent_outpoint =>
      self ← revert self (USpent (spent_outpoint, spending_tx_hash));
      spent_output ← expect (spent_outputs !! spent_outpoint);
      match address (output (utxo spent_output)) network with
      | Some receiving_address =>
          revert self (UTransfer (receiving_address, Spent spending_input spending_tx_hash spent_output))
      | None => Ok self
      end
  end.
Definition revert_inputs (self : Ledger) (spending_inputs : list Input) (spending_tx_hash : Hash)
    (spent_outputs : gmap OutPoint OrderedUtxo) : Run Ledger :=
  foldM (revert_input spending_tx_hash spent_outputs) self spending_inputs.

(** *** Shielded data

    [add_to_non_finalized_chain_unique] and [remove_from_non_finalized_chain] on
    the nullifiers of a pool. *)

Definition update_nullifiers (pool : Pool) (self : Ledger) (nullifiers : list Hash) (revealing_tx_id : Hash) :
    Res ValidateContextError Ledger :=
  foldM (fun self nullifier => apply self (UNullifier pool (nullifier, revealing_tx_id))) self nullifiers.
Definition revert_nullifiers (pool : Pool) (self : Ledger) (nullifiers : list Hash) (revealing_tx_id : Hash) :
    Run Ledger :=
  foldM (fun self nullifier => revert self (UNullifier pool (nullifier, revealing_tx_id))) self nullifiers.

Definition update_joinsplit (self : Ledger) (joinsplit_data : option JoinSplitData) (revealing_tx_id : Hash) :
    Res ValidateContextError Ledger :=
  match joinsplit_data with
  | Some data => update_nullifiers Sprout self (joinsplit_data_nullifiers data) revealing_tx_id
  | None => Ok self
  end.
Definition revert_joinsplit (self : Ledger) (joinsplit_data : option JoinSplitData) (revealing_tx_id : Hash) :
    Run Ledger :=
  match joinsplit_data with
  | Some data => revert_nullifiers Sprout self (joinsplit_data_nullifiers data) revealing_tx_id
  | None => Ok self
  end.

Definition update_sapling {Shared PerSpend} (self : Ledger)
    (sapling_shielded_data : option (SaplingShieldedData Shared PerSpend)) (revealing_tx_id : Hash) :
    Res ValidateContextError Ledger :=
  match sapling_shielded_data with
  | Some data => update_nullifiers Sapling self (sapling_data_nullifiers data) revealing_tx_id
  | None => Ok self
  end.
Definition revert_sapling {Shared PerSpend} (self : Ledger)
    (sapling_shielded_data : option (SaplingShieldedData Shared PerSpend)) (revealing_tx_id : Hash) : Run Ledger :=
  match sapling_shielded_data with
  | Some data => revert_nullifiers Sapling self (sapling_data_nullifiers data) revealing_tx_id
  | None => Ok self
  end.

Definition update_orchard (self : Ledger) (orchard_shielded_data : option OrchardShieldedData)
    (revealing_tx_id : Hash) : Res ValidateContextError Ledger :=
  match orchard_shielded_data with
  | Some data => update_nullifiers Orchard self (orchard_data_nullifiers data) revealing_tx_id
  | None => Ok self
  end.
Definition revert_orchard (self : Ledger) (orchard_shielded_data : option OrchardShieldedData)
    (revealing_tx_id : Hash) : Run Ledger :=
  match orchard_shielded_data with
  | Some data => revert_nullifiers Orchard self (orchard_data_nullifiers data) revealing_tx_id
  | None => Ok self
  end.

(** *** Transactions *)

(** The destructured transaction: versions before 4 are unreachable. *)
Definition transaction_parts {E} (transaction : Transaction) :
    Res E (list Input * list Output * option JoinSplitData
           * option (SaplingShieldedData FieldNotPresent Hash)
           * option (SaplingShieldedData Hash FieldNotPresent) * option OrchardShieldedData) :=
  match transaction with
  | V4 inputs outputs _ _ joinsplit_data sapling_shielded_data =>
      Ok (inputs, outputs, joinsplit_data, sapling_shielded_data, None, None)
  | V5 _ _ _ inputs outputs sapling_shielded_data orchard_shielded_data =>
      Ok (inputs, outputs, None, None, sapling_shielded_data, orchard_shielded_data)
  | V1 _ _ _ | V2 _ _ _ _ | V3 _ _ _ _ _ => Panic
  end.

(** The blocks a chain is made of, [ContextuallyVerifiedBlock]. *)
Record ContextuallyVerifiedBlock := mkContextual {
  cv_block : Block;
  cv_hash : Hash;
  cv_height : Height;
  cv_new_outputs : gmap OutPoint OrderedUtxo;
  cv_spent_outputs : gmap OutPoint OrderedUtxo;
  cv_transaction_hashes : list Hash;
  cv_chain_value_pool_change : ValueBalance NegativeAllowed;
}.

(** The body of the loop of [update_chain_tip_with_block_except_trees]. *)
Definition update_transaction (b : ContextuallyVerifiedBlock) (self : Ledger)
    (entry : nat * (Transaction * Hash)) : Res ValidateContextError Ledger :=
  let '(transaction_index, (transaction, transaction_hash)) := entry in
  '(inputs, outputs, joinsplit_data, per_spend_anchor, shared_anchor, orchard_shielded_data) ←
    transaction_parts transaction;
  transaction_location ← tx_loc_from_usize (cv_height b) (Z.of_nat transaction_index);
  self ← apply self (UTxLoc (transaction_hash, transaction_location));
  self ← update_outputs self outputs transaction_hash (cv_new_outputs b);
  self ← update_inputs self inputs transaction_hash (cv_spent_outputs b);
  self ← update_joinsplit self joinsplit_data transaction_hash;
  self ← update_sapling self per_spend_anchor transaction_hash;
  self ← update_sapling self shared_anchor transaction_hash;
  update_orchard self orchard_shielded_data transaction_hash.

(** The body of the loop of [revert_chain_with] on a block. *)
Definition revert_transaction (b : ContextuallyVerifiedBlock) (self : Ledger)
    (entry : Transaction * Hash) : Run Ledger :=
  let '(transaction, transaction_hash) := entry in
  '(inputs, outputs, joinsplit_data, per_spend_anchor, shared_anchor, orchard_shielded_data) ←
    transaction_parts transaction;
  self ← revert_outputs self outputs transaction_hash (cv_new_outputs b);
  self ← revert_inputs self inputs transaction_hash (cv_spent_outputs b);
  self ← (let '(mkLedger txs cs ss sp sa oc tr) := self in
          txs ← remove_present txs transaction_hash; Ok (mkLedger txs cs ss sp sa oc tr));
  self ← revert_joinsplit self joinsplit_data transaction_hash;
  self ← revert_sapling self per_spend_anchor transaction_hash;
  self ← revert_sapling self shared_anchor transaction_hash;
  revert_orchard self orchard_shielded_data transaction_hash.

Definition update_transactions (b : ContextuallyVerifiedBlock) (self : Ledger) : Res ValidateContextError Ledger :=
  foldM (update_transaction b) self (imap pair (zip (transactions (cv_block b)) (cv_transaction_hashes b))).
Definition revert_transactions (b : ContextuallyVerifiedBlock) (self : Ledger) : Run Ledger :=
  foldM (revert_transaction b) self (zip (transactions (cv_block b)) (cv_transaction_hashes b)).

End UpdateWith.

(** [unspent_utxos] and [created_utxo]. *)
Definition unspent_utxos (self : Ledger) : gmap OutPoint OrderedUtxo :=
  filter (fun e => spent_utxos self !! e.1 = None) (created_utxos self).
Definition created_utxo (self : Ledger) (outpoint : OutPoint) : option Utxo :=
  utxo <$> created_utxos self !! outpoint.

(** ** The updates can be undone *)

Abbreviation LedgerTuple :=
  (gmap Hash TransactionLocation * (gmap OutPoint OrderedUtxo * (gmap OutPoint Hash *
   (NullifierMap * (NullifierMap * (NullifierMap * gmap Address TransparentTransfers))))))%type.

Definition to_tuple (l : Ledger) : LedgerTuple :=
  (tx_loc_by_hash l, (created_utxos l, (spent_utxos l, (sprout_nullifier_map l,
   (sapling_nullifier_map l, (orchard_nullifier_map l, partial_transparent_transfers l)))))).
Definition of_tuple (t : LedgerTuple) : Ledger :=
  let '(txs, (cs, (ss, (sp, (sa, (oc, tr)))))) := t in mkLedger txs cs ss sp sa oc tr.

Definition inject (u : Update) :=
  match u with
  | UTxLoc e => inl e
  | UCreated e => inr (inl e)
  | USpent e => inr (inr (inl e))
  | UNullifier Sprout e => inr (inr (inr (inl e)))
  | UNullifier Sapling e => inr (inr (inr (inr (inl e))))
  | UNullifier Orchard e => inr (inr (inr (inr (inr (inl e)))))
  | UTransfer t => inr (inr (inr (inr (inr (inr t)))))
  end.

Definition transfers_in (us : list Update) : list (Address * Transfer) :=
  omap (fun u => match u with UTransfer t => Some t | _ => None end) us.
(** The transfers among the updates keep the balances in range. *)
Definition ledger_adm (l : Ledger) (us : list Update) : Prop :=
  transfers_adm (partial_transparent_transfers l) (transfers_in us).

Abbreviation TransfersMap := (gmap Address TransparentTransfers).
Definition tuple_apply (updates : TransfersMap → Address * Transfer → Res ValidateContextError TransfersMap) :
    LedgerTuple → _ → Res ValidateContextError LedgerTuple :=
  pair_apply (insert_new (fun _ => Panic)) (pair_apply (insert_new (fun _ => Panic))
    (pair_apply (insert_new (fun _ => Panic)) (pair_apply (insert_nullifier Sprout)
      (pair_apply (insert_nullifier Sapling) (pair_apply (insert_nullifier Orchard) updates))))).
Definition tuple_revert (reverts : TransfersMap → Address * Transfer → Run TransfersMap) : LedgerTuple → _ → Run LedgerTuple :=
  let remove {K A} `{Countable K} (m : gmap K A) (kv : K * A) := remove_present m kv.1 in
  pair_apply remove (pair_apply remove (pair_apply remove (pair_apply remove
    (pair_apply remove (pair_apply remove reverts))))).

#[export] Instance insert_nullifier_reversible pool :
  Reversible (insert_nullifier pool) (fun m kv => remove_present m kv.1) (fun _ _ => True).
Proof. unfold insert_nullifier. apply insert_new_reversible. Qed.

(** The ledger for any index of transfers that can be undone. *)
Lemma ledger_reversible_with updates reverts adm ap rv :
  Reversible updates reverts adm →
  (∀ l u, ap l u = of_tuple <$> tuple_apply updates (to_tuple l) (inject u)) →
  (∀ l u, rv l u = of_tuple <$> tuple_revert reverts (to_tuple l) (inject u)) →
  Reversible ap rv (fun l us => adm (partial_transparent_transfers l) (transfers_in us)).
Proof.
  intros R Hap Hrv.
  assert (Hr : Reversible (tuple_apply updates) (tuple_revert reverts) _) by (unfold tuple_apply, tuple_revert; apply _).
  eapply (reversible_iso to_tuple of_tuple inject ap rv) in Hr; [|by intros []|by intros (?&?&?&?&?&?&?)|done|done].
  assert (Hadm : ∀ l us, pair_adm (fun _ _ => True) (pair_adm (fun _ _ => True) (pair_adm (fun _ _ => True)
    (pair_adm (fun _ _ => True) (pair_adm (fun _ _ => True) (pair_adm (fun _ _ => True) adm)))))
    (to_tuple l) (inject <$> us) ↔ adm (partial_transparent_transfers l) (transfers_in us)).
  { intros l us. unfold pair_adm, to_tuple. cbn [fst snd].
    assert (He : rights (rights (rights (rights (rights (rights (inject <$> us)))))) = transfers_in us).
    { unfold rights, transfers_in. induction us as [|u us IH]; [done|].
      rewrite fmap_cons. destruct u as [e|e|e|[] e|t]; cbn; rewrite <- IH; done. }
    rewrite He. tauto. }
  destruct Hr as [H1 H2 H3 H4 H5]. split.
  - intros s l l' Hp. rewrite <- !Hadm. by apply H1.
  - intros s o l. rewrite <- !Hadm. apply H2.
  - intros s o l s'. rewrite <- !Hadm. apply H3.
  - intros s o l s'. rewrite <- !Hadm. apply H4.
  - intros s a b l s1 s2. rewrite <- !Hadm. apply H5.
Qed.

#[export] Instance ledger_reversible : Reversible apply revert ledger_adm.
Proof.
  apply (ledger_reversible_with update_transfers revert_transfers transfers_adm); [apply _|..].
  - intros [txs cs ss sp sa oc tr] [e|e|e|[] e|t]; cbn.
    all: first [destruct (insert_new _ _ e)|destruct (insert_nullifier _ _ e)|destruct (update_transfers _ t)]; done.
  - intros [txs cs ss sp sa oc tr] [e|e|e|[] e|t]; cbn.
    all: first [destruct (remove_present _ e.1)|destruct (revert_transfers _ t)]; done.
Qed.

(** *** The ledger without the range of balances *)

(** The ledger whose balances are integers of any size. It needs no bound on the
    values moved: only that no address has empty transfers. *)
Definition ideal_apply (l : Ledger) (u : Update) : Res ValidateContextError Ledger :=
  of_tuple <$> tuple_apply ideal_update_transfers (to_tuple l) (inject u).
Definition ideal_undo (l : Ledger) (u : Update) : Run Ledger :=
  of_tuple <$> tuple_revert ideal_revert_transfers (to_tuple l) (inject u).
Definition ideal_adm (l : Ledger) (us : list Update) : Prop :=
  ideal_transfers_adm (partial_transparent_transfers l) (transfers_in us).

#[export] Instance ideal_ledger_reversible : Reversible ideal_apply ideal_undo ideal_adm.
Proof. by apply (ledger_reversible_with ideal_update_transfers ideal_revert_transfers ideal_transfers_adm); [apply _|..]. Qed.

Lemma ideal_adm_new us : ideal_adm ledger_new us.
Proof. split; [done|]. apply map_Forall_empty. Qed.

(** What an update or its inverse computes is the ideal ledger. *)
Lemma apply_ideal l u l' : apply l u = Ok l' → ideal_apply l u = Ok l'.
Proof.
  unfold ideal_apply. destruct l as [txs cs ss sp sa oc tr], u as [e|e|e|[] e|t]; cbn; intros (x & Hx & [= <-])%bind_Ok.
  all: try (apply update_transfers_ideal in Hx); by rewrite Hx.
Qed.
Lemma revert_ideal l u l' : revert l u = Ok l' → ideal_undo l u = Ok l'.
Proof.
  unfold ideal_undo. destruct l as [txs cs ss sp sa oc tr], u as [e|e|e|[] e|t]; cbn; intros (x & Hx & [= <-])%bind_Ok.
  all: try (apply revert_transfers_ideal in Hx); by rewrite Hx.
Qed.
Lemma fold_ideal {E} (f g : Ledger → Update → Res E Ledger) l us l' :
  (∀ l u l', f l u = Ok l' → g l u = Ok l') → foldM f l us = Ok l' → foldM g l us = Ok l'.
Proof.
  intros Hfg. revert l. induction us as [|u us IH]; intros l; cbn [foldM]; [done|].
  intros (l1 & Hl1 & H)%bind_Ok. rewrite (Hfg _ _ _ Hl1), Ok_bind. by apply IH.
Qed.

(** Within the bounds, the code computes the ideal ledger. *)
Lemma ideal_apply_bounded l us l' : ledger_adm l us → foldM ideal_apply l us = Ok l' → foldM apply l us = Ok l'.
Proof.
  revert l. induction us as [|u us IH]; intros l Ha; cbn [foldM]; [done|]. intros (l1 & H1 & H)%bind_Ok.
  assert (H1' : apply l u = Ok l1).
  { revert H1. unfold ideal_apply, ledger_adm in *. destruct l as [txs cs ss sp sa oc tr], u as [e|e|e|[] e|t]; cbn in Ha |- *.
    all: intros (x & (y & Hy & [= <-])%bind_Ok & ->)%fmap_Ok. all: try by rewrite Hy.
    all: try (repeat (apply bind_Ok in Hy as (? & Hy & [= <-])); by rewrite Hy).
    do 5 (apply bind_Ok in Hy as (? & Hy & [= <-])). apply (ideal_transfers_bounded _ _ _ _ Ha) in Hy. by rewrite Hy. }
  rewrite H1', Ok_bind. apply IH; [|done]. by eapply (adm_step (apply := apply)).
Qed.

(** ** The updates a block makes *)

Lemma bind_ret {E A} (r : Res E A) : (r ≫= fun a => Ok a) = r.
Proof. by destruct r. Qed.

Lemma bind_ext {E A B} (r : Res E A) (f g : A → Res E B) : (∀ a, f a = g a) → r ≫= f = r ≫= g.
Proof. intros Hfg. destruct r; cbn; auto. Qed.

(** Loops whose body makes a list of updates. *)
Lemma foldM_collect {E S O I} (f : S → O → Res E S) (g : S → I → Res E S) (ops : I → Run (list O)) s l s' :
  (∀ s i, g s i = us ← lift (ops i); foldM f s us) →
  foldM g s l = Ok s' ↔ ∃ uss, collect (ops <$> l) = Ok uss ∧ foldM f s (concat uss) = Ok s'.
Proof.
  intros Hg. revert s. induction l as [|i l IH]; intros s; cbn.
  - split; [intros [= <-]; by exists []|intros (uss & [= <-] & Hs); done].
  - rewrite bind_Ok. setoid_rewrite IH. rewrite Hg. destruct (ops i) as [us|[]|]; cbn.
    + split.
      * intros (s1 & H1 & uss & H2 & H3). exists (us :: uss). rewrite H2. split; [done|].
        cbn. by rewrite foldM_app, H1.
      * intros (uss & (uss' & H2 & [= <-])%bind_Ok & H3). cbn in H3. rewrite foldM_app in H3.
        apply bind_Ok in H3 as (s1 & H1 & H3). eauto.
    + split; [by intros (? & ? & _)|by intros (? & ? & _)].
Qed.

Lemma foldM_collect_eq {E S O I} (f : S → O → Res E S) (g : S → I → Res E S) (ops : I → Run (list O)) l uss :
  (∀ s i, g s i = us ← lift (ops i); foldM f s us) → collect (ops <$> l) = Ok uss →
  ∀ s, foldM g s l = foldM f s (concat uss).
Proof.
  intros Hg Hc%collect_Ok. revert uss Hc. induction l as [|i l IH]; intros uss Hc s.
  - by destruct uss.
  - destruct uss as [|us uss]; [done|]. injection Hc as Hi Hl. cbn [foldM concat].
    rewrite Hg, Hi. cbn [lift]. rewrite Ok_bind, foldM_app. apply bind_ext. intros s1. by apply IH.
Qed.

Section Updates.
Context `{SP : !ScriptParser} (network : Network).

Definition transfer_update (u : OrderedUtxo) (t : Transfer) : list Update :=
  match address (output (utxo u)) network with Some a => [UTransfer (a, t)] | None => [] end.

Definition output_updates (hash : Hash) (created : gmap OutPoint OrderedUtxo) (i : nat) : Run (list Update) :=
  outpoint ← outpoint_from_usize hash (Z.of_nat i);
  u ← expect (created !! outpoint);
  Ok (UCreated (outpoint, u) :: transfer_update u (Created outpoint u)).
Definition input_updates (hash : Hash) (spent : gmap OutPoint OrderedUtxo) (i : Input) : Run (list Update) :=
  match outpoint i with
  | None => Ok []
  | Some outpoint =>
      u ← expect (spent !! outpoint);
      Ok (USpent (outpoint, hash) :: transfer_update u (Spent i hash u))
  end.
Definition nullifier_updates (tx : Transaction) (hash : Hash) : list Update :=
  ((fun n => UNullifier Sprout (n, hash)) <$> sprout_nullifiers tx)
  ++ ((fun n => UNullifier Sapling (n, hash)) <$> sapling_nullifiers tx)
  ++ ((fun n => UNullifier Orchard (n, hash)) <$> orchard_nullifiers tx).

(** The updates of transaction [i]; those of its outputs and inputs come first
    when they are reverted. *)
Definition tx_updates (b : ContextuallyVerifiedBlock) (entry : nat * (Transaction * Hash)) :
    Run (list Update) :=
  let '(i, (tx, hash)) := entry in
  _ ← transaction_parts tx;
  loc ← tx_loc_from_usize (cv_height b) (Z.of_nat i);
  ous ← collect (output_updates hash (cv_new_outputs b) <$> seq 0 (length (outputs tx)));
  ius ← collect (input_updates hash (cv_spent_outputs b) <$> inputs tx);
  Ok (UTxLoc (hash, loc) :: concat ous ++ concat ius ++ nullifier_updates tx hash).
Definition tx_entries (b : ContextuallyVerifiedBlock) : list (nat * (Transaction * Hash)) :=
  imap pair (zip (transactions (cv_block b)) (cv_transaction_hashes b)).
Definition block_updates (b : ContextuallyVerifiedBlock) : Run (list Update) :=
  uss ← collect (tx_updates b <$> tx_entries b); Ok (concat uss).

(** Two sequences of the same steps. *)
Ltac bind_same :=
  repeat first [reflexivity|apply bind_ext; intros ?|rewrite Ok_bind|rewrite foldM_app|rewrite foldM_fmap
               |progress cbn [foldM]|by rewrite bind_ret].

Lemma outpoint_from_usize_lift {E} hash i :
  outpoint_from_usize (E := E) hash i = lift (outpoint_from_usize hash i).
Proof. unfold outpoint_from_usize. by destruct (try_from U32 i). Qed.

Lemma update_created_output_updates hash created l i :
  update_created_output network hash created l i =
  us ← lift (output_updates hash created i); foldM apply l us.
Proof.
  unfold update_created_output, output_updates. rewrite outpoint_from_usize_lift.
  destruct (outpoint_from_usize hash (Z.of_nat i)) as [p|[]|]; [|done]. cbn -[apply address].
  destruct (created !! p) as [u|]; [|done]. cbn -[apply address]. unfold transfer_update.
  destruct (apply l _); cbn -[apply address]; [|done..].
  destruct (address _ network); cbn -[apply]; [by rewrite bind_ret|done].
Qed.

Lemma revert_created_output_updates hash created l i :
  revert_created_output network hash created l i =
  us ← lift (output_updates hash created i); foldM revert l us.
Proof.
  unfold revert_created_output, output_updates.
  destruct (outpoint_from_usize hash (Z.of_nat i)) as [p|[]|]; [|done]. cbn -[revert address].
  destruct (created !! p) as [u|]; [|done]. cbn -[revert address]. unfold transfer_update.
  destruct (revert l _); cbn -[revert address]; [|done..].
  destruct (address _ network); cbn -[revert]; [by rewrite bind_ret|done].
Qed.

(** Spending an output twice is never an error value. *)
Lemma apply_spent_no_error l e err : apply l (USpent e) ≠ Err err.
Proof. destruct l. cbn. unfold insert_new. by destruct (_ !! _). Qed.

Lemma update_input_updates hash spent l i :
  update_input network hash spent l i = us ← lift (input_updates hash spent i); foldM apply l us.
Proof.
  unfold update_input, input_updates. destruct (outpoint i) as [p|]; [|done].
  pose proof (apply_spent_no_error l (p, hash)) as Hne.
  destruct (spent !! p) as [u|]; cbn -[apply address].
  - unfold transfer_update. destruct (apply l _); cbn -[apply address]; [|done..].
    destruct (address _ network); cbn -[apply]; [by rewrite bind_ret|done].
  - destruct (apply l _); cbn; [done|by destruct (Hne e)|done].
Qed.

Lemma revert_input_updates hash spent l i :
  revert_input network hash spent l i = us ← lift (input_updates hash spent i); foldM revert l us.
Proof.
  unfold revert_input, input_updates. destruct (outpoint i) as [p|]; [|done].
  destruct (spent !! p) as [u|]; cbn -[revert address].
  - unfold transfer_update. destruct (revert l _); cbn -[revert address]; [|done..].
    destruct (address _ network); cbn -[revert]; [by rewrite bind_ret|done].
  - by destruct (revert l _) as [|[]|].
Qed.

(** The nullifiers of the three pools. *)
Lemma update_nullifier_data tx l hash ins outs js s1 s2 oc :
  transaction_parts (E := ValidateContextError) tx = Ok (ins, outs, js, s1, s2, oc) →
  (self ← update_joinsplit l js hash; self ← update_sapling self s1 hash;
   self ← update_sapling self s2 hash; update_orchard self oc hash)
  = foldM apply l (nullifier_updates tx hash).
Proof.
  unfold nullifier_updates. rewrite !foldM_app, !foldM_fmap.
  destruct tx as [| | |? ? ? ? j s|? ? ? ? ? s o]; try done; intros [= <- <- <- <- <- <-];
    unfold update_joinsplit, update_sapling, update_orchard, update_nullifiers, sprout_nullifiers,
      sapling_nullifiers, orchard_nullifiers; cbn [joinsplit_data orchard_shielded_data]; cbv beta.
  - destruct j, s; cbn [foldM]; rewrite ?Ok_bind;
      bind_same.
  - destruct s, o; cbn [foldM]; rewrite ?Ok_bind;
      bind_same.
Qed.

Lemma revert_nullifier_data tx l hash ins outs js s1 s2 oc :
  transaction_parts (E := Empty_set) tx = Ok (ins, outs, js, s1, s2, oc) →
  (self ← revert_joinsplit l js hash; self ← revert_sapling self s1 hash;
   self ← revert_sapling self s2 hash; revert_orchard self oc hash)
  = foldM revert l (nullifier_updates tx hash).
Proof.
  unfold nullifier_updates. rewrite !foldM_app, !foldM_fmap.
  destruct tx as [| | |? ? ? ? j s|? ? ? ? ? s o]; try done; intros [= <- <- <- <- <- <-];
    unfold revert_joinsplit, revert_sapling, revert_orchard, revert_nullifiers, sprout_nullifiers,
      sapling_nullifiers, orchard_nullifiers; cbn [joinsplit_data orchard_shielded_data]; cbv beta.
  - destruct j, s; cbn [foldM]; rewrite ?Ok_bind;
      bind_same.
  - destruct s, o; cbn [foldM]; rewrite ?Ok_bind;
      bind_same.
Qed.

Lemma transaction_parts_lift {E} tx :
  transaction_parts (E := E) tx = lift (transaction_parts tx).
Proof. by destruct tx. Qed.
Lemma tx_loc_lift {E} h i : tx_loc_from_usize (E := E) h i = lift (tx_loc_from_usize h i).
Proof. unfold tx_loc_from_usize. by destruct (try_from U16 i). Qed.

Lemma transaction_parts_io tx ins outs js s1 s2 oc :
  transaction_parts (E := Empty_set) tx = Ok (ins, outs, js, s1, s2, oc) → ins = inputs tx ∧ outs = outputs tx.
Proof. destruct tx; try done; by intros [= <- <- <- <- <- <-]. Qed.

(** Adding a transaction makes its updates. *)
Lemma update_transaction_updates b l entry l' :
  update_transaction network b l entry = Ok l' →
  ∃ us, tx_updates b entry = Ok us ∧ foldM apply l us = Ok l'.
Proof.
  destruct entry as [i [tx hash]]. unfold update_transaction, tx_updates.
  rewrite transaction_parts_lift, tx_loc_lift.
  destruct (transaction_parts tx) as [[[[[[ins outs] js] s1] s2] oc]|[]|] eqn:Hp; [|done]. cbn [lift].
  destruct (transaction_parts_io _ _ _ _ _ _ _ Hp) as [-> ->]. rewrite !Ok_bind.
  intros (loc & Hloc & H)%bind_Ok.
  assert (Hl : tx_loc_from_usize (E := Empty_set) (cv_height b) (Z.of_nat i) = Ok loc)
    by (destruct (tx_loc_from_usize _ _) as [|[]|]; cbn in Hloc; congruence).
  rewrite Hl, Ok_bind. apply bind_Ok in H as (l1 & H1 & H). apply bind_Ok in H as (l2 & H2 & H).
  apply bind_Ok in H as (l3 & H3 & H).
  apply (foldM_collect apply _ (output_updates hash (cv_new_outputs b))) in H2 as (ous & Ho & H2);
    [|intros; apply update_created_output_updates].
  apply (foldM_collect apply _ (input_updates hash (cv_spent_outputs b))) in H3 as (ius & Hi & H3);
    [|intros; apply update_input_updates].
  rewrite (update_nullifier_data tx l3 hash (inputs tx) (outputs tx)) in H
    by (by rewrite transaction_parts_lift, Hp).
  rewrite Ho, Hi, !Ok_bind. eexists. split; [done|].
  cbn [foldM]. by rewrite H1, Ok_bind, foldM_app, H2, Ok_bind, foldM_app, H3, Ok_bind.
Qed.

(** Removing a transaction undoes its updates, in another order. *)
Lemma revert_transaction_updates b i tx hash us :
  tx_updates b (i, (tx, hash)) = Ok us →
  ∃ us', us' ≡ₚ us ∧ ∀ l, revert_transaction network b l (tx, hash) = foldM revert l us'.
Proof.
  unfold tx_updates, revert_transaction.
  destruct (transaction_parts tx) as [[[[[[ins outs] js] s1] s2] oc]|[]|] eqn:Hp; [|done].
  destruct (transaction_parts_io _ _ _ _ _ _ _ Hp) as [-> ->]. rewrite !Ok_bind.
  intros (loc & Hloc & H)%bind_Ok. apply bind_Ok in H as (ous & Ho & H). apply bind_Ok in H as (ius & Hi & [= <-]).
  exists (concat ous ++ concat ius ++ UTxLoc (hash, loc) :: nullifier_updates tx hash). split.
  { symmetry. rewrite <- !Permutation_middle. done. }
  intros l.
  assert (Hos : ∀ l, revert_outputs network l (outputs tx) hash (cv_new_outputs b) = foldM revert l (concat ous)).
  { eapply foldM_collect_eq; [|exact Ho]. intros. apply revert_created_output_updates. }
  assert (His : ∀ l, revert_inputs network l (inputs tx) hash (cv_spent_outputs b) = foldM revert l (concat ius)).
  { eapply foldM_collect_eq; [|exact Hi]. intros. apply revert_input_updates. }
  rewrite Ok_bind, Hos, foldM_app. apply bind_ext. intros l1. rewrite His, foldM_app. apply bind_ext. intros l2.
  cbn [foldM]. destruct l2 as [txs cs ss sp sa oc' tr]. cbn [revert].
  apply bind_ext. intros l3. by eapply revert_nullifier_data.
Qed.
(** The same for the transactions of a block. *)
Lemma update_transactions_updates b l l' :
  update_transactions network b l = Ok l' → ∃ us, block_updates b = Ok us ∧ foldM apply l us = Ok l'.
Proof.
  unfold update_transactions, block_updates. fold (tx_entries b). generalize (tx_entries b). intros es.
  revert l. induction es as [|e es IH]; intros l; cbn [foldM].
  - intros [= <-]. by exists [].
  - intros (l1 & (us & Hus & H1)%update_transaction_updates & H2)%bind_Ok.
    apply IH in H2 as (us' & (uss & Huss & [= <-])%bind_Ok & H2).
    exists (us ++ concat uss). rewrite fmap_cons. cbn [collect]. rewrite Hus, Ok_bind, Huss, !Ok_bind.
    split; [done|]. by rewrite foldM_app, H1, Ok_bind.
Qed.

Lemma revert_transactions_updates b us :
  block_updates b = Ok us →
  ∃ us', us' ≡ₚ us ∧ ∀ l, revert_transactions network b l = foldM revert l us'.
Proof.
  unfold revert_transactions, block_updates, tx_entries.
  intros (uss & Huss%collect_Ok & [= <-])%bind_Ok. revert Huss.
  generalize (zip (transactions (cv_block b)) (cv_transaction_hashes b)). intros es.
  assert (Hg : ∀ k uss, tx_updates b <$> imap (fun i => pair (k + i)%nat) es = Ok <$> uss →
    ∃ us', us' ≡ₚ concat uss ∧ ∀ l, foldM (revert_transaction network b) l es = foldM revert l us').
  2:{ intros Huss. by apply (Hg 0%nat). }
  clear uss. induction es as [|[tx hash] es IH]; intros k uss Huss.
  - destruct uss; [|done]. by exists [].
  - destruct uss as [|us uss]; [done|]. cbn [imap fmap list_fmap] in Huss. injection Huss as Hus Huss.
    apply revert_transaction_updates in Hus as (us1 & Hp1 & Hr1).
    destruct (IH (S k) uss) as (us2 & Hp2 & Hr2).
    { etrans; [|exact Huss]. f_equal. apply imap_ext. intros i x _.
      unfold compose. f_equal. lia. }
    exists (us1 ++ us2). split; [by rewrite Hp1, Hp2|].
    intros l. cbn [foldM]. rewrite Hr1, foldM_app. apply bind_ext. intros l1. apply Hr2.
Qed.

(** Adding a block is making its updates, in the ideal ledger too. *)
Lemma update_transactions_ideal b l l' :
  update_transactions network b l = Ok l' → ∃ us, block_updates b = Ok us ∧ foldM ideal_apply l us = Ok l'.
Proof.
  intros (us & Hus & Hl)%update_transactions_updates. exists us. split; [done|].
  eapply fold_ideal; [|done]. apply apply_ideal.
Qed.

(** Removing the block that was added last restores the indexes, if the balances
    stay in range while it is removed. *)
Lemma revert_last_block b l l' us l1 :
  block_updates b = Ok us → ideal_adm l us → foldM ideal_apply l us = Ok l' →
  revert_transactions network b l' = Ok l1 → l1 = l.
Proof.
  intros Hb Ha Hl. destruct (revert_transactions_updates b us Hb) as (us' & Hp & ->). intros Hr.
  apply (fold_ideal _ ideal_undo _ _ _ revert_ideal) in Hr. erewrite undo_all in Hr by eassumption. by injection Hr.
Qed.

(** Removing the block that was added first leaves the indexes of the others. *)
Lemma revert_first_block b l us rest l' l1 :
  block_updates b = Ok us → ideal_adm l (us ++ rest) → foldM ideal_apply l (us ++ rest) = Ok l' →
  revert_transactions network b l' = Ok l1 → foldM ideal_apply l rest = Ok l1.
Proof.
  intros Hb Ha Hl. destruct (revert_transactions_updates b us Hb) as (us' & Hp & ->). intros Hr.
  apply (fold_ideal _ ideal_undo _ _ _ revert_ideal) in Hr.
  edestruct (undo_prefix (apply := ideal_apply) (undo := ideal_undo)) as (l2 & Hu & H2); [exact Hp|exact Ha|exact Hl|].
  congruence.
Qed.

(** They stay in range when the blocks move at most the money supply at each address. *)
Lemma revert_block_total b l us ks vs l' :
  block_updates b = Ok us → us ++ vs ≡ₚ ks → ledger_adm l ks → foldM ideal_apply l ks = Ok l' →
  ∃ l1, revert_transactions network b l' = Ok l1.
Proof.
  intros Hb Hk Ha Hl%ideal_apply_bounded; [|done]. destruct (revert_transactions_updates b us Hb) as (us' & Hp & Hr).
  symmetry in Hk. eapply (apply_perm (apply := apply) (undo := revert)) in Hl; [|exact Hk|exact Ha].
  eapply (adm_perm (apply := apply) (undo := revert)) in Ha; [|exact Hk].
  edestruct (undo_prefix (apply := apply) (undo := revert)) as (l2 & Hu & _); [exact Hp|exact Ha|exact Hl|].
  exists l2. by rewrite Hr.
Qed.
End Updates.

(** ** What the indexes hold *)

(** The entries of one index among the updates. *)
Definition spent_in (us : list Update) : list (OutPoint * Hash) :=
  omap (fun u => match u with USpent e => Some e | _ => None end) us.
Definition created_in (us : list Update) : list (OutPoint * OrderedUtxo) :=
  omap (fun u => match u with UCreated e => Some e | _ => None end) us.
Definition nullifiers_in (pool : Pool) (us : list Update) : list (Hash * Hash) :=
  omap (fun u => match u, pool with
    | UNullifier Sprout e, Sprout | UNullifier Sapling e, Sapling | UNullifier Orchard e, Orchard => Some e
    | _, _ => None end) us.
Definition nullifier_map (pool : Pool) (l : Ledger) : NullifierMap :=
  match pool with
  | Sprout => sprout_nullifier_map l | Sapling => sapling_nullifier_map l | Orchard => orchard_nullifier_map l
  end.

Lemma foldM_project {K A} `{Countable K} (failure : K → Res ValidateContextError Empty_set)
    (sel : Update → option (K * A)) (g : Ledger → gmap K A) l us l' :
  (∀ l u l', apply l u = Ok l' →
     match sel u with Some e => insert_new failure (g l) e = Ok (g l') | None => g l' = g l end) →
  foldM apply l us = Ok l' → foldM (insert_new failure) (g l) (omap sel us) = Ok (g l').
Proof.
  intros Hs. revert l. induction us as [|u us IH]; intros l; cbn [foldM].
  - by intros [= <-].
  - intros (l1 & H1 & H2)%bind_Ok. apply Hs in H1. apply IH in H2. cbn.
    destruct (sel u); cbn; [by rewrite H1, Ok_bind|by rewrite <- H1].
Qed.

(** Case analysis on an update that succeeded. *)
Ltac apply_inv :=
  intros [] [?|?|?|[] ?|?] ?; cbn [apply];
  intros (? & ? & [= <-])%bind_Ok; cbn in *; done.

Lemma apply_spent l us l' :
  foldM apply l us = Ok l' → foldM (insert_new (E := ValidateContextError) (fun _ => Panic)) (spent_utxos l) (spent_in us) = Ok (spent_utxos l').
Proof. apply foldM_project. apply_inv. Qed.
Lemma apply_created l us l' :
  foldM apply l us = Ok l' → foldM (insert_new (E := ValidateContextError) (fun _ => Panic)) (created_utxos l) (created_in us) = Ok (created_utxos l').
Proof. apply foldM_project. apply_inv. Qed.
Lemma apply_nullifiers pool l us l' :
  foldM apply l us = Ok l' →
  foldM (insert_nullifier pool) (nullifier_map pool l) (nullifiers_in pool us) = Ok (nullifier_map pool l').
Proof. unfold insert_nullifier. apply foldM_project. destruct pool; apply_inv. Qed.

(** What the transactions of a block spend and reveal. *)
Definition tx_list (b : ContextuallyVerifiedBlock) : list (Transaction * Hash) :=
  zip (transactions (cv_block b)) (cv_transaction_hashes b).
Definition block_spends (b : ContextuallyVerifiedBlock) : list (OutPoint * Hash) :=
  tx_list b ≫= fun e => (fun o => (o, e.2)) <$> spent_outpoints e.1.
Definition tx_nullifiers (pool : Pool) (tx : Transaction) : list Hash :=
  match pool with
  | Sprout => sprout_nullifiers tx | Sapling => sapling_nullifiers tx | Orchard => orchard_nullifiers tx
  end.
Definition block_nullifiers (pool : Pool) (b : ContextuallyVerifiedBlock) : list (Hash * Hash) :=
  tx_list b ≫= fun e => (fun n => (n, e.2)) <$> tx_nullifiers pool e.1.

Lemma omap_concat {A B} (f : A → option B) (l : list (list A)) : omap f (concat l) = concat ((fun x : list A => omap f x) <$> l).
Proof. induction l as [|x l IH]; cbn; [done|]. by rewrite omap_app, IH. Qed.

(** The entries of an index in collected lists of updates. *)
Lemma collect_omap {I B} (f : Update → option B) (ops : I → Run (list Update)) (g : I → list B) l uss :
  (∀ i us, ops i = Ok us → omap f us = g i) →
  collect (ops <$> l) = Ok uss → omap f (concat uss) = l ≫= g.
Proof.
  intros Hg Hc%collect_Ok. rewrite omap_concat. revert uss Hc.
  induction l as [|i l IH]; intros [|us uss] Hc; try done.
  injection Hc as Hi Hl. cbn. rewrite (Hg _ _ Hi), (IH uss Hl). done.
Qed.

Lemma bind_nil_l {A B} (l : list A) : l ≫= (fun _ => []) =@{list B} [].
Proof. induction l; done. Qed.

Section Contents.
Context `{SP : !ScriptParser} (network : Network).

(** An index whose entries come neither from outputs nor from transfers. *)
Lemma transfer_update_omap {B} (f : Update → option B) u t :
  (∀ x, f (UTransfer x) = None) → omap f (transfer_update network u t) = [].
Proof. intros Hf. unfold transfer_update. destruct (address _ network); cbn; [by rewrite Hf|done]. Qed.

Lemma output_updates_omap {B} (f : Update → option B) hash m i us :
  (∀ x, f (UTransfer x) = None) → (∀ x, f (UCreated x) = None) →
  output_updates network hash m i = Ok us → omap f us = [].
Proof.
  intros Ht Hc. unfold output_updates. intros Hu. res_inv. cbn. rewrite Hc.
  by apply transfer_update_omap.
Qed.

Lemma input_updates_omap {B} (f : Update → option B) hash m i us :
  (∀ x, f (UTransfer x) = None) →
  input_updates network hash m i = Ok us →
  omap f us = match outpoint i with Some o => omap f [USpent (o, hash)] | None => [] end.
Proof.
  intros Ht. unfold input_updates. destruct (outpoint i) as [o|]; [|by intros [= <-]].
  intros Hu. res_inv. cbn. rewrite (transfer_update_omap f) by done. done.
Qed.

Lemma collect_outputs_omap {B} (f : Update → option B) hash m l uss :
  (∀ x, f (UTransfer x) = None) → (∀ x, f (UCreated x) = None) →
  collect (output_updates network hash m <$> l) = Ok uss → omap f (concat uss) = [].
Proof.
  intros Ht Hc Hu. rewrite (collect_omap f (output_updates network hash m) (fun _ => []) l) by
    (try done; intros; by eapply output_updates_omap). apply bind_nil_l.
Qed.
Lemma collect_inputs_omap {B} (f : Update → option B) hash m l uss :
  (∀ x, f (UTransfer x) = None) →
  collect (input_updates network hash m <$> l) = Ok uss →
  omap f (concat uss) = l ≫= fun i => match outpoint i with Some o => omap f [USpent (o, hash)] | None => [] end.
Proof. intros Ht Hu. eapply collect_omap; [|exact Hu]. intros. by apply (input_updates_omap f hash m). Qed.

Lemma spent_of_inputs tx (hash : Hash) :
  inputs tx ≫= (fun i => match outpoint i with Some o => [(o, hash)] | None => [] end)
  = (fun o => (o, hash)) <$> spent_outpoints tx.
Proof.
  unfold spent_outpoints. induction (inputs tx) as [|i l IH]; [done|].
  cbn. rewrite IH. by destruct (outpoint i).
Qed.

Lemma no_spent_inputs {B} (l : list Input) :
  l ≫= (fun i => match outpoint i with Some _ => [] | None => [] end) =@{list B} [].
Proof. induction l as [|i l IH]; [done|]. cbn. rewrite IH. by destruct (outpoint i). Qed.

Lemma nullifier_updates_omap {B} (f : Update → option B) tx hash :
  (∀ p e, f (UNullifier p e) = None) → omap f (nullifier_updates tx hash) = [].
Proof.
  intros Hf. unfold nullifier_updates. rewrite !omap_app.
  assert (Hn : ∀ p l, omap f ((fun n => UNullifier p (n, hash)) <$> l) = []).
  { intros p l. induction l as [|n l IH]; [done|]. cbn. by rewrite Hf, IH. }
  by rewrite !Hn.
Qed.

(** The updates of a transaction spend its inputs and reveal its nullifiers. *)
Lemma tx_updates_spent b i tx hash us :
  tx_updates network b (i, (tx, hash)) = Ok us →
  spent_in us = (fun o => (o, hash)) <$> spent_outpoints tx.
Proof.
  unfold tx_updates. intros (parts & _ & H)%bind_Ok. apply bind_Ok in H as (loc & _ & H).
  apply bind_Ok in H as (ous & Ho & H). apply bind_Ok in H as (ius & Hi & [= <-]).
  unfold spent_in. cbn. rewrite !omap_app, nullifier_updates_omap, app_nil_r by done.
  rewrite (collect_outputs_omap _ _ _ _ _ (fun _ => eq_refl) (fun _ => eq_refl) Ho), app_nil_l.
  rewrite (collect_inputs_omap _ _ _ _ _ (fun _ => eq_refl) Hi). cbn. apply spent_of_inputs.
Qed.

Lemma tx_updates_nullifiers pool b i tx hash us :
  tx_updates network b (i, (tx, hash)) = Ok us →
  nullifiers_in pool us = (fun n => (n, hash)) <$> tx_nullifiers pool tx.
Proof.
  unfold tx_updates. intros (parts & _ & H)%bind_Ok. apply bind_Ok in H as (loc & _ & H).
  apply bind_Ok in H as (ous & Ho & H). apply bind_Ok in H as (ius & Hi & [= <-]).
  unfold nullifiers_in. cbn. rewrite !omap_app.
  rewrite (collect_outputs_omap _ _ _ _ _ (fun _ => eq_refl) (fun _ => eq_refl) Ho), app_nil_l.
  rewrite (collect_inputs_omap _ _ _ _ _ (fun _ => eq_refl) Hi). cbn.
  rewrite no_spent_inputs, app_nil_l. unfold nullifier_updates. rewrite !omap_app.
  set (f := fun u => _).
  assert (Hn : ∀ p l, omap f ((fun n => UNullifier p (n, hash)) <$> l) =
    match p, pool with Sprout, Sprout | Sapling, Sapling | Orchard, Orchard => (fun n => (n, hash)) <$> l | _, _ => [] end).
  { intros p l. unfold f. destruct p, pool; induction l as [|n l IH]; cbn; rewrite ?IH; done. }
  rewrite !Hn. destruct pool; cbn [tx_nullifiers]; by rewrite ?app_nil_r.
Qed.

Lemma entries_bind {B} (b : ContextuallyVerifiedBlock) (g : Transaction * Hash → list B) :
  tx_entries b ≫= (fun e => g e.2) = tx_list b ≫= g.
Proof.
  unfold tx_entries, tx_list. generalize (zip (transactions (cv_block b)) (cv_transaction_hashes b)).
  intros l. assert (Hg : ∀ k, imap (fun i => pair (k + i)%nat) l ≫= (fun e => g e.2) = l ≫= g).
  { induction l as [|x l IH]; intros k; [done|]. cbn. f_equal.
    rewrite <- (IH (S k)). f_equal. apply imap_ext. intros i y _. unfold compose. f_equal. lia. }
  exact (Hg 0%nat).
Qed.

Lemma block_updates_in b us :
  block_updates network b = Ok us →
  spent_in us = block_spends b ∧ ∀ pool, nullifiers_in pool us = block_nullifiers pool b.
Proof.
  unfold block_updates. intros (uss & Hc & [= <-])%bind_Ok. split; [|intros pool].
  - unfold block_spends, spent_in. rewrite <- entries_bind. eapply collect_omap; [|exact Hc].
    intros [i [tx hash]] us Hu. by apply tx_updates_spent in Hu.
  - unfold block_nullifiers, nullifiers_in. rewrite <- entries_bind. eapply collect_omap; [|exact Hc].
    intros [i [tx hash]] us Hu. by apply (tx_updates_nullifiers pool) in Hu.
Qed.

(** All the updates of a sequence of blocks. *)
Lemma update_blocks_updates bs l l' :
  foldM (fun l b => update_transactions network b l) l bs = Ok l' →
  ∃ us, foldM apply l us = Ok l' ∧ spent_in us = bs ≫= block_spends ∧
    ∀ pool, nullifiers_in pool us = bs ≫= block_nullifiers pool.
Proof.
  revert l. induction bs as [|b bs IH]; intros l; cbn [foldM].
  - intros [= <-]. by exists [].
  - intros (l1 & (us & Hus & H1)%update_transactions_updates & H2)%bind_Ok.
    apply IH in H2 as (us' & H2 & Hs & Hn). apply block_updates_in in Hus as [Hs1 Hn1].
    exists (us ++ us'). rewrite foldM_app, H1, Ok_bind. split; [done|].
    unfold spent_in, nullifiers_in in *. split; [|intros pool]; rewrite omap_app; cbn.
    + by rewrite Hs1, Hs.
    + by rewrite Hn1, Hn.
Qed.
End Contents.

(** ** Properties *)

(** C19: no double spends in a non-finalized chain. When the transactions of a
    sequence of blocks have been added to empty indexes, no transparent output
    is spent twice and no nullifier of a pool is revealed twice by them, within
    a transaction, a block or across blocks; and the indexes map exactly the
    spent outputs and the nullifiers to the transactions that spent them. *)
Theorem no_double_spends `{SP : !ScriptParser} (network : Network) (bs : list ContextuallyVerifiedBlock)
    (l : Ledger) :
  foldM (fun l b => update_transactions network b l) ledger_new bs = Ok l →
  NoDup (bs ≫= block_spends).*1 ∧ spent_utxos l = list_to_map (bs ≫= block_spends) ∧
  ∀ pool, NoDup (bs ≫= block_nullifiers pool).*1 ∧
    nullifier_map pool l = list_to_map (bs ≫= block_nullifiers pool).
Proof.
  intros (us & Hl & Hs & Hn)%update_blocks_updates.
  pose proof (apply_spent _ _ _ Hl) as (H1 & _ & H2)%foldM_insert_new. rewrite Hs in H1, H2.
  cbn [spent_utxos ledger_new] in H2. rewrite H2, (right_id_L ∅ (∪)). split_and!; [done|done|]. intros pool.
  apply (apply_nullifiers pool) in Hl. apply foldM_insert_new in Hl as (H3 & _ & H4).
  rewrite Hn in H3, H4. split; [done|]. rewrite H4. destruct pool; apply (right_id_L ∅ (∪)).
Qed.

(** A script parser for which every script is a public key hash, and a block
    that spends an output of an earlier block. *)
Definition sample_parser : ScriptParser := {| recipient_address o := Some (PublicKeyHash (lock_script o)) |}.
Definition sample_outpoint : OutPoint := mkOutPoint [1] 0.
Definition sample_utxo : OrderedUtxo := ordered_utxo_new (mkOutput (mkAmount 50) [7]) 10 1.
Definition sample_tx : Transaction :=
  V4 [PrevOut sample_outpoint [] 0] [mkOutput (mkAmount 30) [8]] unlocked 0 None
     (Some (mkSapling (mkAmount (-20)) (SpendsAndMaybeOutputs mkFieldNotPresent [mkSpend [] [] [5] [] [] []] []) [])).
Definition sample_block : ContextuallyVerifiedBlock :=
  mkContextual (mkBlock (mkHeader 4 [] [] [] 0 0x1f07ffff [] (Common [])) [sample_tx]) [99] 11
    {[mkOutPoint [2] 0 := ordered_utxo_new (mkOutput (mkAmount 30) [8]) 11 0]}
    {[sample_outpoint := sample_utxo]} [[2]]
    (mkValueBalance (mkAmount (-20)) (mkAmount 0) (mkAmount 20) (mkAmount 0) (mkAmount 0)).

Lemma no_double_spends_witness :
  is_ok (update_transactions (SP := sample_parser) Mainnet sample_block ledger_new) = true ∧
  NoDup ([sample_block] ≫= block_spends).*1.
Proof.
  split; [vm_compute; reflexivity|].
  destruct (update_transactions (SP := sample_parser) Mainnet sample_block ledger_new) as [l|e|] eqn:Hl.
  - refine (proj1 (no_double_spends (SP := sample_parser) Mainnet [sample_block] l _)).
    cbn [foldM]. rewrite Hl. reflexivity.
  - exfalso. assert (Hf : is_ok (update_transactions (SP := sample_parser) Mainnet sample_block ledger_new) = false)
      by (rewrite Hl; reflexivity). vm_compute in Hf. discriminate.
  - exfalso. assert (Hf : is_ok (update_transactions (SP := sample_parser) Mainnet sample_block ledger_new) = false)
      by (rewrite Hl; reflexivity). vm_compute in Hf. discriminate.
Defined.
