(* ===== verification/SpendChecks.v ===== *)
(** * Transparent spends of a block

    [zebra-state/src/service/check/utxo.rs]: the lookup of the outputs a
    semantically verified block spends, with the checks of their order in the
    chain, of coinbase maturity and shielding, and of the value that remains in
    each transaction; and the construction of a contextually verified block from
    them, [with_block_and_spent_utxos] of [zebra-state/src/request.rs].

    The finalized state is read through its network and its unspent outputs,
    which are arguments. *)

From S2P Require Import Prelude Height Amount ValueBalance Network Transaction Reversible Transfers Ledger.

Record SemanticallyVerifiedBlock := mkSemantic {
  sv_block : Block;
  sv_hash : Hash;
  sv_height : Height;
  sv_new_outputs : gmap OutPoint OrderedUtxo;
  sv_transaction_hashes : list Hash;
  sv_deferred_pool_balance_change : option DeferredPoolBalanceChange;
}.

Definition MIN_TRANSPARENT_COINBASE_MATURITY : Z := 100.

(** ** The checks *)

Definition transparent_spend_chain_order (spend : OutPoint) (spend_tx_index_in_block : Z)
    (block_new_outputs unspent_utxos : gmap OutPoint OrderedUtxo) (spent_utxos : gmap OutPoint Hash)
    (finalized_utxo : OutPoint → option OrderedUtxo) : Res ValidateContextError OrderedUtxo :=
  match block_new_outputs !! spend with
  | Some output =>
      if spend_tx_index_in_block <=? tx_index_in_block output
      then Err (EarlyTransparentSpend spend) else Ok output
  | None =>
      match spent_utxos !! spend with
      | Some _ => Err (DuplicateTransparentSpend spend false)
      | None =>
          ok_or (match unspent_utxos !! spend with Some u => Some u | None => finalized_utxo spend end)
                (MissingTransparentOutput spend)
      end
  end.

Definition transparent_coinbase_spend (outpoint : OutPoint) (spend_restriction : CoinbaseSpendRestriction)
    (u : Utxo) : Res ValidateContextError unit :=
  if negb (from_coinbase u) then Ok tt
  else match spend_restriction with
       | CheckCoinbaseMaturity spend_height =>
           min_spend_height ← expect (add_diff (utxo_height u) MIN_TRANSPARENT_COINBASE_MATURITY);
           if min_spend_height <=? spend_height then Ok tt
           else Err (ImmatureTransparentCoinbaseSpend outpoint spend_height min_spend_height (utxo_height u))
       | DisallowCoinbaseSpend => Err (UnshieldedTransparentCoinbaseSpend outpoint)
       end.

(** The match on the remaining value of one transaction. *)
Definition check_remaining_value (b : SemanticallyVerifiedBlock) (utxos : gmap OutPoint OrderedUtxo)
    (entry : nat * Transaction) : Res ValidateContextError unit :=
  let '(i, transaction) := entry in
  if is_coinbase transaction then Ok tt
  else match value_balance transaction (utxos_from_ordered_utxos utxos) with
       | Ok vb =>
           match remaining_transaction_value vb with
           | Ok _ => Ok tt
           | Err e =>
               hash ← expect (sv_transaction_hashes b !! i);
               Err (match e with
                    | ConstraintError _ _ =>
                        if invalid_value e <? 0
                        then NegativeRemainingTransactionValue e (sv_height b) (Z.of_nat i) hash
                        else CalculateRemainingTransactionValue e (sv_height b) (Z.of_nat i) hash
                    | _ => CalculateRemainingTransactionValue e (sv_height b) (Z.of_nat i) hash
                    end)
           | Panic => Panic
           end
       | Err e =>
           hash ← expect (sv_transaction_hashes b !! i);
           Err (CalculateTransactionValueBalances e (sv_height b) (Z.of_nat i) hash)
       | Panic => Panic
       end.
Definition check_remaining_transaction_value (b : SemanticallyVerifiedBlock) (utxos : gmap OutPoint OrderedUtxo) :
    Res ValidateContextError unit :=
  foldM (fun _ entry => check_remaining_value b utxos entry) tt (imap pair (transactions (sv_block b))).

Section Spend.
Context (network : Network) (finalized_utxo : OutPoint → option OrderedUtxo).
Context (b : SemanticallyVerifiedBlock) (unspent_utxos : gmap OutPoint OrderedUtxo) (spent_utxos : gmap OutPoint Hash).

(** The body of the inner loop, over the spends of the transaction number [i]. *)
Definition check_spend (i : nat) (transaction : Transaction) (block_spends : gmap OutPoint OrderedUtxo)
    (spend : OutPoint) : Res ValidateContextError (gmap OutPoint OrderedUtxo) :=
  u ← transparent_spend_chain_order spend (Z.of_nat i) (sv_new_outputs b) unspent_utxos spent_utxos finalized_utxo;
  _ ← transparent_coinbase_spend spend (coinbase_spend_restriction transaction network (sv_height b)) (utxo u);
  insert_new (fun spend => Err (DuplicateTransparentSpend spend true)) block_spends (spend, u).

Definition transparent_spend : Res ValidateContextError (gmap OutPoint OrderedUtxo) :=
  block_spends ←
    foldM (fun block_spends '(i, transaction) =>
             foldM (check_spend i transaction) block_spends (spent_outpoints transaction))
          ∅ (imap pair (transactions (sv_block b)));
  _ ← check_remaining_transaction_value b block_spends;
  Ok block_spends.

End Spend.

(** ** Contextually verified blocks *)

Definition with_block_and_spent_utxos (b : SemanticallyVerifiedBlock) (spent_outputs : gmap OutPoint OrderedUtxo) :
    Res ValueBalanceError ContextuallyVerifiedBlock :=
  let spent_outputs := sv_new_outputs b ∪ spent_outputs in
  change ← chain_value_pool_change (sv_block b) (utxos_from_ordered_utxos spent_outputs)
             (sv_deferred_pool_balance_change b);
  Ok (mkContextual (sv_block b) (sv_hash b) (sv_height b) (sv_new_outputs b) spent_outputs
        (sv_transaction_hashes b) change).

(** ** What the checks accept *)

Lemma add_maturity h : 0 ≤ h ≤ MAX - 100 → add_diff h MIN_TRANSPARENT_COINBASE_MATURITY = Some (h + 100).
Proof.
  intros Hh. pose proof MAX_eq. unfold add_diff, MIN_TRANSPARENT_COINBASE_MATURITY.
  rewrite try_from_wrap_small by (cbn; lia). apply height_step. lia.
Qed.

Section Exact.
Context (network : Network) (finalized_utxo : OutPoint → option OrderedUtxo).
Context (b : SemanticallyVerifiedBlock) (unspent_utxos : gmap OutPoint OrderedUtxo) (spent_utxos : gmap OutPoint Hash).
Implicit Types (e : nat * Transaction * OutPoint) (m : gmap OutPoint OrderedUtxo).

(** The spends of the block, with the transactions that make them. *)
Definition block_spend_list : list (nat * Transaction * OutPoint) :=
  imap pair (transactions (sv_block b)) ≫= fun it => (fun o => (it, o)) <$> spent_outpoints it.2.

(** An output comes from an earlier transaction of the block, or else from the
    chain below the block, where it is not spent. *)
Definition in_chain_order (i : nat) (o : OutPoint) (u : OrderedUtxo) : Prop :=
  match sv_new_outputs b !! o with
  | Some u' => u = u' ∧ tx_index_in_block u < Z.of_nat i
  | None => spent_utxos !! o = None ∧
      (unspent_utxos !! o = Some u ∨ unspent_utxos !! o = None ∧ finalized_utxo o = Some u)
  end.
(** A coinbase output is spent 100 blocks later, by a transaction without
    transparent outputs (unless the network allows it). *)
Definition mature (tx : Transaction) (u : Utxo) : Prop :=
  from_coinbase u = true →
  (outputs tx = [] ∨ should_allow_unshielded_coinbase_spends network = true) ∧ utxo_height u + 100 ≤ sv_height b.
Definition may_spend e (u : OrderedUtxo) : Prop :=
  in_chain_order e.1.1 e.2 u ∧ mature e.1.2 (utxo u).

(** The known outputs are not at the end of the height range. *)
Definition heights_low : Prop := ∀ o u,
  sv_new_outputs b !! o = Some u ∨ unspent_utxos !! o = Some u ∨ finalized_utxo o = Some u →
  0 ≤ utxo_height (utxo u) ≤ MAX - 100.

Lemma chain_order_Ok i o u :
  transparent_spend_chain_order o (Z.of_nat i) (sv_new_outputs b) unspent_utxos spent_utxos finalized_utxo = Ok u ↔
  in_chain_order i o u.
Proof.
  unfold transparent_spend_chain_order, in_chain_order. destruct (sv_new_outputs b !! o) as [u'|].
  - destruct (Z.leb_spec (Z.of_nat i) (tx_index_in_block u')); naive_solver lia.
  - destruct (spent_utxos !! o); [naive_solver|].
    destruct (unspent_utxos !! o); [naive_solver|]. destruct (finalized_utxo o); naive_solver.
Qed.

Lemma in_chain_order_height i o u :
  heights_low → in_chain_order i o u → 0 ≤ utxo_height (utxo u) ≤ MAX - 100.
Proof.
  unfold in_chain_order. intros Hh Ho. apply (Hh o). destruct (sv_new_outputs b !! o); naive_solver.
Qed.

Lemma coinbase_spend_Ok tx o u x :
  0 ≤ utxo_height u ≤ MAX - 100 →
  transparent_coinbase_spend o (coinbase_spend_restriction tx network (sv_height b)) u = Ok x ↔ mature tx u.
Proof.
  intros Hh. unfold transparent_coinbase_spend, coinbase_spend_restriction, mature, has_transparent_outputs.
  rewrite add_maturity by done. destruct x, (from_coinbase u); cbn; [|naive_solver].
  destruct (outputs tx) eqn:Ho; cbn.
  - destruct (Z.leb_spec (utxo_height u + 100) (sv_height b)); naive_solver lia.
  - destruct (should_allow_unshielded_coinbase_spends network); cbn; [|naive_solver].
    destruct (Z.leb_spec (utxo_height u + 100) (sv_height b)); naive_solver lia.
Qed.

Lemma check_spend_Ok i tx m o m' :
  heights_low →
  check_spend network finalized_utxo b unspent_utxos spent_utxos i tx m o = Ok m' ↔
  ∃ u, may_spend (i, tx, o) u ∧ m !! o = None ∧ m' = <[o := u]> m.
Proof.
  intros Hh. unfold check_spend. rewrite bind_Ok. split.
  - intros (u & Hu%chain_order_Ok & H). apply bind_Ok in H as (x & Hx & [Hm ->]%insert_new_Ok).
    apply coinbase_spend_Ok in Hx; [|by eapply in_chain_order_height]. exists u. done.
  - intros (u & [Ho Hm] & Hn & ->). exists u. split; [by apply chain_order_Ok|].
    apply bind_Ok. exists tt. split; [|by apply insert_new_Ok].
    apply coinbase_spend_Ok; [by eapply in_chain_order_height|done].
Qed.

(** The loops over the transactions and their spends are one loop. *)
Definition check_entry m e := check_spend network finalized_utxo b unspent_utxos spent_utxos e.1.1 e.1.2 m e.2.
Lemma spend_loop m l :
  foldM (fun m '(i, tx) =>
           foldM (check_spend network finalized_utxo b unspent_utxos spent_utxos i tx) m (spent_outpoints tx)) m l
  = foldM check_entry m (l ≫= fun it => (fun o => (it, o)) <$> spent_outpoints it.2).
Proof.
  revert m. induction l as [|[i tx] l IH]; intros m; [done|]. cbn [foldM mbind list_bind].
  rewrite foldM_app, foldM_fmap. apply bind_ext. exact IH.
Qed.

Lemma check_entries_Ok l m m' :
  heights_low →
  foldM check_entry m l = Ok m' ↔
  NoDup l.*2 ∧ (∀ o, o ∈ l.*2 → m !! o = None) ∧ m ⊆ m' ∧
  (∀ o, is_Some (m' !! o) → is_Some (m !! o) ∨ o ∈ l.*2) ∧
  (∀ e, e ∈ l → ∃ u, m' !! e.2 = Some u ∧ may_spend e u).
Proof.
  intros Hh. revert m. induction l as [|[[i tx] o] l IH]; intros m; cbn [foldM].
  - split; [intros [= <-]|intros (_ & _ & Hs & Hd & _)].
    + split_and!; [constructor|set_solver|done|naive_solver|set_solver].
    + f_equal. apply map_eq. intros o. destruct (m' !! o) as [u|] eqn:Hu.
      * destruct (Hd o) as [[u' Hu']|]; [done| |set_solver]. pose proof (lookup_weaken _ _ _ _ Hu' Hs). congruence.
      * by eapply lookup_weaken_None.
  - rewrite bind_Ok. setoid_rewrite (check_spend_Ok i tx m o _ Hh). setoid_rewrite IH. cbn [fmap list_fmap snd]. split.
    + intros (m1 & (u & Hu & Hm & ->) & Hn & Hf & Hs & Hd & He).
      assert (Ho : m' !! o = Some u) by (eapply lookup_weaken; [apply lookup_insert_eq|done]).
      assert (Hol : o ∉ l.*2) by (intros Hin%Hf; by rewrite lookup_insert_eq in Hin).
      split_and!.
      * by constructor.
      * intros o' [->|Hin]%elem_of_cons; [done|]. apply Hf in Hin. by apply lookup_insert_None in Hin as [? _].
      * etrans; [by apply insert_subseteq|done].
      * intros o' [Hi|Hi]%Hd; [|set_solver]. destruct (decide (o' = o)) as [->|]; [set_solver|].
        rewrite lookup_insert_ne in Hi by done. by left.
      * intros e [->|Hin]%elem_of_cons; [eauto|by apply He].
    + intros (Hn & Hf & Hs & Hd & He). apply NoDup_cons in Hn as [Hol Hn].
      destruct (He (i, tx, o)) as (u & Hu & Hm); [set_solver|]. cbn in Hu.
      exists (<[o := u]> m). split; [exists u; split_and!; [done|apply Hf; set_solver|done]|].
      split_and!; [done| | | |].
      * intros o' Hin. rewrite lookup_insert_ne by (by intros ->). apply Hf. set_solver.
      * by apply insert_subseteq_l.
      * intros o' Hi. destruct (Hd o' Hi) as [?|[->|]%elem_of_cons]; [left|left|by right].
        -- destruct (decide (o' = o)) as [->|]; [rewrite lookup_insert_eq; eauto|by rewrite lookup_insert_ne].
        -- rewrite lookup_insert_eq. eauto.
      * intros e Hin. apply He. set_solver.
Qed.

(** The value that remains in a transaction is defined and not negative. *)
Definition remaining_ok m (tx : Transaction) : Prop :=
  is_coinbase tx = false → ∃ vb r, value_balance tx (utxos_from_ordered_utxos m) = Ok vb ∧
    remaining_transaction_value vb = Ok r.

Lemma check_remaining_Ok m it :
  check_remaining_value b m it = Ok tt ↔ remaining_ok m it.2.
Proof.
  destruct it as [i tx]. unfold check_remaining_value, remaining_ok. cbn. destruct (is_coinbase tx); [naive_solver|].
  transitivity (∃ vb r, value_balance tx (utxos_from_ordered_utxos m) = Ok vb ∧ remaining_transaction_value vb = Ok r);
    [|naive_solver].
  destruct (value_balance _ _) as [vb|e|]; [|destruct (sv_transaction_hashes b !! i); cbn; naive_solver|naive_solver].
  destruct (remaining_transaction_value vb) as [r|e|] eqn:Hr; [naive_solver| |].
  - destruct (sv_transaction_hashes b !! i); cbn; split; try done; intros (? & ? & [= <-] & ?); congruence.
  - split; try done. intros (? & ? & [= <-] & ?). congruence.
Qed.

(** C20: [transparent_spend] accepts exactly the blocks whose transparent spends
    are valid, and returns exactly the outputs they spend: no output is spent
    twice by the block, every spent output was created by an earlier transaction
    of the block or is unspent in the chain below it, coinbase outputs are mature
    and shielded, and the value that remains in each transaction is defined and
    not negative. *)
Theorem transparent_spend_exact (Hh : heights_low) m :
  transparent_spend network finalized_utxo b unspent_utxos spent_utxos = Ok m ↔
  NoDup block_spend_list.*2 ∧
  (∀ o, is_Some (m !! o) ↔ o ∈ block_spend_list.*2) ∧
  (∀ e, e ∈ block_spend_list → ∃ u, m !! e.2 = Some u ∧ may_spend e u) ∧
  Forall (remaining_ok m) (transactions (sv_block b)).
Proof.
  unfold transparent_spend, check_remaining_transaction_value. rewrite spend_loop. fold block_spend_list.
  transitivity (foldM check_entry ∅ block_spend_list = Ok m ∧ Forall (remaining_ok m) (transactions (sv_block b))).
  - rewrite bind_Ok. split.
    + intros (m' & Hm & H). apply bind_Ok in H as (x & Hx & [= ->]). apply foldM_unit in Hx.
      split; [done|]. apply Forall_imap_pair. eapply Forall_impl; [exact Hx|]. intros it. apply check_remaining_Ok.
    + intros [Hm Hr]. exists m. split; [done|]. apply bind_Ok. exists tt. split; [|done]. apply foldM_unit.
      apply Forall_imap_pair in Hr. eapply Forall_impl; [exact Hr|]. intros it. apply check_remaining_Ok.
  - rewrite (check_entries_Ok _ _ _ Hh). split.
    + intros [(Hn & _ & _ & Hd & He) Hr]. split_and!; [done| |done|done]. intros o. split.
      * intros [[u Hu]|?]%Hd; [|done]. by rewrite lookup_empty in Hu.
      * intros (e & -> & Hin)%list_elem_of_fmap. destruct (He e Hin) as (u & -> & _). eauto.
    + intros (Hn & Hd & He & Hr). split_and!; [done| |apply map_empty_subseteq| |done|done].
      * intros o _. apply lookup_empty.
      * intros o Ho%Hd. by right.
Qed.

End Exact.

Definition sample_semantic : SemanticallyVerifiedBlock :=
  mkSemantic (cv_block sample_block) [99] 11 (cv_new_outputs sample_block) [[2]] None.
Definition sample_finalized (o : OutPoint) : option OrderedUtxo :=
  if decide (o = sample_outpoint) then Some sample_utxo else None.

Lemma transparent_spend_exact_witness :
  ∃ u, ({[sample_outpoint := sample_utxo]} : gmap OutPoint OrderedUtxo) !! sample_outpoint = Some u ∧
    may_spend Mainnet sample_finalized sample_semantic ∅ ∅ ((0%nat, sample_tx), sample_outpoint) u.
Proof.
  refine (proj1 (proj2 (proj2 (proj1 (transparent_spend_exact Mainnet sample_finalized sample_semantic ∅ ∅ _ {[sample_outpoint := sample_utxo]}) _)))
    ((0%nat, sample_tx), sample_outpoint) _).
  - intros o u [Hu|[Hu|Hu]].
    + cbn in Hu. apply lookup_singleton_Some in Hu as [_ <-]. done.
    + by rewrite lookup_empty in Hu.
    + unfold sample_finalized in Hu. case_decide; [|done]. injection Hu as <-. done.
  - vm_compute. reflexivity.
  - vm_compute. left.
Defined.
