(* ===== verification/TxChecks.v ===== *)
(** * The checks of a transaction

    [zebra-consensus/src/transaction/check.rs]: the checks of a single transaction that need no proof or
    signature verification, and the errors of [zebra-consensus/src/error.rs].

    Note decryption and the verifiers of proofs and signatures are library code: their errors and results are class
    parameters. *)

From stdpp Require Import strings.
From S2P Require Import Prelude Height Amount ValueBalance Network Subsidy Transaction Merkle.
From S2P Require Import BlockHeader ShieldedCodec TransactionCodec Sighash Unmined Reversible Script Ledger SpendChecks.

(** ** Errors *)

(** The verifiers of proofs and signatures, with their errors. *)
Class VerifierLib `{!LibRustZcash, !SighashLib} := {
  LibError : Type;
  (** [bellman::groth16::Proof::read] fails with a message, or not *)
  groth16_proof_read : list Z → option string;
  (** [bellman::groth16::verify_proof], on the bytes that the primary inputs are packed from *)
  groth16_verify : (* proof *) list Z → (* public input *) list Z → option string;
  ed25519_verify : (* key *) list Z → (* signature *) list Z → Hash → option LibError;
  sapling_verify : LibSaplingBundle → Hash → option LibError;
  halo2_verify : LibOrchardBundle → Hash → option LibError;
  (** Which outputs of a bundle decrypt with the zero outgoing viewing key, under [Zip212Enforcement] *)
  sapling_outputs_recovered : LibSaplingBundle → (* enforcement *) bool → list bool;
  orchard_actions_recovered : LibOrchardBundle → list bool;
}.

Section Errors.
Context `{CL : !CurveLib, LZ : !LibRustZcash, SL : !SighashLib, ZS : !ScriptLib, VL : !VerifierLib}.

(** Errors that are not one of the known types. *)
Inductive OtherError :=
| OtherScript (e : ScriptServiceError)
| OtherLib (e : LibError).

Inductive TransactionError :=
| CoinbasePosition
| CoinbaseAfterFirst
| CoinbaseHasJoinSplit
| CoinbaseHasSpend
| CoinbaseHasOutputPreHeartwood
| CoinbaseHasEnableSpendsOrchard
| CoinbaseOutputsNotDecryptable
| CoinbaseInMempool
| NonCoinbaseHasCoinbaseInput
| NotCoinbase
| LockedUntilAfterBlockHeight (height : Height)
| LockedUntilAfterBlockTime (time : Z)
| CoinbaseExpiryBlockHeight (expiry_height : option Height) (block_height : Height) (transaction_hash : Hash)
| MaximumExpiryHeight (expiry_height : Height) (is_coinbase : bool) (block_height : Height) (transaction_hash : Hash)
| ExpiredTransaction (expiry_height block_height : Height) (transaction_hash : Hash)
| TxSubsidy (e : SubsidyError)
| WrongVersion
| UnsupportedByNetworkUpgrade (version : Z) (nu : NetworkUpgrade)
| NoInputs
| NoOutputs
| BadBalance
| Script (e : ScriptError)
| SmallOrder
| Groth16 (e : string)
| MalformedGroth16 (e : string)
| Ed25519 (e : LibError)
| RedJubjub (e : LibError)
| RedPallas (e : LibError)
| InternalDowncastError (e : OtherError)
| BothVPubsNonZero
| DisabledAddToSproutPool
| IncorrectFee
| TxDuplicateTransparentSpend (outpoint : OutPoint)
| TxDuplicateSproutNullifier (nullifier : Hash)
| TxDuplicateSaplingNullifier (nullifier : Hash)
| TxDuplicateOrchardNullifier (nullifier : Hash)
| NotEnoughFlags
| TransparentInputNotFound
| TxValidateContextError (e : ValidateContextError)
| ValidateMempoolLockTimeError (e : string)
| TxImmatureTransparentCoinbaseSpend (outpoint : OutPoint) (spend_height min_spend_height created_height : Height)
| TxUnshieldedTransparentCoinbaseSpend (outpoint : OutPoint) (min_spend_height : Height)
| Zip317 (e : Zip317Error)
| WrongConsensusBranchId
| MissingConsensusBranchId.

(** The errors behind a [BoxError], and their conversion by downcasts: the other ones are formatted. *)
Inductive BoxError :=
| BoxRedJubjub (e : LibError)
| BoxValidateContext (e : ValidateContextError)
| BoxTransaction (e : TransactionError)
| BoxOther (e : OtherError).
Definition from_box_error (e : BoxError) : TransactionError :=
  match e with
  | BoxRedJubjub e => RedJubjub e
  | BoxValidateContext e => TxValidateContextError e
  | BoxTransaction e => e
  | BoxOther e => InternalDowncastError e
  end.

Definition mempool_misbehavior_score (self : TransactionError) : Z :=
  match self with
  | TxImmatureTransparentCoinbaseSpend _ _ _ _ | TxUnshieldedTransparentCoinbaseSpend _ _
  | CoinbasePosition | CoinbaseAfterFirst | CoinbaseHasJoinSplit | CoinbaseHasSpend | CoinbaseHasOutputPreHeartwood
  | CoinbaseHasEnableSpendsOrchard | CoinbaseOutputsNotDecryptable | CoinbaseInMempool | NonCoinbaseHasCoinbaseInput
  | CoinbaseExpiryBlockHeight _ _ _ | IncorrectFee | TxSubsidy _ | WrongVersion | NoInputs | NoOutputs | BadBalance
  | Script _ | SmallOrder | Groth16 _ | MalformedGroth16 _ | Ed25519 _ | RedJubjub _ | RedPallas _
  | BothVPubsNonZero | DisabledAddToSproutPool | NotEnoughFlags | WrongConsensusBranchId | MissingConsensusBranchId => 100
  | _ => 0
  end.

End Errors.

(** ** The checks of a transaction *)

Section Checks.
Context `{CL : !CurveLib, LZ : !LibRustZcash, SL : !SighashLib, HF : !HashFns, ZS : !ScriptLib, VL : !VerifierLib}.
Implicit Types (tx : Transaction).

Definition lock_time_has_passed tx (block_height : Height) (block_time : option Z) : Res TransactionError unit :=
  match lock_time tx with
  | Some (LockHeight unlock_height) =>
      if unlock_height <? block_height then Ok tt else Err (LockedUntilAfterBlockHeight unlock_height)
  | Some (LockTimestamp unlock_time) =>
      block_time ← expect block_time;
      if unlock_time <? block_time then Ok tt else Err (LockedUntilAfterBlockTime unlock_time)
  | None => Ok tt
  end.

Definition has_inputs_and_outputs tx : Res TransactionError unit :=
  has_inputs ← has_transparent_or_shielded_inputs tx;
  if negb has_inputs then Err NoInputs
  else if negb (has_transparent_or_shielded_outputs tx) then Err NoOutputs
  else Ok tt.

Definition check_has_enough_orchard_flags tx : Res TransactionError unit :=
  if negb (has_enough_orchard_flags tx) then Err NotEnoughFlags else Ok tt.

Definition coinbase_tx_no_prevout_joinsplit_spend tx : Res TransactionError unit :=
  if is_coinbase tx then
    if 0 <? joinsplit_count tx then Err CoinbaseHasJoinSplit else
    spends ← sapling_spends_per_anchor tx;
    if 0 <? Z.of_nat (length spends) then Err CoinbaseHasSpend else
    match orchard_shielded_data tx with
    | Some data => if flags_contains (flags data) ENABLE_SPENDS then Err CoinbaseHasEnableSpendsOrchard else Ok tt
    | None => Ok tt
    end
  else Ok tt.

Definition joinsplit_has_vpub_zero tx : Res TransactionError unit :=
  foldM (λ _ vpubs,
      if negb (zatoshis (vpubs : Amount NonNegative * Amount NonNegative).1 =? 0) && negb (zatoshis vpubs.2 =? 0)
      then Err BothVPubsNonZero else Ok tt)
    tt (zip (output_values_to_sprout tx) (input_values_from_sprout tx)).

Definition disabled_add_to_sprout_pool tx (height : Height) (network : Network) : Res TransactionError unit :=
  canopy_activation_height ← expect (activation_height Canopy network);
  if canopy_activation_height <=? height then
    foldM (λ _ vpub_old, if negb (zatoshis (vpub_old : Amount NonNegative) =? 0) then Err DisabledAddToSproutPool else Ok tt)
      tt (output_values_to_sprout tx)
  else Ok tt.

(** [check_for_duplicates]: [HashSet::replace] returns the equal item of the set. *)
Definition check_for_duplicates {T} `{Countable T} (items : list T) (error_wrapper : T → TransactionError) :
    Res TransactionError unit :=
  _ ← foldM (λ (hash_set : gset T) item,
        if bool_decide (item ∈ hash_set) then Err (error_wrapper item) else Ok ({[item]} ∪ hash_set)) ∅ items;
  Ok tt.

Definition spend_conflicts tx : Res TransactionError unit :=
  _ ← check_for_duplicates (spent_outpoints tx) TxDuplicateTransparentSpend;
  _ ← check_for_duplicates (sprout_nullifiers tx) TxDuplicateSproutNullifier;
  _ ← check_for_duplicates (sapling_nullifiers tx) TxDuplicateSaplingNullifier;
  _ ← check_for_duplicates (orchard_nullifiers tx) TxDuplicateOrchardNullifier;
  Ok tt.

(** [zebra-chain/src/primitives/zcash_note_encryption.rs]. *)
Definition decrypts_successfully tx (network : Network) (height : Height) : Run bool :=
  nu ← current network height;
  match to_librustzcash tx nu with
  | Ok tx =>
      let zip_212_enforcement := nu_leb Canopy nu in
      let sapling := match lib_sapling_bundle tx with
                     | Some bundle => forallb id (sapling_outputs_recovered bundle zip_212_enforcement)
                     | None => true
                     end in
      let orchard := match lib_orchard_bundle tx with
                     | Some bundle => forallb id (orchard_actions_recovered bundle)
                     | None => true
                     end in
      Ok (sapling && orchard)
  | Err _ => Ok false
  | Panic => Panic
  end.

Definition coinbase_outputs_are_decryptable
    tx (network : Network) (height : Height) : Res TransactionError unit :=
  if negb (has_shielded_outputs tx) then Ok tt else
  heartwood ← expect (activation_height Heartwood network);
  if height <? heartwood then Ok tt else
  if negb (is_coinbase tx) then Err NotCoinbase else
  decrypted ← lift (decrypts_successfully tx network height);
  if negb decrypted then Err CoinbaseOutputsNotDecryptable else Ok tt.

Definition validate_expiry_height_max (expiry_height : option Height) (is_coinbase : bool) (block_height : Height)
    tx : Res TransactionError unit :=
  match expiry_height with
  | Some expiry_height =>
      if MAX_EXPIRY_HEIGHT <? expiry_height
      then hash ← lift (tx_hash tx); Err (MaximumExpiryHeight expiry_height is_coinbase block_height hash) else Ok tt
  | None => Ok tt
  end.

Definition validate_expiry_height_mined (expiry_height : option Height) (block_height : Height) tx :
    Res TransactionError unit :=
  match expiry_height with
  | Some expiry_height =>
      if expiry_height <? block_height
      then hash ← lift (tx_hash tx); Err (ExpiredTransaction expiry_height block_height hash) else Ok tt
  | None => Ok tt
  end.

Definition coinbase_expiry_height (block_height : Height) tx (network : Network) : Res TransactionError unit :=
  let expiry_height := expiry_height tx in
  let old := validate_expiry_height_max expiry_height true block_height tx in
  match activation_height Nu5 network with
  | Some nu5_activation_height =>
      if nu5_activation_height <=? block_height then
        if negb (bool_decide (expiry_height = Some block_height))
        then hash ← lift (tx_hash tx); Err (CoinbaseExpiryBlockHeight expiry_height block_height hash) else Ok tt
      else old
  | None => old
  end.

Definition non_coinbase_expiry_height (block_height : Height) tx : Res TransactionError unit :=
  if is_overwintered tx then
    let expiry_height := expiry_height tx in
    _ ← validate_expiry_height_max expiry_height false block_height tx;
    _ ← validate_expiry_height_mined expiry_height block_height tx;
    Ok tt
  else Ok tt.

Definition tx_transparent_coinbase_spends_maturity (network : Network) tx (height : Height)
    (block_new_outputs : gmap OutPoint OrderedUtxo) (spent_utxos : gmap OutPoint Utxo) : Res TransactionError unit :=
  foldM (λ _ spend,
      utxo ← expect (match block_new_outputs !! spend with
                     | Some ordered_utxo => Some (utxo ordered_utxo)
                     | None => spent_utxos !! spend
                     end);
      let spend_restriction := coinbase_spend_restriction tx network height in
      map_err TxValidateContextError (transparent_coinbase_spend spend spend_restriction utxo))
    tt (spent_outpoints tx).

Definition consensus_branch_id tx (height : Height) (network : Network) : Res TransactionError unit :=
  current_nu ← lift (current network height);
  if nu_ltb current_nu Nu5 || (version tx <? 5) then Ok tt else
  match tx_network_upgrade tx with
  | None => Err MissingConsensusBranchId
  | Some tx_nu => if bool_decide (tx_nu = current_nu) then Ok tt else Err WrongConsensusBranchId
  end.

End Checks.

(** ** The rules that the checks enforce *)

Section Rules.
Context `{CL : !CurveLib, LZ : !LibRustZcash, SL : !SighashLib, HF : !HashFns, ZS : !ScriptLib, VL : !VerifierLib}.
Implicit Types (tx : Transaction).

(** A transaction spends something: a transparent output, or a note of one of the shielded pools. *)
Definition spends_something tx : Prop :=
  inputs tx ≠ [] ∨ sprout_joinsplits tx ≠ [] ∨ sapling_nullifiers tx ≠ [] ∨
  orchard_actions tx ≠ [] ∧ flags_contains (default 0 (orchard_flags tx)) ENABLE_SPENDS = true.
Definition creates_something tx : Prop :=
  outputs tx ≠ [] ∨ sprout_joinsplits tx ≠ [] ∨ sapling_outputs tx ≠ [] ∨
  orchard_actions tx ≠ [] ∧ flags_contains (default 0 (orchard_flags tx)) ENABLE_OUTPUTS = true.

(** A coinbase transaction has no shielded inputs. *)
Definition coinbase_shielded tx : Prop :=
  sprout_joinsplits tx = [] ∧ sapling_nullifiers tx = [] ∧
  match orchard_shielded_data tx with Some data => flags_contains (flags data) ENABLE_SPENDS = false | None => True end.

(** The expiry heights: a coinbase transaction expires at its height from NU5, and other transactions are not
    expired. *)
Definition expires_ok (network : Network) (height : Height) tx : Prop :=
  if is_coinbase tx && reached Nu5 network height then expiry_height tx = Some height
  else if is_coinbase tx then ∀ h, expiry_height tx = Some h → h ≤ MAX_EXPIRY_HEIGHT
  else ∀ h, expiry_height tx = Some h → height ≤ h ≤ MAX_EXPIRY_HEIGHT.

Lemma nonempty_length {A} (l : list A) : (0 <? Z.of_nat (length l)) = negb (bool_decide (l = [])).
Proof. by destruct l. Qed.
Lemma joinsplit_count_spec tx : joinsplit_count tx = Z.of_nat (length (sprout_joinsplits tx)).
Proof. unfold joinsplit_count, sprout_joinsplits. by destruct (joinsplit_data tx). Qed.

Lemma sapling_spends_spec {E} tx : ∃ l, sapling_spends_per_anchor (E := E) tx = Ok l ∧ length l = length (sapling_nullifiers tx).
Proof.
  assert (H : ∀ {Sh Ps} `{!AnchorVariant Sh Ps} (d : SaplingShieldedData Sh Ps),
    ∃ l, spends_per_anchor (E := E) d = Ok l ∧ length l = length (sapling_data_nullifiers d)).
  { intros Sh Ps AV [v tr sg]. unfold spends_per_anchor, sapling_data_nullifiers, shared_anchor, spends. cbn.
    destruct tr as [a sp o|o]; [|by exists []]. exists ((λ s, to_per_spend s a) <$> sp). rewrite !length_fmap. split; [|done].
    apply collect_Ok. by rewrite <- list_fmap_compose. }
  destruct tx as [| | |ins outs lt ex js [d|]|nu lt ex ins outs [d|] orc]; try (by exists []).
  - apply (H _ _ _ d).
  - apply (H _ _ _ d).
Qed.

Lemma has_inputs_spec {E} tx : ∃ b, has_transparent_or_shielded_inputs (E := E) tx = Ok b ∧ (b = true ↔ spends_something tx).
Proof.
  unfold has_transparent_or_shielded_inputs, has_shielded_inputs, has_transparent_inputs, spends_something.
  destruct (sapling_spends_spec (E := E) tx) as (l & -> & Hl). rewrite joinsplit_count_spec, Ok_bind, Hl, !nonempty_length.
  destruct (bool_decide_reflect (inputs tx = [])); [|by exists true; naive_solver].
  destruct (bool_decide_reflect (sprout_joinsplits tx = [])); [|by exists true; naive_solver].
  eexists. split; [reflexivity|]. rewrite orb_true_iff, andb_true_iff, !negb_true_iff, !bool_decide_eq_false. tauto.
Qed.

Lemma has_outputs_spec tx : has_transparent_or_shielded_outputs tx = true ↔ creates_something tx.
Proof.
  unfold has_transparent_or_shielded_outputs, has_shielded_outputs, has_transparent_outputs, creates_something.
  rewrite joinsplit_count_spec, !nonempty_length, !orb_true_iff, andb_true_iff, !negb_true_iff, !bool_decide_eq_false. tauto.
Qed.

Lemma has_inputs_and_outputs_exact tx : has_inputs_and_outputs tx = Ok tt ↔ spends_something tx ∧ creates_something tx.
Proof.
  unfold has_inputs_and_outputs. destruct (has_inputs_spec (E := TransactionError) tx) as (b & -> & <-). rewrite <- has_outputs_spec, Ok_bind.
  destruct b, (has_transparent_or_shielded_outputs tx); naive_solver.
Qed.

Lemma coinbase_shielded_exact tx : is_coinbase tx = true → coinbase_tx_no_prevout_joinsplit_spend tx = Ok tt ↔ coinbase_shielded tx.
Proof.
  intros Hc. unfold coinbase_tx_no_prevout_joinsplit_spend, coinbase_shielded. rewrite Hc, joinsplit_count_spec, nonempty_length.
  destruct (sapling_spends_spec (E := TransactionError) tx) as (l & -> & Hl). rewrite Ok_bind, Hl, nonempty_length.
  destruct (bool_decide_reflect (sprout_joinsplits tx = [])); [|naive_solver].
  destruct (bool_decide_reflect (sapling_nullifiers tx = [])); [|naive_solver]. cbn [negb].
  destruct (orchard_shielded_data tx) as [d|]; [|naive_solver]. destruct (flags_contains _ _); naive_solver.
Qed.

Lemma and_iff_compat (P Q R S : Prop) : (P ↔ Q) → (R ↔ S) → P ∧ R ↔ Q ∧ S.
Proof. tauto. Qed.

Lemma vpub_zero_exact tx : joinsplit_has_vpub_zero tx = Ok tt ↔
  Forall (λ j, zatoshis (vpub_old j) = 0 ∨ zatoshis (vpub_new j) = 0) (sprout_joinsplits tx).
Proof.
  unfold joinsplit_has_vpub_zero, output_values_to_sprout, input_values_from_sprout, sprout_joinsplits.
  rewrite foldM_unit. destruct (joinsplit_data tx) as [d|]; [|by split; constructor].
  induction (joinsplits d) as [|j l IH]; [by split; constructor|]. cbn [fmap list_fmap zip zip_with]. rewrite !Forall_cons.
  apply and_iff_compat; [|exact IH]. cbn [fst snd].
  destruct (Z.eqb_spec (zatoshis (vpub_old j)) 0), (Z.eqb_spec (zatoshis (vpub_new j)) 0); cbn; (split; intros H; first [done|by left|by right|by destruct H]).
Qed.

Lemma disabled_sprout_exact tx height network c : activation_height Canopy network = Some c →
  disabled_add_to_sprout_pool tx height network = Ok tt ↔
  (c ≤ height → Forall (λ j, zatoshis (vpub_old j) = 0) (sprout_joinsplits tx)).
Proof.
  intros Hc. unfold disabled_add_to_sprout_pool. rewrite Hc. cbn [expect]. rewrite Ok_bind.
  destruct (Z.leb_spec c height) as [Hle|Hgt]; [|naive_solver lia]. rewrite foldM_unit.
  unfold output_values_to_sprout, sprout_joinsplits. destruct (joinsplit_data tx) as [d|]; [|naive_solver].
  rewrite Forall_fmap. split.
  - intros H _. eapply Forall_impl; [exact H|]. intros j. cbn. destruct (Z.eqb_spec (zatoshis (vpub_old j)) 0); done.
  - intros H. eapply Forall_impl; [by apply H|]. intros j Hj. cbn. by rewrite Hj.
Qed.

Lemma check_for_duplicates_exact {T} `{Countable T} (l : list T) wrapper : check_for_duplicates l wrapper = Ok tt ↔ NoDup l.
Proof.
  assert (Hd : ∀ (X : gset T), is_ok (foldM (λ (hash_set : gset T) item,
    if bool_decide (item ∈ hash_set) then Err (wrapper item) else Ok ({[item]} ∪ hash_set)) X l) = true ↔ NoDup l ∧ Forall (λ x, x ∉ X) l).
  { induction l as [|x l IH]; intros X; cbn; [split; [by repeat constructor|done]|]. rewrite NoDup_cons, Forall_cons.
    destruct (bool_decide_reflect (x ∈ X)) as [Hx|Hx]; [split; [done|]; naive_solver|]. cbn. rewrite IH. split.
    - intros [Hn Hf]. split_and!; [|done|done|].
      + intros Hin. eapply Forall_forall in Hf; [|exact Hin]. set_solver.
      + eapply Forall_impl; [exact Hf|]. set_solver.
    - intros [[Hx' Hn] [_ Hf]]. split; [done|]. apply Forall_forall. intros y Hy. eapply Forall_forall in Hf; [|exact Hy]. set_solver. }
  specialize (Hd ∅). unfold check_for_duplicates. rewrite (comm (R := iff) and) in Hd.
  assert (Hf : Forall (λ x, x ∉ (∅ : gset T)) l) by (apply Forall_true; set_solver).
  destruct (foldM _ ∅ l) as [s| |]; cbn in *; naive_solver.
Qed.

Lemma spend_conflicts_exact tx : spend_conflicts tx = Ok tt ↔
  NoDup (spent_outpoints tx) ∧ NoDup (sprout_nullifiers tx) ∧ NoDup (sapling_nullifiers tx) ∧ NoDup (orchard_nullifiers tx).
Proof.
  unfold spend_conflicts.
  rewrite <- (check_for_duplicates_exact (spent_outpoints tx) TxDuplicateTransparentSpend),
    <- (check_for_duplicates_exact (sprout_nullifiers tx) TxDuplicateSproutNullifier),
    <- (check_for_duplicates_exact (sapling_nullifiers tx) TxDuplicateSaplingNullifier),
    <- (check_for_duplicates_exact (orchard_nullifiers tx) TxDuplicateOrchardNullifier).
  repeat match goal with |- context [check_for_duplicates ?l ?w] => destruct (check_for_duplicates l w) as [[]| |]; cbn; [|naive_solver..] end.
  naive_solver.
Qed.

Lemma forall_Some {A} (x : A) (P : A → Prop) : (∀ y, Some x = Some y → P y) ↔ P x.
Proof. naive_solver. Qed.

(** An error that has the hash of the transaction is no success. *)
Lemma hash_error_iff tx (e : Hash → TransactionError) (P : Prop) : ¬ P →
  (hash ← lift (tx_hash tx); Err (e hash) : Res TransactionError unit) = Ok tt ↔ P.
Proof. intros HP. split; [|done]. by destruct (tx_hash tx) as [|[]|]. Qed.

Lemma expiry_max_exact tx c height : validate_expiry_height_max (expiry_height tx) c height tx = Ok tt ↔
  ∀ h, expiry_height tx = Some h → h ≤ MAX_EXPIRY_HEIGHT.
Proof.
  unfold validate_expiry_height_max. destruct (expiry_height tx) as [h|]; [|by split]. rewrite forall_Some.
  destruct (Z.ltb_spec MAX_EXPIRY_HEIGHT h); [apply hash_error_iff; lia|by split].
Qed.

Lemma expires_exact tx network height :
  (if is_coinbase tx then coinbase_expiry_height height tx network else non_coinbase_expiry_height height tx) = Ok tt ↔
  expires_ok network height tx.
Proof.
  unfold expires_ok, reached. destruct (is_coinbase tx); cbn [andb].
  - unfold coinbase_expiry_height. destruct (activation_height Nu5 network) as [a|]; [|apply expiry_max_exact].
    destruct (a <=? height); [|apply expiry_max_exact]. case_bool_decide; cbn [negb]; [by split|by apply hash_error_iff].
  - unfold non_coinbase_expiry_height. destruct (is_overwintered tx) eqn:Ho; [|by destruct tx]. pose proof (expiry_max_exact tx false height) as Hm.
    unfold validate_expiry_height_mined. destruct (validate_expiry_height_max _ _ _ _) as [[]| |]; cbn.
    + pose proof (proj1 Hm eq_refl) as Hm'. destruct (expiry_height tx) as [h|]; [|by split]. rewrite forall_Some in Hm' |- *.
      destruct (Z.ltb_spec h height); [|by split]. split; [by destruct (tx_hash tx) as [|[]|]|lia].
    + split; [done|]. intros H. destruct (proj2 Hm); [|done]. intros h Hh. apply (H h Hh).
    + split; [done|]. intros H. destruct (proj2 Hm); [|done]. intros h Hh. apply (H h Hh).
Qed.

(** A version 5 transaction has the branch id of the upgrade of its block. *)
Lemma branch_id_exact tx network height nu : current network height = Ok nu →
  consensus_branch_id tx height network = Ok tt ↔ (nu_ltb nu Nu5 = false → 5 ≤ version tx → tx_network_upgrade tx = Some nu).
Proof.
  intros Hnu. unfold consensus_branch_id. rewrite Hnu. cbn [lift]. rewrite Ok_bind.
  destruct (nu_ltb nu Nu5); cbn [orb]; [by split|]. destruct (Z.ltb_spec (version tx) 5) as [Hv|Hv].
  - split; [intros _ _ ?; lia|done].
  - destruct (tx_network_upgrade tx) as [n|].
    + destruct (bool_decide_reflect (n = nu)) as [->|Hn]; [by split|]. split; [done|]. intros H. injection (H eq_refl Hv) as ->. done.
    + split; [done|]. intros H. discriminate (H eq_refl Hv).
Qed.

(** The lock time is a height below that of the block, or a time before that of the block. *)
Definition unlocked_at tx (height time : Z) : Prop :=
  match lock_time tx with
  | Some (LockHeight h) => h < height
  | Some (LockTimestamp t) => t < time
  | None => True
  end.
Lemma lock_time_exact tx height time : lock_time_has_passed tx height (Some time) = Ok tt ↔ unlocked_at tx height time.
Proof.
  unfold lock_time_has_passed, unlocked_at. destruct (lock_time tx) as [[h|t]|]; cbn [expect]; rewrite ?Ok_bind.
  - destruct (Z.ltb_spec h height); split; (done || lia).
  - destruct (Z.ltb_spec t time); split; (done || lia).
  - done.
Qed.

(** *** The rules *)

Record tx_rules (network : Network) (height canopy : Height) (nu : NetworkUpgrade) tx : Prop := {
  rule_spends : spends_something tx;
  rule_creates : creates_something tx;
  rule_flags : has_enough_orchard_flags tx = true;
  rule_branch : nu_ltb nu Nu5 = false → 5 ≤ version tx → tx_network_upgrade tx = Some nu;
  rule_coinbase : if is_coinbase tx then coinbase_shielded tx else is_valid_non_coinbase tx = true;
  rule_expiry : expires_ok network height tx;
  rule_vpub : Forall (λ j, zatoshis (vpub_old j) = 0 ∨ zatoshis (vpub_new j) = 0) (sprout_joinsplits tx);
  rule_sprout : canopy ≤ height → Forall (λ j, zatoshis (vpub_old j) = 0) (sprout_joinsplits tx);
  rule_outpoints : NoDup (spent_outpoints tx);
  rule_sprout_nullifiers : NoDup (sprout_nullifiers tx);
  rule_sapling_nullifiers : NoDup (sapling_nullifiers tx);
  rule_orchard_nullifiers : NoDup (orchard_nullifiers tx);
}.

End Rules.
