(* ===== verification/TxVerifier.v ===== *)
(** * Transaction verification

    [zebra-consensus/src/transaction.rs]: the requests and responses of the transaction verifier, and
    [Verifier::call], the verification of a transaction of a block or of the mempool; and the JoinSplit proofs of
    [zebra-consensus/src/primitives/groth16.rs].

    The state and the mempool services are records of their answers to the requests of the verifier. The
    asynchronous checks end in an order that is an argument. The task that polls the mempool later, which has no
    result, is left out. *)

From stdpp Require Import strings.
From S2P Require Import Prelude Height Amount Serialization Codec ValueBalance Network Subsidy Transaction Merkle.
From S2P Require Import ShieldedCodec TransactionCodec Sighash Unmined Reversible Script Ledger SpendChecks TxChecks.

Section Verifier.
Context `{CL : !CurveLib, LZ : !LibRustZcash, SL : !SighashLib, HF : !HashFns, ZS : !ScriptLib, VL : !VerifierLib}.

(** ** Requests and responses *)

Inductive Request :=
| BlockRequest (transaction_hash : Hash) (transaction : Transaction) (known_outpoint_hashes : gset Hash)
    (known_utxos : gmap OutPoint OrderedUtxo) (height : Height) (time : Z)
| MempoolRequest (transaction : UnminedTx) (height : Height).

Inductive Response :=
| BlockResponse (tx_id : UnminedTxId) (miner_fee : option (Amount NonNegative)) (sigops : Z)
| MempoolResponse (transaction : VerifiedUnminedTx) (spent_mempool_outpoints : list OutPoint).

Definition req_transaction (self : Request) : Transaction :=
  match self with
  | BlockRequest _ transaction _ _ _ _ => transaction
  | MempoolRequest transaction _ => unmined_transaction transaction
  end.
Definition mempool_transaction (self : Request) : option UnminedTx :=
  match self with BlockRequest _ _ _ _ _ _ => None | MempoolRequest transaction _ => Some transaction end.
Definition req_tx_id (self : Request) : Run UnminedTxId :=
  match self with
  | BlockRequest _ transaction _ _ _ _ => unmined_id transaction
  | MempoolRequest transaction _ => Ok (unmined_tx_id transaction)
  end.
Definition req_known_utxos (self : Request) : gmap OutPoint OrderedUtxo :=
  match self with BlockRequest _ _ _ known_utxos _ _ => known_utxos | MempoolRequest _ _ => ∅ end.
Definition req_height (self : Request) : Height :=
  match self with BlockRequest _ _ _ _ height _ | MempoolRequest _ height => height end.
Definition req_block_time (self : Request) : option Z :=
  match self with BlockRequest _ _ _ _ _ time => Some time | MempoolRequest _ _ => None end.
Definition is_mempool (self : Request) : bool :=
  match self with BlockRequest _ _ _ _ _ _ => false | MempoolRequest _ _ => true end.
Definition upgrade (self : Request) (network : Network) : Run NetworkUpgrade := current network (req_height self).

Definition rsp_miner_fee (self : Response) : option (Amount NonNegative) :=
  match self with
  | BlockResponse _ miner_fee _ => miner_fee
  | MempoolResponse transaction _ => Some (verified_miner_fee transaction)
  end.
Definition rsp_sigops (self : Response) : Z :=
  match self with
  | BlockResponse _ _ sigops => sigops
  | MempoolResponse transaction _ => verified_legacy_sigop_count transaction
  end.

(** ** Services *)

(** The state service, with a timeout. *)
Record StateService := mkState {
  await_utxo : OutPoint → Res BoxError Utxo;
  unspent_best_chain_utxo : OutPoint → Res BoxError (option Utxo);
  best_chain_next_median_time_past : Res string Z;
  check_nullifiers_and_anchors : UnminedTx → Res BoxError unit;
}.

(** The mempool service: [AwaitOutput], with a timeout. *)
Inductive AwaitError := Elapsed | AwaitFailed (e : BoxError).
Definition MempoolService : Type := OutPoint → Res AwaitError Output.

Definition mempool_best_chain_next_median_time_past (state : StateService) : Res TransactionError Z :=
  map_err ValidateMempoolLockTimeError (best_chain_next_median_time_past state).

(** ** Spent outputs *)

Record SpentUtxos := mkSpent {
  spent_utxos_map : gmap OutPoint Utxo;
  spent_slots : list (option Output);
  mempool_spends : list (nat * OutPoint);
}.

(** The body of the loop over the inputs. *)
Definition spend_input (req : Request) (state : StateService) (self : SpentUtxos) (i : nat * Input) :
    Res TransactionError SpentUtxos :=
  let found outpoint u := mkSpent (<[outpoint := u]> (spent_utxos_map self))
                            (<[i.1 := Some (output u)]> (spent_slots self)) (mempool_spends self) in
  match i.2 with
  | PrevOut outpoint _ _ =>
      match req_known_utxos req !! outpoint with
      | Some ordered => Ok (found outpoint (utxo ordered))
      | None =>
          if is_mempool req then
            u ← map_err (λ _, TransparentInputNotFound) (unspent_best_chain_utxo state outpoint);
            match u with
            | None => Ok (mkSpent (spent_utxos_map self) (spent_slots self) (mempool_spends self ++ [(i.1, outpoint)]))
            | Some u => Ok (found outpoint u)
            end
          else
            u ← map_err from_box_error (await_utxo state outpoint);
            Ok (found outpoint u)
      end
  | Coinbase _ _ _ => Ok self
  end.

(** The body of the loop over the outpoints that the mempool has. *)
Definition spend_mempool_output (req : Request) (mempool : MempoolService) (self : SpentUtxos) (spend : nat * OutPoint) :
    Res TransactionError SpentUtxos :=
  output ← map_err (λ e, match e with Elapsed => TransparentInputNotFound | AwaitFailed e => from_box_error e end)
             (mempool spend.2);
  Ok (mkSpent (<[spend.2 := mkUtxo output (req_height req) false]> (spent_utxos_map self))
        (<[spend.1 := Some output]> (spent_slots self)) (mempool_spends self)).

Definition spent_utxos (tx : Transaction) (req : Request) (state : StateService) (mempool : option MempoolService) :
    Res TransactionError (gmap OutPoint Utxo * list Output * list OutPoint) :=
  let inputs := inputs tx in
  spent ← foldM (spend_input req state) (mkSpent ∅ (replicate (length inputs) None) []) (imap pair inputs);
  spent ← match mempool with
          | Some mempool => foldM (spend_mempool_output req mempool) spent (mempool_spends spent)
          | None => if negb (bool_decide (mempool_spends spent = [])) then Err TransparentInputNotFound else Ok spent
          end;
  Ok (spent_utxos_map spent, omap id (spent_slots spent), (mempool_spends spent).*2).

Definition check_maturity_height (network : Network) (request : Request) (spent_utxos : gmap OutPoint Utxo) :
    Res TransactionError unit :=
  tx_transparent_coinbase_spends_maturity network (req_transaction request) (req_height request)
    (req_known_utxos request) spent_utxos.

(** ** Asynchronous checks *)

(** The outcomes of the checks that a set of futures waits for. *)
Definition AsyncChecks : Type := list (Res BoxError unit).

(** [AsyncChecks::check]: the checks end in some order, and the first failure ends the others. *)
Definition async_check (checks : AsyncChecks) : Res BoxError unit := foldM (λ _ check, check) tt checks.

Definition outcome (error : LibError → BoxError) (result : option LibError) : Res BoxError unit :=
  match result with None => Ok tt | Some e => Err (error e) end.

(** [h_sig], personalized with "ZcashComputehSig". *)
Definition h_sig (random_seed nf1 nf2 joinsplit_pub_key : list Z) : Hash :=
  blake2b_256 [90; 99; 97; 115; 104; 67; 111; 109; 112; 117; 116; 101; 104; 83; 105; 103]
    (random_seed ++ nf1 ++ nf2 ++ joinsplit_pub_key).

(** [Item::from_joinsplit]: the proof and the bytes of its public input. *)
Definition from_joinsplit (joinsplit : JoinSplit) (joinsplit_pub_key : list Z) : Res TransactionError (list Z * list Z) :=
  let nf i := nth i (joinsplit_nullifiers joinsplit) [] in
  let mac i := nth i (vmacs joinsplit) [] in
  let cm i := nth i (joinsplit_commitments joinsplit) [] in
  let h_sig := h_sig (random_seed joinsplit) (nf 0%nat) (nf 1%nat) joinsplit_pub_key in
  let public_input :=
    joinsplit_anchor joinsplit ++ h_sig ++ nf 0%nat ++ mac 0%nat ++ nf 1%nat ++ mac 1%nat ++ cm 0%nat ++ cm 1%nat ++
    Amount.to_bytes (vpub_old joinsplit) ++ Amount.to_bytes (vpub_new joinsplit) in
  match groth16_proof_read (joinsplit_zkproof joinsplit) with
  | Some e => Err (MalformedGroth16 e)
  | None => Ok (joinsplit_zkproof joinsplit, public_input)
  end.

Definition joinsplit_check (item : list Z * list Z) : Res BoxError unit :=
  match groth16_verify item.1 item.2 with None => Ok tt | Some e => Err (BoxTransaction (Groth16 e)) end.

Definition verify_sprout_shielded_data (joinsplit_data : option JoinSplitData) (shielded_sighash : Hash) :
    Res TransactionError AsyncChecks :=
  match joinsplit_data with
  | Some joinsplit_data =>
      checks ← foldM (λ checks joinsplit,
                 item ← from_joinsplit joinsplit (pub_key joinsplit_data);
                 Ok (checks ++ [joinsplit_check item])) [] (joinsplits joinsplit_data);
      Ok (checks ++ [outcome (λ e, BoxOther (OtherLib e)) (ed25519_verify (pub_key joinsplit_data) (sig joinsplit_data) shielded_sighash)])
  | None => Ok []
  end.

Definition verify_sapling_bundle (bundle : option LibSaplingBundle) (sighash : Hash) : AsyncChecks :=
  match bundle with
  | Some bundle => [outcome (λ e, BoxOther (OtherLib e)) (sapling_verify bundle sighash)]
  | None => []
  end.

Definition verify_orchard_bundle (bundle : option LibOrchardBundle) (sighash : Hash) : AsyncChecks :=
  match bundle with
  | Some bundle => [outcome (λ e, BoxOther (OtherLib e)) (halo2_verify bundle sighash)]
  | None => []
  end.

Definition verify_transparent_inputs_and_outputs (random : list Z → LibHashType → Hash) (request : Request)
    (cached_ffi_transaction : CachedFfiTransaction) : AsyncChecks :=
  let transaction := req_transaction request in
  if is_coinbase transaction then []
  else (λ input_index, map_err (λ e, BoxOther (OtherScript e)) (script_call random cached_ffi_transaction input_index))
         <$> seq 0 (length (inputs transaction)).

(** ** Versions *)

Definition verify_v4_transaction_network_upgrade (transaction : Transaction) (network_upgrade : NetworkUpgrade) :
    Res TransactionError unit :=
  match network_upgrade with
  | Network.Sapling | Blossom | Heartwood | Canopy | Nu5 | Nu6 | Nu6_1 => Ok tt
  | Genesis | BeforeOverwinter | Overwinter | Nu7 => Err (UnsupportedByNetworkUpgrade (version transaction) network_upgrade)
  end.

Definition verify_v5_transaction_network_upgrade (transaction : Transaction) (network_upgrade : NetworkUpgrade) :
    Res TransactionError unit :=
  match network_upgrade with
  | Nu5 | Nu6 | Nu6_1 | Nu7 => Ok tt
  | Genesis | BeforeOverwinter | Overwinter | Network.Sapling | Blossom | Heartwood | Canopy =>
      Err (UnsupportedByNetworkUpgrade (version transaction) network_upgrade)
  end.

Definition verify_v4_transaction (random : list Z → LibHashType → Hash) (request : Request) (network : Network)
    (cached_ffi_transaction : CachedFfiTransaction) (joinsplit_data : option JoinSplitData) : Res TransactionError AsyncChecks :=
  let tx := req_transaction request in
  nu ← lift (upgrade request network);
  _ ← verify_v4_transaction_network_upgrade tx nu;
  let sapling_bundle := lib_sapling_bundle (tx_data (cached_sighasher cached_ffi_transaction)) in
  sighash ← lift (sighash (cached_sighasher cached_ffi_transaction) HASH_ALL None);
  sprout ← verify_sprout_shielded_data joinsplit_data sighash;
  Ok (verify_transparent_inputs_and_outputs random request cached_ffi_transaction ++ sprout ++
      verify_sapling_bundle sapling_bundle sighash).

Definition verify_v5_transaction (random : list Z → LibHashType → Hash) (request : Request) (network : Network)
    (cached_ffi_transaction : CachedFfiTransaction) : Res TransactionError AsyncChecks :=
  let transaction := req_transaction request in
  nu ← lift (upgrade request network);
  _ ← verify_v5_transaction_network_upgrade transaction nu;
  let sapling_bundle := lib_sapling_bundle (tx_data (cached_sighasher cached_ffi_transaction)) in
  let orchard_bundle := lib_orchard_bundle (tx_data (cached_sighasher cached_ffi_transaction)) in
  sighash ← lift (sighash (cached_sighasher cached_ffi_transaction) HASH_ALL None);
  Ok (verify_transparent_inputs_and_outputs random request cached_ffi_transaction ++
      verify_sapling_bundle sapling_bundle sighash ++ verify_orchard_bundle orchard_bundle sighash).

(** ** The verifier *)

(** The checks before the verifier waits for the state. *)
Definition quick_checks (network : Network) (req : Request) : Res TransactionError unit :=
  let tx := req_transaction req in
  _ ← has_inputs_and_outputs tx;
  _ ← check_has_enough_orchard_flags tx;
  _ ← consensus_branch_id tx (req_height req) network;
  if is_mempool req && is_coinbase tx then Err CoinbaseInMempool else
  _ ← (if is_coinbase tx then coinbase_tx_no_prevout_joinsplit_spend tx
       else if negb (is_valid_non_coinbase tx) then Err NonCoinbaseHasCoinbaseInput else Ok tt);
  _ ← (if is_coinbase tx then coinbase_expiry_height (req_height req) tx network
       else non_coinbase_expiry_height (req_height req) tx);
  _ ← joinsplit_has_vpub_zero tx;
  _ ← disabled_add_to_sprout_pool tx (req_height req) network;
  spend_conflicts tx.

Definition check_lock_time (req : Request) (state : StateService) : Res TransactionError unit :=
  let tx := req_transaction req in
  match req_block_time req with
  | Some block_time => lock_time_has_passed tx (req_height req) (Some block_time)
  | None =>
      next_median_time_past ←
        (if lock_time_is_time tx then time ← mempool_best_chain_next_median_time_past state; Ok (Some time) else Ok None);
      lock_time_has_passed tx (req_height req) next_median_time_past
  end.

(** The checks of the scripts, the proofs and the signatures, and of the nullifiers and anchors of a mempool
    transaction. *)
Definition async_checks (random : list Z → LibHashType → Hash) (network : Network) (state : StateService) (req : Request)
    (cached_ffi_transaction : CachedFfiTransaction) : Res TransactionError AsyncChecks :=
  checks ← match req_transaction req with
           | V1 _ _ _ | V2 _ _ _ _ | V3 _ _ _ _ _ => Err WrongVersion
           | V4 _ _ _ _ joinsplit_data _ => verify_v4_transaction random req network cached_ffi_transaction joinsplit_data
           | V5 _ _ _ _ _ _ _ => verify_v5_transaction random req network cached_ffi_transaction
           end;
  Ok (checks ++ match mempool_transaction req with
                | Some unmined_tx => [check_nullifiers_and_anchors state unmined_tx]
                | None => []
                end).

(** The fee of a transaction that is not a coinbase transaction. The balance of a coinbase transaction is
    computed, and not used. *)
Definition miner_fee (tx : Transaction) (spent_utxos : gmap OutPoint Utxo) : Res TransactionError (option (Amount NonNegative)) :=
  match value_balance tx spent_utxos with
  | Panic => Panic
  | value_balance =>
      zip233_amount ← Amount.zero;
      if is_coinbase tx then Ok None else
      value_balance ← map_err (λ _, IncorrectFee) value_balance;
      tx_rtv ← map_err (λ _, IncorrectFee) (remaining_transaction_value value_balance);
      fee ← map_err (λ _, IncorrectFee) (Amount.sub tx_rtv zip233_amount);
      Ok (Some fee)
  end.

(** [Verifier::call]. The order in which the checks end is [order], and [random] is the output of the random number
    generator for the script verifier. *)
Definition verify (order : AsyncChecks → AsyncChecks) (random : list Z → LibHashType → Hash) (network : Network)
    (state : StateService) (mempool : option MempoolService) (req : Request) : Res TransactionError Response :=
  let tx := req_transaction req in
  tx_id ← lift (req_tx_id req);
  _ ← quick_checks network req;
  _ ← check_lock_time req state;
  '(utxos, spent_outputs, spent_mempool_outpoints) ← spent_utxos tx req state mempool;
  _ ← (if is_mempool req then check_maturity_height network req utxos else Ok tt);
  nu ← lift (upgrade req network);
  cached_ffi_transaction ← map_err (λ _, UnsupportedByNetworkUpgrade (version tx) nu) (cached_new tx spent_outputs nu);
  checks ← async_checks random network state req cached_ffi_transaction;
  _ ← map_err from_box_error (async_check (order checks));
  miner_fee ← miner_fee tx utxos;
  sigops ← map_err (λ e, Script (Unknown e)) (sigops tx);
  match req with
  | BlockRequest _ _ _ _ _ _ =>
      Ok (BlockResponse tx_id miner_fee (Z.min (2 ^ 32 - 1) (sigops + p2sh_sigops cached_ffi_transaction)))
  | MempoolRequest tx _ =>
      miner_fee ← expect miner_fee;
      transaction ← map_err Zip317 (verified_new tx miner_fee sigops (p2sh_sigops cached_ffi_transaction)
                                      (all_previous_outputs cached_ffi_transaction));
      Ok (MempoolResponse transaction spent_mempool_outpoints)
  end.
End Verifier.

(** ** The outputs that a transaction spends *)

Section Spent.
Context `{CL : !CurveLib, LZ : !LibRustZcash, SL : !SighashLib, HF : !HashFns, ZS : !ScriptLib, VL : !VerifierLib}.
Context (req : Request) (state : StateService) (mempool : option MempoolService).

(** What a transaction of the request spends: an output of the same block, or of the chain, or of the mempool. *)
Definition chain_utxo (p : OutPoint) : option Utxo :=
  match req_known_utxos req !! p with
  | Some ordered => Some (utxo ordered)
  | None => if is_mempool req then match unspent_best_chain_utxo state p with Ok u => u | _ => None end
            else match await_utxo state p with Ok u => Some u | _ => None end
  end.
Definition mempool_utxo (p : OutPoint) : option Utxo :=
  m ← mempool; match m p with Ok o => Some (mkUtxo o (req_height req) false) | _ => None end.
Definition resolve (p : OutPoint) : option Utxo :=
  match chain_utxo p with Some u => Some u | None => mempool_utxo p end.

(** The outputs that are written: a slot and an entry of the map for each. *)
Definition Writes : Type := list (nat * OutPoint * Utxo).
Definition write_map (m : gmap OutPoint Utxo) (w : Writes) : gmap OutPoint Utxo := foldl (λ m e, <[e.1.2 := e.2]> m) m w.
Definition write_slots (l : list (option Output)) (w : Writes) : list (option Output) :=
  foldl (λ l e, <[e.1.1 := Some (output e.2)]> l) l w.

Definition found (i : nat * Input) : option (nat * OutPoint * Utxo) :=
  match i.2 with PrevOut p _ _ => u ← chain_utxo p; Some (i.1, p, u) | Coinbase _ _ _ => None end.
Definition missing (i : nat * Input) : option (nat * OutPoint) :=
  match i.2 with
  | PrevOut p _ _ => match chain_utxo p with Some _ => None | None => Some (i.1, p) end
  | Coinbase _ _ _ => None
  end.
Definition found_mempool (s : nat * OutPoint) : option (nat * OutPoint * Utxo) := u ← mempool_utxo s.2; Some (s.1, s.2, u).

Lemma spend_input_Ok s i s' : spend_input req state s i = Ok s' →
  s' = mkSpent (write_map (spent_utxos_map s) (option_list (found i))) (write_slots (spent_slots s) (option_list (found i)))
         (mempool_spends s ++ option_list (missing i)).
Proof.
  destruct i as [k [p sc q|h d q]]; unfold spend_input, found, missing, chain_utxo; cbn [fst snd].
  2: { intros [= <-]. destruct s. cbn. by rewrite (right_id_L [] (++)). }
  destruct (req_known_utxos req !! p) as [o|].
  { intros [= <-]. cbn. by rewrite (right_id_L [] (++)). }
  destruct (is_mempool req).
  - intros (u & Hu%map_err_Ok & H)%bind_Ok. rewrite Hu. destruct u as [u|]; injection H as <-; cbn; by rewrite ?(right_id_L [] (++)).
  - intros (u & Hu%map_err_Ok & [= <-])%bind_Ok. rewrite Hu. cbn. by rewrite (right_id_L [] (++)).
Qed.

Lemma spend_inputs_Ok l s s' : foldM (spend_input req state) s l = Ok s' →
  s' = mkSpent (write_map (spent_utxos_map s) (omap found l)) (write_slots (spent_slots s) (omap found l))
         (mempool_spends s ++ omap missing l).
Proof.
  revert s s'. induction l as [|i l IH]; intros s s' H; cbn [foldM] in H.
  { injection H as <-. destruct s. cbn. by rewrite (right_id_L [] (++)). }
  apply bind_Ok in H as (s1 & ->%spend_input_Ok & ->%IH). cbn [spent_utxos_map spent_slots mempool_spends omap list_omap].
  rewrite <- (assoc_L (++)). by destruct (found i), (missing i).
Qed.

Lemma spend_mempool_Ok m l s s' : mempool = Some m → foldM (spend_mempool_output req m) s l = Ok s' →
  s' = mkSpent (write_map (spent_utxos_map s) (omap found_mempool l)) (write_slots (spent_slots s) (omap found_mempool l))
         (mempool_spends s) ∧ Forall (λ x, is_Some (mempool_utxo x.2)) l.
Proof.
  intros Hm. revert s s'. induction l as [|i l IH]; intros s s' H; cbn [foldM] in H.
  { injection H as <-. by destruct s. }
  apply bind_Ok in H as (s1 & (o & Ho%map_err_Ok & [= <-])%bind_Ok & [-> Hl]%IH).
  assert (Hu : mempool_utxo i.2 = Some (mkUtxo o (req_height req) false)) by (unfold mempool_utxo; rewrite Hm; cbn; by rewrite Ho).
  split; [|apply Forall_cons_2; [by rewrite Hu|done]]. simpl.
  assert (Hf : found_mempool i = Some (i.1, i.2, mkUtxo o (req_height req) false)) by (unfold found_mempool; by rewrite Hu).
  by rewrite Hf.
Qed.

Lemma write_slots_lookup (f : nat → option Output) w l i : Forall (λ e, Some (output e.2) = f e.1.1) w → (i < length l)%nat →
  write_slots l w !! i = Some (f i) ∨ (i ∉ (w.*1).*1) ∧ write_slots l w !! i = l !! i.
Proof.
  intros Hw. revert l. induction Hw as [|e w He Hw IH]; intros l Hi; [right; split; [apply not_elem_of_nil|done]|].
  unfold write_slots in *. cbn [foldl]. destruct (IH (<[e.1.1 := Some (output e.2)]> l)) as [H|[Hn H]]; [by rewrite length_insert|by left|].
  rewrite H. destruct (decide (i = e.1.1)) as [->|Hne].
  - left. rewrite list_lookup_insert_eq by done. by rewrite He.
  - right. rewrite list_lookup_insert_ne by done. split; [|done]. cbn. apply not_elem_of_cons. done.
Qed.
Lemma write_slots_length w l : length (write_slots l w) = length l.
Proof. revert l. induction w as [|e w IH]; intros l; [done|]. unfold write_slots in *. cbn. by rewrite IH, length_insert. Qed.
Lemma write_slots_app w w' l : write_slots l (w ++ w') = write_slots (write_slots l w) w'.
Proof. apply foldl_app. Qed.

Lemma write_map_lookup w m p : Forall (λ e, resolve e.1.2 = Some e.2) w →
  write_map m w !! p = if decide (p ∈ (w.*1).*2) then resolve p else m !! p.
Proof.
  intros Hw. revert m. induction Hw as [|e w He Hw IH]; intros m; [done|]. unfold write_map in *. cbn [foldl]. rewrite IH. clear IH.
  cbn [fmap list_fmap]. destruct (decide (p ∈ (w.*1).*2)) as [Hp|Hp].
  - rewrite decide_True; [done|]. by apply elem_of_cons; right.
  - destruct (decide (p = e.1.2)) as [->|Hne].
    + rewrite lookup_insert_eq, decide_True; [done|]. by apply elem_of_cons; left.
    + rewrite lookup_insert_ne by done. rewrite decide_False; [done|]. by apply not_elem_of_cons.
Qed.

(** All the outputs that are written are those that the inputs spend. *)
Definition slot (inputs : list Input) (i : nat) : option Output :=
  match inputs !! i with Some (PrevOut p _ _) => output <$> resolve p | _ => None end.

Lemma found_writes (inputs : list Input) :
  Forall (λ e, resolve e.1.2 = Some e.2 ∧ ∃ sc q, inputs !! e.1.1 = Some (PrevOut e.1.2 sc q)) (omap found (imap pair inputs) ++
    omap found_mempool (omap missing (imap pair inputs))).
Proof.
  apply Forall_app. split; apply Forall_forall; intros [[k p] u] H; cbn [fst snd].
  - apply list_elem_of_omap in H as ([k' inp] & Hin & Hf). apply elem_of_lookup_imap in Hin as (k0 & inp0 & [= -> ->] & Hk).
    unfold found in Hf. cbn in Hf. destruct inp0 as [p' sc q|]; [|done]. destruct (chain_utxo p') as [u'|] eqn:Hu; [|done]. injection Hf as -> -> ->.
    unfold resolve. rewrite Hu. eauto.
  - apply list_elem_of_omap in H as ([k1 p1] & H & Hf). apply list_elem_of_omap in H as ([k' inp] & Hin & Hm).
    apply elem_of_lookup_imap in Hin as (k0 & inp0 & [= -> ->] & Hk). unfold missing in Hm. cbn in Hm. destruct inp0 as [p' sc q|]; [|done].
    destruct (chain_utxo p') eqn:Hu; [done|]. injection Hm as -> ->. unfold found_mempool in Hf. cbn in Hf.
    destruct (mempool_utxo p1) as [u'|] eqn:Hu'; [|done]. injection Hf as -> -> ->. unfold resolve. rewrite Hu, Hu'. eauto.
Qed.
Lemma found_slots (ins : list Input) w :
  Forall (λ e, resolve e.1.2 = Some e.2 ∧ ∃ sc q, ins !! e.1.1 = Some (PrevOut e.1.2 sc q)) w →
  Forall (λ e, resolve e.1.2 = Some e.2) w ∧ Forall (λ e, Some (output e.2) = slot ins e.1.1) w.
Proof.
  intros H. split; (eapply Forall_impl; [exact H|]); [by intros e [He _]|]. intros e (He & sc & q & Hi). unfold slot. by rewrite Hi, He.
Qed.

Lemma all_Some {A} (l : list (option A)) : Forall is_Some l → l = Some <$> omap id l.
Proof. induction 1 as [|x l [a ->] Hl IH]; [done|]. cbn. by f_equal. Qed.

Lemma missing_outpoints (ins : list Input) : (omap missing (imap pair ins)).*2 = filter (λ p, chain_utxo p = None) (omap outpoint ins).
Proof.
  enough (∀ k, (omap missing (imap (λ n, pair (k + n)%nat) ins)).*2 = filter (λ p, chain_utxo p = None) (omap outpoint ins)) as H by apply (H 0%nat).
  induction ins as [|i ins IH]; intros k; [done|].
  assert (Hi : imap (λ n, pair (k + n)%nat) (i :: ins) = (k, i) :: imap (λ n, pair (S k + n)%nat) ins).
  { rewrite imap_cons. f_equal; [by rewrite Nat.add_0_r|]. apply imap_ext. intros n x _. unfold compose. f_equal. lia. }
  rewrite Hi. specialize (IH (S k)). destruct i as [p sc q|h d q]; [|exact IH]. cbn [omap list_omap outpoint]. unfold missing at 1. cbn [fst snd].
  destruct (chain_utxo p) eqn:Hu.
  - rewrite filter_cons_False by congruence. exact IH.
  - rewrite filter_cons_True by done. cbn. by f_equal.
Qed.

(** The two loops, when they succeed. *)
Lemma spent_utxos_writes tx utxos outs mps : spent_utxos tx req state mempool = Ok (utxos, outs, mps) →
  let w := omap found (imap pair (inputs tx)) ++ omap found_mempool (omap missing (imap pair (inputs tx))) in
  utxos = write_map ∅ w ∧ outs = omap id (write_slots (replicate (length (inputs tx)) None) w) ∧
  mps = (omap missing (imap pair (inputs tx))).*2 ∧ Forall (λ x, is_Some (mempool_utxo x.2)) (omap missing (imap pair (inputs tx))).
Proof.
  intros (s1 & ->%spend_inputs_Ok & (s2 & H2 & [= <- <- <-])%bind_Ok)%bind_Ok. cbn [mempool_spends app] in H2. cbv zeta.
  rewrite write_slots_app. unfold write_map at 1. rewrite foldl_app. destruct mempool as [m|] eqn:Hm.
  - eapply spend_mempool_Ok in H2 as [-> Hf]; [|exact Hm]. done.
  - case_bool_decide as Hn; [|done]. injection H2 as <-. cbn [spent_utxos_map spent_slots mempool_spends app]. rewrite Hn. done.
Qed.

Lemma spent_utxos_Ok tx utxos outs mps : spent_utxos tx req state mempool = Ok (utxos, outs, mps) → is_valid_non_coinbase tx = true →
  length outs = length (inputs tx) ∧
  (∀ i p sc q, inputs tx !! i = Some (PrevOut p sc q) → ∃ u, resolve p = Some u ∧ outs !! i = Some (output u)) ∧
  (∀ p, utxos !! p = if decide (p ∈ spent_outpoints tx) then resolve p else None) ∧
  mps = filter (λ p, chain_utxo p = None) (spent_outpoints tx).
Proof.
  intros (-> & -> & -> & Hmem)%spent_utxos_writes Hv. set (ins := inputs tx) in *.
  set (w := omap found (imap pair ins) ++ omap found_mempool (omap missing (imap pair ins))).
  pose proof (found_writes ins) as Hw. fold w in Hw. destruct (found_slots ins w Hw) as [Hw1 Hw2].
  assert (Hres : ∀ i p sc q, ins !! i = Some (PrevOut p sc q) → ∃ u, resolve p = Some u ∧ (i, p, u) ∈ w).
  { intros i p sc q Hi. pose proof (elem_of_lookup_imap_2 pair ins _ i Hi) as Hin. unfold resolve. destruct (chain_utxo p) as [u|] eqn:Hu.
    - exists u. split; [done|]. apply elem_of_app. left. apply list_elem_of_omap. eexists. split; [exact Hin|]. unfold found. cbn. by rewrite Hu.
    - assert (Hmi : (i, p) ∈ omap missing (imap pair ins)).
      { apply list_elem_of_omap. eexists. split; [exact Hin|]. unfold missing. cbn. by rewrite Hu. }
      destruct (proj1 (Forall_forall _ _) Hmem _ Hmi) as [u Hu']. cbn in Hu'. exists u. split; [done|]. apply elem_of_app. right.
      apply list_elem_of_omap. exists (i, p). split; [done|]. unfold found_mempool. cbn. by rewrite Hu'. }
  set (sl := write_slots (replicate (length ins) None) w).
  assert (Hlen : length sl = length ins) by (subst sl; by rewrite write_slots_length, length_replicate).
  assert (Hsl : ∀ i p sc q, ins !! i = Some (PrevOut p sc q) → ∃ u, resolve p = Some u ∧ sl !! i = Some (Some (output u))).
  { intros i p sc q Hi. destruct (Hres i p sc q Hi) as (u & Hu & Hin). exists u. split; [done|].
    destruct (write_slots_lookup (slot ins) w (replicate (length ins) None) i Hw2) as [H|[Hn _]].
    - rewrite length_replicate. by apply lookup_lt_Some in Hi.
    - subst sl. rewrite H. unfold slot. by rewrite Hi, Hu.
    - destruct Hn. apply list_elem_of_fmap. exists (i, p). split; [done|]. apply list_elem_of_fmap. by exists (i, p, u). }
  assert (Hall : sl = Some <$> omap id sl).
  { apply all_Some, Forall_lookup_2. intros i o Ho. pose proof (lookup_lt_Some _ _ _ Ho) as Hi. rewrite Hlen in Hi.
    destruct (lookup_lt_is_Some_2 ins i Hi) as [inp Hinp]. unfold is_valid_non_coinbase in Hv. fold ins in Hv. rewrite forallb_forall in Hv.
    specialize (Hv inp (proj1 (list_elem_of_In _ _) (list_elem_of_lookup_2 _ _ _ Hinp))). destruct inp as [p sc q|]; [|done].
    destruct (Hsl i p sc q Hinp) as (u & _ & Hs). rewrite Hs in Ho. injection Ho as <-. by eexists. }
  split_and!.
  - rewrite <- Hlen. rewrite Hall at 2. by rewrite length_fmap.
  - intros i p sc q Hi. destruct (Hsl i p sc q Hi) as (u & Hu & Hs). exists u. split; [done|]. rewrite Hall, list_lookup_fmap in Hs.
    destruct (omap id sl !! i); [|done]. cbn in Hs. by injection Hs as ->.
  - intros p. rewrite (write_map_lookup w ∅ p Hw1), lookup_empty. destruct (decide (p ∈ spent_outpoints tx)) as [Hp|Hp].
    + rewrite decide_True; [done|]. apply list_elem_of_omap in Hp as (inp & [i Hi]%list_elem_of_lookup_1 & Hp). destruct inp as [p' sc q|]; [|done]. injection Hp as ->.
      destruct (Hres i p sc q Hi) as (u & _ & Hin). apply list_elem_of_fmap. exists (i, p). split; [done|]. apply list_elem_of_fmap. by exists (i, p, u).
    + rewrite decide_False; [done|]. intros Hin. apply Hp. apply list_elem_of_fmap in Hin as ([i p'] & -> & Hin).
      apply list_elem_of_fmap in Hin as ([[i' p''] u] & [= -> ->] & Hin).
      destruct (proj1 (Forall_forall _ _) Hw _ Hin) as (_ & sc & q & Hi). cbn in Hi. apply list_elem_of_omap.
      exists (PrevOut p'' sc q). split; [by eapply list_elem_of_lookup_2|done].
  - exact (missing_outpoints ins).
Qed.

End Spent.

(** ** The quick checks *)

Section Quick.
Context `{CL : !CurveLib, LZ : !LibRustZcash, SL : !SighashLib, HF : !HashFns, ZS : !ScriptLib, VL : !VerifierLib}.

Lemma bind_tt_iff {E} (r : Res E unit) (k : Res E unit) (P Q : Prop) : (r = Ok tt ↔ P) → (k = Ok tt ↔ Q) →
  (_ ← r; k) = Ok tt ↔ P ∧ Q.
Proof. intros Hr Hk. destruct r as [[]| |]; cbn; [rewrite Hk; tauto|naive_solver..]. Qed.

Lemma and_true_l (P Q R : Prop) : P → (R ↔ Q) → R ↔ P ∧ Q.
Proof. tauto. Qed.

Lemma quick_checks_spec network req nu canopy : current network (req_height req) = Ok nu → activation_height Canopy network = Some canopy →
  quick_checks network req = Ok tt ↔
  is_mempool req && is_coinbase (req_transaction req) = false ∧ tx_rules network (req_height req) canopy nu (req_transaction req).
Proof.
  intros Hnu Hc. unfold quick_checks. set (tx := req_transaction req). set (h := req_height req) in *.
  erewrite bind_tt_iff; [|apply has_inputs_and_outputs_exact|
    apply (bind_tt_iff _ _ (has_enough_orchard_flags tx = true) (((nu_ltb nu Nu5 = false → 5 ≤ version tx → tx_network_upgrade tx = Some nu) ∧
      is_mempool req && is_coinbase tx = false ∧ (if is_coinbase tx then coinbase_shielded tx else is_valid_non_coinbase tx = true) ∧
      expires_ok network h tx ∧ Forall (λ j, zatoshis (vpub_old j) = 0 ∨ zatoshis (vpub_new j) = 0) (sprout_joinsplits tx) ∧
      (canopy ≤ h → Forall (λ j, zatoshis (vpub_old j) = 0) (sprout_joinsplits tx)) ∧
      NoDup (spent_outpoints tx) ∧ NoDup (sprout_nullifiers tx) ∧ NoDup (sapling_nullifiers tx) ∧ NoDup (orchard_nullifiers tx))))].
  - split; [intros ((? & ?) & ? & ? & ? & ? & ? & ? & ? & ? & ? & ? & ?); split; [done|by split]|].
    intros [? []]. split_and!; done.
  - unfold check_has_enough_orchard_flags. by destruct (has_enough_orchard_flags tx).
  - apply bind_tt_iff; [by apply branch_id_exact|]. destruct (is_mempool req && is_coinbase tx) eqn:Hm; [naive_solver|].
    apply and_true_l; [done|].
    apply bind_tt_iff; [destruct (is_coinbase tx) eqn:Hcb; [by apply coinbase_shielded_exact|by destruct (is_valid_non_coinbase tx)]|].
    apply bind_tt_iff; [apply expires_exact|]. apply bind_tt_iff; [apply vpub_zero_exact|].
    apply bind_tt_iff; [by apply disabled_sprout_exact|apply spend_conflicts_exact].
Qed.

End Quick.

(** ** Fees *)

Section Fee.
Context `{CL : !CurveLib, LZ : !LibRustZcash, SL : !SighashLib, ZS : !ScriptLib, VL : !VerifierLib}.

Lemma tx_wire_tx_ok t : tx_wire_ok t → tx_ok t.
Proof.
  assert (Houts : ∀ l : list Output, outputs_wire_ok l → Forall (λ o, amount_ok (value o) = true) l).
  { intros l [Hl _]. eapply Forall_impl; [exact Hl|]. by intros o [Ho _]. }
  assert (Hjs : ∀ n d, joinsplit_data_ok n d → Forall joinsplit_ok (match d with Some d => joinsplits d | None => [] end)).
  { intros n [d|]; [|by constructor]. intros [[Hl _] _]. eapply Forall_impl; [exact Hl|]. by intros j [Hj _]. }
  intros [Hok _]. destruct t as [ins outs lt|ins outs lt js|ins outs lt ex js|ins outs lt ex js sap|nu lt ex ins outs sap orc]; cbn in Hok.
  - destruct Hok as (_ & Ho & _). split; [by apply Houts|constructor|done|done].
  - destruct Hok as (_ & Ho & _ & Hj). split; [by apply Houts|exact (Hjs _ _ Hj)|done|done].
  - destruct Hok as (_ & Ho & _ & _ & Hj). split; [by apply Houts|exact (Hjs _ _ Hj)|done|done].
  - destruct Hok as ((_ & Ho & _) & Hj & Hs). split; [by apply Houts|exact (Hjs _ _ Hj)| |done].
    destruct sap as [d|]; [|done]. by destruct Hs as (_ & _ & _ & _ & Hs & _).
  - destruct Hok as ((_ & _ & _ & _ & Ho & Hs & Hr) & _). split; [by apply Houts|constructor| |].
    + destruct sap as [d|]; [|done]. by destruct Hs as (_ & _ & _ & _ & Hs & _).
    + destruct orc as [d|]; [|done]. by destruct Hr as (_ & _ & _ & Hr & _).
Qed.

(** What the transaction adds to the value of the block: the value of the outputs and notes it spends, without that of
    the ones it creates. *)
Definition fee_value (outs : gmap OutPoint Output) (t : Transaction) : Z :=
  transparent_in outs t - transparent_out t + sprout_value t + sapling_balance t + orchard_balance t.

Lemma miner_fee_spec t utxos fee : tx_ok t → outs_ok (outputs_from_utxos utxos) → miner_fee t utxos = Ok fee →
  if is_coinbase t then fee = None
  else ∃ f, fee = Some f ∧ zatoshis f = fee_value (outputs_from_utxos utxos) t ∧ amount_ok f = true.
Proof.
  intros Ht Ho. unfold miner_fee, value_balance. destruct (value_balance_spec t _ Ht Ho) as [Hv _].
  destruct (value_balance_from_outputs t _) as [v|e|]; [| |done]; rewrite Amount.zero_spec, Ok_bind; (destruct (is_coinbase t); [by intros [= <-]|]); [|done].
  cbn [map_err]. rewrite Ok_bind. destruct (Hv v eq_refl) as [Hok Hp].
  intros (r & Hr%map_err_Ok & (f & Hf%map_err_Ok & [= <-])%bind_Ok)%bind_Ok. exists f. split; [done|].
  apply (remaining_value_exact v Hok) in Hr as (Hrz & Hrange & _). unfold pools, tx_pools in Hp. injection Hp as H1 H2 H3 H4 _.
  assert (Hra : amount_ok r = true) by (apply contains_spec; cbn; lia).
  rewrite Amount.sub_spec, try_from_i64_spec in Hf by done. cbn [zatoshis] in Hf.
  destruct (contains _ _) eqn:Hcon; [|done]. injection Hf as <-. cbn [zatoshis].
  split; [unfold fee_value; lia|]. exact Hcon.
Qed.

End Fee.

(** ** What the verifier accepts *)

Section Accept.
Context `{CL : !CurveLib, CW : !CurveLaws, LZ : !LibRustZcash, SL : !SighashLib, HF : !HashFns, ZS : !ScriptLib, VL : !VerifierLib}.
Context (random : list Z → LibHashType → Hash) (network : Network) (state : StateService) (mempool : option MempoolService).

(** The checks are awaited in some order. *)
Definition reorders (order : AsyncChecks → AsyncChecks) : Prop := ∀ l, order l ≡ₚ l.

Lemma async_check_Ok order l : reorders order → async_check (order l) = Ok tt ↔ Forall (.= Ok tt) l.
Proof.
  intros Hp. unfold async_check. rewrite (foldM_unit (λ check : Res BoxError unit, check)). split; intros H.
  - by rewrite <- (Hp l).
  - by rewrite (Hp l).
Qed.

(** The response, from what the checks leave. *)
Definition respond (req : Request) (tx_id : UnminedTxId) (fee : option (Amount NonNegative)) (sigops : Z)
    (c : CachedFfiTransaction) (mps : list OutPoint) : Res TransactionError Response :=
  match req with
  | BlockRequest _ _ _ _ _ _ => Ok (BlockResponse tx_id fee (Z.min (2 ^ 32 - 1) (sigops + p2sh_sigops c)))
  | MempoolRequest tx _ =>
      fee ← expect fee;
      transaction ← map_err Zip317 (verified_new tx fee sigops (p2sh_sigops c) (all_previous_outputs c));
      Ok (MempoolResponse transaction mps)
  end.

Lemma verify_Ok order req rsp : reorders order → verify order random network state mempool req = Ok rsp ↔
  ∃ tx_id utxos outs mps nu c checks fee sig,
    req_tx_id req = Ok tx_id ∧ quick_checks network req = Ok tt ∧ check_lock_time req state = Ok tt ∧
    spent_utxos (req_transaction req) req state mempool = Ok (utxos, outs, mps) ∧
    (if is_mempool req then check_maturity_height network req utxos else Ok tt) = Ok tt ∧
    current network (req_height req) = Ok nu ∧ cached_new (req_transaction req) outs nu = Ok c ∧
    async_checks random network state req c = Ok checks ∧ Forall (.= Ok tt) checks ∧
    miner_fee (req_transaction req) utxos = Ok fee ∧ sigops (req_transaction req) = Ok sig ∧
    respond req tx_id fee sig c mps = Ok rsp.
Proof.
  intros Hp. unfold verify, upgrade. split.
  - intros (id & Hid & ([] & Hq & ([] & Hl & ([[utxos outs] mps] & Hs & ([] & Hm & (nu & Hnu & (c & Hc & (checks & Hk & ([] & Ha & (fee & Hf & (sig & Hg & Hr)
      %bind_Ok)%bind_Ok)%bind_Ok)%bind_Ok)%bind_Ok)%bind_Ok)%bind_Ok)%bind_Ok)%bind_Ok)%bind_Ok)%bind_Ok.
    exists id, utxos, outs, mps, nu, c, checks, fee, sig. apply map_err_Ok in Hc, Ha, Hg. apply (async_check_Ok order checks Hp) in Ha.
    assert (Hid' : req_tx_id req = Ok id) by (destruct (req_tx_id req) as [|[]|]; [by injection Hid as ->|done]).
    assert (Hnu' : current network (req_height req) = Ok nu) by (destruct (current _ _) as [|[]|]; [by injection Hnu as ->|done]).
    by split_and!.
  - intros (id & utxos & outs & mps & nu & c & checks & fee & sig & Hid & Hq & Hl & Hs & Hm & Hnu & Hc & Hk & Ha & Hf & Hg & Hr).
    apply (async_check_Ok order checks Hp) in Ha. rewrite Hid. cbn [lift]. rewrite Ok_bind, Hq, Ok_bind, Hl, Ok_bind, Hs, Ok_bind, Hm, Ok_bind, Hnu.
    cbn [lift]. rewrite Ok_bind, Hc. cbn [map_err]. rewrite Ok_bind, Hk, Ok_bind, Ha. cbn [map_err]. rewrite Ok_bind, Hf, Ok_bind, Hg.
    cbn [map_err]. rewrite Ok_bind. by destruct req.
Qed.

(** The versions that an upgrade supports. *)
Definition version_supported (nu : NetworkUpgrade) (t : Transaction) : Prop :=
  version t = 4 ∧ nu_leb Network.Sapling nu = true ∧ nu_ltb nu Nu7 = true ∨ version t = 5 ∧ nu_leb Nu5 nu = true.

Lemma checks_version req c checks nu : current network (req_height req) = Ok nu →
  async_checks random network state req c = Ok checks → version_supported nu (req_transaction req).
Proof.
  intros Hnu (l & Hl & _)%bind_Ok. unfold version_supported. destruct (req_transaction req) eqn:Ht; try done.
  - left. apply bind_Ok in Hl as (nu' & Hnu' & ([] & Hv & _)%bind_Ok). unfold upgrade in Hnu'. rewrite Hnu in Hnu'. injection Hnu' as <-.
    split; [done|]. by destruct nu.
  - right. apply bind_Ok in Hl as (nu' & Hnu' & ([] & Hv & _)%bind_Ok). unfold upgrade in Hnu'. rewrite Hnu in Hnu'. injection Hnu' as <-.
    split; [done|]. by destruct nu.
Qed.

Lemma checks_scripts req c checks : async_checks random network state req c = Ok checks → Forall (.= Ok tt) checks →
  is_coinbase (req_transaction req) = false → ∀ i, (i < length (inputs (req_transaction req)))%nat → script_call random c i = Ok tt.
Proof.
  intros (l & Hl & [= <-])%bind_Ok [Hf _]%Forall_app Hcb i Hi.
  assert (∃ l', l = verify_transparent_inputs_and_outputs random req c ++ l') as [l' ->].
  { destruct (req_transaction req); try done.
    - apply bind_Ok in Hl as (nu & _ & ([] & _ & (h & _ & (sp & _ & [= <-])%bind_Ok)%bind_Ok)%bind_Ok). eauto.
    - apply bind_Ok in Hl as (nu & _ & ([] & _ & (h & _ & [= <-])%bind_Ok)%bind_Ok). eauto. }
  apply Forall_app in Hf as [Hf _]. unfold verify_transparent_inputs_and_outputs in Hf. rewrite Hcb in Hf.
  rewrite Forall_fmap in Hf. eapply Forall_forall in Hf; [|apply elem_of_seq; split; [apply Nat.le_0_l|exact Hi]].
  cbn in Hf. by apply map_err_Ok in Hf.
Qed.

Lemma script_call_Ok c i : script_call random c i = Ok tt → is_valid random c i = Ok tt.
Proof. intros ([p s q|] & _ & H)%bind_Ok; [|done]. by apply map_err_Ok in H. Qed.

(** The value of the outputs that a transaction spends, in the order of its inputs. *)
Lemma transparent_in_outs req t utxos outs mps : spent_utxos t req state mempool = Ok (utxos, outs, mps) → is_valid_non_coinbase t = true →
  transparent_in (outputs_from_utxos utxos) t = sum_Z ((λ o, zatoshis (value o)) <$> outs).
Proof.
  intros Hs Hv. destruct (spent_utxos_Ok req state mempool t utxos outs mps Hs Hv) as (Hlen & Ho & Hu & _).
  unfold transparent_in. f_equal. apply list_eq_same_length with (length outs); [by rewrite length_fmap|by rewrite !length_fmap|].
  intros i x y Hi Hx Hy. rewrite list_lookup_fmap in Hx. rewrite list_lookup_fmap in Hy. rewrite Hlen in Hi. destruct (lookup_lt_is_Some_2 _ _ Hi) as [inp Hinp].
  unfold is_valid_non_coinbase in Hv. rewrite forallb_forall in Hv.
  specialize (Hv inp (proj1 (list_elem_of_In _ _) (list_elem_of_lookup_2 _ _ _ Hinp))). destruct inp as [p sc q|]; [|done].
  destruct (Ho i p sc q Hinp) as (u & Hr & Hou). rewrite Hinp in Hx. rewrite Hou in Hy. cbn in Hx, Hy. injection Hx as <-. injection Hy as <-.
  unfold spent_value, outputs_from_utxos. cbn. rewrite lookup_fmap, Hu, decide_True, Hr; [done|].
  apply list_elem_of_omap. exists (PrevOut p sc q). split; [by eapply list_elem_of_lookup_2|done].
Qed.

Lemma respond_fee req id fee sig c mps rsp : respond req id fee sig c mps = Ok rsp →
  (is_mempool req = false ∨ is_Some fee) → rsp_miner_fee rsp = fee.
Proof.
  destruct req as [h t k u ht tm|t ht]; [by intros [= <-]|]. intros H [?|[f ->]]; [done|].
  apply bind_Ok in H as (f' & [= <-] & (v & Hv%map_err_Ok & [= <-])%bind_Ok).
  apply bind_Ok in Hv as (? & _ & (? & _ & ([] & _ & [= <-])%bind_Ok)%bind_Ok). done.
Qed.

Lemma spent_outs_ok req t utxos outs mps : spent_utxos t req state mempool = Ok (utxos, outs, mps) → is_valid_non_coinbase t = true →
  (∀ p u, resolve req state mempool p = Some u → amount_ok (value (output u)) = true) → outs_ok (outputs_from_utxos utxos).
Proof.
  intros Hs Hv Ha. destruct (spent_utxos_Ok req state mempool t utxos outs mps Hs Hv) as (_ & _ & Hu & _).
  intros p o Ho. unfold outputs_from_utxos in Ho. rewrite lookup_fmap, Hu in Ho. destruct (decide _); [|done].
  destruct (resolve req state mempool p) as [u|] eqn:Hr; [|done]. injection Ho as <-. by apply (Ha p).
Qed.

(** The lock time has passed: the height it names is below that of the request, or the time it names is before that of the block or, for a
    transaction of the mempool, before the median time past of the next block, as the state answers it. *)
Definition lock_passed (req : Request) : Prop :=
  match lock_time (req_transaction req) with
  | Some (LockHeight h) => h < req_height req
  | Some (LockTimestamp t) =>
      match req_block_time req with
      | Some time => t < time
      | None => ∃ time, best_chain_next_median_time_past state = Ok time ∧ t < time
      end
  | None => True
  end.
Lemma check_lock_time_exact req : check_lock_time req state = Ok tt ↔ lock_passed req.
Proof.
  unfold check_lock_time, lock_passed. cbn zeta. destruct (req_block_time req) as [time|].
  - rewrite lock_time_exact. unfold unlocked_at. by destruct (lock_time _) as [[]|].
  - unfold lock_time_is_time, lock_time_has_passed, mempool_best_chain_next_median_time_past.
    destruct (lock_time (req_transaction req)) as [[h|t]|]; cbn [is_time]; rewrite ?Ok_bind; [destruct (Z.ltb_spec h (req_height req)); split; (done || lia)| |done].
    destruct (best_chain_next_median_time_past state) as [time| |]; cbn [map_err]; [|split; [done|by intros (? & [=] & _)]..].
    rewrite !Ok_bind. cbn [expect]. rewrite Ok_bind. destruct (Z.ltb_spec t time); split; try done.
    + by exists time.
    + intros (? & [= <-] & ?). lia.
Qed.

(** C7: the transactions that the verifier accepts satisfy the consensus rules. Whatever the order in which
    the checks end, an accepted transaction keeps the rules of single transactions, its version is supported at its height, and
    its lock time has passed, at the time of its block or, in the mempool, at the median time past of the next block. Unless it is a coinbase transaction, which has no fee and is not
    accepted for the mempool, each of its inputs spends an output of the same block, or of the chain or, for the mempool, of the
    mempool; the script of every input is valid for the output that this input spends; and its fee is the value of these
    outputs, without that of the outputs that it creates, and with the balances of the shielded pools. *)
Theorem verify_sound order req rsp nu canopy (t := req_transaction req) :
  reorders order → tx_wire_ok t → current network (req_height req) = Ok nu → activation_height Canopy network = Some canopy →
  (∀ p u, resolve req state mempool p = Some u → amount_ok (value (output u)) = true) →
  verify order random network state mempool req = Ok rsp →
  tx_rules network (req_height req) canopy nu t ∧ version_supported nu t ∧
  lock_passed req ∧
  if is_coinbase t then is_mempool req = false ∧ rsp_miner_fee rsp = None
  else ∃ outs c fee,
    length outs = length (inputs t) ∧
    (∀ i p sc q, inputs t !! i = Some (PrevOut p sc q) → ∃ u, resolve req state mempool p = Some u ∧ outs !! i = Some (output u)) ∧
    cached_new t outs nu = Ok c ∧ (∀ i, (i < length (inputs t))%nat → is_valid random c i = Ok tt) ∧
    rsp_miner_fee rsp = Some fee ∧
    zatoshis fee = sum_Z ((λ o, zatoshis (value o)) <$> outs) - transparent_out t + sprout_value t + sapling_balance t + orchard_balance t.
Proof.
  intros Hp Ht Hnu Hc Ha. rewrite verify_Ok by done.
  intros (id & utxos & outs & mps & nu' & c & checks & fee & sig & Hid & Hq & Hl & Hs & _ & Hnu' & Hcn & Hk & Hall & Hf & _ & Hr).
  fold t in Hs, Hcn, Hf. assert (nu' = nu) as -> by congruence.
  apply (quick_checks_spec network req nu canopy Hnu Hc) in Hq as [Hmc Hrules]. fold t in Hmc, Hrules.
  split_and!; [done|by eapply checks_version|by apply check_lock_time_exact|].
  pose proof (rule_coinbase _ _ _ _ _ Hrules) as Hcoin. pose proof (tx_wire_tx_ok t Ht) as Htok.
  destruct (is_coinbase t) eqn:Hcb.
  - rewrite andb_true_r in Hmc. split; [done|]. rewrite (respond_fee req id fee sig c mps rsp Hr) by (by left).
    unfold miner_fee in Hf. rewrite Hcb in Hf. destruct (value_balance t utxos); [| |done]; rewrite Amount.zero_spec in Hf; by injection Hf as <-.
  - destruct (spent_utxos_Ok req state mempool t utxos outs mps Hs Hcoin) as (Hlen & Ho & _).
    pose proof (miner_fee_spec t utxos fee Htok (spent_outs_ok req t utxos outs mps Hs Hcoin Ha) Hf) as Hfee. rewrite Hcb in Hfee.
    destruct Hfee as (f & -> & Hz & _). exists outs, c, f. split_and!; [done|done|done| | |].
    + intros i Hi. apply script_call_Ok. by apply (checks_scripts req c checks).
    + apply (respond_fee req id (Some f) sig c mps rsp Hr). right. by eexists.
    + rewrite Hz. unfold fee_value. by rewrite (transparent_in_outs req t utxos outs mps Hs Hcoin).
Qed.

(** The checks before the asynchronous ones succeed, and these are [checks]. *)
Definition awaits (req : Request) (checks : AsyncChecks) : Prop :=
  ∃ tx_id utxos outs mps nu c,
    req_tx_id req = Ok tx_id ∧ quick_checks network req = Ok tt ∧ check_lock_time req state = Ok tt ∧
    spent_utxos (req_transaction req) req state mempool = Ok (utxos, outs, mps) ∧
    (if is_mempool req then check_maturity_height network req utxos else Ok tt) = Ok tt ∧
    current network (req_height req) = Ok nu ∧ cached_new (req_transaction req) outs nu = Ok c ∧
    async_checks random network state req c = Ok checks.

Lemma async_check_error (P : BoxError → Prop) l : Forall (λ r, r = Ok tt ∨ ∃ e, r = Err e ∧ P e) l → ¬ Forall (.= Ok tt) l →
  ∃ e, async_check l = Err e ∧ P e.
Proof.
  induction 1 as [|r l [->|(e & -> & He)] Hl IH]; intros Hn.
  - destruct Hn. constructor.
  - apply IH. intros H. apply Hn. by constructor.
  - by exists e.
Qed.

Lemma awaits_error order req checks e : awaits req checks → async_check (order checks) = Err e →
  verify order random network state mempool req = Err (from_box_error e).
Proof.
  intros (id & utxos & outs & mps & nu & c & Hid & Hq & Hl & Hs & Hm & Hnu & Hc & Hk) He. unfold verify, upgrade.
  rewrite Hid. cbn [lift]. rewrite Ok_bind, Hq, Ok_bind, Hl, Ok_bind, Hs, Ok_bind, Hm, Ok_bind, Hnu.
  cbn [lift]. rewrite Ok_bind, Hc. cbn [map_err]. by rewrite Ok_bind, Hk, Ok_bind, He.
Qed.

(** an invalid script is not reported as a script error. When a transaction passes the checks before the
    asynchronous ones, and only scripts are invalid, the verifier fails with an internal error, not with [Script], and the
    peer that sent the transaction gets no misbehaviour score, while a [Script] error has a score of 100. *)
Theorem invalid_script_unpunished order req checks : reorders order → awaits req checks →
  Forall (λ r, r = Ok tt ∨ ∃ e, r = Err (BoxOther (OtherScript e))) checks → ¬ Forall (.= Ok tt) checks →
  ∃ e, verify order random network state mempool req = Err (InternalDowncastError (OtherScript e)) ∧
    mempool_misbehavior_score (InternalDowncastError (OtherScript e)) = 0 ∧
    ∀ e', mempool_misbehavior_score (Script e') = 100.
Proof.
  intros Hp Haw Hf Hn.
  destruct (async_check_error (λ e, ∃ e', e = BoxOther (OtherScript e')) (order checks)) as (e & He & e' & ->).
  - rewrite (Hp checks). eapply Forall_impl; [exact Hf|]. intros r [?|[e ->]]; [by left|right; eauto].
  - by rewrite (Hp checks).
  - exists e'. split; [by apply (awaits_error order req checks (BoxOther (OtherScript e')))|done].
Qed.

End Accept.

(** ** A transaction of a block *)

#[local] Existing Instance sample_curves.
#[local] Existing Instance sample_curve_laws.
#[local] Existing Instance sample_lib.
#[local] Existing Instance sample_sighash.
#[local] Existing Instance sample_script.
#[local] Existing Instance sample_hashes.
Definition sample_verifiers : VerifierLib := {|
  LibError := unit; groth16_proof_read _ := None; groth16_verify _ _ := None; ed25519_verify _ _ _ := None;
  sapling_verify _ _ := None; halo2_verify _ _ := None; sapling_outputs_recovered _ _ := []; orchard_actions_recovered _ := [] |}.
#[local] Existing Instance sample_verifiers.
Definition sample_utxo : Utxo := mkUtxo (mkOutput (mkAmount 7000) [4; 5]) 1600000 false.
Definition sample_state {ZS : ScriptLib} : StateService (ZS := ZS) := {|
  await_utxo _ := Ok sample_utxo; unspent_best_chain_utxo _ := Ok (Some sample_utxo);
  best_chain_next_median_time_past := Ok 1700000000; check_nullifiers_and_anchors _ := Ok tt |}.
Definition sample_v4 : Transaction :=
  V4 [PrevOut (mkOutPoint (replicate 32 1) 7) [1; 2; 3] 5] [mkOutput (mkAmount 1000) [4; 5]] (LockHeight 100) 0 None None.
Definition sample_request : Request := BlockRequest (replicate 32 0) sample_v4 ∅ ∅ 1700000 1700000000.

Lemma sample_v4_ok : tx_wire_ok sample_v4.
Proof.
  apply (reads tx_codec (ok_value [] (Transaction_serialize sample_v4)) sample_v4 []).
  - apply bytes_ok_forallb. vm_compute. reflexivity.
  - vm_compute. reflexivity.
Qed.
Lemma sample_reorders : reorders (rev (A := _)).
Proof. intros l. rewrite <- Permutation_rev. reflexivity. Qed.
Lemma sample_resolve p u : resolve sample_request sample_state None p = Some u → amount_ok (value (output u)) = true.
Proof. unfold resolve, chain_utxo. cbn [req_known_utxos sample_request]. rewrite lookup_empty. by intros [= <-]. Qed.
Definition sample_rsp : Response :=
  ok_value (BlockResponse (Legacy []) None 0) (verify (rev (A := _)) (λ _ _, []) Mainnet sample_state None sample_request).

Lemma verify_sound_witness : ∃ outs c fee,
  cached_new sample_v4 outs Nu5 = Ok c ∧ is_valid (λ _ _, []) c 0 = Ok tt ∧ rsp_miner_fee sample_rsp = Some fee ∧ zatoshis fee = 6000.
Proof.
  destruct (verify_sound (λ _ _, []) Mainnet sample_state None (rev (A := _)) sample_request sample_rsp Nu5 1046400) as (_ & _ & _ & H).
  - exact sample_reorders.
  - exact sample_v4_ok.
  - vm_compute. reflexivity.
  - vm_compute. reflexivity.
  - exact sample_resolve.
  - apply ok_value_eq. vm_compute. reflexivity.
  - destruct H as (outs & c & fee & Hlen & Ho & Hc & Hi & Hf & Hz). exists outs, c, fee. split_and!; [exact Hc|apply Hi; vm_compute; lia|exact Hf|].
    destruct (Ho 0%nat (mkOutPoint (replicate 32 1) 7) [1; 2; 3] 5 eq_refl) as (u & Hu & Hou).
    vm_compute in Hu. injection Hu as <-. destruct outs as [|o []]; [done| |done]. cbn in Hou. injection Hou as ->. rewrite Hz. vm_compute. reflexivity.
Defined.

(** An interpreter that rejects every script. *)
Definition rejecting_script : ScriptLib := {|
  ScriptLibError := unit; verify_callback _ _ _ _ _ _ := Ok false; legacy_sigop_count_script _ := Ok 0;
  parse_pushes _ := []; is_pay_to_script_hash _ := false; sig_op_count _ _ := 0 |}.

Definition sample_v4_cached : CachedFfiTransaction :=
  mkCached sample_v4 [output sample_utxo] (mkPrecomputed (ok_value [] (Transaction_serialize sample_v4)) [output sample_utxo]).
Definition rejected_script {E} (r : Res E (AsyncChecks (ZS := rejecting_script))) : bool :=
  match r with Ok [Err (BoxOther (OtherScript (ScriptFailed ScriptInvalid)))] => true | _ => false end.
Lemma rejected_script_eq {E} (r : Res E (AsyncChecks (ZS := rejecting_script))) :
  rejected_script r = true → r = Ok [Err (BoxOther (OtherScript (ScriptFailed ScriptInvalid)))].
Proof. destruct r as [[|[|[| | |[[| [] |]|]]|] []]| |]; done. Qed.
Lemma is_ok_unit {E} (r : Res E unit) : is_ok r = true → r = Ok tt.
Proof. by destruct r as [[]| |]. Qed.

Lemma invalid_script_unpunished_witness : ∃ e,
  verify (ZS := rejecting_script) (rev (A := _)) (λ _ _, []) Mainnet sample_state None sample_request =
    Err (InternalDowncastError (ZS := rejecting_script) (OtherScript e)).
Proof.
  set (spent := ok_value (∅, [], []) (spent_utxos (ZS := rejecting_script) sample_v4 sample_request sample_state None)).
  destruct (invalid_script_unpunished (ZS := rejecting_script) (λ _ _, []) Mainnet sample_state None (rev (A := _)) sample_request
    [Err (BoxOther (OtherScript (ScriptFailed ScriptInvalid)))]) as (e & He & _); [| | | |by exists e].
  - intros l. rewrite <- Permutation_rev. reflexivity.
  - exists (ok_value (Legacy []) (req_tx_id sample_request)), spent.1.1, spent.1.2, spent.2, Nu5, sample_v4_cached.
    refine (conj _ (conj _ (conj _ (conj _ (conj eq_refl (conj _ (conj _ _))))))).
    + vm_compute. reflexivity.
    + apply is_ok_unit. vm_compute. reflexivity.
    + apply is_ok_unit. vm_compute. reflexivity.
    + transitivity (Ok (E := TransactionError (ZS := rejecting_script)) spent); [apply ok_value_eq; vm_compute; reflexivity|].
      by destruct spent as [[? ?] ?].
    + vm_compute. reflexivity.
    + reflexivity.
    + apply rejected_script_eq. vm_compute. reflexivity.
  - apply Forall_singleton. right. by eexists.
  - intros H. inversion H as [|? ? H1]. discriminate H1.
Defined.
