(* ===== verification/BlockVerifier.v ===== *)
(** * Block verification

    [zebra-consensus/src/block/check.rs]: the checks of a block, and [SemanticBlockVerifier::call] of
    [zebra-consensus/src/block.rs], which runs them, sends the transactions to the transaction verifier, checks the
    totals of the block, and submits it to the state; with [lockbox_disbursements] of
    [zebra-chain/src/parameters/network.rs] and [Address::script] of [zebra-chain/src/transparent/address.rs].

    The state service is a record of its answers, the transaction verifier is an argument that
    [TxVerifier.verify] instantiates, and the order in which the transactions are verified is an argument. *)

From stdpp Require Import strings.
From S2P Require Import Prelude BTreeMap Height Difficulty CheckpointList Amount Serialization Codec ValueBalance Network Testnet Subsidy Transaction.
From S2P Require Import Merkle BlockHeader ShieldedCodec TransactionCodec Sighash Unmined Reversible Script Ledger SpendChecks.
From S2P Require Import TxChecks TxVerifier.

(** ** Scripts and addresses *)

Definition OP_EQUAL : Z := 0x87.
Definition OP_HASH160 : Z := 0xa9.
Definition OP_PUSH20BYTES : Z := 0x14.
Definition OP_DUP : Z := 0x76.
Definition OP_EQUALVERIFY : Z := 0x88.
Definition OP_CHECKSIG : Z := 0xac.

Definition is_script_hash (self : Address) : bool := match self with PayToScriptHash _ _ => true | _ => false end.

(** [Address::script]. *)
Definition address_script (self : Address) : list Z :=
  match self with
  | PayToScriptHash _ script_hash => [OP_HASH160; OP_PUSH20BYTES] ++ script_hash ++ [OP_EQUAL]
  | PayToPublicKeyHash _ pub_key_hash => [OP_DUP; OP_HASH160; OP_PUSH20BYTES] ++ pub_key_hash ++ [OP_EQUALVERIFY; OP_CHECKSIG]
  | Tex _ _ => []
  end.

(** ** Lockbox disbursements *)

Definition parse_disbursements `{!Literals} (l : list (list Z * Amount NonNegative)) : Run (list (Address * Amount NonNegative)) :=
  collect ((λ p, addr ← expect (parse_address p.1); Ok (addr, p.2)) <$> l).

Definition EXPECTED_NU6_1_LOCKBOX_DISBURSEMENTS_TOTAL : Z := 78750.
Definition NU6_1_LOCKBOX_DISBURSEMENTS (address : list Z) : Run (list (list Z * Amount NonNegative)) :=
  total ← new_from_zec EXPECTED_NU6_1_LOCKBOX_DISBURSEMENTS_TOTAL;
  part ← div_exact total 10;
  Ok (replicate 10 (address, part)).

(** [Network::lockbox_disbursements]. *)
Definition lockbox_disbursements `{!Literals} (self : Network) (height : Height) : Run (list (Address * Amount NonNegative)) :=
  if negb (bool_decide (Some height = activation_height Nu6_1 self)) then Ok [] else
  match self with
  | Mainnet => l ← NU6_1_LOCKBOX_DISBURSEMENTS mainnet_LOCKBOX_ADDRESS; parse_disbursements l
  | Testnet params =>
      is_default ← is_default_testnet params;
      if (is_default : bool) then l ← NU6_1_LOCKBOX_DISBURSEMENTS testnet_LOCKBOX_ADDRESS; parse_disbursements l
      else parse_disbursements (params_lockbox_disbursements params)
  end.

(** ** Errors *)

(** The Equihash verifier, and the errors of the state service. *)
Class BlockEnv := {
  EquihashError : Type;
  is_valid_solution : Z → Z → list Z → list Z → list Z → Res EquihashError unit;
  ServiceError : Type;
  CommitBlockError : Type;
}.

Inductive KnownBlock := KnownFinalized | KnownBestChain | KnownSideChain | KnownQueue | KnownWriteChannel.

(** [MultiSet::remove]: removes one copy of a value, if there is one. *)
Fixpoint multiset_remove {A} `{EqDecision A} (val : A) (self : list A) : option (list A) :=
  match self with
  | [] => None
  | x :: rest => if decide (x = val) then Some rest else (x ::.) <$> multiset_remove val rest
  end.

Section Verifier.
Context `{LT : !Literals, CL : !CurveLib, LZ : !LibRustZcash, SL : !SighashLib, HF : !HashFns, ZS : !ScriptLib, VL : !VerifierLib,
  BE : !BlockEnv}.

Inductive BlockError :=
| BlockTransaction (e : TransactionError)
| NoTransactions
| BadMerkleRoot (actual expected : Hash)
| DuplicateTransaction
| AlreadyInChain (hash : Hash) (location : KnownBlock)
| MissingHeight (hash : Hash)
| MaxHeight (height : Height) (hash : Hash) (max : Height)
| InvalidDifficulty (height : Height) (hash : Hash)
| TargetDifficultyLimit (height : Height) (hash : Hash) (threshold : ExpandedDifficulty) (network : Network) (limit : ExpandedDifficulty)
| DifficultyFilter (height : Height) (hash : Hash) (threshold : ExpandedDifficulty) (network : Network)
| WrongTransactionConsensusBranchId
| TooManyTransparentSignatureOperations (height : Height) (hash : Hash) (sigops : Z)
| SummingMinerFees (height : Height) (hash : Hash) (source : Amount.Error)
| BlockOther (msg : string).

(** The conversions of subsidy and amount errors. *)
Definition from_subsidy_error (e : SubsidyError) : BlockError := BlockTransaction (TxSubsidy e).
Definition from_amount_error (e : Amount.Error) : BlockError := from_subsidy_error (InvalidAmount e).

Inductive VerifyBlockError :=
| Depth (source : ServiceError) (hash : Hash)
| InvalidBlock (source : BlockError)
| InvalidEquihash (source : EquihashError)
| InvalidTime (e : BlockTimeError)
| CommitFailed (e : CommitBlockError)
| ValidateProposal (e : ServiceError)
| InvalidTransaction (e : TransactionError)
| InvalidSubsidy (e : SubsidyError)
| StateServiceFailed (source : ServiceError) (hash : Hash).

Definition block_misbehavior_score (self : BlockError) : Z :=
  match self with
  | MissingHeight _ | MaxHeight _ _ _ | InvalidDifficulty _ _ | TargetDifficultyLimit _ _ _ _ _ | DifficultyFilter _ _ _ _ => 100
  | _ => 0
  end.
Definition misbehavior_score (self : VerifyBlockError) : Z :=
  match self with
  | InvalidBlock source => block_misbehavior_score source
  | InvalidEquihash _ => 100
  | _ => 0
  end.

(** ** The checks of a block *)

Definition coinbase_is_first (block : Block) : Res BlockError Transaction :=
  first ← ok_or (head (transactions block)) NoTransactions;
  let rest := drop 1 (transactions block) in
  if negb (is_coinbase first) then Err (BlockTransaction CoinbasePosition)
  else if negb (forallb is_valid_non_coinbase rest) then Err (BlockTransaction CoinbaseAfterFirst)
  else Ok first.

Definition difficulty_threshold_is_valid (header : Header) (network : Network) (height : Height) (hash : Hash) :
    Res BlockError ExpandedDifficulty :=
  expanded ← lift (to_expanded (difficulty_threshold header));
  difficulty_threshold ← ok_or expanded (InvalidDifficulty height hash);
  limit ← lift (target_difficulty_limit network);
  if limit <? difficulty_threshold
  then Err (TargetDifficultyLimit height hash difficulty_threshold network limit)
  else Ok difficulty_threshold.

Definition difficulty_is_valid (header : Header) (network : Network) (height : Height) (hash : Hash) : Res BlockError unit :=
  difficulty_threshold ← difficulty_threshold_is_valid header network height hash;
  if difficulty_threshold <? from_hash hash then Err (DifficultyFilter height hash difficulty_threshold network)
  else Ok tt.

Definition equihash_solution_is_valid (header : Header) : Res EquihashError unit :=
  solution_check is_valid_solution (solution header) header.

(** [has_amount]: removes an output from the multiset of those of the coinbase transaction. *)
Definition has_amount {E} (coinbase_outputs : list Output) (addr : Address) (amount : Amount NonNegative) :
    Res E (option (list Output)) :=
  _ ← assert (is_script_hash addr);
  Ok (multiset_remove (mkOutput amount (address_script addr)) coinbase_outputs).

(** The loop over the lockbox disbursements, and the loop over the funding streams. *)
Definition disburse (s : Amount NegativeAllowed * list Output) (d : Address * Amount NonNegative) :
    Res SubsidyError (Amount NegativeAllowed * list Output) :=
  found ← has_amount s.2 d.1 d.2;
  match found with
  | None => Err OneTimeLockboxDisbursementNotFound
  | Some outputs => balance ← ok_or (Amount.checked_sub s.1 d.2) Underflow; Ok (balance, outputs)
  end.

Definition pay_stream (height : Height) (net : Network) (outputs : list Output)
    (stream : FundingStreamReceiver * Amount NonNegative) : Res BlockError (list Output) :=
  addr ← lift (funding_stream_address height net stream.1);
  addr ← ok_or addr (BlockOther "A funding stream other than the deferred pool must have an address");
  found ← has_amount outputs addr stream.2;
  ok_or found (from_subsidy_error FundingStreamNotFound).

Definition subsidy_is_valid (block : Block) (net : Network) (expected_block_subsidy : Amount NonNegative) :
    Res BlockError DeferredPoolBalanceChange :=
  if is_zero expected_block_subsidy then lift deferred_zero else
  height ← ok_or (coinbase_height block) (from_subsidy_error NoCoinbase);
  first ← ok_or (head (transactions block)) (from_subsidy_error NoCoinbase);
  let coinbase_outputs := outputs first in
  nu ← lift (current net height);
  if nu_ltb nu Canopy then
    first_halving ← lift (height_for_first_halving net);
    _ ← (if (MIN <? height) && (height <? first_halving) then
           addr ← lift (founders_reward_address net height);
           addr ← ok_or addr (BlockOther "founders reward address must be defined");
           reward ← lift (founders_reward net height);
           found ← has_amount coinbase_outputs addr reward;
           match found with Some _ => Ok tt | None => Err (from_subsidy_error FoundersRewardNotFound) end
         else Ok tt);
    lift deferred_zero
  else
    funding_streams ← map_err from_amount_error (funding_stream_values height net expected_block_subsidy);
    default_amount ← Amount.zero;
    deferred ← map_err from_amount_error
      (Amount.constrain NegativeAllowed (default (default_amount : Amount NonNegative) (funding_streams !! Deferred)));
    let funding_streams := delete Deferred funding_streams in
    '(deferred_pool_balance_change, coinbase_outputs) ←
      (if bool_decide (Some height = activation_height Nu6_1 net) then
         lockbox_disbursements ← lift (lockbox_disbursements net height);
         if bool_decide (lockbox_disbursements = [])
         then Err (BlockOther "missing lockbox disbursements for NU6.1 activation block")
         else map_err from_subsidy_error (foldM disburse (deferred, coinbase_outputs) lockbox_disbursements)
       else Ok (deferred, coinbase_outputs));
    _ ← foldM (pay_stream height net) coinbase_outputs (map_to_list funding_streams);
    Ok (deferred_new deferred_pool_balance_change).

Definition miner_fees_are_valid (coinbase_tx : Transaction) (height : Height)
    (block_miner_fees expected_block_subsidy : Amount NonNegative)
    (expected_deferred_pool_balance_change : DeferredPoolBalanceChange) (network : Network) : Res BlockError unit :=
  transparent_outputs ← map_err (λ _, from_subsidy_error Overflow) (Amount.sum (value <$> outputs coinbase_tx));
  transparent_value_balance ←
    map_err (λ _, BlockOther "invalid transparent value balance") (Amount.constrain NegativeAllowed transparent_outputs);
  sapling_value_balance ← sapling_value_balance coinbase_tx;
  orchard_value_balance ← orchard_value_balance coinbase_tx;
  zip233_amount ← Amount.zero;
  total_output_value ← map_err (λ _, from_subsidy_error Overflow)
    (Amount.result_add (Amount.result_add (Amount.result_sub (Amount.sub transparent_value_balance (ValueBalance.sapling sapling_value_balance))
       (ValueBalance.orchard orchard_value_balance)) (deferred_value expected_deferred_pool_balance_change)) zip233_amount);
  total_input_value ← map_err (λ _, from_subsidy_error Overflow) (Amount.add expected_block_subsidy block_miner_fees);
  nu ← lift (current network height);
  if (if nu_ltb nu Nu6 then zatoshis total_input_value <? zatoshis total_output_value
      else negb (zatoshis total_output_value =? zatoshis total_input_value))
  then Err (from_subsidy_error InvalidMinerFees)
  else Ok tt.

Definition merkle_root_validity (network : Network) (block : Block) (transaction_hashes : list Hash) : Res BlockError unit :=
  _ ← map_err (λ _, WrongTransactionConsensusBranchId) (check_transaction_network_upgrade_consistency block network);
  merkle_root ← lift (merkle_root_of transaction_hashes);
  if negb (bool_decide (Transaction.merkle_root (header block) = merkle_root))
  then Err (BadMerkleRoot merkle_root (Transaction.merkle_root (header block)))
  else if negb (Nat.eqb (length transaction_hashes) (size (list_to_set transaction_hashes : gset Hash)))
  then Err DuplicateTransaction
  else Ok tt.

(** ** [SemanticBlockVerifier] *)

(** The answers of the state service. A commit fails with a [CommitBlockError] or with another error. *)
Inductive CommitServiceError := CommitError (e : CommitBlockError) | OtherServiceError (e : ServiceError).
Record BlockState := mkBlockState {
  known_block : Hash → Res ServiceError (option KnownBlock);
  check_block_proposal_validity : SemanticallyVerifiedBlock → Res ServiceError unit;
  commit_semantically_verified_block : SemanticallyVerifiedBlock → Res CommitServiceError Hash;
}.

Inductive BlockVerifierRequest := Commit (block : Block) | CheckProposal (block : Block).
Definition request_block (self : BlockVerifierRequest) : Block :=
  match self with Commit block | CheckProposal block => block end.
Definition is_proposal (self : BlockVerifierRequest) : bool :=
  match self with Commit _ => false | CheckProposal _ => true end.

Definition MAX_BLOCK_SIGOPS : Z := 20000.

(** The totals of a block: [u32] additions wrap around, and an error of the fees is kept until the end. *)
Definition BlockTotals : Type := Z * Res Amount.Error (Amount NonNegative).
Definition add_response (totals : BlockTotals) (result : Res BoxError Response) : Res VerifyBlockError BlockTotals :=
  response ← map_err (λ e, InvalidTransaction (from_box_error e)) result;
  _ ← assert (match response with BlockResponse _ _ _ => true | _ => false end);
  let sigops := wrap U32 (totals.1 + rsp_sigops response) in
  Ok (sigops, match rsp_miner_fee response with Some fee => Amount.add_assign totals.2 fee | None => totals.2 end).

(** The requests to the transaction verifier. *)
Definition transaction_requests (block : Block) (transaction_hashes : list Hash)
    (known_utxos : gmap OutPoint OrderedUtxo) (height : Height) : list Request :=
  let known_outpoint_hashes : gset Hash := set_map outpoint_hash (dom known_utxos) in
  (λ p, BlockRequest p.1 p.2 known_outpoint_hashes known_utxos height (time (header block)))
    <$> zip transaction_hashes (transactions block).

(** The checks of [call] that need neither the state nor the transaction verifier. *)
Definition quick_block_checks (network : Network) (now : Z) (request : BlockVerifierRequest) (hash : Hash)
    (height : Height) (transaction_hashes : list Hash) :
    Res VerifyBlockError (Transaction * Amount NonNegative * DeferredPoolBalanceChange) :=
  let block := request_block request in
  _ ← map_err InvalidTime (time_is_valid_at (header block) now height hash);
  coinbase_tx ← map_err InvalidBlock (coinbase_is_first block);
  expected_block_subsidy ← map_err InvalidSubsidy (block_subsidy height network);
  deferred_pool_balance_change ← map_err InvalidBlock (subsidy_is_valid block network expected_block_subsidy);
  _ ← map_err InvalidTransaction (coinbase_outputs_are_decryptable coinbase_tx network height);
  Ok (coinbase_tx, expected_block_subsidy, deferred_pool_balance_change).

(** The proof of work, which a proposal and a network without it do not need. *)
Definition pow_checks (network : Network) (request : BlockVerifierRequest) (hash : Hash) (height : Height) :
    Res VerifyBlockError unit :=
  let header := header (request_block request) in
  if is_proposal request || disable_pow network then
    _ ← map_err InvalidBlock (difficulty_threshold_is_valid header network height hash); Ok tt
  else
    _ ← map_err InvalidBlock (difficulty_is_valid header network height hash);
    map_err InvalidEquihash (equihash_solution_is_valid header).

(** The totals of the block, from the responses of the transaction verifier. *)
Definition totals_checks (network : Network) (hash : Hash) (height : Height) (totals : BlockTotals)
    (coinbase_tx : Transaction) (expected_block_subsidy : Amount NonNegative)
    (deferred_pool_balance_change : DeferredPoolBalanceChange) : Res BlockError unit :=
  if MAX_BLOCK_SIGOPS <? totals.1 then Err (TooManyTransparentSignatureOperations height hash totals.1) else
  block_miner_fees ← map_err (SummingMinerFees height hash) totals.2;
  miner_fees_are_valid coinbase_tx height block_miner_fees expected_block_subsidy deferred_pool_balance_change network.

(** The part of [call] before the block goes to the state. *)
Definition prepare_block (order : list (Res BoxError Response) → list (Res BoxError Response)) (network : Network) (now : Z)
    (known_block : Hash → Res ServiceError (option KnownBlock)) (transaction_verifier : Request → Res BoxError Response)
    (request : BlockVerifierRequest) : Res VerifyBlockError SemanticallyVerifiedBlock :=
  let block := request_block request in
  hash ← lift (header_hash (header block));
  known ← map_err (λ source, Depth source hash) (known_block hash);
  match known with Some location => Err (InvalidBlock (AlreadyInChain hash location)) | None =>
  height ← ok_or (coinbase_height block) (InvalidBlock (MissingHeight hash));
  if MAX <? height then Err (InvalidBlock (MaxHeight height hash MAX)) else
  _ ← pow_checks network request hash height;
  transaction_hashes ← lift (collect (tx_hash <$> transactions block));
  _ ← map_err InvalidBlock (merkle_root_validity network block transaction_hashes);
  '(coinbase_tx, expected_block_subsidy, deferred_pool_balance_change) ←
    quick_block_checks network now request hash height transaction_hashes;
  known_utxos ← new_ordered_outputs block transaction_hashes;
  let results := transaction_verifier <$> transaction_requests block transaction_hashes known_utxos height in
  no_fees ← Amount.zero;
  totals ← foldM add_response (0, Ok no_fees) (order results);
  _ ← map_err InvalidBlock
    (totals_checks network hash height totals coinbase_tx expected_block_subsidy deferred_pool_balance_change);
  Ok (mkSemantic block hash height known_utxos transaction_hashes (Some deferred_pool_balance_change))
  end.

(** [SemanticBlockVerifier::call]. *)
Definition block_call (order : list (Res BoxError Response) → list (Res BoxError Response)) (network : Network) (now : Z)
    (state : BlockState) (transaction_verifier : Request → Res BoxError Response) (request : BlockVerifierRequest) :
    Res VerifyBlockError Hash :=
  prepared_block ← prepare_block order network now (known_block state) transaction_verifier request;
  let hash := sv_hash prepared_block in
  if is_proposal request then
    _ ← map_err ValidateProposal (check_block_proposal_validity state prepared_block);
    Ok hash
  else
    match commit_semantically_verified_block state prepared_block with
    | Ok committed_hash => _ ← assert (bool_decide (committed_hash = hash)); Ok hash
    | Err (CommitError e) => Err (CommitFailed e)
    | Err (OtherServiceError source) => Err (StateServiceFailed source hash)
    | Panic => Panic
    end.

(** The transaction verifier behind a buffer, which boxes its errors; blocks have no mempool. *)
Definition transaction_verifier (tx_order : AsyncChecks → AsyncChecks) (random : list Z → LibHashType → Hash) (network : Network)
    (state : StateService) (req : Request) : Res BoxError Response :=
  map_err BoxTransaction (verify tx_order random network state None req).
End Verifier.

(** ** Payments of the coinbase transaction *)

Lemma multiset_remove_Some {A} `{EqDecision A} (x : A) l l' : multiset_remove x l = Some l' → l ≡ₚ x :: l'.
Proof.
  revert l'. induction l as [|y l IH]; intros l'; cbn; [done|]. destruct (decide (y = x)) as [->|]; [by intros [= ->]|].
  intros (l1 & H & ->)%fmap_Some_1. rewrite (IH l1 H). apply Permutation_swap.
Qed.
Lemma multiset_remove_elem {A} `{EqDecision A} (x : A) l : x ∈ l → is_Some (multiset_remove x l).
Proof.
  induction l as [|y l IH]; [by intros ?%elem_of_nil|]. intros H. cbn. destruct (decide (y = x)) as [|Hne]; [eauto|].
  apply elem_of_cons in H as [->|H]; [done|]. destruct (IH H) as [l' ->]. cbn. eauto.
Qed.
(** The values that are removed one by one are a part of the multiset. *)
Lemma remove_cons {A} `{EqDecision A} (x : A) xs l : x :: xs ⊆+ l ↔ ∃ l', multiset_remove x l = Some l' ∧ xs ⊆+ l'.
Proof.
  split.
  - intros (k & Hk & Hxs)%submseteq_cons_l. destruct (multiset_remove_elem x l) as [l' Hl']; [rewrite Hk; left|].
    exists l'. split; [done|]. apply multiset_remove_Some in Hl'. rewrite Hk in Hl'. apply Permutation_cons_inv in Hl'. by rewrite <- Hl'.
  - intros (l' & ->%multiset_remove_Some & H). by apply submseteq_skip.
Qed.

Section Payments.
Context `{LT : !Literals, CL : !CurveLib, LZ : !LibRustZcash, SL : !SighashLib, HF : !HashFns, ZS : !ScriptLib, VL : !VerifierLib,
  BE : !BlockEnv}.

(** The output that pays an amount to an address. *)
Definition payment (p : Address * Amount NonNegative) : Output := mkOutput p.2 (address_script p.1).
Definition script_payment (p : Address * Amount NonNegative) : Prop := is_script_hash p.1 = true.
Definition paid (l : list (Address * Amount NonNegative)) : Z := sum_Z ((λ p, zatoshis p.2) <$> l).
Lemma paid_cons p l : paid (p :: l) = zatoshis p.2 + paid l.
Proof. done. Qed.
Lemma paid_nonneg l : Forall (λ d, amount_ok d.2 = true) l → 0 ≤ paid l.
Proof. induction 1 as [|x l Hx _ IH]; [done|]. rewrite paid_cons. apply contains_spec in Hx. cbn in Hx. lia. Qed.

Lemma has_amount_Ok {E} outs p r : has_amount (E := E) outs p.1 p.2 = Ok r ↔ script_payment p ∧ r = multiset_remove (payment p) outs.
Proof. unfold has_amount, script_payment. destruct (is_script_hash p.1); cbn; naive_solver. Qed.

Lemma checked_sub_Some {C} (a : Amount NegativeAllowed) (b : Amount C) c : - MAX_MONEY ≤ zatoshis a ≤ MAX_MONEY → 0 ≤ zatoshis b ≤ MAX_MONEY →
  Amount.checked_sub a b = Some c ↔ c = mkAmount (zatoshis a - zatoshis b) ∧ - MAX_MONEY ≤ zatoshis a - zatoshis b.
Proof.
  intros Ha Hb. unfold Amount.checked_sub, Prelude.checked_sub, try_from. rewrite fits_I64_small by lia. cbn.
  rewrite try_from_i64_spec. destruct (contains _ _) eqn:Hc.
  - apply contains_spec in Hc. cbn in Hc. split; [intros [= <-]; split; [done|lia]|by intros [-> _]].
  - apply not_true_iff_false in Hc. rewrite contains_spec in Hc. cbn in Hc. split; [done|]. intros [_ ?]. lia.
Qed.

Lemma disburse_Ok ds b outs : Forall (λ d, amount_ok d.2 = true) ds → - MAX_MONEY ≤ zatoshis b ≤ MAX_MONEY → ∀ b' outs',
  foldM disburse (b, outs) ds = Ok (b', outs') → Forall script_payment ds ∧ zatoshis b' = zatoshis b - paid ds ∧
    - MAX_MONEY ≤ zatoshis b' ≤ MAX_MONEY ∧ outs ≡ₚ (payment <$> ds) ++ outs'.
Proof.
  intros Hds. revert b outs. induction Hds as [|d ds Hd _ IH]; intros b outs Hb b' outs'.
  { intros [= <- <-]. split_and!; [constructor|cbn; lia|lia|lia|done]. }
  apply contains_spec in Hd. cbn in Hd. intros ([b1 outs1] & H1 & H2)%bind_Ok. unfold disburse in H1.
  apply bind_Ok in H1 as (found & [Hs ->]%has_amount_Ok & H1). cbn [fst snd] in H1.
  destruct (multiset_remove _ outs) as [o|] eqn:Ho; [|done]. apply bind_Ok in H1 as (b2 & H1 & [= <- <-]).
  destruct (Amount.checked_sub b d.2) as [b3|] eqn:Hc; [|done]. cbn in H1. injection H1 as ->.
  apply checked_sub_Some in Hc as [-> Hc]; [|lia|lia]. apply IH in H2 as (Hf & Hz & Hr & Hp); [|cbn; lia]. cbn [zatoshis] in Hz.
  split_and!; [by constructor|rewrite paid_cons; lia|lia|lia|]. rewrite (multiset_remove_Some _ _ _ Ho), Hp. done.
Qed.
Lemma disburse_complete ds b outs : Forall (λ d, amount_ok d.2 = true) ds → - MAX_MONEY ≤ zatoshis b ≤ MAX_MONEY →
  Forall script_payment ds → payment <$> ds ⊆+ outs → - MAX_MONEY ≤ zatoshis b - paid ds →
  ∃ outs', foldM disburse (b, outs) ds = Ok (mkAmount (zatoshis b - paid ds), outs').
Proof.
  intros Hds. revert b outs. induction Hds as [|d ds Hd Hds IH]; intros b outs Hb Hs Hp Hz; cbn [foldM].
  { exists outs. unfold paid. cbn. rewrite Z.sub_0_r. by destruct b. }
  apply contains_spec in Hd. cbn in Hd. apply Forall_cons in Hs as [Hs1 Hs]. cbn in Hp. apply remove_cons in Hp as (o & Ho & Hp).
  pose proof (paid_nonneg ds Hds) as Hpos.
  rewrite paid_cons in Hz.
  assert (H1 : disburse (b, outs) d = Ok (mkAmount (zatoshis b - zatoshis d.2), o)).
  { unfold disburse. cbn [fst snd]. rewrite (proj2 (has_amount_Ok outs d _) (conj Hs1 eq_refl)), Ok_bind, Ho.
    assert (Hle : - MAX_MONEY ≤ zatoshis b - zatoshis d.2) by lia.
    by rewrite (proj2 (checked_sub_Some b d.2 _ Hb Hd) (conj eq_refl Hle)). }
  rewrite H1, Ok_bind. destruct (IH (mkAmount (zatoshis b - zatoshis d.2)) o) as [outs' IH']; [cbn; lia|done|done|cbn; lia|].
  exists outs'. rewrite IH'. cbn [zatoshis]. by rewrite paid_cons, Z.sub_add_distr.
Qed.

(** The payment of a funding stream. *)
Definition stream_payment (height : Height) (net : Network) (stream : FundingStreamReceiver * Amount NonNegative)
    (p : Address * Amount NonNegative) : Prop :=
  funding_stream_address height net stream.1 = Ok (Some p.1) ∧ p.2 = stream.2 ∧ script_payment p.

Lemma pay_streams_Ok height net streams outs :
  is_ok (foldM (pay_stream height net) outs streams) = true ↔
  ∃ ps, Forall2 (stream_payment height net) streams ps ∧ payment <$> ps ⊆+ outs.
Proof.
  revert outs. induction streams as [|s l IH]; intros outs; cbn [foldM].
  { split; [|done]. intros _. exists []. split; [constructor|apply submseteq_nil_l]. }
  split.
  - intros H. destruct (pay_stream height net outs s) as [outs1| |] eqn:Hp; [|done|done]. rewrite Ok_bind in H.
    apply IH in H as (ps & Hps & Hsub). apply bind_Ok in Hp as (addr & Ha & (a & Hs & (found & Hf & Ho)%bind_Ok)%bind_Ok).
    destruct addr as [addr|]; [|done]. injection Hs as <-. apply (has_amount_Ok outs (addr, s.2)) in Hf as [Hsc ->].
    destruct (multiset_remove _ outs) as [o|] eqn:Hm; [|done]. injection Ho as <-. exists ((addr, s.2) :: ps). split.
    + constructor; [|done]. split_and!; [|done|done]. by destruct (funding_stream_address _ _ _) as [|[]|]; [injection Ha as ->|].
    + cbn. apply remove_cons. by exists o.
  - intros (ps & Hps & Hsub). destruct ps as [|p ps]; [by apply Forall2_length in Hps|]. apply Forall2_cons in Hps as [(Ha & He & Hs) Hps].
    cbn in Hsub. apply remove_cons in Hsub as (o & Ho & Hsub).
    assert (H1 : pay_stream height net outs s = Ok o).
    { unfold pay_stream. rewrite Ha. cbn [lift]. rewrite Ok_bind. cbn [ok_or]. rewrite Ok_bind, <- He.
      by rewrite (proj2 (has_amount_Ok outs p _) (conj Hs eq_refl)), Ok_bind, Ho. }
    rewrite H1, Ok_bind. apply IH. eauto.
Qed.

(** The founders' reward, from the second block to the first halving. *)
Definition founders_paid (net : Network) (height first_halving : Height) (outs : list Output) : Prop :=
  0 < height < first_halving → ∃ addr reward, founders_reward_address net height = Ok (Some addr) ∧
    founders_reward net height = Ok reward ∧ script_payment (addr, reward) ∧ payment (addr, reward) ∈ outs.

(** The funding streams, and the lockbox disbursements of the NU6.1 activation block, with distinct outputs for each. *)
Definition streams_paid (net : Network) (height : Height) (values : gmap FundingStreamReceiver (Amount NonNegative))
    (ds : list (Address * Amount NonNegative)) (outs : list Output) : Prop :=
  (Some height = activation_height Nu6_1 net → ds ≠ []) ∧ Forall script_payment ds ∧
  ∃ ps, Forall2 (stream_payment height net) (map_to_list (delete Deferred values)) ps ∧ payment <$> ds ++ ps ⊆+ outs.

Section Subsidy.
Context (net : Network) (height : Height) (outs : list Output).

Lemma founders_check first_halving : height_for_first_halving net = Ok first_halving →
  is_ok (first_halving ← lift (height_for_first_halving net);
    (if (MIN <? height) && (height <? first_halving) then
       addr ← lift (founders_reward_address net height);
       addr ← ok_or addr (BlockOther "founders reward address must be defined");
       reward ← lift (founders_reward net height);
       found ← has_amount outs addr reward;
       match found with Some _ => Ok tt | None => Err (from_subsidy_error FoundersRewardNotFound) end
     else Ok tt)) = true ↔ founders_paid net height first_halving outs.
Proof.
  intros Hf. rewrite Hf. cbn [lift]. rewrite Ok_bind. unfold founders_paid. destruct (_ && _) eqn:Hh.
  2:{ split; [|done]. intros _ Hr. unfold MIN in Hh. lia. }
  unfold MIN in Hh. split.
  - intros H _. destruct (founders_reward_address net height) as [[addr|]|[]|]; [|done|done]. cbn [lift] in H. rewrite Ok_bind in H. cbn [ok_or] in H. rewrite Ok_bind in H.
    destruct (founders_reward net height) as [reward|[]|]; [|done]. cbn [lift] in H. rewrite Ok_bind in H.
    destruct (has_amount outs addr reward) as [found| |] eqn:Ha; [|done|done]. apply (has_amount_Ok outs (addr, reward)) in Ha as [Hs ->].
    rewrite Ok_bind in H. destruct (multiset_remove _ outs) as [o|] eqn:Ho; [|done]. exists addr, reward. split_and!; [done|done|done|].
    rewrite (multiset_remove_Some _ _ _ Ho). left.
  - intros H. destruct H as (addr & reward & Ha & Hr & Hs & Hin); [lia|]. rewrite Ha, Hr. cbn [lift]. rewrite Ok_bind. cbn [ok_or]. rewrite !Ok_bind.
    rewrite (proj2 (has_amount_Ok outs (addr, reward) _) (conj Hs eq_refl)), Ok_bind. by destruct (multiset_remove_elem _ _ Hin) as [o ->].
Qed.

Lemma bind_is_ok {E A B} (r : Res E A) (x : B) y : (_ ← r; Ok x) = Ok y ↔ is_ok r = true ∧ y = x.
Proof. destruct r; cbn; split; first [done | by intros [= ->] | by intros [_ ->] | by intros [? _]]. Qed.

(** The payments of the disbursements, then of the streams. *)
Lemma streams_check (deferred : Amount NegativeAllowed) ds (values : gmap FundingStreamReceiver (Amount NonNegative)) d :
  lockbox_disbursements net height = Ok ds → Forall (λ d, amount_ok d.2 = true) ds → 0 ≤ zatoshis deferred ≤ MAX_MONEY →
  ('(balance, outs') ←
      (if bool_decide (Some height = activation_height Nu6_1 net) then
         lockbox_disbursements ← lift (lockbox_disbursements net height);
         if bool_decide (lockbox_disbursements = [])
         then Err (BlockOther "missing lockbox disbursements for NU6.1 activation block")
         else map_err from_subsidy_error (foldM disburse (deferred, outs) lockbox_disbursements)
       else Ok (deferred, outs));
    _ ← foldM (pay_stream height net) outs' (map_to_list (delete Deferred values));
    Ok (deferred_new balance)) = Ok d ↔
  streams_paid net height values ds outs ∧ - MAX_MONEY ≤ zatoshis deferred - paid ds ∧ d = mkAmount (zatoshis deferred - paid ds).
Proof.
  intros Hl Hds Hd. assert (Hoff : Some height ≠ activation_height Nu6_1 net → ds = []).
  { intros Hn. unfold lockbox_disbursements in Hl. rewrite bool_decide_false in Hl by done. by injection Hl as <-. }
  rewrite Hl. cbn [lift]. rewrite Ok_bind. unfold streams_paid. case_bool_decide as Hact.
  - case_bool_decide as Hne; [split; [done|]; intros (([] & _) & _); [done|congruence]|]. split.
    + intros ([b o] & Hb%map_err_Ok & Hrest)%bind_Ok. apply bind_is_ok in Hrest as [(ps & Hps & Hsub)%pay_streams_Ok ->].
      apply disburse_Ok in Hb as (Hs & Hz & Hr & Hp); [|done|lia]. split_and!; [done|done| |lia|by apply amount_eq].
      exists ps. split; [done|]. rewrite fmap_app, Hp. by apply submseteq_skips_l.
    + intros ((_ & Hs & ps & Hps & Hsub) & Hlo & ->). rewrite fmap_app in Hsub.
      destruct (disburse_complete ds deferred outs Hds ltac:(lia) Hs) as [o Ho]; [|lia|].
      { etrans; [|exact Hsub]. by apply submseteq_inserts_r. }
      rewrite Ho. cbn [map_err]. rewrite Ok_bind. apply bind_is_ok. split; [|done]. apply pay_streams_Ok. exists ps. split; [done|].
      apply disburse_Ok in Ho as (_ & _ & _ & Hp); [|done|lia]. rewrite Hp in Hsub. by apply submseteq_app_inv_l in Hsub.
  - rewrite Ok_bind, (Hoff Hact), bind_is_ok, pay_streams_Ok. unfold paid. cbn [fmap list_fmap sum_Z app foldr]. rewrite Z.sub_0_r.
    replace (mkAmount (zatoshis deferred)) with deferred by (by destruct deferred). unfold deferred_new. split.
    + intros [Hps ->]. split_and!; [done|constructor|done|lia|done].
    + intros ((_ & _ & Hps) & _ & ->). done.
Qed.
End Subsidy.

Lemma constrain_allowed (a : Amount NonNegative) : amount_ok a = true → Amount.constrain NegativeAllowed a = Ok (mkAmount (zatoshis a)).
Proof.
  intros Ha%amount_ok_bounds. unfold Amount.constrain. rewrite try_from_i64_spec.
  by rewrite (proj2 (contains_spec _ _)) by (cbn; lia).
Qed.

(** What the coinbase transaction has to pay when there is a subsidy, and the change of the deferred pool. *)
Definition subsidy_paid (net : Network) (height : Height) (subsidy : Amount NonNegative) (outs : list Output)
    (change : DeferredPoolBalanceChange) : Prop :=
  ∃ nu, current net height = Ok nu ∧
  if nu_ltb nu Canopy then change = mkAmount 0 ∧ ∃ halving, height_for_first_halving net = Ok halving ∧ founders_paid net height halving outs
  else ∃ values ds, funding_stream_values height net subsidy = Ok values ∧ lockbox_disbursements net height = Ok ds ∧
    streams_paid net height values ds outs ∧ - MAX_MONEY ≤ zatoshis change ∧
    zatoshis change = from_option zatoshis 0 (values !! Deferred) - paid ds.

Lemma subsidy_is_valid_Ok block net height cb subsidy ds change : zatoshis subsidy ≠ 0 →
  coinbase_height block = Some height → head (transactions block) = Some cb →
  (∀ values, funding_stream_values height net subsidy = Ok values → map_Forall (λ _ v, amount_ok v = true) values) →
  lockbox_disbursements net height = Ok ds → Forall (λ d, amount_ok d.2 = true) ds →
  subsidy_is_valid block net subsidy = Ok change ↔ subsidy_paid net height subsidy (outputs cb) change.
Proof.
  intros Hz Hh Hcb Hv Hds Hdok. unfold subsidy_is_valid, subsidy_paid, is_zero. rewrite (proj2 (Z.eqb_neq _ _) Hz), Hh, Hcb.
  cbn [ok_or]. rewrite Ok_bind. cbn [ok_or]. rewrite Ok_bind. cbn zeta.
  destruct (current net height) as [nu|[]|]; cbn [lift]; [rewrite Ok_bind|split; [done|by intros (? & ? & _)]].
  assert (Hex : ∀ P : NetworkUpgrade → Prop, (∃ nu', Ok (E := Empty_set) nu = Ok nu' ∧ P nu') ↔ P nu).
  { intros P. split; [by intros (? & [= <-] & ?)|eauto]. }
  rewrite Hex. destruct (nu_ltb nu Canopy).
  - destruct (height_for_first_halving net) as [h|[]|] eqn:Hhalf; cbn [lift]; [rewrite Ok_bind|split; [done|by intros (_ & ? & ? & _)]].
    pose proof (founders_check net height (outputs cb) h Hhalf) as Hf. rewrite Hhalf in Hf. cbn [lift] in Hf. rewrite Ok_bind in Hf.
    unfold deferred_zero. rewrite Amount.zero_spec. cbn [lift]. rewrite bind_is_ok, Hf. split.
    + intros [Hp ->]. split; [done|]. eauto.
    + intros (-> & ? & [= <-] & Hp). done.
  - destruct (funding_stream_values height net subsidy) as [values|e|]; cbn [map_err];
      [rewrite Ok_bind|split; [done|by intros (? & ? & ? & _)]..]. specialize (Hv values eq_refl).
    rewrite Amount.zero_spec, Ok_bind. set (df := default (mkAmount 0) (values !! Deferred)).
    assert (Hdf : amount_ok df = true).
    { unfold df. destruct (values !! Deferred) as [v|] eqn:Hdef; [exact (Hv _ _ Hdef)|done]. }
    rewrite constrain_allowed by done. cbn [map_err]. rewrite Ok_bind. apply contains_spec in Hdf. cbn in Hdf.
    rewrite (streams_check net height (outputs cb) (mkAmount (zatoshis df)) ds values change Hds Hdok Hdf). cbn [zatoshis].
    assert (Hdfz : from_option zatoshis 0 (values !! Deferred) = zatoshis df) by (unfold df; by destruct (values !! Deferred)). split.
    + intros (Hp & Hlo & ->). exists values, ds. by rewrite Hdfz.
    + intros (? & ? & [= <-] & [= <-]%(eq_trans (eq_sym Hds)) & Hp & Hlo & Hch). rewrite Hdfz in Hch. split_and!; [done|lia|by apply amount_eq].
Qed.
End Payments.

(** ** The totals of a block *)

Section Totals.
Context `{LT : !Literals, CL : !CurveLib, LZ : !LibRustZcash, SL : !SighashLib, HF : !HashFns, ZS : !ScriptLib, VL : !VerifierLib,
  BE : !BlockEnv}.

Definition fees_of (rsps : list Response) : Z := sum_Z ((λ r, from_option zatoshis 0 (rsp_miner_fee r)) <$> rsps).
Definition sigops_of (rsps : list Response) : Z := sum_Z (rsp_sigops <$> rsps).
Definition block_response (r : Response) : Prop :=
  match r with BlockResponse _ fee _ => from_option (λ f, amount_ok f = true) True fee | MempoolResponse _ _ => False end.

Lemma fees_of_cons r l : fees_of (r :: l) = from_option zatoshis 0 (rsp_miner_fee r) + fees_of l.
Proof. done. Qed.
Lemma fees_of_nonneg l : Forall block_response l → 0 ≤ fees_of l.
Proof.
  induction 1 as [|r l Hr _ IH]; [done|]. rewrite fees_of_cons. destruct r as [? [f|] ?|]; cbn in *; [|lia|done].
  apply contains_spec in Hr. cbn in Hr. lia.
Qed.
Lemma fees_of_Permutation l k : l ≡ₚ k → fees_of l = fees_of k.
Proof. intros H. unfold fees_of. apply sum_Z_perm. by rewrite H. Qed.
Lemma sigops_of_Permutation l k : l ≡ₚ k → sigops_of l = sigops_of k.
Proof. intros H. unfold sigops_of. apply sum_Z_perm. by rewrite H. Qed.

Lemma wrap_U32_add a b : wrap U32 (wrap U32 a + b) = wrap U32 (a + b).
Proof. unfold wrap. cbn [ty_min ty_max]. rewrite !Z.sub_0_r, !Z.add_0_r. by rewrite Zplus_mod_idemp_l. Qed.

(** The fees are added while they are amounts; an error stays. *)
Lemma add_fees_error e l : foldl Amount.add_assign (Err (A := Amount NonNegative) e) l = Err e.
Proof. by induction l. Qed.
Lemma add_fees f l : Forall (λ a : Amount NonNegative, amount_ok a = true) l → 0 ≤ f ≤ MAX_MONEY →
  if f + sum_Z (zatoshis <$> l) <=? MAX_MONEY
  then foldl Amount.add_assign (Ok (mkAmount f)) l = Ok (mkAmount (f + sum_Z (zatoshis <$> l)))
  else ∃ e, foldl Amount.add_assign (Ok (mkAmount f)) l = Err e.
Proof.
  intros Hl. revert f. induction Hl as [|a l Ha Hl IH]; intros f Hf; cbn -[Amount.add].
  { rewrite Z.add_0_r, (proj2 (Z.leb_le _ _)) by lia. done. }
  pose proof (sum_Z_nonneg (zatoshis <$> l)) as Hpos. rewrite Forall_fmap in Hpos.
  assert (0 ≤ sum_Z (zatoshis <$> l)).
  { apply Hpos. eapply Forall_impl; [exact Hl|]. intros x Hx. apply contains_spec in Hx. cbn in *. lia. }
  rewrite Amount.add_spec, try_from_i64_spec; [|apply contains_spec; cbn; lia|done]. apply contains_spec in Ha. cbn in Ha. cbn [zatoshis].
  destruct (contains _ _) eqn:Hc.
  - apply contains_spec in Hc. cbn in Hc. rewrite Z.add_assoc. apply IH. lia.
  - apply not_true_iff_false in Hc. rewrite contains_spec in Hc. cbn in Hc. rewrite (proj2 (Z.leb_gt _ _)) by lia.
    rewrite add_fees_error. eauto.
Qed.

Lemma add_responses s fees rsps : Forall block_response rsps →
  foldM add_response (wrap U32 s, fees) (Ok <$> rsps) =
  Ok (wrap U32 (s + sigops_of rsps), foldl Amount.add_assign fees (omap rsp_miner_fee rsps)).
Proof.
  intros Hr. revert s fees. induction Hr as [|r l Hr Hl IH]; intros s fees; cbn [fmap list_fmap foldM].
  { unfold sigops_of. cbn. by rewrite Z.add_0_r. }
  destruct r as [id fee sig|]; [|done].
  assert (H1 : add_response (wrap U32 s, fees) (Ok (BlockResponse id fee sig)) =
    Ok (wrap U32 (wrap U32 s + sig), match fee with Some fee => Amount.add_assign fees fee | None => fees end)) by done.
  rewrite H1, Ok_bind, wrap_U32_add, IH. unfold sigops_of. cbn. rewrite Z.add_assoc. by destruct fee.
Qed.

Lemma fees_of_omap rsps : fees_of rsps = sum_Z (zatoshis <$> omap rsp_miner_fee rsps).
Proof. induction rsps as [|r l IH]; [done|]. rewrite fees_of_cons, IH. cbn. by destruct (rsp_miner_fee r). Qed.

(** The responses that add up: all are responses to block requests. *)
Lemma add_responses_Ok s fees results totals : foldM add_response (s, fees) results = Ok totals →
  ∃ rsps, results = Ok <$> rsps ∧ Forall (λ r, match r with BlockResponse _ _ _ => True | _ => False end) rsps.
Proof.
  revert s fees. induction results as [|r l IH]; intros s fees; [exists []; by split|].
  intros ([s1 fees1] & H1 & (rsps & -> & Hf)%IH)%bind_Ok. apply bind_Ok in H1 as (rsp & Hr%map_err_Ok & ([] & Ha & _)%bind_Ok). subst r.
  exists (rsp :: rsps). split; [done|]. constructor; [|done]. by destruct rsp.
Qed.

Definition fees_ok (tv : Request → Res BoxError Response) : Prop :=
  ∀ req rsp fee, tv req = Ok rsp → rsp_miner_fee rsp = Some fee → amount_ok fee = true.

Definition reorders_results (order : list (Res BoxError Response) → list (Res BoxError Response)) : Prop := ∀ l, order l ≡ₚ l.

Lemma totals_spec order rsps : reorders_results order → Forall block_response rsps → ∃ fees,
  foldM add_response (0, Ok (mkAmount 0)) (order (Ok <$> rsps)) = Ok (wrap U32 (sigops_of rsps), fees) ∧
  ∀ f, fees = Ok f ↔ fees_of rsps ≤ MAX_MONEY ∧ f = mkAmount (fees_of rsps).
Proof.
  intros Ho Hr. pose proof (Ho (Ok <$> rsps)) as Hk. set (k := order (Ok <$> rsps)) in *.
  destruct (Permutation_map_inv _ _ Hk) as (l & Hl & Hp). clearbody k. subst k.
  rewrite Hp in Hr. rewrite (sigops_of_Permutation _ _ Hp), (fees_of_Permutation _ _ Hp).
  eexists. split; [exact (add_responses 0 (Ok (mkAmount 0)) l Hr)|].
  assert (Hok : Forall (λ a, amount_ok a = true) (omap rsp_miner_fee l)).
  { apply Forall_forall. intros a (r & Hin & Hra)%list_elem_of_omap. eapply Forall_forall in Hr; [|exact Hin]. destruct r as [? fee ?|]; [|done].
    cbn in Hra. by subst fee. }
  pose proof (add_fees 0 _ Hok ltac:(unfold MAX_MONEY, COIN; lia)) as Hf. rewrite <- fees_of_omap, Z.add_0_l in Hf.
  intros f. destruct (Z.leb_spec (fees_of l) MAX_MONEY).
  - rewrite Hf. split; [intros [= <-]; done|by intros [_ ->]].
  - destruct Hf as [e ->]. split; [done|]. intros [? _]. lia.
Qed.

Lemma totals_responses order tv reqs totals : reorders_results order → fees_ok tv →
  foldM add_response (0, Ok (mkAmount 0)) (order (tv <$> reqs)) = Ok totals →
  ∃ rsps, tv <$> reqs = Ok <$> rsps ∧ Forall block_response rsps.
Proof.
  intros Ho Hf (l & Hl & Hb)%add_responses_Ok. pose proof (Ho (tv <$> reqs)) as Hp. rewrite Hl in Hp. symmetry in Hp.
  destruct (Permutation_map_inv _ _ Hp) as (rsps & Hr & Hperm). exists rsps. split; [exact Hr|].
  apply Forall_forall. intros r Hin. assert (Hbr : r ∈ l) by (by rewrite Hperm). eapply Forall_forall in Hb; [|exact Hbr].
  assert (Hreq : Ok r ∈ tv <$> reqs).
  { rewrite Hr. apply list_elem_of_In. apply in_map. by apply list_elem_of_In. }
  apply list_elem_of_fmap in Hreq as (req & Hreq & _). destruct r as [id [fee|] sig|]; [|done|done]. cbn. by eapply (Hf req).
Qed.
End Totals.

(** ** What the verifier accepts *)

Section Accept.
Context `{LT : !Literals, CL : !CurveLib, LZ : !LibRustZcash, SL : !SighashLib, HF : !HashFns, ZS : !ScriptLib, VL : !VerifierLib,
  BE : !BlockEnv}.
Context (network : Network) (now : Z) (known_block : Hash → Res ServiceError (option KnownBlock)) (tv : Request → Res BoxError Response).

Lemma prepare_block_Ok order request sv (block := request_block request) : reorders_results order → fees_ok tv →
  prepare_block order network now known_block tv request = Ok sv ↔
  ∃ hash height hashes known cb subsidy change rsps,
    sv = mkSemantic block hash height known hashes (Some change) ∧
    header_hash (header block) = Ok hash ∧ known_block hash = Ok None ∧ coinbase_height block = Some height ∧ height ≤ MAX ∧
    pow_checks network request hash height = Ok tt ∧ collect (tx_hash <$> transactions block) = Ok hashes ∧
    merkle_root_validity network block hashes = Ok tt ∧
    quick_block_checks network now request hash height hashes = Ok (cb, subsidy, change) ∧
    new_ordered_outputs (E := VerifyBlockError) block hashes = Ok known ∧
    tv <$> transaction_requests block hashes known height = Ok <$> rsps ∧ Forall block_response rsps ∧
    wrap U32 (sigops_of rsps) ≤ MAX_BLOCK_SIGOPS ∧ fees_of rsps ≤ MAX_MONEY ∧
    miner_fees_are_valid cb height (mkAmount (fees_of rsps)) subsidy change network = Ok tt.
Proof.
  intros Ho Hf. unfold prepare_block. fold block. split.
  - intros (hash & Hh%lift_Ok & (known & Hk%map_err_Ok & H)%bind_Ok)%bind_Ok. destruct known as [|]; [done|].
    apply bind_Ok in H as (height & Hht & H). destruct (coinbase_height block) as [h|] eqn:Hcb; [|done]. injection Hht as <-.
    destruct (Z.ltb_spec MAX h); [done|]. apply bind_Ok in H as ([] & Hpow & (hashes & Hhs%lift_Ok & ([] & Hm%map_err_Ok & ([[cb subsidy] change] & Hq & H)
      %bind_Ok)%bind_Ok)%bind_Ok). apply bind_Ok in H as (known & Hn & H). cbn zeta in H. rewrite Amount.zero_spec, Ok_bind in H.
    apply bind_Ok in H as (totals & Ht & ([] & Hc%map_err_Ok & [= <-])%bind_Ok).
    destruct (totals_responses order tv _ totals Ho Hf Ht) as (rsps & Hr & Hb). rewrite Hr in Ht.
    destruct (totals_spec order rsps Ho Hb) as (fees & Ht' & Hfees). rewrite Ht in Ht'. injection Ht' as ->.
    unfold totals_checks in Hc. cbn [fst snd] in Hc. destruct (Z.ltb_spec MAX_BLOCK_SIGOPS (wrap U32 (sigops_of rsps))); [done|].
    apply bind_Ok in Hc as (f & [Hle ->]%map_err_Ok%Hfees & Hmf). exists hash, h, hashes, known, cb, subsidy, change, rsps. by split_and!.
  - intros (hash & height & hashes & known & cb & subsidy & change & rsps & -> & Hh & Hk & Hcb & Hle & Hpow & Hhs & Hm & Hq & Hn & Hr & Hb & Hs & Hfm & Hmf).
    rewrite Hh. cbn [lift]. rewrite Ok_bind, Hk. cbn [map_err]. rewrite Ok_bind, Hcb. cbn [ok_or]. rewrite Ok_bind, (proj2 (Z.ltb_ge _ _)) by done.
    rewrite Hpow, Ok_bind, Hhs. cbn [lift]. rewrite Ok_bind, Hm. cbn [map_err]. rewrite Ok_bind, Hq, Ok_bind, Hn, Ok_bind, Hr. cbn zeta.
    rewrite Amount.zero_spec, Ok_bind. destruct (totals_spec order rsps Ho Hb) as (fees & -> & Hfees). rewrite Ok_bind.
    rewrite (proj2 (Hfees _) (conj Hfm eq_refl)). unfold totals_checks. cbn [fst snd]. rewrite (proj2 (Z.ltb_ge _ _)) by done.
    cbn [map_err]. rewrite Ok_bind, Hmf. done.
Qed.

(** the order in which the transactions of a block are verified does not decide whether the block is
    accepted, or what is submitted to the state: the fees of the transactions and their signature operations add up to the same
    totals. *)
Theorem prepare_order_independent order order' request sv : reorders_results order → reorders_results order' → fees_ok tv →
  prepare_block order network now known_block tv request = Ok sv ↔ prepare_block order' network now known_block tv request = Ok sv.
Proof. intros Ho Ho' Hf. by rewrite !prepare_block_Ok. Qed.

Lemma quick_block_Ok request hash height hashes cb subsidy change :
  quick_block_checks network now request hash height hashes = Ok (cb, subsidy, change) ↔
  time (header (request_block request)) ≤ now + 2 * 60 * 60 ∧ coinbase_is_first (request_block request) = Ok cb ∧
  block_subsidy height network = Ok subsidy ∧ subsidy_is_valid (request_block request) network subsidy = Ok change ∧
  coinbase_outputs_are_decryptable cb network height = Ok tt.
Proof.
  unfold quick_block_checks, time_is_valid_at. split.
  - intros ([] & Ht%map_err_Ok & (c & Hc%map_err_Ok & (s & Hs%map_err_Ok & (d & Hd%map_err_Ok & ([] & Hdec%map_err_Ok & [= <- <- <-])
      %bind_Ok)%bind_Ok)%bind_Ok)%bind_Ok)%bind_Ok. destruct (Z.leb_spec (time (header (request_block request))) (now + 2 * 60 * 60)); [|done]. by split_and!.
  - intros (Ht & Hc & Hs & Hd & Hdec). rewrite (proj2 (Z.leb_le _ _)) by done. cbn [map_err]. rewrite Ok_bind, Hc. cbn [map_err].
    rewrite Ok_bind, Hs. cbn [map_err]. rewrite Ok_bind, Hd. cbn [map_err]. rewrite Ok_bind, Hdec. done.
Qed.

Lemma coinbase_is_first_Ok block cb : coinbase_is_first block = Ok cb ↔
  ∃ rest, transactions block = cb :: rest ∧ is_coinbase cb = true ∧ Forall (λ t, is_valid_non_coinbase t = true) rest.
Proof.
  unfold coinbase_is_first. destruct (transactions block) as [|t rest]; cbn; [split; [done|by intros (? & ? & _)]|].
  assert (Hf : forallb is_valid_non_coinbase rest = true ↔ Forall (λ t, is_valid_non_coinbase t = true) rest).
  { rewrite forallb_forall, Forall_forall. by setoid_rewrite list_elem_of_In. }
  destruct (is_coinbase t) eqn:Hc; cbn; [|split; [done|by intros (? & [= <- <-] & ? & _); congruence]].
  rewrite drop_0. destruct (forallb _ rest); cbn.
  - split; [intros [= <-]; exists rest; by rewrite <- Hf|by intros (? & [= <- <-] & _)].
  - split; [done|]. intros (? & [= <- <-] & _ & ?%Hf). done.
Qed.

Lemma pow_checks_Ok request hash height : pow_checks network request hash height = Ok tt ↔
  ∃ target limit, to_expanded (difficulty_threshold (header (request_block request))) = Ok (Some target) ∧
    target_difficulty_limit network = Ok limit ∧ target ≤ limit ∧
    (is_proposal request || disable_pow network = false →
      from_hash hash ≤ target ∧ equihash_solution_is_valid (header (request_block request)) = Ok tt).
Proof.
  assert (Ht : ∀ target, difficulty_threshold_is_valid (header (request_block request)) network height hash = Ok target ↔
    ∃ limit, to_expanded (difficulty_threshold (header (request_block request))) = Ok (Some target) ∧
      target_difficulty_limit network = Ok limit ∧ target ≤ limit).
  { intros target. unfold difficulty_threshold_is_valid. split.
    - intros (e & He%lift_Ok & (t & Ht & (l & Hl%lift_Ok & H)%bind_Ok)%bind_Ok)%bind_Ok. destruct e as [e|]; [|done]. injection Ht as ->.
      destruct (Z.ltb_spec l t); [done|]. injection H as ->. eauto.
    - intros (l & -> & -> & Hle). cbn [lift]. rewrite Ok_bind. cbn [ok_or]. rewrite !Ok_bind. by rewrite (proj2 (Z.ltb_ge _ _)). }
  unfold pow_checks, difficulty_is_valid. destruct (_ || _); split.
  - intros (target & (limit & H1 & H2 & H3)%map_err_Ok%Ht & _)%bind_Ok. exists target, limit. by split_and!.
  - intros (target & limit & H1 & H2 & H3 & _). rewrite (proj2 (Ht target)) by eauto. done.
  - intros ([] & (target & (limit & H1 & H2 & H3)%Ht & H)%map_err_Ok%bind_Ok & He%map_err_Ok)%bind_Ok. exists target, limit.
    destruct (Z.ltb_spec target (from_hash hash)); [done|]. by split_and!.
  - intros (target & limit & H1 & H2 & H3 & H). destruct (H eq_refl) as [Hh He]. rewrite (proj2 (Ht target)) by eauto. rewrite Ok_bind.
    rewrite (proj2 (Z.ltb_ge _ _)) by done. cbn [map_err]. rewrite Ok_bind, He. done.
Qed.

Lemma merkle_root_Ok block hashes height : coinbase_height block = Some height → merkle_root_validity network block hashes = Ok tt ↔
  (∃ nu, current network height = Ok nu ∧ ∀ t nu', t ∈ transactions block → tx_network_upgrade t = Some nu' → nu' = nu) ∧
  merkle_root_of hashes = Ok (merkle_root (header block)) ∧ NoDup hashes.
Proof.
  intros Hh. assert (Hc : check_transaction_network_upgrade_consistency block network = Ok tt ↔
    ∃ nu, current network height = Ok nu ∧ ∀ t nu', t ∈ transactions block → tx_network_upgrade t = Some nu' → nu' = nu).
  { unfold check_transaction_network_upgrade_consistency. rewrite Hh. cbn [expect]. rewrite Ok_bind.
    destruct (current network height) as [nu|[]|]; cbn [lift]; [rewrite Ok_bind|split; [done|by intros (? & ? & _)]].
    destruct (existsb _ _) eqn:He; (split; [try done|try done]).
    - intros (? & [= <-] & Hall). apply existsb_exists in He as (nu' & Hin%list_elem_of_In & Hne).
      apply list_elem_of_omap in Hin as (t & Ht & Hu). rewrite (Hall t nu' Ht Hu), bool_decide_true in Hne; done.
    - intros _. exists nu. split; [done|]. intros t nu' Ht Hu. destruct (decide (nu' = nu)) as [|Hne]; [done|]. exfalso.
      apply not_true_iff_false in He. apply He. apply existsb_exists. exists nu'. split; [|by rewrite bool_decide_false].
      apply list_elem_of_In, list_elem_of_omap. eauto. }
  assert (Hd : length hashes = size (list_to_set hashes : gset Hash) ↔ NoDup hashes).
  { rewrite <- remove_dups_length, <- (size_list_to_set (C := gset Hash) (remove_dups hashes)) by apply NoDup_remove_dups.
    assert (list_to_set (remove_dups hashes) =@{gset Hash} list_to_set hashes) as ->; [|done].
    apply set_eq. intros x. rewrite !elem_of_list_to_set. apply elem_of_remove_dups. }
  rewrite <- Hc, <- Hd. unfold merkle_root_validity. split.
  - intros ([] & H1%map_err_Ok & (root & Hr%lift_Ok & H)%bind_Ok)%bind_Ok. case_bool_decide as Heq; [|done]. cbn [negb] in H.
    destruct (Nat.eqb_spec (length hashes) (size (list_to_set hashes : gset Hash))); [|done]. by rewrite Heq, Hr.
  - intros (-> & Hr & Hl). cbn [map_err]. rewrite Ok_bind, Hr. cbn [lift]. rewrite Ok_bind, bool_decide_true by done. cbn [negb].
    by rewrite (proj2 (Nat.eqb_eq _ _)).
Qed.

Definition in_range (z : Z) : Prop := - MAX_MONEY ≤ z ≤ MAX_MONEY.

(** The value that the coinbase transaction creates, with the change of the deferred pool: at most the subsidy and the fees, and
    from NU6 all of it. The partial sums have to be amounts. *)
Definition coinbase_balanced (nu : NetworkUpgrade) (cb : Transaction) (fees subsidy change : Z) : Prop :=
  let value := transparent_out cb - sapling_balance cb - orchard_balance cb + change in
  transparent_out cb ≤ MAX_MONEY ∧ in_range (transparent_out cb - sapling_balance cb) ∧
  in_range (transparent_out cb - sapling_balance cb - orchard_balance cb) ∧ in_range value ∧ subsidy + fees ≤ MAX_MONEY ∧
  if nu_ltb nu Nu6 then value ≤ subsidy + fees else value = subsidy + fees.

Lemma try_from_allowed v (x : Amount NegativeAllowed) : try_from_i64 v = Ok x ↔ in_range v ∧ x = mkAmount v.
Proof.
  rewrite try_from_i64_spec. pose proof (contains_spec (valid_range NegativeAllowed) v) as Hc. cbn in Hc. unfold in_range.
  destruct (contains _ v); [split; [intros [= <-]; split; [by apply Hc|done]|by intros [_ ->]]|]. split; [done|]. by intros [?%Hc _].
Qed.
Lemma amount_add_exact {C} `{ConstraintLaws C} (a b c : Amount C) : Amount.add a b = Ok c → zatoshis c = zatoshis a + zatoshis b.
Proof.
  intros (v & Hv & Hc)%bind_Ok. destruct (checked_add I64 (zatoshis a) (zatoshis b)) as [w|] eqn:Hw; [|done]. injection Hv as ->.
  apply try_from_Some in Hw as [-> _]. rewrite try_from_i64_spec in Hc. destruct (contains _ _); [|done]. by injection Hc as <-.
Qed.
Lemma in_range_ok v : in_range v ↔ amount_ok (C := NegativeAllowed) (mkAmount v) = true.
Proof. unfold amount_ok. by rewrite contains_spec. Qed.

Lemma miner_fees_Ok cb height (fees subsidy : Amount NonNegative) (change : DeferredPoolBalanceChange) nu : tx_ok cb → amount_ok fees = true → amount_ok subsidy = true →
  in_range (zatoshis change) → current network height = Ok nu →
  miner_fees_are_valid cb height fees subsidy change network = Ok tt ↔ coinbase_balanced nu cb (zatoshis fees) (zatoshis subsidy) (zatoshis change).
Proof.
  intros Ht Hf Hs Hd Hnu. unfold miner_fees_are_valid, coinbase_balanced.
  assert (Hout : Forall (λ a, amount_ok a = true) (value <$> outputs cb)) by (apply Forall_fmap, (tx_outputs_ok cb Ht)).
  pose proof (sum_cases _ Hout) as Hsum. pose proof (is_ok_sum_non_negative _ Hout) as Hok. rewrite <- list_fmap_compose in Hsum.
  rewrite <- list_fmap_compose in Hok. fold (transparent_out cb) in Hok.
  replace (sum_Z ((zatoshis ∘ value) <$> outputs cb)) with (transparent_out cb) in Hok, Hsum by done.
  destruct (Amount.sum (value <$> outputs cb)) as [tout|e|]; [|cbn in Hok; symmetry in Hok; apply bool_decide_eq_false in Hok; split; [done|intros [? _]; lia]|done].
  cbn in Hok. symmetry in Hok. apply bool_decide_eq_true in Hok. destruct Hsum as (Hz & Hto & _). cbn [map_err]. rewrite Ok_bind.
  rewrite constrain_allowed by done. cbn [map_err]. rewrite Ok_bind, sapling_value_balance_spec, Ok_bind, orchard_value_balance_spec, Ok_bind, Amount.zero_spec, Ok_bind.
  cbn [ValueBalance.sapling ValueBalance.orchard]. rewrite Hz.
  destruct (shielded_balances_ok cb Ht) as [Hsap Horc]. apply vb_ok_inv in Hsap as (_ & _ & Hsap & _), Horc as (_ & _ & _ & Horc & _). cbn in Hsap, Horc.
  unfold Amount.result_add, Amount.result_sub. rewrite Hnu. cbn [lift].
  assert (Htr : in_range (transparent_out cb)) by (apply contains_spec in Hto; cbn in Hto; unfold in_range; lia).
  rewrite (Amount.add_spec subsidy fees), (try_from_i64_spec (C := NonNegative)) by done.
  assert (Hin : contains (valid_range NonNegative) (zatoshis subsidy + zatoshis fees) = true ↔ zatoshis subsidy + zatoshis fees ≤ MAX_MONEY).
  { apply contains_spec in Hf, Hs. cbn in Hf, Hs. rewrite contains_spec. cbn. lia. }
  split.
  - intros (v & Hv%map_err_Ok & (inp & Hi & H)%bind_Ok)%bind_Ok. apply bind_Ok in Hv as (v3 & (v2 & (v1 & H1 & H2)%bind_Ok & H3)%bind_Ok & H4).
    rewrite Amount.sub_spec in H1 by (try done; by apply in_range_ok). apply try_from_allowed in H1 as [R1 ->].
    rewrite Amount.sub_spec in H2 by (try done; by apply in_range_ok). apply try_from_allowed in H2 as [R2 ->].
    rewrite Amount.add_spec in H3 by (first [by apply in_range_ok | by destruct change; apply in_range_ok]). apply try_from_allowed in H3 as [R3 ->].
    rewrite Amount.add_spec in H4 by (by apply in_range_ok). apply try_from_allowed in H4 as [R4 ->]. cbn [zatoshis] in *. unfold deferred_value in *.
    destruct (contains _ _) eqn:Hc; [|done]. injection Hi as <-. cbn [zatoshis] in H. rewrite Z.add_0_r, Ok_bind in H. split_and!; [done|done|done|done|by apply Hin|].
    destruct (nu_ltb nu Nu6); [destruct (Z.ltb_spec (zatoshis subsidy + zatoshis fees) (transparent_out cb - sapling_balance cb - orchard_balance cb + zatoshis change)); done|].
    destruct (Z.eqb_spec (transparent_out cb - sapling_balance cb - orchard_balance cb + zatoshis change) (zatoshis subsidy + zatoshis fees)); done.
  - intros (R0 & R1 & R2 & R3 & R4 & Hb). cbn [map_err].
    rewrite Amount.sub_spec by (try done; by apply in_range_ok). cbn [zatoshis]. rewrite (proj2 (try_from_allowed _ _) (conj R1 eq_refl)), Ok_bind.
    rewrite Amount.sub_spec by (try done; by apply in_range_ok). cbn [zatoshis]. rewrite (proj2 (try_from_allowed _ _) (conj R2 eq_refl)), Ok_bind.
    rewrite Amount.add_spec by (first [by apply in_range_ok | by destruct change; apply in_range_ok]). cbn [zatoshis]. unfold deferred_value.
    rewrite (proj2 (try_from_allowed _ _) (conj R3 eq_refl)), Ok_bind. rewrite Amount.add_spec by (by apply in_range_ok). cbn [zatoshis]. rewrite Z.add_0_r.
    rewrite (proj2 (try_from_allowed _ _) (conj R3 eq_refl)). cbn [map_err]. rewrite Ok_bind, (proj2 Hin R4). cbn [map_err]. rewrite !Ok_bind. cbn [zatoshis].
    destruct (nu_ltb nu Nu6); [by rewrite (proj2 (Z.ltb_ge _ _))|by rewrite (proj2 (Z.eqb_eq _ _))].
Qed.

(** The rules of a block, from its transactions and the responses [rsps] for them, and what is submitted to the state. *)
Record block_rules (request : BlockVerifierRequest) (sv : SemanticallyVerifiedBlock) (rsps : list Response)
    (block := request_block request) (height := sv_height sv) (hashes := sv_transaction_hashes sv) : Prop := {
  rule_block : sv_block sv = block;
  rule_hash : header_hash (header block) = Ok (sv_hash sv);
  rule_new : known_block (sv_hash sv) = Ok None;
  rule_height : coinbase_height block = Some height ∧ height ≤ MAX;
  rule_target : ∃ target limit, to_expanded (difficulty_threshold (header block)) = Ok (Some target) ∧
    target_difficulty_limit network = Ok limit ∧ target ≤ limit ∧
    (is_proposal request || disable_pow network = false →
      from_hash (sv_hash sv) ≤ target ∧ equihash_solution_is_valid (header block) = Ok tt);
  rule_hashes : collect (tx_hash <$> transactions block) = Ok hashes;
  rule_merkle : merkle_root_of hashes = Ok (merkle_root (header block)) ∧ NoDup hashes;
  rule_time : time (header block) ≤ now + 2 * 60 * 60;
  rule_outputs : new_ordered_outputs (E := VerifyBlockError) block hashes = Ok (sv_new_outputs sv);
  rule_transactions : tv <$> transaction_requests block hashes (sv_new_outputs sv) height = Ok <$> rsps ∧ Forall block_response rsps;
  rule_sigops : wrap U32 (sigops_of rsps) ≤ MAX_BLOCK_SIGOPS;
  rule_payments : ∃ cb rest nu subsidy change, transactions block = cb :: rest ∧ is_coinbase cb = true ∧
    Forall (λ t, is_valid_non_coinbase t = true) rest ∧ coinbase_outputs_are_decryptable cb network height = Ok tt ∧
    current network height = Ok nu ∧ (∀ t nu', t ∈ transactions block → tx_network_upgrade t = Some nu' → nu' = nu) ∧
    block_subsidy height network = Ok subsidy ∧ sv_deferred_pool_balance_change sv = Some change ∧
    (if is_zero subsidy then change = mkAmount 0 else subsidy_paid network height subsidy (outputs cb) change) ∧
    coinbase_balanced nu cb (fees_of rsps) (zatoshis subsidy) (zatoshis change);
}.

(** The amounts of the parameters of the network are amounts, at a height. *)
Record payments_ok (height : Height) : Prop := {
  payments_subsidy : ∀ s, block_subsidy height network = Ok s → amount_ok s = true;
  payments_streams : ∀ s values, block_subsidy height network = Ok s → funding_stream_values height network s = Ok values →
    map_Forall (λ _ v, amount_ok v = true) values;
  payments_lockbox : ∃ ds, lockbox_disbursements network height = Ok ds ∧ Forall (λ d, amount_ok d.2 = true) ds;
}.

(** A network whose subsidies are well formed and whose lockbox addresses parse. *)
Lemma network_payments_ok blossom height : subsidy_ok network blossom → Forall numerators_ok (all_funding_streams network) →
  0 ≤ height ≤ MAX → (∃ ds, lockbox_disbursements network height = Ok ds ∧ Forall (λ d, amount_ok d.2 = true) ds) → payments_ok height.
Proof.
  intros Hs Hn Hh Hd. pose proof (subsidy_value_bounds network blossom height Hs ltac:(lia)) as Hb.
  assert (Hv : ∀ s, block_subsidy height network = Ok s → 0 ≤ zatoshis s ≤ MAX_BLOCK_SUBSIDY).
  { intros s. rewrite (block_subsidy_spec network blossom height Hs Hh). intros [= <-]. exact Hb. }
  assert (Hm : MAX_BLOCK_SUBSIDY ≤ MAX_MONEY) by (vm_compute; discriminate).
  split; [| |done].
  - intros s Hs'%Hv. apply contains_spec. cbn. lia.
  - intros s values Hs'%Hv Hval i v Hi. destruct (current network height) as [nu|[]|] eqn:Hc.
    + destruct (funding_stream_values_spec network height nu s Hs' Hn Hc) as (values' & Hval' & Hall & _). rewrite Hval in Hval'. injection Hval' as <-.
      apply elem_of_map_to_list in Hi. eapply Forall_forall in Hall; [|apply list_elem_of_fmap; by exists (i, v)]. by apply contains_spec.
    + unfold funding_stream_values in Hval. rewrite Hc in Hval. destruct (is_zero s); [|done]. injection Hval as <-. by rewrite lookup_empty in Hi.
Qed.

Lemma subsidy_change_Ok block height cb rest subsidy change : payments_ok height → coinbase_height block = Some height →
  transactions block = cb :: rest → block_subsidy height network = Ok subsidy → subsidy_is_valid block network subsidy = Ok change ↔
  if is_zero subsidy then change = mkAmount 0 else subsidy_paid network height subsidy (outputs cb) change.
Proof.
  intros Hp Hh Hcb Hs. destruct (payments_lockbox height Hp) as (ds & Hds & Hdok). destruct (is_zero subsidy) eqn:Hz.
  - unfold subsidy_is_valid. rewrite Hz. unfold deferred_zero. rewrite Amount.zero_spec. cbn [lift]. split; [by intros [= <-]|by intros ->].
  - apply (subsidy_is_valid_Ok block network height cb subsidy ds); [by apply Z.eqb_neq in Hz|done|by rewrite Hcb| |done|done].
    intros values Hv. by apply (payments_streams height Hp subsidy).
Qed.

(** The change of the deferred pool is an amount. *)
Lemma subsidy_change_range height subsidy outs change : payments_ok height → block_subsidy height network = Ok subsidy →
  (if is_zero subsidy then change = mkAmount 0 else subsidy_paid network height subsidy outs change) → in_range (zatoshis change).
Proof.
  intros Hp Hs H. assert (H0 : in_range 0) by (unfold in_range, MAX_MONEY, COIN; lia). destruct (is_zero subsidy); [by subst change|].
  destruct H as (nu & _ & H). destruct (nu_ltb nu Canopy); [by destruct H as [-> _]|]. destruct H as (values & ds & Hv & Hds & _ & Hlo & Hz).
  destruct (payments_lockbox height Hp) as (ds' & Hds' & Hdok). rewrite Hds in Hds'. injection Hds' as <-.
  pose proof (paid_nonneg ds Hdok) as Hpos.
  unfold in_range in *. split; [done|]. pose proof (payments_streams height Hp subsidy values Hs Hv) as Hall.
  destruct (values !! Deferred) as [v|] eqn:Hd; cbn in Hz; [|lia]. apply Hall in Hd. apply contains_spec in Hd. cbn in Hd. lia.
Qed.

Lemma prepare_block_spec order request sv : reorders_results order → fees_ok tv → Forall tx_ok (transactions (request_block request)) →
  (∀ height, coinbase_height (request_block request) = Some height → payments_ok height) →
  prepare_block order network now known_block tv request = Ok sv ↔ ∃ rsps, block_rules request sv rsps.
Proof.
  intros Ho Hf Ht Hp. rewrite prepare_block_Ok by done. split.
  - intros (hash & height & hashes & known & cb & subsidy & change & rsps & -> & Hh & Hk & Hcb & Hle & Hpow & Hhs & Hm & Hq & Hn & Hr & Hb & Hs & Hfm & Hmf).
    exists rsps. apply pow_checks_Ok in Hpow. apply (merkle_root_Ok _ _ height Hcb) in Hm as [(nu & Hnu & Hup) Hroot].
    apply quick_block_Ok in Hq as (Htime & (rest & Htx & Hfirst & Hrest)%coinbase_is_first_Ok & Hsub & Hch & Hdec).
    apply (subsidy_change_Ok _ height cb rest) in Hch; [|by apply Hp|done|done|done]. pose proof (Forall_inv (eq_ind _ _ Ht _ Htx)) as Htok.
    apply (miner_fees_Ok cb height (mkAmount (fees_of rsps)) subsidy change nu) in Hmf;
      [|done|apply contains_spec; pose proof (fees_of_nonneg rsps Hb); cbn; lia|by apply (payments_subsidy height (Hp _ Hcb))|by eapply subsidy_change_range; eauto|done].
    split; try done. exists cb, rest, nu, subsidy, change. by split_and!.
  - intros [rsps [Hbl Hh Hk [Hcb Hle] Hpow Hhs Hm Htime Hn [Hr Hb] Hs (cb & rest & nu & subsidy & change & Htx & Hfirst & Hrest & Hdec & Hnu & Hup & Hsub & Hd & Hch & Hbal)]].
    destruct sv as [b hash height known hashes d]. cbn in *. subst b d.
    exists hash, height, hashes, known, cb, subsidy, change, rsps.
    assert (Hfm : fees_of rsps ≤ MAX_MONEY).
    { destruct Hbal as (_ & _ & _ & _ & Hsum & _). pose proof (payments_subsidy height (Hp _ Hcb) subsidy Hsub) as Hso. apply contains_spec in Hso. cbn in Hso. lia. }
    pose proof (Forall_inv (eq_ind _ _ Ht _ Htx)) as Htok.
    assert (Hmf : miner_fees_are_valid cb height (mkAmount (fees_of rsps)) subsidy change network = Ok tt).
    { apply (miner_fees_Ok cb height (mkAmount (fees_of rsps)) subsidy change nu); 
      [done|apply contains_spec; pose proof (fees_of_nonneg rsps Hb); cbn; lia|by apply (payments_subsidy height (Hp _ Hcb))|by eapply subsidy_change_range; eauto|done|done]. }
    split_and!; try done.
    + by apply pow_checks_Ok.
    + apply (merkle_root_Ok _ _ height Hcb). split; [|done]. eauto.
    + apply quick_block_Ok. split_and!; [done| |done| |done].
      * apply coinbase_is_first_Ok. eauto.
      * by apply (subsidy_change_Ok _ height cb rest); [by apply Hp|..].
Qed.

(** C2: the block verifier submits to the state exactly the blocks that satisfy the rules: a block is
    submitted when its header has a target within the limit of the network, a hash below the target and a valid Equihash solution
    (unless the block is a proposal, or the network has no proof of work), its Merkle root is that of the distinct hashes of its
    transactions, its time is at most two hours ahead of the clock, its first transaction and no other one is a coinbase transaction, which
    pays the founders' reward, or each funding stream and lockbox disbursement with an output of its own, the transaction verifier
    accepts every transaction, and the coinbase transaction creates no more than the subsidy and the fees of the
    others, and from NU6 exactly this value. *)
Theorem prepare_block_exact order request sv : reorders_results order → fees_ok tv → Forall tx_ok (transactions (request_block request)) →
  (∀ height, coinbase_height (request_block request) = Some height → payments_ok height) →
  prepare_block order network now known_block tv request = Ok sv ↔ ∃ rsps, block_rules request sv rsps.
Proof. apply prepare_block_spec. Qed.
End Accept.

(** ** The transaction verifier behind the block verifier *)

Section Fees.
Context `{LT : !Literals, CL : !CurveLib, LZ : !LibRustZcash, SL : !SighashLib, HF : !HashFns, ZS : !ScriptLib, VL : !VerifierLib,
  BE : !BlockEnv}.

Lemma miner_fee_amount t utxos f : miner_fee t utxos = Ok (Some f) → amount_ok f = true.
Proof.
  unfold miner_fee. destruct (value_balance t utxos); [| |done]; rewrite Amount.zero_spec, Ok_bind; (destruct (is_coinbase t); [done|]); [|done].
  intros (v & _ & (r & _ & (f' & Hf%map_err_Ok & [= <-])%bind_Ok)%bind_Ok)%bind_Ok.
  apply bind_Ok in Hf as (z & _ & Hz). rewrite try_from_i64_spec in Hz. unfold amount_ok. destruct (contains _ z) eqn:Hc; [|done]. by injection Hz as <-.
Qed.

Lemma verifier_fees_ok tx_order random network state : reorders tx_order → fees_ok (transaction_verifier tx_order random network state).
Proof.
  intros Hord req rsp fee Hv%map_err_Ok Hfee. apply verify_Ok in Hv as (id & utxos & outs & mps & nu & c & checks & f & sig & _ & _ & _ & _ & _ & _ & _ & _ & _ & Hf & _ & Hr); [|done].
  destruct req as [h t k u ht tm|t ht]; [injection Hr as <-; cbn in Hfee; subst f; by eapply miner_fee_amount|].
  apply bind_Ok in Hr as (f' & Hf' & (v & Hv%map_err_Ok & [= <-])%bind_Ok). destruct f as [f|]; [|done]. injection Hf' as ->.
  apply bind_Ok in Hv as (? & _ & (? & _ & ([] & _ & [= <-])%bind_Ok)%bind_Ok). cbn in Hfee. injection Hfee as <-. by eapply miner_fee_amount.
Qed.
End Fees.

(** ** A block of Mainnet *)

#[local] Existing Instance sample_literals.
#[local] Existing Instance sample_curves.
#[local] Existing Instance sample_curve_laws.
#[local] Existing Instance sample_lib.
#[local] Existing Instance sample_sighash.
#[local] Existing Instance sample_script.
#[local] Existing Instance sample_hashes.
#[local] Existing Instance sample_verifiers.
Definition sample_block_env : BlockEnv := {|
  EquihashError := unit; is_valid_solution _ _ _ _ _ := Ok tt; ServiceError := unit; CommitBlockError := unit |}.
#[local] Existing Instance sample_block_env.

(** A coinbase transaction after NU5, which pays the miner and the three funding streams. *)
Definition sample_coinbase : Transaction :=
  V4 [Coinbase 1700000 [1; 2] 5]
     (mkOutput (mkAmount 250000000) [4; 5] :: ((λ v, mkOutput (mkAmount v) (address_script sample_address)) <$> [21875000; 15625000; 25000000]))
     (LockHeight 0) 1700000 None None.
Definition sample_coinbase_hash : Hash := ok_value [] (tx_hash sample_coinbase).
Definition sample_proposal : BlockVerifierRequest :=
  CheckProposal (mkBlock (mkHeader 4 (replicate 32 0) sample_coinbase_hash (replicate 32 0) 1700000000 520617983 (replicate 32 0) (Common (replicate 1344 0)))
    [sample_coinbase]).
Definition sample_tv : Request → Res BoxError Response := transaction_verifier (rev (A := _)) (λ _ _, []) Mainnet sample_state.
Definition sample_prepared : Res VerifyBlockError SemanticallyVerifiedBlock :=
  prepare_block (rev (A := _)) Mainnet 1700000000 (λ _, Ok None) sample_tv sample_proposal.
Definition sample_prepared_block : SemanticallyVerifiedBlock :=
  ok_value (mkSemantic (request_block sample_proposal) [] 0 ∅ [] None) sample_prepared.

Lemma sample_results_reorders : reorders_results (rev (A := _)).
Proof. intros l. rewrite <- Permutation_rev. reflexivity. Qed.
Lemma sample_fees_ok : fees_ok sample_tv.
Proof. apply verifier_fees_ok. exact sample_reorders. Qed.
Lemma sample_prepared_Ok : sample_prepared = Ok sample_prepared_block.
Proof. apply ok_value_eq. vm_compute. reflexivity. Qed.
Lemma sample_coinbase_ok : tx_wire_ok sample_coinbase.
Proof.
  apply (reads tx_codec (ok_value [] (Transaction_serialize sample_coinbase)) sample_coinbase []).
  - apply bytes_ok_forallb. vm_compute. reflexivity.
  - vm_compute. reflexivity.
Qed.
Lemma sample_payments_ok : payments_ok Mainnet 1700000.
Proof.
  apply (network_payments_ok Mainnet 653600); [exact mainnet_subsidy_ok|exact mainnet_numerators_ok|rewrite MAX_eq; lia|].
  exists []. split; [vm_compute; reflexivity|constructor].
Qed.
Lemma sample_heights height : coinbase_height (request_block sample_proposal) = Some height → payments_ok Mainnet height.
Proof. intros [= <-]. exact sample_payments_ok. Qed.

Lemma prepare_order_independent_witness :
  prepare_block id Mainnet 1700000000 (λ _, Ok None) sample_tv sample_proposal = Ok sample_prepared_block.
Proof.
  apply (prepare_order_independent Mainnet 1700000000 (λ _, Ok None) sample_tv id (rev (A := _)) sample_proposal sample_prepared_block);
    [by intros l|exact sample_results_reorders|exact sample_fees_ok|exact sample_prepared_Ok].
Defined.

Lemma prepare_block_exact_witness : ∃ rsps,
  block_rules Mainnet 1700000000 (λ _, Ok None) sample_tv sample_proposal sample_prepared_block rsps.
Proof.
  apply (prepare_block_exact Mainnet 1700000000 (λ _, Ok None) sample_tv (rev (A := _)) sample_proposal sample_prepared_block).
  - exact sample_results_reorders.
  - exact sample_fees_ok.
  - constructor; [apply tx_wire_tx_ok; exact sample_coinbase_ok|constructor].
  - exact sample_heights.
  - exact sample_prepared_Ok.
Defined.
