(* ===== verification/Issuance.v ===== *)
(** * The value that accepted blocks create

    The block verifier, with the transaction verifier behind it, and the chain value pools of the state: the value that a block
    adds to the pools is at most its subsidy, and the pools of a chain never hold more than the limit of 21 million. *)

From S2P Require Import Prelude BTreeMap Height Difficulty Amount Serialization Codec ValueBalance Network Testnet Subsidy Transaction.
From S2P Require Import Merkle BlockHeader ShieldedCodec TransactionCodec Sighash Unmined Reversible Script Ledger SpendChecks.
From S2P Require Import TxChecks TxVerifier BlockVerifier.

(** ** Balances depend on the spent outputs *)

Lemma spent_agree (outs outs' : gmap OutPoint Output) t i : (∀ p, p ∈ spent_outpoints t → outs !! p = outs' !! p) → i ∈ inputs t →
  spent_value outs i = spent_value outs' i ∧ value_from_outputs (E := ValueBalanceError) i outs = value_from_outputs i outs'.
Proof.
  intros Ha Hi. unfold spent_value, value_from_outputs. destruct i as [p sc q|]; cbn [outpoint]; [|done]. rewrite (Ha p); [done|].
  apply list_elem_of_omap. by exists (PrevOut p sc q).
Qed.
Lemma value_balance_ext outs outs' t : (∀ p, p ∈ spent_outpoints t → outs !! p = outs' !! p) →
  value_balance_from_outputs t outs = value_balance_from_outputs t outs' ∧ fee_value outs t = fee_value outs' t.
Proof.
  intros Ha. assert (H : ∀ i, i ∈ inputs t → spent_value outs i = spent_value outs' i ∧ value_from_outputs (E := ValueBalanceError) i outs = value_from_outputs i outs').
  { intros i. by apply spent_agree. }
  unfold value_balance_from_outputs, transparent_value_balance_from_outputs, fee_value, transparent_in.
  split; [do 3 f_equal|do 5 f_equal]; apply list_fmap_ext; intros k i Hi; apply list_elem_of_lookup_2 in Hi; by apply H.
Qed.

(** A coinbase transaction has no spent output, and its balance is defined when its outputs add up. *)
Lemma coinbase_inputs t : is_coinbase t = true → ∃ h d q, inputs t = [Coinbase h d q].
Proof. unfold is_coinbase. destruct (inputs t) as [|[] []]; try done. eauto. Qed.
Lemma coinbase_fee_value outs t : is_coinbase t = true → sprout_joinsplits t = [] →
  fee_value outs t = - (transparent_out t - sapling_balance t - orchard_balance t).
Proof.
  intros (h & d & q & Hi)%coinbase_inputs Hs. unfold fee_value, transparent_in, sprout_value. rewrite Hi, Hs. cbn. lia.
Qed.

Lemma coinbase_balance_ok outs t : tx_ok t → is_coinbase t = true → sprout_joinsplits t = [] → transparent_out t ≤ MAX_MONEY →
  is_ok (value_balance_from_outputs t outs) = true.
Proof.
  intros Ht (h & d & q & Hi)%coinbase_inputs Hs Hout. pose proof (outputs_values_ok t Ht) as Ho.
  pose proof (is_ok_sum_non_negative _ Ho) as Hok. rewrite <- list_fmap_compose in Hok. rewrite bool_decide_true in Hok by done.
  unfold value_balance_from_outputs, transparent_value_balance_from_outputs. rewrite Hi. cbn [fmap list_fmap value_from_outputs collect].
  rewrite Amount.zero_spec, !Ok_bind. cbn [Amount.sum].
  assert (H0 : Amount.sum [mkAmount 0 : Amount NonNegative] = Ok (mkAmount 0)) by (vm_compute; done). rewrite H0. cbn [map_err]. rewrite Ok_bind.
  rewrite constrain_non_negative, Ok_bind by done. destruct (Amount.sum (value <$> outputs t)) as [s| |] eqn:Hsum; [|done|done].
  apply sum_Ok in Hsum as [Hz Hs']; [|done]. cbn [map_err]. rewrite Ok_bind, constrain_non_negative, Ok_bind by done.
  pose proof Hs' as Hb. apply contains_spec in Hb. cbn in Hb. rewrite Amount.sub_spec by (try done; apply contains_spec; cbn; lia).
  assert (Hr : in_range (0 - zatoshis s)) by (unfold in_range; lia). cbn [zatoshis].
  rewrite (proj2 (try_from_allowed _ _) (conj Hr eq_refl)). cbn [map_err]. rewrite Ok_bind, (proj1 (from_amounts _)), Ok_bind.
  destruct (sprout_value_balance_spec t Ht) as [Hsp Hn].
  assert (Hsz : sprout_value_balance t = Ok (mkValueBalance (mkAmount 0) (mkAmount 0) (mkAmount 0) (mkAmount 0) (mkAmount 0))).
  { unfold sprout_value_balance. rewrite sprout_balances_spec, Hs, Ok_bind by done. vm_compute. done. }
  rewrite Hsz, Ok_bind, sapling_value_balance_spec, Ok_bind, orchard_value_balance_spec, Ok_bind. unfold ValueBalance.result_add.
  destruct (shielded_balances_ok t Ht) as [Hsap Horc]. set (x := 0 - zatoshis s) in *.
  assert (Hok0 : amount_ok (C := NegativeAllowed) (mkAmount 0) = true) by done. apply in_range_ok in Hr.
  pose proof (proj1 (vb_ok_inv _) Hsap) as (_ & _ & Hsa & _). pose proof (proj1 (vb_ok_inv _) Horc) as (_ & _ & _ & Hor & _). cbn in Hsa, Hor.
  assert (Hadd : ∀ v w y : ValueBalance NegativeAllowed, vb_ok v → vb_ok w → vb_ok y → pools y = zip_with Z.add (pools v) (pools w) →
    ValueBalance.add v w = Ok y) by (intros; by apply add_Ok).
  rewrite (Hadd _ _ (mkValueBalance (mkAmount x) (mkAmount 0) (mkAmount 0) (mkAmount 0) (mkAmount 0))), Ok_bind
    by first [done | by apply vb_ok_inv | cbn; by rewrite !Z.add_0_r].
  rewrite (Hadd _ _ (mkValueBalance (mkAmount x) (mkAmount 0) (mkAmount (sapling_balance t)) (mkAmount 0) (mkAmount 0))), Ok_bind
    by first [done | by apply vb_ok_inv | cbn; by rewrite !Z.add_0_r].
  rewrite (Hadd _ _ (mkValueBalance (mkAmount x) (mkAmount 0) (mkAmount (sapling_balance t)) (mkAmount (orchard_balance t)) (mkAmount 0)))
    by first [done | by apply vb_ok_inv | cbn; by rewrite !Z.add_0_r].
  done.
Qed.

(** ** The fees of the transactions *)

Section Issue.
Context `{LT : !Literals, CL : !CurveLib, CW : !CurveLaws, LZ : !LibRustZcash, SL : !SighashLib, HF : !HashFns, ZS : !ScriptLib,
  VL : !VerifierLib, BE : !BlockEnv}.
Context (network : Network) (tx_order : AsyncChecks → AsyncChecks) (random : list Z → LibHashType → Hash) (state : StateService).
Context (Htx_order : reorders tx_order).

(** The outputs that a block spends: those that it creates, or those of the state. *)
Definition block_utxo (known : gmap OutPoint OrderedUtxo) (p : OutPoint) : option Utxo :=
  match known !! p with
  | Some ordered => Some (utxo ordered)
  | None => match await_utxo state p with Ok u => Some u | _ => None end
  end.

(** The response of the verifier for a transaction of a block. *)
Lemma block_transaction_fee canopy nu h t kh known height tm rsp utxos (outs := outputs_from_utxos utxos) : tx_wire_ok t →
  current network height = Ok nu → activation_height Canopy network = Some canopy → outs_ok outs →
  (∀ p, p ∈ spent_outpoints t → utxos !! p = block_utxo known p) →
  transaction_verifier tx_order random network state (BlockRequest h t kh known height tm) = Ok rsp →
  if is_coinbase t then rsp_miner_fee rsp = None ∧ sprout_joinsplits t = []
  else is_ok (value_balance t utxos) = true ∧ from_option zatoshis 0 (rsp_miner_fee rsp) = fee_value outs t.
Proof.
  intros Ht Hnu Hc Ho Ha Hv%map_err_Ok.
  apply verify_Ok in Hv as (id & utxos' & outs' & mps & nu' & c & checks & f & sig & _ & Hq & _ & Hs & _ & _ & _ & _ & _ & Hf & _ & Hr); [|done].
  apply (quick_checks_spec network (BlockRequest h t kh known height tm) nu canopy Hnu Hc) in Hq as [_ Hrules]. cbn in Hs, Hf, Hr, Hrules. injection Hr as <-. cbn [rsp_miner_fee].
  pose proof (rule_coinbase _ _ _ _ _ Hrules) as Hcoin. pose proof (tx_wire_tx_ok t Ht) as Htok. destruct (is_coinbase t) eqn:Hcb.
  { split; [|by destruct Hcoin]. unfold miner_fee in Hf. rewrite Hcb in Hf.
    destruct (value_balance t utxos'); [| |done]; rewrite Amount.zero_spec in Hf; by injection Hf as <-. }
  destruct (spent_utxos_Ok _ _ _ t utxos' outs' mps Hs Hcoin) as (_ & _ & Hu & _).
  assert (Hsame : ∀ p, p ∈ spent_outpoints t → outputs_from_utxos utxos' !! p = outs !! p).
  { intros p Hp. unfold outs, outputs_from_utxos. rewrite !lookup_fmap, Hu, decide_True, (Ha p Hp) by done. f_equal.
    unfold resolve, chain_utxo, block_utxo. cbn. destruct (known !! p); [done|]. by destruct (await_utxo state p). }
  assert (Ho' : outs_ok (outputs_from_utxos utxos')).
  { intros p o Hp. pose proof Hp as Hp'. unfold outputs_from_utxos in Hp. rewrite lookup_fmap, Hu in Hp. destruct (decide _) as [Hin|]; [|done].
    rewrite (Hsame p Hin) in Hp'. by apply (Ho p). }
  destruct (value_balance_ext _ _ t Hsame) as [Hvb Hfv].
  pose proof (miner_fee_spec t utxos' f Htok Ho' Hf) as Hfee. rewrite Hcb in Hfee. destruct Hfee as (f' & -> & Hz & _). cbn [from_option].
  split; [|by rewrite Hz]. unfold miner_fee, value_balance in *. rewrite Hvb in Hf.
  fold outs. destruct (value_balance_from_outputs t outs) as [v|e|]; [done| |done]. rewrite Amount.zero_spec, Ok_bind, Hcb in Hf. done.
Qed.

(** ** The value that a block creates *)

Lemma zip_requests (tv : Request → Res BoxError Response) (mk : Hash * Transaction → Request) hashes txs rsps :
  length hashes = length txs → tv <$> (mk <$> zip hashes txs) = Ok <$> rsps → Forall2 (λ t r, ∃ h, tv (mk (h, t)) = Ok r) txs rsps.
Proof.
  revert hashes rsps. induction txs as [|t txs IH]; intros [|h hashes] rsps Hl H; try done; destruct rsps as [|r rsps]; try done.
  cbn in H. injection H as H1 H2. constructor; [by exists h|]. apply (IH hashes); [by injection Hl|done].
Qed.

Lemma pools_fee_value outs txs (change : Z) :
  sum_Z [sum_Z ((fun t => transparent_out t - transparent_in outs t) <$> txs); - sum_Z (sprout_value <$> txs);
         - sum_Z (sapling_balance <$> txs); - sum_Z (orchard_balance <$> txs); change] = change - sum_Z (fee_value outs <$> txs).
Proof. induction txs as [|t l IH]; cbn in *; [lia|]. unfold fee_value at 1. lia. Qed.

(** The rules of a block bound what it adds to the chain value pools. *)
Lemma block_change_bound now known_block request sv rsps canopy utxos c (block := request_block request) :
  block_rules network now known_block (transaction_verifier tx_order random network state) request sv rsps →
  Forall tx_wire_ok (transactions block) → activation_height Canopy network = Some canopy → outs_ok (outputs_from_utxos utxos) →
  (∀ t p, t ∈ transactions block → p ∈ spent_outpoints t → utxos !! p = block_utxo (sv_new_outputs sv) p) →
  chain_value_pool_change block utxos (sv_deferred_pool_balance_change sv) = Ok c →
  ∃ subsidy nu, block_subsidy (sv_height sv) network = Ok subsidy ∧ current network (sv_height sv) = Ok nu ∧
    if nu_ltb nu Nu6 then sum_Z (pools c) ≤ zatoshis subsidy else sum_Z (pools c) = zatoshis subsidy.
Proof.
  intros Hrules Hw Hcan Ho Hu Hc. destruct Hrules as [_ _ _ _ _ Hhs _ _ _ [Hr _] _ Hpay]. fold block in Hhs, Hr, Hpay.
  destruct Hpay as (cb & rest & nu & subsidy & change & Htx & Hcb & Hrest & _ & Hnu & _ & Hsub & Hd & _ & Hbal).
  exists subsidy, nu. split; [done|]. split; [done|]. set (outs := outputs_from_utxos utxos) in *.
  apply zip_requests in Hr.
  2:{ apply collect_Ok in Hhs. apply (f_equal length) in Hhs. rewrite !length_fmap in Hhs. done. }
  rewrite Htx in Hr, Hw, Hu. apply Forall2_cons_inv_l in Hr as (r0 & rs & (h0 & Hr0) & Hrs & ->). apply Forall_cons in Hw as [Hwcb Hw].
  pose proof (block_transaction_fee canopy nu _ cb _ _ _ _ r0 utxos Hwcb Hnu Hcan Ho (λ p Hp, Hu cb p (list_elem_of_here _ _) Hp) Hr0) as H0. rewrite Hcb in H0.
  destruct H0 as [Hf0 Hs0].
  assert (Hfees : Forall (λ t, is_ok (value_balance t utxos) = true) rest ∧ fees_of rs = sum_Z (fee_value outs <$> rest)).
  { assert (Hu' : ∀ t p, t ∈ rest → p ∈ spent_outpoints t → utxos !! p = block_utxo (sv_new_outputs sv) p) by (intros t p Hin; apply Hu; by right).
    clear Hu Htx Hbal. induction Hrs as [|t r l k [h Hh] _ IH]; [done|]. apply Forall_cons in Hw as [Hwt Hw]. apply Forall_cons in Hrest as [Ht Hrest].
    pose proof (block_transaction_fee canopy nu _ t _ _ _ _ r utxos Hwt Hnu Hcan Ho (λ p Hp, Hu' t p (list_elem_of_here _ _) Hp) Hh) as H1.
    assert (Hnc : is_coinbase t = false).
    { destruct (is_coinbase t) eqn:Hct; [|done]. apply coinbase_inputs in Hct as (? & ? & ? & Hi). unfold is_valid_non_coinbase in Ht. by rewrite Hi in Ht. }
    rewrite Hnc in H1. destruct H1 as [Hok Hfv]. destruct IH as [IH1 IH2]; [done|done|intros t' p Hin; apply Hu'; by right|].
    split; [by constructor|]. rewrite fees_of_cons, Hfv, IH2. done. }
  destruct Hfees as [Hoks Hfees].
  assert (Htok : Forall tx_ok (transactions block)).
  { rewrite Htx. constructor; [by apply tx_wire_tx_ok|]. eapply Forall_impl; [exact Hw|]. apply tx_wire_tx_ok. }
  apply chain_value_pool_change_spec in Hc; [|done|done|].
  2:{ rewrite Htx. constructor; [|done]. unfold value_balance. apply coinbase_balance_ok; [by apply tx_wire_tx_ok|done|done|]. by destruct Hbal. }
  rewrite Hc, Hd. cbn [from_option]. fold outs. rewrite pools_fee_value, Htx. cbn [fmap list_fmap sum_Z].
  rewrite (coinbase_fee_value outs cb Hcb Hs0), <- Hfees. destruct Hbal as (_ & _ & _ & _ & _ & Hbal). rewrite fees_of_cons, Hf0 in Hbal. cbn [from_option] in Hbal.
  destruct (nu_ltb nu Nu6); lia.
Qed.

Lemma block_issuance_bound order now known_block request sv utxos c (block := request_block request) : reorders_results order →
  Forall tx_wire_ok (transactions block) → (∀ height, coinbase_height block = Some height → payments_ok network height) →
  is_Some (activation_height Canopy network) →
  prepare_block order network now known_block (transaction_verifier tx_order random network state) request = Ok sv →
  outs_ok (outputs_from_utxos utxos) →
  (∀ t p, t ∈ transactions block → p ∈ spent_outpoints t → utxos !! p = block_utxo (sv_new_outputs sv) p) →
  chain_value_pool_change block utxos (sv_deferred_pool_balance_change sv) = Ok c →
  ∃ subsidy, block_subsidy (sv_height sv) network = Ok subsidy ∧ sum_Z (pools c) ≤ zatoshis subsidy ∧
    ∃ nu, current network (sv_height sv) = Ok nu ∧ (nu_ltb nu Nu6 = false → sum_Z (pools c) = zatoshis subsidy).
Proof.
  intros Ho Hw Hp [canopy Hcan] Hprep Hout Hu Hc. apply prepare_block_spec in Hprep as [rsps Hrules]; [|done|by apply verifier_fees_ok| |done].
  - destruct (block_change_bound now known_block request sv rsps canopy utxos c Hrules Hw Hcan Hout Hu Hc) as (s & nu & Hs & Hnu & Hb).
    exists s. destruct (nu_ltb nu Nu6) eqn:Hlt; (split; [done|]); (split; [lia|]); exists nu; (split; [done|]); [congruence|done].
  - eapply Forall_impl; [exact Hw|]. apply tx_wire_tx_ok.
Qed.

(** C13: an accepted block creates at most its subsidy. Whatever the orders in which the transactions and their
    checks are verified, when the block verifier accepts a block, the change of the chain value pools that the state computes from the
    outputs that the block spends adds up to at most the block subsidy at its height, and to exactly the subsidy from NU6. *)
Theorem block_issuance order now known_block request sv utxos c (block := request_block request) : reorders_results order →
  Forall tx_wire_ok (transactions block) → (∀ height, coinbase_height block = Some height → payments_ok network height) →
  is_Some (activation_height Canopy network) →
  prepare_block order network now known_block (transaction_verifier tx_order random network state) request = Ok sv →
  outs_ok (outputs_from_utxos utxos) →
  (∀ t p, t ∈ transactions block → p ∈ spent_outpoints t → utxos !! p = block_utxo (sv_new_outputs sv) p) →
  chain_value_pool_change block utxos (sv_deferred_pool_balance_change sv) = Ok c →
  ∃ subsidy, block_subsidy (sv_height sv) network = Ok subsidy ∧ sum_Z (pools c) ≤ zatoshis subsidy ∧
    ∃ nu, current network (sv_height sv) = Ok nu ∧ (nu_ltb nu Nu6 = false → sum_Z (pools c) = zatoshis subsidy).
Proof. apply block_issuance_bound. Qed.
End Issue.

(** ** The supply of a chain *)

Lemma add_change_pools (p p' : ValueBalance NonNegative) (d : ValueBalance NegativeAllowed) :
  add_chain_value_pool_change p d = Ok p' → sum_Z (pools p') = sum_Z (pools p) + sum_Z (pools d).
Proof.
  unfold add_chain_value_pool_change. intros (q & Hq & H)%bind_Ok.
  assert (Hq' : constrain NegativeAllowed p = Ok q) by (by destruct (constrain NegativeAllowed p)). apply constrain_Ok in Hq' as [_ Hq']. apply bind_Ok in H as (r & Hr & [_ Hp]%constrain_Ok).
  rewrite Hp, <- Hq'. apply bind_Ok in Hr as (t & Ht%map_err_Ok%amount_add_exact & (sp & Hsp%map_err_Ok%amount_add_exact & (sa & Hsa%map_err_Ok%amount_add_exact & (o & Ho%map_err_Ok%amount_add_exact &
    (df & Hd%map_err_Ok%amount_add_exact & [= <-])%bind_Ok)%bind_Ok)%bind_Ok)%bind_Ok). unfold pools. cbn in *. lia.
Qed.

Section Supply.
Context `{LT : !Literals, CL : !CurveLib, CW : !CurveLaws, LZ : !LibRustZcash, SL : !SighashLib, HF : !HashFns, ZS : !ScriptLib,
  VL : !VerifierLib, BE : !BlockEnv}.

(** A chain of Mainnet grows by accepted blocks: each is verified with its own state, clock and orders, and its change is added to the
    chain value pools. *)
Inductive grows : nat → ValueBalance NonNegative → nat → ValueBalance NonNegative → Prop :=
| grows_none n p : grows n p n p
| grows_block n p m q q' order tx_order random state now known_block request sv utxos c :
    grows n p m q → reorders tx_order → reorders_results order → Forall tx_wire_ok (transactions (request_block request)) →
    payments_ok Mainnet (Z.of_nat m) →
    prepare_block order Mainnet now known_block (transaction_verifier tx_order random Mainnet state) request = Ok sv →
    sv_height sv = Z.of_nat m → outs_ok (outputs_from_utxos utxos) →
    (∀ t p, t ∈ transactions (request_block request) → p ∈ spent_outpoints t → utxos !! p = block_utxo state (sv_new_outputs sv) p) →
    chain_value_pool_change (request_block request) utxos (sv_deferred_pool_balance_change sv) = Ok c →
    add_chain_value_pool_change q c = Ok q' → grows n p (S m) q'.

(** C3: the supply limit. When the chain value pools of [n] blocks hold at most what the subsidies of [n] blocks
    add up to, then after any number of accepted blocks of Mainnet the pools hold at most the sum of the subsidies, which is at most 21
    million ZEC. *)
Theorem supply_limit n p m q total : grows n p m q → issued n = Ok total → sum_Z (pools p) ≤ total → Z.of_nat n ≤ MAX + 1 →
  ∃ total', issued m = Ok total' ∧ sum_Z (pools q) ≤ total' ≤ MAX_MONEY.
Proof.
  intros Hg Hn Hp Hmax. assert (H : Z.of_nat m ≤ MAX + 1 ∧ ∃ total', issued m = Ok total' ∧ sum_Z (pools q) ≤ total').
  { induction Hg as [n p|n p m q q' order tx_order random state now known_block request sv utxos c _ IH Htx Ho Hw Hpay Hprep Hh Hout Hu Hc Hq]; [eauto|].
    destruct (IH Hn Hp Hmax) as (_ & total' & Ht & Hle).
    pose proof Hprep as Hprep'. apply prepare_block_Ok in Hprep' as (hash & height & hashes & known & cb & subsidy & change & rsps & Hsv & _ & _ & Hcb & Hhm & _);
      [|done|by apply verifier_fees_ok]. assert (Hhe : height = Z.of_nat m) by (by subst sv). subst height.
    destruct (block_issuance_bound Mainnet tx_order random state Htx order now known_block request sv utxos c) as (s & Hs & Hb); try done.
    { intros h Hh'. rewrite Hcb in Hh'. by injection Hh' as <-. }
    rewrite Hh in Hs. split; [lia|]. exists (total' + zatoshis s). split.
    - cbn [issued]. rewrite Ht, Ok_bind, Hs. done.
    - apply add_change_pools in Hq. lia. }
  destruct H as (Hm & total' & Ht & Hle). exists total'. split; [done|]. destruct (mainnet_supply_limit m Hm) as (t & Ht' & Hlim).
  rewrite Ht in Ht'. injection Ht' as <-. lia.
Qed.
End Supply.

(** ** A block of Mainnet *)

#[local] Existing Instance sample_literals.
#[local] Existing Instance sample_curves.
#[local] Existing Instance sample_curve_laws.
#[local] Existing Instance sample_lib.
#[local] Existing Instance sample_sighash.
#[local] Existing Instance sample_script.
#[local] Existing Instance sample_hashes.
#[local] Existing Instance sample_verifiers.
#[local] Existing Instance sample_block_env.

Lemma sample_spends t p : t ∈ transactions (request_block sample_proposal) → p ∈ spent_outpoints t →
  (∅ : gmap OutPoint Utxo) !! p = block_utxo sample_state (sv_new_outputs sample_prepared_block) p.
Proof. intros Ht Hp. apply list_elem_of_singleton in Ht. subst t. by apply elem_of_nil in Hp. Qed.
Lemma sample_outs_ok : outs_ok (outputs_from_utxos ∅).
Proof. intros p o Hp. unfold outputs_from_utxos in Hp. by rewrite lookup_fmap, lookup_empty in Hp. Qed.
Definition sample_change : Res ValueBalanceError (ValueBalance NegativeAllowed) :=
  chain_value_pool_change (request_block sample_proposal) ∅ (sv_deferred_pool_balance_change sample_prepared_block).
Definition sample_zero {C} : ValueBalance C := mkValueBalance (mkAmount 0) (mkAmount 0) (mkAmount 0) (mkAmount 0) (mkAmount 0).

Lemma block_issuance_witness : ∃ subsidy, block_subsidy 1700000 Mainnet = Ok subsidy ∧ sum_Z (pools (ok_value sample_zero sample_change)) ≤ zatoshis subsidy.
Proof.
  destruct (block_issuance Mainnet (rev (A := _)) (λ _ _, []) sample_state sample_reorders (rev (A := _)) 1700000000 (λ _, Ok None)
    sample_proposal sample_prepared_block ∅ (ok_value sample_zero sample_change)) as (s & Hs & Hle & _).
  - exact sample_results_reorders.
  - constructor; [exact sample_coinbase_ok|constructor].
  - exact sample_heights.
  - by eexists.
  - exact sample_prepared_Ok.
  - exact sample_outs_ok.
  - exact sample_spends.
  - apply ok_value_eq. vm_compute. reflexivity.
  - exists s. split; [|exact Hle]. rewrite <- Hs. f_equal.
Defined.

Definition sample_height : nat := Z.to_nat 1700000.
Lemma sample_height_Z : Z.of_nat sample_height = 1700000.
Proof. unfold sample_height. rewrite Z2Nat.id; lia. Qed.
Definition sample_pools : ValueBalance NonNegative :=
  ok_value sample_zero (add_chain_value_pool_change sample_zero (ok_value sample_zero sample_change)).
Lemma sample_grows : grows sample_height sample_zero (S sample_height) sample_pools.
Proof.
  apply (grows_block sample_height sample_zero sample_height sample_zero sample_pools (rev (A := _)) (rev (A := _)) (λ _ _, []) sample_state 1700000000 (λ _, Ok None)
    sample_proposal sample_prepared_block ∅ (ok_value sample_zero sample_change)).
  - apply grows_none.
  - exact sample_reorders.
  - exact sample_results_reorders.
  - constructor; [exact sample_coinbase_ok|constructor].
  - rewrite sample_height_Z. exact sample_payments_ok.
  - exact sample_prepared_Ok.
  - rewrite sample_height_Z. vm_compute. reflexivity.
  - exact sample_outs_ok.
  - exact sample_spends.
  - apply ok_value_eq. vm_compute. reflexivity.
  - apply ok_value_eq. vm_compute. reflexivity.
Qed.

Lemma supply_limit_witness : ∃ total, issued (S sample_height) = Ok total ∧ sum_Z (pools sample_pools) ≤ total ≤ MAX_MONEY.
Proof.
  assert (Hn : Z.of_nat sample_height ≤ MAX + 1) by (rewrite sample_height_Z, MAX_eq; lia).
  destruct (mainnet_supply_limit sample_height Hn) as (total & Ht & Hb).
  apply (supply_limit sample_height sample_zero (S sample_height) sample_pools total); [exact sample_grows|exact Ht| |exact Hn].
  unfold pools. cbn. lia.
Defined.
