(* ===== verification/CheckpointVerifier.v ===== *)
(** * The checkpoint verifier

    [zebra-consensus/src/checkpoint.rs] and [zebra-consensus/src/checkpoint/types.rs]: the state machine that queues the blocks up to
    the last checkpoint, and verifies a range of them when they form a chain from the last verified block to a checkpoint; with
    [SemanticallyVerifiedBlock::with_hash] of [zebra-state/src/request.rs] and [lockbox_disbursement_total_amount] of
    [zebra-chain/src/parameters/network.rs], and the router of [zebra-consensus/src/router.rs].

    The result of a request is sent on a oneshot channel. A channel is its number, and an operation returns the results that it sends,
    in order, with the new state. *)

From stdpp Require Import strings.
From S2P Require Import Prelude BTreeMap Height Difficulty CheckpointList Amount Serialization Codec ValueBalance Network Testnet Subsidy Transaction.
From S2P Require Import Merkle BlockHeader ShieldedCodec TransactionCodec Sighash Unmined Reversible Script Ledger SpendChecks.
From S2P Require Import TxChecks TxVerifier BlockVerifier.

(** ** Progress and targets *)

Inductive Progress (A : Type) :=
| BeforeGenesis
| InitialTip (x : A)
| PreviousCheckpoint (x : A)
| FinalCheckpoint.
Arguments BeforeGenesis {A}.
Arguments InitialTip {A} _.
Arguments PreviousCheckpoint {A} _.
Arguments FinalCheckpoint {A}.

#[export] Instance Progress_eq_dec {A} `{EqDecision A} : EqDecision (Progress A).
Proof. solve_decision. Defined.

(** [Ord for Progress<block::Height>]. *)
Definition progress_cmp (self other : Progress Height) : comparison :=
  if bool_decide (self = other) then Eq else
  match self, other with
  | BeforeGenesis, _ => Lt
  | _, BeforeGenesis => Gt
  | FinalCheckpoint, _ => Gt
  | _, FinalCheckpoint => Lt
  | InitialTip self_height, InitialTip other_height | InitialTip self_height, PreviousCheckpoint other_height
  | PreviousCheckpoint self_height, InitialTip other_height
  | PreviousCheckpoint self_height, PreviousCheckpoint other_height => self_height ?= other_height
  end.
Definition progress_gt (self other : Progress Height) : bool :=
  match progress_cmp self other with Gt => true | _ => false end.
Definition progress_height (self : Progress Height) : option Height :=
  match self with InitialTip height | PreviousCheckpoint height => Some height | _ => None end.
Definition is_final_checkpoint {A} (self : Progress A) : bool := match self with FinalCheckpoint => true | _ => false end.

Inductive TargetHeight := WaitingForBlocks | Checkpoint (height : Height) | FinishedVerifying.

#[export] Instance TargetHeight_eq_dec : EqDecision TargetHeight.
Proof. solve_decision. Defined.

(** [PartialOrd for TargetHeight]. *)
Definition target_partial_cmp (self other : TargetHeight) : option comparison :=
  match self, other with
  | FinishedVerifying, FinishedVerifying => Some Eq
  | FinishedVerifying, _ => Some Gt
  | _, FinishedVerifying => Some Lt
  | Checkpoint self_height, Checkpoint other_height => Some (self_height ?= other_height)
  | WaitingForBlocks, Checkpoint _ => None
  | Checkpoint _, WaitingForBlocks => None
  | WaitingForBlocks, WaitingForBlocks => Some Eq
  end.
Definition target_lt (self other : TargetHeight) : bool :=
  match target_partial_cmp self other with Some Lt => true | _ => false end.

Definition MAX_QUEUED_BLOCKS_PER_HEIGHT : Z := 4.
Definition GENESIS_PREVIOUS_BLOCK_HASH : Hash := replicate 32 0.

(** [Parameters::lockbox_disbursement_total_amount] and [Network::lockbox_disbursement_total_amount]. *)
Definition params_lockbox_total `{!Literals} (self : Parameters) : Run (Amount NonNegative) :=
  disbursements ← parse_disbursements (params_lockbox_disbursements self);
  match disbursements.*2 with
  | [] => Amount.zero
  | amount :: amounts => foldM (λ a b, expect_ok (Amount.add a b)) amount amounts
  end.
Definition lockbox_disbursement_total_amount `{!Literals} (self : Network) (height : Height) : Run (Amount NonNegative) :=
  if negb (bool_decide (Some height = activation_height Nu6_1 self)) then Amount.zero else
  match self with
  | Mainnet => new_from_zec EXPECTED_NU6_1_LOCKBOX_DISBURSEMENTS_TOTAL
  | Testnet params =>
      is_default ← is_default_testnet params;
      if (is_default : bool) then new_from_zec EXPECTED_NU6_1_LOCKBOX_DISBURSEMENTS_TOTAL else params_lockbox_total params
  end.

(** Convert a tip into its hash and matching progress. *)
Definition progress_from_tip (checkpoint_list : list (Z * list Z)) (tip : option (Height * Hash)) : Run (option Hash * Progress Height) :=
  match tip with
  | Some (height, hash) =>
      max_height ← max_height checkpoint_list;
      Ok (if max_height <=? height then (None, FinalCheckpoint) else (Some hash, InitialTip height))
  | None => Ok (None, BeforeGenesis)
  end.

Section Verifier.
Context `{LT : !Literals, CL : !CurveLib, LZ : !LibRustZcash, SL : !SighashLib, HF : !HashFns, ZS : !ScriptLib, VL : !VerifierLib,
  BE : !BlockEnv}.

Inductive VerifyCheckpointError :=
| Finished
| TooHigh (height max_height : Height)
| AlreadyVerified (height verified_height : Height)
| NewerRequest (height : Height) (hash : Hash)
| CoinbaseHeight (hash : Hash)
| Dropped
| CommitCheckpointVerified (e : ServiceError)
| Tip (e : ServiceError)
| VerifyBlock (e : VerifyBlockError)
| CheckpointSubsidyError (e : SubsidyError)
| CheckpointAmountError (e : Amount.Error)
| QueuedLimit
| UnexpectedSideChain (expected found : Hash)
| ShuttingDown.

Definition checkpoint_misbehavior_score (self : VerifyCheckpointError) : Z :=
  match self with
  | VerifyBlock e => misbehavior_score e
  | CheckpointSubsidyError _ | CoinbaseHeight _ | CheckpointAmountError _ => 100
  | _ => 0
  end.

(** ** The state *)

Record QueuedBlock := mkQueued { qb_block : SemanticallyVerifiedBlock; qb_tx : nat }.
Record CheckpointVerifier := mkVerifier {
  checkpoint_list : list (Z * list Z);
  initial_tip_hash : option Hash;
  queued : list (Z * list QueuedBlock);
  verifier_progress : Progress Height;
}.
Definition with_queued (self : CheckpointVerifier) (queued : list (Z * list QueuedBlock)) : CheckpointVerifier :=
  mkVerifier (checkpoint_list self) (initial_tip_hash self) queued (verifier_progress self).

(** The results that are sent on the channels. *)
Definition Sends : Type := list (nat * (VerifyCheckpointError + Hash)).

(** The diagnostics, which look up a checkpoint index and the last queued height. *)
Definition verified_checkpoint_diagnostics (self : CheckpointVerifier) (verified_height : option Height) : Run unit :=
  match verified_height with
  | None => Ok tt
  | Some verified_height => _ ← prev_checkpoint_index (checkpoint_list self) verified_height; Ok tt
  end.
Definition queued_block_diagnostics (self : CheckpointVerifier) : Run unit :=
  _ ← expect (last (queued self)); Ok tt.

Definition from_checkpoint_list (checkpoint_list : list (Z * list Z)) (initial_tip : option (Height * Hash)) : Run CheckpointVerifier :=
  '(initial_tip_hash, verifier_progress) ← progress_from_tip checkpoint_list initial_tip;
  let verifier := mkVerifier checkpoint_list initial_tip_hash [] verifier_progress in
  _ ← (if is_final_checkpoint verifier_progress then Ok tt
       else verified_checkpoint_diagnostics verifier (progress_height verifier_progress));
  Ok verifier.

(** Reset the verifier progress back to given tip. *)
Definition reset_progress (self : CheckpointVerifier) (tip : option (Height * Hash)) : Run CheckpointVerifier :=
  '(initial_tip_hash, verifier_progress) ← progress_from_tip (checkpoint_list self) tip;
  let self := mkVerifier (checkpoint_list self) initial_tip_hash (queued self) verifier_progress in
  _ ← verified_checkpoint_diagnostics self (progress_height verifier_progress);
  Ok self.

Definition previous_checkpoint_height (self : CheckpointVerifier) : Progress Height := verifier_progress self.

Definition current_start_bound (self : CheckpointVerifier) : option Bound :=
  match previous_checkpoint_height self with
  | BeforeGenesis => Some Unbounded
  | InitialTip height | PreviousCheckpoint height => Some (Excluded height)
  | FinalCheckpoint => None
  end.

(** The end of the continuous sequence of queued heights. *)
Fixpoint continuous_height (pending_height : Height) (heights : list Height) : Height :=
  match heights with
  | [] => pending_height
  | height :: heights =>
      if height =? wrap U32 (pending_height + 1) then continuous_height height heights else pending_height
  end.

Definition target_checkpoint_height (self : CheckpointVerifier) : Run TargetHeight :=
  let target (start_height : Height) : Run TargetHeight :=
    let pending_height := continuous_height start_height (range (Excluded start_height) Unbounded (queued self)).*1 in
    start ← expect (current_start_bound self);
    Ok match max_height_in_range (checkpoint_list self) start (Included pending_height) with
       | Some height => Checkpoint height
       | None => WaitingForBlocks
       end in
  match previous_checkpoint_height self with
  | BeforeGenesis => if negb (bool_decide (is_Some (bt_get 0 (queued self)))) then Ok WaitingForBlocks else target 0
  | InitialTip height | PreviousCheckpoint height => target height
  | FinalCheckpoint => Ok FinishedVerifying
  end.

Definition previous_checkpoint_hash (self : CheckpointVerifier) : Run (Progress Hash) :=
  match previous_checkpoint_height self with
  | BeforeGenesis => Ok BeforeGenesis
  | InitialTip _ => hash ← expect (initial_tip_hash self); Ok (InitialTip hash)
  | PreviousCheckpoint height => hash ← expect (hash (checkpoint_list self) height); Ok (PreviousCheckpoint hash)
  | FinalCheckpoint => Ok FinalCheckpoint
  end.

Definition check_height (self : CheckpointVerifier) (height : Height) : Res VerifyCheckpointError unit :=
  max_height ← lift (max_height (checkpoint_list self));
  if max_height <? height then Err (TooHigh height max_height) else
  match previous_checkpoint_height self with
  | BeforeGenesis => Ok tt
  | InitialTip previous_height | PreviousCheckpoint previous_height =>
      if height <=? previous_height then Err (AlreadyVerified height previous_height) else Ok tt
  | FinalCheckpoint => Err Finished
  end.

Definition update_progress (self : CheckpointVerifier) (verified_height : Height) : Run CheckpointVerifier :=
  match check_height self verified_height with
  | Panic => Panic
  | Err _ => Ok self
  | Ok _ =>
      max_height ← max_height (checkpoint_list self);
      if verified_height =? max_height then
        let self := mkVerifier (checkpoint_list self) (initial_tip_hash self) (queued self) FinalCheckpoint in
        _ ← verified_checkpoint_diagnostics self (Some verified_height);
        Ok self
      else if CheckpointList.contains (checkpoint_list self) verified_height then
        let self := mkVerifier (checkpoint_list self) None (queued self) (PreviousCheckpoint verified_height) in
        _ ← verified_checkpoint_diagnostics self (Some verified_height);
        Ok self
      else Ok self
  end.

(** ** Queueing a block *)

(** [SemanticallyVerifiedBlock::with_hash], with a deferred pool balance change. *)
Definition with_hash (block : Block) (hash : Hash) (deferred_pool_balance_change : option DeferredPoolBalanceChange) :
    Run SemanticallyVerifiedBlock :=
  height ← expect (coinbase_height block);
  transaction_hashes ← collect (tx_hash <$> transactions block);
  new_outputs ← new_ordered_outputs block transaction_hashes;
  Ok (mkSemantic block hash height new_outputs transaction_hashes deferred_pool_balance_change).

Definition check_block (network : Network) (self : CheckpointVerifier) (block : Block) :
    Res VerifyCheckpointError SemanticallyVerifiedBlock :=
  hash ← lift (header_hash (header block));
  height ← ok_or (coinbase_height block) (CoinbaseHeight hash);
  _ ← check_height self height;
  _ ← (if disable_pow network then
         _ ← map_err (λ e, VerifyBlock (InvalidBlock e)) (difficulty_threshold_is_valid (header block) network height hash); Ok tt
       else
         _ ← map_err (λ e, VerifyBlock (InvalidBlock e)) (difficulty_is_valid (header block) network height hash);
         map_err (λ e, VerifyBlock (InvalidEquihash e)) (equihash_solution_is_valid (header block)));
  subsidy ← map_err CheckpointSubsidyError (block_subsidy height network);
  funding_streams ← map_err CheckpointAmountError (funding_stream_values height network subsidy);
  default_amount ← Amount.zero;
  let expected_deferred_amount : Amount NonNegative := default default_amount (funding_streams !! Deferred) in
  total ← lift (lockbox_disbursement_total_amount network height);
  let deferred_pool_balance_change := deferred_new <$> Amount.checked_sub expected_deferred_amount total in
  verified ← lift (with_hash block hash deferred_pool_balance_change);
  _ ← map_err (λ e, VerifyBlock (InvalidBlock e)) (merkle_root_validity network block (sv_transaction_hashes verified));
  Ok verified.

(** Replaces a queued block that has a hash, and returns the channel of the replaced one. *)
Fixpoint replace_block (hash : Hash) (new_qblock : QueuedBlock) (qblocks : list QueuedBlock) : option (list QueuedBlock * nat) :=
  match qblocks with
  | [] => None
  | qb :: qblocks =>
      if bool_decide (sv_hash (qb_block qb) = hash) then Some (new_qblock :: qblocks, qb_tx qb)
      else '(qblocks, tx) ← replace_block hash new_qblock qblocks; Some (qb :: qblocks, tx)
  end.

Definition queue_block (network : Network) (self : CheckpointVerifier) (block : Block) (tx : nat) :
    Res VerifyCheckpointError (CheckpointVerifier * SemanticallyVerifiedBlock * Sends) :=
  block ← check_block network self block;
  let height := sv_height block in
  let hash := sv_hash block in
  let new_qblock := mkQueued block tx in
  let qblocks := default [] (bt_get height (queued self)) in
  match replace_block hash new_qblock qblocks with
  | Some (qblocks, old_tx) => Ok (with_queued self (bt_insert height qblocks (queued self)), block, [(old_tx, inl (NewerRequest height hash))])
  | None =>
      if MAX_QUEUED_BLOCKS_PER_HEIGHT <=? Z.of_nat (length qblocks) then Err QueuedLimit
      else
        let self := with_queued self (bt_insert height (qblocks ++ [new_qblock]) (queued self)) in
        _ ← lift (queued_block_diagnostics self);
        Ok (self, block, [])
  end.

(** ** Verifying a range of blocks *)

(** The loop over the blocks of a height: the block that has the expected hash, and an error for each of the others. *)
Fixpoint drain_blocks (expected_hash : Hash) (valid_qblock : option QueuedBlock) (qblocks : list QueuedBlock) :
    Run (option QueuedBlock * Sends) :=
  match qblocks with
  | [] => Ok (valid_qblock, [])
  | qblock :: qblocks =>
      if bool_decide (sv_hash (qb_block qblock) = expected_hash) then
        match valid_qblock with
        | None => drain_blocks expected_hash (Some qblock) qblocks
        | Some _ => Panic
        end
      else
        '(valid, sends) ← drain_blocks expected_hash valid_qblock qblocks;
        Ok (valid, (qb_tx qblock, inl (UnexpectedSideChain expected_hash (sv_hash (qb_block qblock)))) :: sends)
  end.

Definition process_height (self : CheckpointVerifier) (height : Height) (expected_hash : Hash) :
    Run (CheckpointVerifier * option QueuedBlock * Sends) :=
  qblocks ← expect (bt_get height (queued self));
  let self := with_queued self (bt_remove height (queued self)) in
  _ ← assert (negb (bool_decide (qblocks = [])));
  _ ← (match hash (checkpoint_list self) height with
       | Some checkpoint_hash => assert (bool_decide (expected_hash = checkpoint_hash))
       | None => Ok tt
       end);
  '(valid_qblock, sends) ← drain_blocks expected_hash None qblocks;
  Ok (self, valid_qblock, sends).

(** [self.queued.entry(height).or_default().push(vblock)]. *)
Definition push_queued (m : list (Z * list QueuedBlock)) (vblock : QueuedBlock) : list (Z * list QueuedBlock) :=
  let height := sv_height (qb_block vblock) in
  bt_insert height (default [] (bt_get height m) ++ [vblock]) m.

(** The loop over the heights of the range, from the target down. It ends with the last expected hash and the valid blocks, in reverse
    order, or at a height without a valid block, where the valid blocks go back into the queue. *)
Inductive RangeResult :=
| RangeVerified (self : CheckpointVerifier) (expected_hash : Hash) (rev_valid_blocks : list QueuedBlock)
| RangeFailed (self : CheckpointVerifier).

Fixpoint process_heights (self : CheckpointVerifier) (expected_hash : Hash) (rev_valid_blocks : list QueuedBlock)
    (range_heights : list Height) : Run (RangeResult * Sends) :=
  match range_heights with
  | [] => Ok (RangeVerified self expected_hash rev_valid_blocks, [])
  | current_height :: range_heights =>
      '(self, valid_qblock, sends) ← process_height self current_height expected_hash;
      match valid_qblock with
      | Some qblock =>
          '(result, rest) ← process_heights self (previous_block_hash (header (sv_block (qb_block qblock))))
                              (rev_valid_blocks ++ [qblock]) range_heights;
          Ok (result, sends ++ rest)
      | None => Ok (RangeFailed (with_queued self (foldl push_queued (queued self) (rev rev_valid_blocks))), sends)
      end
  end.

(** The end of a range without a valid chain: the progress is the same, and the target is lower. *)
Definition range_failed (self : CheckpointVerifier) (old_prev_check_height : Progress Height) (target_height : Height) :
    Run CheckpointVerifier :=
  _ ← assert (bool_decide (previous_checkpoint_height self = old_prev_check_height));
  current_target ← target_checkpoint_height self;
  _ ← assert (bool_decide (current_target = WaitingForBlocks) || target_lt current_target (Checkpoint target_height));
  Ok self.

(** The end of a verified range: the results of the blocks, in height order, and the new progress. *)
Definition range_verified (self : CheckpointVerifier) (previous_checkpoint_hash expected_hash : Hash) (rev_valid_blocks : list QueuedBlock)
    (old_prev_check_height : Progress Height) (target_height : Height) : Run (CheckpointVerifier * Sends) :=
  _ ← assert (bool_decide (expected_hash = previous_checkpoint_hash));
  let sends : Sends := (λ qblock, (qb_tx qblock, inr (sv_hash (qb_block qblock)))) <$> rev rev_valid_blocks in
  self ← update_progress self target_height;
  let new_progress := previous_checkpoint_height self in
  _ ← assert (progress_gt new_progress old_prev_check_height);
  _ ← (if bool_decide (new_progress = FinalCheckpoint) then
         max_height ← max_height (checkpoint_list self);
         assert (target_height =? max_height)
       else assert (bool_decide (new_progress = PreviousCheckpoint target_height)));
  new_target ← target_checkpoint_height self;
  _ ← assert (bool_decide (new_target = WaitingForBlocks) || bool_decide (new_target = FinishedVerifying));
  Ok (self, sends).

(** [process_checkpoint_range], from the hash of the last verified block. *)
Definition process_range (self : CheckpointVerifier) (previous_checkpoint_hash : Hash) : Run (CheckpointVerifier * Sends) :=
  target ← target_checkpoint_height self;
  match target with
  | FinishedVerifying => Panic
  | WaitingForBlocks => Ok (self, [])
  | Checkpoint target_height =>
      expected_hash ← expect (hash (checkpoint_list self) target_height);
      let old_prev_check_height := previous_checkpoint_height self in
      start ← expect (current_start_bound self);
      let range_heights := rev (range start (Included target_height) (queued self)).*1 in
      '(result, sends) ← process_heights self expected_hash [] range_heights;
      match result with
      | RangeFailed self => self ← range_failed self old_prev_check_height target_height; Ok (self, sends)
      | RangeVerified self expected_hash rev_valid_blocks =>
          '(self, oks) ← range_verified self previous_checkpoint_hash expected_hash rev_valid_blocks old_prev_check_height target_height;
          Ok (self, sends ++ oks)
      end
  end.

Definition process_checkpoint_range (self : CheckpointVerifier) : Run (CheckpointVerifier * Sends) :=
  previous_checkpoint_hash ← previous_checkpoint_hash self;
  match previous_checkpoint_hash with
  | BeforeGenesis => process_range self GENESIS_PREVIOUS_BLOCK_HASH
  | InitialTip hash | PreviousCheckpoint hash => process_range self hash
  | FinalCheckpoint => Ok (self, [])
  end.

(** ** The service *)

(** The part of [Service::call] that changes the state: a reset request that is in the channel, then the block. It returns the block to
    commit when its result is sent, or an error. *)
Definition call (network : Network) (self : CheckpointVerifier) (reset : option (option (Height * Hash))) (block : Block) (tx : nat) :
    Run (CheckpointVerifier * (VerifyCheckpointError + SemanticallyVerifiedBlock) * Sends) :=
  self ← match reset with Some tip => reset_progress self tip | None => Ok self end;
  if is_final_checkpoint (previous_checkpoint_height self) then Ok (self, inl Finished, []) else
  match queue_block network self block tx with
  | Panic => Panic
  | Err e => Ok (self, inl e, [])
  | Ok (self, req_block, sends) =>
      '(self, sends') ← process_checkpoint_range self;
      Ok (self, inr req_block, sends ++ sends')
  end.

(** The future of [Service::call]: it waits for the result of the block, commits it, and on an error requests a reset to the tip of the
    state. It returns its result and the reset request. *)
Definition commit_verified (shutting_down : bool) (commit : SemanticallyVerifiedBlock → Res ServiceError Hash)
    (tip : Res ServiceError (option (Height * Hash))) (req_block : SemanticallyVerifiedBlock) (rx : VerifyCheckpointError + Hash) :
    Run (Res VerifyCheckpointError Hash * option (option (Height * Hash))) :=
  result ← (if shutting_down then Ok (Err ShuttingDown) else
            match rx with
            | inl e => Ok (Err e)
            | inr hash =>
                match commit req_block with
                | Ok committed_hash => _ ← assert (bool_decide (committed_hash = hash)); Ok (Ok hash)
                | Err e => Ok (Err (CommitCheckpointVerified e))
                | Panic => Panic
                end
            end);
  if is_ok result then Ok (result, None) else
  match tip with
  | Ok tip => Ok (result, Some tip)
  | Err e => Ok (Err (Tip e), None)
  | Panic => Panic
  end.

(** [Drop]. *)
Definition drop_verifier (self : CheckpointVerifier) : Sends :=
  (λ qblock, (qb_tx qblock, inl Dropped)) <$> concat (queued self).*2.

(** ** The router *)

(** [BlockVerifierRouter::call]: up to the maximum checkpoint height, blocks go to the checkpoint verifier, and proposals are rejected. *)
Inductive Route := ToCheckpoint (block : Block) | ToBlockVerifier (request : BlockVerifierRequest) | ProposalBelowCheckpoint.
Definition route (max_checkpoint_height : Height) (request : BlockVerifierRequest) : Route :=
  let block := request_block request in
  match coinbase_height block with
  | Some height =>
      if (height <=? max_checkpoint_height) && is_proposal request then ProposalBelowCheckpoint
      else if height <=? max_checkpoint_height then ToCheckpoint block
      else ToBlockVerifier request
  | None => ToBlockVerifier request
  end.

(** The maximum checkpoint height, from the checkpoint list of the network. *)
Definition init_checkpoint_list (checkpoint_sync : bool) (network : Network) (list : list (Z * list Z)) : Run (Datatypes.list (Z * Datatypes.list Z) * Height) :=
  max_checkpoint_height ←
    (if checkpoint_sync then max_height list
     else
       mandatory ← mandatory_checkpoint_height network;
       expect (min_height_in_range list (Included mandatory) Unbounded));
  Ok (list, max_checkpoint_height).
End Verifier.

(** ** Ranges of heights *)

Lemma range_keys {V} (lo hi : Bound) (m : list (Z * V)) k : k ∈ (range lo hi m).*1 ↔ k ∈ m.*1 ∧ above lo k = true ∧ below hi k = true.
Proof.
  unfold range. rewrite !list_elem_of_fmap. split.
  - intros (kv & -> & Hkv). apply list_elem_of_filter in Hkv as [Hin Hkv]. apply Is_true_true in Hin. apply andb_true_iff in Hin as [Ha Hb]. split; [eauto|done].
  - intros ((kv & -> & Hkv) & Ha & Hb). exists kv. split; [done|]. apply list_elem_of_filter. split; [|done]. rewrite Ha, Hb. done.
Qed.
Lemma bt_keys {V} (m : list (Z * V)) k : bt_ok m → k ∈ m.*1 ↔ is_Some (bt_get k m).
Proof.
  intros Hok. rewrite list_elem_of_fmap. split.
  - intros ([k' v] & -> & Hin). exists v. by apply bt_get_In.
  - intros [v Hv]. exists (k, v). split; [done|]. by apply bt_get_In.
Qed.
Lemma range_sorted {V} lo hi (m : list (Z * V)) : bt_ok m → StronglySorted Z.lt (range lo hi m).*1.
Proof. intros Hok. apply (bt_ok_filter (λ kv, above lo kv.1 && below hi kv.1) m Hok). Qed.

(** The greatest key of a range. *)
Lemma max_in_range (m : list (Z * list Z)) lo hi : bt_ok m →
  match max_height_in_range m lo hi with
  | Some h => h ∈ (range lo hi m).*1 ∧ ∀ k, k ∈ (range lo hi m).*1 → k ≤ h
  | None => ∀ k, k ∉ (range lo hi m).*1
  end.
Proof.
  intros Hok. unfold max_height_in_range. pose proof (bt_ok_filter (λ kv, above lo kv.1 && below hi kv.1) m Hok) as Hr. fold (range lo hi m) in Hr.
  destruct (last (range lo hi m)) as [[h v]|] eqn:Hl; cbn [fmap option_fmap option_map fst].
  - apply (bt_last_spec _ h v Hr) in Hl as [Hin Hle]. split; [apply list_elem_of_fmap; by exists (h, v)|].
    intros k ([k' v'] & -> & Hk)%list_elem_of_fmap. rewrite Forall_forall in Hle. by apply Hle in Hk.
  - apply last_None in Hl. rewrite Hl. intros k Hk. by apply elem_of_nil in Hk.
Qed.

#[local] Instance Z_lt_antisymm : AntiSymm (=) Z.lt.
Proof. intros x y ??. lia. Qed.

(** A strictly increasing list is determined by its elements. *)
Lemma sorted_ext (l k : list Z) : StronglySorted Z.lt l → StronglySorted Z.lt k → (∀ x, x ∈ l ↔ x ∈ k) → l = k.
Proof.
  intros Hl Hk Hx. apply (StronglySorted_unique Z.lt); [done|done|].
  assert (Hnd : ∀ l : list Z, StronglySorted Z.lt l → NoDup l).
  { clear. induction 1 as [|x l _ IH Hx]; constructor; [|done]. rewrite Forall_forall in Hx. intros Hin%Hx. lia. }
  apply NoDup_Permutation; auto.
Qed.
Lemma seqZ_sorted m n : StronglySorted Z.lt (seqZ m n).
Proof.
  destruct (Z.le_gt_cases n 0); [rewrite seqZ_nil by lia; constructor|]. revert m. pattern n. apply natlike_ind; [|clear n H|lia].
  - intros m. rewrite seqZ_nil by lia. constructor.
  - intros n Hn IH m. rewrite seqZ_cons by lia. constructor; [rewrite Z.pred_succ; apply IH|].
    apply Forall_forall. intros x Hx%elem_of_seqZ. lia.
Qed.

(** The end of a sequence of heights without gaps. *)
Lemma continuous_spec p l : StronglySorted Z.lt l → Forall (λ k, p < k ≤ MAX) l → 0 ≤ p →
  p ≤ continuous_height p l ∧ (∀ k, p < k ≤ continuous_height p l → k ∈ l) ∧ continuous_height p l + 1 ∉ l.
Proof.
  intros Hs. revert p. induction Hs as [|h l Hs IH Hh]; intros p Hp H0; cbn.
  { split_and!; [lia|lia|]. apply not_elem_of_nil. }
  apply Forall_cons in Hp as [Hph Hp]. rewrite wrap_fits by (rewrite MAX_eq in Hph; int_lia). rewrite Forall_forall in Hh.
  destruct (Z.eqb_spec h (p + 1)) as [->|Hne].
  - destruct (IH (p + 1)) as (H1 & H2 & H3); [|lia|].
    { apply Forall_forall. intros k Hk. rewrite Forall_forall in Hp. specialize (Hp k Hk). specialize (Hh k Hk). lia. }
    split_and!; [lia| |].
    + intros k Hk. destruct (decide (k = p + 1)) as [->|]; [left|]. right. apply H2. lia.
    + intros [Heq|Hin]%elem_of_cons; [lia|done].
  - split_and!; [lia|lia|]. intros [Heq|Hin]%elem_of_cons; [lia|]. specialize (Hh _ Hin). lia.
Qed.

(** ** The state of a verifier of a chain *)

Section Chain.
Context `{LT : !Literals, CL : !CurveLib, LZ : !LibRustZcash, SL : !SighashLib, HF : !HashFns, ZS : !ScriptLib, VL : !VerifierLib,
  BE : !BlockEnv}.

(** The chain of the checkpoints: the hash at each height. The hash of a header determines its parent. *)
Context (chain : Height → Hash).
Context (chain_genesis : chain (-1) = GENESIS_PREVIOUS_BLOCK_HASH).

Definition checkpoints_ok (l : list (Z * list Z)) : Prop :=
  bt_ok l ∧ is_Some (bt_get 0 l) ∧ Forall (λ kv, 0 ≤ kv.1 ≤ MAX ∧ kv.2 = chain kv.1) l.

(** The blocks that are queued at a height: at most four, with distinct hashes; the block of the chain has its parent. *)
Record height_ok (h : Height) (qblocks : list QueuedBlock) : Prop := {
  ho_range : 0 ≤ h ≤ MAX;
  ho_nonempty : qblocks ≠ [];
  ho_length : Z.of_nat (length qblocks) ≤ MAX_QUEUED_BLOCKS_PER_HEIGHT;
  ho_hashes : NoDup ((λ qb, sv_hash (qb_block qb)) <$> qblocks);
  ho_blocks : Forall (λ qb, sv_height (qb_block qb) = h ∧
    (sv_hash (qb_block qb) = chain h → previous_block_hash (header (sv_block (qb_block qb))) = chain (h - 1))) qblocks;
}.
Definition queue_ok (q : list (Z * list QueuedBlock)) : Prop := bt_ok q ∧ ∀ h qblocks, bt_get h q = Some qblocks → height_ok h qblocks.

Definition progress_ok (self : CheckpointVerifier) : Prop :=
  match verifier_progress self with
  | BeforeGenesis | FinalCheckpoint => True
  | InitialTip h => initial_tip_hash self = Some (chain h) ∧ 0 ≤ h ∧ ∃ m, max_height (checkpoint_list self) = Ok m ∧ h < m
  | PreviousCheckpoint h => is_Some (hash (checkpoint_list self) h) ∧ ∃ m, max_height (checkpoint_list self) = Ok m ∧ h < m
  end.

Record verifier_ok (self : CheckpointVerifier) : Prop := {
  vo_list : checkpoints_ok (checkpoint_list self);
  vo_queue : queue_ok (queued self);
  vo_progress : progress_ok self;
}.

(** The last verified height: [-1] before the genesis block. *)
Definition verified (self : CheckpointVerifier) : Z :=
  match verifier_progress self with
  | BeforeGenesis => -1
  | InitialTip h | PreviousCheckpoint h => h
  | FinalCheckpoint => match max_height (checkpoint_list self) with Ok m => m | _ => 0 end
  end.

(** Every height up to [h] after the verified ones has a queued block. *)
Definition contiguous (self : CheckpointVerifier) (h : Z) : Prop := ∀ k, verified self < k ≤ h → is_Some (bt_get k (queued self)).

Lemma checkpoint_hash l h x : checkpoints_ok l → hash l h = Some x → 0 ≤ h ≤ MAX ∧ x = chain h.
Proof. intros (Hok & _ & Hall) Hx. apply (bt_get_In h x l Hok) in Hx. rewrite Forall_forall in Hall. by apply Hall in Hx. Qed.

Lemma max_checkpoint l : checkpoints_ok l → ∃ m, max_height l = Ok m ∧ is_Some (hash l m) ∧ 0 ≤ m ≤ MAX ∧ ∀ h, is_Some (hash l h) → h ≤ m.
Proof.
  intros Hl. pose proof Hl as (Hok & [x H0] & _). unfold max_height. pose proof (max_in_range l Unbounded Unbounded Hok) as Hm.
  destruct (max_height_in_range l Unbounded Unbounded) as [m|].
  - destruct Hm as [Hin Hmax]. apply range_keys in Hin as [Hin _]. apply (bt_keys l m Hok) in Hin as [y Hy]. exists m.
    split_and!; [done|by exists y|by eapply checkpoint_hash|by eapply checkpoint_hash|].
    intros h Hh. apply Hmax, range_keys. split; [by apply bt_keys|done].
  - exfalso. apply (Hm 0), range_keys. split; [apply bt_keys; [done|by exists x]|done].
Qed.

Lemma verified_range self : verifier_ok self → -1 ≤ verified self ≤ MAX.
Proof.
  intros [Hl _ Hp]. unfold verified, progress_ok in *. destruct (max_checkpoint _ Hl) as (m & Hm & _ & Hmr & _).
  destruct (verifier_progress self) as [|h|h|]; [rewrite MAX_eq; lia| | |rewrite Hm; lia].
  - destruct Hp as (_ & ? & m' & Hm' & ?). rewrite Hm in Hm'. injection Hm' as <-. lia.
  - destruct Hp as ([x Hx] & m' & Hm' & ?). apply (checkpoint_hash _ _ _ Hl) in Hx. lia.
Qed.

(** The target: the last checkpoint that the queued blocks reach without a gap. *)
Definition target_ok (self : CheckpointVerifier) (target : Run TargetHeight) : Prop :=
  match target with
  | Ok (Checkpoint h) => is_Some (hash (checkpoint_list self) h) ∧ verified self < h ∧ contiguous self h ∧
      ∀ h', is_Some (hash (checkpoint_list self) h') → verified self < h' → contiguous self h' → h' ≤ h
  | Ok WaitingForBlocks => ∀ h', is_Some (hash (checkpoint_list self) h') → verified self < h' → ¬ contiguous self h'
  | _ => False
  end.

(** From a start height up to which the blocks are contiguous, and a bound that is the verified height. *)
Lemma target_from self start bound : verifier_ok self → 0 ≤ start → verified self ≤ start ≤ verified self + 1 → contiguous self start →
  (∀ k, 0 ≤ k → above bound k = true ↔ verified self < k) →
  target_ok self (Ok match max_height_in_range (checkpoint_list self) bound
                             (Included (continuous_height start (range (Excluded start) Unbounded (queued self)).*1)) with
                     | Some height => Checkpoint height | None => WaitingForBlocks end).
Proof.
  intros [Hl [Hq Hqok] _] H0 Hs Hc Hab. pose proof Hl as (Hlok & _ & Hall).
  destruct (continuous_spec start (range (Excluded start) Unbounded (queued self)).*1) as (C1 & C2 & C3); [by apply range_sorted| |done|].
  { apply Forall_forall. intros k (Hk%(bt_keys _ _ Hq) & Ha & _)%range_keys. destruct Hk as [qbs Hk]. apply Hqok in Hk. cbn in Ha. destruct Hk. lia. }
  set (pending := continuous_height start _) in *.
  assert (Hcont : ∀ h, verified self < h → contiguous self h ↔ h ≤ pending).
  { intros h Hh. split.
    - intros Hch. destruct (Z.le_gt_cases h pending); [done|]. exfalso. apply C3, range_keys. split; [|cbn; split; [lia|done]].
      apply bt_keys; [done|]. apply Hch. lia.
    - intros Hle k Hk. destruct (Z.le_gt_cases k start); [apply Hc; lia|].
      assert (Hin : k ∈ (range (Excluded start) Unbounded (queued self)).*1) by (apply C2; lia).
      apply range_keys in Hin as [Hin _]. by apply bt_keys in Hin. }
  assert (Hin : ∀ h, h ∈ (range bound (Included pending) (checkpoint_list self)).*1 ↔ is_Some (hash (checkpoint_list self) h) ∧ verified self < h ∧ h ≤ pending).
  { intros h. rewrite range_keys, bt_keys by done. unfold hash. cbn [below]. split.
    - intros ([x Hx] & Ha & Hbl). destruct (checkpoint_hash _ _ _ Hl Hx) as [? _]. apply Hab in Ha; [|lia]. split_and!; [by exists x|done|lia].
    - intros ([x Hx] & Ha & Hbl). destruct (checkpoint_hash _ _ _ Hl Hx) as [? _]. split_and!; [by exists x|by apply Hab; [lia|]|lia]. }
  pose proof (max_in_range (checkpoint_list self) bound (Included pending) Hlok) as Hm. destruct (max_height_in_range _ _ _) as [h|]; cbn.
  - destruct Hm as [(Hh & Hv & Hle)%Hin Hmax]. split_and!; [done|done|by apply Hcont|].
    intros h' Hh' Hv' Hc'. apply Hmax, Hin. split_and!; [done|done|by apply Hcont].
  - intros h' Hh' Hv' Hc'. apply (Hm h'), Hin. split_and!; [done|done|by apply Hcont].
Qed.

Lemma target_spec self : verifier_ok self → verifier_progress self ≠ FinalCheckpoint → target_ok self (target_checkpoint_height self).
Proof.
  intros Hok Hf. pose proof (verified_range self Hok) as Hr. destruct Hok as [Hl Hq Hp] eqn:Heq. clear Heq.
  unfold target_checkpoint_height, current_start_bound, previous_checkpoint_height. cbn zeta. unfold progress_ok in Hp.
  assert (Htip : ∀ h, verified self = h → 0 ≤ h → target_ok self (Ok match max_height_in_range (checkpoint_list self) (Excluded h)
    (Included (continuous_height h (range (Excluded h) Unbounded (queued self)).*1)) with Some height => Checkpoint height | None => WaitingForBlocks end)).
  { intros h Hv Hh. apply target_from; [done|done|lia|intros k Hk; lia|intros k Hk; cbn; lia]. }
  destruct (verifier_progress self) as [|h|h|] eqn:Hpr; [| | |done].
  - assert (Hv : verified self = -1) by (unfold verified; by rewrite Hpr).
    destruct (bool_decide_reflect (is_Some (bt_get 0 (queued self)))) as [Hg|Hg]; cbn [negb].
    + apply target_from; [done|lia|lia| |intros k Hk; cbn; lia]. intros k Hk. by assert (k = 0) as -> by lia.
    + intros h' _ Hv' Hc. apply Hg, Hc. lia.
  - apply Htip; [unfold verified; by rewrite Hpr|lia].
  - destruct Hp as ([x Hx] & _). destruct (checkpoint_hash _ _ _ Hl Hx) as [? _]. apply Htip; [unfold verified; by rewrite Hpr|lia].
Qed.

(** ** The blocks of a range *)

(** The queued block of the chain at a height. *)
Definition block_hash (qb : QueuedBlock) : Hash := sv_hash (qb_block qb).
Definition chain_block (q : list (Z * list QueuedBlock)) (h : Height) : option QueuedBlock :=
  qblocks ← bt_get h q; head (filter (λ qb, block_hash qb = chain h) qblocks).
Definition side_chain (e : Hash) (qblocks : list QueuedBlock) : Sends :=
  (λ qb, (qb_tx qb, inl (UnexpectedSideChain e (block_hash qb)))) <$> filter (λ qb, block_hash qb ≠ e) qblocks.

Lemma drain_spec e qblocks v : NoDup (block_hash <$> qblocks) → (is_Some v → e ∉ block_hash <$> qblocks) →
  drain_blocks e v qblocks =
  Ok (match v with Some x => Some x | None => head (filter (λ qb, block_hash qb = e) qblocks) end, side_chain e qblocks).
Proof.
  revert v. induction qblocks as [|qb l IH]; intros v Hnd Hv; cbn [drain_blocks].
  { by destruct v. }
  cbn in Hnd. apply NoDup_cons in Hnd as [Hnotin Hnd]. unfold side_chain. rewrite !filter_cons. case_bool_decide as He; change (sv_hash (qb_block qb)) with (block_hash qb) in He.
  - destruct v as [x|]; [exfalso; apply Hv; [done|]; rewrite <- He; left|].
    rewrite IH; [|done|by rewrite <- He]. rewrite decide_True by done. by rewrite (decide_False (P := block_hash qb ≠ e)) by (intros H; by apply H).
  - rewrite IH; [|done|intros Hs Hin; apply Hv; [done|by right]]. rewrite Ok_bind. rewrite decide_False by done. by rewrite decide_True.
Qed.

Lemma process_height_spec self h qblocks : queue_ok (queued self) → checkpoints_ok (checkpoint_list self) → bt_get h (queued self) = Some qblocks →
  process_height self h (chain h) = Ok (with_queued self (bt_remove h (queued self)), chain_block (queued self) h, side_chain (chain h) qblocks).
Proof.
  intros [Hq Hok] Hl Hh. pose proof (Hok h qblocks Hh) as Hho. unfold process_height, chain_block. rewrite Hh. cbn [expect]. rewrite Ok_bind. cbn zeta.
  rewrite bool_decide_false by apply (ho_nonempty _ _ Hho). cbn [negb assert]. rewrite Ok_bind. cbn [checkpoint_list with_queued].
  assert (Hcp : match hash (checkpoint_list self) h with Some x => assert (bool_decide (chain h = x)) | None => Ok tt end = Ok (E := Empty_set) tt).
  { destruct (hash (checkpoint_list self) h) as [x|] eqn:Hx; [|done]. destruct (checkpoint_hash _ _ _ Hl Hx) as [_ ->]. by rewrite bool_decide_true. }
  rewrite Hcp, Ok_bind, drain_spec; [|apply (ho_hashes _ _ Hho)|by intros [? ?]]. rewrite Ok_bind. done.
Qed.

Lemma chain_block_spec q h qb : queue_ok q → chain_block q h = Some qb →
  block_hash qb = chain h ∧ sv_height (qb_block qb) = h ∧ previous_block_hash (header (sv_block (qb_block qb))) = chain (h - 1) ∧
  ∃ qblocks, bt_get h q = Some qblocks ∧ qb ∈ qblocks.
Proof.
  intros [_ Hok] Hc. unfold chain_block in Hc. destruct (bt_get h q) as [qblocks|] eqn:Hh; [|done]. cbn in Hc. apply head_Some_elem_of in Hc.
  apply list_elem_of_filter in Hc as [Hc Hin]. pose proof (ho_blocks _ _ (Hok h qblocks Hh)) as Hb. rewrite Forall_forall in Hb.
  destruct (Hb qb Hin) as [Hht Hprev]. split_and!; [done|done|by apply Hprev|eauto].
Qed.

(** Heights from the top down. *)
Fixpoint down (top : Z) (n : nat) : list Z := match n with O => [] | S n => top :: down (top - 1) n end.
Lemma down_snoc top n : down top (S n) = down top n ++ [top - Z.of_nat n].
Proof.
  revert top. induction n as [|n IH]; intros top; [cbn; by rewrite Z.sub_0_r|].
  change (down top (S (S n))) with (top :: down (top - 1) (S n)). rewrite IH. by replace (top - 1 - Z.of_nat n) with (top - Z.of_nat (S n)) by lia.
Qed.
Lemma rev_seqZ m n : 0 ≤ n → rev (seqZ m n) = down (m + n - 1) (Z.to_nat n).
Proof.
  intros Hn. revert m. pattern n. apply natlike_ind; [|clear n Hn|done]; [intros m; by rewrite seqZ_nil by lia|].
  intros n Hn IH m. rewrite seqZ_cons by lia. cbn [rev]. rewrite Z.pred_succ, IH. replace (Z.to_nat (Z.succ n)) with (S (Z.to_nat n)) by lia.
  rewrite down_snoc. replace (m + Z.succ n - 1 - Z.of_nat (Z.to_nat n)) with m by lia. by replace (Z.succ m + n - 1) with (m + Z.succ n - 1) by lia.
Qed.

Lemma down_elem top n x : top - Z.of_nat n < x ≤ top → x ∈ down top n.
Proof.
  revert top. induction n as [|n IH]; intros top Hx; [lia|]. cbn. destruct (decide (x = top)) as [->|]; [left|right]. apply IH. lia.
Qed.

(** The valid blocks go back into the queue, each at its height. *)
Lemma push_blocks q0 top m : ∀ q acc, queue_ok q0 → bt_ok q → (∀ x, top - Z.of_nat m < x ≤ top → bt_get x q = None) →
  Some <$> acc = chain_block q0 <$> down top m →
  let q' := foldl push_queued q (rev acc) in
  bt_ok q' ∧ ∀ x, bt_get x q' = if (top - Z.of_nat m <? x) && (x <=? top) then (λ qb, [qb]) <$> chain_block q0 x else bt_get x q.
Proof.
  induction m as [|m IH]; intros q acc Hq0 Hq Hn Hacc.
  { destruct acc; [|done]. split; [done|]. intros x. change (Z.of_nat 0) with 0. replace ((top - 0 <? x) && (x <=? top)) with false by lia. done. }
  rewrite down_snoc, fmap_app in Hacc. apply fmap_app_inv in Hacc as (acc' & one & Hacc' & Hone & ->).
  destruct one as [|qb []]; [done| |done]. cbn in Hone. injection Hone as Hqb. rewrite rev_app_distr. cbn [rev app foldl].
  set (h := top - Z.of_nat m) in *. assert (Hh : top - Z.of_nat (S m) = h - 1) by lia. rewrite Hh in *. assert (Htop : h ≤ top) by lia. clearbody h.
  destruct (chain_block_spec q0 h qb Hq0 Hqb) as (_ & Hht & _).
  assert (Hpush : push_queued q qb = bt_insert h [qb] q) by (unfold push_queued; rewrite Hht, Hn by lia; done). rewrite Hpush.
  destruct (IH (bt_insert h [qb] q) acc' Hq0) as [H1 H2]; [by apply bt_ok_insert| |done|].
  { intros x Hx. rewrite bt_get_insert by done. rewrite (proj2 (Z.eqb_neq _ _)) by lia. apply Hn. lia. }
  split; [done|]. intros x. rewrite H2, bt_get_insert by done. destruct (Z.eqb_spec x h) as [->|Hne].
  - replace ((h <? h) && (h <=? top)) with false by lia. replace ((h - 1 <? h) && (h <=? top)) with true by lia. by rewrite Hqb.
  - by replace ((h <? x) && (x <=? top)) with ((h - 1 <? x) && (x <=? top)) by lia.
Qed.

(** The loop down to a height, from the top of a range of the queue [q0]. *)
Definition sends_errors (sends : Sends) : Prop := Forall (λ s, is_Some (match s.2 with inl e => Some e | inr _ => None end)) sends.
Lemma side_chain_errors e qblocks : sends_errors (side_chain e qblocks).
Proof. apply Forall_fmap, Forall_forall. intros qb _. cbn. eauto. Qed.

Lemma process_heights_spec q0 top n : ∀ self m acc (b := top - Z.of_nat m), queue_ok q0 → checkpoints_ok (checkpoint_list self) → bt_ok (queued self) →
  (∀ x, bt_get x (queued self) = if (b <? x) && (x <=? top) then None else bt_get x q0) →
  (∀ x, b - Z.of_nat n < x ≤ b → is_Some (bt_get x q0)) → Some <$> acc = chain_block q0 <$> down top m →
  ∃ result sends, process_heights self (chain b) acc (down b n) = Ok (result, sends) ∧ sends_errors sends ∧
  match result with
  | RangeVerified self' expected blocks => expected = chain (b - Z.of_nat n) ∧ Some <$> blocks = chain_block q0 <$> down top (m + n) ∧
      ∃ q', self' = with_queued self q' ∧ bt_ok q' ∧ ∀ x, bt_get x q' = if (b - Z.of_nat n <? x) && (x <=? top) then None else bt_get x q0
  | RangeFailed self' => ∃ k q', b - Z.of_nat n < k ≤ b ∧ chain_block q0 k = None ∧ self' = with_queued self q' ∧ bt_ok q' ∧
      (∀ x, k < x ≤ top → is_Some (chain_block q0 x)) ∧
      ∀ x, bt_get x q' = if (k <? x) && (x <=? top) then (λ qb, [qb]) <$> chain_block q0 x else if x =? k then None else bt_get x q0
  end.
Proof.
  induction n as [|n IH]; intros self m acc b Hq0 Hl Hq Hget Hsome Hacc; cbn [down process_heights].
  { eexists _, []. split; [done|]. split; [constructor|]. rewrite Z.sub_0_r, Nat.add_0_r. split_and!; [done|done|]. exists (queued self). by destruct self. }
  assert (Hb : bt_get b (queued self) = bt_get b q0) by (rewrite Hget; by replace (b <? b) with false by lia).
  destruct (Hsome b) as [qblocks Hqb]; [lia|]. rewrite Hqb in Hb.
  assert (Hqok : queue_ok (queued self)).
  { split; [done|]. intros x l Hx. rewrite Hget in Hx. destruct (_ && _); [done|]. by apply Hq0. }
  rewrite (process_height_spec self b qblocks Hqok Hl Hb), Ok_bind.
  assert (Hcb : chain_block (queued self) b = chain_block q0 b) by (unfold chain_block; by rewrite Hb, Hqb). rewrite Hcb.
  assert (Hget' : ∀ x, bt_get x (bt_remove b (queued self)) = if (b - 1 <? x) && (x <=? top) then None else bt_get x q0).
  { intros x. rewrite bt_get_remove, Hget by done. destruct (Z.eqb_spec x b) as [->|]; [by replace ((b - 1 <? b) && (b <=? top)) with true by lia|].
    by replace ((b - 1 <? x) && (x <=? top)) with ((b <? x) && (x <=? top)) by lia. }
  destruct (chain_block q0 b) as [qb|] eqn:Hc.
  - destruct (chain_block_spec q0 b qb Hq0 Hc) as (_ & _ & Hprev & _). rewrite Hprev.
    destruct (IH (with_queued self (bt_remove b (queued self))) (S m) (acc ++ [qb])) as (result & sends & Hp & He & Hr); [done|done|by apply bt_ok_remove| | | |].
    + intros x. cbn [queued with_queued]. rewrite Hget'. by replace (top - Z.of_nat (S m)) with (b - 1) by lia.
    + intros x Hx. apply Hsome. lia.
    + rewrite down_snoc, !fmap_app, Hacc. cbn. fold b. by rewrite Hc.
    + replace (top - Z.of_nat (S m)) with (b - 1) in * by lia. replace (b - 1 - Z.of_nat n) with (b - Z.of_nat (S n)) in * by lia.
      replace (S m + n)%nat with (m + S n)%nat in * by lia. exists result, (side_chain (chain b) qblocks ++ sends).
      rewrite Hp, Ok_bind. split; [done|]. split; [by apply Forall_app; split; [apply side_chain_errors|]|].
      destruct result as [self' expected blocks|self'].
      * destruct Hr as (He' & Hbl & q' & -> & Hq'). split_and!; [done|done|]. exists q'. done.
      * destruct Hr as (k & q' & Hk & Hn & -> & Hq' & Hab & Hx). exists k, q'. split_and!; [lia|lia|done|done|done|done|done].
  - eexists _, _. split; [done|]. split; [apply side_chain_errors|]. cbn [queued with_queued].
    destruct (push_blocks q0 top m (bt_remove b (queued self)) acc Hq0) as [H1 H2]; [by apply bt_ok_remove| |done|].
    { intros x Hx. rewrite Hget'. fold b in Hx. by replace ((b - 1 <? x) && (x <=? top)) with true by lia. }
    exists b, (foldl push_queued (bt_remove b (queued self)) (rev acc)). split_and!; [lia|lia|done|done|done| |].
    + intros x Hx. assert (Hin : x ∈ down top m) by (apply down_elem; lia).
      apply (list_elem_of_fmap_2 (chain_block q0)) in Hin. rewrite <- Hacc in Hin. apply list_elem_of_fmap in Hin as (y & -> & _). eauto.
    + intros x. rewrite H2, Hget'. fold b. destruct ((b <? x) && (x <=? top)) eqn:Hx; [done|].
      destruct (Z.eqb_spec x b) as [->|]; [by replace ((b - 1 <? b) && (b <=? top)) with true by lia|]. by replace ((b - 1 <? x) && (x <=? top)) with false by lia.
Qed.

(** ** Processing a checkpoint range *)

Lemma diagnostics_Ok self h : checkpoints_ok (checkpoint_list self) → 0 ≤ h → verified_checkpoint_diagnostics self (Some h) = Ok tt.
Proof.
  intros (Hok & H0 & _) Hh. unfold verified_checkpoint_diagnostics, prev_checkpoint_index.
  pose proof (rposition_spec (λ key, key <=? h) (checkpoint_list self).*1 0) as Hr. destruct (rposition _ _ 0); [done|].
  exfalso. specialize (Hr 0). cbn in Hr. rewrite (proj2 (Z.leb_le _ _)) in Hr by lia. by discriminate Hr; apply bt_keys.
Qed.

Lemma check_height_Ok self h : verifier_ok self → verifier_progress self ≠ FinalCheckpoint → 0 ≤ h →
  check_height self h = Ok tt ↔ verified self < h ∧ ∃ m, max_height (checkpoint_list self) = Ok m ∧ h ≤ m.
Proof.
  intros [Hl _ _] Hf H0. destruct (max_checkpoint _ Hl) as (m & Hm & _). unfold check_height, verified, previous_checkpoint_height. rewrite Hm. cbn [lift].
  rewrite Ok_bind. assert (Hex : (∃ m', Ok (E := Empty_set) m = Ok m' ∧ h ≤ m') ↔ h ≤ m) by (split; [by intros (? & [= <-] & ?)|eauto]). rewrite Hex.
  destruct (Z.ltb_spec m h); [split; [done|lia]|]. destruct (verifier_progress self) as [|p|p|]; [split; [split; lia|done]| | |done].
  - destruct (Z.leb_spec h p); split; first [done | lia].
  - destruct (Z.leb_spec h p); split; first [done | lia].
Qed.

Lemma update_progress_spec self t : verifier_ok self → verifier_progress self ≠ FinalCheckpoint → verified self < t →
  is_Some (hash (checkpoint_list self) t) → ∃ self', update_progress self t = Ok self' ∧ verifier_ok self' ∧ verified self' = t ∧
    checkpoint_list self' = checkpoint_list self ∧ queued self' = queued self ∧
    if bool_decide (max_height (checkpoint_list self) = Ok t) then verifier_progress self' = FinalCheckpoint else verifier_progress self' = PreviousCheckpoint t.
Proof.
  intros Hok Hf Hv [x Hx]. pose proof Hok as [Hl Hq _]. destruct (checkpoint_hash _ _ _ Hl Hx) as [Ht _]. destruct (max_checkpoint _ Hl) as (m & Hm & _ & _ & Hmax).
  assert (Hle : t ≤ m) by (apply Hmax; by exists x). unfold update_progress.
  rewrite (proj2 (check_height_Ok self t Hok Hf ltac:(lia))) by (split; [done|eauto]). rewrite Hm, Ok_bind. destruct (Z.eqb_spec t m) as [->|Hne].
  - rewrite diagnostics_Ok, Ok_bind, bool_decide_true by first [done | cbn; lia]. eexists. split; [done|]. split_and!; [by split|unfold verified; cbn; by rewrite Hm|done|done|done].
  - unfold CheckpointList.contains. fold (hash (checkpoint_list self) t). rewrite Hx, bool_decide_true by eauto.
    rewrite diagnostics_Ok, Ok_bind, bool_decide_false by first [done | cbn; lia | congruence]. eexists. split; [done|].
    split_and!; [split; [done|done|]|done|done|done|done]. split; [by exists x|]. exists m. split; [done|lia].
Qed.

Lemma range_heights_spec self t bound : verifier_ok self → current_start_bound self = Some bound → verified self < t → contiguous self t →
  rev (range bound (Included t) (queued self)).*1 = down t (Z.to_nat (t - verified self)).
Proof.
  intros Hok Hb Hv Hc. pose proof Hok as [Hl [Hq Hqok] Hp]. pose proof (verified_range self Hok) as Hr.
  assert (Hab : ∀ k, 0 ≤ k → above bound k = true ↔ verified self < k).
  { intros k Hk. unfold current_start_bound, previous_checkpoint_height in Hb. unfold verified. destruct (verifier_progress self); [| | |done]; injection Hb as <-; cbn; lia. }
  assert (Hs : (range bound (Included t) (queued self)).*1 = seqZ (verified self + 1) (t - verified self)).
  { apply sorted_ext; [by apply range_sorted|apply seqZ_sorted|]. intros k. rewrite range_keys, bt_keys, elem_of_seqZ by done. cbn [below]. split.
    - intros ([l Hl'] & Ha & Hbl). pose proof (ho_range _ _ (Hqok _ _ Hl')). apply Hab in Ha; lia.
    - intros Hk. split_and!; [apply Hc; lia| |lia]. apply Hab; lia. }
  rewrite Hs, rev_seqZ by lia. f_equal; lia.
Qed.

Definition oks (sends : Sends) : list Hash := omap (λ s, match s.2 with inr h => Some h | inl _ => None end) sends.
Lemma oks_errors sends : sends_errors sends → oks sends = [].
Proof. induction 1 as [|[tx [e|h]] l Hx _ IH]; [done|done|]. cbn in Hx. by destruct Hx. Qed.

(** The blocks that are sent: those of the chain, in order. *)
Lemma oks_blocks q0 t n blocks : queue_ok q0 → Some <$> blocks = chain_block q0 <$> down t n →
  oks ((λ qb, (qb_tx qb, inr (sv_hash (qb_block qb)))) <$> rev blocks) = chain <$> seqZ (t - Z.of_nat n + 1) (Z.of_nat n).
Proof.
  intros Hq. revert blocks. induction n as [|n IH]; intros blocks Hb.
  { destruct blocks; [|done]. by rewrite seqZ_nil by lia. }
  rewrite down_snoc, fmap_app in Hb. apply fmap_app_inv in Hb as (blocks' & one & Hb' & Hone & ->). destruct one as [|qb []]; [done| |done].
  cbn in Hone. injection Hone as Hqb. destruct (chain_block_spec q0 _ qb Hq Hqb) as (Hh & _). rewrite rev_app_distr. cbn [rev app fmap list_fmap].
  rewrite seqZ_cons by lia. unfold oks. cbn [omap list_omap fmap list_fmap snd]. fold (oks ((λ qb, (qb_tx qb, inr (sv_hash (qb_block qb)))) <$> rev blocks')).
  unfold block_hash in Hh. rewrite Hh, (IH blocks' (eq_sym Hb')). replace (t - Z.of_nat (S n) + 1) with (t - Z.of_nat n) by lia.
  replace (Z.succ (t - Z.of_nat n)) with (t - Z.of_nat n + 1) by lia. by replace (Z.pred (Z.of_nat (S n))) with (Z.of_nat n) by lia.
Qed.

(** The parent of the first block of a range. *)
Lemma previous_hash_spec self : verifier_ok self → verifier_progress self ≠ FinalCheckpoint →
  ∃ p, previous_checkpoint_hash self = Ok p ∧ match p with BeforeGenesis => chain (verified self) = GENESIS_PREVIOUS_BLOCK_HASH
    | InitialTip h | PreviousCheckpoint h => h = chain (verified self) | FinalCheckpoint => False end.
Proof.
  intros [Hl _ Hp] Hf. unfold previous_checkpoint_hash, previous_checkpoint_height, verified, progress_ok in *. destruct (verifier_progress self) as [|h|h|]; [| | |done].
  - by exists BeforeGenesis.
  - destruct Hp as (-> & _). by eexists.
  - destruct Hp as ([x Hx] & _). rewrite Hx. eexists. split; [done|]. by destruct (checkpoint_hash _ _ _ Hl Hx) as [_ ->].
Qed.

(** What [process_checkpoint_range] does: it waits, or it verifies a range that ends at a checkpoint, or it discards the blocks of a height
    without a block of the chain, and the side chain blocks above it. *)
Definition waits (self self' : CheckpointVerifier) : Prop :=
  self' = self ∧ (verifier_progress self ≠ FinalCheckpoint → ∀ h, is_Some (hash (checkpoint_list self) h) → verified self < h → ¬ contiguous self h).
Definition advances (self self' : CheckpointVerifier) (t : Z) : Prop :=
  verified self < t ∧ verified self' = t ∧ is_Some (hash (checkpoint_list self) t) ∧
  (∀ h, is_Some (hash (checkpoint_list self) h) → verified self < h → contiguous self h → h ≤ t) ∧
  (∀ x, verified self < x ≤ t → is_Some (chain_block (queued self) x)) ∧
  ∀ x, bt_get x (queued self') = if (verified self <? x) && (x <=? t) then None else bt_get x (queued self).
Definition discards (self self' : CheckpointVerifier) (k t : Z) : Prop :=
  verifier_progress self' = verifier_progress self ∧ verified self < k ≤ t ∧ chain_block (queued self) k = None ∧ is_Some (bt_get k (queued self)) ∧
  (∀ x, k < x ≤ t → is_Some (chain_block (queued self) x)) ∧
  ∀ x, bt_get x (queued self') = if (k <? x) && (x <=? t) then (λ qb, [qb]) <$> chain_block (queued self) x
                                 else if x =? k then None else bt_get x (queued self).

Lemma discards_queue_ok q0 k t q : queue_ok q0 → bt_ok q →
  (∀ x, bt_get x q = if (k <? x) && (x <=? t) then (λ qb, [qb]) <$> chain_block q0 x else if x =? k then None else bt_get x q0) → queue_ok q.
Proof.
  intros Hq0 Hq Hx. split; [done|]. intros h qblocks Hh. rewrite Hx in Hh. destruct (_ && _).
  - destruct (chain_block q0 h) as [qb|] eqn:Hc; [|done]. injection Hh as <-. destruct (chain_block_spec q0 h qb Hq0 Hc) as (Hhash & Hht & Hprev & l & Hl & Hin).
    pose proof (proj2 Hq0 h l Hl) as Ho. split; [apply (ho_range _ _ Ho)|done|done|apply NoDup_singleton|]. constructor; [|constructor]. done.
  - destruct (h =? k); [done|]. by apply Hq0.
Qed.

(** After a failure, the target is lower. *)
Lemma discards_target self self' k t : verifier_ok self' → verifier_progress self ≠ FinalCheckpoint → checkpoint_list self' = checkpoint_list self →
  discards self self' k t → ∃ target, target_checkpoint_height self' = Ok target ∧
    bool_decide (target = WaitingForBlocks) || target_lt target (Checkpoint t) = true.
Proof.
  intros Hok Hf Hl (Hp & Hk & _ & _ & _ & Hx). assert (Hv : verified self' = verified self) by (unfold verified; by rewrite Hp, Hl).
  assert (Hf' : verifier_progress self' ≠ FinalCheckpoint) by (by rewrite Hp). pose proof (target_spec self' Hok Hf') as Ht.
  destruct (target_checkpoint_height self') as [[|h|]| |]; [by eexists| |done..]. eexists. split; [done|]. destruct Ht as (_ & Hvh & Hc & _).
  rewrite bool_decide_false by done. cbn. destruct (Z.compare_spec h t) as [->|Hlt|Hgt]; [|done|]; exfalso.
  - destruct (Hc k) as [l Hl']; [lia|]. rewrite Hx, Z.eqb_refl in Hl'. by replace ((k <? k) && (k <=? t)) with false in Hl' by lia.
  - destruct (Hc k) as [l Hl']; [lia|]. rewrite Hx, Z.eqb_refl in Hl'. by replace ((k <? k) && (k <=? t)) with false in Hl' by lia.
Qed.
(** After a success, no checkpoint can be reached. *)
Lemma advances_target self self' t : verifier_ok self' → checkpoint_list self' = checkpoint_list self → contiguous self t →
  advances self self' t → ∃ target, target_checkpoint_height self' = Ok target ∧
    bool_decide (target = WaitingForBlocks) || bool_decide (target = FinishedVerifying) = true.
Proof.
  intros Hok Hl Hct (Hvt & Hv & _ & Hmax & _ & Hx). destruct (decide (verifier_progress self' = FinalCheckpoint)) as [Hf|Hf].
  { unfold target_checkpoint_height, previous_checkpoint_height. rewrite Hf. by eexists. }
  pose proof (target_spec self' Hok Hf) as Ht. destruct (target_checkpoint_height self') as [[|h|]| |]; [by eexists| |done..]. exfalso.
  destruct Ht as (Hs & Hvh & Hc & _). rewrite Hl in Hs. assert (h ≤ t); [|lia]. apply Hmax; [done|lia|].
  intros x Hxr. destruct (Z.le_gt_cases x t); [apply Hct; lia|]. destruct (Hc x) as [l Hl']; [lia|]. rewrite Hx in Hl'.
  replace ((verified self <? x) && (x <=? t)) with false in Hl' by lia. by exists l.
Qed.

Lemma range_failed_spec self self' k t : verifier_ok self' → verifier_progress self ≠ FinalCheckpoint → checkpoint_list self' = checkpoint_list self →
  discards self self' k t → range_failed self' (verifier_progress self) t = Ok self'.
Proof.
  intros Hok Hf Hl Hd. destruct (discards_target self self' k t Hok Hf Hl Hd) as (target & Ht & Hlt). destruct Hd as [Hp _].
  unfold range_failed, previous_checkpoint_height. rewrite bool_decide_true by done. cbn [assert]. by rewrite Ok_bind, Ht, Ok_bind, Hlt.
Qed.

Lemma range_verified_spec self q t blocks : verifier_ok self → verifier_ok (with_queued self q) → verifier_progress self ≠ FinalCheckpoint →
  verified self < t → is_Some (hash (checkpoint_list self) t) → contiguous self t →
  (∀ h, is_Some (hash (checkpoint_list self) h) → verified self < h → contiguous self h → h ≤ t) →
  (∀ x, verified self < x ≤ t → is_Some (chain_block (queued self) x)) →
  (∀ x, bt_get x q = if (verified self <? x) && (x <=? t) then None else bt_get x (queued self)) →
  ∃ self', range_verified (with_queued self q) (chain (verified self)) (chain (verified self)) blocks (verifier_progress self) t =
    Ok (self', (λ qb, (qb_tx qb, inr (sv_hash (qb_block qb)))) <$> rev blocks) ∧ verifier_ok self' ∧
    checkpoint_list self' = checkpoint_list self ∧ advances self self' t.
Proof.
  intros Hok Hok' Hf Hv Hs Hc Hmax Hcb Hget.
  destruct (update_progress_spec (with_queued self q) t Hok' Hf Hv Hs) as (self' & Hu & Hok'' & Hv' & Hl' & Hqd & Hpr). cbn [checkpoint_list with_queued queued] in *.
  assert (Hadv : advances self self' t) by (split_and!; [done|done|done|done|done|intros x; by rewrite Hqd]).
  destruct (advances_target self self' t Hok'' Hl' Hc Hadv) as (target & Ht & Hw). exists self'. split_and!; [|done|done|done].
  unfold range_verified, previous_checkpoint_height. rewrite bool_decide_true by done. cbn [assert]. rewrite Ok_bind, Hu, Ok_bind.
  assert (Hgt : progress_gt (verifier_progress self') (verifier_progress self) = true).
  { unfold progress_gt, progress_cmp. unfold verified in Hv. rewrite bool_decide_false.
    - destruct (bool_decide _); rewrite Hpr; destruct (verifier_progress self); try done; cbn; by rewrite (proj2 (Z.compare_gt_iff _ _)) by lia.
    - destruct (bool_decide _); rewrite Hpr; intros Heq; [congruence|]. rewrite <- Heq in Hv. lia. }
  rewrite Hgt. cbn [assert]. rewrite Ok_bind. rewrite Hl'. destruct (bool_decide_reflect (max_height (checkpoint_list self) = Ok t)) as [Hm|Hm]; rewrite Hpr.
  - rewrite bool_decide_true by done. rewrite Hm, Ok_bind, Z.eqb_refl. cbn [assert]. by rewrite Ok_bind, Ht, Ok_bind, Hw.
  - rewrite bool_decide_false, bool_decide_true by done. cbn [assert]. by rewrite Ok_bind, Ht, Ok_bind, Hw.
Qed.

Lemma process_range_spec self : verifier_ok self → verifier_progress self ≠ FinalCheckpoint →
  ∃ self' sends, process_range self (chain (verified self)) = Ok (self', sends) ∧ verifier_ok self' ∧
  checkpoint_list self' = checkpoint_list self ∧ verified self ≤ verified self' ∧
  oks sends = chain <$> seqZ (verified self + 1) (verified self' - verified self) ∧
  (waits self self' ∨ (∃ t, advances self self' t) ∨ ∃ k t, discards self self' k t).
Proof.
  intros Hok Hf. pose proof Hok as [Hl Hq Hp]. unfold process_range. pose proof (target_spec self Hok Hf) as Ht.
  destruct (target_checkpoint_height self) as [[|t|]| |] eqn:Htgt; [| |done..].
  { rewrite Ok_bind. exists self, []. rewrite Z.sub_diag, seqZ_nil by lia. split_and!; [done|done|done|done|done|left]. by split. }
  destruct Ht as (Hs & Hvt & Hc & Hmax). rewrite Ok_bind. pose proof Hs as [x Hx]. pose proof (checkpoint_hash _ _ _ Hl Hx) as [Htr ->]. rewrite Hx. cbn [expect].
  rewrite Ok_bind. assert (∃ b, current_start_bound self = Some b) as [b Hb].
  { unfold current_start_bound, previous_checkpoint_height. by destruct (verifier_progress self); eauto. }
  rewrite Hb. cbn [expect]. rewrite Ok_bind, (range_heights_spec self t b Hok Hb Hvt Hc).
  pose proof (process_heights_spec (queued self) t (Z.to_nat (t - verified self)) self 0 [] Hq Hl (proj1 Hq)) as Hph. cbn zeta in Hph.
  change (Z.of_nat 0) with 0 in Hph. rewrite Z.sub_0_r, Z2Nat.id in Hph by lia. replace (t - (t - verified self)) with (verified self) in Hph by lia.
  destruct Hph as (result & sends & -> & He & Hr); [|done|done|].
  { intros y. by replace ((t <? y) && (y <=? t)) with false by lia. }
  rewrite Ok_bind. destruct result as [self' expected blocks|self'].
  - destruct Hr as (-> & Hbl & q' & -> & Hq' & Hget).
    assert (Hok' : verifier_ok (with_queued self q')).
    { split; [done| |done]. split; [done|]. intros h l Hh. cbn in Hh. rewrite Hget in Hh. destruct (_ && _); [done|]. by apply Hq. }
    destruct (range_verified_spec self q' t blocks Hok Hok' Hf Hvt Hs Hc Hmax) as (self' & Hr & Hok'' & Hl' & Hadv); [|done|].
    { intros y Hy. assert (Hin : y ∈ down t (Z.to_nat (t - verified self))).
      { apply down_elem. lia. }
      apply (list_elem_of_fmap_2 (chain_block (queued self))) in Hin. cbn in Hbl. rewrite <- Hbl in Hin. apply list_elem_of_fmap in Hin as (z & -> & _). eauto. }
    unfold previous_checkpoint_height. rewrite Hr, Ok_bind. eexists _, _. split; [done|]. pose proof Hadv as (_ & Hv' & _). rewrite Hv'. split_and!; [done|done|lia| |by right; left; exists t].
    unfold oks. rewrite omap_app. fold (oks sends). rewrite (oks_errors sends He). cbn [app].
    fold (oks ((λ qb, (qb_tx qb, inr (sv_hash (qb_block qb)))) <$> rev blocks)). rewrite (oks_blocks (queued self) t _ blocks Hq Hbl). cbn [Nat.add].
    rewrite Z2Nat.id by lia. by replace (t - (t - verified self)) with (verified self) by lia.
  - destruct Hr as (k & q' & Hk & Hn & -> & Hq' & Hab & Hget). assert (Hqok : queue_ok q') by (by eapply discards_queue_ok).
    assert (Hd : discards self (with_queued self q') k t) by (split_and!; [done|lia|lia|done|apply Hc; lia|done|done]).
    unfold previous_checkpoint_height. rewrite (range_failed_spec self (with_queued self q') k t), Ok_bind by done. eexists _, _. split; [done|].
    change (verified (with_queued self q')) with (verified self). rewrite Z.sub_diag, seqZ_nil by lia.
    split_and!; [by split|done|done|by apply oks_errors|]. right. right. by exists k, t.
Qed.

Lemma process_spec self : verifier_ok self → ∃ self' sends, process_checkpoint_range self = Ok (self', sends) ∧ verifier_ok self' ∧
  checkpoint_list self' = checkpoint_list self ∧ verified self ≤ verified self' ∧
  oks sends = chain <$> seqZ (verified self + 1) (verified self' - verified self) ∧
  (waits self self' ∨ (∃ t, advances self self' t) ∨ ∃ k t, discards self self' k t).
Proof.
  intros Hok. unfold process_checkpoint_range. destruct (decide (verifier_progress self = FinalCheckpoint)) as [Hf|Hf].
  { unfold previous_checkpoint_hash, previous_checkpoint_height. rewrite Hf, Ok_bind. exists self, []. rewrite Z.sub_diag, seqZ_nil by lia.
    split_and!; [done|done|done|done|done|left]. by split. }
  destruct (previous_hash_spec self Hok Hf) as (p & Hprev & Hpc). rewrite Hprev, Ok_bind. pose proof (process_range_spec self Hok Hf) as Hr.
  destruct p as [|h|h|]; [by rewrite Hpc in Hr|by subst h..|done].
Qed.

(** ** Requests *)

Context (network : Network).
Context (chain_links : ∀ hdr h, header_ok hdr → 0 ≤ h ≤ MAX → header_hash hdr = Ok (chain h) → previous_block_hash hdr = chain (h - 1)).

(** A block that was parsed: its header is well formed, and its height is unsigned. *)
Definition parsed_block (block : Block) : Prop := header_ok (header block) ∧ ∀ h, coinbase_height block = Some h → 0 ≤ h.

Lemma check_block_Ok self block b : check_block network self block = Ok b →
  sv_block b = block ∧ header_hash (header block) = Ok (sv_hash b) ∧ coinbase_height block = Some (sv_height b) ∧ check_height self (sv_height b) = Ok tt.
Proof.
  intros (hash & Hh%lift_Ok & (height & Hht & ([] & Hc & ([] & _ & (s & _ & (fs & _ & H)%bind_Ok)%bind_Ok)%bind_Ok)%bind_Ok)%bind_Ok)%bind_Ok.
  rewrite Amount.zero_spec, Ok_bind in H. apply bind_Ok in H as (total & _ & (v & Hv%lift_Ok & ([] & _ & [= <-])%bind_Ok)%bind_Ok).
  destruct (coinbase_height block) as [h|] eqn:Hcb; [|done]. injection Hht as <-. unfold with_hash in Hv. rewrite Hcb in Hv. cbn [expect] in Hv. rewrite Ok_bind in Hv.
  apply bind_Ok in Hv as (hashes & _ & (outs & _ & [= <-])%bind_Ok). done.
Qed.

Lemma replace_block_spec e new qblocks :
  match replace_block e new qblocks with
  | Some (l, _) => ∃ l1 old l2, qblocks = l1 ++ old :: l2 ∧ l = l1 ++ new :: l2 ∧ block_hash old = e
  | None => e ∉ block_hash <$> qblocks
  end.
Proof.
  induction qblocks as [|qb l IH]; cbn; [apply not_elem_of_nil|]. case_bool_decide as He.
  { exists [], qb, l. done. }
  destruct (replace_block e new l) as [[l' tx]|]; cbn.
  - destruct IH as (l1 & old & l2 & -> & -> & Ho). exists (qb :: l1), old, l2. done.
  - rewrite elem_of_cons. intros [->|?]; done.
Qed.

(** A queue with a new block at a height: the other heights, and the blocks of the height with another hash, are the same. *)
Definition queued_at (q q' : list (Z * list QueuedBlock)) (b : SemanticallyVerifiedBlock) (tx : nat) : Prop :=
  (∀ x, x ≠ sv_height b → bt_get x q' = bt_get x q) ∧
  ∃ l1 l2, bt_get (sv_height b) q' = Some (l1 ++ mkQueued b tx :: l2) ∧
    ∀ qb, qb ∈ default [] (bt_get (sv_height b) q) → block_hash qb ≠ sv_hash b → qb ∈ l1 ++ l2.

Lemma queue_block_spec self block tx : verifier_ok self → verifier_progress self ≠ FinalCheckpoint →
  parsed_block block →
  match queue_block network self block tx with
  | Panic => check_block network self block = Panic
  | Err _ => True
  | Ok (self', b, sends) => check_block network self block = Ok b ∧ ∃ q', self' = with_queued self q' ∧ queue_ok q' ∧
      queued_at (queued self) q' b tx ∧ sends_errors sends
  end.
Proof.
  intros Hok Hf [Hhdr Hpos]. pose proof Hok as [Hl [Hq Hqok] Hp]. unfold queue_block. destruct (check_block network self block) as [b|e|] eqn:Hcb; [|done|done]. rewrite Ok_bind.
  destruct (check_block_Ok self block b Hcb) as (Hb & Hh & Hht & Hck). specialize (Hpos _ Hht).
  apply (check_height_Ok self (sv_height b) Hok Hf Hpos) in Hck as (Hv & m & Hm & Hle). destruct (max_checkpoint _ Hl) as (m' & Hm' & _ & Hmr & _).
  rewrite Hm in Hm'. injection Hm' as <-.
  set (h := sv_height b) in *. set (old := default [] (bt_get h (queued self))).
  assert (Hold : Z.of_nat (length old) ≤ MAX_QUEUED_BLOCKS_PER_HEIGHT ∧ NoDup (block_hash <$> old) ∧ Forall (λ qb, sv_height (qb_block qb) = h ∧
    (sv_hash (qb_block qb) = chain h → previous_block_hash (header (sv_block (qb_block qb))) = chain (h - 1))) old).
  { unfold old. destruct (bt_get h (queued self)) as [l|] eqn:Hg; cbn [default]; [destruct (Hqok h l Hg); done|]. split_and!; [done|apply NoDup_nil_2|constructor]. }
  destruct Hold as (Hlen & Hnd & Hall).
  assert (Hnew : sv_height (qb_block (mkQueued b tx)) = h ∧ (sv_hash (qb_block (mkQueued b tx)) = chain h → previous_block_hash (header (sv_block (qb_block (mkQueued b tx)))) = chain (h - 1))).
  { split; [done|]. cbn. intros Hc. rewrite Hb. apply chain_links; [done|lia|]. by rewrite Hh, Hc. }
  assert (Hins : ∀ l, height_ok h l → queue_ok (bt_insert h l (queued self))).
  { intros l Hlok. split; [by apply bt_ok_insert|]. intros x l' Hx. rewrite bt_get_insert in Hx by done. destruct (Z.eqb_spec x h) as [->|]; [by injection Hx as <-|by apply Hqok]. }
  assert (Hother : ∀ l x, x ≠ h → bt_get x (bt_insert h l (queued self)) = bt_get x (queued self)).
  { intros l x Hx. by rewrite bt_get_insert, (proj2 (Z.eqb_neq _ _)). }
  assert (Hat : ∀ l, bt_get h (bt_insert h l (queued self)) = Some l) by (intros l; by rewrite bt_get_insert, Z.eqb_refl).
  pose proof (replace_block_spec (sv_hash b) (mkQueued b tx) old) as Hr. destruct (replace_block _ _ old) as [[l old_tx]|].
  - destruct Hr as (l1 & ob & l2 & Ho & -> & Hoh). split; [done|]. eexists. split; [done|]. rewrite Ho in Hall, Hlen, Hnd. rewrite length_app in Hlen. cbn in Hlen.
    rewrite fmap_app, fmap_cons, Hoh in Hnd. apply Forall_app in Hall as [Ha1 [_ Ha2]%Forall_cons]. split_and!.
    + apply Hins. split; [lia|by destruct l1|rewrite length_app; cbn; lia|by rewrite fmap_app|]. apply Forall_app. split; [done|]. by constructor.
    + split; [by apply Hother|]. exists l1, l2. split; [apply Hat|]. change (default [] (bt_get (sv_height b) (queued self))) with old. rewrite Ho. intros qb Hin Hne.
      apply elem_of_app in Hin as [Hin|[->|Hin]%elem_of_cons]; [apply elem_of_app; by left|done|apply elem_of_app; by right].
    + constructor; [cbn; eauto|constructor].
  - destruct (Z.leb_spec MAX_QUEUED_BLOCKS_PER_HEIGHT (Z.of_nat (length old))); [done|]. unfold queued_block_diagnostics. cbn [queued with_queued].
    destruct (last (bt_insert h (old ++ [mkQueued b tx]) (queued self))) as [x|] eqn:Hlast.
    2:{ apply last_None in Hlast. specialize (Hat (old ++ [mkQueued b tx])). rewrite Hlast in Hat. done. }
    cbn. split; [done|]. eexists. split; [done|]. split_and!; [| |constructor].
    + apply Hins. split; [lia|by destruct old|rewrite length_app; cbn; unfold MAX_QUEUED_BLOCKS_PER_HEIGHT in *; lia| |apply Forall_app; split; [done|by constructor]].
      rewrite fmap_app. apply NoDup_app. split_and!; [done| |apply NoDup_singleton]. intros y Hy ->%list_elem_of_singleton. done.
    + split; [by apply Hother|]. exists old, []. split; [apply Hat|]. intros qb Hin _. by rewrite app_nil_r.
Qed.

(** A tip of the state is a block of the chain. *)
Definition tip_ok (tip : option (Height * Hash)) : Prop := match tip with Some (h, x) => 0 ≤ h ≤ MAX ∧ x = chain h | None => True end.

Lemma progress_from_tip_spec l tip : checkpoints_ok l → tip_ok tip → ∃ m i p, max_height l = Ok m ∧ progress_from_tip l tip = Ok (i, p) ∧
  ∀ q, progress_ok (mkVerifier l i q p) ∧
    verified (mkVerifier l i q p) = match tip with Some (h, _) => Z.min m h | None => -1 end.
Proof.
  intros Hl Ht. destruct (max_checkpoint l Hl) as (m & Hm & _). exists m. unfold progress_from_tip. destruct tip as [[h x]|].
  - destruct Ht as [Hh ->]. rewrite Hm, Ok_bind. destruct (Z.leb_spec m h).
    + exists None, FinalCheckpoint. split_and!; [done|done|]. intros q. split; [done|]. unfold verified. cbn. rewrite Hm. lia.
    + exists (Some (chain h)), (InitialTip h). split_and!; [done|done|]. intros q. split; [|unfold verified; cbn; lia].
      split_and!; [done|cbn; lia|]. by exists m.
  - exists None, BeforeGenesis. done.
Qed.

Lemma diagnostics_progress self : checkpoints_ok (checkpoint_list self) → progress_ok self →
  verified_checkpoint_diagnostics self (progress_height (verifier_progress self)) = Ok tt.
Proof.
  intros Hl Hp. unfold progress_ok in Hp. destruct (verifier_progress self) as [|h|h|]; [done| | |done].
  - destruct Hp as (_ & Hh & _). by apply diagnostics_Ok.
  - destruct Hp as ([x Hx] & _). apply diagnostics_Ok; [done|]. destruct (checkpoint_hash _ _ _ Hl Hx) as [? _]. lia.
Qed.

Lemma reset_progress_spec self tip : verifier_ok self → tip_ok tip → ∃ self', reset_progress self tip = Ok self' ∧ verifier_ok self' ∧
  queued self' = queued self ∧ checkpoint_list self' = checkpoint_list self.
Proof.
  intros [Hl Hq Hp] Ht. destruct (progress_from_tip_spec _ tip Hl Ht) as (m & i & p & Hm & Hpr & Hpo). unfold reset_progress. rewrite Hpr, Ok_bind.
  destruct (Hpo (queued self)) as [Hpo' _]. pose proof (diagnostics_progress (mkVerifier (checkpoint_list self) i (queued self) p) Hl Hpo') as Hd.
  cbn [verifier_progress] in Hd. rewrite Hd, Ok_bind. eexists. split; [done|]. done.
Qed.

Lemma from_checkpoint_list_spec l tip : checkpoints_ok l → tip_ok tip → ∃ self, from_checkpoint_list l tip = Ok self ∧ verifier_ok self ∧
  (tip = None → verified self = -1) ∧ queued self = [] ∧ checkpoint_list self = l.
Proof.
  intros Hl Ht. destruct (progress_from_tip_spec l tip Hl Ht) as (m & i & p & Hm & Hpr & Hpo). unfold from_checkpoint_list. rewrite Hpr, Ok_bind.
  destruct (Hpo []) as [Hpo' Hv]. pose proof (diagnostics_progress (mkVerifier l i [] p) Hl Hpo') as Hd. cbn [verifier_progress] in Hd. cbn zeta. rewrite Hd.
  eexists. split; [by destruct (is_final_checkpoint p)|]. split; [split; [done| |done]|split; [by intros ->|done]].
  split; [apply bt_ok_nil|]. done.
Qed.

(** The state in which the block is queued: after a reset. *)
Definition after_reset (self : CheckpointVerifier) (reset : option (option (Height * Hash))) : Run CheckpointVerifier :=
  match reset with Some tip => reset_progress self tip | None => Ok self end.

Lemma call_spec self reset block tx : verifier_ok self → (∀ tip, reset = Some tip → tip_ok tip) → parsed_block block →
  ∃ self0, after_reset self reset = Ok self0 ∧ verifier_ok self0 ∧ checkpoint_list self0 = checkpoint_list self ∧
  match call network self reset block tx with
  | Panic => check_block network self0 block = Panic
  | Err _ => False
  | Ok (self', inl _, sends) => self' = self0 ∧ sends = []
  | Ok (self', inr b, sends) => verifier_progress self0 ≠ FinalCheckpoint ∧ check_block network self0 block = Ok b ∧ verifier_ok self' ∧ checkpoint_list self' = checkpoint_list self ∧
      verified self0 ≤ verified self' ∧ oks sends = chain <$> seqZ (verified self0 + 1) (verified self' - verified self0) ∧
      ∃ q, queue_ok q ∧ queued_at (queued self0) q b tx ∧
        (waits (with_queued self0 q) self' ∨ (∃ t, advances (with_queued self0 q) self' t) ∨ ∃ k t, discards (with_queued self0 q) self' k t)
  end.
Proof.
  intros Hok Hr Hpos.
  assert (∃ self0, after_reset self reset = Ok self0 ∧ verifier_ok self0 ∧ checkpoint_list self0 = checkpoint_list self) as (self0 & H0 & Hok0 & Hl0).
  { destruct reset as [tip|]; [|by exists self]. destruct (reset_progress_spec self tip Hok (Hr tip eq_refl)) as (s & ? & ? & _ & ?). by exists s. }
  exists self0. split_and!; [done|done|done|]. unfold call. fold (after_reset self reset). rewrite H0, Ok_bind. unfold previous_checkpoint_height.
  destruct (is_final_checkpoint (verifier_progress self0)) eqn:Hfin; [done|].
  assert (Hf : verifier_progress self0 ≠ FinalCheckpoint) by (by intros Heq; rewrite Heq in Hfin).
  pose proof (queue_block_spec self0 block tx Hok0 Hf Hpos) as Hq. destruct (queue_block network self0 block tx) as [[[self1 b] sends]|e|]; [|done|done].
  destruct Hq as (Hcb & q' & -> & Hqok & Hat & He). assert (Hok1 : verifier_ok (with_queued self0 q')) by (destruct Hok0; by split).
  destruct (process_spec (with_queued self0 q') Hok1) as (self' & sends' & -> & Hok' & Hl' & Hv & Hoks & Hout). rewrite Ok_bind.
  split_and!; [done|done|done|by rewrite Hl'|done| |exists q'; by split_and!].
  unfold oks. rewrite omap_app. fold (oks sends) (oks sends'). rewrite (oks_errors sends He), Hoks. done.
Qed.

(** ** Reachable states *)

Inductive reachable (l : list (Z * list Z)) : CheckpointVerifier → Prop :=
| reach_start tip self : tip_ok tip → from_checkpoint_list l tip = Ok self → reachable l self
| reach_call self reset block tx self' r sends : reachable l self → (∀ tip, reset = Some tip → tip_ok tip) →
    parsed_block block → call network self reset block tx = Ok (self', r, sends) → reachable l self'.

Lemma verifier_reachable l self : checkpoints_ok l → reachable l self → verifier_ok self ∧ checkpoint_list self = l.
Proof.
  intros Hl. induction 1 as [tip self Ht Hs|self reset block tx self' r sends _ [IH IHl] Hr Hpos Hc].
  - destruct (from_checkpoint_list_spec l tip Hl Ht) as (s & Hs' & Hok & _ & _ & Hl'). rewrite Hs in Hs'. injection Hs' as <-. done.
  - destruct (call_spec self reset block tx IH Hr Hpos) as (self0 & _ & Hok0 & Hl0 & Hm). rewrite Hc in Hm. destruct r.
    + destruct Hm as [-> _]. split; [done|]. by rewrite Hl0.
    + destruct Hm as (_ & _ & Hok' & Hl' & _). split; [done|]. by rewrite Hl'.
Qed.

(** C8: the checkpoint verifier keeps its invariant and does not panic. In every state that requests, in any
    order and with any blocks, and resets to tips of the chain can reach, the queue holds at most four blocks with distinct hashes at each height,
    and the progress is a tip or a checkpoint below the last one; no assertion, [expect] or [unreachable] of the verifier fails, so that a
    call panics only when the checks of the block do; and the blocks that a call verifies are exactly the blocks of the chain from the
    last verified one up to the new progress, in order. *)
Theorem checkpoint_calls_safe l self reset block tx : checkpoints_ok l → reachable l self → (∀ tip, reset = Some tip → tip_ok tip) →
  parsed_block block → verifier_ok self ∧ ∃ self0, after_reset self reset = Ok self0 ∧
  match call network self reset block tx with
  | Panic => check_block network self0 block = Panic
  | Err _ => False
  | Ok (self', _, sends) => verifier_ok self' ∧ verified self0 ≤ verified self' ∧
      oks sends = chain <$> seqZ (verified self0 + 1) (verified self' - verified self0)
  end.
Proof.
  intros Hl Hreach Hr Hpos. destruct (verifier_reachable l self Hl Hreach) as [Hok _]. split; [done|].
  destruct (call_spec self reset block tx Hok Hr Hpos) as (self0 & H0 & Hok0 & _ & Hm). exists self0. split; [done|].
  destruct (call network self reset block tx) as [[[self' [e|b]] sends]|e|]; [| |done|done].
  - destruct Hm as [-> ->]. rewrite Z.sub_diag, seqZ_nil by lia. done.
  - destruct Hm as (_ & _ & ? & _ & ? & ? & _). done.
Qed.

(** ** Runs *)

(** A run of requests without resets, and the results that it sends. *)
Inductive runs : CheckpointVerifier → Sends → CheckpointVerifier → Prop :=
| runs_none self : runs self [] self
| runs_call self sends self1 block tx self2 r sends' : runs self sends self1 → parsed_block block →
    call network self1 None block tx = Ok (self2, r, sends') → runs self (sends ++ sends') self2.

Lemma runs_spec self sends self' : verifier_ok self → runs self sends self' → verifier_ok self' ∧ verified self ≤ verified self' ∧
  oks sends = chain <$> seqZ (verified self + 1) (verified self' - verified self).
Proof.
  intros Hok. induction 1 as [self|self sends self1 block tx self2 r sends' _ IH Hpos Hc].
  { rewrite Z.sub_diag, seqZ_nil by lia. done. }
  destruct (IH Hok) as (Hok1 & Hle & Ho). destruct (call_spec self1 None block tx Hok1) as (self0 & [= <-] & _ & _ & Hm); [done|done|]. rewrite Hc in Hm.
  unfold oks. rewrite omap_app. fold (oks sends) (oks sends'). rewrite Ho. destruct r as [e|b].
  - destruct Hm as [-> ->]. cbn. by rewrite app_nil_r.
  - destruct Hm as (_ & _ & Hok2 & _ & Hle2 & Ho2 & _). rewrite Ho2, <- fmap_app. split_and!; [done|lia|]. f_equal.
    replace (verified self1 + 1) with (verified self + 1 + (verified self1 - verified self)) by lia. rewrite <- seqZ_app by lia. f_equal. lia.
Qed.

(** A verifier that starts without a tip, over requests without resets: whatever blocks arrive, and in whatever order, the blocks that it has
    accepted are exactly the blocks of the chain from the genesis block up to its progress, in order. *)
Theorem checkpoint_run_chain l self sends self' : checkpoints_ok l → from_checkpoint_list l None = Ok self → runs self sends self' →
  oks sends = chain <$> seqZ 0 (verified self' + 1).
Proof.
  intros Hl Hs Hr. destruct (from_checkpoint_list_spec l None Hl I) as (s & Hs' & Hok & Hv & _). rewrite Hs in Hs'. injection Hs' as <-.
  destruct (runs_spec self sends self' Hok Hr) as (_ & _ & ->). rewrite (Hv eq_refl). f_equal.
Qed.

(** ** Liveness *)

(** The heights above a checkpoint that have queued blocks, but not the block of the chain. *)
Definition bad_heights (q : list (Z * list QueuedBlock)) (cp : Z) : list Z := filter (λ h, cp < h ∧ chain_block q h = None) q.*1.
Definition chain_queued (self : CheckpointVerifier) (cp : Z) : Prop := ∀ x, verified self < x ≤ cp → is_Some (chain_block (queued self) x).

Lemma bad_heights_elem q cp h : bt_ok q → h ∈ bad_heights q cp ↔ cp < h ∧ chain_block q h = None ∧ is_Some (bt_get h q).
Proof. intros Hq. unfold bad_heights. rewrite list_elem_of_filter, bt_keys by done. naive_solver. Qed.
Lemma bad_heights_NoDup q cp : bt_ok q → NoDup (bad_heights q cp).
Proof. intros Hq. apply NoDup_filter. by apply bt_ok_NoDup. Qed.

Lemma chain_block_is_Some q h : is_Some (chain_block q h) ↔ ∃ l qb, bt_get h q = Some l ∧ qb ∈ l ∧ block_hash qb = chain h.
Proof.
  unfold chain_block. destruct (bt_get h q) as [l|]; cbn; [|split; [by intros [? ?]|by intros (? & ? & ? & _)]]. split.
  - intros [qb Hqb]. apply head_Some_elem_of, list_elem_of_filter in Hqb as [? ?]. by exists l, qb.
  - intros (? & qb & [= <-] & Hin & Hh). destruct (filter (λ qb, block_hash qb = chain h) l) as [|x k] eqn:Hf; [|by eexists].
    assert (Hin' : qb ∈ filter (λ qb, block_hash qb = chain h) l) by (by apply list_elem_of_filter). rewrite Hf in Hin'. by apply elem_of_nil in Hin'.
Qed.

(** Queueing a block keeps the blocks of the chain, and a block of the chain makes no height bad. *)
Lemma queued_at_chain q q' b tx h : queued_at q q' b tx → is_Some (chain_block q h) → is_Some (chain_block q' h).
Proof.
  intros [Hother (l1 & l2 & Hat & Hold)] Hc. destruct (decide (h = sv_height b)) as [->|Hne].
  2:{ unfold chain_block. by rewrite (Hother h Hne). }
  apply chain_block_is_Some in Hc as (l & qb & Hl & Hin & Hh). apply chain_block_is_Some.
  destruct (decide (sv_hash b = chain (sv_height b))) as [Hb|Hb].
  - exists (l1 ++ mkQueued b tx :: l2), (mkQueued b tx). split_and!; [done|apply elem_of_app; right; left|done].
  - exists (l1 ++ mkQueued b tx :: l2), qb. split_and!; [done| |done]. rewrite Hl in Hold. specialize (Hold qb Hin).
    rewrite Hh in Hold. specialize (Hold (not_eq_sym Hb)). rewrite elem_of_app, elem_of_cons. rewrite elem_of_app in Hold. naive_solver.
Qed.
Lemma queued_at_bad q q' b tx cp : bt_ok q → bt_ok q' → queued_at q q' b tx → sv_hash b = chain (sv_height b) →
  (length (bad_heights q' cp) ≤ length (bad_heights q cp))%nat.
Proof.
  intros Hq Hq' Hat Hb. apply submseteq_length, NoDup_submseteq; [by apply bad_heights_NoDup|].
  intros h (Hlt & Hn & Hs)%bad_heights_elem; [|done]. apply bad_heights_elem; [done|]. destruct Hat as [Hother (l1 & l2 & Hat & _)].
  destruct (decide (h = sv_height b)) as [->|Hne].
  - assert (is_Some (chain_block q' (sv_height b))) as [? ?]; [|congruence]. apply chain_block_is_Some.
    exists (l1 ++ mkQueued b tx :: l2), (mkQueued b tx). split_and!; [done|apply elem_of_app; right; left|done].
  - unfold chain_block in *. rewrite (Hother h Hne) in Hn, Hs. done.
Qed.

(** Any other block makes at most its own height bad. *)
Lemma queued_at_bad_other q q' b tx cp : bt_ok q → bt_ok q' → queued_at q q' b tx → (length (bad_heights q' cp) ≤ S (length (bad_heights q cp)))%nat.
Proof.
  intros Hq Hq' [Hother _]. change (S (length (bad_heights q cp))) with (length (sv_height b :: bad_heights q cp)).
  apply submseteq_length, NoDup_submseteq; [by apply bad_heights_NoDup|]. intros h (Hlt & Hn & Hs)%bad_heights_elem; [|done].
  destruct (decide (h = sv_height b)) as [->|Hne]; [left|right]. apply bad_heights_elem; [done|]. unfold chain_block in *. rewrite (Hother h Hne) in Hn, Hs. done.
Qed.

(** A discarded height was bad, and is not any more. *)
Lemma discards_bad self self' k t cp : verifier_ok self → bt_ok (queued self') → discards self self' k t → chain_queued self cp →
  cp < k ∧ (length (bad_heights (queued self') cp) < length (bad_heights (queued self) cp))%nat ∧ ∀ x, x ≤ cp → bt_get x (queued self') = bt_get x (queued self).
Proof.
  intros Hok Hq' (Hp & Hk & Hn & Hsk & Hab & Hx) Hc. pose proof Hok as [_ [Hq _] _]. assert (Hcp : cp < k).
  { destruct (Z.le_gt_cases k cp); [|lia]. destruct (Hc k) as [qb Hqb]; [lia|]. congruence. }
  split_and!; [done| |].
  - assert (Hsub : k :: bad_heights (queued self') cp ⊆+ bad_heights (queued self) cp); [|by apply submseteq_length in Hsub].
    apply NoDup_submseteq.
    + constructor; [|by apply bad_heights_NoDup]. intros (_ & _ & [l Hl])%bad_heights_elem; [|done]. rewrite Hx, Z.eqb_refl in Hl.
      by replace ((k <? k) && (k <=? t)) with false in Hl by lia.
    + intros h [->|(Hlt & Hnh & Hs)%bad_heights_elem]%elem_of_cons; [..|done]; apply bad_heights_elem; try done.
      * destruct ((k <? h) && (h <=? t)) eqn:Hr.
        -- destruct (Hab h) as [qb Hqb]; [lia|]. destruct (chain_block_spec _ _ _ (vo_queue _ Hok) Hqb) as (Hh & _).
           assert (is_Some (chain_block (queued self') h)) as [? ?]; [|congruence]. apply chain_block_is_Some. exists [qb], qb.
           rewrite Hx, Hr, Hqb. split_and!; [done|left|done].
        -- unfold chain_block in Hnh. rewrite Hx, Hr in Hs. rewrite Hx, Hr in Hnh. destruct (h =? k); [by destruct Hs|]. done.
  - intros x Hle. rewrite Hx. replace ((k <? x) && (x <=? t)) with false by lia. by rewrite (proj2 (Z.eqb_neq _ _)) by lia.
Qed.

(** A request queues a block of the chain. *)
Definition queues_chain_block (r : VerifyCheckpointError + SemanticallyVerifiedBlock) : bool :=
  match r with inr b => bool_decide (sv_hash b = chain (sv_height b)) | inl _ => false end.

(** Requests without resets, with any blocks, and the number of them that queue a block of the chain. *)
Inductive chain_calls : nat → CheckpointVerifier → CheckpointVerifier → Prop :=
| calls_none self : chain_calls 0 self self
| calls_block n self block tx r sends self1 self2 : parsed_block block → call network self None block tx = Ok (self1, r, sends) → chain_calls n self1 self2 →
    chain_calls (if queues_chain_block r then S n else n) self self2.

Lemma call_steps self block tx r sends self' : verifier_ok self → parsed_block block → call network self None block tx = Ok (self', r, sends) →
  verifier_ok self' ∧ checkpoint_list self' = checkpoint_list self ∧ verified self ≤ verified self'.
Proof.
  intros Hok Hpos Hcall. destruct (call_spec self None block tx Hok) as (self0 & [= <-] & _ & _ & Hm); [done|done|]. rewrite Hcall in Hm.
  destruct r as [e|b]; [by destruct Hm as [-> _]|]. by destruct Hm as (_ & _ & ? & ? & ? & _).
Qed.

Lemma chain_calls_ok n self self' : verifier_ok self → chain_calls n self self' → verified self ≤ verified self'.
Proof.
  intros Hok Hc. revert Hok. induction Hc as [self|n self block tx r sends self1 self2 Hpos Hcall _ IH]; intros Hok; [done|].
  destruct (call_steps self block tx r sends self1 Hok Hpos Hcall) as (Hok1 & _ & Hle). specialize (IH Hok1). lia.
Qed.

(** A request for a block of the chain makes progress: it reaches the checkpoint, or there are fewer bad heights. Other requests do no harm. *)
Lemma call_progress self block tx r sends self' cp : verifier_ok self → is_Some (hash (checkpoint_list self) cp) → verified self < cp → chain_queued self cp →
  parsed_block block → call network self None block tx = Ok (self', r, sends) →
  cp ≤ verified self' ∨ verified self' = verified self ∧ chain_queued self' cp ∧
    (length (bad_heights (queued self') cp) + Nat.b2n (queues_chain_block r) ≤ length (bad_heights (queued self) cp))%nat.
Proof.
  intros Hok Hcp Hv Hc Hpos Hcall. destruct (call_spec self None block tx Hok) as (self0 & [= <-] & _ & _ & Hm); [done|done|]. rewrite Hcall in Hm.
  destruct r as [e|b]; [destruct Hm as [-> _]; right; split_and!; [done|done|cbn; lia]|].
  destruct Hm as (Hf & _ & Hok' & Hl' & _ & _ & q & Hq & Hat & Hout).
  set (self1 := with_queued self q) in *. assert (Hok1 : verifier_ok self1) by (destruct Hok; by split).
  assert (Hc1 : chain_queued self1 cp) by (intros x Hx; eapply queued_at_chain; [exact Hat|by apply Hc]).
  assert (Hct : contiguous self1 cp).
  { intros x Hx. destruct (Hc1 x Hx) as [qb Hqb]. destruct (chain_block_spec _ _ _ Hq Hqb) as (_ & _ & _ & l & Hl & _). by exists l. }
  destruct Hout as [[_ Hno]|[(t & Hvt & Hv' & _ & Hmax & _)|(k & t & Hd)]].
  - exfalso. by apply (Hno Hf cp Hcp Hv).
  - left. rewrite Hv'. by apply Hmax.
  - right. destruct (discards_bad self1 self' k t cp Hok1 (proj1 (vo_queue _ Hok')) Hd Hc1) as (Hk & Hlt & Hsame).
    assert (Hv' : verified self' = verified self) by (unfold verified; by rewrite (proj1 Hd), Hl'). split_and!; [done| |].
    + intros x Hx. rewrite Hv' in Hx. unfold chain_block. rewrite Hsame by lia. by apply Hc1.
    + cbn [queued with_queued self1] in Hlt. cbn [queues_chain_block]. pose proof (vo_queue _ Hok) as [Hq0 _]. case_bool_decide as Hb; cbn [Nat.b2n].
      * pose proof (queued_at_bad (queued self) q b tx cp Hq0 (proj1 Hq) Hat Hb). lia.
      * pose proof (queued_at_bad_other (queued self) q b tx cp Hq0 (proj1 Hq) Hat). lia.
Qed.

(** C10: the checkpoint verifier makes progress. Suppose the queue of a reachable state holds the blocks of the chain up to a checkpoint. Then after any requests without
    resets, in any order, with any blocks and any results, the verifier has reached the checkpoint as soon as the number of the requests that
    queued a block of the chain is above the number of heights above the checkpoint that had queued blocks, but not the block of the chain. *)
Theorem checkpoint_liveness l n self self' cp : checkpoints_ok l → reachable l self → is_Some (hash l cp) → verified self < cp → chain_queued self cp →
  chain_calls n self self' → (length (bad_heights (queued self) cp) < n)%nat → cp ≤ verified self'.
Proof.
  intros Hl Hreach. destruct (verifier_reachable l self Hl Hreach) as [Hok Heq]. rewrite <- Heq. clear Hreach Heq. intros Hcp Hv Hc Hcalls Hn.
  induction Hcalls as [self|n self block tx r sends self1 self2 Hpos Hcall Hcalls IH]; [lia|].
  destruct (call_steps self block tx r sends self1 Hok Hpos Hcall) as (Hok1 & Hl1 & _).
  destruct (call_progress self block tx r sends self1 cp Hok Hcp Hv Hc Hpos Hcall) as [Hdone|(Hv1 & Hc1 & Hlt)].
  - pose proof (chain_calls_ok _ _ _ Hok1 Hcalls). lia.
  - apply IH; [done|by rewrite Hl1|lia|done|]. destruct (queues_chain_block r); cbn in Hlt; lia.
Qed.
End Chain.

(** ** The two verifiers agree *)

Section Agree.
Context `{LT : !Literals, CL : !CurveLib, LZ : !LibRustZcash, SL : !SighashLib, HF : !HashFns, ZS : !ScriptLib, VL : !VerifierLib,
  BE : !BlockEnv}.

Lemma parse_disbursements_amounts l ds : parse_disbursements l = Ok ds → ds.*2 = l.*2.
Proof.
  unfold parse_disbursements. intros H%collect_Ok. revert ds H. induction l as [|[s a] l IH]; intros [|d ds] H; try done.
  cbn in H. injection H as Hd H. cbn. rewrite (IH ds H). f_equal. destruct (parse_address s); [|done]. by injection Hd as <-.
Qed.
Lemma paid_amounts ds : paid ds = sum_Z (zatoshis <$> ds.*2).
Proof. unfold paid. by rewrite <- list_fmap_compose. Qed.
Lemma sum_amounts (amounts : list (Amount NonNegative)) (a b : Amount NonNegative) :
  foldM (λ a b, expect_ok (F := Empty_set) (Amount.add a b)) a amounts = Ok b → zatoshis b = zatoshis a + sum_Z (zatoshis <$> amounts).
Proof.
  revert a. induction amounts as [|x l IH]; intros a; [intros [= <-]; cbn; lia|]. intros (c & Hc & H%IH)%bind_Ok.
  destruct (Amount.add a x) as [y| |] eqn:Ha; [|done|done]. injection Hc as ->. apply amount_add_exact in Ha. cbn. lia.
Qed.

(** The total of the disbursements is the sum of the disbursements. *)
Lemma lockbox_total network height ds total : lockbox_disbursements network height = Ok ds → lockbox_disbursement_total_amount network height = Ok total →
  zatoshis total = paid ds.
Proof.
  assert (Hten : ∀ addr l t, NU6_1_LOCKBOX_DISBURSEMENTS addr = Ok l → new_from_zec EXPECTED_NU6_1_LOCKBOX_DISBURSEMENTS_TOTAL = Ok t →
    zatoshis t = sum_Z (zatoshis <$> l.*2)).
  { intros addr l t Hl Ht. assert (l = replicate 10 (addr, mkAmount 787500000000)) as -> by (by injection Hl).
    assert (t = mkAmount 7875000000000) as -> by (by injection Ht). done. }
  unfold lockbox_disbursements, lockbox_disbursement_total_amount. case_bool_decide as Hact; cbn [negb].
  2:{ intros [= <-]. rewrite Amount.zero_spec. by intros [= <-]. }
  destruct network as [|params].
  - intros (l & Hl & Hds%parse_disbursements_amounts)%bind_Ok Ht. rewrite paid_amounts, Hds. by eapply Hten.
  - intros (d & Hd & H)%bind_Ok (d' & Hd' & Ht)%bind_Ok. rewrite Hd in Hd'. injection Hd' as <-. destruct d.
    + apply bind_Ok in H as (l & Hl & Hds%parse_disbursements_amounts). rewrite paid_amounts, Hds. by eapply Hten.
    + apply bind_Ok in Ht as (ds' & Hds' & Ht). rewrite H in Hds'. injection Hds' as <-. rewrite paid_amounts.
      destruct ds.*2 as [|a l]; [rewrite Amount.zero_spec in Ht; by injection Ht as <-|]. by apply sum_amounts in Ht.
Qed.

Lemma check_block_deferred network self block b : check_block network self block = Ok b → ∃ subsidy values total,
  block_subsidy (sv_height b) network = Ok subsidy ∧ funding_stream_values (sv_height b) network subsidy = Ok values ∧
  lockbox_disbursement_total_amount network (sv_height b) = Ok total ∧
  with_hash block (sv_hash b) (Amount.checked_sub (default (mkAmount 0) (values !! Deferred)) total) = Ok b.
Proof.
  intros H. pose proof (check_block_Ok network self block b H) as (_ & Hh & Hcb & _). unfold check_block in H. rewrite Hh in H. cbn [lift] in H.
  rewrite Ok_bind, Hcb in H. cbn [ok_or] in H. rewrite Ok_bind in H.
  apply bind_Ok in H as ([] & _ & ([] & _ & (s & Hs%map_err_Ok & (fs & Hfs%map_err_Ok & H)%bind_Ok)%bind_Ok)%bind_Ok).
  rewrite Amount.zero_spec, Ok_bind in H. apply bind_Ok in H as (total & Ht%lift_Ok & (v & Hv%lift_Ok & ([] & _ & [= <-])%bind_Ok)%bind_Ok).
  exists s, fs, total. split_and!; [done|done|done|]. rewrite <- Hv. f_equal. by destruct (Amount.checked_sub _ _).
Qed.

(** The change of the deferred pool is the same, when the NU6.1 activation block has a subsidy. *)
Lemma deferred_agrees network height subsidy values total outs change : activations_ok (activation_list network) → 0 ≤ height → payments_ok network height →
  block_subsidy height network = Ok subsidy → funding_stream_values height network subsidy = Ok values →
  lockbox_disbursement_total_amount network height = Ok total → (Some height = activation_height Nu6_1 network → zatoshis subsidy ≠ 0) →
  (if is_zero subsidy then change = mkAmount 0 else subsidy_paid network height subsidy outs change) →
  Amount.checked_sub (default (mkAmount 0) (values !! Deferred)) total = Some change.
Proof.
  intros Hact Hh Hp Hs Hv Ht Hz Hch. destruct (payments_lockbox _ _ Hp) as (ds & Hds & Hdok). pose proof (lockbox_total _ _ _ _ Hds Ht) as Htot.
  pose proof (subsidy_change_range network height subsidy outs change Hp Hs Hch) as Hr. pose proof (payments_streams _ _ Hp subsidy values Hs Hv) as Hall.
  set (df := default (mkAmount 0) (values !! Deferred)).
  assert (Hdf : 0 ≤ zatoshis df ≤ MAX_MONEY).
  { unfold df. destruct (values !! Deferred) as [v|] eqn:Hd; [apply Hall in Hd; by apply contains_spec in Hd|cbn; unfold MAX_MONEY, COIN; lia]. }
  assert (Hval : zatoshis change = zatoshis df - paid ds).
  { assert (Hoff : Some height ≠ activation_height Nu6_1 network → ds = []).
    { intros Hn. unfold lockbox_disbursements in Hds. rewrite bool_decide_false in Hds by done. by injection Hds as <-. }
    destruct (is_zero subsidy) eqn:Hzs.
    - subst change. unfold is_zero in Hzs. apply Z.eqb_eq in Hzs. rewrite Hoff by (intros Heq; by apply Hz).
      unfold df. unfold funding_stream_values, is_zero in Hv. rewrite Hzs in Hv. injection Hv as <-. done.
    - destruct Hch as (nu & Hnu & Hch). destruct (nu_ltb nu Canopy) eqn:Hlt.
      + destruct Hch as [-> _]. assert (Hn : Some height ≠ activation_height Nu6_1 network).
        { intros Heq. assert (H : nu_index Nu6_1 <= nu_index nu) by (apply (active_iff network height nu Nu6_1 Hact Hh Hnu); exists height; split; [done|lia]).
          unfold nu_ltb in Hlt. cbn in H, Hlt. lia. }
        rewrite (Hoff Hn). unfold df. unfold funding_stream_values in Hv. rewrite Hzs, Hnu in Hv. cbn [lift] in Hv. rewrite Ok_bind in Hv.
        replace (nu_leb Canopy nu) with false in Hv by (unfold nu_leb, nu_ltb in *; lia). injection Hv as <-. done.
      + destruct Hch as (values' & ds' & Hv' & Hds' & _ & _ & Hz'). rewrite Hv in Hv'. injection Hv' as <-. rewrite Hds in Hds'. injection Hds' as <-.
        rewrite Hz'. unfold df. by destruct (values !! Deferred). }
  pose proof (paid_nonneg ds Hdok). unfold in_range in Hr. unfold Amount.checked_sub, Prelude.checked_sub, try_from. rewrite fits_I64_small by lia. cbn.
  rewrite (proj2 (try_from_allowed _ (mkAmount (zatoshis df - zatoshis total)))) by (split; [unfold in_range; lia|done]).
  f_equal. apply amount_eq. cbn. lia.
Qed.

(** The outputs of a block do not depend on the type of the errors. *)
Lemma transaction_outputs_error {E F} i outs h j height l : transaction_outputs_from (E := E) i outs h j height = Ok l →
  transaction_outputs_from (E := F) i outs h j height = Ok l.
Proof.
  revert i l. induction outs as [|o outs IH]; intros i l; [by intros [= <-]|]. cbn. destruct (try_from U32 i); cbn; [|done].
  destruct (transaction_outputs_from (E := E) (i + 1) outs h j height) as [r| |] eqn:Hr; cbn; [|done|done]. intros [= <-]. by rewrite (IH _ _ Hr).
Qed.
Lemma new_ordered_outputs_error {E F} block hashes m : new_ordered_outputs (E := E) block hashes = Ok m → new_ordered_outputs (E := F) block hashes = Ok m.
Proof.
  unfold new_ordered_outputs. destruct (coinbase_height block) as [h|]; cbn [expect]; [rewrite !Ok_bind|done]. unfold new_ordered_outputs_with_height.
  generalize (zip (transactions block) hashes) (∅ : gmap OutPoint OrderedUtxo) 0. intros l. induction l as [|[t x] l IH]; intros acc i; [by intros [= <-]|].
  cbn [ordered_outputs_from]. intros (outs & (es & Hes & [= <-])%bind_Ok & H)%bind_Ok. unfold new_transaction_ordered_outputs.
  rewrite (transaction_outputs_error _ _ _ _ _ _ Hes), !Ok_bind. by apply IH.
Qed.

(** C21: a block that both verifiers accept is submitted to the state in the same form, with the same hashes,
    outputs and change of the deferred pool, so that it does not matter for the chain value pools whether a block was checkpointed. This is for
    networks on which the subsidy of the NU6.1 activation block is not zero. *)
Theorem verifiers_agree network order now known_block tv self request b sv : reorders_results order → fees_ok tv →
  activations_ok (activation_list network) → Forall tx_ok (transactions (request_block request)) →
  (∀ height, coinbase_height (request_block request) = Some height → 0 ≤ height ∧ payments_ok network height) →
  check_block network self (request_block request) = Ok b → prepare_block order network now known_block tv request = Ok sv →
  (∀ subsidy, block_subsidy (sv_height sv) network = Ok subsidy → Some (sv_height sv) = activation_height Nu6_1 network → zatoshis subsidy ≠ 0) →
  b = sv.
Proof.
  intros Ho Hf Hact Ht Hp Hc Hprep Hz. pose proof (check_block_Ok network self _ b Hc) as (Hb & Hbh & Hbcb & _).
  destruct (check_block_deferred network self _ b Hc) as (subsidy & values & total & Hs & Hv & Htot & Hw).
  apply prepare_block_spec in Hprep as [rsps [Hsb Hsh _ [Hscb _] _ Hhs _ _ Hout _ _ Hpay]]; [|done|done|done|by intros h Hh; apply Hp].
  destruct Hpay as (cb & rest & nu & subsidy' & change & _ & _ & _ & _ & _ & _ & Hs' & Hd & Hch & _).
  assert (Hh : sv_height b = sv_height sv) by congruence. rewrite Hh in Hs, Hv, Htot. rewrite Hs in Hs'. injection Hs' as <-.
  destruct (Hp _ Hscb) as [Hpos Hpok].
  rewrite (deferred_agrees network (sv_height sv) subsidy values total (outputs cb) change) in Hw; [|done|done|done|done|done|done|by apply Hz|done].
  unfold with_hash in Hw. rewrite Hscb in Hw. cbn [expect] in Hw. rewrite Ok_bind, Hhs, Ok_bind in Hw.
  rewrite (new_ordered_outputs_error _ _ _ Hout), Ok_bind in Hw.
  assert (Hhash : sv_hash b = sv_hash sv) by congruence. rewrite Hhash in Hw. injection Hw as <-. destruct sv. cbn in *. by subst.
Qed.
End Agree.

(** ** A chain whose hashes count *)

#[local] Existing Instance sample_literals.
#[local] Existing Instance sample_curves.
#[local] Existing Instance sample_lib.
#[local] Existing Instance sample_sighash.
#[local] Existing Instance sample_script.
#[local] Existing Instance sample_verifiers.
#[local] Existing Instance sample_block_env.

(** The hash of a header is the number of its parent and one more. *)
Definition counting_hashes : HashFns := {|
  sha256 b := if Nat.eqb (length b) 32 then b else le_bytes 32 (of_le_bytes (take 32 (drop 4 b)) + 1);
  blake2b_256 _ b := take 32 b |}.
#[local] Existing Instance counting_hashes.
Definition counting_chain (h : Height) : Hash := le_bytes 32 (h + 1).
Lemma counting_genesis : counting_chain (-1) = GENESIS_PREVIOUS_BLOCK_HASH.
Proof. reflexivity. Qed.

Lemma counting_links hdr h : header_ok hdr → 0 ≤ h ≤ MAX → header_hash hdr = Ok (counting_chain h) → previous_block_hash hdr = counting_chain (h - 1).
Proof.
  intros Hok Hh Hash. destruct (header_serialize_spec hdr Hok) as (enc & _ & _ & _ & Hs). unfold header_hash in Hash. rewrite Hs in Hash. cbn [expect_ok] in Hash.
  rewrite Ok_bind in Hash. destruct Hok as (_ & [Hpb Hpl] & [_ Hml] & _).
  set (rest := merkle_root hdr ++ commitment_bytes hdr ++ le_bytes 4 (time hdr) ++ le_bytes 4 (difficulty_threshold hdr) ++ nonce hdr ++ enc) in *.
  assert (Hsha : sha256 (le_bytes 4 (header_version hdr) ++ previous_block_hash hdr ++ rest) = le_bytes 32 (of_le_bytes (previous_block_hash hdr) + 1)).
  { unfold sha256, counting_hashes. rewrite (proj2 (Nat.eqb_neq _ _)).
    - rewrite (drop_app_length' _ _ 4) by done. by rewrite take_app_length' by done.
    - rewrite !length_app, length_le_bytes, Hpl. lia. }
  unfold sha256d in Hash. rewrite Hsha in Hash.
  assert (Hid : sha256 (le_bytes 32 (of_le_bytes (previous_block_hash hdr) + 1)) = le_bytes 32 (of_le_bytes (previous_block_hash hdr) + 1)).
  { unfold sha256, counting_hashes. by rewrite length_le_bytes, Nat.eqb_refl. }
  rewrite Hid in Hash. apply (f_equal (ok_value [])) in Hash. cbn [ok_value] in Hash. apply (f_equal of_le_bytes) in Hash. unfold counting_chain in *.
  rewrite !of_le_bytes_le_bytes in Hash. pose proof (of_le_bytes_range _ Hpb) as Hr. rewrite Hpl in Hr. rewrite MAX_eq in Hh.
  assert (Hp : of_le_bytes (previous_block_hash hdr) = h).
  { change (256 ^ Z.of_nat 32) with (2 ^ 256) in *. rewrite (Z.mod_small (h + 1)) in Hash by lia.
    destruct (decide (of_le_bytes (previous_block_hash hdr) = 2 ^ 256 - 1)) as [Heq|]; [|rewrite Z.mod_small in Hash by lia; lia].
    rewrite Heq in Hash. replace (2 ^ 256 - 1 + 1) with (2 ^ 256) in Hash by lia. rewrite Z.mod_same in Hash by lia. lia. }
  rewrite <- (le_bytes_of_le_bytes _ Hpb), Hpl, Hp. by replace (h - 1 + 1) with h by lia.
Qed.

(** A block of the chain with some data in its coinbase input, and the checkpoints at four heights. *)
Definition counting_block (h parent : Height) (data : list Z) : Block :=
  let tx := V1 [Coinbase h data 0] [mkOutput (mkAmount 5) [1]] (LockHeight 0) in
  mkBlock (mkHeader 4 (counting_chain parent) (ok_value [] (tx_hash tx)) (replicate 32 0) 1500000000 520617983 (replicate 32 0) (Regtest_solution (replicate 36 0))) [tx].
Definition counting_checkpoints : list (Z * list Z) := (λ h, (h, counting_chain h)) <$> [0; 12; 14].
Definition start_at (tip : Height) : CheckpointVerifier :=
  mkVerifier counting_checkpoints (Some (counting_chain tip)) [] (InitialTip tip).
Definition next (self : CheckpointVerifier) (block : Block) : CheckpointVerifier * (VerifyCheckpointError + SemanticallyVerifiedBlock) * Sends :=
  ok_value (self, inl Finished, []) (call Mainnet self None block 0).
Definition accepted_block (r : VerifyCheckpointError + SemanticallyVerifiedBlock) : SemanticallyVerifiedBlock :=
  match r with inr b => b | inl _ => mkSemantic (counting_block 0 0 []) [] 0 ∅ [] None end.
Definition accepts (self : CheckpointVerifier) (block : Block) : bool :=
  match call Mainnet self None block 0 with Ok (_, inr _, _) => true | _ => false end.
Lemma accepts_call self block : accepts self block = true →
  call Mainnet self None block 0 = Ok ((next self block).1.1, inr (accepted_block (next self block).1.2), (next self block).2).
Proof. unfold accepts, next. by destruct (call _ _ _ _ _) as [[[s [e|b]] sends]| |]. Qed.

Lemma counting_parsed h parent data (header := header (counting_block h parent data)) : 0 ≤ h →
  forallb (λ b, (0 <=? b) && (b <? 256)) (ok_value [] (Header_serialize header)) = true →
  Header_deserialize (ok_value [] (Header_serialize header)) = Ok (header, []) → parsed_block (counting_block h parent data).
Proof.
  intros Hh Hb Hd. split; [|by intros h' [= <-]]. apply bytes_ok_forallb in Hb.
  exact (proj1 (codec_canonical (T := Header) _ header [] Hb Hd)).
Qed.

Lemma counting_checkpoints_ok : checkpoints_ok counting_chain counting_checkpoints.
Proof.
  split_and!; [|by eexists|].
  - repeat constructor.
  - repeat constructor; vm_compute; discriminate.
Qed.
Lemma counting_tip h : 0 ≤ h ≤ MAX → tip_ok counting_chain (Some (h, counting_chain h)).
Proof. done. Qed.
Lemma counting_start : from_checkpoint_list counting_checkpoints (Some (10, counting_chain 10)) = Ok (start_at 10).
Proof. vm_compute. reflexivity. Qed.
Lemma counting_reachable_start : reachable counting_chain Mainnet counting_checkpoints (start_at 10).
Proof. apply (reach_start _ _ _ (Some (10, counting_chain 10))); [apply counting_tip; rewrite MAX_eq; lia|exact counting_start]. Qed.

Ltac parsed := apply counting_parsed; [lia|vm_compute; reflexivity|vm_compute; reflexivity].
Ltac reach s b := refine (reach_call _ _ _ s None b 0 (next s b).1.1 _ (next s b).2 _ _ _ (accepts_call s b _)); [|done|parsed|vm_compute; reflexivity].

(** The last checkpoint, then a wrong block below it, and the blocks up to the first checkpoint. *)
Definition state1 : CheckpointVerifier := (next (start_at 10) (counting_block 14 13 [1; 2])).1.1.
Definition state2 : CheckpointVerifier := (next state1 (counting_block 13 5 [1; 2])).1.1.
Definition state3 : CheckpointVerifier := (next state2 (counting_block 12 11 [1; 2])).1.1.
Definition state4 : CheckpointVerifier := (next state3 (counting_block 11 10 [1; 2])).1.1.
Definition state5 : CheckpointVerifier := (next state4 (counting_block 13 12 [1; 2])).1.1.

Lemma state4_reachable : reachable counting_chain Mainnet counting_checkpoints state4.
Proof.
  reach state3 (counting_block 11 10 [1; 2]). reach state2 (counting_block 12 11 [1; 2]). reach state1 (counting_block 13 5 [1; 2]).
  reach (start_at 10) (counting_block 14 13 [1; 2]). exact counting_reachable_start.
Qed.

Lemma checkpoint_calls_safe_witness : verifier_ok counting_chain state4 ∧ verified (next state4 (counting_block 13 12 [1; 2])).1.1 = 14 ∧
  oks (next state4 (counting_block 13 12 [1; 2])).2 = counting_chain <$> [11; 12; 13; 14].
Proof.
  destruct (checkpoint_calls_safe counting_chain counting_genesis Mainnet counting_links counting_checkpoints state4 None (counting_block 13 12 [1; 2]) 0)
    as [Hok (self0 & H0 & Hm)]; [exact counting_checkpoints_ok|exact state4_reachable|done|parsed|].
  apply (f_equal (ok_value state4)) in H0. cbn [ok_value after_reset] in H0. subst self0.
  split; [exact Hok|]. rewrite (accepts_call state4 (counting_block 13 12 [1; 2])) in Hm by (vm_compute; reflexivity). destruct Hm as (_ & _ & Hoks).
  assert (Hv : verified (next state4 (counting_block 13 12 [1; 2])).1.1 = 14) by (vm_compute; reflexivity). split; [exact Hv|]. rewrite Hoks, Hv.
  vm_compute. reflexivity.
Defined.

Lemma genesis_start : from_checkpoint_list counting_checkpoints None = Ok (mkVerifier counting_checkpoints None [] BeforeGenesis).
Proof. reflexivity. Qed.
Definition genesis_block : Block := counting_block 0 (-1) TransparentCodec.GENESIS_COINBASE_DATA.
Lemma checkpoint_run_chain_sample : oks (next (mkVerifier counting_checkpoints None [] BeforeGenesis) genesis_block).2 = [counting_chain 0].
Proof.
  set (start := mkVerifier counting_checkpoints None [] BeforeGenesis).
  assert (Hr : runs Mainnet start ([] ++ (next start genesis_block).2) (next start genesis_block).1.1).
  { refine (runs_call _ start [] start genesis_block 0 _ _ _ (runs_none _ start) _ (accepts_call start genesis_block _)); [parsed|vm_compute; reflexivity]. }
  pose proof (checkpoint_run_chain counting_chain counting_genesis Mainnet counting_links counting_checkpoints start _ _
    counting_checkpoints_ok genesis_start Hr) as H.
  assert (Hv : verified (next start genesis_block).1.1 = 0) by (vm_compute; reflexivity). rewrite Hv in H. exact H.
Defined.

Lemma checkpoint_liveness_witness : 12 ≤ verified state5.
Proof.
  apply (checkpoint_liveness counting_chain counting_genesis Mainnet counting_links counting_checkpoints 1 state4 state5 12).
  - exact counting_checkpoints_ok.
  - exact state4_reachable.
  - by eexists.
  - vm_compute. reflexivity.
  - intros x Hx. assert (Hv : verified state4 = 10) by (vm_compute; reflexivity). rewrite Hv in Hx.
    assert (x = 11 ∨ x = 12) as [-> | ->] by lia; vm_compute; by eexists.
  - refine (calls_block _ _ 0 state4 (counting_block 13 12 [1; 2]) 0 _ _ _ state5 _ (accepts_call state4 _ _) (calls_none _ _ _)); [parsed|vm_compute; reflexivity..].
  - vm_compute. lia.
Defined.

Lemma sample_not_activation : Some (sv_height sample_prepared_block) ≠ activation_height Nu6_1 Mainnet.
Proof. apply (bool_decide_eq_false_1 (Some (sv_height sample_prepared_block) = activation_height Nu6_1 Mainnet)). vm_compute. reflexivity. Qed.
Lemma verifiers_agree_witness :
  check_block (HF := sample_hashes) Mainnet (mkVerifier [(0, replicate 32 1); (2000000, replicate 32 2)] None [] (InitialTip 1000000)) (request_block sample_proposal) =
  Ok sample_prepared_block.
Proof.
  set (self := mkVerifier [(0, replicate 32 1); (2000000, replicate 32 2)] None [] (InitialTip 1000000)).
  set (b := ok_value (mkSemantic (request_block sample_proposal) [] 0 ∅ [] None) (check_block (HF := sample_hashes) Mainnet self (request_block sample_proposal))).
  assert (Hb : check_block (HF := sample_hashes) Mainnet self (request_block sample_proposal) = Ok b) by (apply ok_value_eq; vm_compute; reflexivity).
  rewrite Hb. apply (f_equal Ok).
  apply (verifiers_agree (HF := sample_hashes) Mainnet (rev (A := _)) 1700000000 (λ _, Ok None) sample_tv self sample_proposal b sample_prepared_block).
  - exact sample_results_reorders.
  - exact sample_fees_ok.
  - exact activations_ok_mainnet.
  - constructor; [apply tx_wire_tx_ok; exact sample_coinbase_ok|constructor].
  - intros h Hh. split; [by injection Hh as <-|by apply sample_heights].
  - exact Hb.
  - exact sample_prepared_Ok.
  - intros s _ Hact. destruct (sample_not_activation Hact).
Defined.
