(* ===== verification/DifficultyAdjustment.v ===== *)
(** * Difficulty adjustment

    [zebra-state/src/service/check/difficulty.rs]: the median time past and the
    expected difficulty threshold of a block, from the thresholds and times of
    the blocks before it.

    Times are seconds since the epoch, as in serialized headers. A [Duration]
    is its number of nanoseconds, since one of the divisions is not exact in
    seconds. The refinement theorem compares the code, which reads a context in
    reverse height order, with the formulas of section 7.7.3 of the protocol
    specification, which index a chain by height. *)

From stdpp Require Import sorting.
From S2P Require Import Prelude BTreeMap Height Difficulty Network Testnet Transaction.

Definition POW_MEDIAN_BLOCK_SPAN : Z := 11.
Definition POW_ADJUSTMENT_BLOCK_SPAN : Z := POW_AVERAGING_WINDOW + POW_MEDIAN_BLOCK_SPAN.
Definition POW_DAMPING_FACTOR : Z := 4.
Definition POW_MAX_ADJUST_UP_PERCENT : Z := 16.
Definition POW_MAX_ADJUST_DOWN_PERCENT : Z := 32.
Definition BLOCK_MAX_TIME_SINCE_MEDIAN : Z := 90 * 60.

(** ** Durations *)

Definition seconds (s : Z) : Z := s * 10 ^ 9.
Definition num_seconds (d : Z) : Z := Z.quot d (10 ^ 9).

(** ** [AdjustedDifficulty] *)

Record AdjustedDifficulty := mkAdjusted {
  candidate_time : Z;
  candidate_height : Height;
  ad_network : Network;
  relevant_difficulty_thresholds : list CompactDifficulty;
  relevant_times : list Z;
}.

(** [BoundedVec<T, 1, POW_ADJUSTMENT_BLOCK_SPAN>::try_from]. *)
Definition bounded_try_from {A} (l : list A) : option (list A) :=
  if (1 <=? Z.of_nat (length l)) && (Z.of_nat (length l) <=? POW_ADJUSTMENT_BLOCK_SPAN) then Some l else None.

Definition new_from_header_time (candidate_header_time : Z) (previous_block_height : Height)
    (network : Network) (context : list (CompactDifficulty * Z)) : Run AdjustedDifficulty :=
  candidate_height ← expect (add_diff previous_block_height 1);
  let context := take (Z.to_nat POW_ADJUSTMENT_BLOCK_SPAN) context in
  thresholds ← expect (bounded_try_from (fst <$> context));
  times ← expect (bounded_try_from (snd <$> context));
  Ok (mkAdjusted candidate_header_time candidate_height network thresholds times).

Definition new_from_block (candidate_block : Block) (network : Network)
    (context : list (CompactDifficulty * Z)) : Run AdjustedDifficulty :=
  candidate_block_height ← expect (coinbase_height candidate_block);
  previous_block_height ← expect (sub_diff candidate_block_height 1);
  new_from_header_time (time (header candidate_block)) previous_block_height network context.

Definition median_time (median_block_span_times : list Z) : Run Z :=
  let median_block_span_times := merge_sort Z.le median_block_span_times in
  let median_idx := Nat.div2 (length median_block_span_times) in
  expect (median_block_span_times !! median_idx).

Definition median_time_past (self : AdjustedDifficulty) : Run Z :=
  median_time (take (Z.to_nat POW_MEDIAN_BLOCK_SPAN) (relevant_times self)).

Definition median_timespan (self : AdjustedDifficulty) : Run Z :=
  newer_median ← median_time_past self;
  older_median ←
    if POW_AVERAGING_WINDOW <? Z.of_nat (length (relevant_times self)) then
      median_time (take (Z.to_nat POW_MEDIAN_BLOCK_SPAN)
                     (drop (Z.to_nat POW_AVERAGING_WINDOW) (relevant_times self)))
    else expect (last (relevant_times self));
  Ok (seconds (newer_median - older_median)).

Definition median_timespan_bounded (self : AdjustedDifficulty) : Run Z :=
  timespan ← averaging_window_timespan_for_height (ad_network self) (candidate_height self);
  let averaging_window_timespan := seconds timespan in
  median_timespan ← median_timespan self;
  let damped_variance := Z.quot (median_timespan - averaging_window_timespan) POW_DAMPING_FACTOR in
  let damped_variance := seconds (num_seconds damped_variance) in
  let median_timespan_damped := averaging_window_timespan + damped_variance in
  let min_median_timespan := Z.quot (averaging_window_timespan * (100 - POW_MAX_ADJUST_UP_PERCENT)) 100 in
  let max_median_timespan := Z.quot (averaging_window_timespan * (100 + POW_MAX_ADJUST_DOWN_PERCENT)) 100 in
  Ok (Z.max min_median_timespan (Z.min max_median_timespan median_timespan_damped)).

(** [compact.to_expanded().expect(..)] of every threshold. *)
Fixpoint expand_all (thresholds : list CompactDifficulty) : Run (list ExpandedDifficulty) :=
  match thresholds with
  | [] => Ok []
  | compact :: thresholds =>
      o ← to_expanded compact;
      expanded ← expect o;
      rest ← expand_all thresholds;
      Ok (expanded :: rest)
  end.

Definition mean_target_difficulty (self : AdjustedDifficulty) : Run ExpandedDifficulty :=
  if POW_AVERAGING_WINDOW <=? Z.of_nat (length (relevant_difficulty_thresholds self)) then
    let averaging_window_thresholds :=
      take (Z.to_nat POW_AVERAGING_WINDOW) (relevant_difficulty_thresholds self) in
    expanded ← expand_all averaging_window_thresholds;
    total ← expanded_sum expanded;
    expanded_div total POW_AVERAGING_WINDOW
  else target_difficulty_limit (ad_network self).

(** [U256::from(i64)], which panics on negative values. *)
Definition u256_from_i64 (z : Z) : Run Z := expect (try_from U256 z).

Definition threshold_bits (self : AdjustedDifficulty) : Run CompactDifficulty :=
  averaging_window_timespan ← averaging_window_timespan_for_height (ad_network self) (candidate_height self);
  mean ← mean_target_difficulty self;
  divisor ← u256_from_i64 (num_seconds (seconds averaging_window_timespan));
  quotient ← expanded_div mean divisor;
  bounded ← median_timespan_bounded self;
  factor ← u256_from_i64 (num_seconds bounded);
  threshold ← expanded_mul quotient factor;
  limit ← target_difficulty_limit (ad_network self);
  to_compact (Z.min limit threshold).

Definition is_a_test_network (self : Network) : bool :=
  match self with Mainnet => false | Testnet _ => true end.

Definition expected_difficulty_threshold (self : AdjustedDifficulty) : Run CompactDifficulty :=
  first ← expect (head (relevant_times self));
  min_difficulty ← is_testnet_min_difficulty_block (ad_network self) (candidate_height self)
                     (candidate_time self) first;
  if (min_difficulty : bool) then
    _ ← assert (is_a_test_network (ad_network self));
    limit ← target_difficulty_limit (ad_network self);
    to_compact limit
  else threshold_bits self.

(** ** The specification

    The blocks before the candidate, from genesis: block [i] of the chain has
    height [i], and the candidate has the height [length chain]. *)

Section Spec.
Context (network : Network) (chain : list (CompactDifficulty * Z)).

Definition nBits (i : nat) : CompactDifficulty := (nth i chain (0, 0)).1.
Definition nTime (i : nat) : Z := (nth i chain (0, 0)).2.
(** [[ f(i) for i from a up to b ]]. *)
Definition up_to {A} (f : nat → A) (a b : nat) : list A := f <$> seq a (b + 1 - a).

(** [sorted(S)] at the position [ceiling((length(S) + 1) / 2)], from one. *)
Definition median (l : list Z) : Z := nth (Nat.div2 (length l)) (merge_sort Z.le l) 0.

Definition MedianTime (h : nat) : Z := median (up_to nTime (h - 11) (h - 1)).
Definition ActualTimespan (h : nat) : Z := MedianTime h - MedianTime (h - 17).
Definition ActualTimespanDamped (window : Z) (h : nat) : Z := window + Z.quot (ActualTimespan h - window) 4.
Definition MinActualTimespan (window : Z) : Z := window * (100 - 16) / 100.
Definition MaxActualTimespan (window : Z) : Z := window * (100 + 32) / 100.
Definition ActualTimespanBounded (window : Z) (h : nat) : Z :=
  Z.max (MinActualTimespan window) (Z.min (MaxActualTimespan window) (ActualTimespanDamped window h)).
Definition MeanTarget (limit : Z) (h : nat) : Z :=
  if decide (h ≤ 17)%nat then limit else sum_Z (up_to (to_target ∘ nBits) (h - 17) (h - 1)) / 17.
Definition Threshold (limit window : Z) (h : nat) : Z :=
  Z.min limit (MeanTarget limit h / window * ActualTimespanBounded window h).

(** What the code computes: the mean target is the average of the 17 targets at height 17 already, where the specification has the limit. *)
Definition CodeMeanTarget (limit : Z) (h : nat) : Z :=
  if decide (h = 17)%nat then sum_Z (up_to (to_target ∘ nBits) 0 16) / 17 else MeanTarget limit h.
Definition CodeThreshold (limit window : Z) (h : nat) : Z :=
  Z.min limit (CodeMeanTarget limit h / window * ActualTimespanBounded window h).

End Spec.

Lemma code_threshold_spec chain limit w h : (h ≠ 17)%nat → CodeThreshold chain limit w h = Threshold chain limit w h.
Proof. intros Hh. unfold CodeThreshold, CodeMeanTarget. by rewrite decide_False. Qed.

(** *** Windows of a chain, in both orders *)

Lemma up_to_slice {A B} (f : A → B) (d : A) (l : list A) (a n : nat) : (a + n ≤ length l)%nat →
  (λ i, f (nth i l d)) <$> seq a n = f <$> take n (drop a l).
Proof.
  revert a. induction n as [|n IH]; intros a Hn; [done|]. cbn [seq fmap list_fmap].
  destruct (drop a l) as [|x r] eqn:Hd.
  { exfalso. apply (f_equal length) in Hd. rewrite length_drop in Hd. cbn in Hd. lia. }
  cbn [take fmap list_fmap]. rewrite IH by lia.
  replace (drop (S a) l) with r; [f_equal|].
  - rewrite <- (take_drop a l), Hd, app_nth2; rewrite length_take_le by lia; [|lia].
    by rewrite Nat.sub_diag.
  - replace (S a) with (a + 1)%nat by lia. by rewrite <- drop_drop, Hd.
Qed.

Lemma take_reverse {A} (l : list A) n : (n ≤ length l)%nat → take n (reverse l) = reverse (drop (length l - n) l).
Proof.
  intros Hn. rewrite <- (take_drop (length l - n) l) at 1. rewrite reverse_app.
  apply take_app_length'. rewrite length_reverse, length_drop. lia.
Qed.

Lemma drop_reverse {A} (l : list A) n : (n ≤ length l)%nat → drop n (reverse l) = reverse (take (length l - n) l).
Proof.
  intros Hn. rewrite <- (take_drop (length l - n) l) at 1. rewrite reverse_app.
  apply drop_app_length'. rewrite length_reverse, length_drop. lia.
Qed.

(** *** Medians *)

#[export] Instance Zle_total : Total Z.le.
Proof. intros x y. lia. Qed.

Lemma merge_sort_perm_eq (l l' : list Z) : l ≡ₚ l' → merge_sort Z.le l = merge_sort Z.le l'.
Proof.
  intros Hp. assert (Transitive Z.le) by (intros ???; lia).
  apply (StronglySorted_unique Z.le); [by apply (StronglySorted_merge_sort Z.le)..|].
  by rewrite !(merge_sort_Permutation Z.le).
Qed.

Lemma median_time_Ok l : l ≠ [] → median_time l = Ok (median l).
Proof.
  intros Hl. unfold median_time, median.
  assert (Hlen : length (merge_sort Z.le l) = length l) by (apply Permutation_length, merge_sort_Permutation).
  rewrite Hlen. destruct (lookup_lt_is_Some_2 (merge_sort Z.le l) (Nat.div2 (length l))) as [x Hx].
  { rewrite Hlen. destruct l; [done|]. apply Nat.lt_div2. cbn. lia. }
  rewrite Hx. cbn. f_equal. symmetry. by apply nth_lookup_Some.
Qed.

Lemma median_perm l l' : l ≡ₚ l' → median l = median l'.
Proof. intros Hp. unfold median. by rewrite (merge_sort_perm_eq l l' Hp), Hp. Qed.

Section Windows.
Context (chain : list (CompactDifficulty * Z)) (Hchain : chain ≠ []).
Abbreviation h := (length chain).
Abbreviation context := (take (Z.to_nat POW_ADJUSTMENT_BLOCK_SPAN) (reverse chain)).

Lemma length_context : length context = (28 `min` h)%nat.
Proof. by rewrite length_take, length_reverse. Qed.

(** The newest [n] blocks of a list in height order. *)
Lemma reverse_window {A B} (f : A → B) n l : take n (f <$> reverse l) ≡ₚ f <$> drop (length l - n) l.
Proof.
  rewrite <- fmap_take. destruct (decide (n ≤ length l)%nat).
  - rewrite take_reverse by done. by rewrite fmap_reverse, reverse_Permutation.
  - rewrite take_ge by (rewrite length_reverse; lia). replace (length l - n)%nat with 0%nat by lia.
    by rewrite fmap_reverse, reverse_Permutation.
Qed.

Lemma newest_window {A} (f : CompactDifficulty * Z → A) n : (0 < n ≤ 28)%nat →
  take n (f <$> context) ≡ₚ up_to (λ i, f (nth i chain (0, 0))) (h - n) (h - 1).
Proof.
  intros Hn. assert (h ≠ 0)%nat by (by destruct chain). rewrite <- fmap_take, take_take.
  change (Z.to_nat POW_ADJUSTMENT_BLOCK_SPAN) with 28%nat. rewrite Nat.min_l, fmap_take, reverse_window by lia.
  unfold up_to. rewrite up_to_slice, take_ge; [done|rewrite length_drop|]; lia.
Qed.

Lemma older_window {A} (f : CompactDifficulty * Z → A) : (17 < h)%nat →
  take 11 (drop 17 (f <$> context)) ≡ₚ up_to (λ i, f (nth i chain (0, 0))) (h - 17 - 11) (h - 17 - 1).
Proof.
  intros Hh. change (Z.to_nat POW_ADJUSTMENT_BLOCK_SPAN) with (17 + 11)%nat.
  rewrite <- fmap_drop, <- take_drop_commute, fmap_take, take_take, Nat.min_l, drop_reverse by lia.
  rewrite reverse_window, length_take_le by lia. unfold up_to. rewrite up_to_slice by lia.
  rewrite skipn_firstn_comm. by replace (h - 17 - 1 + 1 - (h - 17 - 11))%nat with (h - 17 - (h - 17 - 11))%nat by lia.
Qed.

Lemma median_of_window l l' : l ≡ₚ l' → l' ≠ [] → median_time l = Ok (median l').
Proof.
  intros Hp Hl. rewrite <- (median_perm _ _ Hp). apply median_time_Ok. intros ->.
  by apply Permutation_nil_l in Hp.
Qed.

End Windows.

(** *** The computation on a context *)

Lemma num_seconds_seconds s : num_seconds (seconds s) = s.
Proof. unfold num_seconds, seconds. apply Z.quot_mul. lia. Qed.

Lemma quot_seconds d k : k ≠ 0 → num_seconds (Z.quot (seconds d) k) = Z.quot d k.
Proof.
  intros Hk. unfold num_seconds, seconds. rewrite Z.quot_quot by lia.
  apply Z.quot_mul_cancel_r; lia.
Qed.

Lemma window_cases network height w : averaging_window_timespan_for_height network height = Ok w →
  w = 2550 ∨ w = 1275.
Proof.
  unfold averaging_window_timespan_for_height. intros (nu & _ & ->)%fmap_Ok. destruct nu; cbn; auto.
Qed.

Lemma bounded_try_from_Ok {A} (l : list A) : l ≠ [] → (length l ≤ 28)%nat → bounded_try_from l = Some l.
Proof.
  intros Hl Hlen. unfold bounded_try_from. change POW_ADJUSTMENT_BLOCK_SPAN with 28.
  rewrite (proj2 (Z.leb_le 1 _)) by (destruct l; [done|cbn; lia]). by rewrite (proj2 (Z.leb_le _ _)) by lia.
Qed.

(** The thresholds of blocks that passed the checks before: they expand to a target within the limit. That the target is at least 2550 is not checked by the
    code; a smaller one is out of reach of any miner, and would make the quotient by the timespan zero. *)
Definition threshold_ok (limit : Z) (bits : CompactDifficulty) : Prop :=
  fits U32 bits = true ∧ valid_target bits = Some (to_target bits) ∧ 2550 ≤ to_target bits ≤ limit.

Lemma expand_all_Ok limit l : Forall (threshold_ok limit) l → expand_all l = Ok (to_target <$> l).
Proof.
  induction 1 as [|c l (Hf & Hv & _) _ IH]; [done|]. cbn [expand_all fmap list_fmap].
  rewrite to_expanded_spec, Hv, IH by done. done.
Qed.

Lemma sum_targets_bounds limit l : Forall (threshold_ok limit) l →
  2550 * Z.of_nat (length l) ≤ sum_Z (to_target <$> l) ≤ limit * Z.of_nat (length l) ∧
  Forall (λ d, 0 ≤ d) (to_target <$> l).
Proof.
  induction 1 as [|c l (_ & _ & Hc) _ [IH1 IH2]]; cbn [fmap list_fmap sum_Z length]; [split; [lia|constructor]|].
  split; [lia|]. constructor; [lia|done].
Qed.

Section Adjusted.
Context (t : Z) (network : Network) (chain : list (CompactDifficulty * Z)).
Context (Hchain : chain ≠ []) (Hmax : Z.of_nat (length chain) ≤ MAX).
Abbreviation h := (length chain).
Abbreviation context := (take (Z.to_nat POW_ADJUSTMENT_BLOCK_SPAN) (reverse chain)).

Definition adjusted : AdjustedDifficulty :=
  mkAdjusted t (Z.of_nat h) network (fst <$> context) (snd <$> context).

Lemma chain_pos : (0 < h)%nat.
Proof. destruct chain; [done|cbn; lia]. Qed.

Lemma context_bounded {A} (f : CompactDifficulty * Z → A) : bounded_try_from (f <$> context) = Some (f <$> context).
Proof.
  pose proof chain_pos. pose proof (length_context chain) as Hc. apply bounded_try_from_Ok.
  - intros Hn. apply (f_equal length) in Hn. rewrite length_fmap, Hc in Hn. cbn [length] in Hn. lia.
  - rewrite length_fmap, Hc. lia.
Qed.

Lemma new_adjusted : new_from_header_time t (Z.of_nat h - 1) network (reverse chain) = Ok adjusted.
Proof.
  pose proof chain_pos. pose proof MAX_eq. unfold new_from_header_time. rewrite !context_bounded.
  assert (Hn : next (Z.of_nat h - 1) = Ok (Z.of_nat h)) by (rewrite next_Ok by lia; f_equal; lia).
  unfold next in Hn. destruct (add_diff (Z.of_nat h - 1) 1) as [x|]; [|done]. cbn in Hn |- *. by injection Hn as ->.
Qed.

Lemma median_time_past_spec : median_time_past adjusted = Ok (MedianTime chain h).
Proof.
  unfold median_time_past, adjusted. cbn [relevant_times].
  change (Z.to_nat POW_MEDIAN_BLOCK_SPAN) with 11%nat.
  apply median_of_window; [apply (newest_window chain Hchain snd); lia|]. pose proof chain_pos.
  unfold up_to. by replace (h - 1 + 1 - (h - 11))%nat with (S (h - 1 - (h - 11)))%nat by lia.
Qed.

Lemma last_context : (h ≤ 17)%nat → last (snd <$> context) = Some (nTime chain 0).
Proof.
  intros Hh. rewrite take_ge by (rewrite length_reverse; change (Z.to_nat _) with 28%nat; lia). rewrite fmap_reverse, last_reverse.
  unfold nTime. by destruct chain.
Qed.

Lemma median_timespan_spec : median_timespan adjusted = Ok (seconds (ActualTimespan chain h)).
Proof.
  pose proof chain_pos. pose proof (length_context chain) as Hc.
  unfold median_timespan. rewrite median_time_past_spec, Ok_bind. unfold adjusted. cbn [relevant_times].
  rewrite length_fmap, Hc. unfold ActualTimespan. change POW_AVERAGING_WINDOW with 17.
  destruct (Z.ltb_spec 17 (Z.of_nat (28 `min` h))).
  - rewrite (median_of_window _ (up_to (nTime chain) (h - 17 - 11) (h - 17 - 1))); [done|..].
    + apply (older_window chain snd); lia.
    + unfold up_to. by replace (h - 17 - 1 + 1 - (h - 17 - 11))%nat with (S (h - 17 - 1 - (h - 17 - 11))) by lia.
  - rewrite last_context by lia. cbn [expect]. rewrite Ok_bind. replace (h - 17)%nat with 0%nat by lia. done.
Qed.

Context (w limit : Z).
Hypothesis Hw : averaging_window_timespan_for_height network (Z.of_nat h) = Ok w.
Hypothesis Hlimit : target_difficulty_limit network = Ok limit.

Lemma median_timespan_bounded_spec :
  median_timespan_bounded adjusted = Ok (seconds (ActualTimespanBounded chain w h)).
Proof.
  unfold median_timespan_bounded. rewrite median_timespan_spec. cbn [ad_network candidate_height adjusted].
  rewrite Hw, !Ok_bind. f_equal. unfold ActualTimespanBounded, ActualTimespanDamped.
  replace (seconds (ActualTimespan chain h) - seconds w) with (seconds (ActualTimespan chain h - w))
    by (unfold seconds; lia).
  rewrite quot_seconds by done. change POW_DAMPING_FACTOR with 4.
  assert (Hmin : Z.quot (seconds w * (100 - POW_MAX_ADJUST_UP_PERCENT)) 100 = seconds (MinActualTimespan w))
    by (by destruct (window_cases _ _ _ Hw) as [-> | ->]).
  assert (Hmx : Z.quot (seconds w * (100 + POW_MAX_ADJUST_DOWN_PERCENT)) 100 = seconds (MaxActualTimespan w))
    by (by destruct (window_cases _ _ _ Hw) as [-> | ->]).
  rewrite Hmin, Hmx. unfold seconds. lia.
Qed.

(** The limit leaves room for the sum of 17 targets. *)
Hypothesis Hroom : 2550 ≤ limit ∧ limit * 17 < 2 ^ 256.
Hypothesis Hok : Forall (threshold_ok limit) (take 17 (fst <$> context)).

Abbreviation mean_target := (CodeMeanTarget chain limit h).

Lemma mean_target_cases :
  mean_target = if decide (h < 17)%nat then limit else sum_Z (up_to (to_target ∘ nBits chain) (h - 17) (h - 1)) / 17.
Proof.
  unfold CodeMeanTarget, MeanTarget. destruct (decide (h = 17)%nat) as [->|], (decide (h < 17)%nat), (decide (h ≤ 17)%nat); lia || done.
Qed.

Lemma mean_target_difficulty_spec :
  mean_target_difficulty adjusted = Ok mean_target ∧ 2550 ≤ mean_target ≤ limit.
Proof.
  pose proof (length_context chain) as Hc.
  rewrite mean_target_cases. unfold mean_target_difficulty, adjusted. cbn [relevant_difficulty_thresholds ad_network].
  rewrite length_fmap, Hc. change POW_AVERAGING_WINDOW with 17. destruct (decide (h < 17)%nat) as [Hh|Hh].
  { rewrite (proj2 (Z.leb_gt _ _)) by lia. split; [done|lia]. }
  rewrite (proj2 (Z.leb_le _ _)) by lia. change (Z.to_nat 17) with 17%nat.
  rewrite (expand_all_Ok limit) by done. rewrite Ok_bind.
  destruct (sum_targets_bounds _ _ Hok) as [Hsum Hpos].
  rewrite length_take, length_fmap, Hc, Nat.min_l in Hsum by lia.
  unfold expanded_sum. rewrite expanded_sum_from_spec by (done || lia). rewrite Ok_bind, Z.add_0_l.
  assert (Hperm : sum_Z (to_target <$> take 17 (fst <$> context)) =
                  sum_Z (up_to (to_target ∘ nBits chain) (h - 17) (h - 1))).
  { apply sum_Z_perm. rewrite (newest_window chain Hchain fst 17) by lia. unfold up_to.
    by rewrite <- list_fmap_compose. }
  rewrite Hperm in *. unfold expanded_div. rewrite u256_div_Ok by lia.
  change (Z.of_nat 17) with 17 in Hsum.
  set (s := sum_Z (up_to (to_target ∘ nBits chain) (h - 17) (h - 1))) in *.
  assert (2550 ≤ s / 17 ≤ limit) by (split; [apply Z.div_le_lower_bound|apply Z.div_le_upper_bound]; lia).
  done.
Qed.

Lemma bounded_range : MinActualTimespan w ≤ ActualTimespanBounded chain w h ≤ MaxActualTimespan w.
Proof.
  unfold ActualTimespanBounded. assert (MinActualTimespan w ≤ MaxActualTimespan w)
    by (by destruct (window_cases _ _ _ Hw) as [-> | ->]). lia.
Qed.

Abbreviation threshold := (CodeThreshold chain limit w h).

Lemma threshold_range : 0 < threshold ≤ limit ∧
  0 ≤ mean_target / w * ActualTimespanBounded chain w h < 2 ^ 256 ∧
  mean_target / w * MinActualTimespan w ≤ mean_target / w * ActualTimespanBounded chain w h ≤
    mean_target / w * MaxActualTimespan w.
Proof.
  destruct mean_target_difficulty_spec as [_ Hm]. pose proof bounded_range as Hb. unfold CodeThreshold.
  assert (Hq : 1 ≤ mean_target / w ∧ mean_target / w * w ≤ limit).
  { destruct (window_cases _ _ _ Hw) as [-> | ->]; (split; [apply Z.div_le_lower_bound; lia|]);
      pose proof (Z.mul_div_le mean_target 2550); pose proof (Z.mul_div_le mean_target 1275); lia. }
  set (q := mean_target / w) in *. set (x := ActualTimespanBounded chain w h) in *.
  destruct (window_cases _ _ _ Hw) as [-> | ->].
  - change (MinActualTimespan 2550) with 2142 in *. change (MaxActualTimespan 2550) with 3366 in *. nia.
  - change (MinActualTimespan 1275) with 1071 in *. change (MaxActualTimespan 1275) with 1683 in *. nia.
Qed.

Lemma threshold_bits_spec : threshold_bits adjusted = to_compact threshold.
Proof.
  destruct mean_target_difficulty_spec as [Hmean Hm]. destruct threshold_range as (_ & Hprod & _).
  unfold threshold_bits. rewrite Hmean, median_timespan_bounded_spec. cbn [ad_network candidate_height adjusted].
  rewrite Hw, Hlimit, !Ok_bind, !num_seconds_seconds. unfold u256_from_i64, expanded_div, expanded_mul.
  pose proof bounded_range as Hb.
  assert (Hww : 0 < w ≤ 2550 ∧ 0 < MinActualTimespan w ∧ MaxActualTimespan w ≤ 3366)
    by (destruct (window_cases _ _ _ Hw) as [-> | ->]; by repeat split).
  rewrite try_from_fits by (apply fits_U256; lia). cbn [expect]. rewrite Ok_bind, u256_div_Ok, Ok_bind, Ok_bind, num_seconds_seconds by lia.
  rewrite try_from_fits by (apply fits_U256; lia). cbn [expect]. rewrite Ok_bind, u256_mul_Ok by lia.
  rewrite Ok_bind. done.
Qed.

End Adjusted.

Lemma newest_ok limit (chain : list (CompactDifficulty * Z)) : chain ≠ [] → Forall (threshold_ok limit ∘ fst) (drop (length chain - 17) chain) →
  Forall (threshold_ok limit) (take 17 (fst <$> take (Z.to_nat POW_ADJUSTMENT_BLOCK_SPAN) (reverse chain))).
Proof.
  intros Hc Hok. change (Z.to_nat POW_ADJUSTMENT_BLOCK_SPAN) with 28%nat.
  rewrite <- fmap_take, take_take, Nat.min_l, fmap_take, (reverse_window fst 17 chain) by lia. by apply Forall_fmap.
Qed.

(** *** Order statistics *)

Lemma sorted_split (s : list Z) k m : StronglySorted Z.le s → s !! k = Some m →
  s = take k s ++ m :: drop (S k) s ∧ Forall (λ x, x ≤ m) (take k s) ∧ Forall (λ x, m ≤ x) (drop (S k) s).
Proof.
  intros Hs Hk. pose proof (take_drop_middle s k m Hk) as Heq. split; [done|].
  rewrite <- Heq in Hs. apply StronglySorted_app in Hs as (Hle & _ & Hs'). split.
  - apply Forall_forall. intros x Hx. apply Hle; [done|]. left.
  - by apply StronglySorted_inv in Hs' as [_ ?].
Qed.

Lemma count_around (l a b : list Z) m : l ≡ₚ a ++ m :: b → Forall (λ x, x ≤ m) a → Forall (λ x, m ≤ x) b →
  (length (filter (λ x, x < m)%Z l) ≤ length a)%nat ∧ (length (filter (λ x, m < x)%Z l) ≤ length b)%nat.
Proof.
  intros -> Ha Hb. rewrite !filter_app, !length_app, !filter_cons_False by lia. rewrite Forall_forall in Ha, Hb.
  rewrite (filter_none _ b) by (intros x Hx; specialize (Hb x Hx); cbn in Hb; lia).
  rewrite (filter_none (λ x, m < x) a) by (intros x Hx; specialize (Ha x Hx); cbn in Ha; lia).
  pose proof (length_filter (λ x, x < m) a). pose proof (length_filter (λ x, m < x) b). cbn [length]. lia.
Qed.

(** ** Properties *)

(** the median of block times is an order statistic: it is one of the times, at most
    half of the times are before it, fewer than half are after it, and the order of the
    times does not matter. *)
Theorem median_time_statistic (times : list Z) (Hne : times ≠ []) :
  ∃ m, median_time times = Ok m ∧ m ∈ times ∧
    (length (filter (λ x, x < m)%Z times) ≤ Nat.div2 (length times))%nat ∧
    (length (filter (λ x, m < x)%Z times) ≤ length times - 1 - Nat.div2 (length times))%nat ∧
    ∀ times', times ≡ₚ times' → median_time times' = Ok m.
Proof.
  pose proof (merge_sort_Permutation Z.le times) as Hp. assert (Transitive Z.le) by (intros ???; lia).
  pose proof (StronglySorted_merge_sort Z.le times) as Hs.
  pose proof (median_time_Ok times Hne) as Hm. unfold median_time in Hm.
  rewrite (Permutation_length Hp) in Hm. set (k := Nat.div2 (length times)) in *.
  destruct (merge_sort Z.le times !! k) as [m|] eqn:Hk; [|done]. injection Hm as Hm.
  exists (median times). split; [by apply median_time_Ok|]. rewrite <- Hm.
  destruct (sorted_split _ _ _ Hs Hk) as (Heq & Hlo & Hhi). rewrite Heq in Hp.
  pose proof (lookup_lt_Some _ _ _ Hk) as Hlt. rewrite (Permutation_length (merge_sort_Permutation Z.le times)) in Hlt.
  destruct (count_around _ _ _ _ (symmetry Hp) Hlo Hhi) as [H1 H2].
  rewrite length_take in H1. rewrite length_drop, (Permutation_length (merge_sort_Permutation Z.le times)) in H2.
  split_and!; [|lia|lia|].
  - rewrite <- Hp. apply elem_of_app. right. left.
  - intros times' Hp'. rewrite Hm, (median_perm _ _ Hp'). apply median_time_Ok. intros ->.
    by apply Permutation_nil_r in Hp'.
Qed.

Lemma median_time_statistic_witness : ∃ m, median_time [30; 10; 20; 10] = Ok m.
Proof. destruct (median_time_statistic [30; 10; 20; 10]) as (m & Hm & _); [done|]. exists m. exact Hm. Defined.

(** C23: the difficulty a block must have is [ThresholdBits] of the specification at every height but 17, and at height 17 it is the same formula with the average
    of the 17 targets as the mean target, where the specification has the limit. On any chain whose last 17 compact targets decode to targets of at
    least 2550 and at most the limit, the code neither overflows nor panics; from the context in reverse order it computes the median time past
    [MedianTime] and the compact form of this threshold, which is positive, at most the limit, and within the adjustment bounds around the mean
    target. *)
Theorem threshold_bits_refines (t : Z) (network : Network) (chain : list (CompactDifficulty * Z)) (limit : Z)
    (Hnet : activations_ok (activation_list network)) (Hlimit : target_difficulty_limit network = Ok limit)
    (Hroom : 2550 ≤ limit ∧ limit * 17 < 2 ^ 256)
    (Hlen : chain ≠ [] ∧ Z.of_nat (length chain) ≤ MAX)
    (Hok : Forall (threshold_ok limit ∘ fst) (drop (length chain - 17) chain)) :
  let h := length chain in
  ∃ a w bits,
    new_from_header_time t (Z.of_nat h - 1) network (reverse chain) = Ok a ∧
    averaging_window_timespan_for_height network (Z.of_nat h) = Ok w ∧
    median_time_past a = Ok (MedianTime chain h) ∧
    threshold_bits a = Ok bits ∧ to_compact (CodeThreshold chain limit w h) = Ok bits ∧
    (h ≠ 17%nat → CodeThreshold chain limit w h = Threshold chain limit w h) ∧
    (h = 17%nat → CodeMeanTarget chain limit h = sum_Z (up_to (to_target ∘ nBits chain) 0 16) / 17 ∧ MeanTarget chain limit h = limit) ∧
    0 < CodeThreshold chain limit w h ≤ limit ∧
    Z.min limit (CodeMeanTarget chain limit h / w * MinActualTimespan w) ≤ CodeThreshold chain limit w h ≤
      CodeMeanTarget chain limit h / w * MaxActualTimespan w.
Proof.
  cbv zeta. destruct Hlen as (Hne & Hmax). pose proof (newest_ok limit chain Hne Hok) as Hok'.
  destruct (current_latest network (Z.of_nat (length chain)) Hnet ltac:(lia)) as (hc & c & _ & Hc & _).
  exists (adjusted t network chain), (averaging_window_timespan c).
  assert (Hw : averaging_window_timespan_for_height network (Z.of_nat (length chain)) = Ok (averaging_window_timespan c))
    by (unfold averaging_window_timespan_for_height; by rewrite Hc).
  pose proof (threshold_range t network chain Hne _ _ Hw Hlimit Hroom Hok') as (Hr & _ & Hb).
  pose proof (threshold_bits_spec t network chain Hne Hmax _ _ Hw Hlimit Hroom Hok') as Hbits.
  destruct (to_compact_spec (CodeThreshold chain limit (averaging_window_timespan c) (length chain))) as (s & _ & _ & Hcomp); [lia|].
  eexists. split_and!; [by apply new_adjusted|exact Hw|by apply median_time_past_spec|rewrite Hbits; exact Hcomp|exact Hcomp|
    by apply code_threshold_spec|intros ->; done|lia|lia|..]; unfold CodeThreshold; lia.
Qed.

(** Twenty blocks at the same target, 80 seconds apart. *)
Definition sample_headers (n : nat) : list (CompactDifficulty * Z) :=
  (λ i, (0x1d00ffff, 80 * Z.of_nat i)) <$> seq 0 n.
Definition MAINNET_LIMIT : Z := 0x7ffff * 256 ^ 28.

Lemma threshold_bits_refines_witness : ∃ a bits,
  new_from_header_time 1600 19 Mainnet (reverse (sample_headers 20)) = Ok a ∧ threshold_bits a = Ok bits.
Proof.
  destruct (threshold_bits_refines 1600 Mainnet (sample_headers 20) MAINNET_LIMIT) as (a & w & bits & Ha & _ & _ & Hb & _).
  - exact activations_ok_mainnet.
  - reflexivity.
  - split; [intros H; vm_compute in H|]; reflexivity || discriminate.
  - split; [discriminate|]. intros H. vm_compute in H. discriminate.
  - repeat (constructor; [repeat split; (reflexivity || (intros H; vm_compute in H; discriminate))|]). constructor.
  - exists a, bits. split; [exact Ha|exact Hb].
Defined.

(** at height 17 the code averages the 17 blocks before, although the comments on
    [block_is_valid_for_recent_chain] quote the rule that the mean target is the limit
    up to and including that height: there are 17 headers for which the two thresholds
    differ. *)
Theorem mean_target_at_window : ∃ chain a bits bits',
  length chain = 17%nat ∧ new_from_header_time 1600 16 Mainnet (reverse chain) = Ok a ∧
  threshold_bits a = Ok bits ∧ to_compact (Threshold chain MAINNET_LIMIT 2550 17) = Ok bits' ∧
  target_difficulty_limit Mainnet = Ok MAINNET_LIMIT ∧ bits ≠ bits'.
Proof.
  set (a := adjusted 1600 Mainnet (sample_headers 17)).
  exists (sample_headers 17), a, (ok_value 0 (threshold_bits a)),
    (ok_value 0 (to_compact (Threshold (sample_headers 17) MAINNET_LIMIT 2550 17))).
  split_and!; [reflexivity|apply (new_adjusted 1600 Mainnet (sample_headers 17)); [discriminate|by vm_compute]|
    apply ok_value_eq; vm_compute; reflexivity..|reflexivity|].
  vm_compute. discriminate.
Qed.
