(* ===== verification/ContextChecks.v ===== *)
(** * Contextual checks of a block

    [zebra-state/src/service/check.rs]: the checks of a block against the recent
    blocks of its chain and against the chain history, and the check for caches
    of a chain without NU5.

    The chain of ancestors is the list of blocks the code iterates over, from the
    parent down. The digests of authorizing data and the parser of Sapling roots
    are library code, and the hash of a history tree is the one of the tree library:
    they are arguments. The exceptions for [cfg(test)] are off. *)

From S2P Require Import Prelude BTreeMap Height Difficulty Network Transaction Merkle BlockHeader.
From S2P Require Import Ledger SpendChecks DifficultyAdjustment.

Definition block_is_not_orphaned (finalized_tip_height candidate_height : Height) :
    Res ValidateContextError unit :=
  if candidate_height <=? finalized_tip_height
  then Err (OrphanedBlock candidate_height finalized_tip_height) else Ok tt.

Definition height_one_more_than_parent_height (parent_height candidate_height : Height) :
    Res ValidateContextError unit :=
  if bool_decide (add_diff parent_height 1 = Some candidate_height) then Ok tt
  else Err (NonSequentialBlock candidate_height parent_height).

Definition difficulty_threshold_and_time_are_valid (difficulty_threshold : CompactDifficulty)
    (difficulty_adjustment : AdjustedDifficulty) : Res ValidateContextError unit :=
  let candidate_height := candidate_height difficulty_adjustment in
  let candidate_time := candidate_time difficulty_adjustment in
  let network := ad_network difficulty_adjustment in
  median_time_past ← lift (median_time_past difficulty_adjustment);
  let block_time_max := median_time_past + BLOCK_MAX_TIME_SINCE_MEDIAN in
  genesis_height ← expect (activation_height Genesis network);
  if (candidate_time <=? median_time_past) && negb (candidate_height =? genesis_height)
  then Err (TimeTooEarly candidate_time median_time_past) else
  if is_max_block_time_enforced network candidate_height && (block_time_max <? candidate_time)
  then Err (TimeTooLate candidate_time block_time_max) else
  expected_difficulty ← lift (expected_difficulty_threshold difficulty_adjustment);
  if negb (difficulty_threshold =? expected_difficulty)
  then Err (InvalidDifficultyThreshold difficulty_threshold expected_difficulty)
  else Ok tt.

Definition block_is_valid_for_recent_chain (b : SemanticallyVerifiedBlock) (network : Network)
    (finalized_tip_height : option Height) (relevant_chain : list Block) : Res ValidateContextError unit :=
  finalized_tip_height ← expect finalized_tip_height;
  _ ← block_is_not_orphaned finalized_tip_height (sv_height b);
  let relevant_chain := take (Z.to_nat POW_ADJUSTMENT_BLOCK_SPAN) relevant_chain in
  match relevant_chain with
  | [] => Err NotReadyToBeCommitted
  | parent_block :: _ =>
      parent_height ← expect (coinbase_height parent_block);
      _ ← height_one_more_than_parent_height parent_height (sv_height b);
      let relevant_data := (λ block, (difficulty_threshold (header block), time (header block))) <$> relevant_chain in
      difficulty_adjustment ← lift (new_from_block (sv_block b) network relevant_data);
      difficulty_threshold_and_time_are_valid (difficulty_threshold (header (sv_block b))) difficulty_adjustment
  end.

(** ** Commitments to the chain history *)

Section Commitment.
Context `{!HashFns} (sapling_root_try_from : list Z → option Hash) (v5_auth_digest : Transaction → Hash).

(** [Transaction::auth_digest]: only V5 transactions have one. *)
Definition auth_digest (self : Transaction) : option Hash :=
  match self with V5 _ _ _ _ _ _ _ => Some (v5_auth_digest self) | _ => None end.

(** [Block::auth_data_root]. *)
Definition block_auth_data_root (self : Block) : Run Hash :=
  auth_data_root_from (auth_digest <$> transactions self).

(** [history_tree_hash] is [history_tree.hash()]. *)
Definition block_commitment_is_valid_for_chain_history (block : Block) (network : Network)
    (history_tree_hash : option Hash) : Res ValidateContextError unit :=
  commitment ← map_err InvalidBlockCommitment (block_commitment sapling_root_try_from block network);
  match commitment with
  | PreSaplingReserved _ | FinalSaplingRoot _ | ChainHistoryActivationReserved => Ok tt
  | ChainHistoryRoot actual_history_tree_root =>
      history_tree_root ← expect history_tree_hash;
      if bool_decide (actual_history_tree_root = history_tree_root) then Ok tt
      else Err (InvalidBlockCommitment (InvalidChainHistoryRoot history_tree_root actual_history_tree_root))
  | ChainHistoryBlockTxAuthCommitment actual_hash_block_commitments =>
      history_tree_root ← expect
        (match history_tree_hash with
         | Some hash => Some hash
         | None =>
             if bool_decide (activation_height Heartwood network = coinbase_height block)
             then Some CHAIN_HISTORY_ACTIVATION_RESERVED else None
         end);
      auth_data_root ← lift (block_auth_data_root block);
      let hash_block_commitments := from_commitments history_tree_root auth_data_root in
      if bool_decide (actual_hash_block_commitments = hash_block_commitments) then Ok tt
      else Err (InvalidBlockCommitment
             (InvalidChainHistoryBlockTxAuthCommitment hash_block_commitments actual_hash_block_commitments))
  end.

End Commitment.

(** ** Legacy chains *)

(** The two errors of [legacy_chain], which are formatted as strings. *)
Inductive LegacyChainError :=
| NoNetworkUpgradeFound (index : Z) (tip_height : Height)
| InconsistentNetworkUpgrade.

Section Legacy.
Context `{!Literals} (nu5_activation_height : Height) (network : Network) (max_legacy_chain_blocks : Z).

Definition has_network_upgrade (block : Block) : bool :=
  bool_decide (omap tx_network_upgrade (transactions block) ≠ []).

Fixpoint legacy_chain_loop (index : Z) (tip_height : option Height) (ancestors : list Block) :
    Res LegacyChainError unit :=
  match ancestors with
  | [] => Ok tt
  | block :: ancestors =>
      height ← expect (coinbase_height block);
      if height <? nu5_activation_height then Ok tt else
      if max_legacy_chain_blocks <=? index then
        tip ← expect tip_height; Err (NoNetworkUpgradeFound index tip)
      else
      _ ← map_err (λ _, InconsistentNetworkUpgrade) (check_transaction_network_upgrade_consistency block network);
      if has_network_upgrade block then Ok tt else legacy_chain_loop (index + 1) tip_height ancestors
  end.

Definition legacy_chain (ancestors : list Block) : Res LegacyChainError unit :=
  legacy_chain_loop 0 (block ← head ancestors; coinbase_height block) ancestors.

End Legacy.

(** ** Exactness of the recent chain check *)

Definition block_data (block : Block) : CompactDifficulty * Z :=
  (difficulty_threshold (header block), time (header block)).
Definition chain_data (blocks : list Block) : list (CompactDifficulty * Z) := block_data <$> blocks.

(** The threshold a block of height [h] and time [t] must have after the blocks [chain]:
    the limit for Testnet minimum difficulty blocks, and otherwise [ThresholdBits] of the
    specification, but with the average as the mean target at height 17 already. *)
Definition required_threshold (network : Network) (chain : list (CompactDifficulty * Z)) (limit : Z) (t : Z) :
    Run CompactDifficulty :=
  let h := length chain in
  w ← averaging_window_timespan_for_height network (Z.of_nat h);
  min_difficulty ← is_testnet_min_difficulty_block network (Z.of_nat h) t (nTime chain (h - 1));
  to_compact (if (min_difficulty : bool) then limit else CodeThreshold chain limit w h).

(** The time rules for a block of height [h] whose median time past is [m]. *)
Definition time_ok (network : Network) (h m t : Z) : Prop :=
  m < t ∧ (is_max_block_time_enforced network h = true → t ≤ m + 90 * 60).

Lemma min_difficulty_Ok network height t p : activations_ok (activation_list network) → 0 ≤ height →
  ∃ m, is_testnet_min_difficulty_block network height t p = Ok m ∧ (m = true → is_a_test_network network = true).
Proof.
  intros Hnet Hh. unfold is_testnet_min_difficulty_block, minimum_difficulty_spacing_for_height.
  destruct (current_latest network height Hnet Hh) as (hc & c & _ & Hc & _).
  destruct network as [|params]; [by exists false|].
  destruct (height <? TESTNET_MINIMUM_DIFFICULTY_START_HEIGHT); [by exists false|].
  rewrite Hc, !Ok_bind. eexists. split; [reflexivity|done].
Qed.

Section Recent.
Context (network : Network) (blocks : list Block) (limit : Z).
Abbreviation chain := (chain_data blocks).
Abbreviation h := (length (chain_data blocks)).
Hypothesis Hnet : activations_ok (activation_list network).
Hypothesis Hlimit : target_difficulty_limit network = Ok limit.
Hypothesis Hroom : 2550 ≤ limit ∧ limit * 17 < 2 ^ 256.
Hypothesis Hlen : blocks ≠ [] ∧ Z.of_nat (length blocks) ≤ MAX.
Hypothesis Hok : Forall (threshold_ok limit ∘ fst) (drop (h - 17) chain).

Lemma chain_ne : chain ≠ [] ∧ Z.of_nat h ≤ MAX.
Proof. unfold chain_data. rewrite length_fmap. destruct Hlen as (Hn & ?). split; [|done]. by destruct blocks. Qed.

Lemma window : ∃ w, averaging_window_timespan_for_height network (Z.of_nat h) = Ok w.
Proof.
  destruct (current_latest network (Z.of_nat h) Hnet ltac:(lia)) as (hc & c & _ & Hc & _).
  exists (averaging_window_timespan c). unfold averaging_window_timespan_for_height. by rewrite Hc.
Qed.

Lemma head_times t : head (relevant_times (adjusted t network chain)) = Some (nTime chain (h - 1)).
Proof.
  destruct chain_ne as (Hn & _). cbn [relevant_times adjusted].
  destruct (exists_last Hn) as (l & x & ->). rewrite reverse_app. cbn. unfold nTime.
  rewrite length_app, Nat.add_1_r. cbn [Nat.sub]. rewrite Nat.sub_0_r, app_nth2, Nat.sub_diag by lia. done.
Qed.

Lemma expected_spec t :
  expected_difficulty_threshold (adjusted t network chain) = required_threshold network chain limit t ∧
  ∃ bits, required_threshold network chain limit t = Ok bits.
Proof.
  destruct chain_ne as (Hn & Hmax), window as [w Hw].
  pose proof (newest_ok limit chain Hn Hok) as Hok'.
  pose proof (threshold_range t network chain Hn _ _ Hw Hlimit Hroom Hok') as (Hr & _).
  pose proof (threshold_bits_spec t network chain Hn Hmax _ _ Hw Hlimit Hroom Hok') as Hbits.
  destruct (min_difficulty_Ok network (Z.of_nat h) t (nTime chain (h - 1)) Hnet ltac:(lia)) as (m & Hm & Htest).
  unfold expected_difficulty_threshold, required_threshold. cbv zeta. rewrite head_times, Hbits.
  cbn [expect ad_network candidate_height candidate_time adjusted]. rewrite Hw, !Ok_bind, !Hm, !Ok_bind.
  destruct m.
  - rewrite Htest, Hlimit by done. split; [done|].
    destruct (to_compact_spec limit) as (s & _ & _ & Hc); [lia|]. rewrite Hc. eauto.
  - split; [done|]. destruct (to_compact_spec (CodeThreshold chain limit w h)) as (s & _ & _ & Hc); [lia|]. rewrite Hc. eauto.
Qed.

Lemma genesis_height : activation_height Genesis network = Some 0.
Proof.
  pose proof (activation_height_first network Genesis) as Hf. destruct Hnet as [Hhd Hs].
  destruct (activation_list network) as [|[h0 n0] l] eqn:Hl; [done|]. injection Hhd as -> ->.
  destruct (activation_height Genesis network) as [x|]; cbn in Hf.
  - destruct Hf as (nu' & Hin & _ & Hmin). specialize (Hmin 0 Genesis ltac:(left) ltac:(cbn; lia)).
    assert (nu' = Genesis) as -> by (apply nu_index_inj; pose proof (nu_index_bounds nu'); cbn in *; lia).
    destruct (activation_lt_elem _ _ _ _ _ Hs Hin ltac:(left)) as [_ ->]; done.
  - specialize (Hf 0 Genesis ltac:(left)). cbn in Hf. lia.
Qed.

Lemma threshold_and_time_exact t bits :
  let m := MedianTime chain h in
  no_panic (difficulty_threshold_and_time_are_valid bits (adjusted t network chain)) ∧
  (difficulty_threshold_and_time_are_valid bits (adjusted t network chain) = Ok tt ↔
   time_ok network (Z.of_nat h) m t ∧ required_threshold network chain limit t = Ok bits).
Proof.
  destruct chain_ne as (Hn & Hmax). destruct (expected_spec t) as [He (bits' & Hb)].
  unfold difficulty_threshold_and_time_are_valid. cbn [candidate_height candidate_time ad_network adjusted].
  rewrite (median_time_past_spec t network chain Hn Hmax), He, Hb, genesis_height. cbn [lift expect]. rewrite !Ok_bind.
  unfold time_ok. change BLOCK_MAX_TIME_SINCE_MEDIAN with (90 * 60).
  assert (Hpos : (Z.of_nat h =? 0) = false) by (apply Z.eqb_neq; pose proof (chain_pos chain Hn); lia).
  rewrite Hpos, andb_true_r.
  destruct (Z.leb_spec t (MedianTime chain h)); [split; [done|split; [done|lia]]|].
  destruct (is_max_block_time_enforced network (Z.of_nat h) && (MedianTime chain h + 90 * 60 <? t)) eqn:Hl.
  - split; [done|]. split; [done|]. intros [[_ Ht] _]. apply andb_true_iff in Hl as [Hen Hlt].
    apply Z.ltb_lt in Hlt. specialize (Ht Hen). lia.
  - destruct (Z.eqb_spec bits bits') as [->|Hne]; cbn [negb]; (split; [done|]).
    + split; [|done]. intros _. split; [|done]. split; [done|]. intros Hen. rewrite Hen in Hl.
      by apply Z.ltb_ge.
    + split; [done|]. intros [_ [= ?]]. congruence.
Qed.

Lemma new_from_header_time_take t p (ctx : list (CompactDifficulty * Z)) :
  new_from_header_time t p network (take (Z.to_nat POW_ADJUSTMENT_BLOCK_SPAN) ctx) =
  new_from_header_time t p network ctx.
Proof. unfold new_from_header_time. by rewrite take_take, Nat.min_id. Qed.

Lemma new_from_block_adjusted block : coinbase_height block = Some (Z.of_nat h) →
  new_from_block block network (block_data <$> take (Z.to_nat POW_ADJUSTMENT_BLOCK_SPAN) (reverse blocks)) =
  Ok (adjusted (time (header block)) network chain).
Proof.
  intros Hb. destruct chain_ne as (Hn & Hmax). pose proof (chain_pos chain Hn). pose proof MAX_eq.
  unfold new_from_block. rewrite Hb. cbn [expect]. rewrite Ok_bind.
  pose proof (previous_Ok (Z.of_nat h) ltac:(lia)) as Hp. unfold previous in Hp.
  destruct (sub_diff (Z.of_nat h) 1) as [p|]; [|done]. injection Hp as ->. cbn [expect]. rewrite Ok_bind.
  rewrite fmap_take, new_from_header_time_take, fmap_reverse. by apply new_adjusted.
Qed.

Lemma recent_chain_reduce b fin parent : last blocks = Some parent → coinbase_height parent = Some (Z.of_nat h - 1) →
  coinbase_height (sv_block b) = Some (sv_height b) →
  block_is_valid_for_recent_chain b network (Some fin) (reverse blocks) =
  if sv_height b <=? fin then Err (OrphanedBlock (sv_height b) fin)
  else if negb (sv_height b =? Z.of_nat h) then Err (NonSequentialBlock (sv_height b) (Z.of_nat h - 1))
  else difficulty_threshold_and_time_are_valid (difficulty_threshold (header (sv_block b)))
         (adjusted (time (header (sv_block b))) network chain).
Proof.
  intros Hlast Hp Hb. unfold block_is_valid_for_recent_chain, block_is_not_orphaned. cbn [expect]. rewrite Ok_bind.
  destruct (sv_height b <=? fin); [done|]. rewrite Ok_bind.
  apply last_Some in Hlast as [l Hl].
  assert (Htake : take (Z.to_nat POW_ADJUSTMENT_BLOCK_SPAN) (reverse blocks) =
                  parent :: take 27 (reverse l)) by (by rewrite Hl, reverse_app).
  rewrite Htake. cbv zeta. rewrite <- Htake, Hp. cbn [expect]. rewrite Ok_bind.
  destruct chain_ne as (Hn & Hmax). pose proof (chain_pos chain Hn). pose proof MAX_eq.
  pose proof (next_Ok (Z.of_nat h - 1) ltac:(lia)) as Hnext. unfold next in Hnext.
  unfold height_one_more_than_parent_height.
  destruct (add_diff (Z.of_nat h - 1) 1) as [x|]; [|done]. injection Hnext as ->.
  destruct (Z.eqb_spec (sv_height b) (Z.of_nat h)) as [He|He]; cbn [negb].
  - rewrite bool_decide_eq_true_2 by (f_equal; lia). rewrite Ok_bind.
    change (λ block, (difficulty_threshold (header block), time (header block))) with block_data.
    rewrite new_from_block_adjusted by congruence. cbn [lift]. by rewrite Ok_bind.
  - by rewrite bool_decide_eq_false_2 by (intros [=]; lia).
Qed.

End Recent.

(** The threshold of the specification: its mean target is the limit up to height 17. *)
Definition specified_threshold (network : Network) (chain : list (CompactDifficulty * Z)) (limit : Z) (t : Z) : Run CompactDifficulty :=
  let h := length chain in
  w ← averaging_window_timespan_for_height network (Z.of_nat h);
  min_difficulty ← is_testnet_min_difficulty_block network (Z.of_nat h) t (nTime chain (h - 1));
  to_compact (if (min_difficulty : bool) then limit else Threshold chain limit w h).

Lemma required_specified network chain limit t : length chain ≠ 17%nat → required_threshold network chain limit t = specified_threshold network chain limit t.
Proof.
  intros Hh. unfold required_threshold, specified_threshold. cbv zeta. destruct (averaging_window_timespan_for_height _ _); [|done..]. rewrite !Ok_bind.
  by rewrite code_threshold_spec.
Qed.

(** C24: a block is valid for the recent chain exactly when its height is above the finalized tip and one above its parent, its time is after the
    median time past and (where the rule is enforced) at most 90 minutes after it, and its difficulty threshold is the required one. At every
    height but 17 the required threshold is [ThresholdBits] of the specification, or the limit for Testnet minimum difficulty blocks; at height 17
    the mean target is the average of the 17 blocks, where the specification has the limit. On any chain whose last 17 compact targets decode
    to targets of at least 2550 and at most the limit the check never panics. *)
Theorem recent_chain_exact (network : Network) (blocks : list Block) (limit : Z) (b : SemanticallyVerifiedBlock)
    (fin : Height) (parent : Block)
    (Hnet : activations_ok (activation_list network)) (Hlimit : target_difficulty_limit network = Ok limit)
    (Hroom : 2550 ≤ limit ∧ limit * 17 < 2 ^ 256)
    (Hlen : blocks ≠ [] ∧ Z.of_nat (length blocks) ≤ MAX)
    (Hok : Forall (threshold_ok limit ∘ fst) (drop (length (chain_data blocks) - 17) (chain_data blocks)))
    (Hlast : last blocks = Some parent)
    (Hp : coinbase_height parent = Some (Z.of_nat (length (chain_data blocks)) - 1))
    (Hb : coinbase_height (sv_block b) = Some (sv_height b)) :
  let h := length (chain_data blocks) in
  let block := header (sv_block b) in
  no_panic (block_is_valid_for_recent_chain b network (Some fin) (reverse blocks)) ∧
  (block_is_valid_for_recent_chain b network (Some fin) (reverse blocks) = Ok tt ↔
   fin < sv_height b ∧ sv_height b = Z.of_nat h ∧
   time_ok network (Z.of_nat h) (MedianTime (chain_data blocks) h) (time block) ∧
   required_threshold network (chain_data blocks) limit (time block) = Ok (difficulty_threshold block)) ∧
  (h ≠ 17%nat → required_threshold network (chain_data blocks) limit (time block) = specified_threshold network (chain_data blocks) limit (time block)).
Proof.
  cbv zeta. apply and_assoc. split; [|apply required_specified]. rewrite (recent_chain_reduce network blocks limit Hlen Hok b fin parent Hlast Hp Hb).
  destruct (Z.leb_spec (sv_height b) fin); [split; [done|split; [done|lia]]|].
  destruct (Z.eqb_spec (sv_height b) (Z.of_nat (length (chain_data blocks)))) as [He|He]; cbn [negb];
    [|split; [done|split; [done|naive_solver]]].
  destruct (threshold_and_time_exact network blocks limit Hnet Hlimit Hroom Hlen Hok (time (header (sv_block b)))
    (difficulty_threshold (header (sv_block b)))) as [Hnp Hiff].
  split; [done|]. rewrite Hiff. tauto.
Qed.

(** *** An instance: three blocks on Mainnet *)

Definition context_sample_block (i t : Z) : Block :=
  mkBlock (mkHeader 4 [] [] [] t 0x1d00ffff [] (Common [])) [V1 [Coinbase i [] 0] [] (LockHeight 0)].
Definition context_sample_chain : list Block := (λ i, context_sample_block i (80 * i)) <$> [0; 1; 2].
Definition context_sample_candidate : SemanticallyVerifiedBlock :=
  mkSemantic (context_sample_block 3 240) [] 3 ∅ [] None.

Lemma recent_chain_exact_witness :
  no_panic (block_is_valid_for_recent_chain context_sample_candidate Mainnet (Some 1) (reverse context_sample_chain)).
Proof.
  refine (proj1 (recent_chain_exact Mainnet context_sample_chain MAINNET_LIMIT context_sample_candidate 1
    (context_sample_block 2 160) _ _ _ _ _ _ _ _)).
  - exact activations_ok_mainnet.
  - reflexivity.
  - split; [intros H; vm_compute in H|]; reflexivity || discriminate.
  - split; [discriminate|]. intros H. vm_compute in H. discriminate.
  - repeat (constructor; [repeat split; (reflexivity || (intros H; vm_compute in H; discriminate))|]). constructor.
  - reflexivity.
  - reflexivity.
  - reflexivity.
Defined.

(** ** Exactness of the commitment check *)

Section CommitmentExact.
Context `{!HashFns} (try_from : list Z → option Hash) (v5_auth_digest : Transaction → Hash).

Lemma merkle_auth_total block : ∃ auth, block_auth_data_root v5_auth_digest block = Ok auth.
Proof.
  unfold block_auth_data_root, auth_data_root_from.
  destruct (auth_data_root_Ok (default AUTH_DIGEST_PLACEHOLDER <$> (auth_digest v5_auth_digest <$> transactions block)))
    as [r Hr]. eauto.
Qed.

(** What the commitment field of a block must be: ignored before Sapling, a Sapling root
    (not checked against the tree) until Heartwood, zeroes in the Heartwood activation block,
    the history tree root until NU5, and from then on the hash of the history tree root (or of
    zeroes, if NU5 activates with Heartwood) and the authorizing data root. *)
Definition commitment_ok (network : Network) (height : Height) (block : Block) (history : option Hash) : Prop :=
  let bytes := commitment_bytes (header block) in
  if reached Nu5 network height then
    ∃ auth, block_auth_data_root v5_auth_digest block = Ok auth ∧
      bytes = from_commitments (default CHAIN_HISTORY_ACTIVATION_RESERVED history) auth
  else if reached Heartwood network height then
    if bool_decide (activation_height Heartwood network = Some height)
    then bytes = CHAIN_HISTORY_ACTIVATION_RESERVED else history = Some bytes
  else if reached Network.Sapling network height then is_Some (try_from bytes)
  else True.

(** C32: the commitment check accepts exactly the blocks whose commitment field follows the
    rule of their network upgrade, and never panics, provided the history tree of the
    previous block is only missing up to the Heartwood activation height. *)
Theorem block_commitment_exact (network : Network) (height : Height) (block : Block) (history : option Hash)
    (Hnet : activations_ok (activation_list network)) (Hheight : 0 ≤ height)
    (Hblock : coinbase_height block = Some height)
    (Hhist : history = None → ∀ a, activation_height Heartwood network = Some a → height ≤ a) :
  no_panic (block_commitment_is_valid_for_chain_history try_from v5_auth_digest block network history) ∧
  (block_commitment_is_valid_for_chain_history try_from v5_auth_digest block network history = Ok tt ↔
   commitment_ok network height block history).
Proof.
  unfold block_commitment_is_valid_for_chain_history, block_commitment, commitment_ok. rewrite Hblock.
  rewrite commitment_from_bytes_rule by done. unfold commitment_rule, activation_reserved.
  destruct (current_latest network height Hnet Hheight) as (hc & c & _ & Hc & _).
  set (bytes := commitment_bytes (header block)).
  assert (Hat : history = None → reached Heartwood network height = true →
    activation_height Heartwood network = Some height).
  { unfold reached. intros Hn Hr. specialize (Hhist Hn). destruct (activation_height Heartwood network) as [a|]; [|done].
    specialize (Hhist a eq_refl). apply Z.leb_le in Hr. f_equal. lia. }
  assert (H5 : reached Nu5 network height = true → reached Heartwood network height = true).
  { rewrite !(reached_index network height c) by done. rewrite !Z.leb_le. cbn. lia. }
  destruct (reached Nu5 network height).
  - cbn [map_err]. rewrite Ok_bind. destruct (merkle_auth_total block) as [auth Hauth].
    rewrite Hauth. assert (Hroot : (match history with Some hash => Some hash | None =>
        if bool_decide (activation_height Heartwood network = Some height)
        then Some CHAIN_HISTORY_ACTIVATION_RESERVED else None end) =
        Some (default CHAIN_HISTORY_ACTIVATION_RESERVED history)).
    { destruct history; [done|]. by rewrite bool_decide_eq_true_2 by auto. }
    rewrite Hroot. clear Hroot. cbn [expect lift]. rewrite !Ok_bind. case_bool_decide; (split; [done|]).
    + split; [eauto|done].
    + split; [done|]. intros (auth' & [= <-] & ?). done.
  - destruct (reached Heartwood network height).
    + destruct (bool_decide_reflect (activation_height Heartwood network = Some height)) as [Ha|Ha].
      * case_bool_decide; cbn; (split; [done|]); by split.
      * cbn [map_err]. rewrite Ok_bind. destruct history as [root|]; [|by destruct Ha; auto]. cbn [expect].
        rewrite Ok_bind. case_bool_decide as Hd; (split; [done|]); split; try done; [by rewrite Hd|].
        intros [= Hr]. by destruct Hd.
    + destruct (reached Network.Sapling network height); [|by repeat split].
      destruct (try_from bytes); cbn; (split; [done|]); split; try done.
Qed.

End CommitmentExact.

#[local] Instance context_sample_hashes : HashFns := {| sha256 bytes := bytes; blake2b_256 p bytes := p ++ bytes |}.

(** A Canopy block of Mainnet that commits to the root [[7]] of its history tree. *)
Lemma block_commitment_exact_witness :
  let block := mkBlock (mkHeader 4 [] [] [7] 0 0 [] (Common [])) [V1 [Coinbase 1046500 [] 0] [] (LockHeight 0)] in
  no_panic (block_commitment_is_valid_for_chain_history (λ _, None) (λ _, []) block Mainnet (Some [7])).
Proof.
  intros block. refine (proj1 (block_commitment_exact (λ _, None) (λ _, []) Mainnet 1046500 block (Some [7]) _ _ _ _)).
  - exact activations_ok_mainnet.
  - discriminate.
  - reflexivity.
  - discriminate.
Defined.

(** ** Exactness of the legacy chain check *)

Section LegacyExact.
Context `{!Literals} (nu5 : Height) (network : Network) (max : Z).

(** A block that the check skips: after NU5, consistent, and without a network upgrade field. *)
Definition skipped (block : Block) : Prop :=
  (∃ height, coinbase_height block = Some height ∧ nu5 ≤ height) ∧
  check_transaction_network_upgrade_consistency block network = Ok tt ∧ has_network_upgrade block = false.

(** A block at [index] at which the check stops and accepts. *)
Definition accepted (index : Z) (block : Block) : Prop :=
  (∃ height, coinbase_height block = Some height ∧ height < nu5) ∨
  (∃ height, coinbase_height block = Some height ∧ nu5 ≤ height ∧ index < max ∧
     check_transaction_network_upgrade_consistency block network = Ok tt ∧ has_network_upgrade block = true).

(** The verdict on ancestors from [index] on: some are skipped, and then the check
    runs out of ancestors or accepts. *)
Definition legacy_ok (index : Z) (ancestors : list Block) : Prop :=
  ∃ skip rest, ancestors = skip ++ rest ∧ Forall skipped skip ∧ index + Z.of_nat (length skip) ≤ Z.max index max ∧
    match rest with [] => True | block :: _ => accepted (index + Z.of_nat (length skip)) block end.

Lemma legacy_ok_cons index block ancestors : legacy_ok index (block :: ancestors) ↔
  accepted index block ∨ (skipped block ∧ index < max ∧ legacy_ok (index + 1) ancestors).
Proof.
  split.
  - intros ([|b skip] & rest & Heq & Hs & Hle & Hr); cbn [length] in *; simplify_eq/=.
    + left. by rewrite Z.add_0_r in Hr.
    + right. apply Forall_cons in Hs as [Hb Hs]. split; [done|]. split; [lia|].
      exists skip, rest. split_and!; [done|done|lia|]. by replace (index + 1 + Z.of_nat (length skip))
        with (index + Z.of_nat (S (length skip))) by lia.
  - intros [Ha|(Hb & Hlt & skip & rest & -> & Hs & Hle & Hr)].
    + exists [], (block :: ancestors). split_and!; [done|constructor|cbn; lia|]. by rewrite Z.add_0_r.
    + exists (block :: skip), rest. split_and!; [done|by constructor|cbn [length]; lia|].
      cbn [length]. by replace (index + Z.of_nat (S (length skip))) with (index + 1 + Z.of_nat (length skip)) by lia.
Qed.

Lemma legacy_chain_loop_exact ancestors : ∀ index tip,
  legacy_chain_loop nu5 network max index tip ancestors = Ok tt ↔ legacy_ok index ancestors.
Proof.
  induction ancestors as [|block ancestors IH]; intros index tip; cbn [legacy_chain_loop].
  { split; [|done]. intros _. exists [], []. split_and!; [done|constructor|cbn; lia|done]. }
  rewrite legacy_ok_cons. unfold accepted, skipped.
  destruct (coinbase_height block) as [height|]; cbn [expect]; [rewrite Ok_bind|naive_solver].
  destruct (Z.ltb_spec height nu5); [naive_solver|].
  destruct (Z.leb_spec max index); [destruct tip; cbn; naive_solver lia|].
  destruct (check_transaction_network_upgrade_consistency block network) as [[]| |]; cbn [map_err];
    [|split; [done|]; intros [[(? & [= <-] & ?)|(? & _ & _ & _ & [=] & _)]|[(_ & [=] & _) _]]; lia..].
  rewrite Ok_bind. destruct (has_network_upgrade block).
  { split; [|done]. intros _. left. right. exists height. done. }
  rewrite IH. split.
  - intros Hl. right. split; [|done]. split; [by exists height|done].
  - intros [[(? & [= <-] & ?)|(? & _ & _ & _ & _ & [=])]|(_ & _ & ?)]; [lia|done].
Qed.

(** the check for legacy chains accepts exactly when, going back from the tip, it meets a
    block before NU5, or within the block limit a consistent block with a network upgrade
    field, or the end of the ancestors, after skipping only consistent NU5 blocks without
    such a field. If all ancestors have heights it never panics. *)
Theorem legacy_chain_exact (ancestors : list Block) :
  (legacy_chain nu5 network max ancestors = Ok tt ↔ legacy_ok 0 ancestors) ∧
  (activations_ok (activation_list network) →
   (∀ block, block ∈ ancestors → ∃ height, coinbase_height block = Some height ∧ 0 ≤ height) →
   no_panic (legacy_chain nu5 network max ancestors)).
Proof.
  split; [apply legacy_chain_loop_exact|]. intros Hnet Hheights. unfold legacy_chain.
  destruct ancestors as [|tip ancestors]; [done|]. cbn [head mbind option_bind].
  destruct (Hheights tip) as (tip_height & -> & _); [left|]. revert Hheights.
  generalize (tip :: ancestors). intros l Hheights. generalize 0 at 1. revert Hheights.
  induction l as [|block l IH]; intros Hheights index; [done|].
  cbn [legacy_chain_loop]. destruct (Hheights block) as (height & Hb & Hpos); [left|]. rewrite Hb. cbn [expect].
  rewrite Ok_bind. destruct (height <? nu5); [done|]. destruct (max <=? index); [done|].
  unfold check_transaction_network_upgrade_consistency. rewrite Hb. cbn [expect]. rewrite Ok_bind.
  destruct (current_latest network height Hnet Hpos) as (hc & c & _ & -> & _). cbn [lift]. rewrite Ok_bind.
  destruct (existsb _ _); [done|]. cbn [map_err]. rewrite Ok_bind. destruct (has_network_upgrade block); [done|].
  apply IH. intros b Hin. apply Hheights. by right.
Qed.

End LegacyExact.
