(* ===== verification/Chain.v ===== *)
(** * A non-finalized chain

    [Chain] of [zebra-state/src/service/non_finalized_state/chain.rs], with the
    note commitment tree updates of [zebra-chain/src/parallel/tree.rs]: adding a
    block at the tip ([push]), removing the tip ([pop_tip], [fork],
    [invalidate_block]) and the root ([pop_root]), the queries, and the order of
    chains.

    The fields of [ChainInner] that follow the transactions are grouped in the
    [Ledger], and the trees and anchors of each pool in its tree index. The note
    commitment trees and the history tree, which wrap the
    [incrementalmerkletree] and [zcash_history] libraries, and the serialized
    size of a block are the parameters [ChainEnv].

    The parallel tasks of an update do not share state: they run one after the
    other in the model, and a panic in any of them is a panic of the update. *)

From S2P Require Import Prelude BTreeMap Height Difficulty Amount ValueBalance Network Transaction.
From S2P Require Import Reversible Transfers TreeIndex Ledger.

Class ChainEnv := {
  SproutTree : Type;
  SaplingTree : Type; SaplingNode : Type;
  OrchardTree : Type; OrchardNode : Type;
  HistoryTree : Type;
  sprout_note_tree :: NoteTree SproutTree Hash;
  sapling_note_tree :: NoteTree SaplingTree Hash;
  orchard_note_tree :: NoteTree OrchardTree Hash;
  (** [NoteCommitmentTree::append]: [None] when the tree is full. *)
  sprout_append : SproutTree → Hash → option SproutTree;
  sapling_append : SaplingTree → Hash → option SaplingTree;
  orchard_append : OrchardTree → Hash → option OrchardTree;
  (** [completed_subtree_index_and_root]. *)
  sapling_completed_subtree : SaplingTree → option (Z * SaplingNode);
  orchard_completed_subtree : OrchardTree → option (Z * OrchardNode);
  (** [HistoryTree::push]. *)
  history_push : HistoryTree → Network → Block → Hash → Hash → Res HistoryTreeError HistoryTree;
  (** [HistoryTree::hash]: empty trees have none. *)
  history_hash : HistoryTree → option Hash;
  (** [Block::zcash_serialized_size]. *)
  zcash_serialized_size : Block → Z;
}.

Class ChainEnvLaws `{!ChainEnv} : Prop := {
  sprout_laws :: NoteTreeLaws SproutTree Hash;
  sapling_laws :: NoteTreeLaws SaplingTree Hash;
  orchard_laws :: NoteTreeLaws OrchardTree Hash;
}.

(** ** Subtrees *)

Record NoteCommitmentSubtree (Node : Type) := mkSubtree {
  subtree_index : Z; subtree_root : Node; subtree_end_height : Height }.
Arguments mkSubtree {Node}.
Arguments subtree_index {Node}.
Arguments subtree_root {Node}.
Arguments subtree_end_height {Node}.

(** [NoteCommitmentSubtreeData]: the root and the end height. *)
Record NoteCommitmentSubtreeData (Node : Type) := mkSubtreeData { data_root : Node; end_height : Height }.
Arguments mkSubtreeData {Node}.
Arguments data_root {Node}.
Arguments end_height {Node}.

Definition into_data {Node} (self : NoteCommitmentSubtree Node) : NoteCommitmentSubtreeData Node :=
  mkSubtreeData (subtree_root self) (subtree_end_height self).
Definition with_index {Node} (self : NoteCommitmentSubtreeData Node) (index : Z) : NoteCommitmentSubtree Node :=
  mkSubtree index (data_root self) (end_height self).

Record BlockInfo := mkBlockInfo { value_pools : ValueBalance NonNegative; size : Z }.

Section Chain.
Context `{Env : !ChainEnv, SP : !ScriptParser}.

(** ** Note commitment tree updates *)

Record NoteCommitmentTrees := mkTrees {
  trees_sprout : SproutTree;
  trees_sapling : SaplingTree;
  sapling_subtree_new : option (NoteCommitmentSubtree SaplingNode);
  trees_orchard : OrchardTree;
  orchard_subtree_new : option (NoteCommitmentSubtree OrchardNode);
}.

Definition update_sprout_note_commitment_tree (sprout : SproutTree) (commitments : list Hash) :
    Res NoteCommitmentTreeError SproutTree :=
  foldM (fun tree cm => ok_or (sprout_append tree cm) SproutFullTree) sprout commitments.

(** The tree, and the index and root of the last completed subtree. *)
Definition update_sapling_note_commitment_tree (sapling : SaplingTree) (commitments : list Hash) :
    Res NoteCommitmentTreeError (SaplingTree * option (Z * SaplingNode)) :=
  foldM (fun '(tree, subtree_root) cm =>
           tree ← ok_or (sapling_append tree cm) SaplingFullTree;
           Ok (tree, match sapling_completed_subtree tree with
                     | Some index_and_node => Some index_and_node
                     | None => subtree_root
                     end))
        (sapling, None) commitments.
Definition update_orchard_note_commitment_tree (orchard : OrchardTree) (commitments : list Hash) :
    Res NoteCommitmentTreeError (OrchardTree * option (Z * OrchardNode)) :=
  foldM (fun '(tree, subtree_root) cm =>
           tree ← ok_or (orchard_append tree cm) OrchardFullTree;
           Ok (tree, match orchard_completed_subtree tree with
                     | Some index_and_node => Some index_and_node
                     | None => subtree_root
                     end))
        (orchard, None) commitments.

Definition new_subtree {Node} (height : Height) (subtree : Z * Node) : NoteCommitmentSubtree Node :=
  mkSubtree subtree.1 subtree.2 height.

(** A pool without new commitments keeps its tree and its subtree. *)
Definition sprout_result (self : NoteCommitmentTrees) (block : Block) : Res NoteCommitmentTreeError SproutTree :=
  match block_sprout_note_commitments block with
  | [] => Ok (trees_sprout self)
  | commitments => update_sprout_note_commitment_tree (trees_sprout self) commitments
  end.
Definition sapling_result (self : NoteCommitmentTrees) (block : Block) (height : Height) :
    Res NoteCommitmentTreeError (SaplingTree * option (NoteCommitmentSubtree SaplingNode)) :=
  match block_sapling_note_commitments block with
  | [] => Ok (trees_sapling self, sapling_subtree_new self)
  | commitments =>
      '(sapling, subtree_root) ← update_sapling_note_commitment_tree (trees_sapling self) commitments;
      Ok (sapling, option_map (new_subtree height) subtree_root)
  end.
Definition orchard_result (self : NoteCommitmentTrees) (block : Block) (height : Height) :
    Res NoteCommitmentTreeError (OrchardTree * option (NoteCommitmentSubtree OrchardNode)) :=
  match block_orchard_note_commitments block with
  | [] => Ok (trees_orchard self, orchard_subtree_new self)
  | commitments =>
      '(orchard, subtree_root) ← update_orchard_note_commitment_tree (trees_orchard self) commitments;
      Ok (orchard, option_map (new_subtree height) subtree_root)
  end.

Definition update_trees_parallel (self : NoteCommitmentTrees) (block : Block) :
    Res NoteCommitmentTreeError NoteCommitmentTrees :=
  height ← expect (coinbase_height block);
  sprout ← sprout_result self block;
  '(sapling, sapling_subtree) ← sapling_result self block height;
  '(orchard, orchard_subtree) ← orchard_result self block height;
  Ok (mkTrees sprout sapling sapling_subtree orchard orchard_subtree).

(** ** The state of a chain *)

Record ChainInner := mkInner {
  blocks : list (Z * ContextuallyVerifiedBlock);
  height_by_hash : gmap Hash Height;
  ledger : Ledger;
  sprout_trees : SproutTrees SproutTree Hash;
  sapling_trees : PoolTrees SaplingTree Hash;
  sapling_subtrees : list (Z * NoteCommitmentSubtreeData SaplingNode);
  orchard_trees : PoolTrees OrchardTree Hash;
  orchard_subtrees : list (Z * NoteCommitmentSubtreeData OrchardNode);
  history_trees_by_height : list (Z * HistoryTree);
  partial_cumulative_work : PartialCumulativeWork;
  chain_value_pools : ValueBalance NonNegative;
  block_info_by_height : list (Z * BlockInfo);
}.

Record Chain := mkChain {
  chain_network : Network;
  inner : ChainInner;
  last_fork_height : option Height;
}.

(** The result of [pop_root], with the block. *)
Record Treestate := mkTreestate { note_commitment_trees : NoteCommitmentTrees; history_tree : HistoryTree }.

Definition chain_new (network : Network) (finalized_tip_height : Height) (sprout : SproutTree)
    (sapling : SaplingTree) (orchard : OrchardTree) (history_tree : HistoryTree)
    (finalized_tip_chain_value_pools : ValueBalance NonNegative) : Run Chain :=
  sprout_trees ← add_sprout_tree_and_anchor sprout_trees_new finalized_tip_height sprout;
  sapling_trees ← add_tree_and_anchor pool_new finalized_tip_height sapling;
  orchard_trees ← add_tree_and_anchor pool_new finalized_tip_height orchard;
  history ← add_history_tree [] finalized_tip_height history_tree;
  Ok (mkChain network
        (mkInner [] ∅ ledger_new sprout_trees sapling_trees [] orchard_trees [] history 0
           finalized_tip_chain_value_pools [])
        None).

(** *** Queries *)

Inductive HashOrHeight := ByHash (hash : Hash) | ByHeight (height : Height).

Definition height_or_else (self : ChainInner) (id : HashOrHeight) : option Height :=
  match id with ByHash hash => height_by_hash self !! hash | ByHeight height => Some height end.

Definition chain_is_empty (self : ChainInner) : bool := match blocks self with [] => true | _ => false end.
Definition len (self : ChainInner) : nat := length (blocks self).
Definition max_block_height (self : ChainInner) : option Height := fst <$> bt_last (blocks self).
Definition tip_block (self : ChainInner) : option ContextuallyVerifiedBlock := snd <$> bt_last (blocks self).
Definition non_finalized_tip_height (self : ChainInner) : Run Height := expect (max_block_height self).
Definition non_finalized_tip_hash (self : ChainInner) : Run Hash := cv_hash <$> expect (tip_block self).
Definition non_finalized_root_height (self : ChainInner) : Run Height := fst <$> expect (bt_first (blocks self)).
Definition non_finalized_root_hash (self : ChainInner) : Run Hash :=
  (fun e => cv_hash e.2) <$> expect (bt_first (blocks self)).
Definition non_finalized_nth_hash (self : ChainInner) (n : nat) : option Hash :=
  (fun e => cv_hash e.2) <$> blocks self !! n.
Definition chain_block (self : ChainInner) (id : HashOrHeight) : option ContextuallyVerifiedBlock :=
  height ← height_or_else self id; bt_get height (blocks self).
Definition hash_by_height (self : ChainInner) (height : Height) : option Hash :=
  cv_hash <$> bt_get height (blocks self).
Definition contains_block_hash (self : ChainInner) (hash : Hash) : bool :=
  bool_decide (is_Some (height_by_hash self !! hash)).
Definition contains_block_height (self : ChainInner) (height : Height) : bool :=
  bool_decide (is_Some (bt_get height (blocks self))).
Definition transaction_hashes_for_block (self : ChainInner) (id : HashOrHeight) : option (list Hash) :=
  cv_transaction_hashes <$> chain_block self id.
Definition block_info (self : ChainInner) (id : HashOrHeight) : option BlockInfo :=
  height ← height_or_else self id; bt_get height (block_info_by_height self).
(** [transaction]: the indexing of the block and of its transactions may panic. *)
Definition chain_transaction (self : ChainInner) (hash : Hash) : option (Run (Transaction * Height * Z)) :=
  (fun tx_loc =>
     b ← expect (bt_get (tx_loc_height tx_loc) (blocks self));
     tx ← expect (transactions (cv_block b) !! Z.to_nat (tx_loc_index tx_loc));
     Ok (tx, tx_loc_height tx_loc, time (header (cv_block b))))
  <$> tx_loc_by_hash (ledger self) !! hash.
Definition transaction_by_loc (self : ChainInner) (tx_loc : TransactionLocation) : option Transaction :=
  b ← bt_get (tx_loc_height tx_loc) (blocks self);
  transactions (cv_block b) !! Z.to_nat (tx_loc_index tx_loc).
Definition transaction_hash_by_loc (self : ChainInner) (tx_loc : TransactionLocation) : option Hash :=
  b ← bt_get (tx_loc_height tx_loc) (blocks self);
  cv_transaction_hashes b !! Z.to_nat (tx_loc_index tx_loc).

Definition sprout_tree (self : ChainInner) (id : HashOrHeight) : option SproutTree :=
  height ← height_or_else self id; tree_at (sprout_pool (sprout_trees self)) height.
Definition sapling_tree (self : ChainInner) (id : HashOrHeight) : option SaplingTree :=
  height ← height_or_else self id; tree_at (sapling_trees self) height.
Definition orchard_tree (self : ChainInner) (id : HashOrHeight) : option OrchardTree :=
  height ← height_or_else self id; tree_at (orchard_trees self) height.
Definition chain_history_tree (self : ChainInner) (id : HashOrHeight) : option HistoryTree :=
  height ← height_or_else self id; history_at (history_trees_by_height self) height.

Definition find_subtree {Node} (subtrees : list (Z * NoteCommitmentSubtreeData Node)) (height : Height) :
    option (NoteCommitmentSubtree Node) :=
  (fun e => with_index e.2.2 e.2.1) <$> list_find (fun e => end_height e.2 = height) subtrees.
Definition sapling_subtree (self : ChainInner) (id : HashOrHeight) : option (NoteCommitmentSubtree SaplingNode) :=
  height ← height_or_else self id; find_subtree (sapling_subtrees self) height.
Definition orchard_subtree (self : ChainInner) (id : HashOrHeight) : option (NoteCommitmentSubtree OrchardNode) :=
  height ← height_or_else self id; find_subtree (orchard_subtrees self) height.
Definition sapling_subtree_for_tip (self : ChainInner) : option (NoteCommitmentSubtree SaplingNode) :=
  tip ← max_block_height self; sapling_subtree self (ByHeight tip).
Definition orchard_subtree_for_tip (self : ChainInner) : option (NoteCommitmentSubtree OrchardNode) :=
  tip ← max_block_height self; orchard_subtree self (ByHeight tip).

Definition treestate (self : ChainInner) (id : HashOrHeight) : option Treestate :=
  sprout ← sprout_tree self id;
  sapling ← sapling_tree self id;
  orchard ← orchard_tree self id;
  history ← chain_history_tree self id;
  Some (mkTreestate (mkTrees sprout sapling (sapling_subtree self id) orchard (orchard_subtree self id)) history).

Definition child_blocks (self : ChainInner) (block_height : Height) : list ContextuallyVerifiedBlock :=
  (bt_range_ge block_height (blocks self)).*2.

(** *** Adding a block *)

(** [UpdateWith<(ValueBalance<NegativeAllowed>, Height, usize)>]: the pools and
    the block information. *)
Definition update_value_pools (pools : ValueBalance NonNegative) (infos : list (Z * BlockInfo))
    (change : ValueBalance NegativeAllowed) (height : Height) (size : Z) :
    Res ValidateContextError (ValueBalance NonNegative * list (Z * BlockInfo)) :=
  match add_chain_value_pool_change pools change with
  | Ok pools => Ok (pools, bt_insert height (mkBlockInfo pools (wrap U32 size)) infos)
  | Err e => Err (AddValuePool e pools change (Some height))
  | Panic => Panic
  end.
Definition revert_value_pools (pools : ValueBalance NonNegative) (infos : list (Z * BlockInfo))
    (change : ValueBalance NegativeAllowed) (height : Height) (position : RevertPosition) :
    Run (ValueBalance NonNegative * list (Z * BlockInfo)) :=
  pools ← match position with
          | Tip => change ← expect_ok (neg change); expect_ok (add_chain_value_pool_change pools change)
          | Root => Ok pools
          end;
  Ok (pools, bt_remove height infos).

(** [block.header.difficulty_threshold.to_work().expect(..)]. *)
Definition block_work (block : Block) : Run Work :=
  work ← to_work (difficulty_threshold (header block)); expect work.

Definition update_chain_tip_with_block_except_trees (network : Network) (self : ChainInner)
    (b : ContextuallyVerifiedBlock) : Res ValidateContextError ChainInner :=
  hashes ← insert_new (fun _ => Panic) (height_by_hash self) (cv_hash b, cv_height b);
  work ← lift (block_work (cv_block b));
  work ← lift (work_add (partial_cumulative_work self) work);
  ledger ← update_transactions network b (ledger self);
  pools ← update_value_pools (chain_value_pools self) (block_info_by_height self)
            (cv_chain_value_pool_change b) (cv_height b) (zcash_serialized_size (cv_block b));
  Ok (mkInner (blocks self) hashes ledger (sprout_trees self) (sapling_trees self) (sapling_subtrees self)
        (orchard_trees self) (orchard_subtrees self) (history_trees_by_height self) work pools.1 pools.2).

Definition insert_subtree {Node} (subtree : option (NoteCommitmentSubtree Node))
    (subtrees : list (Z * NoteCommitmentSubtreeData Node)) : list (Z * NoteCommitmentSubtreeData Node) :=
  match subtree with
  | Some subtree => bt_insert (subtree_index subtree) (into_data subtree) subtrees
  | None => subtrees
  end.

(** The trees of the tip. *)
Definition trees_for_tip (self : ChainInner) : Res ValidateContextError NoteCommitmentTrees :=
  sprout ← tree_for_tip (sprout_pool (sprout_trees self));
  sapling ← tree_for_tip (sapling_trees self);
  orchard ← tree_for_tip (orchard_trees self);
  Ok (mkTrees sprout sapling (sapling_subtree_for_tip self) orchard (orchard_subtree_for_tip self)).

(** The end of the update: the trees [nct] of the block at [height] are added. *)
Definition add_trees (network : Network) (self : ChainInner) (b : ContextuallyVerifiedBlock)
    (nct : NoteCommitmentTrees) : Res ValidateContextError ChainInner :=
  let height := cv_height b in
  sprout ← add_sprout_tree_and_anchor (sprout_trees self) height (trees_sprout nct);
  sapling ← add_tree_and_anchor (sapling_trees self) height (trees_sapling nct);
  orchard ← add_tree_and_anchor (orchard_trees self) height (trees_orchard nct);
  sapling_tip ← tree_for_tip sapling;
  orchard_tip ← tree_for_tip orchard;
  history ← history_for_tip (history_trees_by_height self);
  history ← map_err HistoryError
              (history_push history network (cv_block b) (tree_root sapling_tip) (tree_root orchard_tip));
  histories ← add_history_tree (history_trees_by_height self) height history;
  Ok (mkInner (blocks self) (height_by_hash self) (ledger self) sprout
        sapling (insert_subtree (sapling_subtree_new nct) (sapling_subtrees self))
        orchard (insert_subtree (orchard_subtree_new nct) (orchard_subtrees self))
        histories (partial_cumulative_work self) (chain_value_pools self) (block_info_by_height self)).

(** Both tasks run to their end before the errors are returned. *)
Definition update_chain_tip_with_block_parallel (network : Network) (self : ChainInner)
    (b : ContextuallyVerifiedBlock) : Res ValidateContextError ChainInner :=
  nct ← trees_for_tip self;
  match update_trees_parallel nct (cv_block b), update_chain_tip_with_block_except_trees network self b with
  | Panic, _ | _, Panic => Panic
  | Err e, _ => Err (TreeError e)
  | Ok _, Err e => Err e
  | Ok nct, Ok self => add_trees network self b nct
  end.

Definition set_blocks (self : ChainInner) (blocks : list (Z * ContextuallyVerifiedBlock)) : ChainInner :=
  mkInner blocks (height_by_hash self) (ledger self) (sprout_trees self) (sapling_trees self)
    (sapling_subtrees self) (orchard_trees self) (orchard_subtrees self) (history_trees_by_height self)
    (partial_cumulative_work self) (chain_value_pools self) (block_info_by_height self).

Definition push (self : Chain) (b : ContextuallyVerifiedBlock) : Res ValidateContextError Chain :=
  state ← update_chain_tip_with_block_parallel (chain_network self) (inner self) b;
  Ok (mkChain (chain_network self) (set_blocks state (bt_insert (cv_height b) b (blocks state)))
        (last_fork_height self)).

(** *** Removing blocks *)

(** [UpdateWith<ContextuallyVerifiedBlock>::revert_chain_with]; the block has
    already been removed from [blocks]. *)
Definition revert_chain_with (network : Network) (self : ChainInner) (b : ContextuallyVerifiedBlock)
    (position : RevertPosition) : Run ChainInner :=
  let height := cv_height b in
  let tip := max_block_height self in
  hashes ← remove_present (height_by_hash self) (cv_hash b);
  work ← block_work (cv_block b);
  work ← work_sub (partial_cumulative_work self) work;
  ledger ← revert_transactions network b (ledger self);
  sprout ← remove_sprout_tree_and_anchor (sprout_trees self) position height tip;
  sapling ← remove_tree_and_anchor (sapling_trees self) position height tip;
  orchard ← remove_tree_and_anchor (orchard_trees self) position height tip;
  histories ← remove_history_tree (history_trees_by_height self) position height;
  pools ← revert_value_pools (chain_value_pools self) (block_info_by_height self)
            (cv_chain_value_pool_change b) height position;
  Ok (mkInner (blocks self) hashes ledger sprout sapling (sapling_subtrees self) orchard (orchard_subtrees self)
        histories work pools.1 pools.2).

Definition pop_tip (self : Chain) : Run Chain :=
  height ← non_finalized_tip_height (inner self);
  b ← expect (bt_get height (blocks (inner self)));
  let state := set_blocks (inner self) (bt_remove height (blocks (inner self))) in
  _ ← assert (negb (chain_is_empty state));
  state ← revert_chain_with (chain_network self) state b Tip;
  Ok (mkChain (chain_network self) state (last_fork_height self)).

Definition pop_subtree {Node} (completed : bool) (subtrees : list (Z * NoteCommitmentSubtreeData Node)) :
    list (Z * NoteCommitmentSubtreeData Node) :=
  if completed then tail subtrees else subtrees.

Definition is_some {A} (o : option A) : bool := match o with Some _ => true | None => false end.

Definition pop_root (self : Chain) : Run (ContextuallyVerifiedBlock * Treestate * Chain) :=
  let state := inner self in
  height ← non_finalized_root_height state;
  trees ← expect (treestate state (ByHeight height));
  let nct := note_commitment_trees trees in
  b ← expect (bt_get height (blocks state));
  let state := mkInner (bt_remove height (blocks state)) (height_by_hash state) (ledger state)
    (sprout_trees state) (sapling_trees state)
    (pop_subtree (is_some (sapling_subtree_new nct)) (sapling_subtrees state)) (orchard_trees state)
    (pop_subtree (is_some (orchard_subtree_new nct)) (orchard_subtrees state))
    (history_trees_by_height state) (partial_cumulative_work state) (chain_value_pools state)
    (block_info_by_height state) in
  state ← revert_chain_with (chain_network self) state b Root;
  Ok (b, trees, mkChain (chain_network self) state (last_fork_height self)).

(** The loop of [fork]: a chain has fewer tips to pop than blocks. *)
Fixpoint fork_loop (fuel : nat) (forked : Chain) (fork_tip : Hash) : Run Chain :=
  tip ← non_finalized_tip_hash (inner forked);
  if decide (tip = fork_tip) then Ok forked
  else match fuel with
       | O => Panic
       | S fuel =>
           forked ← pop_tip forked;
           height ← non_finalized_tip_height (inner forked);
           fork_loop fuel (mkChain (chain_network forked) (inner forked) (Some height)) fork_tip
       end.
Definition fork (self : Chain) (fork_tip : Hash) : Run (option Chain) :=
  if contains_block_hash (inner self) fork_tip
  then Some <$> fork_loop (len (inner self)) self fork_tip
  else Ok None.

(** [Option::min]: [None] is the least value. *)
Definition min_height (a b : option Height) : option Height :=
  match a, b with Some a, Some b => Some (Z.min a b) | _, _ => None end.

Definition chain_invalidate_block (self : Chain) (block_hash : Hash) :
    Run (option (Chain * list ContextuallyVerifiedBlock)) :=
  match height_by_hash (inner self) !! block_hash with
  | None => Ok None
  | Some block_height =>
      new_chain ← fork self block_hash;
      match new_chain with
      | None => Ok None
      | Some new_chain =>
          new_chain ← pop_tip new_chain;
          Ok (Some (mkChain (chain_network new_chain) (inner new_chain)
                      (min_height (last_fork_height self) (Some block_height)),
                    child_blocks (inner self) block_height))
      end
  end.

(** *** The order of chains *)

Definition chain_cmp (self other : Chain) : Run comparison :=
  if negb (partial_cumulative_work (inner self) =? partial_cumulative_work (inner other))
  then Ok (partial_cumulative_work (inner self) ?= partial_cumulative_work (inner other))
  else
    self_hash ← non_finalized_tip_hash (inner self);
    other_hash ← non_finalized_tip_hash (inner other);
    match bytes_cmp self_hash other_hash with Eq => Panic | ordering => Ok ordering end.

(** *** Fork metrics *)

Definition recent_fork_height (self : Chain) : Run (option Height) :=
  match last_fork_height self with
  | None => Ok None
  | Some last =>
      root ← non_finalized_root_height (inner self);
      Ok (if root <=? last then Some last else None)
  end.
(** The tip height is read first. *)
Definition recent_fork_length (self : Chain) : Run (option Z) :=
  tip ← non_finalized_tip_height (inner self);
  recent ← recent_fork_height self;
  Ok (recent ← recent; try_from U32 (sub_height tip recent)).

End Chain.

(** ** What a chain represents

    The specification of a chain is the list of its blocks, each with the trees
    and the value pools after it. *)

Section Spec.
Context `{Env : !ChainEnv, SP : !ScriptParser}.

Record BlockState := mkState {
  st_sprout : SproutTree; st_sapling : SaplingTree; st_orchard : OrchardTree; st_history : HistoryTree;
  st_pools : ValueBalance NonNegative }.
Record Entry := mkEntry { e_block : ContextuallyVerifiedBlock; e_state : BlockState }.

(** [base] is the state before the first block, which is at height [root]; the
    indexes still have the trees of [base] when [with_base]. *)
Record ChainSpec := mkSpec {
  base : BlockState; with_base : bool; root : Height; entries : list Entry }.

(** The state [s] after the block [b], from the state [p] before it. *)
Definition follows (network : Network) (p : BlockState) (b : ContextuallyVerifiedBlock) (s : BlockState) : Prop :=
  update_sprout_note_commitment_tree (st_sprout p) (block_sprout_note_commitments (cv_block b)) = Ok (st_sprout s) ∧
  fst <$> update_sapling_note_commitment_tree (st_sapling p) (block_sapling_note_commitments (cv_block b))
    = Ok (st_sapling s) ∧
  fst <$> update_orchard_note_commitment_tree (st_orchard p) (block_orchard_note_commitments (cv_block b))
    = Ok (st_orchard s) ∧
  history_push (st_history p) network (cv_block b) (tree_root (st_sapling s)) (tree_root (st_orchard s))
    = Ok (st_history s) ∧
  add_chain_value_pool_change (st_pools p) (cv_chain_value_pool_change b) = Ok (st_pools s).

Fixpoint linked (network : Network) (p : BlockState) (es : list Entry) : Prop :=
  match es with
  | [] => True
  | e :: es => follows network p (e_block e) (e_state e) ∧ linked network (e_state e) es
  end.

Definition last_state (p : BlockState) (es : list Entry) : BlockState :=
  match last es with Some e => e_state e | None => p end.

(** The states in the indexes, and the height of the first of them. *)
Definition indexed (a : ChainSpec) : list BlockState :=
  (if with_base a then [base a] else []) ++ (e_state <$> entries a).
Definition low (a : ChainSpec) : Height := if with_base a then root a - 1 else root a.

Definition entry_hash (e : Entry) : Hash * Height := (cv_hash (e_block e), cv_height (e_block e)).
Definition entry_info (e : Entry) : BlockInfo :=
  mkBlockInfo (st_pools (e_state e)) (wrap U32 (zcash_serialized_size (cv_block (e_block e)))).
Definition entry_updates (network : Network) (e : Entry) : Run (list Update) := block_updates network (e_block e).
Definition entry_work (e : Entry) : Run Work := block_work (cv_block (e_block e)).

(** The blocks can be in a chain: their heights are consecutive, the state after
    each follows from the one before it, and their updates and works exist. *)
Record spec_ok (network : Network) (a : ChainSpec) (uss : list (list Update)) (ws : list Z) : Prop := {
  so_low : 0 ≤ low a;
  so_high : height_of (root a) (length (entries a)) ≤ MAX;
  so_heights : Forall (fun e => cv_height e.2 = e.1) (from_height (root a) (e_block <$> entries a));
  so_links : linked network (base a) (entries a);
  so_pools : vb_ok (st_pools (base a));
  so_changes : Forall (fun e => vb_ok (cv_chain_value_pool_change (e_block e))) (entries a);
  so_updates : collect (entry_updates network <$> entries a) = Ok uss;
  so_works : collect (entry_work <$> entries a) = Ok ws;
}.

(** The fields of a chain, but for its subtrees. The balances of the ledger are
    the exact ones ([ideal_apply]). *)
Record fields_of (a : ChainSpec) (uss : list (list Update)) (ws : list Z) (c : ChainInner) : Prop := {
  fo_blocks : blocks c = from_height (root a) (e_block <$> entries a);
  fo_hashes : foldM (E := Empty_set) (insert_new (fun _ => Panic)) ∅ (entry_hash <$> entries a) = Ok (height_by_hash c);
  fo_ledger : foldM ideal_apply ledger_new (concat uss) = Ok (ledger c);
  fo_sprout : sprout_trees c = sprout_of (low a) (st_sprout <$> indexed a);
  fo_sapling : sapling_trees c = pool_of (low a) (st_sapling <$> indexed a);
  fo_orchard : orchard_trees c = pool_of (low a) (st_orchard <$> indexed a);
  fo_history : history_trees_by_height c = from_height (low a) (st_history <$> indexed a);
  fo_work : partial_cumulative_work c = sum_Z ws ∧ fits U128 (sum_Z ws) = true;
  fo_pools : chain_value_pools c = st_pools (last_state (base a) (entries a));
  fo_infos : block_info_by_height c = from_height (root a) (entry_info <$> entries a);
}.

Definition represents (c : Chain) (a : ChainSpec) : Prop :=
  ∃ uss ws, spec_ok (chain_network c) a uss ws ∧ fields_of a uss ws (inner c).

Definition spec_push (a : ChainSpec) (e : Entry) : ChainSpec :=
  mkSpec (base a) (with_base a) (root a) (entries a ++ [e]).
Definition spec_pop_root (a : ChainSpec) (e : Entry) (es : list Entry) : ChainSpec :=
  mkSpec (e_state e) false (root a + 1) es.

(** *** Adding a block *)

Lemma update_trees_result nct block nct' :
  update_trees_parallel nct block = Ok nct' →
  update_sprout_note_commitment_tree (trees_sprout nct) (block_sprout_note_commitments block) = Ok (trees_sprout nct') ∧
  fst <$> update_sapling_note_commitment_tree (trees_sapling nct) (block_sapling_note_commitments block)
    = Ok (trees_sapling nct') ∧
  fst <$> update_orchard_note_commitment_tree (trees_orchard nct) (block_orchard_note_commitments block)
    = Ok (trees_orchard nct').
Proof.
  unfold update_trees_parallel, sprout_result, sapling_result, orchard_result.
  intros (h & _ & H)%bind_Ok. apply bind_Ok in H as (sp & Hsp & H).
  apply bind_Ok in H as ([sa sas] & Hsa & H). apply bind_Ok in H as ([oc ocs] & Hoc & [= <-]).
  cbn [trees_sprout trees_sapling trees_orchard]. split_and!.
  - by destruct (block_sprout_note_commitments block).
  - destruct (block_sapling_note_commitments block); [by injection Hsa as <- _|].
    by apply bind_Ok in Hsa as ([? ?] & -> & [= <- _]).
  - destruct (block_orchard_note_commitments block); [by injection Hoc as <- _|].
    by apply bind_Ok in Hoc as ([? ?] & -> & [= <- _]).
Qed.

Lemma indexed_push a e : indexed (spec_push a e) = indexed a ++ [e_state e].
Proof. unfold indexed. cbn. by rewrite fmap_app, app_assoc. Qed.

Lemma height_indexed a : height_of (low a) (length (indexed a)) = height_of (root a) (length (entries a)).
Proof. unfold height_of, low, indexed. rewrite length_app, length_fmap. destruct (with_base a); cbn; lia. Qed.

Lemma last_indexed a : indexed a ≠ [] → ∃ ss, indexed a = ss ++ [last_state (base a) (entries a)].
Proof.
  unfold indexed, last_state. destruct (entries a) as [|e es _] using rev_ind.
  - destruct (with_base a); [|done]. by exists [].
  - intros _. rewrite last_snoc, fmap_app, app_assoc. cbn. eauto.
Qed.

Lemma last_state_cons p e es : last_state p (e :: es) = last_state (e_state e) es.
Proof.
  unfold last_state. destruct es as [|e' es]; [done|].
  change (last (e :: e' :: es)) with (last (e' :: es)).
  by destruct (proj2 (last_is_Some (e' :: es)) ltac:(done)) as [x ->].
Qed.

Lemma linked_app network p es ks :
  linked network p (es ++ ks) ↔ linked network p es ∧ linked network (last_state p es) ks.
Proof.
  revert p. induction es as [|e es IH]; intros p; cbn; [tauto|]. rewrite IH, last_state_cons. tauto.
Qed.

Lemma collect_app {E A} (l k : list (Res E A)) xs :
  collect (l ++ k) = Ok xs ↔ ∃ ys zs, xs = ys ++ zs ∧ collect l = Ok ys ∧ collect k = Ok zs.
Proof.
  setoid_rewrite collect_Ok. split.
  - intros (ys & zs & -> & -> & ->)%eq_sym%fmap_app_inv. eauto.
  - intros (ys & zs & -> & -> & ->). by rewrite fmap_app.
Qed.

Lemma collect_cons {E A} (l : list (Res E A)) r xs :
  collect (r :: l) = Ok xs → ∃ y ys, xs = y :: ys ∧ r = Ok y ∧ collect l = Ok ys.
Proof. cbn. intros (y & -> & H)%bind_Ok. apply bind_Ok in H as (ys & -> & [= <-]). eauto. Qed.

Lemma collect_single {E A} (r : Res E A) a : r = Ok a → collect [r] = Ok [a].
Proof. by intros ->. Qed.

Lemma block_work_nonneg block w : block_work block = Ok w → 0 ≤ w.
Proof.
  unfold block_work, to_work. intros (r & Hr & Hw)%bind_Ok. destruct r as [w'|]; cbn in Hw; [injection Hw as ->|done].
  apply bind_Ok in Hr as ([x|] & _ & Hr); [|done]. unfold work_try_from in Hr.
  destruct (u256_add x 1) as [d| |]; cbn in Hr; [|done|done].
  destruct (u256_div _ d) as [q| |]; cbn in Hr; [|done|done]. unfold u256_add, checked_add in Hr.
  destruct (try_from U256 (q + 1)) as [y|] eqn:Hy; cbn in Hr; [|done].
  apply try_from_Some in Hy as [-> [Hy _]%fits_spec]. destruct (q + 1 <=? _); [|done].
  injection Hr as <-. exact Hy.
Qed.

Lemma sum_Z_snoc l x : sum_Z (l ++ [x]) = sum_Z l + x.
Proof. rewrite sum_Z_app. cbn. lia. Qed.

(** The transparent value the blocks [bs] move at each address is at most the
    money supply. No check of the node establishes this: an address can receive
    and spend the same coins many times in the blocks of a chain. It is a
    hypothesis of the theorems that need it, and of those only. *)
Definition transfers_bounded (network : Network) (bs : list ContextuallyVerifiedBlock) : Prop :=
  ∃ uss, collect (block_updates network <$> bs) = Ok uss ∧ ledger_adm ledger_new (concat uss).

Lemma transfers_bounded_app network bs ks : transfers_bounded network (bs ++ ks) → transfers_bounded network bs.
Proof.
  intros (uss & Hu & Hb). rewrite fmap_app in Hu. apply collect_app in Hu as (us & ks' & -> & Hu & _). exists us. split; [done|].
  rewrite concat_app in Hb. by eapply (adm_app_l (apply := apply) (undo := revert)).
Qed.

(** The parts of an update that succeeded. *)
Lemma except_trees_Ok network s b s' :
  update_chain_tip_with_block_except_trees network s b = Ok s' →
  ∃ hashes w work l p, insert_new (E := Empty_set) (fun _ => Panic) (height_by_hash s) (cv_hash b, cv_height b) = Ok hashes ∧
    block_work (cv_block b) = Ok w ∧ work_add (partial_cumulative_work s) w = Ok work ∧
    update_transactions network b (ledger s) = Ok l ∧
    add_chain_value_pool_change (chain_value_pools s) (cv_chain_value_pool_change b) = Ok p ∧
    s' = mkInner (blocks s) hashes l (sprout_trees s) (sapling_trees s) (sapling_subtrees s) (orchard_trees s)
      (orchard_subtrees s) (history_trees_by_height s) work p
      (bt_insert (cv_height b) (mkBlockInfo p (wrap U32 (zcash_serialized_size (cv_block b)))) (block_info_by_height s)).
Proof.
  unfold update_chain_tip_with_block_except_trees, update_value_pools.
  intros (hashes & Hh & H)%bind_Ok. apply bind_Ok in H as (w & Hw & H). apply bind_Ok in H as (work & Hwork & H).
  apply bind_Ok in H as (l & Hl & H). apply bind_Ok in H as (p & Hp & [= <-]).
  apply lift_Ok in Hw, Hwork.
  destruct (add_chain_value_pool_change _ _); simplify_eq.
  apply insert_new_Ok in Hh. do 5 eexists. split_and!; try done. by apply insert_new_Ok.
Qed.

Lemma update_parallel_Ok network s b s' :
  update_chain_tip_with_block_parallel network s b = Ok s' →
  ∃ nct nct' s1, trees_for_tip s = Ok nct ∧ update_trees_parallel nct (cv_block b) = Ok nct' ∧
    update_chain_tip_with_block_except_trees network s b = Ok s1 ∧ add_trees network s1 b nct' = Ok s'.
Proof.
  unfold update_chain_tip_with_block_parallel. intros (nct & Hn & H)%bind_Ok.
  destruct (update_trees_parallel _ _) as [nct'| |] eqn:Ht; destruct (update_chain_tip_with_block_except_trees _ _ _) eqn:Hs;
    simplify_eq. naive_solver.
Qed.

Context `{L : !ChainEnvLaws}.

(** The trees of [ss] at the heights from [lo] are in the indexes. *)
Definition has_trees (s : ChainInner) (lo : Height) (ss : list BlockState) : Prop :=
  sprout_trees s = sprout_of lo (st_sprout <$> ss) ∧ sapling_trees s = pool_of lo (st_sapling <$> ss) ∧
  orchard_trees s = pool_of lo (st_orchard <$> ss) ∧ history_trees_by_height s = from_height lo (st_history <$> ss).

Lemma trees_for_tip_of s lo ss nct :
  has_trees s lo ss → trees_for_tip s = Ok nct →
  ∃ ss' p, ss = ss' ++ [p] ∧ trees_sprout nct = st_sprout p ∧ trees_sapling nct = st_sapling p ∧
    trees_orchard nct = st_orchard p.
Proof.
  intros (Hsp & Hsa & Hoc & _). unfold trees_for_tip. rewrite Hsp, Hsa, Hoc. cbn [sprout_pool sprout_of].
  destruct ss as [|p ss _] using rev_ind; [done|]. rewrite !fmap_app. cbn [fmap list_fmap].
  rewrite !tree_for_tip_pool_of, !Ok_bind. intros [= <-]. exists ss, p. done.
Qed.

Lemma add_trees_of network s lo ss p b nct s' :
  has_trees s lo (ss ++ [p]) → 0 ≤ lo → height_of lo (length (ss ++ [p])) ≤ MAX →
  cv_height b = height_of lo (length (ss ++ [p])) → add_trees network s b nct = Ok s' →
  ∃ history,
    history_push (st_history p) network (cv_block b) (tree_root (trees_sapling nct)) (tree_root (trees_orchard nct))
      = Ok history ∧
    (∀ pools, has_trees s' lo ((ss ++ [p]) ++ [mkState (trees_sprout nct) (trees_sapling nct) (trees_orchard nct)
                                                 history pools])) ∧
    blocks s' = blocks s ∧ height_by_hash s' = height_by_hash s ∧ ledger s' = ledger s ∧
    partial_cumulative_work s' = partial_cumulative_work s ∧ chain_value_pools s' = chain_value_pools s ∧
    block_info_by_height s' = block_info_by_height s.
Proof.
  intros (Hsp & Hsa & Hoc & Hhi) Hlo Hmax Hh. unfold add_trees. rewrite Hsp, Hsa, Hoc, Hhi, Hh.
  pose proof (fun A (f : BlockState → A) => length_fmap f (ss ++ [p])) as Hlen.
  assert (Htip : history_for_tip (E := ValidateContextError) (from_height lo (st_history <$> ss ++ [p])) = Ok (st_history p))
    by (rewrite fmap_app; apply history_for_tip_of).
  rewrite <- (Hlen _ st_sprout), add_sprout_of, Ok_bind by (rewrite ?Hlen; done).
  rewrite (Hlen _ st_sprout), <- (Hlen _ st_sapling), add_pool_of, Ok_bind by (rewrite ?Hlen; done).
  rewrite (Hlen _ st_sapling), <- (Hlen _ st_orchard), add_pool_of, Ok_bind by (rewrite ?Hlen; done).
  rewrite (Hlen _ st_orchard), <- (Hlen _ st_history), !tree_for_tip_pool_of, !Ok_bind.
  rewrite Htip, Ok_bind.
  intros (history & Hp%map_err_Ok & H)%bind_Ok. exists history. split; [done|].
  rewrite add_history_of, Ok_bind in H. injection H as <-. unfold has_trees.
  cbn [sprout_trees sapling_trees orchard_trees history_trees_by_height].
  split; [intros pools; by rewrite !(fmap_app _ (ss ++ [p]))|done].
Qed.

(** What the callers of [push] establish: the block is at the height after the
    tip, and the change of its value pools is made of amounts. *)
Record can_follow (a : ChainSpec) (b : ContextuallyVerifiedBlock) : Prop := {
  cf_height : cv_height b = height_of (root a) (length (entries a));
  cf_max : cv_height b < MAX;
  cf_change : vb_ok (cv_chain_value_pool_change b);
}.

Lemma fields_trees a uss ws s : fields_of a uss ws s → has_trees s (low a) (indexed a).
Proof. intros []. by split_and!. Qed.

Lemma from_height_Forall_snoc {A} (P : Z * A → Prop) lo l x :
  Forall P (from_height lo (l ++ [x])) ↔ Forall P (from_height lo l) ∧ P (height_of lo (length l), x).
Proof. rewrite from_height_app, Forall_app. cbn. by rewrite Forall_singleton. Qed.

Lemma spec_push_ok network a uss ws b s us w :
  spec_ok network a uss ws → can_follow a b → follows network (last_state (base a) (entries a)) b s →
  block_updates network b = Ok us → block_work (cv_block b) = Ok w →
  spec_ok network (spec_push a (mkEntry b s)) (uss ++ [us]) (ws ++ [w]).
Proof.
  intros [] [] Hf Hu Hw. split; cbn [spec_push base with_base root entries e_block].
  - done.
  - rewrite length_app. unfold height_of in *. cbn. lia.
  - rewrite fmap_app. apply from_height_Forall_snoc. split; [done|]. by rewrite length_fmap.
  - apply linked_app. cbn. done.
  - done.
  - apply Forall_app. by rewrite Forall_singleton.
  - rewrite fmap_app. apply collect_app. exists uss, [us]. split_and!; [done|done|]. by apply collect_single.
  - rewrite fmap_app. apply collect_app. exists ws, [w]. split_and!; [done|done|]. by apply collect_single.
Qed.

Lemma fields_push a uss ws s s' b bs us w :
  fields_of a uss ws s → cv_height b = height_of (root a) (length (entries a)) →
  blocks s' = bt_insert (cv_height b) b (blocks s) →
  insert_new (E := Empty_set) (fun _ => Panic) (height_by_hash s) (cv_hash b, cv_height b) = Ok (height_by_hash s') →
  foldM ideal_apply (ledger s) us = Ok (ledger s') →
  has_trees s' (low a) (indexed a ++ [bs]) →
  work_add (partial_cumulative_work s) w = Ok (partial_cumulative_work s') →
  chain_value_pools s' = st_pools bs →
  block_info_by_height s' = bt_insert (cv_height b) (entry_info (mkEntry b bs)) (block_info_by_height s) →
  fields_of (spec_push a (mkEntry b bs)) (uss ++ [us]) (ws ++ [w]) s'.
Proof.
  intros [Hb Hh Hl _ _ _ _ [Hw Hwf] Hp Hi] Hcv Eb Eh El (Hsp & Hsa & Hoc & Hhi) Ew Ep Ei.
  split; cbn [spec_push root entries base]; rewrite ?indexed_push, ?fmap_app, ?concat_app, ?foldM_app; try done.
  - rewrite Eb, Hb, Hcv. pose proof (from_height_snoc (root a) (e_block <$> entries a) b) as Hs.
    by rewrite length_fmap in Hs.
  - rewrite Hh, Ok_bind. cbn [fmap list_fmap foldM].
    change (entry_hash (mkEntry b bs)) with (cv_hash b, cv_height b). by rewrite Eh, Ok_bind.
  - rewrite Hl, Ok_bind. cbn. by rewrite app_nil_r.
  - by rewrite Hsp, fmap_app.
  - by rewrite Hsa, fmap_app.
  - by rewrite Hoc, fmap_app.
  - by rewrite Hhi, fmap_app.
  - rewrite Hw in Ew. unfold work_add, checked_add in Ew. destruct (try_from _ _) as [v|] eqn:Hv; [|done].
    cbn in Ew. injection Ew as Ew. apply try_from_Some in Hv as [-> Hv]. by rewrite sum_Z_snoc, <- Ew.
  - unfold last_state. by rewrite last_snoc.
  - rewrite Ei, Hi, Hcv.
    pose proof (from_height_snoc (root a) (entry_info <$> entries a) (entry_info (mkEntry b bs))) as Hs.
    by rewrite length_fmap in Hs.
Qed.

(** A block that was added is the last block of the specification. *)
Lemma push_represents c a b c' :
  represents c a → can_follow a b → push c b = Ok c' →
  ∃ s, represents c' (spec_push a (mkEntry b s)).
Proof.
  intros (uss & ws & Hok & Hf) Hcf (st & Hst & [= <-])%bind_Ok.
  apply update_parallel_Ok in Hst as (nct & nct' & s1 & Htip & Htrees & Hexc & Hadd).
  pose proof (fields_trees _ _ _ _ Hf) as Ht. pose proof (height_indexed a) as Hhi.
  destruct (trees_for_tip_of _ _ _ _ Ht Htip) as (ss & p & Hss & Hsp & Hsa & Hoc).
  assert (Hp : p = last_state (base a) (entries a)).
  { destruct (last_indexed a) as (ss' & Hss'); [by rewrite Hss; destruct ss|].
    rewrite Hss in Hss'. by apply app_inj_tail in Hss' as [_ ?]. }
  apply except_trees_Ok in Hexc as (hashes & w & work & l & pools & Hh & Hw & Hwork & Hl & Hpools & ->).
  apply update_transactions_ideal in Hl as (us & Hus & Hl).
  pose proof (so_low _ _ _ _ Hok) as Hlow. pose proof (so_high _ _ _ _ Hok) as Hhigh.
  rewrite Hss in Ht, Hhi. rewrite <- Hhi in Hhigh.
  assert (Hcvh : cv_height b = height_of (low a) (length (ss ++ [p]))) by (rewrite Hhi; apply Hcf).
  eapply (add_trees_of (chain_network c) _ (low a) ss p b nct' st) in Hadd; [|exact Ht|done..].
  destruct Hadd as (history & Hpush & Hst & Eb & Eh & El & Ew & Ep & Ei). cbn in Eb, Eh, El, Ew, Ep, Ei.
  set (s := mkState (trees_sprout nct') (trees_sapling nct') (trees_orchard nct') history pools).
  specialize (Hst pools). exists s, (uss ++ [us]), (ws ++ [w]). split.
  - apply spec_push_ok; [done|done| |done|done]. destruct (update_trees_result _ _ _ Htrees) as (H1 & H2 & H3).
    rewrite Hsp, Hsa, Hoc in *. rewrite <- Hp. repeat split; try done.
    by rewrite Hp, <- (fo_pools _ _ _ _ Hf).
  - eapply fields_push; try done; cbn [inner set_blocks blocks height_by_hash ledger partial_cumulative_work
      chain_value_pools block_info_by_height]; rewrite ?Eb, ?Eh, ?El, ?Ew, ?Ep, ?Ei; try done; [apply Hcf|].
    by rewrite Hss.
Qed.

(** *** Removing the tip *)

Lemma collect_snoc {E A} (l : list (Res E A)) r xs :
  collect (l ++ [r]) = Ok xs → ∃ ys y, xs = ys ++ [y] ∧ collect l = Ok ys ∧ r = Ok y.
Proof.
  intros (ys & zs & -> & Hl & Hr)%collect_app. cbn in Hr.
  apply bind_Ok in Hr as (y & -> & [= <-]). eauto.
Qed.

Lemma spec_push_inv network a e uss' ws' :
  spec_ok network (spec_push a e) uss' ws' →
  ∃ uss us ws w, uss' = uss ++ [us] ∧ ws' = ws ++ [w] ∧ spec_ok network a uss ws ∧
    can_follow a (e_block e) ∧ follows network (last_state (base a) (entries a)) (e_block e) (e_state e) ∧
    block_updates network (e_block e) = Ok us ∧ block_work (cv_block (e_block e)) = Ok w.
Proof.
  intros [Hlow Hhigh Hh Hl Hp Hc Hu Hw]. cbn [spec_push root entries base] in *.
  rewrite fmap_app in Hu. rewrite fmap_app in Hw. rewrite fmap_app in Hh.
  apply collect_snoc in Hu as (uss & us & -> & Hu & Hu').
  apply collect_snoc in Hw as (ws & w & -> & Hw & Hw'). apply linked_app in Hl as [Hl [Hf _]].
  apply Forall_app in Hc as [Hc [Hce _]%Forall_cons]. apply from_height_Forall_snoc in Hh as [Hh Hhe]. cbn in Hhe.
  rewrite length_fmap in Hhe. rewrite length_app in Hhigh. unfold height_of in Hhigh, Hhe. cbn in Hhigh.
  exists uss, us, ws, w. split_and!; try done; split; try done.
  - unfold height_of. lia.
  - rewrite Hhe. lia.
Qed.

Lemma max_block_height_of lo (bs : list ContextuallyVerifiedBlock) b s :
  blocks s = from_height lo (bs ++ [b]) → max_block_height s = Some (height_of lo (length bs)).
Proof.
  intros Hb. unfold max_block_height, bt_last. by rewrite Hb, from_height_app, last_app.
Qed.

Lemma work_sub_last ws w : 0 ≤ sum_Z ws → fits U128 (sum_Z (ws ++ [w])) = true → 0 ≤ w →
  work_sub (sum_Z (ws ++ [w])) w = Ok (sum_Z ws) ∧ fits U128 (sum_Z ws) = true.
Proof.
  rewrite sum_Z_snoc, fits_spec. intros Hs [_ Hf] Hw. assert (Hfit : fits U128 (sum_Z ws) = true).
  { apply fits_spec. change (ty_min U128) with 0. lia. }
  split; [|done]. unfold work_sub, Prelude.checked_sub. replace (sum_Z ws + w - w) with (sum_Z ws) by lia.
  by rewrite try_from_fits.
Qed.

Lemma works_nonneg es ws : collect (entry_work <$> es) = Ok ws → Forall (fun w => 0 ≤ w) ws.
Proof.
  intros Hc%collect_Ok. revert ws Hc. induction es as [|e es IH]; intros [|w ws] Hc; try done; constructor.
  - injection Hc as Hw _. by eapply block_work_nonneg.
  - injection Hc as _ Hc. by apply IH.
Qed.

Lemma pools_ok network p es :
  vb_ok (st_pools p) → Forall (fun e => vb_ok (cv_chain_value_pool_change (e_block e))) es → linked network p es →
  vb_ok (st_pools (last_state p es)).
Proof.
  revert p. induction es as [|e es IH]; intros p Hp Hc Hl; [done|]. apply Forall_cons in Hc as [Hce Hc].
  destruct Hl as [(_ & _ & _ & _ & Hf) Hl]. rewrite last_state_cons. apply IH; [|done|done].
  apply (add_change_Ok _ _ _ Hp Hce) in Hf. tauto.
Qed.

Lemma remove_trees_tip s ss st height tip :
  has_trees s height (ss ++ [st]) → no_block_above (height_of height (length ss)) tip →
  ∃ sp sa oc hi,
    remove_sprout_tree_and_anchor (sprout_trees s) Tip (height_of height (length ss)) tip = Ok sp ∧
    remove_tree_and_anchor (sapling_trees s) Tip (height_of height (length ss)) tip = Ok sa ∧
    remove_tree_and_anchor (orchard_trees s) Tip (height_of height (length ss)) tip = Ok oc ∧
    remove_history_tree (history_trees_by_height s) Tip (height_of height (length ss)) = Ok hi ∧
    sp = sprout_of height (st_sprout <$> ss) ∧ sa = pool_of height (st_sapling <$> ss) ∧
    oc = pool_of height (st_orchard <$> ss) ∧ hi = from_height height (st_history <$> ss).
Proof.
  intros (Hsp & Hsa & Hoc & Hhi) Htip. rewrite Hsp, Hsa, Hoc, Hhi, !fmap_app. cbn [fmap list_fmap].
  pose proof (fun A (f : BlockState → A) => length_fmap f ss) as Hlen. do 4 eexists. split_and!; [| | | |done..].
  - rewrite <- (Hlen _ st_sprout). apply remove_sprout_tip. by rewrite Hlen.
  - rewrite <- (Hlen _ st_sapling). apply remove_pool_tip. by rewrite Hlen.
  - rewrite <- (Hlen _ st_orchard). apply remove_pool_tip. by rewrite Hlen.
  - rewrite <- (Hlen _ st_history). apply remove_history_tip.
Qed.

Lemma blocks_lookup_last lo (bs : list ContextuallyVerifiedBlock) b s :
  blocks s = from_height lo (bs ++ [b]) →
  bt_get (height_of lo (length bs)) (blocks s) = Some b ∧
  bt_remove (height_of lo (length bs)) (blocks s) = from_height lo bs.
Proof. intros ->. split; [apply from_height_get_last|apply from_height_remove_last]. Qed.

Lemma revert_value_pools_tip p d p' infos height :
  vb_ok p → vb_ok d → add_chain_value_pool_change p d = Ok p' →
  revert_value_pools p' infos d height Tip = Ok (p, bt_remove height infos).
Proof.
  intros Hp Hd Hadd. destruct (chain_pools_revert p p' d Hp Hd Hadd) as (d' & Hn & Hr).
  unfold revert_value_pools. rewrite Hn. cbn [expect_ok]. by rewrite Ok_bind, Hr.
Qed.

(** *** The balances while a block is removed *)

(** The transfers of the block [b] can be reverted: no balance leaves the range of amounts. *)
Definition ledger_reverts (network : Network) (s : ChainInner) (b : ContextuallyVerifiedBlock) : Prop :=
  ∃ l, revert_transactions network b (ledger s) = Ok l.

(** It is so if the removal of the block returned. *)
Lemma revert_chain_reverts network s b position s' :
  revert_chain_with network s b position = Ok s' → ledger_reverts network s b.
Proof.
  unfold revert_chain_with. intros (? & _ & H)%bind_Ok. apply bind_Ok in H as (? & _ & H).
  apply bind_Ok in H as (? & _ & H). apply bind_Ok in H as (l & Hl & _). by exists l.
Qed.
Lemma pop_tip_reverts c b bs lo c' :
  blocks (inner c) = from_height lo (bs ++ [b]) → pop_tip c = Ok c' → ledger_reverts (chain_network c) (inner c) b.
Proof.
  intros Hb. unfold pop_tip, non_finalized_tip_height. rewrite (max_block_height_of _ _ _ _ Hb). cbn [expect]. rewrite Ok_bind.
  destruct (blocks_lookup_last _ _ _ _ Hb) as [-> _]. cbn [expect]. rewrite Ok_bind.
  intros (_ & _ & (s & Hs%revert_chain_reverts & _)%bind_Ok)%bind_Ok. exact Hs.
Qed.
Lemma pop_root_reverts c b bs lo r :
  blocks (inner c) = from_height lo (b :: bs) → pop_root c = Ok r → ledger_reverts (chain_network c) (inner c) b.
Proof.
  intros Hb. unfold pop_root, non_finalized_root_height, bt_first. rewrite Hb. cbn [head from_height fmap Res_fmap expect fst bt_get].
  rewrite Ok_bind, Z.eqb_refl. intros (t & _ & H)%bind_Ok. cbn [expect] in H. rewrite Ok_bind in H.
  by apply bind_Ok in H as (s & Hs%revert_chain_reverts & _).
Qed.

(** It is so if the blocks of the chain move at most the money supply at each address. *)
Lemma bounded_reverts c a e es ks : represents c a → entries a = es ++ e :: ks →
  transfers_bounded (chain_network c) (e_block <$> entries a) → ledger_reverts (chain_network c) (inner c) (e_block e).
Proof.
  intros (uss & ws & Hok & Hf) He (uss' & Hu & Hb). rewrite <- list_fmap_compose in Hu.
  pose proof (so_updates _ _ _ _ Hok) as Hu'. change (collect (entry_updates (chain_network c) <$> entries a) = Ok uss') in Hu.
  assert (uss' = uss) as -> by congruence. rewrite He, fmap_app in Hu.
  apply collect_app in Hu as (us1 & us2 & -> & _ & Hu). apply collect_cons in Hu as (us & us3 & -> & Hus & _).
  eapply (revert_block_total (chain_network c) (e_block e) ledger_new us _ (concat us1 ++ concat us3)); [done| |exact Hb|apply Hf].
  rewrite concat_app. cbn [concat]. rewrite !app_assoc. by rewrite (Permutation_app_comm us (concat us1)).
Qed.

(** Reverting the last block of the indexes. *)
Lemma revert_tip network a e uss us ws w s tip :
  spec_ok network a uss ws → can_follow a (e_block e) →
  follows network (last_state (base a) (entries a)) (e_block e) (e_state e) →
  block_updates network (e_block e) = Ok us → block_work (cv_block (e_block e)) = Ok w →
  ledger_reverts network s (e_block e) →
  fields_of (spec_push a e) (uss ++ [us]) (ws ++ [w]) s →
  tip = max_block_height (set_blocks s (from_height (root a) (e_block <$> entries a))) →
  no_block_above (cv_height (e_block e)) tip →
  ∃ s', revert_chain_with network (set_blocks s (from_height (root a) (e_block <$> entries a))) (e_block e) Tip = Ok s' ∧
    fields_of a uss ws s' ∧ sapling_subtrees s' = sapling_subtrees s ∧ orchard_subtrees s' = orchard_subtrees s.
Proof.
  intros Hok Hcf Hfol Hus Hw [l1 Hrev] Hf Etip Htip. pose proof (fields_trees _ _ _ _ Hf) as Ht.
  destruct Hf as [_ Hh Hl _ _ _ _ [Ew Hwf] Hp Hi]. rewrite indexed_push in Ht.
  change (low (spec_push a e)) with (low a) in Ht. rewrite concat_app, foldM_app in Hl.
  cbn [concat] in Hl. rewrite app_nil_r in Hl.
  apply bind_Ok in Hl as (l & Hl & Hl'). cbn [entries spec_push base root] in *.
  rewrite fmap_app, foldM_app in Hh. apply bind_Ok in Hh as (hashes & Hh & Hh').
  cbn in Hh'. apply bind_Ok in Hh' as (hashes' & Hh' & [= ->]).
  apply insert_new_Ok in Hh' as [Hfresh Hins]. cbn in Hfresh, Hins.
  assert (Hcv : cv_height (e_block e) = height_of (low a) (length (indexed a)))
    by (rewrite height_indexed; apply Hcf).
  destruct (work_sub_last ws w) as [Hws Hwsf]; [apply sum_Z_nonneg; eapply works_nonneg, Hok|done|
    by eapply block_work_nonneg|].
  unfold revert_chain_with. cbn [set_blocks height_by_hash partial_cumulative_work ledger sprout_trees sapling_trees
    orchard_trees history_trees_by_height chain_value_pools block_info_by_height blocks sapling_subtrees orchard_subtrees].
  rewrite <- Etip. unfold remove_present. rewrite Hins, lookup_insert_eq, delete_insert_id, Ok_bind by done.
  rewrite Hw, Ok_bind, Ew, Hws, Ok_bind.
  assert (l1 = l) as ->.
  { apply (revert_last_block network (e_block e) l (ledger s) us); [done| |done|done].
    eapply (adm_fold (apply := ideal_apply) (undo := ideal_undo)); [apply ideal_adm_new|exact Hl]. }
  rewrite Hrev, Ok_bind.
  rewrite Hcv in Htip |- *.
  destruct (remove_trees_tip _ _ _ _ _ Ht Htip) as (sp & sa & oc & hi & -> & -> & -> & -> & Esp & Esa & Eoc & Ehi).
  rewrite !Ok_bind. unfold last_state in Hp. rewrite last_snoc in Hp. destruct Hfol as (_ & _ & _ & _ & Hadd).
  rewrite Hp, (revert_value_pools_tip _ _ _ _ _ (pools_ok _ _ _ (so_pools _ _ _ _ Hok) (so_changes _ _ _ _ Hok)
    (so_links _ _ _ _ Hok)) (cf_change _ _ Hcf) Hadd), Ok_bind, Hi, fmap_app, height_indexed.
  eexists. split; [done|]. split; [|done]. split; try done. cbn [block_info_by_height snd].
  rewrite <- (length_fmap entry_info). apply from_height_remove_last.
Qed.

(** Removing the tip block leaves the chain of the other blocks. *)
Lemma pop_tip_represents c a e (Hr : represents c (spec_push a e)) (Hne : entries a ≠ []) :
  (transfers_bounded (chain_network c) (e_block <$> entries a ++ [e]) → ∃ c', pop_tip c = Ok c') ∧
  (∀ c', pop_tip c = Ok c' → represents c' a ∧ chain_network c' = chain_network c ∧
     last_fork_height c' = last_fork_height c ∧
     sapling_subtrees (inner c') = sapling_subtrees (inner c) ∧
     orchard_subtrees (inner c') = orchard_subtrees (inner c)).
Proof.
  assert (Hpop : ledger_reverts (chain_network c) (inner c) (e_block e) →
    ∃ c', pop_tip c = Ok c' ∧ represents c' a ∧ chain_network c' = chain_network c ∧
      last_fork_height c' = last_fork_height c ∧ sapling_subtrees (inner c') = sapling_subtrees (inner c) ∧
      orchard_subtrees (inner c') = orchard_subtrees (inner c)).
  { intros Hrev. destruct Hr as (uss' & ws' & Hok & Hf).
    apply spec_push_inv in Hok as (uss & us & ws & w & -> & -> & Hok & Hcf & Hfol & Hus & Hw).
    pose proof (fo_blocks _ _ _ _ Hf) as Hb. cbn [spec_push entries root] in Hb. rewrite fmap_app in Hb.
    unfold pop_tip, non_finalized_tip_height. rewrite (max_block_height_of _ _ _ _ Hb). cbn [expect]. rewrite Ok_bind.
    destruct (blocks_lookup_last _ _ _ _ Hb) as [-> ->]. cbn [expect]. rewrite Ok_bind.
    destruct (revert_tip (chain_network c) a e uss us ws w (inner c) _ Hok Hcf Hfol Hus Hw Hrev Hf eq_refl)
      as (s' & Hs & Hs' & Esa & Eoc).
    - destruct (exists_last Hne) as (es & e' & He). rewrite (cf_height _ _ Hcf), He, fmap_app.
      erewrite max_block_height_of by reflexivity. unfold height_of, no_block_above.
      rewrite length_app, length_fmap. lia.
    - rewrite Hs. replace (chain_is_empty _) with false by (by destruct (entries a)). cbn [negb assert].
      rewrite !Ok_bind. eexists. split; [done|]. split_and!; try done. by exists uss, ws. }
  split.
  - intros Hb. destruct Hpop as (c' & Hc' & _); [|by exists c']. by apply (bounded_reverts c _ e (entries a) [] Hr).
  - intros c' Hc'. destruct Hpop as (c1 & Hc1 & H); [|by assert (c' = c1) as -> by congruence].
    pose proof Hr as (uss & ws & _ & Hf). pose proof (fo_blocks _ _ _ _ Hf) as Hb. cbn [spec_push entries root] in Hb.
    rewrite fmap_app in Hb. by eapply pop_tip_reverts.
Qed.

(** *** Removing the root *)

Lemma height_of_cons lo {A} (x : A) l : height_of lo (length (x :: l)) = height_of (lo + 1) (length l).
Proof. unfold height_of. cbn. lia. Qed.

Lemma spec_pop_root_ok network a e es uss' ws' :
  spec_ok network a uss' ws' → entries a = e :: es →
  ∃ us uss w ws, uss' = us :: uss ∧ ws' = w :: ws ∧ block_updates network (e_block e) = Ok us ∧
    block_work (cv_block (e_block e)) = Ok w ∧ cv_height (e_block e) = root a ∧
    spec_ok network (spec_pop_root a e es) uss ws.
Proof.
  intros [Hlow Hhigh Hh Hl Hp Hc Hu Hw] He. rewrite He in *. cbn [fmap list_fmap from_height linked] in *.
  apply collect_cons in Hu as (us & uss & -> & Hu' & Hu). apply collect_cons in Hw as (w & ws & -> & Hw' & Hw).
  apply Forall_cons in Hh as [Hhe Hh]. apply Forall_cons in Hc as [Hce Hc]. destruct Hl as [Hf Hl].
  exists us, uss, w, ws. split_and!; try done. split; try done; cbn.
  - unfold low in Hlow. destruct (with_base a); lia.
  - by rewrite height_of_cons in Hhigh.
  - destruct Hf as (_ & _ & _ & _ & Hf). apply (add_change_Ok _ _ _ Hp Hce) in Hf. tauto.
Qed.

Definition before (a : ChainSpec) : list BlockState := if with_base a then [base a] else [].

Lemma root_height a e : root a = height_of (low a) (length (before a ++ [e_state e])) - 1.
Proof. unfold height_of, low, before. destruct (with_base a); cbn; lia. Qed.

(** The trees of the root block are the last ones below the second block. *)
Lemma treestate_root a e es uss ws s :
  entries a = e :: es → fields_of a uss ws s →
  treestate s (ByHeight (root a)) =
  Some (mkTreestate (mkTrees (st_sprout (e_state e)) (st_sapling (e_state e)) (sapling_subtree s (ByHeight (root a)))
          (st_orchard (e_state e)) (orchard_subtree s (ByHeight (root a)))) (st_history (e_state e))).
Proof.
  intros He Hf. destruct (fields_trees _ _ _ _ Hf) as (Hsp & Hsa & Hoc & Hhi).
  assert (Hi : indexed a = (before a ++ [e_state e]) ++ (e_state <$> es)).
  { unfold indexed. rewrite He, <- app_assoc. done. }
  unfold treestate, sprout_tree, sapling_tree, orchard_tree, chain_history_tree. cbn [height_or_else mbind option_bind].
  rewrite Hsp, Hsa, Hoc, Hhi, (root_height a e), Hi. cbn [sprout_pool sprout_of]. rewrite !tree_at_pool_of.
  assert (Hl : ∀ A (f : BlockState → A),
    last (take (length (before a ++ [e_state e])) (f <$> (before a ++ [e_state e]) ++ (e_state <$> es))) = Some (f (e_state e))).
  { intros A f. rewrite fmap_app. rewrite <- (length_fmap f) at 1. rewrite take_app_length, fmap_app. apply last_snoc. }
  rewrite !Hl. unfold history_at. rewrite bt_get_from_height, <- (root_height a e).
  replace (low a <=? root a) with true by (unfold low; destruct (with_base a); lia).
  replace (Z.to_nat (root a - low a)) with (length (before a))
    by (unfold low, before; destruct (with_base a); cbn; lia).
  rewrite <- app_assoc, fmap_app. cbn [fmap list_fmap app].
  by rewrite list_lookup_middle by (by rewrite length_fmap).
Qed.

Lemma tip_above_fmap {A} (f : BlockState → A) h (ss : list BlockState) tip :
  tip_above h ss tip → tip_above h (f <$> ss) tip.
Proof. by destruct ss. Qed.

Lemma remove_trees_root s lo ss st ss' tip :
  let hi := height_of lo (length (ss ++ [st])) in
  has_trees s lo ((ss ++ [st]) ++ ss') → 0 ≤ lo → hi ≤ MAX → tip_above (hi - 1) ss' tip →
  remove_sprout_tree_and_anchor (sprout_trees s) Root (hi - 1) tip = Ok (sprout_of hi (st_sprout <$> ss')) ∧
  remove_tree_and_anchor (sapling_trees s) Root (hi - 1) tip = Ok (pool_of hi (st_sapling <$> ss')) ∧
  remove_tree_and_anchor (orchard_trees s) Root (hi - 1) tip = Ok (pool_of hi (st_orchard <$> ss')) ∧
  remove_history_tree (history_trees_by_height s) Root (hi - 1) = Ok (from_height hi (st_history <$> ss')).
Proof.
  intros hi (Hsp & Hsa & Hoc & Hhi) Hlo Hmax Htip. rewrite Hsp, Hsa, Hoc, Hhi, !fmap_app. cbn [fmap list_fmap].
  assert (Hlen : ∀ A (f : BlockState → A), hi = height_of lo (length ((f <$> ss) ++ [f st]))).
  { intros A f. subst hi. by rewrite !length_app, length_fmap. }
  split_and!.
  - rewrite (Hlen _ st_sprout). apply remove_sprout_root; rewrite <- ?(Hlen _ st_sprout); [done..|]. by apply tip_above_fmap.
  - rewrite (Hlen _ st_sapling). apply remove_pool_root; rewrite <- ?(Hlen _ st_sapling); [done..|]. by apply tip_above_fmap.
  - rewrite (Hlen _ st_orchard). apply remove_pool_root; rewrite <- ?(Hlen _ st_orchard); [done..|]. by apply tip_above_fmap.
  - rewrite (Hlen _ st_history). apply remove_history_root.
Qed.

Lemma from_height_head {A} lo (x : A) l :
  bt_get lo (from_height lo (x :: l)) = Some x ∧ bt_remove lo (from_height lo (x :: l)) = from_height (lo + 1) l.
Proof. cbn. by rewrite Z.eqb_refl. Qed.

Lemma work_sub_first ws w : Forall (fun w => 0 ≤ w) (w :: ws) → fits U128 (sum_Z (w :: ws)) = true →
  work_sub (sum_Z (w :: ws)) w = Ok (sum_Z ws) ∧ fits U128 (sum_Z ws) = true.
Proof.
  intros [Hw Hws]%Forall_cons Hf. apply sum_Z_nonneg in Hws.
  replace (sum_Z (w :: ws)) with (sum_Z (ws ++ [w])) in * by (rewrite sum_Z_snoc; cbn; lia).
  by apply work_sub_last.
Qed.

Lemma hashes_first (kv : Hash * Height) l m :
  foldM (E := Empty_set) (insert_new (fun _ => Panic)) ∅ (kv :: l) = Ok m →
  ∃ m', remove_present m kv.1 = Ok m' ∧ foldM (E := Empty_set) (insert_new (fun _ => Panic)) ∅ l = Ok m'.
Proof.
  intros Hm. edestruct (undo_prefix (R := insert_new_reversible (E := Empty_set) (A := Height) (fun _ : Hash => Panic)) ∅ [kv] l m [kv])
    as (m' & Hu & Hl); [done|done|exact Hm|].
  cbn [foldM] in Hu. apply bind_Ok in Hu as (m1 & Hu & [= ->]). eauto.
Qed.

(** Reverting the first block of the indexes. *)
Lemma revert_root network a e es us uss w ws s :
  spec_ok network a (us :: uss) (w :: ws) → entries a = e :: es → cv_height (e_block e) = root a →
  block_updates network (e_block e) = Ok us → block_work (cv_block (e_block e)) = Ok w →
  ledger_reverts network s (e_block e) → fields_of a (us :: uss) (w :: ws) s →
  ∃ s', revert_chain_with network (set_blocks s (from_height (root a + 1) (e_block <$> es))) (e_block e) Root = Ok s' ∧
    fields_of (spec_pop_root a e es) uss ws s'.
Proof.
  intros Hok He Hcv Hus Hw [l Hr] Hf. pose proof (fields_trees _ _ _ _ Hf) as Ht.
  destruct Hf as [_ Hh Hl _ _ _ _ [Ew Hwf] Hp Hi].
  replace (indexed a) with ((before a ++ [e_state e]) ++ (e_state <$> es)) in Ht
    by (unfold indexed; rewrite He, <- app_assoc; done).
  pose proof (so_high _ _ _ _ Hok) as Hhigh. rewrite He, height_of_cons in Hhigh.
  pose proof (root_height a e) as Hroot.
  destruct (remove_trees_root s _ _ _ _ (max_block_height (set_blocks s (from_height (root a + 1) (e_block <$> es)))) Ht)
    as (Hsp & Hsa & Hoc & Hhi).
  { apply Hok. }
  { unfold height_of in *. lia. }
  { rewrite <- Hroot. destruct es as [|e' es _] using rev_ind; [done|]. rewrite !fmap_app.
    destruct (e_state <$> es) eqn:?; cbn [app fmap list_fmap tip_above];
      (eexists; split; [by eapply max_block_height_of|]; unfold height_of; lia). }
  rewrite <- Hroot in Hsp, Hsa, Hoc, Hhi.
  replace (height_of (low a) (length (before a ++ [e_state e]))) with (root a + 1) in * by lia.
  pose proof (so_works _ _ _ _ Hok) as Hws. apply works_nonneg in Hws. destruct (work_sub_first ws w Hws Hwf) as [Hsub Hsubf].
  pose proof (revert_first_block network (e_block e) ledger_new us (concat uss) (ledger s) l Hus (ideal_adm_new _) Hl Hr) as Hl'.
  rewrite He in Hh, Hi. rewrite fmap_cons in Hh. cbn [fmap list_fmap] in Hi.
  apply hashes_first in Hh as (hashes & Hh1 & Hh2).
  unfold revert_chain_with. cbn [set_blocks height_by_hash partial_cumulative_work ledger sprout_trees sapling_trees
    orchard_trees history_trees_by_height chain_value_pools block_info_by_height blocks sapling_subtrees orchard_subtrees].
  rewrite Hcv. unfold entry_hash in Hh1. cbn [fst] in Hh1.
  rewrite Hh1, Ok_bind, Hw, Ok_bind, Ew, Hsub, Ok_bind, Hr, Ok_bind, Hsp, Ok_bind, Hsa, Ok_bind, Hoc, Ok_bind, Hhi, Ok_bind.
  unfold revert_value_pools. rewrite !Ok_bind. eexists. split; [done|].
  split; cbn [spec_pop_root base with_base root entries]; try done.
  - cbn [chain_value_pools fst]. by rewrite Hp, He, last_state_cons.
  - cbn [snd block_info_by_height]. rewrite Hi. apply from_height_head.
Qed.

Lemma pop_root_reverted c a e es (Hr : represents c a) (He : entries a = e :: es)
    (Hrev : ledger_reverts (chain_network c) (inner c) (e_block e)) :
  ∃ t c', pop_root c = Ok (e_block e, t, c') ∧ represents c' (spec_pop_root a e es) ∧
    trees_sprout (note_commitment_trees t) = st_sprout (e_state e) ∧
    trees_sapling (note_commitment_trees t) = st_sapling (e_state e) ∧
    trees_orchard (note_commitment_trees t) = st_orchard (e_state e) ∧
    history_tree t = st_history (e_state e) ∧
    chain_network c' = chain_network c ∧ last_fork_height c' = last_fork_height c.
Proof.
  destruct Hr as (uss' & ws' & Hok & Hf).
  pose proof Hok as (us & uss & w & ws & -> & -> & Hus & Hw & Hcv & Hok')%(spec_pop_root_ok _ _ e es); [|done].
  pose proof (fo_blocks _ _ _ _ Hf) as Hb. rewrite He in Hb. cbn [fmap list_fmap] in Hb.
  unfold pop_root, non_finalized_root_height, bt_first. rewrite Hb. cbn [head from_height fmap Res_fmap expect fst].
  rewrite Ok_bind, (treestate_root a e es _ _ _ He Hf). cbn [expect]. rewrite Ok_bind.
  destruct (from_height_head (root a) (e_block e) (e_block <$> es)) as [H1 H2]. cbn [from_height] in H1, H2.
  rewrite H1, H2. cbn [expect]. rewrite Ok_bind. cbn [note_commitment_trees sapling_subtree_new orchard_subtree_new].
  set (s := mkInner (blocks (inner c)) (height_by_hash (inner c)) (ledger (inner c)) (sprout_trees (inner c))
    (sapling_trees (inner c)) (pop_subtree (is_some (sapling_subtree (inner c) (ByHeight (root a)))) (sapling_subtrees (inner c)))
    (orchard_trees (inner c)) (pop_subtree (is_some (orchard_subtree (inner c) (ByHeight (root a)))) (orchard_subtrees (inner c)))
    (history_trees_by_height (inner c)) (partial_cumulative_work (inner c)) (chain_value_pools (inner c))
    (block_info_by_height (inner c))).
  assert (Hs : fields_of a (us :: uss) (w :: ws) s) by (by destruct Hf).
  destruct (revert_root (chain_network c) a e es us uss w ws s Hok He Hcv Hus Hw Hrev Hs) as (s' & Hr & Hs').
  change (revert_chain_with _ _ (e_block e) Root) with
    (revert_chain_with (chain_network c) (set_blocks s (from_height (root a + 1) (e_block <$> es))) (e_block e) Root).
  rewrite Hr, Ok_bind. do 2 eexists. split; [done|].
  split; [by exists uss, ws|done].
Qed.

(** Removing the root block returns it with its trees, and leaves the chain of
    the other blocks on top of its state. *)
Lemma pop_root_represents c a e es (Hr : represents c a) (He : entries a = e :: es) :
  (transfers_bounded (chain_network c) (e_block <$> entries a) → ∃ r, pop_root c = Ok r) ∧
  (∀ b t c', pop_root c = Ok (b, t, c') → b = e_block e ∧ represents c' (spec_pop_root a e es) ∧
     trees_sprout (note_commitment_trees t) = st_sprout (e_state e) ∧
     trees_sapling (note_commitment_trees t) = st_sapling (e_state e) ∧
     trees_orchard (note_commitment_trees t) = st_orchard (e_state e) ∧
     history_tree t = st_history (e_state e) ∧
     chain_network c' = chain_network c ∧ last_fork_height c' = last_fork_height c).
Proof.
  assert (Hpop : ledger_reverts (chain_network c) (inner c) (e_block e) →
    ∃ t c', pop_root c = Ok (e_block e, t, c') ∧ represents c' (spec_pop_root a e es) ∧
      trees_sprout (note_commitment_trees t) = st_sprout (e_state e) ∧
      trees_sapling (note_commitment_trees t) = st_sapling (e_state e) ∧
      trees_orchard (note_commitment_trees t) = st_orchard (e_state e) ∧
      history_tree t = st_history (e_state e) ∧
      chain_network c' = chain_network c ∧ last_fork_height c' = last_fork_height c).
  { by apply pop_root_reverted. }
  split.
  - intros Hb. destruct Hpop as (t & c' & Hc' & _); [|by eexists]. by apply (bounded_reverts c a e [] es Hr).
  - intros b t c' Hc'. destruct Hpop as (t1 & c1 & Hc1 & H).
    + pose proof Hr as (uss & ws & _ & Hf). pose proof (fo_blocks _ _ _ _ Hf) as Hb. rewrite He in Hb.
      by eapply pop_root_reverts.
    + rewrite Hc' in Hc1. injection Hc1 as -> -> ->. done.
Qed.

(** *** New chains and forks *)

Lemma chain_new_represents network h sp sa oc hi pools :
  0 ≤ h < MAX → vb_ok pools →
  ∃ c, chain_new network h sp sa oc hi pools = Ok c ∧
    represents c (mkSpec (mkState sp sa oc hi pools) true (h + 1) []).
Proof.
  intros Hh Hp. unfold chain_new.
  pose proof (add_sprout_of (E := Empty_set) h [] sp) as Hsp. pose proof (add_pool_of (E := Empty_set) h [] sa) as Hsa.
  pose proof (add_pool_of (E := Empty_set) h [] oc) as Hoc. unfold height_of in *. cbn [length Z.of_nat app] in *.
  rewrite Z.add_0_r in *. change (sprout_of h []) with (sprout_trees_new (T := SproutTree)) in Hsp.
  change (pool_of h []) with (pool_new (T := SaplingTree)) in Hsa.
  change (pool_of h []) with (pool_new (T := OrchardTree)) in Hoc.
  rewrite Hsp, Ok_bind, Hsa, Ok_bind, Hoc, Ok_bind by lia. eexists. split; [done|].
  exists [], []. split; split; try done; cbn; unfold height_of; cbn; rewrite ?Z.add_simpl_r; try done; try lia; constructor.
Qed.

Lemma represents_hashes c a :
  represents c a →
  NoDup ((fun e => cv_hash (e_block e)) <$> entries a) ∧
  (∀ e, e ∈ entries a → height_by_hash (inner c) !! cv_hash (e_block e) = Some (cv_height (e_block e))).
Proof.
  intros (uss & ws & _ & Hf). pose proof (fo_hashes _ _ _ _ Hf) as Hh.
  apply foldM_insert_new in Hh as (Hn & _ & Hm). rewrite <- list_fmap_compose in Hn. split; [exact Hn|].
  intros e He. rewrite Hm, (right_id_L ∅ (∪)). apply elem_of_list_to_map_1; [by rewrite <- list_fmap_compose|].
  apply list_elem_of_fmap. eauto.
Qed.

Lemma tip_hash_of c a e :
  represents c (spec_push a e) → non_finalized_tip_hash (inner c) = Ok (cv_hash (e_block e)) ∧
  non_finalized_tip_height (inner c) = Ok (cv_height (e_block e)).
Proof.
  intros (uss & ws & Hok & Hf). pose proof (fo_blocks _ _ _ _ Hf) as Hb. cbn [spec_push root entries] in Hb.
  rewrite fmap_app in Hb.
  apply spec_push_inv in Hok as (uss' & us & ws' & w & -> & -> & Hok & Hcf & _).
  unfold non_finalized_tip_hash, non_finalized_tip_height, tip_block. rewrite (max_block_height_of _ _ _ _ Hb), Hb.
  pose proof (from_height_last (root a) (e_block <$> entries a) (e_block e)) as Hl. cbn in Hl |- *.
  rewrite Hl. cbn. by rewrite (cf_height _ _ Hcf), length_fmap.
Qed.

Definition spec_blocks (a : ChainSpec) (es : list Entry) : ChainSpec := mkSpec (base a) (with_base a) (root a) es.

(** A fork has the network and the subtrees of its chain. *)
Definition forked_from (c c' : Chain) : Prop :=
  chain_network c' = chain_network c ∧ sapling_subtrees (inner c') = sapling_subtrees (inner c) ∧
  orchard_subtrees (inner c') = orchard_subtrees (inner c).

(** The tip is not the block [e] below it. *)
Lemma tip_hash_ne c a es e ks k : represents c (spec_blocks a ((es ++ e :: ks) ++ [k])) →
  non_finalized_tip_hash (inner c) = Ok (cv_hash (e_block k)) ∧ cv_hash (e_block k) ≠ cv_hash (e_block e).
Proof.
  intros Hr. change (spec_blocks a _) with (spec_push (spec_blocks a (es ++ e :: ks)) k) in Hr. split; [apply (tip_hash_of _ _ _ Hr)|].
  apply represents_hashes in Hr as [Hn _]. cbn [spec_push entries spec_blocks] in Hn. rewrite fmap_app in Hn.
  apply NoDup_app in Hn as (_ & Hd & _). intros Heq. apply (Hd (cv_hash (e_block e))); [|rewrite <- Heq; by left].
  apply list_elem_of_fmap. exists e. set_solver.
Qed.

(** The new tip height that [fork] records. *)
Lemma fork_tip_height c a es e ks : represents c (spec_blocks a (es ++ e :: ks)) →
  ∃ h, non_finalized_tip_height (inner c) = Ok h ∧ match ks with [] => h = cv_height (e_block e) | _ => True end.
Proof.
  intros Hr. destruct ks as [|k ks _] using rev_ind.
  - exists (cv_height (e_block e)). split; [|done]. apply (tip_hash_of c (spec_blocks a es) e Hr).
  - exists (cv_height (e_block k)). split; [|by destruct ks].
    replace (es ++ e :: ks ++ [k]) with ((es ++ e :: ks) ++ [k]) in Hr by (by rewrite <- app_assoc).
    apply (tip_hash_of c (spec_blocks a (es ++ e :: ks)) k Hr).
Qed.

Lemma fork_loop_represents a es e ks : ∀ c fuel,
  represents c (spec_blocks a (es ++ e :: ks)) → (length ks ≤ fuel)%nat →
  (transfers_bounded (chain_network c) (e_block <$> es ++ e :: ks) → ∃ c', fork_loop fuel c (cv_hash (e_block e)) = Ok c') ∧
  (∀ c', fork_loop fuel c (cv_hash (e_block e)) = Ok c' → represents c' (spec_blocks a (es ++ [e])) ∧
    forked_from c c' ∧
    last_fork_height c' = match ks with [] => last_fork_height c | _ => Some (cv_height (e_block e)) end).
Proof.
  induction ks as [|k ks IH] using rev_ind; intros c fuel Hr Hfuel.
  - destruct (tip_hash_of c (spec_blocks a es) e Hr) as [Ht _].
    assert (Hl : fork_loop fuel c (cv_hash (e_block e)) = Ok c)
      by (destruct fuel; cbn [fork_loop]; rewrite Ht, Ok_bind; by rewrite decide_True).
    rewrite Hl. split; [by exists c|]. intros c' [= <-]. done.
  - rewrite length_app in Hfuel. destruct fuel as [|fuel]; [cbn in Hfuel; lia|]. cbn [fork_loop].
    replace (es ++ e :: ks ++ [k]) with ((es ++ e :: ks) ++ [k]) in * by (by rewrite <- app_assoc).
    destruct (tip_hash_ne _ _ _ _ _ _ Hr) as [-> Hne]. rewrite Ok_bind, decide_False by done.
    destruct (pop_tip_represents c (spec_blocks a (es ++ e :: ks)) k Hr) as [Htot Hpart]; [by destruct es|].
    assert (Hstep : ∀ c1, pop_tip c = Ok c1 → ∃ h, non_finalized_tip_height (inner c1) = Ok h ∧
      match ks with [] => h = cv_height (e_block e) | _ => True end) by (intros c1 (Hr1 & _)%Hpart; by eapply fork_tip_height).
    split.
    + intros Hb. destruct (Htot Hb) as [c1 Hc1]. rewrite Hc1, Ok_bind. destruct (Hpart c1 Hc1) as (Hr1 & En & _).
      destruct (Hstep c1 Hc1) as (h & -> & _). rewrite Ok_bind.
      apply (IH (mkChain (chain_network c1) (inner c1) (Some h)) fuel Hr1); [cbn in Hfuel; lia|].
      cbn [chain_network]. rewrite En. rewrite fmap_app in Hb. by eapply transfers_bounded_app.
    + intros c' (c1 & Hc1 & H)%bind_Ok. destruct (Hpart c1 Hc1) as (Hr1 & En & _ & Es & Eo).
      destruct (Hstep c1 Hc1) as (h & Hh & Hk). rewrite Hh, Ok_bind in H.
      destruct (IH (mkChain (chain_network c1) (inner c1) (Some h)) fuel Hr1) as [_ IH']; [cbn in Hfuel; lia|].
      destruct (IH' c' H) as (Hr' & (En' & Es' & Eo') & El). cbn in En', Es', Eo', El.
      split_and!; [done|unfold forked_from; split_and!; congruence|]. rewrite El. destruct ks; cbn; by rewrite ?Hk.
Qed.

(** Forking at a block gives the chain that ends at the block. *)
Lemma fork_represents c a es e ks (Hr : represents c (spec_blocks a (es ++ e :: ks))) :
  (transfers_bounded (chain_network c) (e_block <$> es ++ e :: ks) → ∃ c', fork c (cv_hash (e_block e)) = Ok (Some c')) ∧
  fork c (cv_hash (e_block e)) ≠ Ok None ∧
  (∀ c', fork c (cv_hash (e_block e)) = Ok (Some c') → represents c' (spec_blocks a (es ++ [e])) ∧
    forked_from c c' ∧
    last_fork_height c' = match ks with [] => last_fork_height c | _ => Some (cv_height (e_block e)) end).
Proof.
  destruct (fork_loop_represents a es e ks c (len (inner c)) Hr) as [Ht Hp].
  { destruct Hr as (uss & ws & _ & Hf). unfold len. rewrite (fo_blocks _ _ _ _ Hf), length_from_height, length_fmap.
    cbn. rewrite length_app. cbn. lia. }
  unfold fork, contains_block_hash. rewrite (proj2 (represents_hashes _ _ Hr) e) by (cbn; set_solver). cbn. split_and!.
  - intros Hb. destruct (Ht Hb) as [c' ->]. by exists c'.
  - destruct (fork_loop _ _ _); discriminate.
  - intros c' (c1 & Hc1 & [= <-])%bind_Ok. by apply Hp.
Qed.

(** It returns no chain for any other hash. *)
Lemma fork_none c a hash : represents c a → hash ∉ (fun e => cv_hash (e_block e)) <$> entries a → fork c hash = Ok None.
Proof.
  intros (uss & ws & _ & Hf) Hh. unfold fork, contains_block_hash.
  pose proof (fo_hashes _ _ _ _ Hf) as (_ & _ & ->)%foldM_insert_new. rewrite (right_id_L ∅ (∪)).
  rewrite bool_decide_eq_false_2; [done|]. rewrite not_elem_of_list_to_map_1; [by intros []|].
  by rewrite <- list_fmap_compose.
Qed.

Lemma child_blocks_of c a es e ks :
  represents c (spec_blocks a (es ++ e :: ks)) →
  child_blocks (inner c) (cv_height (e_block e)) = e_block <$> e :: ks.
Proof.
  intros (uss & ws & Hok & Hf). unfold child_blocks, bt_range_ge.
  rewrite (fo_blocks _ _ _ _ Hf). cbn [root entries spec_blocks].
  pose proof (so_heights _ _ _ _ Hok) as Hh. cbn [root entries spec_blocks] in Hh. rewrite fmap_app in Hh |- *.
  rewrite from_height_app in Hh |- *. apply Forall_app in Hh as [_ [Hh _]%Forall_cons]. cbn in Hh. rewrite Hh.
  rewrite filter_app, filter_none, filter_all; cbn [app].
  - by rewrite snd_from_height.
  - intros x Hx. pose proof (from_height_bounds (height_of (root a) (length (e_block <$> es))) (e_block <$> e :: ks)) as Hb.
    rewrite Forall_forall in Hb. apply Hb in Hx. lia.
  - intros x Hx. pose proof (from_height_bounds (root a) (e_block <$> es)) as Hb.
    rewrite Forall_forall in Hb. apply Hb in Hx. lia.
Qed.

(** Invalidating a block gives the chain that ends before the block. *)
Lemma invalidate_represents c a es e ks (Hr : represents c (spec_blocks a (es ++ e :: ks))) (Hes : es ≠ []) :
  (transfers_bounded (chain_network c) (e_block <$> es ++ e :: ks) →
     ∃ r, chain_invalidate_block c (cv_hash (e_block e)) = Ok (Some r)) ∧
  (∀ o, chain_invalidate_block c (cv_hash (e_block e)) = Ok o → ∃ c', o = Some (c', e_block <$> e :: ks) ∧
    represents c' (spec_blocks a es) ∧ forked_from c c' ∧
    last_fork_height c' = min_height (last_fork_height c) (Some (cv_height (e_block e)))).
Proof.
  unfold chain_invalidate_block. rewrite (proj2 (represents_hashes _ _ Hr) e) by (cbn; set_solver).
  destruct (fork_represents c a es e ks Hr) as (Hft & Hfn & Hfp). rewrite (child_blocks_of c a es e ks Hr). split.
  - intros Hb. destruct (Hft Hb) as [c1 Hc1]. destruct (Hfp c1 Hc1) as (Hr1 & (En & _) & _). rewrite Hc1, Ok_bind.
    destruct (pop_tip_represents c1 (spec_blocks a es) e Hr1 Hes) as [Ht _]. destruct Ht as [c2 ->]; [|rewrite Ok_bind; by eexists].
    cbn [entries spec_blocks]. rewrite En. rewrite cons_middle, app_assoc, fmap_app in Hb. by eapply transfers_bounded_app.
  - intros o (o1 & Hc1 & H)%bind_Ok. destruct o1 as [c1|]; [|done]. destruct (Hfp c1 Hc1) as (Hr1 & (En & Es & Eo) & El).
    apply bind_Ok in H as (c2 & Hc2 & [= <-]).
    destruct (pop_tip_represents c1 (spec_blocks a es) e Hr1 Hes) as [_ Hp]. destruct (Hp c2 Hc2) as (Hr2 & En2 & El2 & Es2 & Eo2).
    eexists. split; [done|]. split; [exact Hr2|]. unfold forked_from. cbn. split_and!; congruence.
Qed.

(** Invalidating the root panics: [pop_tip] asserts that a block is left. *)
Lemma invalidate_root c a e ks : represents c (spec_blocks a (e :: ks)) →
  chain_invalidate_block c (cv_hash (e_block e)) = Panic.
Proof.
  intros Hr. unfold chain_invalidate_block. rewrite (proj2 (represents_hashes _ _ Hr) e) by (cbn; set_solver).
  destruct (fork_represents c a [] e ks Hr) as (_ & Hfn & Hfp).
  destruct (fork c _) as [[c1|]|[]|]; [|done|done]. destruct (Hfp c1 eq_refl) as ((uss & ws & _ & Hf) & _). rewrite Ok_bind.
  pose proof (fo_blocks _ _ _ _ Hf) as Hb. cbn [entries spec_blocks app fmap list_fmap] in Hb. unfold pop_tip, non_finalized_tip_height.
  rewrite (max_block_height_of _ [] _ _ Hb). cbn [expect]. rewrite Ok_bind.
  destruct (blocks_lookup_last _ [] _ _ Hb) as [-> ->]. done.
Qed.

(** *** The subtrees *)

(** The subtrees are in maps, by their index. *)
Definition subtrees_ok (s : ChainInner) : Prop := bt_ok (sapling_subtrees s) ∧ bt_ok (orchard_subtrees s).

Lemma insert_found {Node} (subtrees : list (Z * NoteCommitmentSubtreeData Node)) height :
  bt_ok subtrees → insert_subtree (find_subtree subtrees height) subtrees = subtrees.
Proof.
  intros Hok. unfold find_subtree. destruct (list_find _ subtrees) as [[i [k d]]|] eqn:Hf; [|done].
  apply list_find_Some in Hf as (Hf%list_elem_of_lookup_2 & _). cbn. destruct d. by apply bt_insert_same.
Qed.
Lemma insert_subtree_ok {Node} o (subtrees : list (Z * NoteCommitmentSubtreeData Node)) :
  bt_ok subtrees → bt_ok (insert_subtree o subtrees).
Proof. destruct o; [apply bt_ok_insert|done]. Qed.
Lemma pop_subtree_ok {Node} (completed : bool) (subtrees : list (Z * NoteCommitmentSubtreeData Node)) :
  bt_ok subtrees → bt_ok (pop_subtree completed subtrees).
Proof. destruct completed; [|done]. destruct subtrees as [|[k v] m]; [done|]. by intros [? _]%bt_ok_cons. Qed.

Lemma trees_parallel_subtrees nct block nct' : update_trees_parallel nct block = Ok nct' →
  (block_sapling_note_commitments block = [] → sapling_subtree_new nct' = sapling_subtree_new nct) ∧
  (block_orchard_note_commitments block = [] → orchard_subtree_new nct' = orchard_subtree_new nct).
Proof.
  unfold update_trees_parallel, sapling_result, orchard_result.
  intros (h & _ & H)%bind_Ok. apply bind_Ok in H as (sp & _ & H).
  apply bind_Ok in H as ([sa sas] & Hsa & H). apply bind_Ok in H as ([oc ocs] & Hoc & [= <-]).
  cbn [sapling_subtree_new orchard_subtree_new]. split.
  - intros He. rewrite He in Hsa. by injection Hsa as _ <-.
  - intros He. rewrite He in Hoc. by injection Hoc as _ <-.
Qed.

(** A block keeps the maps, and a block without notes of a pool the subtrees of the pool. *)
Lemma push_subtrees c b c' : subtrees_ok (inner c) → push c b = Ok c' → subtrees_ok (inner c') ∧
  (block_sapling_note_commitments (cv_block b) = [] → sapling_subtrees (inner c') = sapling_subtrees (inner c)) ∧
  (block_orchard_note_commitments (cv_block b) = [] → orchard_subtrees (inner c') = orchard_subtrees (inner c)).
Proof.
  intros [Hsa Hoc] (st & (nct & nct' & s1 & Htip & Htrees & Hexc & Hadd)%update_parallel_Ok & [= <-])%bind_Ok.
  apply except_trees_Ok in Hexc as (hashes & w & work & l & pools & _ & _ & _ & _ & _ & ->).
  destruct (trees_parallel_subtrees _ _ _ Htrees) as [Es Eo].
  assert (Ht : sapling_subtree_new nct = sapling_subtree_for_tip (inner c) ∧
    orchard_subtree_new nct = orchard_subtree_for_tip (inner c)).
  { unfold trees_for_tip in Htip. apply bind_Ok in Htip as (? & _ & Htip). apply bind_Ok in Htip as (? & _ & Htip).
    by apply bind_Ok in Htip as (? & _ & [= <-]). }
  destruct Ht as [Ts To].
  assert (Hst : sapling_subtrees st = insert_subtree (sapling_subtree_new nct') (sapling_subtrees (inner c)) ∧
    orchard_subtrees st = insert_subtree (orchard_subtree_new nct') (orchard_subtrees (inner c))).
  { unfold add_trees in Hadd. repeat (apply bind_Ok in Hadd as (? & _ & Hadd)). by injection Hadd as <-. }
  destruct Hst as [Ss So]. unfold subtrees_ok. cbn [inner set_blocks sapling_subtrees orchard_subtrees]. rewrite Ss, So.
  split_and!; [by apply insert_subtree_ok..| |].
  - intros He. rewrite (Es He), Ts. unfold sapling_subtree_for_tip. destruct (max_block_height (inner c)); [|done]. by apply insert_found.
  - intros He. rewrite (Eo He), To. unfold orchard_subtree_for_tip. destruct (max_block_height (inner c)); [|done]. by apply insert_found.
Qed.

Lemma pop_root_subtrees c b t c' : subtrees_ok (inner c) → pop_root c = Ok (b, t, c') → subtrees_ok (inner c').
Proof.
  intros [Hsa Hoc]. unfold pop_root. intros (h & _ & H)%bind_Ok. apply bind_Ok in H as (ts & _ & H).
  apply bind_Ok in H as (b' & _ & H). apply bind_Ok in H as (s & Hs & [= _ _ <-]).
  unfold revert_chain_with in Hs. repeat (apply bind_Ok in Hs as (? & _ & Hs)). injection Hs as <-.
  split; cbn; by apply pop_subtree_ok.
Qed.

(** *** A specification determines a chain, but for the subtrees *)

Definition forget_subtrees (s : ChainInner) : ChainInner :=
  mkInner (blocks s) (height_by_hash s) (ledger s) (sprout_trees s) (sapling_trees s) [] (orchard_trees s) []
    (history_trees_by_height s) (partial_cumulative_work s) (chain_value_pools s) (block_info_by_height s).

Lemma represents_unique c c' a :
  represents c a → represents c' a → chain_network c = chain_network c' →
  forget_subtrees (inner c) = forget_subtrees (inner c').
Proof.
  intros (uss & ws & Hok & Hf) (uss' & ws' & Hok' & Hf') Hn. rewrite Hn in Hok.
  pose proof (so_updates _ _ _ _ Hok) as Hu. rewrite (so_updates _ _ _ _ Hok') in Hu. injection Hu as ->.
  pose proof (so_works _ _ _ _ Hok) as Hw. rewrite (so_works _ _ _ _ Hok') in Hw. injection Hw as ->.
  destruct Hf as [? Hh Hl ? ? ? ? [? _] ? ?], Hf' as [? Hh' Hl' ? ? ? ? [? _] ? ?].
  rewrite Hh in Hh'. rewrite Hl in Hl'. unfold forget_subtrees. f_equal; congruence.
Qed.

Lemma follows_unique network p b s s' : follows network p b s → follows network p b s' → s = s'.
Proof.
  intros (H1 & H2 & H3 & H4 & H5) (H1' & H2' & H3' & H4' & H5'). destruct s, s'; cbn in *.
  rewrite H1 in H1'. rewrite H2 in H2'. rewrite H3 in H3'. rewrite H5 in H5'. simplify_eq.
  rewrite H4 in H4'. by simplify_eq.
Qed.

End Spec.

(** ** Properties *)

Section Reachable.
Context `{Env : !ChainEnv, SP : !ScriptParser}.

(** The chains the operations build, each with the blocks it stands for. A new
    chain is on top of a finalized tip at height [h]; a block is pushed at the
    height after the tip ([can_follow]). Nothing is assumed of the balances: an
    operation that returned kept them in range. *)
Inductive reachable : Chain → ChainSpec → Prop :=
| reach_new network h sp sa oc hi pools c :
    0 ≤ h < MAX → vb_ok pools → chain_new network h sp sa oc hi pools = Ok c →
    reachable c (mkSpec (mkState sp sa oc hi pools) true (h + 1) [])
| reach_push c a b c' s :
    reachable c a → can_follow a b → push c b = Ok c' →
    follows (chain_network c) (last_state (base a) (entries a)) b s →
    reachable c' (spec_push a (mkEntry b s))
| reach_pop_root c a e es b t c' :
    reachable c a → entries a = e :: es → pop_root c = Ok (b, t, c') →
    reachable c' (spec_pop_root a e es)
| reach_fork c a es e ks c' :
    reachable c (spec_blocks a (es ++ e :: ks)) → fork c (cv_hash (e_block e)) = Ok (Some c') →
    reachable c' (spec_blocks a (es ++ [e]))
| reach_invalidate c a es e ks c' bs :
    reachable c (spec_blocks a (es ++ e :: ks)) → es ≠ [] →
    chain_invalidate_block c (cv_hash (e_block e)) = Ok (Some (c', bs)) →
    reachable c' (spec_blocks a es).

Context `{L : !ChainEnvLaws}.

Lemma represents_push_follows c a b s :
  represents c (spec_push a (mkEntry b s)) →
  follows (chain_network c) (last_state (base a) (entries a)) b s.
Proof. intros (uss & ws & (? & ? & ? & ? & _ & _ & _ & _ & Hf & _)%spec_push_inv & _). done. Qed.

Lemma reachable_spec c a : reachable c a → represents c a ∧ subtrees_ok (inner c).
Proof.
  induction 1 as [net h sp sa oc hi pools c Hh Hp Hc|c a b c' s _ [IH IHs] Hcf Hp Hfol|c a e es b t c' _ [IH IHs] He Hp
    |c a es e ks c' _ [IH IHs] Hf|c a es e ks c' bs _ [IH IHs] Hes Hf].
  - destruct (chain_new_represents net h sp sa oc hi pools Hh Hp) as (c' & Hc' & Hr).
    assert (c = c') as -> by congruence. split; [done|]. unfold chain_new in Hc. repeat (apply bind_Ok in Hc as (? & _ & Hc)).
    injection Hc as <-. split; apply bt_ok_nil.
  - split; [|by eapply push_subtrees].
    destruct (push_represents c a b c' IH Hcf Hp) as (s' & Hr). pose proof (represents_push_follows _ _ _ _ Hr) as Hf'.
    assert (Hn : chain_network c' = chain_network c) by (apply bind_Ok in Hp as (? & _ & [= <-]); done).
    rewrite Hn in Hf'. by rewrite (follows_unique _ _ _ _ _ Hfol Hf').
  - split; [|by eapply pop_root_subtrees]. by apply (pop_root_represents c a e es IH He) in Hp as (_ & Hr & _).
  - apply (fork_represents c a es e ks IH) in Hf as (Hr & (_ & Es & Eo) & _). split; [done|]. unfold subtrees_ok. by rewrite Es, Eo.
  - apply (invalidate_represents c a es e ks IH Hes) in Hf as (c1 & [= -> _] & Hr & (_ & Es & Eo) & _).
    split; [done|]. unfold subtrees_ok. by rewrite Es, Eo.
Qed.

(** C1: every index of a non-finalized chain, but for its Sapling and Orchard
    subtrees, is the one of the list of its blocks, whatever blocks were pushed,
    finalized from the root, forked off or invalidated: [represents] gives each
    field of [ChainInner] but these two as a function of the blocks and of the
    state below them, where the trees, the history tree and the value pools after
    a block follow from the ones before it, and the balances are exact. *)
Theorem reachable_represents c a : reachable c a → represents c a.
Proof. by intros [Hr _]%reachable_spec. Qed.

(** C18: on a chain whose blocks move at most the money supply at each address,
    which no check of the node establishes, the operations that remove blocks
    return. [pop_root] returns the first block with the trees after it; [fork]
    returns the chain that ends at a block of the chain, and [invalidate_block]
    the chain that ends before a block other than the first. On any chain,
    invalidating the first block panics, [pop_root] of an empty chain panics,
    and [fork] returns no chain for a hash that is not in the chain. *)
Theorem removals_total c a (Hr : represents c a) :
  (transfers_bounded (chain_network c) (e_block <$> entries a) →
   (∀ e es, entries a = e :: es → ∃ sapling_subtree orchard_subtree c',
      pop_root c = Ok (e_block e,
        mkTreestate (mkTrees (st_sprout (e_state e)) (st_sapling (e_state e)) sapling_subtree
                       (st_orchard (e_state e)) orchard_subtree) (st_history (e_state e)), c') ∧
      represents c' (spec_pop_root a e es)) ∧
   (∀ es e ks, entries a = es ++ e :: ks →
      (∃ c', fork c (cv_hash (e_block e)) = Ok (Some c') ∧ represents c' (spec_blocks a (es ++ [e]))) ∧
      (es ≠ [] → ∃ c', chain_invalidate_block c (cv_hash (e_block e)) = Ok (Some (c', e_block <$> e :: ks)) ∧
         represents c' (spec_blocks a es)))) ∧
  (∀ e ks, entries a = e :: ks → chain_invalidate_block c (cv_hash (e_block e)) = Panic) ∧
  (entries a = [] → pop_root c = Panic) ∧
  (∀ hash, hash ∉ (fun e => cv_hash (e_block e)) <$> entries a → fork c hash = Ok None).
Proof.
  assert (Hsplit : ∀ es, entries a = es → a = spec_blocks a es) by (intros es <-; by destruct a).
  split; [|split_and!].
  - intros Hb. split.
    + intros e es He. destruct (pop_root_represents c a e es Hr He) as [Ht Hp]. destruct (Ht Hb) as [[[b t] c'] Hpop].
      destruct (Hp b t c' Hpop) as (-> & Hr' & H1 & H2 & H3 & H4 & _). destruct t as [[]]. cbn in *. subst. eauto.
    + intros es e ks He. rewrite He in Hb. rewrite (Hsplit _ He) in Hr. split.
      * destruct (fork_represents c a es e ks Hr) as (Ht & _ & Hp). destruct (Ht Hb) as [c' Hc']. exists c'. split; [done|]. by apply Hp.
      * intros Hes. destruct (invalidate_represents c a es e ks Hr Hes) as [Ht Hp]. destruct (Ht Hb) as [r Hr'].
        destruct (Hp _ Hr') as (c' & [= ->] & H & _). eauto.
  - intros e ks He. rewrite (Hsplit _ He) in Hr. by eapply invalidate_root.
  - intros He. destruct Hr as (uss & ws & _ & Hf). pose proof (fo_blocks _ _ _ _ Hf) as Hb. rewrite He in Hb.
    unfold pop_root, non_finalized_root_height, bt_first. by rewrite Hb.
  - intros hash. by eapply fork_none.
Qed.

(** What the callers of [push] establish for a sequence of blocks from height [h]. *)
Record can_follow_all (h : Height) (bs : list ContextuallyVerifiedBlock) : Prop := {
  ca_heights : Forall (fun e => cv_height e.2 = e.1) (from_height h bs);
  ca_max : height_of h (length bs) ≤ MAX;
  ca_changes : Forall (fun b => vb_ok (cv_chain_value_pool_change b)) bs;
}.

Lemma can_follow_all_app h bs ks : can_follow_all h (bs ++ ks) → can_follow_all h bs.
Proof.
  intros [Hh Hm Hc]. rewrite from_height_app in Hh. apply Forall_app in Hh as [Hh _].
  apply Forall_app in Hc as [Hc _]. rewrite length_app in Hm. split; [done|unfold height_of in *; lia|done].
Qed.

Lemma foldM_push_network bs c c' :
  foldM push c bs = Ok c' → chain_network c' = chain_network c ∧ last_fork_height c' = last_fork_height c.
Proof.
  apply (foldM_inv push (fun c' => chain_network c' = chain_network c ∧ last_fork_height c' = last_fork_height c)); [|done].
  by intros c1 b c2 [<- <-] (? & _ & [= <-])%bind_Ok.
Qed.

Lemma linked_unique network p es es' :
  linked network p es → linked network p es' → e_block <$> es = e_block <$> es' → es = es'.
Proof.
  revert p es'. induction es as [|[b s] es IH]; intros p [|[b' s'] es'] Hl Hl' He; try done.
  injection He as -> He. destruct Hl as [Hf Hl], Hl' as [Hf' Hl']. cbn in *.
  pose proof (follows_unique _ _ _ _ _ Hf Hf') as ->. f_equal. by apply (IH s').
Qed.

Lemma represents_blocks_unique c c' a es es' :
  represents c (spec_blocks a es) → represents c' (spec_blocks a es') → chain_network c = chain_network c' →
  e_block <$> es = e_block <$> es' → es = es'.
Proof.
  intros (? & ? & Hok & _) (? & ? & Hok' & _) Hn. rewrite Hn in Hok.
  apply (linked_unique (chain_network c') (base a)); [apply (so_links _ _ _ _ Hok)|apply (so_links _ _ _ _ Hok')].
Qed.

Lemma can_follow_last a es bs b : e_block <$> es = bs → can_follow_all (root a) (bs ++ [b]) → can_follow (spec_blocks a es) b.
Proof.
  intros <- [Hh Hm Hc]. apply from_height_Forall_snoc in Hh as [_ Hh]. apply Forall_app in Hc as [_ [Hc _]%Forall_cons].
  rewrite length_app, length_fmap in *. unfold height_of in *. cbn in *. split; cbn; [done|lia|done].
Qed.

Lemma pushes_represent a bs : ∀ c c',
  represents c (spec_blocks a []) → can_follow_all (root a) bs → foldM push c bs = Ok c' →
  ∃ es, e_block <$> es = bs ∧ represents c' (spec_blocks a es).
Proof.
  induction bs as [|b bs IH] using rev_ind; intros c c' Hr Hall; [intros [= <-]; by exists []|].
  rewrite foldM_app. intros (c1 & Hc1 & H)%bind_Ok. cbn in H. apply bind_Ok in H as (c2 & Hp & [= ->]).
  destruct (IH c c1 Hr) as (es & Hes & Hr1); [by eapply can_follow_all_app|done|].
  pose proof (can_follow_last a es bs b Hes Hall) as Hcf.
  destruct (push_represents c1 _ b c' Hr1 Hcf Hp) as (s & Hr'). exists (es ++ [mkEntry b s]).
  split; [by rewrite fmap_app, Hes|done].
Qed.

Lemma pushes_reachable a bs : ∀ c c',
  reachable c (spec_blocks a []) → can_follow_all (root a) bs → foldM push c bs = Ok c' →
  ∃ es, e_block <$> es = bs ∧ reachable c' (spec_blocks a es).
Proof.
  induction bs as [|b bs IH] using rev_ind; intros c c' Hr Hall; [intros [= <-]; by exists []|].
  rewrite foldM_app. intros (c1 & Hc1 & H)%bind_Ok. cbn in H. apply bind_Ok in H as (c2 & Hp & [= ->]).
  destruct (IH c c1 Hr) as (es & Hes & Hr1); [by eapply can_follow_all_app|done|].
  pose proof (can_follow_last a es bs b Hes Hall) as Hcf. destruct (reachable_spec _ _ Hr1) as [Hr1' _].
  destruct (push_represents c1 _ b c' Hr1' Hcf Hp) as (s & Hr'). exists (es ++ [mkEntry b s]).
  split; [by rewrite fmap_app, Hes|]. apply (reach_push c1 (spec_blocks a es) b); [done..|].
  apply represents_push_follows in Hr'. assert (chain_network c' = chain_network c1) as <-; [|done].
  by apply bind_Ok in Hp as (? & _ & [= <-]).
Qed.

(** Forking is exact. Of a chain built by pushing blocks on a finalized tip,
    a fork at one of its blocks that returned is the chain built by pushing the blocks up to
    that one: every index is equal, but for the Sapling and Orchard subtrees. *)
Theorem fork_of_pushes network h sp sa oc hi pools c0 bs b ks c :
  0 ≤ h → vb_ok pools → chain_new network h sp sa oc hi pools = Ok c0 →
  can_follow_all (h + 1) (bs ++ b :: ks) → foldM push c0 (bs ++ b :: ks) = Ok c →
  ∀ o, fork c (cv_hash b) = Ok o → ∃ c1 c', foldM push c0 (bs ++ [b]) = Ok c1 ∧ o = Some c' ∧
    forget_subtrees (inner c') = forget_subtrees (inner c1) ∧
    last_fork_height c' = match ks with [] => None | _ => Some (cv_height b) end.
Proof.
  intros Hh Hp Hc0 Hall Hc o Ho. assert (Hm : h < MAX).
  { pose proof (ca_max _ _ Hall) as Hm. rewrite length_app in Hm. unfold height_of in Hm. cbn in Hm. lia. }
  destruct (chain_new_represents network h sp sa oc hi pools) as (c0' & Hc0' & Hr0); [lia|done|].
  assert (c0' = c0) as -> by congruence. set (a := mkSpec _ true (h + 1) []) in Hr0.
  assert (Hn0 : chain_network c0 = network ∧ last_fork_height c0 = None).
  { unfold chain_new in Hc0. res_inv. done. }
  destruct Hn0 as [Hn0 Hl0]. destruct (pushes_represent a (bs ++ b :: ks) c0 c) as (es & Hes & Hr); [done..|].
  apply fmap_app_inv in Hes as (es1 & es2 & -> & He2 & ->). destruct es2 as [|e es2]; [done|].
  rewrite fmap_cons in He2. injection He2 as -> ->.
  destruct (fork_represents c a es1 e es2 Hr) as (_ & Hn & Hf). destruct o as [c'|]; [|done].
  destruct (Hf c' Ho) as (Hr' & (En & _) & El).
  destruct (foldM_push_network _ _ _ Hc) as [En' El'].
  assert (Hsplit : (e_block <$> es1) ++ e_block e :: (e_block <$> es2)
    = (e_block <$> es1 ++ [e]) ++ (e_block <$> es2)) by (by rewrite fmap_app, <- app_assoc).
  rewrite Hsplit in Hc, Hall. rewrite foldM_app in Hc. apply bind_Ok in Hc as (c1 & Hc1 & Hc).
  destruct (pushes_represent a (e_block <$> es1 ++ [e]) c0 c1) as (es & Hes & Hr1); [done|by eapply can_follow_all_app|done|].
  destruct (foldM_push_network _ _ _ Hc1) as [En1 El1].
  assert (es = es1 ++ [e]) as ->.
  { apply (represents_blocks_unique c1 c' a); [done|done|congruence|done]. }
  exists c1, c'. rewrite fmap_app in Hc1. split_and!; [done|done| |].
  - apply (represents_unique _ _ _ Hr' Hr1). congruence.
  - rewrite El. destruct es2; cbn; [congruence|done].
Qed.

(** C40: a fork keeps the subtrees of the blocks it removes. The subtrees of the
    forked chain are the ones of the chain it was forked from, so a block pushed
    on the fork without notes of a pool is stored with the subtree of the block
    at its height that the fork removed, whose notes are not in its chain. *)
Theorem fork_keeps_removed_subtrees c a es e k ks c' (Hr : reachable c (spec_blocks a (es ++ e :: k :: ks)))
    (Hf : fork c (cv_hash (e_block e)) = Ok (Some c')) :
  sapling_subtrees (inner c') = sapling_subtrees (inner c) ∧
  orchard_subtrees (inner c') = orchard_subtrees (inner c) ∧
  ∀ b c'', can_follow (spec_blocks a (es ++ [e])) b → push c' b = Ok c'' →
    (block_sapling_note_commitments (cv_block b) = [] →
       sapling_subtree (inner c'') (ByHash (cv_hash b)) = sapling_subtree (inner c) (ByHash (cv_hash (e_block k)))) ∧
    (block_orchard_note_commitments (cv_block b) = [] →
       orchard_subtree (inner c'') (ByHash (cv_hash b)) = orchard_subtree (inner c) (ByHash (cv_hash (e_block k)))).
Proof.
  apply reachable_spec in Hr as [Hr Hs]. destruct (fork_represents c a es e (k :: ks) Hr) as (_ & _ & Hp).
  destruct (Hp c' Hf) as (Hr' & (_ & Es & Eo) & _). split_and!; [done..|]. intros b c'' Hcf Hpush.
  assert (Hs' : subtrees_ok (inner c')) by (unfold subtrees_ok; by rewrite Es, Eo).
  destruct (push_subtrees c' b c'' Hs' Hpush) as (_ & Ps & Po).
  destruct (push_represents c' _ b c'' Hr' Hcf Hpush) as (s & Hr'').
  pose proof (proj2 (represents_hashes _ _ Hr'') (mkEntry b s) ltac:(cbn; set_solver)) as Hb.
  pose proof (proj2 (represents_hashes _ _ Hr) k ltac:(cbn; set_solver)) as Hk. cbn in Hb.
  assert (Hh : cv_height b = cv_height (e_block k)).
  { rewrite (cf_height _ _ Hcf). destruct Hr as (uss & ws & Hok & _). pose proof (so_heights _ _ _ _ Hok) as Hh.
    cbn [root entries spec_blocks] in *. rewrite cons_middle, app_assoc, fmap_app, from_height_app in Hh.
    apply Forall_app in Hh as [_ [Hh _]%Forall_cons]. cbn in Hh. by rewrite Hh, length_fmap. }
  unfold sapling_subtree, orchard_subtree, height_or_else. rewrite Hb, Hk, Hh. cbn. rewrite <- Es, <- Eo.
  split; intros He; [by rewrite (Ps He)|by rewrite (Po He)].
Qed.

End Reachable.

(** *** The order of chains *)

(** The work and the tip hash of a chain. *)
Definition rank `{!ChainEnv} (c : Chain) (work : PartialCumulativeWork) (tip : Hash) : Prop :=
  partial_cumulative_work (inner c) = work ∧ non_finalized_tip_hash (inner c) = Ok tip.

Lemma chain_cmp_rank `{!ChainEnv} c c' w w' t t' : rank c w t → rank c' w' t' →
  chain_cmp c c' = match w ?= w' with
                   | Eq => match bytes_cmp t t' with Eq => Panic | ordering => Ok ordering end
                   | ordering => Ok ordering
                   end.
Proof.
  intros [Hw Ht] [Hw' Ht']. unfold chain_cmp. rewrite Hw, Hw', Ht, Ht', !Ok_bind.
  destruct (Z.compare_spec w w') as [->| |].
  - by rewrite Z.eqb_refl.
  - rewrite (proj2 (Z.eqb_neq w w')) by lia. done.
  - rewrite (proj2 (Z.eqb_neq w w')) by lia. done.
Qed.

(** chains are strictly ordered by cumulative work, then by tip hash: the
    comparison panics exactly on two chains with the same work and the same tip,
    a chain with more work is greater, and the order is antisymmetric and
    transitive. *)
Theorem chain_order `{!ChainEnv} c1 c2 c3 w1 w2 w3 t1 t2 t3 :
  rank c1 w1 t1 → rank c2 w2 t2 → rank c3 w3 t3 →
  (chain_cmp c1 c2 = Panic ↔ w1 = w2 ∧ t1 = t2) ∧
  (w1 < w2 → chain_cmp c1 c2 = Ok Lt) ∧
  (∀ o, chain_cmp c1 c2 = Ok o ↔ chain_cmp c2 c1 = Ok (CompOpp o)) ∧
  (chain_cmp c1 c2 = Ok Lt → chain_cmp c2 c3 = Ok Lt → chain_cmp c1 c3 = Ok Lt).
Proof.
  intros H1 H2 H3. rewrite (chain_cmp_rank _ _ _ _ _ _ H1 H2), (chain_cmp_rank _ _ _ _ _ _ H2 H1),
    (chain_cmp_rank _ _ _ _ _ _ H2 H3), (chain_cmp_rank _ _ _ _ _ _ H1 H3).
  rewrite (Z.compare_antisym w1 w2), (bytes_cmp_antisym t1 t2). pose proof (bytes_cmp_Eq t1 t2) as He. split_and!.
  - destruct (Z.compare_spec w1 w2); [destruct (bytes_cmp t1 t2)|..]; naive_solver lia.
  - by intros ->%Z.compare_lt_iff.
  - intros o. destruct (w1 ?= w2), (bytes_cmp t1 t2), o; cbn; naive_solver.
  - pose proof (bytes_cmp_trans t1 t2 t3) as Ht.
    destruct (Z.compare_spec w1 w2), (Z.compare_spec w2 w3), (Z.compare_spec w1 w3); try lia; try done.
    destruct (bytes_cmp t1 t2), (bytes_cmp t2 t3), (bytes_cmp t1 t3); naive_solver.
Qed.

(** *** Concrete chains *)

(** Trees with a code of their notes as the root, that complete a subtree every two notes. *)
#[export] Instance sample_tree : NoteTree (list Hash) Hash := {| tree_root t := [Zpos (encode t)] |}.
Definition sample_append (t : list Hash) (cm : Hash) : option (list Hash) :=
  if decide (length t < 8)%nat then Some (t ++ [cm]) else None.
Definition sample_subtree (t : list Hash) : option (Z * list Hash) :=
  if Nat.even (length t) then Some (Z.of_nat (length t) / 2 - 1, t) else None.
Definition sample_env : ChainEnv := {|
  sprout_append := sample_append; sapling_append := sample_append; orchard_append := sample_append;
  sapling_completed_subtree := sample_subtree; orchard_completed_subtree := sample_subtree;
  history_push (tree : list Hash) _ b sapling_root _ := Ok (tree ++ [previous_block_hash (header b)]);
  history_hash tree := match tree with [] => None | _ => Some [Zpos (encode tree)] end;
  zcash_serialized_size b := 1000 |}.
#[local] Existing Instance sample_env.
#[local] Existing Instance sample_parser.

Lemma sample_laws : ChainEnvLaws.
Proof. repeat split; intros t t' [= Ht]; by apply (inj encode). Qed.

Definition coinbase_tx (h : Height) (cms : list Hash) : Transaction :=
  V4 [Coinbase h [] 0] [mkOutput (mkAmount 5) [7]] unlocked 0 None
     (match cms with
      | [] => None
      | _ => Some (mkSapling (mkAmount 0) (JustOutputs ((λ cm, mkSaplingOutput [] cm [] [] [] []) <$> cms)) [])
      end).
(** A block at [h] with hash [[id]] and Sapling note commitments [cms]. *)
Definition chain_sample_block (parent id h : Z) (cms : list Hash) : ContextuallyVerifiedBlock :=
  mkContextual (mkBlock (mkHeader 4 [parent] [] [] 0 0x1f07ffff [] (Common [])) [coinbase_tx h cms]) [id] h
    {[mkOutPoint [id; 1] 0 := ordered_utxo_new (mkOutput (mkAmount 5) [7]) h 0]} ∅ [[id; 1]]
    (mkValueBalance (mkAmount 5) (mkAmount 0) (mkAmount 0) (mkAmount 0) (mkAmount 0)).

Definition sample_pools : ValueBalance NonNegative :=
  mkValueBalance (mkAmount 100) (mkAmount 0) (mkAmount 0) (mkAmount 0) (mkAmount 0).
Definition sample_new : Run Chain := chain_new Mainnet 9 [] [] [] [] sample_pools.
Definition sample_empty : Chain :=
  mkChain Mainnet (mkInner [] ∅ ledger_new (sprout_of 0 []) (pool_of 0 []) [] (pool_of 0 []) [] [] 0 sample_pools []) None.
Definition chain_or {E} (r : Res E Chain) : Chain := match r with Ok c => c | _ => sample_empty end.
Lemma chain_or_ok {E} (r : Res E Chain) : is_ok r = true → r = Ok (chain_or r).
Proof. by destruct r. Qed.

Definition sample_chain (bs : list ContextuallyVerifiedBlock) : Res ValidateContextError Chain :=
  foldM push (chain_or sample_new) bs.
Definition sample_blocks : list ContextuallyVerifiedBlock :=
  [chain_sample_block 9 10 10 [[1]]; chain_sample_block 10 11 11 [[2]]; chain_sample_block 11 12 12 []].

Lemma sample_chain_ok : is_ok (sample_chain sample_blocks) = true.
Proof. vm_compute. reflexivity. Qed.

Definition bounded_check (network : Network) (bs : list ContextuallyVerifiedBlock) : bool :=
  match collect (block_updates network <$> bs) with
  | Ok uss =>
      let ts := transfers_in (concat uss) in
      forallb (fun t => amount_ok (transfer_amount t.2)) ts
      && (sum_Z ((fun t => zatoshis (transfer_amount t.2)) <$> ts) <=? MAX_MONEY)
  | _ => false
  end.
Lemma bounded_check_ok network bs : bounded_check network bs = true → transfers_bounded network bs.
Proof.
  unfold bounded_check, transfers_bounded. destruct (collect _) as [uss| |]; [|done|done].
  intros [Hc1 Hc2%Z.leb_le]%andb_true_iff. exists uss. split; [done|]. apply transfers_adm_total; [|done]. rewrite forallb_forall in Hc1. apply Forall_forall. intros t Ht.
  apply Hc1. by apply list_elem_of_In.
Qed.

Definition sample_block_10 : ContextuallyVerifiedBlock := chain_sample_block 9 10 10 [[1]].
Definition sample_base : BlockState := mkState (Env := sample_env) [] [] [] [] sample_pools.
Definition sample_state_10 : BlockState := mkState (Env := sample_env) [] [[1]] [] [[9]]
  (mkValueBalance (mkAmount 105) (mkAmount 0) (mkAmount 0) (mkAmount 0) (mkAmount 0)).

Lemma sample_new_eq : sample_new = Ok (chain_or sample_new).
Proof. apply chain_or_ok. vm_compute. reflexivity. Qed.
Lemma sample_push_eq : push (chain_or sample_new) sample_block_10 = Ok (chain_or (sample_chain [sample_block_10])).
Proof. unfold sample_chain. cbn [foldM]. rewrite bind_ret. apply chain_or_ok. vm_compute. reflexivity. Qed.
Lemma sample_pools_ok : vb_ok sample_pools.
Proof. repeat constructor. Qed.

Lemma reachable_represents_witness :
  represents (chain_or (sample_chain [sample_block_10]))
    (spec_push (mkSpec sample_base true 10 []) (mkEntry sample_block_10 sample_state_10)).
Proof.
  apply (reachable_represents (L := sample_laws)).
  apply (reach_push (chain_or sample_new) _ sample_block_10).
  - apply (reach_new (Env := sample_env) Mainnet 9 [] [] [] [] sample_pools);
      [done|apply sample_pools_ok|apply sample_new_eq].
  - split; [reflexivity|reflexivity|repeat constructor].
  - apply sample_push_eq.
  - repeat split.
Defined.

Lemma sample_represents : ∃ s, represents (chain_or (sample_chain [sample_block_10]))
  (spec_push (mkSpec sample_base true 10 []) (mkEntry sample_block_10 s)).
Proof.
  apply (push_represents (L := sample_laws) (chain_or sample_new)).
  - destruct (chain_new_represents (L := sample_laws) (Env := sample_env) Mainnet 9 [] [] [] [] sample_pools)
      as (c & Hc & Hr); [done|apply sample_pools_ok|].
    change (chain_new _ _ _ _ _ _ _) with sample_new in Hc. rewrite sample_new_eq in Hc. injection Hc as <-. exact Hr.
  - split; [reflexivity|reflexivity|repeat constructor].
  - apply sample_push_eq.
Qed.

Lemma removals_total_witness :
  ∃ c', fork (chain_or (sample_chain [sample_block_10])) [10] = Ok (Some c').
Proof.
  destruct sample_represents as (s & Hr).
  destruct (removals_total (L := sample_laws) _ _ Hr) as [H _].
  destruct H as [_ H]; [apply bounded_check_ok; vm_compute; reflexivity|].
  destruct (H [] (mkEntry sample_block_10 s) [] eq_refl) as [(c' & Hf & _) _]. exists c'. exact Hf.
Defined.

Lemma sample_can_follow : can_follow_all 10 sample_blocks.
Proof. split; [repeat constructor|done|repeat constructor]. Qed.
Lemma sample_pushes_eq : foldM push (chain_or sample_new) sample_blocks = Ok (chain_or (sample_chain sample_blocks)).
Proof. apply chain_or_ok, sample_chain_ok. Qed.

Lemma fork_of_pushes_witness : ∀ o, fork (chain_or (sample_chain sample_blocks)) [11] = Ok o → ∃ c1 c',
  foldM push (chain_or sample_new) [sample_block_10; chain_sample_block 10 11 11 [[2]]] = Ok c1 ∧ o = Some c' ∧
  forget_subtrees (inner c') = forget_subtrees (inner c1) ∧ last_fork_height c' = Some 11.
Proof.
  exact (fork_of_pushes (L := sample_laws) Mainnet 9 [] [] [] [] sample_pools (chain_or sample_new) [sample_block_10]
    (chain_sample_block 10 11 11 [[2]]) [chain_sample_block 11 12 12 []] (chain_or (sample_chain sample_blocks))
    ltac:(done) sample_pools_ok sample_new_eq sample_can_follow sample_pushes_eq).
Defined.

Definition sample_work : Z := 8192.
Definition sample_tip (id : Z) : Chain := chain_or (sample_chain [chain_sample_block 9 id 10 []]).
Lemma sample_ranks :
  rank (sample_tip 1) sample_work [1] ∧ rank (sample_tip 2) sample_work [2] ∧ rank (sample_tip 3) sample_work [3].
Proof. vm_compute. repeat split. Qed.

Lemma chain_order_witness : chain_cmp (sample_tip 1) (sample_tip 3) = Ok Lt.
Proof.
  destruct sample_ranks as (H1 & H2 & H3).
  refine (proj2 (proj2 (proj2 (chain_order _ (sample_tip 2) _ _ _ _ _ _ _ H1 H2 H3))) _ _); vm_compute; reflexivity.
Defined.

(** The second block of [sample_blocks] completes a subtree; the block [[21]] replaces it on a fork. *)
Definition sample_fork : Chain := match fork (chain_or (sample_chain sample_blocks)) [10] with Ok (Some c) => c | _ => sample_empty end.
Definition sample_refork : Chain := chain_or (push sample_fork (chain_sample_block 10 21 11 [])).
Lemma sample_fork_eq : fork (chain_or (sample_chain sample_blocks)) [10] = Ok (Some sample_fork).
Proof.
  assert (match fork (chain_or (sample_chain sample_blocks)) [10] with Ok (Some _) => true | _ => false end = true)
    as H by (vm_compute; reflexivity). unfold sample_fork. by destruct (fork _ _) as [[]| |].
Qed.

Lemma sample_refork_eq : push sample_fork (chain_sample_block 10 21 11 []) = Ok sample_refork.
Proof. unfold sample_refork. apply chain_or_ok. vm_compute. reflexivity. Qed.

Lemma fork_keeps_removed_subtrees_witness :
  sapling_subtree (inner sample_refork) (ByHash [21]) = Some (mkSubtree 0 [[1]; [2]] 11).
Proof.
  destruct (pushes_reachable (L := sample_laws) (mkSpec sample_base true 10 []) sample_blocks (chain_or sample_new)
    (chain_or (sample_chain sample_blocks))) as (es & Hes & Hr).
  - apply (reach_new (Env := sample_env) Mainnet 9 [] [] [] [] sample_pools); [done|apply sample_pools_ok|apply sample_new_eq].
  - apply sample_can_follow.
  - apply sample_pushes_eq.
  - destruct es as [|[b s] [|[b' s'] es]]; [discriminate..|]. injection Hes as -> -> _.
    destruct (fork_keeps_removed_subtrees (L := sample_laws) _ _ [] _ _ es _ Hr sample_fork_eq) as (_ & _ & H).
    destruct (H (chain_sample_block 10 21 11 []) sample_refork) as [Hs _].
    + split; [reflexivity|reflexivity|repeat constructor].
    + exact sample_refork_eq.
    + etransitivity; [exact (Hs eq_refl)|]. vm_compute. reflexivity.
Defined.
