(* ===== verification/Anchors.v ===== *)
(** * Anchors of shielded transactions

    [zebra-state/src/service/check/anchors.rs]: the anchors of Sapling and
    Orchard transactions must be roots of final treestates of the chain, and
    those of Sprout JoinSplits roots of final treestates or of interstitial
    treestates of earlier JoinSplits of the transaction.

    The lookups in the finalized state are arguments. The parallel iteration over
    the transactions of a block is in order here: this only affects which of
    several errors is returned. *)

From S2P Require Import Prelude BTreeMap Height Amount Network Transaction Reversible Transfers TreeIndex Ledger.
From S2P Require Import SpendChecks Chain.

Section Anchors.
Context `{!ChainEnv}.
(** [ZebraDb::contains_sapling_anchor], [contains_orchard_anchor] and [sprout_tree_by_anchor]. *)
Context (contains_sapling_anchor contains_orchard_anchor : Hash → bool)
  (sprout_tree_by_anchor : Hash → option SproutTree).

(** ** Sapling and Orchard *)

Definition known_sapling_anchor (parent_chain : option Chain) (anchor : Hash) : bool :=
  match parent_chain with
  | Some chain => bool_decide (anchor ∈ anchors (sapling_trees (inner chain)))
  | None => false
  end || contains_sapling_anchor anchor.
Definition known_orchard_anchor (parent_chain : option Chain) (anchor : Hash) : bool :=
  match parent_chain with
  | Some chain => bool_decide (anchor ∈ anchors (orchard_trees (inner chain)))
  | None => false
  end || contains_orchard_anchor anchor.

Definition sapling_orchard_anchors_refer_to_final_treestates (parent_chain : option Chain)
    (transaction : Transaction) (transaction_hash : Hash) (tx_index_in_block : option Z)
    (height : option Height) : Res ValidateContextError unit :=
  anchors ← sapling_anchors transaction;
  _ ← foldM (λ _ anchor,
        if negb (known_sapling_anchor parent_chain anchor)
        then Err (UnknownSaplingAnchor anchor height tx_index_in_block transaction_hash) else Ok tt)
      tt anchors;
  match orchard_shielded_data transaction with
  | Some data =>
      if negb (known_orchard_anchor parent_chain (orchard_shared_anchor data))
      then Err (UnknownOrchardAnchor (orchard_shared_anchor data) height tx_index_in_block transaction_hash)
      else Ok tt
  | None => Ok tt
  end.

Definition block_sapling_orchard_anchors_refer_to_final_treestates (parent_chain : Chain)
    (b : SemanticallyVerifiedBlock) : Res ValidateContextError unit :=
  foldM (λ _ it,
      transaction_hash ← expect (sv_transaction_hashes b !! it.1);
      sapling_orchard_anchors_refer_to_final_treestates (Some parent_chain) it.2 transaction_hash
        (Some (Z.of_nat it.1)) (Some (sv_height b)))
    tt (imap pair (transactions (sv_block b))).

(** ** Sprout *)

(** The tree of the chain with this anchor, or else of the finalized state. *)
Definition final_sprout_tree (parent_chain : option Chain) (anchor : Hash) : option SproutTree :=
  match chain ← parent_chain; trees_by_anchor (sprout_trees (inner chain)) !! anchor with
  | Some tree => Some tree
  | None => sprout_tree_by_anchor anchor
  end.

Definition fetch_sprout_final_treestates (sprout_final_treestates : gmap Hash SproutTree)
    (parent_chain : option Chain) (transaction : Transaction) : gmap Hash SproutTree :=
  fold_left (λ treestates joinsplit,
      let anchor := joinsplit_anchor joinsplit in
      match treestates !! anchor with
      | Some _ => treestates
      | None =>
          match final_sprout_tree parent_chain anchor with
          | Some input_tree => <[anchor := input_tree]> treestates
          | None => treestates
          end
      end)
    (sprout_groth16_joinsplits transaction) sprout_final_treestates.

Definition block_fetch_sprout_final_treestates (parent_chain : Chain) (b : SemanticallyVerifiedBlock) :
    gmap Hash SproutTree :=
  fold_left (λ treestates transaction, fetch_sprout_final_treestates treestates (Some parent_chain) transaction)
    (transactions (sv_block b)) ∅.

Section Loop.
Context (sprout_final_treestates : gmap Hash SproutTree) (transaction_hash : Hash)
  (tx_index_in_block : option Z) (height : option Height) (joinsplit_count : Z).

Fixpoint sprout_anchors_loop (interstitial_trees : gmap Hash SproutTree) (joinsplit_index_in_tx : Z)
    (joinsplits : list JoinSplit) : Res ValidateContextError unit :=
  match joinsplits with
  | [] => Ok tt
  | joinsplit :: joinsplits =>
      let anchor := joinsplit_anchor joinsplit in
      let input_tree :=
        match interstitial_trees !! anchor with
        | Some tree => Some tree
        | None => sprout_final_treestates !! anchor
        end in
      match input_tree with
      | None => Err (UnknownSproutAnchor anchor height tx_index_in_block transaction_hash)
      | Some input_tree =>
          if joinsplit_index_in_tx =? joinsplit_count - 1
          then sprout_anchors_loop interstitial_trees (joinsplit_index_in_tx + 1) joinsplits
          else
          input_tree ← map_err TreeError
            (update_sprout_note_commitment_tree input_tree (joinsplit_commitments joinsplit));
          sprout_anchors_loop (<[tree_root input_tree := input_tree]> interstitial_trees)
            (joinsplit_index_in_tx + 1) joinsplits
      end
  end.
End Loop.

Definition sprout_anchors_refer_to_treestates (sprout_final_treestates : gmap Hash SproutTree)
    (transaction : Transaction) (transaction_hash : Hash) (tx_index_in_block : option Z)
    (height : option Height) : Res ValidateContextError unit :=
  sprout_anchors_loop sprout_final_treestates transaction_hash tx_index_in_block height
    (Z.of_nat (length (sprout_groth16_joinsplits transaction))) ∅ 0 (sprout_groth16_joinsplits transaction).

Definition block_sprout_anchors_refer_to_treestates (sprout_final_treestates : gmap Hash SproutTree)
    (block : Block) (transaction_hashes : list Hash) (height : Height) : Res ValidateContextError unit :=
  foldM (λ _ it,
      transaction_hash ← expect (transaction_hashes !! it.1);
      sprout_anchors_refer_to_treestates sprout_final_treestates it.2 transaction_hash
        (Some (Z.of_nat it.1)) (Some height))
    tt (imap pair (transactions block)).

(** ** Transactions of the mempool *)

Definition tx_anchors_refer_to_final_treestates (parent_chain : option Chain) (transaction : Transaction)
    (mined_id : Hash) : Res ValidateContextError unit :=
  _ ← sapling_orchard_anchors_refer_to_final_treestates parent_chain transaction mined_id None None;
  if has_sprout_joinsplit_data transaction then
    let sprout_final_treestates := fetch_sprout_final_treestates ∅ parent_chain transaction in
    sprout_anchors_refer_to_treestates sprout_final_treestates transaction mined_id None None
  else Ok tt.

(** ** The rules *)

(** Every JoinSplit refers to a final treestate or to the output treestate of an earlier
    JoinSplit, and the output treestates but the last one can be built. [outputs] are the
    output treestates of the JoinSplits before. *)
Fixpoint joinsplits_ok (final : SproutTree → Prop) (outputs : list SproutTree)
    (joinsplits : list JoinSplit) : Prop :=
  match joinsplits with
  | [] => True
  | joinsplit :: joinsplits =>
      ∃ input, tree_root input = joinsplit_anchor joinsplit ∧ (input ∈ outputs ∨ final input) ∧
        (joinsplits = [] ∨ ∃ output,
           update_sprout_note_commitment_tree input (joinsplit_commitments joinsplit) = Ok output ∧
           joinsplits_ok final (output :: outputs) joinsplits)
  end.

(** The anchors of the Sapling spends of a transaction: one per spend in V4, and a shared one in V5. *)
Definition spend_anchors (tx : Transaction) : list Hash :=
  match tx with
  | V4 _ _ _ _ _ (Some data) => per_spend_anchor <$> spends data
  | V5 _ _ _ _ _ (Some data) _ => match transfers data with
                                  | SpendsAndMaybeOutputs anchor spends _ => (λ _, anchor) <$> spends
                                  | JustOutputs _ => []
                                  end
  | _ => []
  end.

Definition sapling_orchard_ok (parent_chain : option Chain) (tx : Transaction) : Prop :=
  Forall (λ a, known_sapling_anchor parent_chain a = true) (spend_anchors tx) ∧
  match orchard_shielded_data tx with
  | Some data => known_orchard_anchor parent_chain (orchard_shared_anchor data) = true
  | None => True
  end.

(** *** Sapling and Orchard *)

Lemma elem_of_unique {A} `{EqDecision A} (l : list A) x : x ∈ unique l ↔ x ∈ l.
Proof.
  induction l as [|a l IH]; [done|]. cbn. rewrite !elem_of_cons, list_elem_of_filter, IH.
  destruct (decide (x = a)); naive_solver.
Qed.

Lemma collect_fmap_Ok {E A B} (f : A → B) (l : list A) : collect ((λ a, Ok (E := E) (f a)) <$> l) = Ok (f <$> l).
Proof. induction l as [|a l IH]; [done|]. rewrite fmap_cons. cbn [collect]. by rewrite Ok_bind, IH, Ok_bind. Qed.

Lemma sapling_anchors_spec {E} tx : ∃ l, sapling_anchors (E := E) tx = Ok l ∧ ∀ a, a ∈ l ↔ a ∈ spend_anchors tx.
Proof.
  destruct tx as [| | |? ? ? ? ? [data|]|? ? ? ? ? [data|] ?]; cbn; try by exists [].
  - unfold sapling_data_anchors, spends_per_anchor, shared_anchor, spends.
    destruct (transfers data) as [a sp outs|outs]; [|by exists []]. cbn.
    rewrite collect_fmap_Ok, Ok_bind. eexists. split; [reflexivity|]. intros x. rewrite elem_of_unique.
    by rewrite list_fmap_id.
  - unfold sapling_data_anchors, spends_per_anchor, shared_anchor, spends.
    destruct (transfers data) as [a sp outs|outs]; [|by exists []]. cbn.
    rewrite (collect_fmap_Ok (λ spend : Spend FieldNotPresent, mkSpend (spend_cv spend) a (spend_nullifier spend)
      (spend_rk spend) (spend_zkproof spend) (spend_auth_sig spend))), Ok_bind. eexists. split; [reflexivity|].
    intros x. rewrite elem_of_unique, <- list_fmap_compose. done.
Qed.

Lemma sapling_orchard_exact parent_chain tx hash index height :
  no_panic (sapling_orchard_anchors_refer_to_final_treestates parent_chain tx hash index height) ∧
  (sapling_orchard_anchors_refer_to_final_treestates parent_chain tx hash index height = Ok tt ↔
   sapling_orchard_ok parent_chain tx).
Proof.
  unfold sapling_orchard_anchors_refer_to_final_treestates, sapling_orchard_ok.
  destruct (sapling_anchors_spec (E := ValidateContextError) tx) as (l & -> & Hl). rewrite Ok_bind.
  split.
  - apply no_panic_bind.
    + apply foldM_unit_no_panic, Forall_true. intros a. by destruct (known_sapling_anchor parent_chain a).
    + intros _ _. destruct (orchard_shielded_data tx) as [data|]; [|done]. by destruct (negb _).
  - rewrite bind_Ok. transitivity (Forall (λ a, known_sapling_anchor parent_chain a = true) l ∧
      match orchard_shielded_data tx with
      | Some data => known_orchard_anchor parent_chain (orchard_shared_anchor data) = true | None => True end).
    + setoid_rewrite foldM_unit. split.
      * intros (_ & Ha & Ho). split.
        -- eapply Forall_impl; [exact Ha|]. intros a. cbv beta. by destruct (known_sapling_anchor parent_chain a).
        -- destruct (orchard_shielded_data tx) as [data|]; [|done]. by destruct (known_orchard_anchor _ _).
      * intros (Ha & Ho). exists tt. split.
        -- eapply Forall_impl; [exact Ha|]. by intros a ->.
        -- destruct (orchard_shielded_data tx) as [data|]; [|done]. by rewrite Ho.
    + by rewrite !Forall_forall; setoid_rewrite Hl.
Qed.

(** *** Sprout *)

Context `{L : !ChainEnvLaws}.

(** The interstitial trees are the output treestates, by their roots. *)
Definition interstitial_of (m : gmap Hash SproutTree) (outputs : list SproutTree) : Prop :=
  ∀ r t, m !! r = Some t ↔ t ∈ outputs ∧ tree_root t = r.

Lemma interstitial_insert m outputs t : interstitial_of m outputs →
  interstitial_of (<[tree_root t := t]> m) (t :: outputs).
Proof.
  intros Hm r u. rewrite lookup_insert_Some, (Hm r u), elem_of_cons. split.
  - intros [[<- <-]|[_ [? ?]]]; auto.
  - intros [[->|Hin] <-]; [by left|]. destruct (decide (tree_root t = tree_root u)) as [He|He]; [|by right].
    left. split; [done|]. by apply (inj tree_root).
Qed.

Lemma update_sprout_no_panic t cms : no_panic (update_sprout_note_commitment_tree t cms).
Proof.
  unfold update_sprout_note_commitment_tree. revert t. induction cms as [|cm cms IH]; intros t; [done|]. cbn [foldM].
  apply no_panic_bind; [by destruct (sprout_append t cm)|]. intros t' _. apply IH.
Qed.

Lemma sprout_loop_exact finals final hash index height joinsplits : ∀ m outputs i count,
  (∀ js t, js ∈ joinsplits → finals !! joinsplit_anchor js = Some t ↔ tree_root t = joinsplit_anchor js ∧ final t) →
  interstitial_of m outputs → count = i + Z.of_nat (length joinsplits) →
  no_panic (sprout_anchors_loop finals hash index height count m i joinsplits) ∧
  (sprout_anchors_loop finals hash index height count m i joinsplits = Ok tt ↔
   joinsplits_ok final outputs joinsplits).
Proof.
  induction joinsplits as [|js joinsplits IH]; intros m outputs i count Hf Hm Hc; [done|].
  cbn [sprout_anchors_loop joinsplits_ok].
  set (input := match m !! _ with Some tree => Some tree | None => _ end).
  assert (Hinput : ∀ t, input = Some t ↔ tree_root t = joinsplit_anchor js ∧ (t ∈ outputs ∨ final t)).
  { intros t. specialize (Hf js t ltac:(left)). specialize (Hm (joinsplit_anchor js)). unfold input.
    destruct (m !! joinsplit_anchor js) as [u|] eqn:Hu.
    - destruct (proj1 (Hm u) eq_refl) as [Hin Hroot]. split; [intros [= ->]; auto|].
      intros [Hr _]. f_equal. apply (inj tree_root). congruence.
    - rewrite Hf. split; [tauto|]. intros [Hr [Hin|Hfin]]; [|done]. by specialize (proj2 (Hm t) (conj Hin Hr)). }
  destruct input as [t|] eqn:Hi.
  2: { split; [done|]. split; [done|]. intros (t & Hr & Hfin & _). by specialize (proj2 (Hinput t) (conj Hr Hfin)). }
  destruct (proj1 (Hinput t) eq_refl) as [Hroot Hfin].
  assert (Hone : ∀ u, tree_root u = joinsplit_anchor js → u = t) by (intros u Hu; apply (inj tree_root); congruence).
  destruct joinsplits as [|js' joinsplits].
  { cbn in Hc. rewrite (proj2 (Z.eqb_eq _ _)) by lia. cbn. split; [done|]. split; [|done]. intros _. exists t. auto. }
  rewrite (proj2 (Z.eqb_neq _ _)) by (cbn in Hc; lia).
  destruct (update_sprout_note_commitment_tree t (joinsplit_commitments js)) as [out| |] eqn:Hupd; cbn [map_err].
  - rewrite Ok_bind. destruct (IH (<[tree_root out := out]> m) (out :: outputs) (i + 1) count) as [Hnp Hiff].
    { intros js0 u Hin. apply Hf. by right. } { by apply interstitial_insert. } { cbn in *. lia. }
    split; [done|]. rewrite Hiff. split.
    + intros Hok. exists t. split; [done|]. split; [done|]. right. eauto.
    + intros (u & Hu & _ & [|(out' & Hout & Hok)]); [done|]. rewrite (Hone u Hu) in Hout. by assert (out' = out) as <- by congruence.
  - split; [done|]. split; [done|]. intros (u & Hu & _ & [|(out' & Hout & _)]); [done|].
    rewrite (Hone u Hu) in Hout. congruence.
  - by apply update_sprout_no_panic in Hupd.
Qed.

(** [m] has the trees of the anchors [l]. *)
Definition fetched (parent_chain : option Chain) (m : gmap Hash SproutTree) (l : list Hash) : Prop :=
  ∀ r, m !! r = if decide (r ∈ l) then final_sprout_tree parent_chain r else None.

Lemma fetch_fetched parent_chain tx m l : fetched parent_chain m l →
  fetched parent_chain (fetch_sprout_final_treestates m parent_chain tx)
    (l ++ (joinsplit_anchor <$> sprout_groth16_joinsplits tx)).
Proof.
  unfold fetch_sprout_final_treestates. generalize (sprout_groth16_joinsplits tx). intros joinsplits. revert m l.
  induction joinsplits as [|js joinsplits IH]; intros m l Hm; cbn [fold_left fmap list_fmap]; [by rewrite app_nil_r|].
  rewrite cons_middle, (assoc_L (++)). apply IH. clear IH. intros r. specialize (Hm r) as Hr.
  specialize (Hm (joinsplit_anchor js)).
  destruct (decide (r = joinsplit_anchor js)) as [->|Hne].
  - rewrite decide_True by set_solver. destruct (m !! joinsplit_anchor js) as [t|] eqn:Ht.
    + rewrite Ht. by destruct (decide (joinsplit_anchor js ∈ l)).
    + destruct (final_sprout_tree parent_chain (joinsplit_anchor js)); [by rewrite lookup_insert_eq|done].
  - rewrite (decide_ext (r ∈ l ++ [joinsplit_anchor js]) (r ∈ l)) by set_solver.
    destruct (m !! joinsplit_anchor js); [done|].
    destruct (final_sprout_tree parent_chain (joinsplit_anchor js)); [by rewrite lookup_insert_ne|done].
Qed.

Lemma block_fetch_lookup parent_chain b tx js : tx ∈ transactions (sv_block b) → js ∈ sprout_groth16_joinsplits tx →
  block_fetch_sprout_final_treestates parent_chain b !! joinsplit_anchor js =
  final_sprout_tree (Some parent_chain) (joinsplit_anchor js).
Proof.
  intros Htx Hjs. unfold block_fetch_sprout_final_treestates.
  assert (Hgen : ∀ txs m l, fetched (Some parent_chain) m l → fetched (Some parent_chain)
    (fold_left (λ treestates transaction, fetch_sprout_final_treestates treestates (Some parent_chain) transaction) txs m)
    (l ++ (txs ≫= λ tx, joinsplit_anchor <$> sprout_groth16_joinsplits tx))).
  { induction txs as [|t txs IH]; intros m l Hm; cbn [fold_left mbind list_bind]; [by rewrite app_nil_r|].
    rewrite (assoc_L (++)). apply IH. by apply fetch_fetched. }
  specialize (Hgen (transactions (sv_block b)) ∅ []).
  rewrite (Hgen ltac:(by intros r; rewrite lookup_empty) (joinsplit_anchor js)), decide_True; [done|].
  apply list_elem_of_bind. exists tx. split; [|done]. apply list_elem_of_fmap. eauto.
Qed.

Lemma and_assoc_4 (P Q R S : Prop) : P ∧ Q ∧ R ∧ S ↔ (P ∧ R) ∧ (Q ∧ S).
Proof. tauto. Qed.

(** A check of every transaction of a block, with its hash. *)
Lemma tx_loop (check : nat → Transaction → Hash → Res ValidateContextError unit) (P : Transaction → Prop) txs hashes :
  length hashes = length txs →
  (∀ i tx hash, tx ∈ txs → no_panic (check i tx hash) ∧ (check i tx hash = Ok tt ↔ P tx)) →
  let r := foldM (λ _ it, hash ← expect (hashes !! it.1); check it.1 it.2 hash) tt (imap pair txs) in
  no_panic r ∧ (r = Ok tt ↔ Forall P txs).
Proof.
  intros Hlen Hcheck. cbv zeta.
  assert (Hone : ∀ it, it ∈ imap pair txs → ∃ hash, hashes !! it.1 = Some hash ∧ it.2 ∈ txs).
  { intros it (i & Hi)%list_elem_of_lookup. rewrite list_lookup_imap in Hi.
    destruct (txs !! i) as [tx|] eqn:Htx; [|done]. injection Hi as <-. cbn.
    destruct (lookup_lt_is_Some_2 hashes i) as [hash ->]; [rewrite Hlen; by eapply lookup_lt_Some|].
    exists hash. split; [done|]. by eapply list_elem_of_lookup_2. }
  split.
  - apply (foldM_unit_no_panic (λ it, hash ← expect (hashes !! it.1); check it.1 it.2 hash)), Forall_forall.
    intros it Hit. destruct (Hone it Hit) as (hash & -> & Hin). cbn [expect]. rewrite Ok_bind. by apply Hcheck.
  - rewrite (foldM_unit (λ it, hash ← expect (hashes !! it.1); check it.1 it.2 hash)).
    rewrite <- (Forall_imap_pair P), !Forall_forall. split; intros Hall it Hit; specialize (Hall it Hit);
      destruct (Hone it Hit) as (hash & Hh & Hin); cbv beta in *; rewrite Hh in *; cbn [expect] in *;
      rewrite Ok_bind in *; by apply (Hcheck it.1 it.2 hash Hin).
Qed.

Context `{SP : !ScriptParser}.

(** The final treestates of a chain: those of its indexed blocks and those below it. *)
Definition final_sprout (a : ChainSpec) (t : SproutTree) : Prop :=
  (∃ s, s ∈ indexed a ∧ t = st_sprout s) ∨ sprout_tree_by_anchor (tree_root t) = Some t.
Definition final_sapling (a : ChainSpec) (r : Hash) : Prop :=
  (∃ s, s ∈ indexed a ∧ r = tree_root (st_sapling s)) ∨ contains_sapling_anchor r = true.
Definition final_orchard (a : ChainSpec) (r : Hash) : Prop :=
  (∃ s, s ∈ indexed a ∧ r = tree_root (st_orchard s)) ∨ contains_orchard_anchor r = true.

Lemma final_sprout_lookup c a r t : represents c a →
  (∀ r t, sprout_tree_by_anchor r = Some t → tree_root t = r) →
  final_sprout_tree (Some c) r = Some t ↔ tree_root t = r ∧ final_sprout a t.
Proof.
  intros (uss & ws & _ & Hf) Hfin. unfold final_sprout_tree, final_sprout. cbn [mbind option_bind].
  rewrite (fo_sprout _ _ _ _ Hf). unfold sprout_of. cbn [trees_by_anchor].
  assert (Hl : ∀ u, anchor_map (st_sprout <$> indexed a) !! r = Some u ↔
    (∃ s, s ∈ indexed a ∧ u = st_sprout s) ∧ tree_root u = r).
  { intros u. rewrite anchor_map_lookup, list_elem_of_fmap. naive_solver. }
  destruct (anchor_map (st_sprout <$> indexed a) !! r) as [u|] eqn:Hu.
  - destruct (proj1 (Hl u) eq_refl) as [Hin Hroot]. split; [intros [= ->]; auto|].
    intros [Hr _]. f_equal. apply (inj tree_root). congruence.
  - split; [intros Ht; rewrite (Hfin _ _ Ht); auto|]. intros [<- [Hin|Ht]]; [|done].
    by specialize (proj2 (Hl t) (conj Hin eq_refl)).
Qed.

Lemma known_sapling_lookup c a r : represents c a → known_sapling_anchor (Some c) r = true ↔ final_sapling a r.
Proof.
  intros (uss & ws & _ & Hf). unfold known_sapling_anchor, final_sapling. rewrite (fo_sapling _ _ _ _ Hf).
  cbn [anchors pool_of]. rewrite orb_true_iff, bool_decide_eq_true, elem_of_list_to_set_disj.
  rewrite <- list_fmap_compose, list_elem_of_fmap. unfold compose. naive_solver.
Qed.

Lemma known_orchard_lookup c a r : represents c a → known_orchard_anchor (Some c) r = true ↔ final_orchard a r.
Proof.
  intros (uss & ws & _ & Hf). unfold known_orchard_anchor, final_orchard. rewrite (fo_orchard _ _ _ _ Hf).
  cbn [anchors pool_of]. rewrite orb_true_iff, bool_decide_eq_true, elem_of_list_to_set_disj.
  rewrite <- list_fmap_compose, list_elem_of_fmap. unfold compose. naive_solver.
Qed.

(** C27: the anchor checks of a block accept exactly what the protocol allows. On a chain
    that represents the blocks [a], whose finalized state looks trees up by their
    roots, the anchor of every Sapling spend and of every Orchard bundle must be the root
    of a final treestate of a block of the chain or below it, and the anchor of every JoinSplit
    the root of such a treestate or of the output treestate of an earlier
    JoinSplit of the transaction. The checks never panic. *)
Theorem block_anchors_exact (c : Chain) (a : ChainSpec) (b : SemanticallyVerifiedBlock) (Hr : represents c a)
    (Hfin : ∀ r t, sprout_tree_by_anchor r = Some t → tree_root t = r)
    (Hlen : length (sv_transaction_hashes b) = length (transactions (sv_block b))) :
  let sapling_orchard := block_sapling_orchard_anchors_refer_to_final_treestates c b in
  let sprout := block_sprout_anchors_refer_to_treestates (block_fetch_sprout_final_treestates c b)
                  (sv_block b) (sv_transaction_hashes b) (sv_height b) in
  no_panic sapling_orchard ∧ no_panic sprout ∧
  (sapling_orchard = Ok tt ↔
   Forall (λ tx, Forall (final_sapling a) (spend_anchors tx) ∧
     match orchard_shielded_data tx with
     | Some data => final_orchard a (orchard_shared_anchor data) | None => True end) (transactions (sv_block b))) ∧
  (sprout = Ok tt ↔
   Forall (λ tx, joinsplits_ok (final_sprout a) [] (sprout_groth16_joinsplits tx)) (transactions (sv_block b))).
Proof.
  cbv zeta. rewrite (and_assoc_4 (no_panic _)). split.
  - apply (tx_loop (λ i tx hash, sapling_orchard_anchors_refer_to_final_treestates (Some c) tx hash
      (Some (Z.of_nat i)) (Some (sv_height b)))); [done|].
    intros i tx hash _. destruct (sapling_orchard_exact (Some c) tx hash (Some (Z.of_nat i)) (Some (sv_height b)))
      as [Hnp Hiff]. split; [done|]. rewrite Hiff. unfold sapling_orchard_ok. f_equiv.
    + apply Forall_iff. intros r. by apply known_sapling_lookup.
    + destruct (orchard_shielded_data tx); [by apply known_orchard_lookup|done].
  - apply (tx_loop (λ i tx hash, sprout_anchors_refer_to_treestates (block_fetch_sprout_final_treestates c b) tx hash
      (Some (Z.of_nat i)) (Some (sv_height b)))); [done|].
    intros i tx hash Hin. apply sprout_loop_exact; [|intros r t; rewrite lookup_empty; set_solver|lia].
    intros js t Hjs. rewrite (block_fetch_lookup c b tx js Hin Hjs). by apply final_sprout_lookup.
Qed.

End Anchors.

(** *** An instance: a JoinSplit on the tree below the chain, and one on its output *)

Definition anchors_sample_joinsplit (notes : list Hash) (cm : Hash) : JoinSplit :=
  mkJoinSplit (mkAmount 0) (mkAmount 0) (tree_root notes) [] [cm] [] [] [] [] [].
Definition anchors_sample_tx : Transaction :=
  V4 [] [] unlocked 0 (Some (mkJoinSplitData (anchors_sample_joinsplit [] [1]) [anchors_sample_joinsplit [[1]] [2]] [] [])) None.
Definition anchors_sample_block : SemanticallyVerifiedBlock :=
  mkSemantic (mkBlock (mkHeader 4 [] [] [] 0 0 [] (Common [])) [anchors_sample_tx]) [] 10 ∅ [[3]] None.

Lemma block_anchors_exact_witness : ∃ c : @Chain sample_env,
  no_panic (block_sapling_orchard_anchors_refer_to_final_treestates (λ _, false) (λ _, false) c anchors_sample_block).
Proof.
  destruct (chain_new_represents (Env := sample_env) (SP := sample_parser) (L := sample_laws) Mainnet 9 [] [] [] [] sample_pools)
    as (c & _ & Hr); [done|exact sample_pools_ok|]. exists c.
  refine (proj1 (block_anchors_exact (λ _, false) (λ _, false) (λ _, None) (L := sample_laws) c _ anchors_sample_block Hr _ _)).
  - discriminate.
  - reflexivity.
Defined.
