(* ===== verification/NonFinalized.v ===== *)
(** * The non-finalized state

    [zebra-state/src/service/non_finalized_state.rs]: the set of chains above the
    finalized tip, its operations [commit_block], [commit_new_chain], [finalize],
    [invalidate_block] and [reconsider_block], and its queries.

    The [BTreeSet] of chains is the list of its elements in ascending order. Its
    searches compare chains with [Chain::cmp], which panics on equal chains, so
    inserting a chain that is in the set, and removing any chain of the set, panics.
    The [IndexMap] of invalidated blocks is an association list in insertion
    order. What the code reads from the database is a record of functions. The
    parallel tasks of [validate_and_update_parallel] all run to their end. Metrics
    are left out. *)

From S2P Require Import Prelude BTreeMap Height Difficulty Amount ValueBalance Network Transaction Merkle BlockHeader.
From S2P Require Import Reversible Transfers TreeIndex Ledger SpendChecks DifficultyAdjustment ContextChecks.
From S2P Require Import Chain Anchors.

Definition MAX_NON_FINALIZED_CHAIN_FORKS : nat := 10.
Definition MAX_INVALIDATED_BLOCKS : nat := 100.

Inductive InvalidateError :=
| ProcessingCheckpointedBlocks
| SendInvalidateRequestFailed
| InvalidateRequestDropped
| BlockNotFound (hash : Hash).
Inductive ReconsiderError :=
| MissingInvalidatedBlock (hash : Hash)
| ParentChainNotFound (hash : Hash)
| InvalidatedBlocksEmpty
| CheckpointCommitInProgress
| ReconsiderSendFailed
| ReconsiderResponseDropped.

(** ** Sets of chains *)

Section ChainSet.
Context `{Env : !ChainEnv, SP : !ScriptParser, HF : !HashFns}.
(** Library code: the parser of Sapling roots and the digest of V5 transactions. *)
Context (sapling_root_try_from : list Z → option Hash) (v5_auth_digest : Transaction → Hash).

(** [BTreeSet::insert] and [BTreeSet::remove]. *)
Fixpoint set_insert {E} (chain : Chain) (set : list Chain) : Res E (list Chain) :=
  match set with
  | [] => Ok [chain]
  | c :: set' =>
      ordering ← lift (chain_cmp chain c);
      match ordering with
      | Lt => Ok (chain :: set)
      | Eq => Ok set
      | Gt => set' ← set_insert chain set'; Ok (c :: set')
      end
  end.

Fixpoint set_remove {E} (chain : Chain) (set : list Chain) : Res E (list Chain) :=
  match set with
  | [] => Ok []
  | c :: set' =>
      ordering ← lift (chain_cmp chain c);
      match ordering with
      | Lt => Ok set
      | Eq => Ok set'
      | Gt => set' ← set_remove chain set'; Ok (c :: set')
      end
  end.

(** [BTreeSet::retain] and [Iterator::find], with a closure that may panic. *)
Fixpoint set_retain {E} (keep : Chain → Run bool) (set : list Chain) : Res E (list Chain) :=
  match set with
  | [] => Ok []
  | c :: set =>
      k ← lift (keep c);
      set ← set_retain keep set;
      Ok (if k : bool then c :: set else set)
  end.

Fixpoint find_first {A} (f : Chain → Run (option A)) (chains : list Chain) : Run (option A) :=
  match chains with
  | [] => Ok None
  | c :: chains =>
      o ← f c;
      match o with Some a => Ok (Some a) | None => find_first f chains end
  end.

(** ** The state *)

Record NonFinalizedState := mkNonFinalized {
  chain_set : list Chain;
  invalidated_blocks : list (Height * list ContextuallyVerifiedBlock);
  nfs_network : Network;
}.

Definition nfs_new (network : Network) : NonFinalizedState := mkNonFinalized [] [] network.

(** What the operations read from [ZebraDb]. *)
Record ZebraDb := mkZebraDb {
  db_network : Network;
  finalized_tip_height : option Height;
  finalized_tip_hash : Hash;
  sprout_tree_for_tip : SproutTree;
  sapling_tree_for_tip : SaplingTree;
  orchard_tree_for_tip : OrchardTree;
  db_history_tree : HistoryTree;
  finalized_value_pool : ValueBalance NonNegative;
  db_utxo : OutPoint → option OrderedUtxo;
  db_contains_sapling_anchor : Hash → bool;
  db_contains_orchard_anchor : Hash → bool;
  db_sprout_tree_by_anchor : Hash → option SproutTree;
}.

Definition chain_iter (self : NonFinalizedState) : list Chain := reverse (chain_set self).
Definition best_chain (self : NonFinalizedState) : option Chain := head (chain_iter self).
Definition chain_count (self : NonFinalizedState) : nat := length (chain_set self).
Definition is_chain_set_empty (self : NonFinalizedState) : bool := (chain_count self =? 0)%nat.

(** [find_chain]: the chain with the highest difficulty first. *)
Definition find_chain (self : NonFinalizedState) (predicate : Chain → Run bool) : Run (option Chain) :=
  find_first (λ c, found ← predicate c; Ok (if found : bool then Some c else None)) (chain_iter self).

Definition set_chains (self : NonFinalizedState) (chains : list Chain) : NonFinalizedState :=
  mkNonFinalized chains (invalidated_blocks self) (nfs_network self).
Definition set_invalidated (self : NonFinalizedState) (m : list (Height * list ContextuallyVerifiedBlock)) :
    NonFinalizedState :=
  mkNonFinalized (chain_set self) m (nfs_network self).

(** [insert_with]: the loop drops the chains with the lowest work. *)
Definition limit_chains (set : list Chain) : list Chain :=
  drop (length set - MAX_NON_FINALIZED_CHAIN_FORKS) set.
Definition insert_with {E} (self : NonFinalizedState) (chain : Chain)
    (chain_filter : list Chain → Res E (list Chain)) : Res E NonFinalizedState :=
  set ← set_insert chain (chain_set self);
  set ← chain_filter set;
  Ok (set_chains self (limit_chains set)).
Definition nfs_insert {E} (self : NonFinalizedState) (chain : Chain) : Res E NonFinalizedState :=
  insert_with self chain (λ set, Ok set).

(** The filter of the chains whose tip is not [hash]. *)
Definition tip_is_not {E} (hash : Hash) : list Chain → Res E (list Chain) :=
  set_retain (λ chain, tip ← non_finalized_tip_hash (inner chain); Ok (negb (bool_decide (tip = hash)))).

Definition parent_chain (self : NonFinalizedState) (parent_hash : Hash) : Res ValidateContextError Chain :=
  found ← lift (find_chain self
            (λ chain, tip ← non_finalized_tip_hash (inner chain); Ok (bool_decide (tip = parent_hash))));
  match found with
  | Some chain => Ok chain
  | None =>
      fork_chain ← lift (find_first (λ chain, fork chain parent_hash) (chain_iter self));
      ok_or fork_chain NotReadyToBeCommitted
  end.

(** ** Finalizing *)

(** The loop over the side chains, the best one first. *)
Fixpoint finalize_side_chains (self : NonFinalizedState) (root_hash : Hash)
    (side_chains : list Chain) : Run NonFinalizedState :=
  match side_chains with
  | [] => Ok self
  | side_chain :: side_chains =>
      side_root ← non_finalized_root_hash (inner side_chain);
      if negb (bool_decide (side_root = root_hash))
      then finalize_side_chains self root_hash side_chains
      else
        '(side_chain_root, _treestate, side_chain) ← pop_root side_chain;
        _ ← assert (bool_decide (cv_hash side_chain_root = root_hash));
        self ← nfs_insert self side_chain;
        finalize_side_chains self root_hash side_chains
  end.

(** [finalize] returns the block to write, with its trees. *)
Definition finalize (self : NonFinalizedState) :
    Run (ContextuallyVerifiedBlock * Treestate * NonFinalizedState) :=
  let chains := chain_iter self in
  best_chain ← expect (head chains);
  let side_chains := tail chains in
  '(best_chain_root, root_treestate, best_chain) ← pop_root best_chain;
  let self := set_chains self [] in
  self ← if negb (chain_is_empty (inner best_chain)) then nfs_insert self best_chain else Ok self;
  self ← finalize_side_chains self (cv_hash best_chain_root) side_chains;
  let self := set_invalidated self
    (filter (λ e, cv_height best_chain_root ≤ e.1) (invalidated_blocks self)) in
  Ok (best_chain_root, root_treestate, self).

(** ** Committing *)

(** [HistoryTree] of the parent block, as [new_chain.history_block_commitment_tree()]. *)
Definition validate_and_update_parallel (new_chain : Chain) (contextual : ContextuallyVerifiedBlock)
    (sprout_final_treestates : gmap Hash SproutTree) : Res ValidateContextError Chain :=
  history_tree ← history_for_tip (history_trees_by_height (inner new_chain));
  let block_commitment_result :=
    block_commitment_is_valid_for_chain_history sapling_root_try_from v5_auth_digest
      (cv_block contextual) (chain_network new_chain) (history_hash history_tree) in
  let sprout_anchor_result :=
    block_sprout_anchors_refer_to_treestates sprout_final_treestates (cv_block contextual)
      (cv_transaction_hashes contextual) (cv_height contextual) in
  let chain_push_result := push new_chain contextual in
  match block_commitment_result, sprout_anchor_result, chain_push_result with
  | Panic, _, _ | _, Panic, _ | _, _, Panic => Panic
  | Err e, _, _ => Err e
  | Ok _, Err e, _ => Err e
  | Ok _, Ok _, r => r
  end.

Definition was_invalidated (self : NonFinalizedState) (hash : Hash) : bool :=
  existsb (λ e, existsb (λ block, bool_decide (cv_hash block = hash)) e.2) (invalidated_blocks self).

Definition validate_and_commit (self : NonFinalizedState) (new_chain : Chain) (prepared : SemanticallyVerifiedBlock)
    (db : ZebraDb) : Res ValidateContextError Chain :=
  if was_invalidated self (sv_hash prepared) then Err (BlockPreviouslyInvalidated (sv_hash prepared)) else
  spent_utxos ← transparent_spend (db_network db) (db_utxo db) prepared
                  (unspent_utxos (ledger (inner new_chain))) (spent_utxos (ledger (inner new_chain)));
  _ ← block_sapling_orchard_anchors_refer_to_final_treestates (db_contains_sapling_anchor db)
        (db_contains_orchard_anchor db) new_chain prepared;
  let sprout_final_treestates :=
    block_fetch_sprout_final_treestates (db_sprout_tree_by_anchor db) new_chain prepared in
  contextual ← map_err (λ value_balance_error,
      CalculateBlockChainValueChange value_balance_error (sv_height prepared) (sv_hash prepared)
        (Z.of_nat (length (transactions (sv_block prepared)))) (Z.of_nat (base.size spent_utxos)))
    (with_block_and_spent_utxos prepared spent_utxos);
  validate_and_update_parallel new_chain contextual sprout_final_treestates.

Definition commit_block (self : NonFinalizedState) (prepared : SemanticallyVerifiedBlock) (db : ZebraDb) :
    Res ValidateContextError NonFinalizedState :=
  let parent_hash := previous_block_hash (header (sv_block prepared)) in
  chain ← parent_chain self parent_hash;
  modified_chain ← validate_and_commit self chain prepared db;
  insert_with self modified_chain (tip_is_not parent_hash).

(** [Chain::new] with the state of the finalized tip. *)
Definition chain_from_db {E} (self : NonFinalizedState) (db : ZebraDb) (finalized_tip_height : Height) : Res E Chain :=
  lift (chain_new (nfs_network self) finalized_tip_height (sprout_tree_for_tip db) (sapling_tree_for_tip db)
          (orchard_tree_for_tip db) (db_history_tree db) (finalized_value_pool db)).

Definition commit_new_chain (self : NonFinalizedState) (prepared : SemanticallyVerifiedBlock) (db : ZebraDb) :
    Res ValidateContextError NonFinalizedState :=
  finalized_tip_height ← expect (finalized_tip_height db);
  chain ← chain_from_db self db finalized_tip_height;
  chain ← validate_and_commit self chain prepared db;
  nfs_insert self chain.

(** ** Invalidating and reconsidering *)

(** [IndexMap::insert]: a new key goes to the end. *)
Fixpoint index_insert {V} (k : Z) (v : V) (m : list (Z * V)) : list (Z * V) :=
  match m with
  | [] => [(k, v)]
  | (k', v') :: m => if k =? k' then (k, v) :: m else (k', v') :: index_insert k v m
  end.

Definition limit_invalidated {V} (m : list (Z * V)) : list (Z * V) := drop (length m - MAX_INVALIDATED_BLOCKS) m.

Definition invalidate_block (self : NonFinalizedState) (block_hash : Hash) :
    Res InvalidateError (Hash * NonFinalizedState) :=
  found ← lift (find_chain self (λ chain, Ok (contains_block_hash (inner chain) block_hash)));
  match found with
  | None => Err (BlockNotFound block_hash)
  | Some chain =>
      root ← lift (non_finalized_root_hash (inner chain));
      '(invalidated, self) ←
        if bool_decide (root = block_hash) then
          set ← set_remove chain (chain_set self);
          Ok ((blocks (inner chain)).*2, set_chains self set)
        else
          r ← lift (chain_invalidate_block chain block_hash);
          '(new_chain, invalidated) ← expect r;
          self ← insert_with self new_chain
                   (set_retain (λ c, Ok (negb (contains_block_hash (inner c) block_hash))));
          Ok (invalidated, self);
      first ← expect (head invalidated);
      let m := index_insert (cv_height first) invalidated (invalidated_blocks self) in
      Ok (block_hash, set_invalidated self (limit_invalidated m))
  end.

Definition first_hash_is (hash : Hash) (e : Height * list ContextuallyVerifiedBlock) : bool :=
  match head e.2 with Some block => bool_decide (cv_hash block = hash) | None => false end.

Definition reconsider_block (self : NonFinalizedState) (block_hash : Hash) (db : ZebraDb) :
    Res ReconsiderError (list Hash * NonFinalizedState) :=
  entry ← ok_or (List.find (first_hash_is block_hash) (invalidated_blocks self))
            (MissingInvalidatedBlock block_hash);
  (* [shift_remove] is called on a clone of the map: [self] keeps the entry. *)
  let invalidated := entry.2 in
  let invalidated_block_hashes := cv_hash <$> invalidated in
  invalidated_root ← ok_or (head invalidated) InvalidatedBlocksEmpty;
  let root_parent_hash := previous_block_hash (header (cv_block invalidated_root)) in
  chain ←
    if bool_decide (root_parent_hash = finalized_tip_hash db) then
      height ← ok_or (finalized_tip_height db) (ParentChainNotFound block_hash);
      chain_from_db self db height
    else map_err (λ _, ParentChainNotFound block_hash) (parent_chain self root_parent_hash);
  modified_chain ← expect_ok (foldM push chain invalidated);
  _ ← lift (non_finalized_tip_hash (inner modified_chain));
  let self := match finalized_tip_height db with
              | Some height => set_invalidated self (filter (λ e, height ≤ e.1) (invalidated_blocks self))
              | None => self
              end in
  self ← insert_with self modified_chain (tip_is_not root_parent_hash);
  Ok (invalidated_block_hashes, self).

(** ** Queries *)

Definition best_chain_len (self : NonFinalizedState) : option Z :=
  (λ c, wrap U32 (Z.of_nat (len (inner c)))) <$> best_chain self.
Definition root_height (self : NonFinalizedState) : Run (option Height) :=
  match best_chain self with Some c => Some <$> non_finalized_root_height (inner c) | None => Ok None end.
Definition any_chain_contains (self : NonFinalizedState) (hash : Hash) : bool :=
  existsb (λ c, contains_block_hash (inner c) hash) (chain_iter self).
Definition any_utxo (self : NonFinalizedState) (outpoint : OutPoint) : option Utxo :=
  head (omap (λ c, created_utxo (ledger (inner c)) outpoint) (chain_iter self)).
Definition any_block_by_hash (self : NonFinalizedState) (hash : Hash) : option Block :=
  head (omap (λ c, cv_block <$> chain_block (inner c) (ByHash hash)) (chain_iter self)).
Definition any_prev_block_hash_for_hash (self : NonFinalizedState) (hash : Hash) : option Hash :=
  (λ b, previous_block_hash (header b)) <$> any_block_by_hash self hash.
Definition any_height_by_hash (self : NonFinalizedState) (hash : Hash) : option Height :=
  head (omap (λ c, height_by_hash (inner c) !! hash) (chain_iter self)).
Definition best_hash (self : NonFinalizedState) (height : Height) : option Hash :=
  c ← best_chain self; hash_by_height (inner c) height.
Definition best_tip (self : NonFinalizedState) : Run (option (Height * Hash)) :=
  match best_chain self with
  | Some c =>
      height ← non_finalized_tip_height (inner c);
      hash ← non_finalized_tip_hash (inner c);
      Ok (Some (height, hash))
  | None => Ok None
  end.
Definition best_tip_block (self : NonFinalizedState) : option ContextuallyVerifiedBlock :=
  c ← best_chain self; tip_block (inner c).
Definition best_height_by_hash (self : NonFinalizedState) (hash : Hash) : option Height :=
  c ← best_chain self; height_by_hash (inner c) !! hash.

End ChainSet.

(** ** The invariant of the set of chains *)

Section Invariant.
Context `{Env : !ChainEnv, SP : !ScriptParser}.


(** The hashes of the blocks of a chain, from the root. *)
Definition chain_hashes (c : Chain) : list Hash := (λ e, cv_hash e.2) <$> blocks (inner c).




(** *** Chains and their hashes *)







(** *** Ordered sets *)












(** *** The parent chain of a block *)




Context `{L : !ChainEnvLaws}.









(** *** Finalizing the root of the best chain *)




(** The chains that go on from the finalized block. *)
Definition continues (hash : Hash) (c : Chain) : Prop :=
  head (chain_hashes c) = Some hash ∧ (1 < length (chain_hashes c))%nat.
#[local] Instance continues_dec hash c : Decision (continues hash c).
Proof. unfold continues. apply _. Defined.
















(** *** Invalidating a block *)













(** *** Committing a block *)

Context `{HF : !HashFns} (sapling_root_try_from : list Z → option Hash) (v5_auth_digest : Transaction → Hash).
Abbreviation validate_and_commit := (validate_and_commit sapling_root_try_from v5_auth_digest).
Abbreviation commit_block := (commit_block sapling_root_try_from v5_auth_digest).
Abbreviation commit_new_chain := (commit_new_chain sapling_root_try_from v5_auth_digest).












(** *** Reconsidering invalidated blocks *)






(** *** The states of a node *)







End Invariant.

(** ** Concrete states *)

#[local] Existing Instance sample_env.
#[local] Existing Instance sample_parser.
#[local] Instance nf_sample_hashes : HashFns := {| sha256 bytes := bytes; blake2b_256 p bytes := p ++ bytes |}.

Definition nf_sample_block (parent id h : Z) : SemanticallyVerifiedBlock :=
  let b := chain_sample_block parent id h [] in
  mkSemantic (cv_block b) (cv_hash b) h (cv_new_outputs b) (cv_transaction_hashes b) None.
Definition nf_sample_db : ZebraDb :=
  mkZebraDb Mainnet (Some 9) [9] [] [] [] [] sample_pools (λ _, None) (λ _, false) (λ _, false) (λ _, None).

Definition nf_commit_new := commit_new_chain (λ _, None) (λ _, []).
Definition nf_commit := commit_block (λ _, None) (λ _, []).

(** A root block, a block on it, and another block on it. *)
Definition nf_root_result : Res ValidateContextError NonFinalizedState :=
  nf_commit_new (nfs_new Mainnet) (nf_sample_block 9 10 10) nf_sample_db.
Definition nf_root : NonFinalizedState := ok_value (nfs_new Mainnet) nf_root_result.
Definition nf_block_11 : SemanticallyVerifiedBlock := nf_sample_block 10 11 11.
Definition nf_two_result : Res ValidateContextError NonFinalizedState := nf_commit nf_root nf_block_11 nf_sample_db.
Definition nf_two : NonFinalizedState := ok_value (nfs_new Mainnet) nf_two_result.
Definition nf_forks_result : Res ValidateContextError NonFinalizedState :=
  nf_commit nf_two (nf_sample_block 10 12 11) nf_sample_db.
Definition nf_forks : NonFinalizedState := ok_value (nfs_new Mainnet) nf_forks_result.

Lemma nf_forks_eq : nf_forks_result = Ok nf_forks.
Proof. apply ok_value_eq. vm_compute. reflexivity. Qed.










(** A state in which one of two forks was invalidated. *)
Definition nf_invalidated : NonFinalizedState :=
  (ok_value ([], nfs_new Mainnet) (invalidate_block nf_forks [11])).2.
Definition is_panic {E A} (r : Res E A) : bool := match r with Panic => true | _ => false end.
Lemma is_panic_eq {E A} (r : Res E A) : is_panic r = true → r = Panic.
Proof. by destruct r. Qed.
Lemma ok_pair_eq {E A B} (d : A * B) (r : Res E (A * B)) : is_ok r = true → r = Ok ((ok_value d r).1, (ok_value d r).2).
Proof. by destruct r as [[]| |]. Qed.

(** After the invalidation of one of two forks, the chain of their common
    blocks is in the set beside the other fork. From that state, invalidating the other
    fork panics; finalizing keeps an empty chain, so the next finalization panics; and the
    block can be reconsidered once, but a second reconsideration panics, because the entry
    of the invalidated block is kept. *)
Theorem invalidated_fork_panics :
  nf_forks_result = Ok nf_forks ∧
  (∃ hash, invalidate_block nf_forks [11] = Ok (hash, nf_invalidated)) ∧
  invalidate_block nf_invalidated [12] = Panic ∧
  (∃ bt s, finalize nf_invalidated = Ok (bt, s) ∧ finalize s = Panic) ∧
  (∃ hashes s, reconsider_block nf_invalidated [11] nf_sample_db = Ok (hashes, s) ∧
     reconsider_block s [11] nf_sample_db = Panic).
Proof.
  split; [apply nf_forks_eq|]. split; [|split; [|split]].
  - eexists. apply ok_pair_eq. vm_compute. reflexivity.
  - apply is_panic_eq. vm_compute. reflexivity.
  - eexists _, _. split; [apply (ok_pair_eq (sample_block_10, mkTreestate (Env := sample_env) (mkTrees (Env := sample_env) [] [] None [] None) [], nfs_new Mainnet)); vm_compute; reflexivity|].
    apply is_panic_eq. vm_compute. reflexivity.
  - eexists _, _. split; [apply (ok_pair_eq ([], nfs_new Mainnet)); vm_compute; reflexivity|].
    apply is_panic_eq. vm_compute. reflexivity.
Qed.
