(* ===== verification/ChainTip.v ===== *)
(** * The best chain tip and its changes

    [zebra-state/src/service/chain_tip.rs]: the sender of the best tip, the reader of the latest tip, and the monitor that turns the
    changes of the tip into actions. The [watch] channel holds a value and counts the values that were sent; a receiver remembers the
    number it has seen. The channel has a receiver, and the tracing spans are left out. *)

From stdpp Require Import strings.
From S2P Require Import Prelude Height Network Transaction Reversible Ledger SpendChecks.

(** ** Tips *)

Record ChainTipBlock := mkTip {
  tip_hash : Hash;
  tip_height : Height;
  tip_time : Z;
  tip_transactions : list Transaction;
  tip_transaction_hashes : list Hash;
  tip_previous_block_hash : Hash;
}.

(** The conversions from a contextually verified block, and from a semantically or a checkpoint verified one. *)
Definition tip_from_contextual (b : ContextuallyVerifiedBlock) : ChainTipBlock :=
  mkTip (cv_hash b) (cv_height b) (time (header (cv_block b))) (transactions (cv_block b)) (cv_transaction_hashes b) (previous_block_hash (header (cv_block b))).
Definition tip_from_prepared (b : SemanticallyVerifiedBlock) : ChainTipBlock :=
  mkTip (sv_hash b) (sv_height b) (time (header (sv_block b))) (transactions (sv_block b)) (sv_transaction_hashes b) (previous_block_hash (header (sv_block b))).

(** ** The channel and its sender *)

Record Watch := mkWatch { watched : option ChainTipBlock; watch_version : nat }.

(** [ChainTipSender], with the channel it owns. *)
Record ChainTipSender := mkSender { use_non_finalized_tip : bool; channel : Watch }.

Definition sender_update (self : ChainTipSender) (new_tip : option ChainTipBlock) : ChainTipSender :=
  let active_hash := tip_hash <$> watched (channel self) in
  let needs_update := match new_tip, active_hash with
                      | Some new_tip, Some active_hash => negb (bool_decide (tip_hash new_tip = active_hash))
                      | Some _, None => true
                      | None, _ => false
                      end in
  if needs_update then mkSender (use_non_finalized_tip self) (mkWatch new_tip (S (watch_version (channel self)))) else self.

Definition set_finalized_tip (self : ChainTipSender) (new_tip : option ChainTipBlock) : ChainTipSender :=
  if use_non_finalized_tip self then self else sender_update self new_tip.

Definition set_best_non_finalized_tip (self : ChainTipSender) (new_tip : option ChainTipBlock) : ChainTipSender :=
  match new_tip with
  | Some _ => sender_update (mkSender true (channel self)) new_tip
  | None => self
  end.

(** ** The latest tip *)

(** [with_chain_tip_block], and the queries of the [ChainTip] trait. *)
Definition with_chain_tip_block {U} (ch : Watch) (f : ChainTipBlock → U) : option U := f <$> watched ch.
Definition best_tip_height (ch : Watch) : option Height := with_chain_tip_block ch tip_height.
Definition best_tip_hash (ch : Watch) : option Hash := with_chain_tip_block ch tip_hash.
Definition best_tip_height_and_hash (ch : Watch) : option (Height * Hash) := with_chain_tip_block ch (λ b, (tip_height b, tip_hash b)).
Definition best_tip_block_time (ch : Watch) : option Z := with_chain_tip_block ch tip_time.
Definition best_tip_height_and_block_time (ch : Watch) : option (Height * Z) := with_chain_tip_block ch (λ b, (tip_height b, tip_time b)).
Definition best_tip_mined_transaction_ids (ch : Watch) : list Hash := default [] (with_chain_tip_block ch tip_transaction_hashes).

(** ** Changes of the tip *)

Inductive TipAction :=
| Grow (block : ChainTipBlock)
| ResetTo (height : Height) (hash : Hash).

Definition is_reset (self : TipAction) : bool := match self with ResetTo _ _ => true | Grow _ => false end.
Definition action_hash (self : TipAction) : Hash := match self with Grow block => tip_hash block | ResetTo _ hash => hash end.
Definition action_height (self : TipAction) : Height := match self with Grow block => tip_height block | ResetTo height _ => height end.
Definition best_tip_hash_and_height (self : TipAction) : Hash * Height := (action_hash self, action_height self).
Definition grow_with (block : ChainTipBlock) : TipAction := Grow block.
Definition reset_with (block : ChainTipBlock) : TipAction := ResetTo (tip_height block) (tip_hash block).

(** [ChainTipChange], with the version its receiver has seen. *)
Record ChainTipChange := mkChange { last_change_hash : option Hash; change_network : Network; seen_version : nat }.

(** [clone] forgets the last change. *)
Definition change_new (network : Network) (seen : nat) : ChainTipChange := mkChange None network seen.
Definition change_clone (self : ChainTipChange) : ChainTipChange := mkChange None (change_network self) (seen_version self).
Definition mark_last_change_hash (self : ChainTipChange) (hash : Hash) : ChainTipChange := mkChange (Some hash) (change_network self) (seen_version self).

Definition tip_action (self : ChainTipChange) (block : ChainTipBlock) : Run TipAction :=
  _ ← assert (negb (bool_decide (Some (tip_hash block) = last_change_hash self)));
  Ok (if negb (bool_decide (Some (tip_previous_block_hash block) = last_change_hash self)) || is_activation_height (change_network self) (tip_height block)
      then reset_with block else grow_with block).

(** The block of the channel, unless it is the one of the last change. *)
Definition changed_block (self : ChainTipChange) (ch : Watch) : option ChainTipBlock :=
  b ← watched ch; if bool_decide (Some (tip_hash b) = last_change_hash self) then None else Some b.

Definition last_tip_change (self : ChainTipChange) (ch : Watch) : Run (option TipAction * ChainTipChange) :=
  match changed_block self ch with
  | None => Ok (None, self)
  | Some block =>
      action ← tip_action self block;
      Ok (Some action, mark_last_change_hash self (tip_hash block))
  end.

(** A poll of [tip_block_change]: pending until the channel has a value that was not seen; the loop waits again when the value is not new. *)
Definition tip_block_change (self : ChainTipChange) (ch : Watch) : option ChainTipBlock * ChainTipChange :=
  if (seen_version self =? watch_version ch)%nat then (None, self) else
  let self := mkChange (last_change_hash self) (change_network self) (watch_version ch) in
  (changed_block self ch, self).
(** A poll of [wait_for_tip_change]. *)
Definition wait_for_tip_change (self : ChainTipChange) (ch : Watch) : Run (option TipAction * ChainTipChange) :=
  let '(block, self) := tip_block_change self ch in
  match block with
  | None => Ok (None, self)
  | Some block =>
      action ← tip_action self block;
      Ok (Some action, mark_last_change_hash self (tip_hash block))
  end.

(** [ChainTipSender::new]. *)
Definition sender_new (initial_tip : option ChainTipBlock) (network : Network) : ChainTipSender * ChainTipChange :=
  (sender_update (mkSender false (mkWatch None 0)) initial_tip, change_new network 0).

(** [finalized_sender]: another sender of the same channel, which ignores what the other sender has sent. *)
Definition finalized_sender (self : ChainTipSender) : ChainTipSender := mkSender false (channel self).

(** ** Runs *)

Inductive TipEvent :=
| SetFinalized (new_tip : option ChainTipBlock)
| SetBest (new_tip : option ChainTipBlock)
| PollChange
| AwaitChange.

Definition TipRun : Type := ChainTipSender * ChainTipChange * list TipAction.

Definition tip_step (st : TipRun) (e : TipEvent) : Run TipRun :=
  let '(sender, change, actions) := st in
  match e with
  | SetFinalized new_tip => Ok (set_finalized_tip sender new_tip, change, actions)
  | SetBest new_tip => Ok (set_best_non_finalized_tip sender new_tip, change, actions)
  | PollChange => '(action, change) ← last_tip_change change (channel sender); Ok (sender, change, actions ++ option_list action)
  | AwaitChange => '(action, change) ← wait_for_tip_change change (channel sender); Ok (sender, change, actions ++ option_list action)
  end.
(** Runs of the sender that [sender_new] returns; the senders that [finalized_sender] makes take no part in them. *)
Definition tip_run (initial_tip : option ChainTipBlock) (network : Network) (events : list TipEvent) : Run TipRun :=
  foldM tip_step (sender_new initial_tip network, []) events.

(** The tip that the events set: the last one from the non-finalized state if there is one, or the last one from the finalized state. *)
Definition best_of (e : TipEvent) : option ChainTipBlock := match e with SetBest t => t | _ => None end.
Definition finalized_of (e : TipEvent) : option ChainTipBlock := match e with SetFinalized t => t | _ => None end.
Definition newest_tip (initial_tip : option ChainTipBlock) (events : list TipEvent) : option ChainTipBlock :=
  match last (omap best_of events) with
  | Some tip => Some tip
  | None => match last (omap finalized_of events) with Some tip => Some tip | None => initial_tip end
  end.

(** Actions after the tip [from]: each one is for another tip than the one before; a block that grows the tip is its child, and does not
    activate a network upgrade. *)
Fixpoint linked (network : Network) (from : option Hash) (actions : list TipAction) : Prop :=
  match actions with
  | [] => True
  | a :: actions =>
      Some (action_hash a) ≠ from ∧
      match a with
      | Grow b => Some (tip_previous_block_hash b) = from ∧ is_activation_height network (tip_height b) = false
      | ResetTo _ _ => True
      end ∧ linked network (Some (action_hash a)) actions
  end.

Definition last_hash (from : option Hash) (actions : list TipAction) : option Hash :=
  match last actions with Some a => Some (action_hash a) | None => from end.

Lemma linked_snoc network from actions a : linked network from (actions ++ [a]) ↔
  linked network from actions ∧ linked network (last_hash from actions) [a].
Proof.
  revert from. induction actions as [|b actions IH]; intros from; [cbn; tauto|].
  assert (last_hash from (b :: actions) = last_hash (Some (action_hash b)) actions) as ->.
  { unfold last_hash. rewrite last_cons. by destruct (last actions). }
  specialize (IH (Some (action_hash b))). revert IH. generalize [a]. intros l IH. cbn [app linked]. rewrite IH. tauto.
Qed.

(** What a run keeps. *)
Record tip_inv (network : Network) (initial : option ChainTipBlock) (events : list TipEvent) (st : TipRun) : Prop := {
  tip_hash_newest : tip_hash <$> watched (channel st.1.1) = tip_hash <$> newest_tip initial events;
  tip_flag : use_non_finalized_tip st.1.1 = bool_decide (is_Some (last (omap best_of events)));
  tip_network : change_network st.1.2 = network;
  tip_last : last_change_hash st.1.2 = last_hash None st.2;
  tip_linked : linked network None st.2;
}.

Lemma sender_update_hash self t : tip_hash <$> watched (channel (sender_update self t)) = match t with Some t => Some (tip_hash t) | None => tip_hash <$> watched (channel self) end ∧
  use_non_finalized_tip (sender_update self t) = use_non_finalized_tip self.
Proof.
  unfold sender_update. destruct t as [t|]; [|done]. destruct (watched (channel self)) as [w|] eqn:Hw; cbn; [|done].
  destruct (bool_decide_reflect (tip_hash t = tip_hash w)) as [Heq|]; cbn; [|done]. by rewrite Hw, Heq.
Qed.

Lemma action_inv change b : Some (tip_hash b) ≠ last_change_hash change → ∃ a, tip_action change b = Ok a ∧ action_hash a = tip_hash b ∧
  linked (change_network change) (last_change_hash change) [a].
Proof.
  intros Hn. unfold tip_action. rewrite (bool_decide_false _ Hn). cbn [assert negb]. rewrite Ok_bind. eexists. split; [done|].
  destruct (bool_decide_reflect (Some (tip_previous_block_hash b) = last_change_hash change)) as [Hp|Hp]; cbn [negb orb]; [|by cbn; split_and!].
  destruct (is_activation_height _ _) eqn:Ha; by cbn; split_and!.
Qed.

Lemma changed_block_Some self ch b : changed_block self ch = Some b → watched ch = Some b ∧ Some (tip_hash b) ≠ last_change_hash self.
Proof.
  unfold changed_block. destruct (watched ch) as [w|]; [|done]. cbn. destruct (bool_decide_reflect (Some (tip_hash w) = last_change_hash self)); [done|]. by intros [= ->].
Qed.

(** A poll returns the action of the block of the channel, unless that block is the one of the last change. *)
Lemma last_tip_change_total self ch : ∃ a self', last_tip_change self ch = Ok (a, self') ∧
  match a with
  | Some a => (∃ b, watched ch = Some b ∧ tip_hash b = action_hash a) ∧ last_change_hash self' = Some (action_hash a)
  | None => self' = self ∧ ∀ b, watched ch = Some b → last_change_hash self = Some (tip_hash b)
  end.
Proof.
  unfold last_tip_change. destruct (changed_block self ch) as [b|] eqn:Hb.
  - apply changed_block_Some in Hb as [Hw Hn]. destruct (action_inv self b Hn) as (a & -> & Ha & _). rewrite Ok_bind. eexists _, _. split; [done|].
    split; [by exists b|]. cbn. by rewrite Ha.
  - eexists _, _. split; [done|]. split; [done|]. intros b Hw. unfold changed_block in Hb. rewrite Hw in Hb. cbn in Hb.
    by destruct (bool_decide_reflect (Some (tip_hash b) = last_change_hash self)).
Qed.

(** Both kinds of polls extend the actions with the action of the block, if the block is new. *)
Lemma poll_inv network initial events sender change actions seen (r := match changed_block change (channel sender) with
    | None => Ok (None, mkChange (last_change_hash change) (change_network change) seen)
    | Some block => action ← tip_action change block; Ok (Some action, mkChange (Some (tip_hash block)) (change_network change) seen)
    end : Run (option TipAction * ChainTipChange)) e : tip_inv network initial events (sender, change, actions) → best_of e = None → finalized_of e = None →
  ∃ a change', r = Ok (a, change') ∧ tip_inv network initial (events ++ [e]) (sender, change', actions ++ option_list a) ∧
    (is_Some (watched (channel sender)) → last_change_hash change' = best_tip_hash (channel sender)).
Proof.
  intros [H1 H2 H3 H4 H5] He1 He2. cbn [fst snd] in *.
  assert (Hnew : newest_tip initial (events ++ [e]) = newest_tip initial events ∧ omap best_of (events ++ [e]) = omap best_of events).
  { unfold newest_tip. rewrite !omap_app. cbn. rewrite He1, He2. by rewrite !app_nil_r. }
  destruct Hnew as [Hnew Hbest]. unfold r. destruct (changed_block change (channel sender)) as [b|] eqn:Hb.
  - apply changed_block_Some in Hb as [Hw Hne]. destruct (action_inv change b Hne) as (a & -> & Ha & Hl). rewrite Ok_bind. eexists _, _. split; [done|]. split.
    + split; cbn [fst snd option_list]; [by rewrite Hnew|by rewrite Hbest|done| |].
      * cbn. unfold last_hash. by rewrite last_snoc, Ha.
      * apply linked_snoc. split; [done|]. by rewrite <- H3, <- H4.
    + intros _. unfold best_tip_hash, with_chain_tip_block. by rewrite Hw.
  - eexists _, _. split; [done|]. split.
    + split; cbn [fst snd option_list]; rewrite ?app_nil_r; [by rewrite Hnew|by rewrite Hbest|done..].
    + intros [w Hw]. unfold best_tip_hash, with_chain_tip_block. rewrite Hw. cbn. unfold changed_block in Hb. rewrite Hw in Hb. cbn in Hb.
      by destruct (bool_decide_reflect (Some (tip_hash w) = last_change_hash change)) as [->|].
Qed.

Lemma newest_best initial events t : newest_tip initial (events ++ [SetBest (Some t)]) = Some t.
Proof. unfold newest_tip. rewrite !omap_app. cbn. by rewrite last_snoc. Qed.

Lemma newest_finalized initial events t : newest_tip initial (events ++ [SetFinalized t]) =
  if bool_decide (is_Some (last (omap best_of events))) then newest_tip initial events else match t with Some t => Some t | None => newest_tip initial events end.
Proof.
  unfold newest_tip. rewrite !omap_app. cbn. rewrite app_nil_r. destruct (last (omap best_of events)); [by rewrite bool_decide_true|].
  rewrite bool_decide_false by (by intros []). destruct t as [t|]; [by rewrite last_snoc|]. by rewrite app_nil_r.
Qed.

Lemma best_of_finalized events t : omap best_of (events ++ [SetFinalized t]) = omap best_of events.
Proof. rewrite omap_app. cbn. by rewrite app_nil_r. Qed.

Lemma set_finalized_inv network initial events sender change actions t : tip_inv network initial events (sender, change, actions) →
  tip_inv network initial (events ++ [SetFinalized t]) (set_finalized_tip sender t, change, actions).
Proof.
  intros [H1 H2 H3 H4 H5]. cbn [fst snd] in *. split; cbn [fst snd]; try done.
  - rewrite newest_finalized, <- H2. unfold set_finalized_tip. destruct (use_non_finalized_tip sender); [done|].
    rewrite (proj1 (sender_update_hash sender t)). by destruct t.
  - rewrite best_of_finalized. unfold set_finalized_tip. destruct (use_non_finalized_tip sender) eqn:Hu; [by rewrite Hu|].
    by rewrite (proj2 (sender_update_hash sender t)), Hu.
Qed.

Lemma set_best_inv network initial events sender change actions t : tip_inv network initial events (sender, change, actions) →
  tip_inv network initial (events ++ [SetBest t]) (set_best_non_finalized_tip sender t, change, actions).
Proof.
  intros [H1 H2 H3 H4 H5]. cbn [fst snd] in *. destruct t as [t|].
  - split; cbn [fst snd set_best_non_finalized_tip]; try done.
    + rewrite newest_best. by rewrite (proj1 (sender_update_hash _ (Some t))).
    + rewrite (proj2 (sender_update_hash _ (Some t))), omap_app. cbn. by rewrite last_snoc.
  - split; cbn [fst snd set_best_non_finalized_tip]; try done; [rewrite H1; unfold newest_tip|rewrite H2]; rewrite ?omap_app; cbn; by rewrite ?app_nil_r.
Qed.

Lemma poll_change_inv network initial events sender change actions : tip_inv network initial events (sender, change, actions) →
  ∃ a change', last_tip_change change (channel sender) = Ok (a, change') ∧
    tip_inv network initial (events ++ [PollChange]) (sender, change', actions ++ option_list a) ∧
    (is_Some (watched (channel sender)) → last_change_hash change' = best_tip_hash (channel sender)).
Proof.
  intros H. destruct (poll_inv network initial events sender change actions (seen_version change) PollChange H) as (a & c & Hr & Hi & Hl); [done..|].
  exists a, c. split_and!; [|done|done]. rewrite <- Hr. unfold last_tip_change. destruct change as [l n v]. cbn. by destruct (changed_block _ _).
Qed.

Lemma await_change_inv network initial events sender change actions : tip_inv network initial events (sender, change, actions) →
  ∃ a change', wait_for_tip_change change (channel sender) = Ok (a, change') ∧
    tip_inv network initial (events ++ [AwaitChange]) (sender, change', actions ++ option_list a).
Proof.
  intros H. unfold wait_for_tip_change, tip_block_change. destruct (Nat.eqb _ _) eqn:Hv.
  - exists None, change. split; [done|]. destruct H as [H1 H2 H3 H4 H5]. split; cbn [fst snd option_list] in *; rewrite ?app_nil_r; try done.
    + rewrite H1. unfold newest_tip. rewrite !omap_app. cbn. by rewrite !app_nil_r.
    + rewrite H2, omap_app. cbn. by rewrite app_nil_r.
  - destruct (poll_inv network initial events sender change actions (watch_version (channel sender)) AwaitChange H) as (a & c & Hr & Hi & _); [done..|].
    exists a, c. split; [|done]. rewrite <- Hr. destruct change as [l n v]. cbn.
    unfold changed_block. cbn. destruct (watched (channel sender)) as [w|]; cbn; [|done]. by destruct (bool_decide _).
Qed.

Lemma tip_run_inv initial network events : ∃ st, tip_run initial network events = Ok st ∧ tip_inv network initial events st.
Proof.
  unfold tip_run. induction events as [|e events IH] using rev_ind.
  - eexists. split; [done|]. split; cbn [fst snd sender_new]; try done; [|by rewrite (proj2 (sender_update_hash _ _))].
    rewrite (proj1 (sender_update_hash _ _)). by destruct initial.
  - destruct IH as ([[sender change] actions] & Hr & Hi). rewrite foldM_app, Hr, Ok_bind. cbn [foldM tip_step].
    destruct e as [t|t| |].
    + rewrite Ok_bind. eexists. split; [done|]. by apply set_finalized_inv.
    + rewrite Ok_bind. eexists. split; [done|]. by apply set_best_inv.
    + destruct (poll_change_inv _ _ _ _ _ _ Hi) as (a & c & -> & Hi' & _). rewrite !Ok_bind. eauto.
    + destruct (await_change_inv _ _ _ _ _ _ Hi) as (a & c & -> & Hi'). rewrite !Ok_bind. eauto.
Qed.

(** C22: whatever the order in which tips are set through one sender and the monitor is polled, no call panics. The latest tip is the last one set from the
    non-finalized state, or the last one from the finalized state while there was none. The actions of the monitor follow the
    tips: the first one is a reset, also for the genesis block; a block grows the tip only if it is the child of the tip of the action before and
    activates no upgrade; no two successive actions are for the same tip; and a poll brings the monitor to the latest tip. *)
Theorem tip_actions_exact initial network events : ∃ sender change actions,
  tip_run initial network events = Ok (sender, change, actions) ∧
  best_tip_hash (channel sender) = tip_hash <$> newest_tip initial events ∧
  linked network None actions ∧ (∀ a, head actions = Some a → is_reset a = true) ∧
  ∃ action change', last_tip_change change (channel sender) = Ok (action, change') ∧ linked network None (actions ++ option_list action) ∧
    (is_Some (newest_tip initial events) → last_change_hash change' = tip_hash <$> newest_tip initial events).
Proof.
  destruct (tip_run_inv initial network events) as ([[sender change] actions] & Hr & Hi). exists sender, change, actions. split; [done|].
  destruct (poll_change_inv _ _ _ _ _ _ Hi) as (a & c & Hp & [_ _ _ _ Hl'] & Hlast). destruct Hi as [H1 H2 H3 H4 H5]. cbn [fst snd] in *.
  split_and!; [exact H1|done| |].
  - intros x Hx. destruct actions as [|y actions]; [done|]. cbn in Hx. simplify_eq. destruct H5 as (_ & Hg & _). destruct x as [b|]; [|done]. by destruct Hg.
  - exists a, c. split_and!; [done|done|]. intros Hs. rewrite Hlast; [exact H1|]. rewrite <- (fmap_is_Some tip_hash), H1. by apply fmap_is_Some.
Qed.
