(* ===== verification/MempoolDeps.v ===== *)
(** * The dependencies between mempool transactions

    [zebra-node-services/src/mempool/transaction_dependencies.rs]: which transactions of the mempool spend outputs of others.
    The order in which a [HashMap] or a [HashSet] iterates is a parameter: the results do not depend on it. *)

From S2P Require Import Prelude Transaction.

(** The iteration of hash sets and hash maps. *)
Class HashOrder := {
  set_order : ∀ {A} {EqA : EqDecision A} {CountA : Countable A}, gset A → list A;
  map_order : ∀ {A} {EqA : EqDecision A} {CountA : Countable A} {V}, gmap A V → list (A * V);
}.
Class HashOrderLaws `{!HashOrder} : Prop := {
  set_order_perm : ∀ {A} {EqA : EqDecision A} {CountA : Countable A} (s : gset A), set_order s ≡ₚ elements s;
  map_order_perm : ∀ {A} {EqA : EqDecision A} {CountA : Countable A} V (m : gmap A V), map_order m ≡ₚ map_to_list m;
}.

Record TransactionDependencies := mkDeps {
  dependencies : gmap Hash (gset Hash);
  dependents : gmap Hash (gset Hash);
}.

(** [get(k).cloned().unwrap_or_default()]. *)
Definition related (m : gmap Hash (gset Hash)) (k : Hash) : gset Hash := default ∅ (m !! k).

(** Removes an item from the set of a key, and the key when the set is empty. *)
Definition unlink (item : Hash) (m : gmap Hash (gset Hash)) (k : Hash) : gmap Hash (gset Hash) :=
  match m !! k with
  | None => m
  | Some s => let s := s ∖ {[item]} in if decide (s = ∅) then delete k m else <[k := s]> m
  end.

Section Deps.
Context `{HO : !HashOrder}.

Definition deps_new : TransactionDependencies := mkDeps ∅ ∅.

Definition deps_add (self : TransactionDependencies) (dependent : Hash) (spent_mempool_outpoints : list OutPoint) :
    TransactionDependencies :=
  mkDeps
    (if bool_decide (spent_mempool_outpoints = []) then dependencies self
     else <[dependent := list_to_set (outpoint_hash <$> spent_mempool_outpoints)]> (dependencies self))
    (foldl (λ m o, <[outpoint_hash o := {[dependent]} ∪ related m (outpoint_hash o)]> m) (dependents self) spent_mempool_outpoints).

(** The loop of [clear_mined_dependencies] over the mined transactions. *)
Definition clear_mined (self : TransactionDependencies) (mined_tx_id : Hash) : TransactionDependencies :=
  mkDeps (foldl (unlink mined_tx_id) (dependencies self) (set_order (related (dependents self) mined_tx_id)))
    (delete mined_tx_id (dependents self)).
Definition clear_mined_dependencies (self : TransactionDependencies) (mined_ids : gset Hash) : TransactionDependencies :=
  foldl clear_mined self (set_order mined_ids).

(** The closure of [remove_all]: removes a transaction from both maps, and returns what was left of its dependents. *)
Definition remove_dependent (self : TransactionDependencies) (dependent : Hash) : TransactionDependencies * gset Hash :=
  let m := foldl (unlink dependent) (dependents self) (set_order (related (dependencies self) dependent)) in
  (mkDeps (delete dependent (dependencies self)) (delete dependent m), related m dependent).

(** One level of [remove_all]: the dependents of all transactions of the level. *)
Definition remove_level (self : TransactionDependencies) (level : list Hash) : TransactionDependencies * gset Hash :=
  foldl (λ '(self, next) dependent, let '(self, ds) := remove_dependent self dependent in (self, next ∪ ds)) (self, ∅) level.

(** The loop of [remove_all]. Each level removes the dependents of a transaction, or is the last but one. *)
Fixpoint remove_levels (fuel : nat) (self : TransactionDependencies) (all_dependents level : gset Hash) :
    Run (TransactionDependencies * gset Hash) :=
  if decide (level = ∅) then Ok (self, all_dependents)
  else match fuel with
       | O => Panic
       | S fuel => let '(self, next) := remove_level self (set_order level) in remove_levels fuel self (all_dependents ∪ next) next
       end.
Definition remove_all (self : TransactionDependencies) (tx_hash : Hash) : Run (TransactionDependencies * gset Hash) :=
  remove_levels (2 + size (dependents self)) self ∅ {[tx_hash]}.

Definition direct_dependents (self : TransactionDependencies) (tx_hash : Hash) : gset Hash := related (dependents self) tx_hash.
Definition direct_dependencies (self : TransactionDependencies) (tx_hash : Hash) : gset Hash := related (dependencies self) tx_hash.

(** ** The graph of dependencies *)

(** The transaction [d] depends on [t]. *)
Definition edge (self : TransactionDependencies) (t d : Hash) : Prop := d ∈ direct_dependents self t.

Definition no_empty (m : gmap Hash (gset Hash)) : Prop := map_Forall (λ _ s, s ≠ ∅) m.

(** Both maps hold the same graph, without empty sets. *)
Record deps_ok (self : TransactionDependencies) : Prop := {
  deps_dual : ∀ t d, edge self t d ↔ t ∈ direct_dependencies self d;
  dependencies_no_empty : no_empty (dependencies self);
  dependents_no_empty : no_empty (dependents self);
}.

Lemma elem_of_related (m : gmap Hash (gset Hash)) k x : x ∈ related m k ↔ ∃ s, m !! k = Some s ∧ x ∈ s.
Proof. unfold related. destruct (m !! k); cbn; set_solver. Qed.

Lemma related_insert m k s k' : related (<[k := s]> m) k' = if decide (k' = k) then s else related m k'.
Proof. unfold related. destruct (decide (k' = k)) as [->|]; by simplify_map_eq. Qed.

Lemma related_delete m k k' : related (delete k m) k' = if decide (k' = k) then ∅ else related m k'.
Proof. unfold related. destruct (decide (k' = k)) as [->|]; by simplify_map_eq. Qed.

Lemma related_unlink item m k k' : related (unlink item m k) k' = if decide (k' = k) then related m k' ∖ {[item]} else related m k'.
Proof.
  unfold unlink. destruct (m !! k) as [s|] eqn:Hk.
  - destruct (decide (s ∖ {[item]} = ∅)) as [He|].
    + rewrite related_delete. destruct (decide (k' = k)) as [->|]; [|done]. unfold related. rewrite Hk. by rewrite <- He.
    + rewrite related_insert. destruct (decide (k' = k)) as [->|]; [|done]. unfold related. by rewrite Hk.
  - destruct (decide (k' = k)) as [->|]; [|done]. unfold related. rewrite Hk. cbn. set_solver.
Qed.

Lemma no_empty_unlink item m k : no_empty m → no_empty (unlink item m k).
Proof.
  intros H. unfold unlink. destruct (m !! k) as [s|]; [|done]. destruct (decide _); [by apply map_Forall_delete|by apply map_Forall_insert_2].
Qed.

Lemma unlink_all item l m : no_empty m →
  (∀ k x, x ∈ related (foldl (unlink item) m l) k ↔ x ∈ related m k ∧ ¬ (x = item ∧ k ∈ l)) ∧ no_empty (foldl (unlink item) m l).
Proof.
  revert m. induction l as [|k l IH]; intros m Hm; cbn [foldl]; [set_solver|].
  destruct (IH (unlink item m k) (no_empty_unlink _ _ _ Hm)) as [H1 H2]. split; [|done]. intros k' x.
  rewrite H1, related_unlink. destruct (decide (k' = k)); set_solver.
Qed.

Context `{HL : !HashOrderLaws}.

Lemma elem_of_set_order {A} `{Countable A} (s : gset A) x : x ∈ set_order s ↔ x ∈ s.
Proof. by rewrite set_order_perm, elem_of_elements. Qed.

Lemma deps_new_ok : deps_ok deps_new.
Proof. split; [|apply map_Forall_empty..]. intros t d. unfold edge, direct_dependents, direct_dependencies, related. cbn. set_solver. Qed.

Lemma add_dependents dependent l m k x : x ∈ related (foldl (λ m o, <[outpoint_hash o := {[dependent]} ∪ related m (outpoint_hash o)]> m) m l) k ↔
  x ∈ related m k ∨ (x = dependent ∧ k ∈ outpoint_hash <$> l).
Proof.
  revert m. induction l as [|o l IH]; intros m; cbn [foldl]; [set_solver|]. rewrite IH, related_insert.
  destruct (decide (k = outpoint_hash o)); set_solver.
Qed.

Lemma add_dependents_no_empty dependent l m : no_empty m →
  no_empty (foldl (λ m o, <[outpoint_hash o := {[dependent]} ∪ related m (outpoint_hash o)]> m) m l).
Proof. revert m. induction l as [|o l IH]; intros m Hm; cbn [foldl]; [done|]. apply IH, map_Forall_insert_2; [set_solver|done]. Qed.

(** Adding a transaction without dependencies adds its edges. *)
Lemma deps_add_ok self dependent spent : deps_ok self → direct_dependencies self dependent = ∅ →
  deps_ok (deps_add self dependent spent) ∧
  ∀ t d, edge (deps_add self dependent spent) t d ↔ edge self t d ∨ (d = dependent ∧ t ∈ outpoint_hash <$> spent).
Proof.
  intros [Hd H1 H2] Hn. assert (He : ∀ t d, edge (deps_add self dependent spent) t d ↔ edge self t d ∨ (d = dependent ∧ t ∈ outpoint_hash <$> spent)).
  { intros t d. unfold edge, direct_dependents, deps_add. cbn [dependents]. by rewrite add_dependents. }
  split; [|done]. split.
  - intros t d. rewrite He, Hd. unfold direct_dependencies, deps_add. cbn [dependencies]. case_bool_decide as Hs.
    + subst spent. set_solver.
    + rewrite related_insert. destruct (decide (d = dependent)) as [->|]; [|set_solver].
      unfold direct_dependencies in Hn. rewrite Hn, elem_of_list_to_set. set_solver.
  - cbn. case_bool_decide as Hs; [done|]. apply map_Forall_insert_2; [|done]. destruct spent; [done|]. cbn. set_solver.
  - by apply add_dependents_no_empty.
Qed.

Lemma clear_mined_ok self mined : deps_ok self →
  deps_ok (clear_mined self mined) ∧ ∀ t d, edge (clear_mined self mined) t d ↔ edge self t d ∧ t ≠ mined.
Proof.
  intros [Hd H1 H2]. destruct (unlink_all mined (set_order (related (dependents self) mined)) _ H1) as [Hu Hne].
  assert (He : ∀ t d, edge (clear_mined self mined) t d ↔ edge self t d ∧ t ≠ mined).
  { intros t d. unfold edge, direct_dependents, clear_mined. cbn [dependents]. rewrite related_delete. destruct (decide (t = mined)); set_solver. }
  split; [|done]. split; [|done|by apply map_Forall_delete].
  intros t d. rewrite He. unfold direct_dependencies. cbn [dependencies clear_mined]. rewrite Hu, elem_of_set_order.
  specialize (Hd t d). unfold edge, direct_dependents, direct_dependencies in *. naive_solver.
Qed.

(** Clearing mined transactions removes the edges to their dependents. *)
Lemma clear_mined_dependencies_ok self mined_ids : deps_ok self →
  deps_ok (clear_mined_dependencies self mined_ids) ∧
  ∀ t d, edge (clear_mined_dependencies self mined_ids) t d ↔ edge self t d ∧ t ∉ mined_ids.
Proof.
  intros H. unfold clear_mined_dependencies.
  assert (Hl : ∀ l self, deps_ok self → deps_ok (foldl clear_mined self l) ∧
    ∀ t d, edge (foldl clear_mined self l) t d ↔ edge self t d ∧ t ∉ l).
  { clear -HL. induction l as [|x l IH]; intros self H; cbn [foldl]; [set_solver|].
    destruct (clear_mined_ok self x H) as [H1 H2]. destruct (IH _ H1) as [H3 H4]. split; [done|].
    intros t d. rewrite H4, H2. set_solver. }
  destruct (Hl (set_order mined_ids) self H) as [H1 H2]. split; [done|]. intros t d. by rewrite H2, elem_of_set_order.
Qed.

(** ** Removing a transaction and its dependents *)

Lemma dom_unlink item m k : dom (unlink item m k) ⊆ dom m.
Proof.
  unfold unlink. destruct (m !! k) as [s|] eqn:Hk; [|done]. apply elem_of_dom_2 in Hk.
  destruct (decide _); [rewrite dom_delete|rewrite dom_insert]; set_solver.
Qed.
Lemma dom_unlink_all item l m : dom (foldl (unlink item) m l) ⊆ dom m.
Proof.
  revert m. induction l as [|k l IH]; intros m; cbn [foldl]; [done|]. etrans; [apply IH|apply dom_unlink].
Qed.

(** The state while a transaction and its dependents are removed: [P] are the transactions that were removed from the graph [E]. A
    dependent that is not removed yet still has its removed dependencies. *)
Record removing (E : Hash → Hash → Prop) (P : gset Hash) (self : TransactionDependencies) : Prop := {
  removing_dependents : ∀ t d, edge self t d ↔ E t d ∧ t ∉ P ∧ d ∉ P;
  removing_dependencies : ∀ t d, t ∈ direct_dependencies self d ↔ E t d ∧ d ∉ P;
  removing_dependencies_no_empty : no_empty (dependencies self);
  removing_dependents_no_empty : no_empty (dependents self);
}.

Lemma removing_start self : deps_ok self → removing (edge self) ∅ self.
Proof.
  intros [Hd H1 H2]. split; [| |done..]; intros t d.
  - rewrite !elem_of_empty. naive_solver.
  - rewrite elem_of_empty, <- Hd. naive_solver.
Qed.

Lemma removing_end E P self : removing E P self → (∀ t d, t ∈ P → E t d → d ∈ P) →
  deps_ok self ∧ ∀ t d, edge self t d ↔ E t d ∧ t ∉ P ∧ d ∉ P.
Proof. intros [Ha Hb H1 H2] Hc. split; [|done]. split; [|done..]. intros t d. rewrite Ha, Hb. naive_solver. Qed.

Lemma remove_dependent_spec E P self x self' ds : removing E P self → remove_dependent self x = (self', ds) →
  removing E ({[x]} ∪ P) self' ∧ (∀ d, d ∈ ds ↔ E x d ∧ x ∉ P ∧ d ∉ ({[x]} ∪ P)) ∧
  dom (dependents self') ⊆ dom (dependents self) ∧ (ds ≠ ∅ → dom (dependents self') ⊂ dom (dependents self)).
Proof.
  intros [Ha Hb H1 H2] [= <- <-]. unfold edge, direct_dependents, direct_dependencies in *.
  destruct (unlink_all x (set_order (related (dependencies self) x)) _ H2) as [Hu Hne].
  pose proof (dom_unlink_all x (set_order (related (dependencies self) x)) (dependents self)) as Hdom.
  set (m := foldl (unlink x) _ _) in *. clearbody m.
  assert (Hr : ∀ t d, d ∈ related m t ↔ E t d ∧ t ∉ P ∧ d ∉ ({[x]} ∪ P)).
  { intros t d. rewrite Hu, elem_of_set_order, Ha, Hb, not_elem_of_union, not_elem_of_singleton.
    destruct (decide (d = x)) as [->|]; naive_solver. }
  split_and!.
  - split; [| |by apply map_Forall_delete..]; intros t d; unfold edge, direct_dependents, direct_dependencies; cbn [dependents dependencies];
      rewrite related_delete, not_elem_of_union, not_elem_of_singleton.
    + destruct (decide (t = x)) as [->|Hn]; [rewrite elem_of_empty; naive_solver|]. rewrite Hr, not_elem_of_union, not_elem_of_singleton. naive_solver.
    + destruct (decide (d = x)) as [->|Hn]; [rewrite elem_of_empty; naive_solver|]. rewrite Hb. naive_solver.
  - intros d. apply Hr.
  - cbn. rewrite dom_delete. set_solver.
  - intros Hds. cbn. rewrite dom_delete. assert (x ∈ dom m).
    { unfold related in Hds. apply elem_of_dom. destruct (m !! x); [done|]. by destruct Hds. }
    set_solver.
Qed.

Lemma remove_level_spec E P self n0 l self' n1 : removing E P self →
  foldl (λ '(self, next) dependent, let '(self, ds) := remove_dependent self dependent in (self, next ∪ ds)) (self, n0) l = (self', n1) →
  removing E (list_to_set l ∪ P) self' ∧ n0 ⊆ n1 ∧ (∀ d, d ∈ n1 → d ∈ n0 ∨ ∃ x, x ∈ l ∧ E x d ∧ d ∉ ({[x]} ∪ P)) ∧
  (∀ x d, x ∈ l → x ∉ P → E x d → d ∈ n1 ∪ list_to_set l ∪ P) ∧
  dom (dependents self') ⊆ dom (dependents self) ∧ (¬ n1 ⊆ n0 → dom (dependents self') ⊂ dom (dependents self)).
Proof.
  revert P self n0. induction l as [|x l IH]; intros P self n0 Hr Hf; cbn [foldl] in Hf.
  - injection Hf as <- <-. cbn. rewrite union_empty_l_L. split_and!; [done|done|by left|set_solver|done|set_solver].
  - destruct (remove_dependent self x) as [self1 ds] eqn:Hx.
    destruct (remove_dependent_spec E P self x self1 ds Hr Hx) as (Hr1 & Hds & Hs & Hss).
    destruct (IH _ _ _ Hr1 Hf) as (Hr2 & Hn & Hin & Hout & Hs2 & Hss2). clear IH Hf Hr Hr1 Hx. split_and!.
    + cbn [list_to_set]. by replace ({[x]} ∪ list_to_set l ∪ P) with (list_to_set l ∪ ({[x]} ∪ P)) by (clear; set_solver).
    + clear -Hn. set_solver.
    + intros d [Hd|(y & Hy & He & Hd)]%Hin; [apply elem_of_union in Hd as [Hd|Hd]|].
      * by left.
      * right. exists x. apply Hds in Hd as (He & _ & Hd). split_and!; [by left|done|done].
      * right. exists y. split_and!; [by right|done|clear -Hd; set_solver].
    + assert (Hx : ∀ d, x ∉ P → E x d → d ∈ n1 ∪ ({[x]} ∪ list_to_set l) ∪ P).
      { intros d HxP He. destruct (decide (d ∈ ({[x]} ∪ P))) as [Hd|Hd]; [clear -Hd; set_solver|].
        assert (d ∈ ds) as Hd' by by apply Hds. clear -Hd' Hn. set_solver. }
      intros y d [->|Hy]%elem_of_cons HyP He; cbn [list_to_set]; [by apply Hx|].
      destruct (decide (y = x)) as [->|Hyx]; [by apply Hx|].
      assert (d ∈ n1 ∪ list_to_set l ∪ ({[x]} ∪ P)) as Hd by (apply (Hout y); [done|clear -HyP Hyx; set_solver|done]). clear -Hd. set_solver.
    + by etrans.
    + intros Hn1. destruct (decide (ds = ∅)) as [->|Hne].
      * assert (¬ n1 ⊆ n0 ∪ ∅) as Hx1 by (clear -Hn1; set_solver). specialize (Hss2 Hx1). clear -Hss2 Hs. set_solver.
      * specialize (Hss Hne). clear -Hss Hs2. set_solver.
Qed.

(** The transaction and what depends on it, directly or indirectly. *)
Definition affected (self : TransactionDependencies) (t : Hash) : Hash → Prop := rtc (edge self) t.

Lemma rtc_closed (E : Hash → Hash → Prop) (P : gset Hash) t x : (∀ x d, x ∈ P → E x d → d ∈ P) → t ∈ P → rtc E t x → x ∈ P.
Proof. intros Hc Ht Hx. induction Hx; eauto. Qed.

Lemma removed_all E P self all t : removing E P self → t ∈ P → t ∉ all → P ⊆ {[t]} ∪ all → (∀ x, x ∈ all → rtc E t x) →
  (∀ x d, x ∈ P → E x d → d ∈ P) →
  deps_ok self ∧ (∀ x, x ∈ all ↔ rtc E t x ∧ x ≠ t) ∧ ∀ x d, edge self x d ↔ E x d ∧ x ∉ ({[t]} ∪ all) ∧ d ∉ ({[t]} ∪ all).
Proof.
  intros Hr HtP Hta HP Hall Hc. assert (Hreach : ∀ x, rtc E t x → x ∈ P) by (intros x; by apply rtc_closed).
  assert (HPe : P = {[t]} ∪ all).
  { apply set_eq. intros x. split; [apply HP|]. intros [->%elem_of_singleton|Hx]%elem_of_union; [done|by apply Hreach, Hall]. }
  destruct (removing_end E P self Hr Hc) as [Hok He]. rewrite <- HPe. split_and!; [done| |done]. intros x. split.
  - intros Hx. split; [by apply Hall|by intros ->].
  - intros [Hx Hxt]. apply Hreach in Hx. clear -Hx HP Hxt. set_solver.
Qed.

Lemma remove_levels_spec (E : Hash → Hash → Prop) t fuel : ∀ P self all level, removing E P self →
  (t ∈ P ∧ t ∉ all ∨ P = ∅ ∧ all = ∅ ∧ level = {[t]}) → level ⊆ {[t]} ∪ all → P ⊆ {[t]} ∪ all → (∀ x, x ∈ all → rtc E t x) →
  (∀ x d, x ∈ P → E x d → d ∈ level ∪ P) → level = ∅ ∨ (size (dependents self) < fuel)%nat →
  ∃ self' all', remove_levels fuel self all level = Ok (self', all') ∧ deps_ok self' ∧
    (∀ x, x ∈ all' ↔ rtc E t x ∧ x ≠ t) ∧ ∀ x d, edge self' x d ↔ E x d ∧ x ∉ ({[t]} ∪ all') ∧ d ∉ ({[t]} ∪ all').
Proof.
  induction fuel as [|fuel IH]; intros P self all level Hr Ht Hl HP Hall Hc Hf; cbn [remove_levels].
  all: destruct (decide (level = ∅)) as [->|Hne].
  1, 3: exists self, all; split; [done|]; destruct Ht as [[HtP Hta]|(_ & _ & Hl')]; [|clear -Hl'; set_solver];
        apply (removed_all E P); [done..|]; intros x d Hx Hxd; specialize (Hc _ _ Hx Hxd); clear -Hc; set_solver.
  { destruct Hf; [done|lia]. }
  unfold remove_level. destruct (foldl _ _ _) as [self1 next] eqn:Hfold.
  apply (remove_level_spec E P) in Hfold as (Hr1 & _ & Hin & Hout & Hs & Hss); [|done].
  assert (Hle : list_to_set (set_order level) = level) by (apply set_eq; intros x; by rewrite elem_of_list_to_set, elem_of_set_order).
  rewrite Hle in Hr1, Hout. apply (IH (level ∪ P)).
  - done.
  - left. destruct Ht as [[HtP Hta]|(-> & -> & ->)].
    + split; [clear -HtP; set_solver|]. intros [?|Hn]%elem_of_union; [done|].
      apply Hin in Hn as [?|(x & _ & _ & Hn)]; [set_solver|]. clear -Hn HtP. set_solver.
    + split; [clear; set_solver|]. intros [?|Hn]%elem_of_union; [set_solver|].
      apply Hin in Hn as [?|(x & Hx & _ & Hn)]; [set_solver|]. apply elem_of_set_order in Hx. clear -Hn Hx. set_solver.
  - clear. set_solver.
  - clear -Hl HP. set_solver.
  - intros d [Hd|Hd]%elem_of_union; [by apply Hall|]. apply Hin in Hd as [?|(x & Hx & Hxd & _)]; [set_solver|].
    apply elem_of_set_order in Hx. eapply rtc_r; [|exact Hxd].
    apply Hl, elem_of_union in Hx as [->%elem_of_singleton|Hx]; [done|by apply Hall].
  - intros x d Hx Hxd. destruct (decide (x ∈ P)) as [HxP|HxP].
    + specialize (Hc _ _ HxP Hxd). clear -Hc. set_solver.
    + assert (Hxl : x ∈ set_order level) by (apply elem_of_set_order; clear -Hx HxP; set_solver).
      specialize (Hout _ _ Hxl HxP Hxd). clear -Hout. set_solver.
  - destruct (decide (next = ∅)); [by left|]. right. assert (Hn : ¬ next ⊆ ∅) by set_solver.
    specialize (Hss Hn). apply subset_size in Hss. rewrite !size_dom in Hss. destruct Hf; [done|lia].
Qed.

(** Removing a transaction ends, and removes exactly the transaction and what depends on it, with their edges. *)
Lemma remove_all_spec self t : deps_ok self → ∃ self' all, remove_all self t = Ok (self', all) ∧ deps_ok self' ∧
  (∀ x, x ∈ all ↔ affected self t x ∧ x ≠ t) ∧ ∀ x d, edge self' x d ↔ edge self x d ∧ ¬ affected self t x ∧ ¬ affected self t d.
Proof.
  intros H. destruct (remove_levels_spec (edge self) t (2 + size (dependents self)) ∅ self ∅ {[t]}) as (self' & all & Hr & Hok & Ha & He);
    [by apply removing_start|by right|set_solver..|right; lia|].
  exists self', all. split_and!; [done|done|done|]. assert (Hin : ∀ x, x ∈ ({[t]} ∪ all) ↔ affected self t x).
  { intros x. rewrite elem_of_union, elem_of_singleton, Ha. destruct (decide (x = t)) as [->|]; [|naive_solver]. split; [intros _; apply rtc_refl|by left]. }
  intros x d. rewrite He, !Hin. done.
Qed.

(** C25: removing a transaction from the dependency graph ends, even if the graph has cycles: one round more than there are transactions with
    dependents is enough. Whatever the order of the hash sets, the returned dependents are exactly the transactions that depend on it directly or
    indirectly; the edges that remain are those between the other transactions; and the two maps of the graph still agree. *)
Theorem remove_all_exact self t (Hok : deps_ok self) : ∃ self' all, remove_all self t = Ok (self', all) ∧
  (∀ x, x ∈ all ↔ affected self t x ∧ x ≠ t) ∧
  (∀ x d, d ∈ direct_dependents self' x ↔ d ∈ direct_dependents self x ∧ ¬ affected self t x ∧ ¬ affected self t d) ∧
  ∀ x d, d ∈ direct_dependents self' x ↔ x ∈ direct_dependencies self' d.
Proof.
  destruct (remove_all_spec self t Hok) as (self' & all & Hr & Hok' & Ha & He). exists self', all. split_and!; [done|done|exact He|apply Hok'].
Qed.

End Deps.

(** A graph in which [[2]] and [[3]] depend on [[1]], and [[3]] on [[2]]. *)
Definition graph_order : HashOrder := {| set_order _ _ _ s := elements s; map_order _ _ _ _ m := map_to_list m |}.
Lemma graph_order_laws : @HashOrderLaws graph_order.
Proof. done. Qed.
Definition sample_graph : TransactionDependencies :=
  deps_add (deps_add deps_new [2] [mkOutPoint [1] 0]) [3] [mkOutPoint [1] 1; mkOutPoint [2] 0].
Lemma sample_graph_ok : deps_ok sample_graph.
Proof.
  refine (proj1 (deps_add_ok (HO := graph_order) (HL := graph_order_laws) _ [3] _
    (proj1 (deps_add_ok (HO := graph_order) (HL := graph_order_laws) deps_new [2] _ deps_new_ok _)) _)); apply (proj1 (bool_decide_eq_true _)); vm_compute; reflexivity.
Qed.

Lemma remove_all_exact_witness : ∃ self' all, remove_all (HO := graph_order) sample_graph [1] = Ok (self', all) ∧ [3] ∉ direct_dependents self' [1].
Proof.
  destruct (remove_all_exact (HO := graph_order) (HL := graph_order_laws) sample_graph [1] sample_graph_ok) as (self' & all & Hr & _ & He & _).
  exists self', all. split; [exact Hr|]. intros (_ & Hn & _)%He. apply Hn. constructor.
Defined.
