(* ===== verification/EvictionList.v ===== *)
(** * The list of recently evicted transactions

    [zebrad/src/components/mempool/storage/eviction_list.rs]: transaction ids with the time at which they were evicted, in
    the order of insertion, of limited size and age (ZIP 401). [Instant::now] is an argument of the operations: the clock
    is read once in an operation, and does not go back. *)

From S2P Require Import Prelude Transaction.

Record EvictionList := mkEvicted {
  unique_entries : gmap Hash Z;
  ordered_entries : list Hash;
  max_size : Z;
  eviction_memory_time : Z;
}.

Definition eviction_new (max_size eviction_memory_time : Z) : EvictionList := mkEvicted ∅ [] max_size eviction_memory_time.

(** [has_expired]; the difference of instants is not negative. *)
Definition has_expired (self : EvictionList) (now evicted_at : Z) : bool := eviction_memory_time self <? Z.max 0 (now - evicted_at).

Definition contains_key (self : EvictionList) (now : Z) (txid : Hash) : bool :=
  match unique_entries self !! txid with Some evicted_at => negb (has_expired self now evicted_at) | None => false end.

Definition pop_front (self : EvictionList) : Run (option Hash * EvictionList) :=
  match ordered_entries self with
  | [] => Ok (None, self)
  | key :: rest =>
      _ ← assert (bool_decide (is_Some (unique_entries self !! key)));
      Ok (Some key, mkEvicted (delete key (unique_entries self)) rest (max_size self) (eviction_memory_time self))
  end.

(** The loop of [prune_old]: each round removes an entry. *)
Fixpoint prune_loop (fuel : nat) (now : Z) (self : EvictionList) : Run EvictionList :=
  match head (ordered_entries self) with
  | None => Ok self
  | Some txid =>
      evicted_at ← expect (unique_entries self !! txid);
      if has_expired self now evicted_at then
        '(_, self) ← pop_front self;
        match fuel with O => Panic | S fuel => prune_loop fuel now self end
      else Ok self
  end.
Definition prune_old (self : EvictionList) (now : Z) : Run EvictionList := prune_loop (length (ordered_entries self)) now self.

(** [len]. *)
Definition eviction_len (self : EvictionList) (now : Z) : Run (Z * EvictionList) :=
  self ← prune_old self now; Ok (Z.of_nat (size (unique_entries self)), self).

(** [EvictionList::insert]. *)
Definition eviction_insert (self : EvictionList) (now : Z) (key : Hash) : Run EvictionList :=
  self ← prune_old self now;
  '(len, self) ← eviction_len self now;
  self ← (if max_size self <=? len then '(_, self) ← pop_front self; Ok self else Ok self);
  _ ← assert (bool_decide (unique_entries self !! key = None));
  Ok (mkEvicted (<[key := now]> (unique_entries self)) (ordered_entries self ++ [key]) (max_size self) (eviction_memory_time self)).

(** [clear]. *)
Definition eviction_clear (self : EvictionList) : EvictionList := mkEvicted ∅ [] (max_size self) (eviction_memory_time self).

(** ** The entries in their order *)

(** The list holds the entries [l], in the order of their times, the last one not after [now]. *)
Record evicted (self : EvictionList) (now : Z) (l : list (Hash * Z)) : Prop := {
  evicted_ordered : ordered_entries self = l.*1;
  evicted_unique : unique_entries self = list_to_map l;
  evicted_distinct : NoDup l.*1;
  evicted_times : StronglySorted Z.le (l.*2 ++ [now]);
  evicted_size : Z.of_nat (length l) ≤ max_size self;
}.

(** The entries that have not expired. *)
Definition live (self : EvictionList) (now : Z) (l : list (Hash * Z)) : list (Hash * Z) :=
  filter (λ e, has_expired self now e.2 = false) l.

Definition same_limits (self self' : EvictionList) : Prop :=
  max_size self' = max_size self ∧ eviction_memory_time self' = eviction_memory_time self.

Lemma has_expired_mono self now now' t t' : now ≤ now' → t' ≤ t → has_expired self now t = true → has_expired self now' t' = true.
Proof. unfold has_expired. rewrite !Z.ltb_lt. lia. Qed.

Lemma evicted_later self now now' l : now ≤ now' → evicted self now l → evicted self now' l.
Proof.
  intros Hn [H1 H2 H3 H4 H5]. split; try done. revert H4. generalize (l.*2). clear -Hn. induction l as [|t l IH]; cbn; intros H; [by repeat constructor|].
  apply StronglySorted_inv in H as [Hs Hf]. constructor; [by apply IH|]. apply Forall_app in Hf as [Hf Ht]. apply Forall_app. split; [done|].
  rewrite Forall_singleton in *. lia.
Qed.

Lemma evicted_new now max memory : 0 ≤ max → evicted (eviction_new max memory) now [].
Proof. intros H. split; try done; [constructor|cbn; by repeat constructor]. Qed.

Lemma pop_front_spec self now k t l : evicted self now ((k, t) :: l) →
  ∃ self', pop_front self = Ok (Some k, self') ∧ evicted self' now l ∧ same_limits self self'.
Proof.
  intros [Ho Hu Hd Ht Hs]. unfold pop_front. rewrite Ho. cbn [fmap list_fmap fst]. rewrite Hu. cbn [list_to_map foldr fst snd uncurry].
  rewrite bool_decide_true by (rewrite lookup_insert; by destruct (decide _)). cbn [assert]. rewrite Ok_bind. eexists. split; [reflexivity|].
  apply NoDup_cons in Hd as [Hk Hd]. apply StronglySorted_inv in Ht as [Ht _]. cbn in Hs. split; [|done]. split; cbn; try done.
  - rewrite delete_insert_id; [done|]. by apply not_elem_of_list_to_map_1.
  - lia.
Qed.

Lemma sorted_app_le (l : list Z) x y : StronglySorted Z.le (l ++ [y]) → x ∈ l → x ≤ y.
Proof.
  induction l as [|a l IH]; cbn; intros Hs Hx; [by apply elem_of_nil in Hx|]. apply StronglySorted_inv in Hs as [Hs Hf].
  apply elem_of_cons in Hx as [->|Hx]; [|by apply IH]. apply Forall_app in Hf as [_ Hf]. by rewrite Forall_singleton in Hf.
Qed.

(** When the oldest entry has not expired, no entry has. *)
Lemma live_all self now l k t : evicted self now ((k, t) :: l) → has_expired self now t = false → live self now ((k, t) :: l) = (k, t) :: l.
Proof.
  intros [_ _ _ Ht _] He. apply filter_all. cbn in Ht. apply StronglySorted_inv in Ht as [_ Hf]. apply Forall_app in Hf as [Hf _].
  intros [k' t'] [[= -> ->]|Hin]%elem_of_cons; [done|]. cbn.
  destruct (has_expired self now t') eqn:He'; [|done]. rewrite (has_expired_mono self now now t' t) in He; [done|lia| |done].
  rewrite Forall_forall in Hf. apply Hf. apply list_elem_of_fmap. by exists (k', t').
Qed.

Lemma prune_spec fuel self now l : (length l ≤ fuel)%nat → evicted self now l →
  ∃ self', prune_loop fuel now self = Ok self' ∧ evicted self' now (live self now l) ∧ same_limits self self'.
Proof.
  revert fuel self. induction l as [|[k t] l IH]; intros fuel self Hfuel H; destruct fuel as [|fuel]; cbn [length] in Hfuel; try lia.
  1, 2: exists self; cbn [prune_loop]; by rewrite (evicted_ordered _ _ _ H).
  cbn [prune_loop]. rewrite (evicted_ordered _ _ _ H). cbn [fmap list_fmap fst head].
  rewrite (evicted_unique _ _ _ H). cbn [list_to_map foldr fst snd uncurry]. rewrite lookup_insert, decide_True by done. cbn [expect]. rewrite Ok_bind.
  destruct (has_expired self now t) eqn:He.
  - destruct (pop_front_spec self now k t l H) as (self1 & -> & H1 & Hl1). rewrite Ok_bind.
    destruct (IH fuel self1) as (self2 & -> & H2 & Hl2); [lia|done|]. exists self2. split; [done|]. destruct Hl1 as [Hm1 Ht1], Hl2 as [Hm2 Ht2].
    assert (Heq : live self1 now l = live self now l) by (unfold live, has_expired; by rewrite Ht1).
    unfold live. rewrite filter_cons_False by (cbn; by rewrite He). fold (live self now l). rewrite <- Heq. split; [done|]. unfold same_limits. by rewrite Hm2, Ht2.
  - exists self. split; [done|]. by rewrite (live_all self now l k t).
Qed.

Lemma prune_old_spec self now l : evicted self now l →
  ∃ self', prune_old self now = Ok self' ∧ evicted self' now (live self now l) ∧ same_limits self self'.
Proof. intros H. apply prune_spec; [|done]. rewrite (evicted_ordered _ _ _ H). by rewrite length_fmap. Qed.

Lemma live_live self self' now l : same_limits self self' → live self' now (live self now l) = live self now l.
Proof.
  intros [_ Ht]. unfold live at 1. apply filter_all. intros e He. apply list_elem_of_filter in He as [He _].
  unfold has_expired in *. by rewrite Ht.
Qed.

Lemma eviction_len_spec self now l : evicted self now l →
  ∃ self', eviction_len self now = Ok (Z.of_nat (length (live self now l)), self') ∧ evicted self' now (live self now l) ∧ same_limits self self'.
Proof.
  intros H. destruct (prune_old_spec self now l H) as (self' & Hp & H' & Hl). exists self'. split; [|done]. unfold eviction_len. rewrite Hp, Ok_bind.
  rewrite (evicted_unique _ _ _ H'). do 3 f_equal. rewrite <- size_dom, dom_list_to_map_L, size_list_to_set by apply (evicted_distinct _ _ _ H').
  by rewrite length_fmap.
Qed.

Lemma contains_key_spec self now l h : evicted self now l → contains_key self now h = true ↔ h ∈ (live self now l).*1.
Proof.
  intros H. unfold contains_key. rewrite (evicted_unique _ _ _ H), list_elem_of_fmap. destruct ((list_to_map l : gmap Hash Z) !! h) as [t|] eqn:Hh.
  - apply elem_of_list_to_map in Hh; [|apply (evicted_distinct _ _ _ H)]. rewrite negb_true_iff. split.
    + intros He. exists (h, t). split; [done|]. by apply list_elem_of_filter.
    + intros ([h' t'] & -> & [He Hin]%list_elem_of_filter). cbn in *.
      apply elem_of_list_to_map in Hh, Hin; try apply (evicted_distinct _ _ _ H). rewrite Hh in Hin. by simplify_eq.
  - split; [done|]. intros ([h' t'] & -> & [_ Hin]%list_elem_of_filter). apply not_elem_of_list_to_map in Hh. destruct Hh.
    apply list_elem_of_fmap. by exists (h', t').
Qed.

Lemma sorted_twice (l : list Z) x : StronglySorted Z.le (l ++ [x]) → StronglySorted Z.le ((l ++ [x]) ++ [x]).
Proof.
  induction l as [|a l IH]; cbn; intros Hs; [by repeat constructor|]. apply StronglySorted_inv in Hs as [Hs Hf]. constructor; [by apply IH|].
  apply Forall_app. split; [done|]. by apply Forall_app in Hf as [_ Hf].
Qed.

(** The entries that an insertion keeps: those that have not expired, without the oldest one when the list is full. *)
Definition kept (self : EvictionList) (now : Z) (l : list (Hash * Z)) : list (Hash * Z) :=
  let l := live self now l in if max_size self <=? Z.of_nat (length l) then tail l else l.

Lemma make_room self now l : evicted self now l → 1 ≤ max_size self →
  ∃ self', (if max_size self <=? Z.of_nat (length l) then '(_, self) ← pop_front self; Ok self else Ok self) = (Ok self' : Run EvictionList) ∧
    evicted self' now (if max_size self <=? Z.of_nat (length l) then tail l else l) ∧ same_limits self self' ∧
    Z.of_nat (length (if max_size self <=? Z.of_nat (length l) then tail l else l)) < max_size self.
Proof.
  intros H Hm. destruct (Z.leb_spec (max_size self) (Z.of_nat (length l))) as [Hf|Hf]; [|by exists self].
  destruct l as [|[k t] l]; [cbn in Hf; lia|]. destruct (pop_front_spec self now k t l H) as (self' & -> & H' & Hl'). exists self'.
  rewrite Ok_bind. split_and!; [done|done|done|]. pose proof (evicted_size _ _ _ H) as Hs. cbn in *. lia.
Qed.

(** An insertion panics when the list keeps an entry of the transaction, and adds the entry after the kept ones otherwise. *)
Lemma eviction_insert_spec self now l key : evicted self now l → 1 ≤ max_size self →
  if decide (key ∈ (kept self now l).*1) then eviction_insert self now key = Panic
  else ∃ self', eviction_insert self now key = Ok self' ∧ evicted self' now (kept self now l ++ [(key, now)]) ∧ same_limits self self'.
Proof.
  intros H Hm. destruct (prune_old_spec self now l H) as (s1 & Hp & H1 & Hl1).
  destruct (eviction_len_spec s1 now _ H1) as (s2 & Hlen & H2 & Hl2). rewrite (live_live self s1 now l Hl1) in Hlen, H2.
  assert (Hl : same_limits self s2) by (destruct Hl1, Hl2; unfold same_limits; split; congruence). clear Hl1 Hl2 H1.
  destruct (make_room s2 now _ H2) as (s3 & Hr & H3 & Hl3 & Hlt); [destruct Hl; lia|]. destruct Hl as [Hmax Hmem]. rewrite Hmax in Hr, H3, Hlt. fold (kept self now l) in H3, Hlt.
  unfold eviction_insert. rewrite Hp, Ok_bind, Hlen, Ok_bind, Hmax, Hr, Ok_bind. rewrite (evicted_unique _ _ _ H3). clear Hp Hlen Hr.
  destruct Hl3 as [Hm3 Ht3]. destruct (decide (key ∈ (kept self now l).*1)) as [Hin|Hout].
  - rewrite bool_decide_false; [done|]. by intros Hnone%not_elem_of_list_to_map.
  - rewrite bool_decide_true by by apply not_elem_of_list_to_map_1. cbn [assert]. rewrite Ok_bind. eexists. split; [reflexivity|].
    destruct H3 as [Ho Hu Hd Hs Hsz]. split; [|by split; cbn; congruence]. split; cbn.
    + by rewrite Ho, fmap_app.
    + by rewrite list_to_map_snoc.
    + rewrite fmap_app. apply NoDup_app. split_and!; [done| |apply NoDup_singleton]. intros x Hx ->%list_elem_of_singleton. done.
    + rewrite fmap_app. by apply sorted_twice.
    + rewrite length_app. cbn. lia.
Qed.
