(* ===== verification/VerifiedSet.v ===== *)
(** * The verified transactions of the mempool

    [zebrad/src/components/mempool/storage/verified_set.rs]: the transactions with the indexes of their outputs, spends and nullifiers,
    and [pending_outputs.rs]: the requests that wait for an output. A pending request is the outpoint it waits for, and a
    response is a pair of an outpoint and an output. The metrics are left out. *)

From stdpp Require Import strings.
From S2P Require Import Prelude Height Amount Serialization Transaction Merkle TransparentCodec ShieldedCodec TransactionCodec Sighash Unmined Reversible MempoolDeps.

Inductive SameEffectsTipRejectionError := SpendConflict | MissingOutput.

(** ** Pending outputs *)

Abbreviation PendingOutputs := (gset OutPoint).
Abbreviation Responses := (list (OutPoint * Output)).

(** [queue] adds the request, [prune] keeps those with receivers. *)
Definition pending_queue (self : PendingOutputs) (outpoint : OutPoint) : PendingOutputs := {[outpoint]} ∪ self.
Definition pending_respond (self : PendingOutputs) (outpoint : OutPoint) (output : Output) : PendingOutputs * Responses :=
  if decide (outpoint ∈ self) then (self ∖ {[outpoint]}, [(outpoint, output)]) else (self, []).
Definition pending_prune (has_receivers : OutPoint → bool) (self : PendingOutputs) : PendingOutputs :=
  filter (λ o, has_receivers o = true) self.

(** ** The set *)

Record VerifiedSet := mkSet {
  set_transactions : gmap Hash VerifiedUnminedTx;
  set_dependencies : TransactionDependencies;
  created_outputs : gmap OutPoint Output;
  transactions_serialized_size : Z;
  set_total_cost : Z;
  set_spent_outpoints : gset OutPoint;
  set_sprout_nullifiers : gset Hash;
  set_sapling_nullifiers : gset Hash;
  set_orchard_nullifiers : gset Hash;
}.

(** [WeightedIndex::new] and [sample] of the [rand] library: an index, chosen with the given weights. *)
Class Sampler := { sample : list Z → option nat }.
Class SamplerLaws `{!Sampler} : Prop := {
  sample_index : ∀ weights, Forall (λ w, 0 ≤ w) weights → 0 < sum_Z weights < 2 ^ 64 → ∃ i, sample weights = Some i ∧ (i < length weights)%nat;
}.

Definition verified_tx (tx : VerifiedUnminedTx) : Transaction := unmined_transaction (verified_transaction tx).
Definition verified_id (tx : VerifiedUnminedTx) : UnminedTxId := unmined_tx_id (verified_transaction tx).
Definition tx_size (tx : VerifiedUnminedTx) : Z := unmined_size (verified_transaction tx).

Section Set_.
Context `{HO : !HashOrder}.

(** [clear], and the default. *)
Definition set_empty : VerifiedSet := mkSet ∅ deps_new ∅ 0 0 ∅ ∅ ∅ ∅.

Definition has_conflicts {A} `{Countable A} (set : gset A) (list : list A) : bool := existsb (λ item, bool_decide (item ∈ set)) list.

Definition has_spend_conflicts (self : VerifiedSet) (tx : Transaction) : bool :=
  has_conflicts (set_spent_outpoints self) (spent_outpoints tx) || has_conflicts (set_sprout_nullifiers self) (sprout_nullifiers tx) ||
  has_conflicts (set_sapling_nullifiers self) (sapling_nullifiers tx) || has_conflicts (set_orchard_nullifiers self) (orchard_nullifiers tx).

(** The loop of [insert] over the outputs of the transaction. *)
Definition insert_output {E} (tx_id : Hash) (st : gmap OutPoint Output * PendingOutputs * Responses) (o : nat * Output) :
    Res E (gmap OutPoint Output * PendingOutputs * Responses) :=
  outpoint ← outpoint_from_usize tx_id (Z.of_nat o.1);
  let '(pending_outputs, sent) := pending_respond st.1.2 outpoint o.2 in
  Ok (<[outpoint := o.2]> st.1.1, pending_outputs, st.2 ++ sent).

Definition with_time (self : VerifiedUnminedTx) (now : Z) (height : option Height) : VerifiedUnminedTx :=
  mkVerified (verified_transaction self) (verified_miner_fee self) (verified_legacy_sigop_count self) (verified_p2sh_sigop_count self)
    (verified_conventional_actions self) (verified_unpaid_actions self) (Some now) height (verified_spent_outputs self).

(** [VerifiedSet::insert]. *)
Definition set_insert_tx (self : VerifiedSet) (transaction : VerifiedUnminedTx) (spent_mempool_outpoints : list OutPoint)
    (pending_outputs : PendingOutputs) (now : Z) (height : option Height) :
    Res SameEffectsTipRejectionError (VerifiedSet * PendingOutputs * Responses) :=
  let tx := verified_tx transaction in
  if has_spend_conflicts self tx then Err SpendConflict else
  if existsb (λ o, bool_decide (created_outputs self !! o = None)) spent_mempool_outpoints then Err MissingOutput else
  let tx_id := mined_id (verified_id transaction) in
  let deps := deps_add (set_dependencies self) tx_id spent_mempool_outpoints in
  '(created, pending_outputs, sent) ← foldM (insert_output tx_id) (created_outputs self, pending_outputs, []) (imap pair (outputs tx));
  let transaction := with_time transaction now height in
  Ok (mkSet (<[tx_id := transaction]> (set_transactions self)) deps created
        (wrap U64 (transactions_serialized_size self + tx_size transaction)) (wrap U64 (set_total_cost self + cost transaction))
        (set_spent_outpoints self ∪ list_to_set (spent_outpoints tx)) (set_sprout_nullifiers self ∪ list_to_set (sprout_nullifiers tx))
        (set_sapling_nullifiers self ∪ list_to_set (sapling_nullifiers tx)) (set_orchard_nullifiers self ∪ list_to_set (orchard_nullifiers tx)),
      pending_outputs, sent).

Definition remove_from_set {A} `{Countable A} (set : gset A) (items : list A) : gset A := foldl (λ s x, s ∖ {[x]}) set items.

(** [remove_outputs]. *)
Definition remove_outputs (self : VerifiedSet) (unmined_tx : UnminedTx) : Run VerifiedSet :=
  let tx := unmined_transaction unmined_tx in
  created ← foldM (λ m index, outpoint ← outpoint_from_usize (mined_id (unmined_tx_id unmined_tx)) (Z.of_nat index); Ok (delete outpoint m))
    (created_outputs self) (seq 0 (length (outputs tx)));
  Ok (mkSet (set_transactions self) (set_dependencies self) created (transactions_serialized_size self) (set_total_cost self)
        (remove_from_set (set_spent_outpoints self) (spent_outpoints tx)) (remove_from_set (set_sprout_nullifiers self) (sprout_nullifiers tx))
        (remove_from_set (set_sapling_nullifiers self) (sapling_nullifiers tx)) (remove_from_set (set_orchard_nullifiers self) (orchard_nullifiers tx))).

(** The closure of [remove]: removes a transaction and its outputs, and skips an unknown key. *)
Definition remove_tx (st : VerifiedSet * list VerifiedUnminedTx) (key : Hash) : Run (VerifiedSet * list VerifiedUnminedTx) :=
  let '(self, removed) := st in
  match set_transactions self !! key with
  | None => Ok (self, removed)
  | Some tx =>
      let self := mkSet (delete key (set_transactions self)) (set_dependencies self) (created_outputs self)
        (wrap U64 (transactions_serialized_size self - tx_size tx)) (wrap U64 (set_total_cost self - cost tx))
        (set_spent_outpoints self) (set_sprout_nullifiers self) (set_sapling_nullifiers self) (set_orchard_nullifiers self) in
      self ← remove_outputs self (verified_transaction tx);
      Ok (self, removed ++ [tx])
  end.

Definition with_dependencies (self : VerifiedSet) (deps : TransactionDependencies) : VerifiedSet :=
  mkSet (set_transactions self) deps (created_outputs self) (transactions_serialized_size self) (set_total_cost self)
    (set_spent_outpoints self) (set_sprout_nullifiers self) (set_sapling_nullifiers self) (set_orchard_nullifiers self).

(** [VerifiedSet::remove]. *)
Definition set_remove (self : VerifiedSet) (key_to_remove : Hash) : Run (VerifiedSet * list VerifiedUnminedTx) :=
  '(deps, all) ← remove_all (set_dependencies self) key_to_remove;
  foldM remove_tx (with_dependencies self deps, []) (set_order all ++ [key_to_remove]).

Definition set_clear_mined (self : VerifiedSet) (mined_ids : gset Hash) : VerifiedSet :=
  with_dependencies self (clear_mined_dependencies (set_dependencies self) mined_ids).

(** The loop of [remove_all_that]. *)
Definition remove_key (st : VerifiedSet * gset UnminedTxId) (key_to_remove : Hash) : Run (VerifiedSet * gset UnminedTxId) :=
  if bool_decide (set_transactions st.1 !! key_to_remove = None) then Ok st else
  '(self, removed) ← set_remove st.1 key_to_remove;
  Ok (self, st.2 ∪ list_to_set (verified_id <$> removed)).
Definition remove_all_that (self : VerifiedSet) (predicate : VerifiedUnminedTx → bool) : Run (VerifiedSet * gset UnminedTxId) :=
  foldM remove_key (self, ∅) (fst <$> filter (λ e, predicate e.2 = true) (map_order (set_transactions self))).

Definition evict_one `{!Sampler} (self : VerifiedSet) : Run (VerifiedSet * option VerifiedUnminedTx) :=
  let entries := map_order (set_transactions self) in
  index ← expect (sample (eviction_weight ∘ snd <$> entries));
  key_to_remove ← expect (entries.*1 !! index);
  '(self, removed) ← set_remove self key_to_remove;
  Ok (self, last removed).

End Set_.

(** ** Sums over maps *)

Definition map_sum {V} (f : V → Z) (m : gmap Hash V) : Z := map_fold (λ _ v n, f v + n) 0 m.

Lemma map_sum_insert {V} (f : V → Z) m k v : m !! k = None → map_sum f (<[k := v]> m) = f v + map_sum f m.
Proof. intros H. unfold map_sum. rewrite map_fold_insert_L; [done|intros; lia|done]. Qed.
Lemma map_sum_delete {V} (f : V → Z) m k v : m !! k = Some v → map_sum f m = f v + map_sum f (delete k m).
Proof. intros H. unfold map_sum. rewrite (map_fold_delete_L _ _ k v m); [done|intros; lia|done]. Qed.
Lemma map_sum_list {V} (f : V → Z) m : map_sum f m = sum_Z (f ∘ snd <$> map_to_list m).
Proof.
  unfold map_sum. rewrite map_fold_foldr. induction (map_to_list m) as [|[k v] l IH]; [done|]. cbn in *. by rewrite IH.
Qed.
Lemma map_sum_order `{!HashOrder, !HashOrderLaws} {V} (f : V → Z) m : map_sum f m = sum_Z (f ∘ snd <$> map_order m).
Proof. rewrite map_sum_list. apply sum_Z_perm. by rewrite map_order_perm. Qed.
Lemma map_sum_le {V} (f g : V → Z) m : (∀ k v, m !! k = Some v → f v ≤ g v) → map_sum f m ≤ map_sum g m.
Proof.
  induction m as [|k v m Hk IH] using map_ind; intros H; [done|]. rewrite !map_sum_insert by done.
  pose proof (H k v ltac:(by simplify_map_eq)). assert (map_sum f m ≤ map_sum g m); [|lia]. apply IH. intros k' v' Hk'. apply (H k').
  rewrite lookup_insert_ne; [done|]. intros ->. by simplify_eq.
Qed.

Lemma map_sum_scale {V} (f : V → Z) n m : map_sum (λ v, n * f v) m = n * map_sum f m.
Proof. induction m as [|k v m Hk IH] using map_ind; [change (0 = n * 0); lia|]. rewrite !map_sum_insert by done. lia. Qed.

(** ** Items that the transactions of a map have once *)

Record tracks {A} `{Countable A} (items : Transaction → list A) (s : gset A) (T : gmap Hash VerifiedUnminedTx) : Prop := {
  tracks_elem : ∀ x, x ∈ s ↔ ∃ h tx, T !! h = Some tx ∧ x ∈ items (verified_tx tx);
  tracks_once : ∀ h h' tx tx' x, T !! h = Some tx → T !! h' = Some tx' → x ∈ items (verified_tx tx) → x ∈ items (verified_tx tx') → h = h';
}.

Lemma has_conflicts_false {A} `{Countable A} (s : gset A) l : has_conflicts s l = false ↔ ∀ x, x ∈ l → x ∉ s.
Proof.
  unfold has_conflicts. rewrite <- not_true_iff_false, existsb_exists. setoid_rewrite bool_decide_eq_true.
  setoid_rewrite <- list_elem_of_In. naive_solver.
Qed.

Lemma remove_from_set_spec {A} `{Countable A} (s : gset A) l : remove_from_set s l = s ∖ list_to_set l.
Proof. unfold remove_from_set. revert s. induction l as [|x l IH]; intros s; cbn; [set_solver|]. rewrite IH. set_solver. Qed.

Lemma tracks_empty {A} `{Countable A} (items : Transaction → list A) : tracks items ∅ ∅.
Proof. split; [|intros * Hx; by simplify_map_eq]. intros x. split; [set_solver|]. intros (h & tx & Hh & _). by simplify_map_eq. Qed.

Lemma tracks_insert {A} `{Countable A} (items : Transaction → list A) s T k tx : tracks items s T → T !! k = None →
  has_conflicts s (items (verified_tx tx)) = false → tracks items (s ∪ list_to_set (items (verified_tx tx))) (<[k := tx]> T).
Proof.
  intros [He Ho] Hk Hc. rewrite has_conflicts_false in Hc. split.
  - intros x. rewrite elem_of_union, elem_of_list_to_set, He. split.
    + intros [(h & t & Hh & Hx)|Hx]; [|exists k, tx; by simplify_map_eq]. exists h, t. split; [|done].
      rewrite lookup_insert_ne; [done|]. intros ->. by simplify_eq.
    + intros (h & t & Hh & Hx). apply lookup_insert_Some in Hh as [[-> ->]|[_ Hh]]; [by right|left; eauto].
  - intros h h' t t' x Hh Hh' Hx Hx'. apply lookup_insert_Some in Hh as [[-> ->]|[_ Hh]], Hh' as [[-> ->]|[_ Hh']]; [done| | |by eapply Ho].
    + exfalso. apply (Hc x Hx). apply He. eauto.
    + exfalso. apply (Hc x Hx'). apply He. eauto.
Qed.

Lemma tracks_delete {A} `{Countable A} (items : Transaction → list A) s T k tx : tracks items s T → T !! k = Some tx →
  tracks items (remove_from_set s (items (verified_tx tx))) (delete k T).
Proof.
  intros [He Ho] Hk. rewrite remove_from_set_spec. split.
  - intros x. rewrite elem_of_difference, elem_of_list_to_set, He. split.
    + intros [(h & t & Hh & Hx) Hn]. exists h, t. split; [|done]. rewrite lookup_delete_ne; [done|]. intros ->. by simplify_eq.
    + intros (h & t & Hh & Hx). apply lookup_delete_Some in Hh as [Hne Hh]. split; [eauto|]. intros Hx'. by destruct (Hne (Ho _ _ _ _ _ Hk Hh Hx' Hx)).
  - intros h h' t t' x [_ Hh]%lookup_delete_Some [_ Hh']%lookup_delete_Some. by apply Ho.
Qed.

(** ** Outputs of a transaction *)

(** The output of a transaction at an outpoint. *)
Definition own_output (id : Hash) (outs : list Output) (o : OutPoint) : option Output :=
  if bool_decide (outpoint_hash o = id) && (0 <=? outpoint_index o) then outs !! Z.to_nat (outpoint_index o) else None.

Definition outputs_fit (outs : list Output) : Prop := Z.of_nat (length outs) ≤ 2 ^ 32.

Lemma outpoint_from_usize_ok {E} id (i : nat) : Z.of_nat i < 2 ^ 32 → outpoint_from_usize (E := E) id (Z.of_nat i) = Ok (mkOutPoint id (Z.of_nat i)).
Proof. intros Hi. unfold outpoint_from_usize. by rewrite try_from_fits by int_lia. Qed.

Lemma own_output_at id outs i : own_output id outs (mkOutPoint id (Z.of_nat i)) = outs !! i.
Proof. unfold own_output. cbn. rewrite bool_decide_true by done. rewrite (proj2 (Z.leb_le _ _)) by lia. cbn. by rewrite Nat2Z.id. Qed.

Lemma own_output_Some id outs o out : own_output id outs o = Some out ↔ ∃ i, o = mkOutPoint id (Z.of_nat i) ∧ outs !! i = Some out.
Proof.
  split.
  - unfold own_output. destruct (bool_decide _) eqn:Hb; [|done]. destruct (Z.leb_spec 0 (outpoint_index o)); [|done]. cbn. intros Ho.
    exists (Z.to_nat (outpoint_index o)). split; [|done]. apply bool_decide_eq_true in Hb. destruct o as [h i]. cbn in *. subst. by rewrite Z2Nat.id.
  - intros (i & -> & Hi). by rewrite own_output_at.
Qed.

Lemma own_output_snoc id outs x o : own_output id (outs ++ [x]) o =
  if decide (o = mkOutPoint id (Z.of_nat (length outs))) then Some x else own_output id outs o.
Proof.
  destruct (decide _) as [->|Hn]; [rewrite own_output_at; by rewrite list_lookup_middle|].
  apply option_eq. intros out. rewrite !own_output_Some. split; intros (i & -> & Hi).
  - exists i. split; [done|]. apply lookup_app_Some in Hi as [Hi|[Hl Hi]]; [done|]. destruct (i - length outs)%nat as [|n] eqn:Hd; [|done].
    destruct Hn. do 2 f_equal. lia.
  - exists i. split; [done|]. by apply lookup_app_l_Some.
Qed.

(** The loop over the outputs adds each of them, and answers the requests that wait for one. *)
Lemma insert_outputs_spec {E} id outs c p : outputs_fit outs →
  ∃ c' p' sent, foldM (E := E) (insert_output id) (c, p, []) (imap pair outs) = Ok (c', p', sent) ∧
    (∀ o, c' !! o = match own_output id outs o with Some x => Some x | None => c !! o end) ∧
    (∀ o, o ∈ p' ↔ o ∈ p ∧ own_output id outs o = None) ∧
    (∀ o out, (o, out) ∈ sent ↔ o ∈ p ∧ own_output id outs o = Some out).
Proof.
  unfold outputs_fit. induction outs as [|x outs IH] using rev_ind; intros Hf.
  - exists c, p, []. split; [done|]. assert (Hn : ∀ o, own_output id [] o = None) by (intros o; unfold own_output; by destruct (_ && _)).
    split_and!; intros o; [by rewrite Hn|rewrite Hn; naive_solver|]. intros out. rewrite Hn. split; [by intros ?%elem_of_nil|by intros []].
  - rewrite length_app in Hf. cbn in Hf. destruct IH as (c1 & p1 & s1 & Hr & Hc & Hp & Hs); [lia|].
    rewrite imap_app, foldM_app, Hr, Ok_bind. cbn [imap foldM]. unfold insert_output at 1. cbn [fst snd]. rewrite Nat.add_0_r.
    rewrite outpoint_from_usize_ok, Ok_bind by lia. set (o0 := mkOutPoint id _).
    assert (Ho0 : own_output id outs o0 = None).
    { unfold o0. rewrite own_output_at. by apply lookup_ge_None. }
    assert (Hc' : ∀ o, <[o0 := x]> c1 !! o = match own_output id (outs ++ [x]) o with Some x => Some x | None => c !! o end).
    { intros o. rewrite own_output_snoc. fold o0. destruct (decide (o = o0)) as [->|]; [by simplify_map_eq|]. by rewrite lookup_insert_ne, Hc. }
    unfold pending_respond. destruct (decide (o0 ∈ p1)) as [Hin|Hin]; eexists _, _, _; (split; [reflexivity|split; [exact Hc'|split]]); clear Hc'.
    + intros o. rewrite own_output_snoc. fold o0. destruct (decide (o = o0)) as [->|]; [set_solver|]. rewrite <- Hp. set_solver.
    + intros o out. rewrite own_output_snoc, elem_of_app, Hs, list_elem_of_singleton. fold o0. apply Hp in Hin as [Hin _].
      destruct (decide (o = o0)) as [->|]; naive_solver.
    + intros o. rewrite own_output_snoc. fold o0. rewrite Hp in Hin. rewrite Hp. destruct (decide (o = o0)) as [->|]; naive_solver.
    + intros o out. rewrite own_output_snoc, app_nil_r, Hs. fold o0. rewrite Hp in Hin. destruct (decide (o = o0)) as [->|]; naive_solver.
Qed.

Lemma remove_outputs_loop {E} id n (c : gmap OutPoint Output) : Z.of_nat n ≤ 2 ^ 32 →
  ∃ c', foldM (E := E) (λ m index, outpoint ← outpoint_from_usize id (Z.of_nat index); Ok (delete outpoint m)) c (seq 0 n) = Ok c' ∧
    ∀ o x, c' !! o = Some x ↔ c !! o = Some x ∧ ∀ i, (i < n)%nat → o ≠ mkOutPoint id (Z.of_nat i).
Proof.
  induction n as [|n IH]; intros Hn; [exists c; split; [done|]; intros o x; split; [|by intros []]; split; [done|lia]|].
  destruct IH as (c1 & Hr & Hc); [lia|]. rewrite seq_S, foldM_app, Hr, Ok_bind. cbn [foldM plus]. rewrite outpoint_from_usize_ok by lia.
  eexists. split; [reflexivity|]. intros o x. rewrite lookup_delete_Some, Hc. split.
  - intros (Hne & Ho & Hi). split; [done|]. intros i Hi'. destruct (decide (i = n)) as [->|]; [done|]. apply Hi. lia.
  - intros [Ho Hi]. split_and!; [apply not_eq_sym, Hi; lia|done|]. intros i Hi'. apply Hi. lia.
Qed.

(** ** The invariant *)

Abbreviation Txs := (gmap Hash VerifiedUnminedTx).

(** A transaction that fits in a block. *)
Definition fits_block (tx : VerifiedUnminedTx) : Prop := outputs_fit (outputs (verified_tx tx)) ∧ 0 ≤ tx_size tx ≤ MAX_BLOCK_BYTES.

(** The transactions are stored under their ids. *)
Definition txs_ok (T : Txs) : Prop := map_Forall (λ h tx, mined_id (verified_id tx) = h ∧ fits_block tx) T.

(** The outputs that the transactions create. *)
Definition creates (T : Txs) (o : OutPoint) (out : Output) : Prop :=
  ∃ tx, T !! outpoint_hash o = Some tx ∧ own_output (outpoint_hash o) (outputs (verified_tx tx)) o = Some out.

Record indexed (self : VerifiedSet) : Prop := {
  indexed_txs : txs_ok (set_transactions self);
  indexed_outputs : ∀ o out, created_outputs self !! o = Some out ↔ creates (set_transactions self) o out;
  indexed_size : transactions_serialized_size self = wrap U64 (map_sum tx_size (set_transactions self));
  indexed_cost : set_total_cost self = wrap U64 (map_sum cost (set_transactions self));
  indexed_spends : tracks spent_outpoints (set_spent_outpoints self) (set_transactions self);
  indexed_sprout : tracks sprout_nullifiers (set_sprout_nullifiers self) (set_transactions self);
  indexed_sapling : tracks sapling_nullifiers (set_sapling_nullifiers self) (set_transactions self);
  indexed_orchard : tracks orchard_nullifiers (set_orchard_nullifiers self) (set_transactions self);
}.

(** The graph relates a transaction to the transactions of the set that spend its outputs. *)
Record graph_ok (T : Txs) (deps : TransactionDependencies) : Prop := {
  graph_deps : deps_ok deps;
  graph_edges : ∀ t d, edge deps t d → ∃ o out tx, outpoint_hash o = t ∧ creates T o out ∧ T !! d = Some tx ∧ o ∈ spent_outpoints (verified_tx tx);
}.

Record set_ok (self : VerifiedSet) : Prop := {
  set_indexed : indexed self;
  set_graph : graph_ok (set_transactions self) (set_dependencies self);
}.

Lemma wrap_add_l a b : wrap U64 (wrap U64 a + b) = wrap U64 (a + b).
Proof. unfold wrap. cbn. rewrite !Z.sub_0_r, !Z.add_0_r. apply Zplus_mod_idemp_l. Qed.
Lemma wrap_sub_l a b : wrap U64 (wrap U64 a - b) = wrap U64 (a - b).
Proof. unfold wrap. cbn. rewrite !Z.sub_0_r, !Z.add_0_r. apply Zminus_mod_idemp_l. Qed.

Section Ops.
Context `{HO : !HashOrder, HL : !HashOrderLaws}.

Lemma set_empty_ok : set_ok set_empty.
Proof.
  split; split; try done; cbn; try apply tracks_empty; try apply deps_new_ok.
  - intros o out. split; [by rewrite lookup_empty|]. intros (tx & Htx & _). by rewrite lookup_empty in Htx.
Qed.

(** Two transactions spend the same output, or reveal the same nullifier. *)
Definition conflict (t t' : Transaction) : Prop :=
  (∃ o, o ∈ spent_outpoints t ∧ o ∈ spent_outpoints t') ∨ (∃ n, n ∈ sprout_nullifiers t ∧ n ∈ sprout_nullifiers t') ∨
  (∃ n, n ∈ sapling_nullifiers t ∧ n ∈ sapling_nullifiers t') ∨ (∃ n, n ∈ orchard_nullifiers t ∧ n ∈ orchard_nullifiers t').
Definition conflicts (T : Txs) (t : Transaction) : Prop := ∃ h tx, T !! h = Some tx ∧ conflict (verified_tx tx) t.

Lemma tracks_conflict {A} `{Countable A} (items : Transaction → list A) s T t : tracks items s T →
  has_conflicts s (items t) = true ↔ ∃ h tx, T !! h = Some tx ∧ ∃ x, x ∈ items (verified_tx tx) ∧ x ∈ items t.
Proof.
  intros [He _]. unfold has_conflicts. rewrite existsb_exists. setoid_rewrite bool_decide_eq_true. setoid_rewrite <- list_elem_of_In.
  setoid_rewrite He. naive_solver.
Qed.

Lemma has_spend_conflicts_spec self t : indexed self → has_spend_conflicts self t = true ↔ conflicts (set_transactions self) t.
Proof.
  intros [_ _ _ _ H1 H2 H3 H4]. unfold has_spend_conflicts, conflicts, conflict. rewrite !orb_true_iff.
  rewrite (tracks_conflict spent_outpoints _ _ t H1), (tracks_conflict sprout_nullifiers _ _ t H2).
  rewrite (tracks_conflict sapling_nullifiers _ _ t H3), (tracks_conflict orchard_nullifiers _ _ t H4).
  split; [intros [[[H|H]|H]|H]|intros (h & tx & Hh & [H|[H|[H|H]]])]; naive_solver.
Qed.

Lemma no_spend_conflicts self t : has_spend_conflicts self t = false →
  has_conflicts (set_spent_outpoints self) (spent_outpoints t) = false ∧ has_conflicts (set_sprout_nullifiers self) (sprout_nullifiers t) = false ∧
  has_conflicts (set_sapling_nullifiers self) (sapling_nullifiers t) = false ∧ has_conflicts (set_orchard_nullifiers self) (orchard_nullifiers t) = false.
Proof. unfold has_spend_conflicts. rewrite !orb_false_iff. naive_solver. Qed.

Lemma creates_insert T k tx o out : T !! k = None →
  creates (<[k := tx]> T) o out ↔ match own_output k (outputs (verified_tx tx)) o with Some x => x = out | None => creates T o out end.
Proof.
  intros Hk. unfold creates. destruct (decide (outpoint_hash o = k)) as [<-|Hn].
  - destruct (own_output (outpoint_hash o) (outputs (verified_tx tx)) o) as [x|] eqn:Ho; [|]; split.
    + intros (tx' & Htx & Hx). simplify_map_eq. done.
    + intros ->. exists tx. by simplify_map_eq.
    + intros (tx' & Htx & Hx). simplify_map_eq.
    + intros (tx' & Htx & _). by simplify_eq.
  - assert (own_output k (outputs (verified_tx tx)) o = None) as ->.
    { unfold own_output. by rewrite bool_decide_false by done. }
    by setoid_rewrite (lookup_insert_ne T k (outpoint_hash o) tx (not_eq_sym Hn)).
Qed.

Lemma indexed_insert self id tx created : indexed self → set_transactions self !! id = None → mined_id (verified_id tx) = id →
  fits_block tx → has_spend_conflicts self (verified_tx tx) = false →
  (∀ o, created !! o = match own_output id (outputs (verified_tx tx)) o with Some x => Some x | None => created_outputs self !! o end) →
  ∀ deps, indexed (mkSet (<[id := tx]> (set_transactions self)) deps created
        (wrap U64 (transactions_serialized_size self + tx_size tx)) (wrap U64 (set_total_cost self + cost tx))
        (set_spent_outpoints self ∪ list_to_set (spent_outpoints (verified_tx tx)))
        (set_sprout_nullifiers self ∪ list_to_set (sprout_nullifiers (verified_tx tx)))
        (set_sapling_nullifiers self ∪ list_to_set (sapling_nullifiers (verified_tx tx)))
        (set_orchard_nullifiers self ∪ list_to_set (orchard_nullifiers (verified_tx tx)))).
Proof.
  intros [H1 H2 H3 H4 H5 H6 H7 H8] Hk Hid Hf (C1 & C2 & C3 & C4)%no_spend_conflicts Hc deps.
  split; cbn; try by apply tracks_insert.
  - by apply map_Forall_insert_2.
  - intros o out. rewrite Hc, creates_insert by done. destruct (own_output id _ o) as [x|]; [|apply H2]. split; [by intros [= ->]|by intros ->].
  - rewrite H3, wrap_add_l, map_sum_insert by done. f_equal. lia.
  - rewrite H4, wrap_add_l, map_sum_insert by done. f_equal. lia.
Qed.

Lemma graph_insert T deps id tx spent : graph_ok T deps → T !! id = None → (∀ o, o ∈ spent → o ∈ spent_outpoints (verified_tx tx)) →
  (∀ o, o ∈ spent → ∃ out, creates T o out) → graph_ok (<[id := tx]> T) (deps_add deps id spent) ∧
  ∀ t d, edge (deps_add deps id spent) t d ↔ edge deps t d ∨ (d = id ∧ t ∈ outpoint_hash <$> spent).
Proof.
  intros [Hd He] Hk Hs Hc. assert (Hmono : ∀ o out, creates T o out → creates (<[id := tx]> T) o out).
  { intros o out (tx' & Htx & Ho). exists tx'. split; [|done]. rewrite lookup_insert_ne; [done|]. intros ->. by simplify_eq. }
  destruct (deps_add_ok deps id spent Hd) as [Hd' He'].
  { apply set_eq. intros t. split; [|set_solver]. intros Ht. apply (deps_dual _ Hd) in Ht.
    destruct (He _ _ Ht) as (o & out & tx' & _ & _ & Htx & _). by simplify_eq. }
  split; [|done]. split; [done|]. intros t d [Hold|[-> Ht]]%He'.
  - destruct (He _ _ Hold) as (o & out & tx' & Ho & Hcr & Htx & Hin). exists o, out, tx'. split_and!; [done|by apply Hmono| |done].
    rewrite lookup_insert_ne; [done|]. intros ->. by simplify_eq.
  - apply list_elem_of_fmap in Ht as (o & -> & Ho). destruct (Hc o Ho) as (out & Hcr). exists o, out, tx.
    split_and!; [done|by apply Hmono|by simplify_map_eq|by apply Hs].
Qed.

(** A transaction that is not in the set is inserted unless it conflicts with the set, or an output it spends has left the set. The
    requests that wait for its outputs are answered. *)
Lemma set_insert_spec self tx spent pending now height (id := mined_id (verified_id tx)) : set_ok self → set_transactions self !! id = None →
  fits_block tx → (∀ o, o ∈ spent → o ∈ spent_outpoints (verified_tx tx)) →
  match set_insert_tx self tx spent pending now height with
  | Panic => False
  | Err SpendConflict => conflicts (set_transactions self) (verified_tx tx)
  | Err MissingOutput => ¬ conflicts (set_transactions self) (verified_tx tx) ∧ ∃ o, o ∈ spent ∧ ∀ out, ¬ creates (set_transactions self) o out
  | Ok (self', pending', sent) =>
      ¬ conflicts (set_transactions self) (verified_tx tx) ∧ set_ok self' ∧
      (∀ o, o ∈ spent → ∃ out, creates (set_transactions self) o out) ∧
      set_transactions self' = <[id := with_time tx now height]> (set_transactions self) ∧
      (∀ t d, edge (set_dependencies self') t d ↔ edge (set_dependencies self) t d ∨ (d = id ∧ t ∈ outpoint_hash <$> spent)) ∧
      (∀ o, o ∈ pending' ↔ o ∈ pending ∧ own_output id (outputs (verified_tx tx)) o = None) ∧
      (∀ o out, (o, out) ∈ sent ↔ o ∈ pending ∧ own_output id (outputs (verified_tx tx)) o = Some out)
  end.
Proof.
  intros [Hi Hg] Hk Hf Hs. unfold set_insert_tx. destruct (has_spend_conflicts self (verified_tx tx)) eqn:Hc; [by apply has_spend_conflicts_spec|].
  assert (Hn : ¬ conflicts (set_transactions self) (verified_tx tx)) by (rewrite <- has_spend_conflicts_spec by done; by rewrite Hc).
  destruct (existsb _ spent) eqn:Hm.
  - split; [done|]. apply existsb_exists in Hm as (o & Ho & Hb%bool_decide_eq_true). apply list_elem_of_In in Ho. exists o. split; [done|].
    intros out Hcr. apply (indexed_outputs _ Hi) in Hcr. by simplify_eq.
  - fold id. destruct (insert_outputs_spec (E := SameEffectsTipRejectionError) id (outputs (verified_tx tx)) (created_outputs self) pending (proj1 Hf))
      as (c' & p' & sent & -> & Hc' & Hp & Hsent). rewrite Ok_bind.
    assert (Hcr : ∀ o, o ∈ spent → ∃ out, creates (set_transactions self) o out).
    { intros o Ho. rewrite <- not_true_iff_false, existsb_exists in Hm.
      destruct (created_outputs self !! o) as [out|] eqn:Hout; [exists out; by apply (indexed_outputs _ Hi)|].
      destruct Hm. exists o. split; [by apply list_elem_of_In|by apply bool_decide_eq_true]. }
    destruct (graph_insert _ _ id (with_time tx now height) spent Hg Hk Hs Hcr) as [Hg' He']. split_and!; [done| |done|done|done|done|done].
    split; [|done]. by apply (indexed_insert self id (with_time tx now height)).
Qed.

Lemma creates_delete T k tx o out : txs_ok T → T !! k = Some tx →
  creates (delete k T) o out ↔ creates T o out ∧ ∀ i, (i < length (outputs (verified_tx tx)))%nat → o ≠ mkOutPoint k (Z.of_nat i).
Proof.
  intros Hok Hk. unfold creates. split.
  - intros (tx' & [Hne Htx]%lookup_delete_Some & Ho). split; [eauto|]. intros i _ ->. by destruct Hne.
  - intros [(tx' & Htx & Ho) Hi]. exists tx'. split; [|done]. apply lookup_delete_Some. split; [|done]. intros Hh. rewrite <- Hh in Htx, Ho. simplify_eq.
    apply own_output_Some in Ho as (i & Ho & Hout). apply lookup_lt_Some in Hout. by destruct (Hi i Hout).
Qed.

Lemma remove_tx_spec self removed key tx : indexed self → set_transactions self !! key = Some tx →
  ∃ self', remove_tx (self, removed) key = Ok (self', removed ++ [tx]) ∧ indexed self' ∧
    set_transactions self' = delete key (set_transactions self) ∧ set_dependencies self' = set_dependencies self.
Proof.
  intros [H1 H2 H3 H4 H5 H6 H7 H8] Hk. destruct (map_Forall_lookup_1 _ _ _ _ H1 Hk) as [Hid [Hf _]]. unfold remove_tx. rewrite Hk.
  unfold remove_outputs. cbn [created_outputs]. fold (verified_tx tx) (verified_id tx). rewrite Hid.
  destruct (remove_outputs_loop (E := Empty_set) key (length (outputs (verified_tx tx))) (created_outputs self) Hf) as (c' & -> & Hc).
  rewrite Ok_bind. cbn [set_transactions set_dependencies transactions_serialized_size set_total_cost set_spent_outpoints set_sprout_nullifiers
    set_sapling_nullifiers set_orchard_nullifiers]. rewrite Ok_bind. eexists. split; [reflexivity|]. split; [|done].
  split; cbn; try by apply tracks_delete.
  - by apply map_Forall_delete.
  - intros o out. rewrite Hc, H2. by rewrite (creates_delete _ _ _ _ _ H1 Hk).
  - rewrite H3, wrap_sub_l, (map_sum_delete tx_size _ key tx Hk). f_equal. lia.
  - rewrite H4, wrap_sub_l, (map_sum_delete cost _ key tx Hk). f_equal. lia.
Qed.

(** Removing the transactions of distinct keys. *)
Lemma remove_txs_spec keys : ∀ self removed, indexed self → NoDup keys →
  ∃ self' rest, foldM remove_tx (self, removed) keys = Ok (self', removed ++ rest) ∧ indexed self' ∧ set_dependencies self' = set_dependencies self ∧
    (∀ h tx, set_transactions self' !! h = Some tx ↔ set_transactions self !! h = Some tx ∧ h ∉ keys) ∧
    rest = omap (λ h, set_transactions self !! h) keys.
Proof.
  induction keys as [|k keys IH]; intros self removed Hi Hd.
  - exists self, []. rewrite app_nil_r. split_and!; [done|done|done| |done]. intros h tx. set_solver.
  - apply NoDup_cons in Hd as [Hk Hd]. cbn [foldM]. destruct (set_transactions self !! k) as [tx|] eqn:Htx.
    + destruct (remove_tx_spec self removed k tx Hi Htx) as (s1 & -> & Hi1 & HT1 & Hd1). rewrite Ok_bind.
      destruct (IH s1 (removed ++ [tx]) Hi1 Hd) as (s2 & rest & -> & Hi2 & Hd2 & HT2 & ->).
      exists s2, (tx :: omap (λ h, set_transactions self !! h) keys). split_and!; [|done|congruence| |by cbn; rewrite Htx].
      * rewrite <- app_assoc. cbn. do 4 f_equal. rewrite HT1. apply list_omap_ext. clear -Hk.
        induction keys as [|k' keys IH]; constructor; [rewrite lookup_delete_ne; [done|]; set_solver|apply IH; set_solver].
      * intros h t. rewrite HT2, HT1, lookup_delete_Some, not_elem_of_cons. naive_solver.
    + assert (remove_tx (self, removed) k = Ok (self, removed)) as -> by (unfold remove_tx; by rewrite Htx). rewrite Ok_bind.
      destruct (IH self removed Hi Hd) as (s2 & rest & -> & Hi2 & Hd2 & HT2 & ->). eexists s2, _. split_and!; [done|done|done| |].
      * intros h t. rewrite HT2, not_elem_of_cons. split; [|naive_solver]. intros [Ht Hn]. split_and!; [done| |done]. intros ->. by simplify_eq.
      * cbn. by rewrite Htx.
Qed.

Lemma graph_restrict T deps T' deps' (R : Hash → Prop) : graph_ok T deps → deps_ok deps' →
  (∀ x d, edge deps' x d → edge deps x d ∧ ¬ R x ∧ ¬ R d) → (∀ h tx, T !! h = Some tx → ¬ R h → T' !! h = Some tx) → graph_ok T' deps'.
Proof.
  intros [_ He] Hd' He' HT. split; [done|]. intros t d (Hold & Ht & Hd)%He'.
  destruct (He _ _ Hold) as (o & out & tx & Ho & (tx' & Htx' & Hout) & Htx & Hin). exists o, out, tx. split_and!; [done| |by apply HT|done].
  exists tx'. split; [|done]. apply HT; [done|]. by rewrite Ho.
Qed.

(** The transactions of the set without those of [A], with the graph restricted to them. *)
Definition without (self self' : VerifiedSet) (A : gset Hash) : Prop :=
  (∀ h tx, set_transactions self' !! h = Some tx ↔ set_transactions self !! h = Some tx ∧ h ∉ A) ∧
  (∀ x d, edge (set_dependencies self') x d ↔ edge (set_dependencies self) x d ∧ x ∉ A ∧ d ∉ A).

(** Removing a transaction removes it and what depends on it, and nothing else; the transaction itself is the last of the removed ones. *)
Lemma set_remove_spec self key : set_ok self →
  ∃ self' removed (A : gset Hash), set_remove self key = Ok (self', removed) ∧ (∀ h, h ∈ A ↔ affected (set_dependencies self) key h) ∧
    set_ok self' ∧ without self self' A ∧
    (∀ tx, tx ∈ removed ↔ ∃ h, set_transactions self !! h = Some tx ∧ h ∈ A) ∧
    (∀ tx, set_transactions self !! key = Some tx → last removed = Some tx).
Proof.
  intros [Hi Hg]. destruct (remove_all_spec _ key (graph_deps _ _ Hg)) as (deps' & all & Hr & Hd' & Hall & He').
  unfold set_remove. rewrite Hr, Ok_bind.
  assert (HA : ∀ h, h ∈ ({[key]} ∪ all) ↔ affected (set_dependencies self) key h).
  { intros h. rewrite elem_of_union, elem_of_singleton, Hall. destruct (decide (h = key)) as [->|]; [|naive_solver].
    split; [intros _; apply rtc_refl|by left]. }
  assert (Hkeys : ∀ h, h ∈ set_order all ++ [key] ↔ h ∈ ({[key]} ∪ all)).
  { intros h. rewrite elem_of_app, elem_of_set_order, list_elem_of_singleton. clear. set_solver. }
  destruct (remove_txs_spec (set_order all ++ [key]) (with_dependencies self deps') []) as (s' & rest & -> & Hi' & Hdeps & HT & ->).
  { by destruct Hi. }
  { apply NoDup_app. split_and!; [rewrite set_order_perm; apply NoDup_elements| |apply NoDup_singleton].
    intros h Hh ->%list_elem_of_singleton. apply elem_of_set_order, Hall in Hh as [_ Hh]. done. }
  cbn [set_transactions set_dependencies with_dependencies app] in *. setoid_rewrite Hkeys in HT. setoid_rewrite <- HA in He'.
  eexists s', _, _. split_and!; [done|exact HA| | | |].
  - split; [done|]. rewrite Hdeps. apply (graph_restrict (set_transactions self) (set_dependencies self) _ _ (.∈ {[key]} ∪ all)); [done|done| |].
    + intros x d Hxd. by apply He'.
    + intros h tx Hh Hn. by apply HT.
  - split; [done|]. by rewrite Hdeps.
  - intros tx. rewrite list_elem_of_omap. setoid_rewrite Hkeys. naive_solver.
  - intros tx Htx. rewrite omap_app. cbn. rewrite Htx. by rewrite last_snoc.
Qed.

(** ** Removing the transactions that satisfy a predicate *)

(** What depends on one of the transactions [l], directly or indirectly. *)
Definition reached (E : Hash → Hash → Prop) (l : list Hash) (h : Hash) : Prop := ∃ k, k ∈ l ∧ rtc E k h.

(** A path that does not end in a closed set stays outside of it. *)
Lemma path_outside (E : Hash → Hash → Prop) (R : gset Hash) k h : (∀ x d, x ∈ R → E x d → d ∈ R) →
  rtc E k h → h ∉ R → rtc (λ x d, E x d ∧ x ∉ R ∧ d ∉ R) k h.
Proof.
  intros Hc Hkh Hh. induction Hkh as [|k k' h Hkk' Hk'h IH]; [done|]. specialize (IH Hh).
  assert (k' ∉ R) by (intros Hk'; destruct Hh; by eapply (rtc_closed E R k')).
  eapply rtc_l; [|exact IH]. split_and!; [done| |done]. intros Hk. by specialize (Hc _ _ Hk Hkk').
Qed.

Lemma reached_closed E l (R : gset Hash) : (∀ h, h ∈ R ↔ reached E l h) → ∀ x d, x ∈ R → E x d → d ∈ R.
Proof. intros HR x d (k & Hk & Hx)%HR Hxd. apply HR. exists k. split; [done|]. by eapply rtc_r. Qed.

Lemma reached_snoc E l k h : reached E (l ++ [k]) h ↔ reached E l h ∨ rtc E k h.
Proof. unfold reached. setoid_rewrite elem_of_app. setoid_rewrite list_elem_of_singleton. naive_solver. Qed.

(** Removing one more transaction from the set without [R] removes what depends on it in the whole graph. *)
Lemma remove_more self self1 self2 (R A : gset Hash) l k : (∀ h, h ∈ R ↔ reached (edge (set_dependencies self)) l h) → without self self1 R →
  (∀ h, h ∈ A ↔ affected (set_dependencies self1) k h) → without self1 self2 A →
  without self self2 (R ∪ A) ∧ ∀ h, h ∈ R ∪ A ↔ reached (edge (set_dependencies self)) (l ++ [k]) h.
Proof.
  intros HR [HT1 HE1] HA [HT2 HE2]. split.
  - split; [intros h tx; rewrite HT2, HT1|intros x d; rewrite HE2, HE1]; set_solver.
  - intros h. rewrite reached_snoc, elem_of_union, HA, <- HR. unfold affected. split; (intros [?|Hp]; [by left|]).
    + right. eapply rtc_subrel; [|exact Hp]. intros x d [Hxd _]%HE1. done.
    + destruct (decide (h ∈ R)); [by left|]. right. eapply rtc_subrel; [|apply (path_outside _ R _ _ (reached_closed _ l R HR) Hp); done].
      intros x d Hxd. by apply HE1.
Qed.

Lemma remove_keys_spec (self : VerifiedSet) keys : ∀ l self1 (R : gset Hash) ids, set_ok self1 → without self self1 R →
  (∀ h, h ∈ R ↔ reached (edge (set_dependencies self)) l h) → (∀ k, k ∈ keys → is_Some (set_transactions self !! k)) →
  (∀ id, id ∈ ids ↔ ∃ h tx, set_transactions self !! h = Some tx ∧ h ∈ R ∧ verified_id tx = id) →
  ∃ self2 (R2 : gset Hash) ids2, foldM remove_key (self1, ids) keys = Ok (self2, ids2) ∧ set_ok self2 ∧ without self self2 R2 ∧
    (∀ h, h ∈ R2 ↔ reached (edge (set_dependencies self)) (l ++ keys) h) ∧
    (∀ id, id ∈ ids2 ↔ ∃ h tx, set_transactions self !! h = Some tx ∧ h ∈ R2 ∧ verified_id tx = id).
Proof.
  induction keys as [|k keys IH]; intros l self1 R ids Hok Hw HR Hk Hids.
  { exists self1, R, ids. rewrite app_nil_r. done. }
  cbn [foldM]. replace (l ++ k :: keys) with ((l ++ [k]) ++ keys) by by rewrite <- app_assoc.
  assert (Hk' : ∀ k, k ∈ keys → is_Some (set_transactions self !! k)) by (intros k' Hk'; apply Hk; by right).
  destruct (set_transactions self1 !! k) as [tx1|] eqn:Hn; cycle 1.
  - assert (remove_key (self1, ids) k = Ok (self1, ids)) as -> by (unfold remove_key; by rewrite bool_decide_true). rewrite Ok_bind.
    apply (IH (l ++ [k]) self1 R); try done. intros h. rewrite reached_snoc, <- HR. split; [intros ?; by left|]. intros [?|Hp]; [done|].
    destruct (Hk k) as [tx Htx]; [by left|]. destruct (decide (k ∈ R)) as [Hin|Hout].
    + eapply rtc_closed; [by eapply reached_closed|exact Hin|exact Hp].
    + assert (set_transactions self1 !! k = Some tx) by by apply (proj1 Hw). by simplify_eq.
  - destruct (set_remove_spec self1 k Hok) as (s2 & removed & A & Hr & HA & Hok2 & Hw2 & Hrem & _).
    assert (remove_key (self1, ids) k = Ok (s2, ids ∪ list_to_set (verified_id <$> removed))) as ->.
    { unfold remove_key. cbn [fst snd]. rewrite bool_decide_false by by rewrite Hn. by rewrite Hr. }
    rewrite Ok_bind.
    destruct (remove_more self self1 s2 R A l k HR Hw HA Hw2) as [Hw3 HR3]. apply (IH (l ++ [k]) s2 (R ∪ A)); try done.
    intros id. rewrite elem_of_union, Hids, elem_of_list_to_set, list_elem_of_fmap. setoid_rewrite elem_of_union. split.
    + intros [(h & tx & Hh & HhR & Hid)|(tx & -> & (h & Hh & HhA)%Hrem)]; [naive_solver|]. exists h, tx. apply (proj1 Hw) in Hh as [Hh _]. naive_solver.
    + intros (h & tx & Hh & Hin & <-). destruct (decide (h ∈ R)); [left; eauto|]. right. exists tx. split; [done|]. apply Hrem. exists h.
      split; [by apply (proj1 Hw)|naive_solver].
Qed.

(** [remove_all_that] removes exactly the transactions that satisfy the predicate and what depends on them, and returns their ids. *)
Lemma remove_all_that_spec self predicate : set_ok self →
  ∃ self' (R : gset Hash) ids, remove_all_that self predicate = Ok (self', ids) ∧ set_ok self' ∧ without self self' R ∧
    (∀ h, h ∈ R ↔ ∃ k tx, set_transactions self !! k = Some tx ∧ predicate tx = true ∧ affected (set_dependencies self) k h) ∧
    (∀ id, id ∈ ids ↔ ∃ h tx, set_transactions self !! h = Some tx ∧ h ∈ R ∧ verified_id tx = id).
Proof.
  intros Hok. unfold remove_all_that. set (keys := fst <$> _).
  assert (Hkeys : ∀ k, k ∈ keys ↔ ∃ tx, set_transactions self !! k = Some tx ∧ predicate tx = true).
  { intros k. unfold keys. rewrite list_elem_of_fmap. setoid_rewrite list_elem_of_filter. setoid_rewrite map_order_perm. split.
    - intros ([k' tx] & -> & Hp & Hin%elem_of_map_to_list). eauto.
    - intros (tx & Htx & Hp). exists (k, tx). split_and!; [done|done|by apply elem_of_map_to_list]. }
  destruct (remove_keys_spec self keys [] self ∅ ∅ Hok) as (s2 & R2 & ids2 & Hf & Hok2 & Hw2 & HR2 & Hids2).
  - split; set_solver.
  - intros h. split; [set_solver|]. intros (k & Hk%elem_of_nil & _). done.
  - intros k (tx & Htx & _)%Hkeys. eauto.
  - intros id. split; [set_solver|]. intros (h & tx & _ & Hh & _). set_solver.
  - exists s2, R2, ids2. split_and!; [done..| |done]. intros h. rewrite HR2. unfold reached. cbn. setoid_rewrite Hkeys. unfold affected. naive_solver.
Qed.

(** Clearing mined transactions keeps the transactions, and those that depended on a mined one no longer do. *)
Lemma set_clear_mined_spec self mined_ids : set_ok self → set_ok (set_clear_mined self mined_ids) ∧
  ∀ x d, edge (set_dependencies (set_clear_mined self mined_ids)) x d ↔ edge (set_dependencies self) x d ∧ x ∉ mined_ids.
Proof.
  intros [Hi [Hd He]]. destruct (clear_mined_dependencies_ok _ mined_ids Hd) as [Hd' He']. split; [|done]. split; [by destruct Hi|].
  split; [done|]. intros t d [Hold _]%He'. by apply He.
Qed.

Lemma eviction_weight_bounds tx : fits_block tx → 0 < eviction_weight tx ≤ 5 * cost tx.
Proof.
  intros [_ Hs]. unfold eviction_weight, cost, tx_size in *. unfold MEMPOOL_TRANSACTION_COST_THRESHOLD, MEMPOOL_TRANSACTION_LOW_FEE_PENALTY in *.
  unfold MAX_BLOCK_BYTES in Hs. destruct (pays_conventional_fee tx); [lia|]. rewrite wrap_fits by int_lia. lia.
Qed.

Lemma sum_Z_pos l : l ≠ [] → Forall (λ x, 0 < x) l → 0 < sum_Z l.
Proof.
  intros Hne Hf. destruct Hf as [|x l Hx Hf]; [done|]. cbn. assert (0 ≤ sum_Z l); [|unfold sum_Z in *; lia]. apply sum_Z_nonneg.
  eapply Forall_impl; [exact Hf|]. cbn. lia.
Qed.

(** Evicting from a set that is not empty removes one of its transactions, with what depends on it. *)
Lemma evict_one_spec `{!Sampler, !SamplerLaws} self : set_ok self → set_transactions self ≠ ∅ → 5 * map_sum cost (set_transactions self) < 2 ^ 64 →
  ∃ self' key victim (A : gset Hash), evict_one self = Ok (self', Some victim) ∧ set_transactions self !! key = Some victim ∧
    (∀ h, h ∈ A ↔ affected (set_dependencies self) key h) ∧ set_ok self' ∧ without self self' A.
Proof.
  intros Hok Hne Hsum. pose proof (indexed_txs _ (set_indexed _ Hok)) as Htxs. unfold evict_one.
  set (entries := map_order (set_transactions self)).
  assert (Hin : ∀ k tx, (k, tx) ∈ entries ↔ set_transactions self !! k = Some tx).
  { intros k tx. unfold entries. rewrite map_order_perm. apply elem_of_map_to_list. }
  assert (Hw : Forall (λ w, 0 < w) (eviction_weight ∘ snd <$> entries)).
  { apply Forall_fmap, Forall_forall. intros [k tx] Hk%Hin. cbn. by apply eviction_weight_bounds, (map_Forall_lookup_1 _ _ _ _ Htxs Hk). }
  assert (Hle : map_sum eviction_weight (set_transactions self) ≤ map_sum (λ tx, 5 * cost tx) (set_transactions self)).
  { apply map_sum_le. intros k tx Hk. by apply eviction_weight_bounds, (map_Forall_lookup_1 _ _ _ _ Htxs Hk). }
  rewrite map_sum_scale in Hle.
  destruct (sample_index (eviction_weight ∘ snd <$> entries)) as (i & -> & Hi).
  { eapply Forall_impl; [exact Hw|]. cbn. lia. }
  { rewrite (map_sum_order eviction_weight) in Hle. fold entries in Hle. split; [|lia]. apply sum_Z_pos; [|done]. intros Hnil%fmap_nil_inv.
    destruct Hne. apply map_empty. intros k. destruct (set_transactions self !! k) as [tx|] eqn:Hk; [|done].
    apply Hin in Hk. rewrite Hnil in Hk. by apply elem_of_nil in Hk. }
  cbn [expect]. rewrite Ok_bind. rewrite length_fmap in Hi. destruct (lookup_lt_is_Some_2 _ _ Hi) as [[key victim] Hk].
  rewrite list_lookup_fmap, Hk. cbn [fmap option_fmap option_map fst expect]. rewrite Ok_bind.
  assert (Hv : set_transactions self !! key = Some victim) by (apply Hin; by eapply list_elem_of_lookup_2).
  destruct (set_remove_spec self key Hok) as (s' & removed & A & -> & HA & Hok' & Hw' & _ & Hlast). rewrite Ok_bind.
  exists s', key, victim, A. by rewrite (Hlast victim Hv).
Qed.

End Ops.
