(* ===== verification/MempoolStorage.v ===== *)
(** * The storage of the mempool

    [zebrad/src/components/mempool/storage.rs]: the verified transactions and the lists of rejected ones, with the policy of standard
    transactions of [storage/policy.rs], [Output::is_dust] of [zebra-chain/src/transparent.rs] and the errors of
    [mempool/error.rs]. The clock is an argument of the operations. *)

From stdpp Require Import strings.
From S2P Require Import Prelude Height Amount Serialization Transaction Merkle TransparentCodec ShieldedCodec TransactionCodec Sighash Unmined Script TxChecks Reversible MempoolDeps EvictionList VerifiedSet.

(** ** Errors *)

Inductive NonStandardTransactionError :=
| IsDust
| ScriptSigTooLarge
| ScriptSigNotPushOnly
| ScriptPubKeyNonStandard
| BareMultiSig
| MultiOpReturn
| DataCarrierTooLarge
| TooManySigops
| NonStandardInputs.

Inductive SameEffectsChainRejectionError := Expired | DuplicateSpend | Mined | RandomlyEvicted.

#[export] Instance SameEffectsChainRejectionError_eq_dec : EqDecision SameEffectsChainRejectionError.
Proof. solve_decision. Defined.
#[export] Instance SameEffectsChainRejectionError_countable : Countable SameEffectsChainRejectionError.
Proof.
  refine (inj_countable (λ e, match e with Expired => 0 | DuplicateSpend => 1 | Mined => 2 | RandomlyEvicted => 3 end)%nat
    (λ n, match n with 0 => Some Expired | 1 => Some DuplicateSpend | 2 => Some Mined | _ => Some RandomlyEvicted end)%nat _).
  by intros [].
Defined.

(** The octets of the address of a peer, and its port. *)
Definition PeerSocketAddr : Type := list Z * Z.

Section Errors.
Context `{CL : !CurveLib, LZ : !LibRustZcash, SL : !SighashLib, ZS : !ScriptLib, VL : !VerifierLib}.

Inductive ExactTipRejectionError :=
| FailedVerification (e : TransactionError)
| FailedStandard (e : NonStandardTransactionError).

Inductive RejectionError :=
| ExactTip (e : ExactTipRejectionError)
| SameEffectsTip (e : SameEffectsTipRejectionError)
| SameEffectsChain (e : SameEffectsChainRejectionError)
| RejectNonStandard (e : NonStandardTransactionError).

Inductive MempoolError :=
| StorageExactTip (e : ExactTipRejectionError)
| StorageEffectsTip (e : SameEffectsTipRejectionError)
| StorageEffectsChain (e : SameEffectsChainRejectionError)
| InMempool
| AlreadyQueued
| FullQueue
| Disabled
| NonStandardTransaction (e : NonStandardTransactionError).

(** [TransactionDownloadVerifyError], without the sources of the errors of the services. *)
Inductive TransactionDownloadVerifyError :=
| InState
| StateError
| DownloadFailed
| Cancelled
| Invalid (error : TransactionError) (advertiser_addr : option PeerSocketAddr).

End Errors.

(** ** Standard transactions *)

Definition MAX_P2SH_SIGOPS : Z := 15.
Definition MAX_STANDARD_TX_SIGOPS : Z := 4000.
Definition MAX_STANDARD_SCRIPTSIG_SIZE : Z := 1650.
Definition MAX_STANDARD_MULTISIG_PUBKEYS : Z := 3.
Definition ONE_THIRD_DUST_THRESHOLD_RATE : Z := 100.

(** [solver::ScriptKind] of the [zcash_script] library. *)
Inductive ScriptKind :=
| PubKey
| PubKeyHash
| ScriptHash
| MultiSig (required : Z) (pubkeys : list (list Z))
| NullData.

(** Script classification of the [zcash_script] library. *)
Class PolicyLib := {
  (** [to_component], [refine] and [solver::standard] *)
  standard_script : list Z → option ScriptKind;
  (** [Evaluable::is_push_only] *)
  is_push_only : list Z → bool;
}.

(** [Output::is_dust]. *)
Definition is_dust (self : Output) : Run bool :=
  size ← serialized_size self;
  output_size ← expect (try_from U32 size);
  let threshold := wrap U32 (3 * (wrap U32 (ONE_THIRD_DUST_THRESHOLD_RATE * wrap U32 (output_size + 148)) / 1000)) in
  Ok (zatoshis (value self) <? threshold).

Section Policy.
Context `{PL : !PolicyLib, ZS : !ScriptLib}.

Definition count_script_push_ops (script_bytes : list Z) : Z := Z.of_nat (length (omap id (parse_pushes script_bytes))).

Definition script_sig_args_expected (kind : ScriptKind) : option Z :=
  match kind with
  | PubKey => Some 1
  | PubKeyHash => Some 2
  | ScriptHash => Some 1
  | MultiSig required _ => Some (required + 1)
  | NullData => None
  end.

(** The loop body of [are_inputs_standard]. *)
Definition input_standard (input : Input) (spent_output : Output) : bool :=
  match input with
  | Coinbase _ _ _ => true
  | PrevOut _ unlock_script _ =>
      match standard_script (lock_script spent_output) with
      | None => false
      | Some script_kind =>
          match script_sig_args_expected script_kind with
          | None => false
          | Some n_args_expected =>
              let stack_size := count_script_push_ops unlock_script in
              match script_kind with
              | ScriptHash =>
                  match extract_p2sh_redeem_script unlock_script with
                  | None => false
                  | Some redeemed_code =>
                      match standard_script redeemed_code with
                      | Some inner_kind =>
                          match script_sig_args_expected inner_kind with
                          | Some inner => stack_size =? n_args_expected + inner
                          | None => false
                          end
                      | None => sig_op_count true redeemed_code <=? MAX_P2SH_SIGOPS
                      end
                  end
              | _ => stack_size =? n_args_expected
              end
          end
      end
  end.
Definition are_inputs_standard (tx : Transaction) (spent_outputs : list Output) : bool :=
  forallb (λ p, input_standard p.1 p.2) (zip (inputs tx) spent_outputs).

(** The first loop of [reject_if_non_standard_tx], over the unlock scripts. *)
Fixpoint check_unlock_scripts (inputs : list Input) : option NonStandardTransactionError :=
  match inputs with
  | [] => None
  | Coinbase _ _ _ :: inputs => check_unlock_scripts inputs
  | PrevOut _ unlock_script _ :: inputs =>
      if MAX_STANDARD_SCRIPTSIG_SIZE <? Z.of_nat (length unlock_script) then Some ScriptSigTooLarge
      else if negb (is_push_only unlock_script) then Some ScriptSigNotPushOnly
      else check_unlock_scripts inputs
  end.

(** The inputs and the signature operations. *)
Definition check_inputs (tx : VerifiedUnminedTx) : option NonStandardTransactionError :=
  let transaction := verified_tx tx in
  let spent_outputs := verified_spent_outputs tx in
  if negb (bool_decide (spent_outputs = [])) then
    if negb (length (inputs transaction) =? length spent_outputs)%nat then Some NonStandardInputs
    else if negb (are_inputs_standard transaction spent_outputs) then Some NonStandardInputs
    else if MAX_STANDARD_TX_SIGOPS <? block_sigop_count tx then Some TooManySigops else None
  else if MAX_STANDARD_TX_SIGOPS <? verified_legacy_sigop_count tx then Some TooManySigops else None.

(** The loop over the outputs, which counts those with data. *)
Fixpoint check_outputs (max_datacarrier_bytes : Z) (outputs : list Output) (data_out_count : Z) : Run (NonStandardTransactionError + Z) :=
  match outputs with
  | [] => Ok (inr data_out_count)
  | output :: outputs =>
      match standard_script (lock_script output) with
      | None => Ok (inl ScriptPubKeyNonStandard)
      | Some NullData =>
          if max_datacarrier_bytes <? Z.of_nat (length (lock_script output)) then Ok (inl DataCarrierTooLarge)
          else check_outputs max_datacarrier_bytes outputs (wrap U32 (data_out_count + 1))
      | Some (MultiSig _ pubkeys) =>
          if MAX_STANDARD_MULTISIG_PUBKEYS <? Z.of_nat (length pubkeys) then Ok (inl ScriptPubKeyNonStandard) else Ok (inl BareMultiSig)
      | Some _ =>
          dust ← is_dust output;
          if (dust : bool) then Ok (inl IsDust) else check_outputs max_datacarrier_bytes outputs data_out_count
      end
  end.

(** Why a transaction is not standard, if it is not. *)
Definition non_standard (max_datacarrier_bytes : Z) (tx : VerifiedUnminedTx) : Run (option NonStandardTransactionError) :=
  match check_unlock_scripts (inputs (verified_tx tx)) with
  | Some e => Ok (Some e)
  | None =>
      match check_inputs tx with
      | Some e => Ok (Some e)
      | None =>
          result ← check_outputs max_datacarrier_bytes (outputs (verified_tx tx)) 0;
          match result with
          | inl e => Ok (Some e)
          | inr data_out_count => if 1 <? data_out_count then Ok (Some MultiOpReturn) else Ok None
          end
      end
  end.

End Policy.

(** ** The storage *)

Definition MAX_EVICTION_MEMORY_ENTRIES : Z := 40000.
Definition DEFAULT_MAX_DATACARRIER_BYTES : Z := 83.

(** [mempool::Config]. *)
Record MempoolConfig := mkMempoolConfig {
  config_tx_cost_limit : Z;
  config_eviction_memory_time : Z;
  debug_enable_at_height : option Z;
  config_max_datacarrier_bytes : option Z;
}.

(** [RemovedTransactionIds]. *)
Record RemovedTransactionIds := mkRemovedIds {
  removed_mined : gset UnminedTxId;
  removed_invalidated : gset UnminedTxId;
}.

Section Storage.
Context `{CL : !CurveLib, LZ : !LibRustZcash, SL : !SighashLib, ZS : !ScriptLib, VL : !VerifierLib, PL : !PolicyLib, HO : !HashOrder,
  SA : !Sampler}.

Record Storage := mkStorage {
  verified : VerifiedSet;
  pending_outputs : PendingOutputs;
  tip_rejected_exact : gmap UnminedTxId ExactTipRejectionError;
  tip_rejected_same_effects : gmap Hash SameEffectsTipRejectionError;
  chain_rejected_same_effects : gmap SameEffectsChainRejectionError EvictionList;
  storage_eviction_memory_time : Z;
  tx_cost_limit : Z;
  max_datacarrier_bytes : Z;
}.

Definition storage_new (config : MempoolConfig) : Storage :=
  mkStorage set_empty ∅ ∅ ∅ ∅ (config_eviction_memory_time config) (config_tx_cost_limit config)
    (default DEFAULT_MAX_DATACARRIER_BYTES (config_max_datacarrier_bytes config)).

Definition with_verified (self : Storage) (verified : VerifiedSet) : Storage :=
  mkStorage verified (pending_outputs self) (tip_rejected_exact self) (tip_rejected_same_effects self) (chain_rejected_same_effects self)
    (storage_eviction_memory_time self) (tx_cost_limit self) (max_datacarrier_bytes self).
Definition with_pending (self : Storage) (pending_outputs : PendingOutputs) : Storage :=
  mkStorage (verified self) pending_outputs (tip_rejected_exact self) (tip_rejected_same_effects self) (chain_rejected_same_effects self)
    (storage_eviction_memory_time self) (tx_cost_limit self) (max_datacarrier_bytes self).
Definition with_tip_rejected (self : Storage) (exact : gmap UnminedTxId ExactTipRejectionError)
    (same_effects : gmap Hash SameEffectsTipRejectionError) : Storage :=
  mkStorage (verified self) (pending_outputs self) exact same_effects (chain_rejected_same_effects self)
    (storage_eviction_memory_time self) (tx_cost_limit self) (max_datacarrier_bytes self).
Definition with_chain_rejected (self : Storage) (lists : gmap SameEffectsChainRejectionError EvictionList) : Storage :=
  mkStorage (verified self) (pending_outputs self) (tip_rejected_exact self) (tip_rejected_same_effects self) lists
    (storage_eviction_memory_time self) (tx_cost_limit self) (max_datacarrier_bytes self).

(** [rejected_transaction_count]: asking for the length of a list removes its expired entries. *)
Definition count_list (now : Z) (st : Z * gmap SameEffectsChainRejectionError EvictionList) (e : SameEffectsChainRejectionError * EvictionList) :
    Run (Z * gmap SameEffectsChainRejectionError EvictionList) :=
  '(len, list) ← eviction_len e.2 now; Ok (wrap U64 (st.1 + len), <[e.1 := list]> st.2).
Definition rejected_transaction_count (self : Storage) (now : Z) : Run (Z * Storage) :=
  '(n, lists) ← foldM (count_list now) (0, chain_rejected_same_effects self) (map_order (chain_rejected_same_effects self));
  Ok (wrap U64 (Z.of_nat (size (tip_rejected_exact self)) + Z.of_nat (size (tip_rejected_same_effects self)) + n), with_chain_rejected self lists).

(** [update_rejected_metrics] counts the rejected transactions twice. *)
Definition update_rejected_metrics (self : Storage) (now : Z) : Run Storage :=
  '(_, self) ← rejected_transaction_count self now;
  '(_, self) ← rejected_transaction_count self now;
  Ok self.

Definition limit_rejection_list_memory (self : Storage) (now : Z) : Run Storage :=
  let limit {K V} `{Countable K} (m : gmap K V) := if MAX_EVICTION_MEMORY_ENTRIES <? Z.of_nat (size m) then ∅ else m in
  update_rejected_metrics (with_tip_rejected self (limit (tip_rejected_exact self)) (limit (tip_rejected_same_effects self))) now.

Definition reject (self : Storage) (now : Z) (tx_id : UnminedTxId) (reason : RejectionError) : Run Storage :=
  self ← match reason with
         | ExactTip e => Ok (with_tip_rejected self (<[tx_id := e]> (tip_rejected_exact self)) (tip_rejected_same_effects self))
         | SameEffectsTip e => Ok (with_tip_rejected self (tip_rejected_exact self) (<[mined_id tx_id := e]> (tip_rejected_same_effects self)))
         | SameEffectsChain e =>
             let list := default (eviction_new MAX_EVICTION_MEMORY_ENTRIES (storage_eviction_memory_time self))
                           (chain_rejected_same_effects self !! e) in
             list ← eviction_insert list now (mined_id tx_id);
             Ok (with_chain_rejected self (<[e := list]> (chain_rejected_same_effects self)))
         | RejectNonStandard e =>
             Ok (with_tip_rejected self (<[tx_id := FailedStandard e]> (tip_rejected_exact self)) (tip_rejected_same_effects self))
         end;
  limit_rejection_list_memory self now.

(** The first list of the iteration that contains the transaction. *)
Definition chain_rejection (self : Storage) (now : Z) (id : Hash) : option SameEffectsChainRejectionError :=
  fst <$> List.find (λ e, contains_key e.2 now id) (map_order (chain_rejected_same_effects self)).
Definition rejection_error (self : Storage) (now : Z) (txid : UnminedTxId) : option MempoolError :=
  match tip_rejected_exact self !! txid with
  | Some error => Some (StorageExactTip error)
  | None =>
      match tip_rejected_same_effects self !! mined_id txid with
      | Some error => Some (StorageEffectsTip error)
      | None => StorageEffectsChain <$> chain_rejection self now (mined_id txid)
      end
  end.
Definition contains_rejected (self : Storage) (now : Z) (txid : UnminedTxId) : bool := bool_decide (is_Some (rejection_error self now txid)).

(** [reject_non_standard], after the checks of [reject_if_non_standard_tx]. *)
Definition reject_if_non_standard_tx (self : Storage) (now : Z) (tx : VerifiedUnminedTx) : Run (Storage * option MempoolError) :=
  error ← non_standard (max_datacarrier_bytes self) tx;
  match error with
  | Some rejection_error =>
      self ← reject self now (verified_id tx) (RejectNonStandard rejection_error);
      Ok (self, Some (NonStandardTransaction rejection_error))
  | None => Ok (self, None)
  end.

(** The loop of [insert] that evicts transactions: each round removes at least one. *)
Fixpoint evict_loop (fuel : nat) (now : Z) (unmined_tx_id : UnminedTxId) (self : Storage) (result : MempoolError + UnminedTxId) :
    Run (Storage * (MempoolError + UnminedTxId)) :=
  if tx_cost_limit self <? set_total_cost (verified self) then
    match fuel with
    | O => Panic
    | S fuel =>
        '(verified, victim_tx) ← evict_one (verified self);
        victim_tx ← expect victim_tx;
        self ← reject (with_verified self verified) now (verified_id victim_tx) (SameEffectsChain RandomlyEvicted);
        let result := if bool_decide (verified_id victim_tx = unmined_tx_id) then inl (StorageEffectsChain RandomlyEvicted) else result in
        evict_loop fuel now unmined_tx_id self result
    end
  else Ok (self, result).

(** [Storage::insert]. *)
Definition storage_insert (self : Storage) (now : Z) (tx : VerifiedUnminedTx) (spent_mempool_outpoints : list OutPoint) (height : option Height) :
    Run (Storage * (MempoolError + UnminedTxId) * Responses) :=
  let unmined_tx_id := verified_id tx in
  let tx_id := mined_id unmined_tx_id in
  match rejection_error self now unmined_tx_id with
  | Some error => Ok (self, inl error, [])
  | None =>
      if bool_decide (is_Some (set_transactions (verified self) !! tx_id)) then Ok (self, inl InMempool, []) else
      '(self, error) ← reject_if_non_standard_tx self now tx;
      match error with
      | Some error => Ok (self, inl error, [])
      | None =>
          '(self, result, sent) ←
            match set_insert_tx (verified self) tx spent_mempool_outpoints (pending_outputs self) now height with
            | Panic => Panic
            | Err e =>
                self ← reject self now unmined_tx_id (SameEffectsTip e);
                Ok (self, inl (StorageEffectsTip e), [])
            | Ok (verified, pending_outputs, sent) => Ok (with_pending (with_verified self verified) pending_outputs, inr unmined_tx_id, sent)
            end;
          '(self, result) ← evict_loop (size (set_transactions (verified self))) now unmined_tx_id self result;
          Ok (self, result, sent)
      end
  end.

(** [remove_exact]. *)
Definition remove_exact (self : Storage) (exact_wtxids : gset UnminedTxId) : Run (Storage * Z) :=
  '(verified, removed) ← remove_all_that (verified self) (λ tx, bool_decide (verified_id tx ∈ exact_wtxids));
  Ok (with_verified self verified, Z.of_nat (size removed)).

Definition storage_clear_mined_dependencies (self : Storage) (mined_ids : gset Hash) : Storage :=
  with_verified self (set_clear_mined (verified self) mined_ids).

(** Whether a transaction spends an output or reveals a nullifier of the mined ones. *)
Definition duplicate_spend (transactions : list Transaction) (tx : Transaction) : bool :=
  let has {A} `{EqDecision A} (items : Transaction → list A) := existsb (λ x, bool_decide (x ∈ (transactions ≫= items))) (items tx) in
  has spent_outpoints || has sprout_nullifiers || has sapling_nullifiers || has orchard_nullifiers.

Definition reject_and_remove_same_effects (self : Storage) (now : Z) (has_receivers : OutPoint → bool) (mined_ids : gset Hash)
    (transactions : list Transaction) : Run (Storage * RemovedTransactionIds) :=
  '(verified, removed_mined) ← remove_all_that (verified self) (λ tx, bool_decide (mined_id (verified_id tx) ∈ mined_ids));
  let duplicate_spend_ids : gset UnminedTxId :=
    list_to_set (omap (λ e, if duplicate_spend transactions (verified_tx e.2) then Some (verified_id e.2) else None)
                   (map_order (set_transactions verified))) in
  '(verified, removed_duplicate_spend) ← remove_all_that verified (λ tx, bool_decide (verified_id tx ∈ duplicate_spend_ids));
  self ← foldM (λ self mined_id, reject self now (Legacy mined_id) (SameEffectsChain Mined)) (with_verified self verified) (set_order mined_ids);
  self ← foldM (λ self id, reject self now id (SameEffectsChain DuplicateSpend)) self (set_order duplicate_spend_ids);
  Ok (with_pending self (pending_prune has_receivers (pending_outputs self)), mkRemovedIds removed_mined removed_duplicate_spend).

(** [clear] and [clear_tip_rejections]. *)
Definition storage_clear (self : Storage) (now : Z) : Run Storage :=
  update_rejected_metrics (mkStorage set_empty ∅ ∅ ∅ ∅ (storage_eviction_memory_time self) (tx_cost_limit self) (max_datacarrier_bytes self)) now.
Definition clear_tip_rejections (self : Storage) (now : Z) : Run Storage := update_rejected_metrics (with_tip_rejected self ∅ ∅) now.

(** The queries of the verified transactions. *)
Definition transactions_exact (self : Storage) (tx_ids : gset UnminedTxId) : list UnminedTx :=
  omap (λ tx_id, verified_transaction <$> set_transactions (verified self) !! mined_id tx_id) (set_order tx_ids).
Definition transactions_same_effects (self : Storage) (tx_ids : gset Hash) : list UnminedTx :=
  omap (λ e, if bool_decide (e.1 ∈ tx_ids) then Some (verified_transaction e.2) else None) (map_order (set_transactions (verified self))).
Definition transaction_with_deps (self : Storage) (tx_id : Hash) : option (VerifiedUnminedTx * gset Hash) :=
  (λ tx, (tx, direct_dependencies (set_dependencies (verified self)) tx_id)) <$> set_transactions (verified self) !! tx_id.

(** [Request::AwaitOutput] of the mempool service: the request is queued, and answered at once when the output is in the mempool. *)
Definition await_output (self : Storage) (outpoint : OutPoint) : Storage * Responses :=
  let pending := pending_queue (pending_outputs self) outpoint in
  match created_outputs (verified self) !! outpoint with
  | Some output => let '(pending, sent) := pending_respond pending outpoint output in (with_pending self pending, sent)
  | None => (with_pending self pending, [])
  end.

Definition reject_if_needed (self : Storage) (now : Z) (tx_id : UnminedTxId) (e : TransactionDownloadVerifyError) : Run Storage :=
  match e with
  | InState | StateError | DownloadFailed | Cancelled => Ok self
  | Invalid error _ => reject self now tx_id (ExactTip (FailedVerification error))
  end.

(** The loop of [remove_expired_transactions]: the transactions whose expiry height the tip has reached. *)
Definition has_expired_at (tip_height : Height) (tx : Transaction) : bool :=
  match expiry_height tx with Some expiry_height => expiry_height <=? tip_height | None => false end.
Definition remove_expired_transactions (self : Storage) (now : Z) (tip_height : Height) : Run (Storage * gset UnminedTxId) :=
  let expired := filter (λ e, has_expired_at tip_height (verified_tx e.2) = true) (map_order (set_transactions (verified self))) in
  let tx_ids : gset Hash := list_to_set expired.*1 in
  '(verified, _) ← remove_all_that (verified self) (λ tx, bool_decide (mined_id (verified_id tx) ∈ tx_ids));
  self ← foldM (λ self id, reject self now (Legacy id) (SameEffectsChain Expired)) (with_verified self verified) (set_order tx_ids);
  Ok (self, list_to_set (verified_id ∘ snd <$> expired)).

Definition should_download_or_verify (self : Storage) (now : Z) (txid : UnminedTxId) : option MempoolError :=
  if bool_decide (is_Some (set_transactions (verified self) !! mined_id txid)) then Some InMempool else rejection_error self now txid.

End Storage.

(** ** The rejection lists *)

Abbreviation ChainLists := (gmap SameEffectsChainRejectionError EvictionList).

(** The transaction is rejected for [e] at the time [now]. *)
Definition chain_rejected (lists : ChainLists) (now : Z) (e : SameEffectsChainRejectionError) (h : Hash) : Prop :=
  ∃ l, lists !! e = Some l ∧ contains_key l now h = true.

Definition list_ok (memory now : Z) (l : EvictionList) : Prop :=
  (∃ es, evicted l now es) ∧ max_size l = MAX_EVICTION_MEMORY_ENTRIES ∧ eviction_memory_time l = memory.
Definition lists_ok (memory now : Z) (lists : ChainLists) : Prop := map_Forall (λ _ l, list_ok memory now l) lists.

Lemma contains_key_later l now now' h : now ≤ now' → contains_key l now' h = true → contains_key l now h = true.
Proof.
  intros Hn. unfold contains_key. destruct (unique_entries l !! h) as [t|]; [|done]. rewrite !negb_true_iff. intros He.
  destruct (has_expired l now t) eqn:He'; [|done]. by rewrite (has_expired_mono l now now' t t) in He.
Qed.

Lemma list_ok_later memory now now' l : now ≤ now' → list_ok memory now l → list_ok memory now' l.
Proof. intros Hn [[es He] H]. split; [|done]. exists es. by eapply evicted_later. Qed.

Lemma list_new_ok memory now : list_ok memory now (eviction_new MAX_EVICTION_MEMORY_ENTRIES memory).
Proof. split; [|done]. exists []. by apply evicted_new. Qed.

(** Asking for the length of a list keeps what it contains. *)
Lemma list_len_ok memory now l : list_ok memory now l →
  ∃ n l', eviction_len l now = Ok (n, l') ∧ list_ok memory now l' ∧ ∀ h, contains_key l' now h = true ↔ contains_key l now h = true.
Proof.
  intros [[es He] [Hm Ht]]. destruct (eviction_len_spec l now es He) as (l' & Hlen & He' & Hlim). eexists _, l'. split; [done|]. split.
  - split; [eauto|]. destruct Hlim. split; congruence.
  - intros h. rewrite (contains_key_spec l' now _ h He'), (contains_key_spec l now es h He). by rewrite (live_live l l' now es Hlim).
Qed.

(** Inserting a transaction that a list does not contain. *)
Lemma list_insert_ok memory now l h : 0 ≤ memory → list_ok memory now l → contains_key l now h = false →
  ∃ l', eviction_insert l now h = Ok l' ∧ list_ok memory now l' ∧ contains_key l' now h = true ∧
    ∀ h', contains_key l' now h' = true → h' = h ∨ contains_key l now h' = true.
Proof.
  intros Hmem [[es He] [Hm Ht]] Hh. pose proof (eviction_insert_spec l now es h He) as Hi. rewrite Hm in Hi. specialize (Hi ltac:(done)).
  assert (Hkl : ∀ x, x ∈ kept l now es → x ∈ live l now es).
  { intros x. unfold kept. destruct (_ <=? _); [|done]. destruct (live l now es); [done|]. cbn. by right. }
  destruct (decide (h ∈ (kept l now es).*1)) as [Hin|Hout].
  { exfalso. apply list_elem_of_fmap in Hin as (x & -> & Hx%Hkl). apply not_true_iff_false in Hh. destruct Hh.
    apply (contains_key_spec l now es _ He). apply list_elem_of_fmap. eauto. }
  destruct Hi as (l' & -> & He' & [Hm' Ht']). exists l'. split; [done|]. split; [split; [eauto|split; congruence]|].
  assert (Hk : ∀ h', contains_key l' now h' = true ↔ h' ∈ (live l' now (kept l now es ++ [(h, now)])).*1) by (intros h'; by apply contains_key_spec).
  assert (Hlive : live l' now [(h, now)] = [(h, now)]).
  { unfold live. rewrite filter_cons_True; [done|]. cbn. unfold has_expired. apply Z.ltb_ge. rewrite Ht', Ht. lia. }
  unfold live in Hk. rewrite filter_app, fmap_app in Hk. fold (live l' now [(h, now)]) in Hk. rewrite Hlive in Hk. split.
  - apply Hk, elem_of_app. right. by left.
  - intros h' [Hx| ->%list_elem_of_singleton]%Hk%elem_of_app; [|by left]. right. apply (contains_key_spec l now es _ He).
    apply list_elem_of_fmap in Hx as (x & -> & [_ Hx%Hkl]%list_elem_of_filter). apply list_elem_of_fmap. eauto.
Qed.

Section Lists.
Context `{HO : !HashOrder, HL : !HashOrderLaws}.

Lemma chain_rejected_insert (lists : ChainLists) now e l e' h :
  chain_rejected (<[e := l]> lists) now e' h ↔ if decide (e' = e) then contains_key l now h = true else chain_rejected lists now e' h.
Proof.
  unfold chain_rejected. destruct (decide (e' = e)) as [->|Hne].
  - split; [intros (l' & Hl & Hc); by simplify_map_eq|]. intros Hc. exists l. by simplify_map_eq.
  - by setoid_rewrite (lookup_insert_ne lists e e' l (not_eq_sym Hne)).
Qed.

Lemma count_lists_loop memory now (lists : ChainLists) es : lists_ok memory now lists → (∀ e l, (e, l) ∈ es → lists !! e = Some l) →
  ∀ cur n0, lists_ok memory now cur → (∀ e h, chain_rejected cur now e h ↔ chain_rejected lists now e h) →
  ∃ n cur', foldM (E := Empty_set) (count_list now) (n0, cur) es = Ok (n, cur') ∧ lists_ok memory now cur' ∧
    ∀ e h, chain_rejected cur' now e h ↔ chain_rejected lists now e h.
Proof.
  intros Hok. induction es as [|[e l] es IH]; intros Hin cur n0 Hc Hr; cbn [foldM]; [eauto|].
  assert (Hl : lists !! e = Some l) by (apply Hin; by left).
  destruct (list_len_ok memory now l) as (n & l' & Hlen & Hl' & Hk); [by apply (map_Forall_lookup_1 _ _ _ _ Hok Hl)|].
  assert (count_list now (n0, cur) (e, l) = Ok (wrap U64 (n0 + n), <[e := l']> cur)) as -> by (unfold count_list; cbn [fst snd]; by rewrite Hlen).
  rewrite Ok_bind. apply IH; [intros e' l1 Hin'; apply Hin; by right|by apply map_Forall_insert_2|]. intros e' h. rewrite chain_rejected_insert.
  destruct (decide (e' = e)) as [->|]; [|apply Hr]. rewrite Hk. unfold chain_rejected. rewrite Hl. split; [eauto|]. intros (? & [= <-] & ?). done.
Qed.

Lemma count_lists_ok memory now (lists : ChainLists) : lists_ok memory now lists →
  ∃ n lists', foldM (E := Empty_set) (count_list now) (0, lists) (map_order lists) = Ok (n, lists') ∧ lists_ok memory now lists' ∧
    ∀ e h, chain_rejected lists' now e h ↔ chain_rejected lists now e h.
Proof.
  intros Hok. apply (count_lists_loop memory now lists); try done. intros e l. rewrite map_order_perm. apply elem_of_map_to_list.
Qed.

End Lists.

(** ** The invariant of the storage *)

Section Invariant.
Context `{CL : !CurveLib, LZ : !LibRustZcash, SL : !SighashLib, ZS : !ScriptLib, VL : !VerifierLib, PL : !PolicyLib, HO : !HashOrder,
  HL : !HashOrderLaws, SA : !Sampler, SW : !SamplerLaws}.

Record rejections_ok (now : Z) (self : Storage) : Prop := {
  rejections_memory : 0 ≤ storage_eviction_memory_time self;
  rejections_lists : lists_ok (storage_eviction_memory_time self) now (chain_rejected_same_effects self);
  rejections_exact : Z.of_nat (size (tip_rejected_exact self)) ≤ MAX_EVICTION_MEMORY_ENTRIES;
  rejections_same_effects : Z.of_nat (size (tip_rejected_same_effects self)) ≤ MAX_EVICTION_MEMORY_ENTRIES;
}.

(** What a rejection does not change. *)
Definition same_mempool (self self' : Storage) : Prop :=
  verified self' = verified self ∧ pending_outputs self' = pending_outputs self ∧ storage_eviction_memory_time self' = storage_eviction_memory_time self ∧
  tx_cost_limit self' = tx_cost_limit self ∧ max_datacarrier_bytes self' = max_datacarrier_bytes self.

Definition rejected_for (self : Storage) (now : Z) (e : SameEffectsChainRejectionError) (h : Hash) : Prop :=
  chain_rejected (chain_rejected_same_effects self) now e h.

Lemma count_ok now self : lists_ok (storage_eviction_memory_time self) now (chain_rejected_same_effects self) →
  ∃ n self', rejected_transaction_count self now = Ok (n, self') ∧ same_mempool self self' ∧
    tip_rejected_exact self' = tip_rejected_exact self ∧ tip_rejected_same_effects self' = tip_rejected_same_effects self ∧
    lists_ok (storage_eviction_memory_time self) now (chain_rejected_same_effects self') ∧
    ∀ e h, rejected_for self' now e h ↔ rejected_for self now e h.
Proof.
  intros H. unfold rejected_transaction_count. destruct (count_lists_ok _ _ _ H) as (n & lists' & -> & Hok & Hr). rewrite Ok_bind.
  eexists _, _. split; [reflexivity|]. done.
Qed.

Lemma metrics_ok now self : lists_ok (storage_eviction_memory_time self) now (chain_rejected_same_effects self) →
  ∃ self', update_rejected_metrics self now = Ok self' ∧ same_mempool self self' ∧
    tip_rejected_exact self' = tip_rejected_exact self ∧ tip_rejected_same_effects self' = tip_rejected_same_effects self ∧
    lists_ok (storage_eviction_memory_time self) now (chain_rejected_same_effects self') ∧
    ∀ e h, rejected_for self' now e h ↔ rejected_for self now e h.
Proof.
  intros H. unfold update_rejected_metrics. destruct (count_ok now self H) as (n1 & s1 & -> & Hm1 & He1 & Ht1 & Hl1 & Hr1). rewrite Ok_bind.
  destruct (count_ok now s1) as (n2 & s2 & -> & Hm2 & He2 & Ht2 & Hl2 & Hr2); [by destruct Hm1 as (_ & _ & -> & _)|]. rewrite Ok_bind.
  exists s2. split; [done|]. destruct Hm1 as (E1 & E2 & E3 & E4 & E5), Hm2 as (F1 & F2 & F3 & F4 & F5). rewrite E3 in Hl2.
  split_and!; [unfold same_mempool; split_and!; congruence|congruence|congruence|done|]. intros e h. by rewrite Hr2.
Qed.

Lemma limit_ok now self : 0 ≤ storage_eviction_memory_time self → lists_ok (storage_eviction_memory_time self) now (chain_rejected_same_effects self) →
  ∃ self', limit_rejection_list_memory self now = Ok self' ∧ same_mempool self self' ∧ rejections_ok now self' ∧
    ∀ e h, rejected_for self' now e h ↔ rejected_for self now e h.
Proof.
  intros Hm H. unfold limit_rejection_list_memory.
  match goal with |- context [with_tip_rejected self ?a ?b] => destruct (metrics_ok now (with_tip_rejected self a b)) as (s & -> & Hs & He & Ht & Hl & Hr) end; [done|].
  exists s. split; [done|]. split; [done|]. split; [|done]. cbn in He, Ht, Hl. destruct Hs as (_ & _ & Hmem & _). cbn in Hmem. split; [by rewrite Hmem|by rewrite Hmem|..].
  - rewrite He. destruct (Z.ltb_spec MAX_EVICTION_MEMORY_ENTRIES (Z.of_nat (size (tip_rejected_exact self)))); [by rewrite map_size_empty|lia].
  - rewrite Ht. destruct (Z.ltb_spec MAX_EVICTION_MEMORY_ENTRIES (Z.of_nat (size (tip_rejected_same_effects self)))); [by rewrite map_size_empty|lia].
Qed.

(** A rejection is recorded, and nothing else changes. It does not panic when the transaction is not already rejected for the reason. *)
Lemma reject_ok now self id reason : rejections_ok now self →
  (∀ e, reason = SameEffectsChain e → ¬ rejected_for self now e (mined_id id)) →
  ∃ self', reject self now id reason = Ok self' ∧ same_mempool self self' ∧ rejections_ok now self' ∧
    (∀ e, reason = SameEffectsChain e → rejected_for self' now e (mined_id id)) ∧
    ∀ e h, rejected_for self' now e h → rejected_for self now e h ∨ reason = SameEffectsChain e ∧ h = mined_id id.
Proof.
  intros [Hm Hl He Ht] Hn. unfold reject. destruct reason as [e|e|e|e].
  1, 2, 4: rewrite Ok_bind; match goal with |- context [limit_rejection_list_memory ?s ?n] =>
      destruct (limit_ok n s) as (s' & -> & Hs & Hok & Hr); [done|done|] end; exists s'; split_and!; [done|done|done|by intros|]; intros e' h Hc; left; by apply Hr in Hc.
  set (l := default _ _). assert (Hlist : list_ok (storage_eviction_memory_time self) now l).
  { unfold l. destruct (chain_rejected_same_effects self !! e) as [l0|] eqn:Hl0; cbn; [by apply (map_Forall_lookup_1 _ _ _ _ Hl Hl0)|apply list_new_ok]. }
  assert (Hc : contains_key l now (mined_id id) = false).
  { apply not_true_iff_false. intros Hc. apply (Hn e eq_refl). unfold l in Hc. unfold rejected_for, chain_rejected.
    destruct (chain_rejected_same_effects self !! e) as [l0|]; cbn in Hc; [eauto|done]. }
  assert (Hold : ∀ h, contains_key l now h = true → rejected_for self now e h).
  { intros h Hh. unfold l in Hh. unfold rejected_for, chain_rejected. destruct (chain_rejected_same_effects self !! e) as [l0|]; cbn in Hh; [eauto|done]. }
  destruct (list_insert_ok _ now l (mined_id id) Hm Hlist Hc) as (l' & -> & Hok' & Hin & Hback). rewrite !Ok_bind.
  destruct (limit_ok now (with_chain_rejected self (<[e := l']> (chain_rejected_same_effects self)))) as (s' & -> & Hs & Hok & Hr); [done|by apply map_Forall_insert_2|].
  exists s'. split_and!; [done|done|done| |].
  - intros e' [= <-]. apply Hr. unfold rejected_for. cbn. rewrite chain_rejected_insert. by rewrite decide_True.
  - intros e' h Hx%Hr. unfold rejected_for in Hx. cbn in Hx. rewrite chain_rejected_insert in Hx. destruct (decide (e' = e)) as [->|]; [|by left].
    apply Hback in Hx as [->|Hx]; [by right|left; by apply Hold].
Qed.

End Invariant.
