(* ===== verification/MempoolInvariant.v ===== *)
(** * The invariant of the mempool storage

    What every reachable [Storage] of [zebrad/src/components/mempool/storage.rs] satisfies, and what its operations do. The clock of the
    calls does not go backwards. *)

From stdpp Require Import strings.
From S2P Require Import Prelude Height Amount Codec Serialization Transaction Merkle TransparentCodec ShieldedCodec TransactionCodec Sighash Unmined Script TxChecks TxVerifier Reversible MempoolDeps EvictionList VerifiedSet MempoolStorage.

(** ** Transactions that were parsed *)

Section Parsed.
Context `{CL : !CurveLib, CW : !CurveLaws, LZ : !LibRustZcash, SL : !SighashLib, HF : !HashFns, ZS : !ScriptLib, PL : !PolicyLib}.

(** The transaction was read from the wire, and its id and its size were computed. *)
Definition parsed_tx (tx : VerifiedUnminedTx) : Prop :=
  tx_wire_ok (verified_tx tx) ∧ unmined_from (verified_tx tx) = Ok (verified_transaction tx).

Lemma wire_outputs t : tx_wire_ok t → outputs_wire_ok (outputs t).
Proof.
  intros [Hok _]. destruct t as [ins outs lt|ins outs lt js|ins outs lt ex js|ins outs lt ex js sap|nu lt ex ins outs sap orc]; cbn in Hok.
  - by destruct Hok as (_ & Ho & _).
  - by destruct Hok as (_ & Ho & _).
  - by destruct Hok as (_ & Ho & _).
  - by destruct Hok as ((_ & Ho & _) & _).
  - by destruct Hok as ((_ & _ & _ & _ & Ho & _) & _).
Qed.

Lemma parsed_fits tx : parsed_tx tx → fits_block tx.
Proof.
  intros [Hw Hu]. split.
  - destruct (wire_outputs _ Hw) as (_ & _ & Hl). unfold outputs_fit. unfold MAX_PROTOCOL_MESSAGE_LEN in Hl. lia.
  - apply bind_Ok in Hu as (size & Hs & (f & _ & (id & _ & [= Htx])%bind_Ok)%bind_Ok).
    assert (tx_size tx = size) as -> by (unfold tx_size; by rewrite <- Htx).
    unfold serialized_size in Hs. apply bind_Ok in Hs as (bytes & Hb & [= <-]).
    destruct (zcash_serialize (verified_tx tx)) as [b|e|] eqn:Hser; cbn in Hb; try done. simplify_eq.
    destruct Hw as [_ Hwr]. specialize (Hwr bytes Hser). lia.
Qed.

Lemma bytes_length_le (l : list Z) enc : serialize_bytes l = Ok enc → (length enc ≤ 9 + length l)%nat.
Proof.
  intros (len & Hl & (c & Hc & [= <-])%bind_Ok)%bind_Ok. rewrite length_app. assert (length c ≤ 9)%nat; [|lia].
  unfold zcash_serialize, CompactSizeMessage_serialize in Hc. apply bind_Ok in Hc as (limit & _ & (u & _ & Hc)%bind_Ok).
  unfold zcash_serialize, CompactSize64_serialize in Hc. cbn [cs64] in Hc. revert Hc.
  destruct (_ <=? _); [|destruct (_ <=? _); [|destruct (_ <=? _)]]; intros Hc; apply (f_equal (ok_value [])) in Hc; cbn [ok_value] in Hc;
    rewrite <- Hc; cbn [length]; rewrite length_le_bytes; lia.
Qed.

Lemma is_dust_total (o : Output) : valid o → ∃ b, is_dust o = Ok b.
Proof.
  intros Hv. destruct (codec_roundtrip o Hv) as (enc & Hs & _ & _). unfold is_dust, serialized_size. rewrite Hs. cbn [expect_ok]. rewrite !Ok_bind.
  assert (Hl : (length enc ≤ 17 + length (lock_script o))%nat).
  { unfold zcash_serialize, Output_serialize in Hs. apply bind_Ok in Hs as (v & Hv'%amount_length & (s & Hs%bytes_length_le & [= <-])%bind_Ok).
    rewrite length_app. lia. }
  destruct Hv as (_ & _ & Hb). unfold MAX_U8_ALLOCATION, MAX_PROTOCOL_MESSAGE_LEN in Hb. rewrite try_from_fits by int_lia. cbn [expect]. rewrite Ok_bind. eauto.
Qed.

Lemma check_outputs_total limit outs : Forall valid outs → ∀ n, ∃ r, check_outputs limit outs n = Ok r.
Proof.
  induction 1 as [|o outs Hv Hf IH]; intros n; cbn [check_outputs]; [eauto|]. destruct (is_dust_total o Hv) as [b Hb].
  destruct (standard_script (lock_script o)) as [[| | |r ks|]|]; rewrite ?Hb, ?Ok_bind; try (destruct b); eauto; destruct (_ <? _); eauto.
Qed.

(** The policy gives an answer for every parsed transaction. *)
Lemma non_standard_total limit tx : parsed_tx tx → ∃ r, non_standard limit tx = Ok r.
Proof.
  intros [Hw _]. destruct (wire_outputs _ Hw) as [Hf _]. unfold non_standard. destruct (check_unlock_scripts _); [eauto|].
  destruct (check_inputs tx); [eauto|]. destruct (check_outputs_total limit _ Hf 0) as [[e|n] ->]; rewrite Ok_bind; [eauto|].
  destruct (_ <? _); eauto.
Qed.

End Parsed.

(** ** The invariant *)

Section Invariant.
Context `{CL : !CurveLib, CW : !CurveLaws, LZ : !LibRustZcash, SL : !SighashLib, HF : !HashFns, ZS : !ScriptLib, VL : !VerifierLib, PL : !PolicyLib,
  HO : !HashOrder, HL : !HashOrderLaws, SA : !Sampler, SW : !SamplerLaws}.

Definition MAX_TX_COST_LIMIT : Z := 2 ^ 60.

(** What holds during an insertion, while the costs may be above the limit. *)
Record storage_core (now : Z) (self : Storage) : Prop := {
  storage_set : set_ok (verified self);
  storage_limit : 0 ≤ tx_cost_limit self ≤ MAX_TX_COST_LIMIT;
  storage_rejections : rejections_ok now self;
  storage_fresh : ∀ e h, is_Some (set_transactions (verified self) !! h) → ¬ rejected_for self now e h;
}.

Record storage_ok (now : Z) (self : Storage) : Prop := {
  storage_ok_core :> storage_core now self;
  storage_cost : map_sum cost (set_transactions (verified self)) ≤ tx_cost_limit self;
}.

Lemma rejected_later self now now' e h : now ≤ now' → rejected_for self now' e h → rejected_for self now e h.
Proof. intros Hn (l & Hl & Hc). exists l. split; [done|]. by eapply contains_key_later. Qed.

Lemma storage_ok_later now now' self : now ≤ now' → storage_ok now self → storage_ok now' self.
Proof.
  intros Hn [[Hs Hl [Hm Hls He Ht] Hf] Hc]. split; [split; [done|done| |]|done].
  - split; try done. intros e l Hel. eapply list_ok_later; [exact Hn|]. by eapply Hls.
  - intros e h Hh Hr. by eapply (Hf e h Hh), rejected_later.
Qed.

Lemma map_sum_cost_nonneg T : txs_ok T → 0 ≤ map_sum cost T.
Proof.
  intros Hok. transitivity (map_sum (λ _ : VerifiedUnminedTx, 0) T).
  - clear Hok. induction T as [|k v m Hk IH] using map_ind; [done|]. rewrite map_sum_insert by done. lia.
  - apply map_sum_le. intros k v Hk. destruct (Hok _ _ Hk) as [_ [_ Hs]]. unfold cost, MEMPOOL_TRANSACTION_COST_THRESHOLD. lia.
Qed.

(** The tracked cost is the sum of the costs. *)
Lemma total_cost_exact self : set_ok self → map_sum cost (set_transactions self) < 2 ^ 64 → set_total_cost self = map_sum cost (set_transactions self).
Proof.
  intros [Hi _] Hs. rewrite (indexed_cost _ Hi). apply wrap_fits. pose proof (map_sum_cost_nonneg _ (indexed_txs _ Hi)). int_lia.
Qed.

Lemma set_ok_stored self h tx : set_ok self → set_transactions self !! h = Some tx → mined_id (verified_id tx) = h.
Proof. intros [Hi _] Hh. by destruct (indexed_txs _ Hi _ _ Hh). Qed.

Lemma storage_core_same now self self' : storage_core now self → same_mempool self self' → rejections_ok now self' →
  (∀ e h, rejected_for self' now e h → rejected_for self now e h ∨ set_transactions (verified self) !! h = None) → storage_core now self'.
Proof.
  intros [Hs Hl Hr Hf] (Hv & _ & _ & Hc & _) Hr' Hrej. split; [by rewrite Hv|by rewrite Hc|done|]. intros e h Hh Hx. rewrite Hv in Hh.
  apply Hrej in Hx as [Hx|Hx]; [by eapply Hf|]. rewrite Hx in Hh. by destruct Hh.
Qed.

Lemma without_subset v v' A : without v v' A → set_transactions v' ⊆ set_transactions v.
Proof. intros [HT _]. apply map_subseteq_spec. intros h tx [H _]%HT. done. Qed.

Lemma map_sum_subset {V} (f : V → Z) (T T' : gmap Hash V) : T' ⊆ T → (∀ k v, T !! k = Some v → 0 ≤ f v) → map_sum f T' ≤ map_sum f T.
Proof.
  revert T. induction T' as [|k v m Hk IH] using map_ind; intros T Hs Hf.
  - change (0 ≤ map_sum f T). clear Hs. induction T as [|k v m Hk IH] using map_ind; [done|]. rewrite map_sum_insert by done.
    pose proof (Hf k v ltac:(by simplify_map_eq)). assert (0 ≤ map_sum f m); [|lia]. apply IH. intros k' v' Hk'. apply (Hf k').
    rewrite lookup_insert_ne; [done|]. intros ->. by simplify_eq.
  - assert (HT : T !! k = Some v) by (eapply lookup_weaken; [|exact Hs]; by simplify_map_eq).
    rewrite map_sum_insert, (map_sum_delete f T k v) by done. assert (map_sum f m ≤ map_sum f (delete k T)); [|lia]. apply IH.
    + apply map_subseteq_spec. intros k' v' Hk'. rewrite lookup_delete_Some. split; [intros ->; by simplify_eq|].
      eapply lookup_weaken; [|exact Hs]. rewrite lookup_insert_ne; [done|]. intros ->. by simplify_eq.
    + intros k' v' [_ Hk']%lookup_delete_Some. by eapply Hf.
Qed.

Lemma cost_pos tx : fits_block tx → 0 ≤ cost tx.
Proof. intros [_ Hs]. unfold cost, MEMPOOL_TRANSACTION_COST_THRESHOLD. lia. Qed.

Lemma cost_subset v v' A : set_ok v → without v v' A → map_sum cost (set_transactions v') ≤ map_sum cost (set_transactions v).
Proof.
  intros [Hi _] Hw. apply map_sum_subset; [by eapply without_subset|]. intros k tx Hk. apply cost_pos. by destruct (indexed_txs _ Hi _ _ Hk).
Qed.

Lemma core_without now self v A : storage_core now self → set_ok v → without (verified self) v A → storage_core now (with_verified self v).
Proof.
  intros [Hs Hl Hr Hf] Hv Hw. split; [done|done|by destruct Hr|]. intros e h Hh. apply Hf. cbn in Hh. destruct Hh as [tx Htx]. exists tx.
  by apply Hw in Htx as [Htx _].
Qed.

(** Rejecting a transaction that is not in the mempool. *)
Lemma reject_removed now self id e : storage_core now self → set_transactions (verified self) !! mined_id id = None → ¬ rejected_for self now e (mined_id id) →
  ∃ self', reject self now id (SameEffectsChain e) = Ok self' ∧ storage_core now self' ∧ same_mempool self self' ∧
    rejected_for self' now e (mined_id id) ∧ ∀ e' h, rejected_for self' now e' h → rejected_for self now e' h ∨ e' = e ∧ h = mined_id id.
Proof.
  intros Hc Hn Hrej. destruct (reject_ok now self id (SameEffectsChain e) (storage_rejections _ _ Hc)) as (s' & Hr & Hsame & Hok & Hin & Hback).
  { by intros e' [= <-]. }
  exists s'. split_and!; [done| |done|by apply Hin|].
  - eapply storage_core_same; [exact Hc|done|done|]. intros e' h [Hx|[_ ->]]%Hback; [by left|by right].
  - intros e' h [Hx|[[= ->] ->]]%Hback; [by left|by right].
Qed.

Lemma same_mempool_trans a b c : same_mempool a b → same_mempool b c → same_mempool a c.
Proof. intros (E1 & E2 & E3 & E4 & E5) (F1 & F2 & F3 & F4 & F5). unfold same_mempool. split_and!; congruence. Qed.

Lemma reject_all {A} (f : A → UnminedTxId) e now l : ∀ self, storage_core now self → NoDup (mined_id ∘ f <$> l) →
  (∀ x, x ∈ l → set_transactions (verified self) !! mined_id (f x) = None ∧ ¬ rejected_for self now e (mined_id (f x))) →
  ∃ self', foldM (λ self x, reject self now (f x) (SameEffectsChain e)) self l = Ok self' ∧ storage_core now self' ∧ same_mempool self self' ∧
    ∀ e' h, rejected_for self' now e' h → rejected_for self now e' h ∨ e' = e ∧ h ∈ mined_id ∘ f <$> l.
Proof.
  induction l as [|x l IH]; intros self Hc Hd Hx; cbn [foldM].
  - exists self. split_and!; [done|done|done|by left].
  - cbn in Hd. apply NoDup_cons in Hd as [Hnew Hd]. destruct (Hx x) as [Hx1 Hx2]; [by left|].
    destruct (reject_removed now self (f x) e Hc Hx1 Hx2) as (s1 & -> & Hc1 & Hs1 & _ & Hb1). rewrite Ok_bind.
    destruct (IH s1 Hc1 Hd) as (s2 & Hr2 & Hc2 & Hs2 & Hb2).
    { intros y Hy. destruct (Hx y) as [Hy1 Hy2]; [by right|]. split; [by rewrite (proj1 Hs1)|]. intros [Hr|[_ Hr]]%Hb1; [done|].
      apply Hnew. rewrite <- Hr. apply list_elem_of_fmap. eauto. }
    exists s2. split_and!; [done|done|by eapply same_mempool_trans|]. intros e' h [[Hr|[-> ->]]%Hb1|[-> Hh]]%Hb2; [by left|right; split; [done|by left]|].
    right. split; [done|by right].
Qed.

(** The only new rejections for being mined are those of [ids]. *)
Definition mined_only (now : Z) (self self' : Storage) (ids : gset Hash) : Prop :=
  ∀ h, rejected_for self' now Mined h → rejected_for self now Mined h ∨ h ∈ ids.

(** *** Eviction *)

(** The limits and the pending requests stay the same. *)
Definition same_limits_of (self self' : Storage) : Prop := same_mempool self (with_verified self' (verified self)).

(** One of the victims is the transaction [id]. *)
Definition is_victim (T : Txs) (id : UnminedTxId) (victims : list Hash) : bool :=
  existsb (λ k, bool_decide (verified_id <$> T !! k = Some id)) victims.

(** The mempool [v'] is [v] without the victims and what depends on them. *)
Definition evicts (v v' : VerifiedSet) (victims : list Hash) : Prop :=
  (∀ k, k ∈ victims → is_Some (set_transactions v !! k)) ∧
  ∃ R : gset Hash, without v v' R ∧ ∀ h, h ∈ R ↔ reached (edge (set_dependencies v)) victims h.

Lemma evicts_none v : evicts v v [].
Proof.
  split; [intros k Hk; by apply elem_of_nil in Hk|]. exists ∅. split; [split; set_solver|]. intros h. split; [set_solver|]. intros (k & Hk & _). by apply elem_of_nil in Hk.
Qed.

Lemma evict_loop_spec v0 now id : ∀ fuel self result l, storage_core now self → 5 * map_sum cost (set_transactions (verified self)) < 2 ^ 64 →
  (size (set_transactions (verified self)) ≤ fuel)%nat → evicts v0 (verified self) l →
  ∃ self' l', evict_loop fuel now id self result =
      Ok (self', if is_victim (set_transactions v0) id l' then inl (StorageEffectsChain RandomlyEvicted) else result) ∧
    storage_ok now self' ∧ same_limits_of self self' ∧ mined_only now self self' ∅ ∧ evicts v0 (verified self') (l ++ l') ∧
    (map_sum cost (set_transactions (verified self)) ≤ tx_cost_limit self → self' = self ∧ l' = []).
Proof.
  induction fuel as [|fuel IH]; intros self result l Hc Hsum Hfuel Hev.
  all: cbn [evict_loop]; pose proof (total_cost_exact _ (storage_set _ _ Hc) ltac:(lia)) as Hcost; rewrite Hcost.
  all: destruct (Z.ltb_spec (tx_cost_limit self) (map_sum cost (set_transactions (verified self)))) as [Hover|Hunder];
    [|exists self, []; rewrite app_nil_r; split_and!; [done|by split|done|by left|done|done]].
  all: assert (Hne : set_transactions (verified self) ≠ ∅) by
    (intros Hemp; rewrite Hemp in Hover; pose proof (storage_limit _ _ Hc); change (map_sum cost ∅) with 0 in Hover; lia).
  { destruct Hne. apply map_size_empty_iff. lia. }
  destruct (evict_one_spec _ (storage_set _ _ Hc) Hne Hsum) as (v1 & key & victim & A & -> & Hkey & HA & Hok1 & Hw1). rewrite Ok_bind. cbn [expect]. rewrite Ok_bind.
  pose proof (set_ok_stored _ _ _ (storage_set _ _ Hc) Hkey) as Hid. pose proof (core_without now self v1 A Hc Hok1 Hw1) as Hc1.
  assert (HkA : key ∈ A) by (apply HA; constructor).
  assert (Hnone : set_transactions v1 !! key = None).
  { destruct (set_transactions v1 !! key) as [t|] eqn:Ht; [|done]. by apply Hw1 in Ht as [_ ?]. }
  destruct (reject_removed now (with_verified self v1) (verified_id victim) RandomlyEvicted Hc1) as (s2 & -> & Hc2 & Hs2 & _ & Hb2).
  { by rewrite Hid. }
  { rewrite Hid. apply (storage_fresh _ _ Hc). eauto. }
  rewrite Ok_bind. assert (Hv2 : verified s2 = v1) by apply Hs2. destruct Hev as (Hl & R & HwR & HR).
  destruct (remove_more _ _ _ R A l key HR HwR HA Hw1) as [HwRA HRA].
  assert (Hkey0 : set_transactions v0 !! key = Some victim) by by apply HwR.
  assert (Hsum2 : map_sum cost (set_transactions v1) ≤ map_sum cost (set_transactions (verified self))) by (eapply cost_subset; [apply Hc|exact Hw1]).
  edestruct (IH s2 (if bool_decide (verified_id victim = id) then inl (StorageEffectsChain RandomlyEvicted) else result) (l ++ [key]) Hc2) as (s3 & l3 & Hr3 & Hok3 & Hs3 & Hm3 & Hev3 & _).
  - rewrite Hv2. lia.
  - rewrite Hv2. assert (set_transactions v1 ⊆ delete key (set_transactions (verified self))) as Hsub%map_subseteq_size.
    { apply map_subseteq_spec. intros h tx [Hh Hn]%Hw1. apply lookup_delete_Some. split; [by intros ->|done]. }
    rewrite map_size_delete_Some in Hsub by eauto. lia.
  - rewrite Hv2. split; [|exists (R ∪ A); by split]. intros k [?|Hk]%elem_of_app; [by apply Hl|]. apply list_elem_of_singleton in Hk as ->. eauto.
  - exists s3, (key :: l3). split_and!; [|done| | | |lia].
    + rewrite Hr3. do 2 f_equal. cbn [is_victim existsb]. rewrite Hkey0. cbn [fmap option_fmap option_map].
      destruct (decide (verified_id victim = id)) as [<-|Hn]; [rewrite !bool_decide_true by done; cbn; by destruct (is_victim _ _ _)|].
      rewrite !bool_decide_false by congruence. done.
    + destruct Hs2 as (E1 & E2 & E3 & E4 & E5), Hs3 as (F1 & F2 & F3 & F4 & F5). cbn in *. unfold same_limits_of, same_mempool. cbn. split_and!; congruence.
    + intros h [Hh|?]%Hm3; [|by right]. apply Hb2 in Hh as [?|[? _]]; [by left|done].
    + by rewrite <- (assoc_L (++)) in Hev3.
Qed.

(** *** Insertion *)

(** What an insertion does: the cases are those of [Storage::insert], in its order. *)
Inductive insert_outcome (now : Z) (self : Storage) (tx : VerifiedUnminedTx) (spent : list OutPoint) (height : option Height) :
    Storage → MempoolError + UnminedTxId → Responses → Prop :=
| outcome_rejected e :
    rejection_error self now (verified_id tx) = Some e → insert_outcome now self tx spent height self (inl e) []
| outcome_present :
    rejection_error self now (verified_id tx) = None → is_Some (set_transactions (verified self) !! mined_id (verified_id tx)) →
    insert_outcome now self tx spent height self (inl InMempool) []
| outcome_non_standard e self' :
    rejection_error self now (verified_id tx) = None → set_transactions (verified self) !! mined_id (verified_id tx) = None →
    non_standard (max_datacarrier_bytes self) tx = Ok (Some e) → same_mempool self self' →
    insert_outcome now self tx spent height self' (inl (NonStandardTransaction e)) []
| outcome_conflict self' :
    rejection_error self now (verified_id tx) = None → set_transactions (verified self) !! mined_id (verified_id tx) = None →
    non_standard (max_datacarrier_bytes self) tx = Ok None → conflicts (set_transactions (verified self)) (verified_tx tx) →
    same_mempool self self' → insert_outcome now self tx spent height self' (inl (StorageEffectsTip SpendConflict)) []
| outcome_missing self' o :
    rejection_error self now (verified_id tx) = None → set_transactions (verified self) !! mined_id (verified_id tx) = None →
    non_standard (max_datacarrier_bytes self) tx = Ok None → ¬ conflicts (set_transactions (verified self)) (verified_tx tx) →
    o ∈ spent → (∀ out, ¬ creates (set_transactions (verified self)) o out) →
    same_mempool self self' → insert_outcome now self tx spent height self' (inl (StorageEffectsTip MissingOutput)) []
| outcome_inserted self' v victims sent :
    rejection_error self now (verified_id tx) = None → set_transactions (verified self) !! mined_id (verified_id tx) = None →
    non_standard (max_datacarrier_bytes self) tx = Ok None → ¬ conflicts (set_transactions (verified self)) (verified_tx tx) →
    (∀ o, o ∈ spent → ∃ out, creates (set_transactions (verified self)) o out) →
    (** the transaction is added, with its dependencies *)
    set_transactions v = <[mined_id (verified_id tx) := with_time tx now height]> (set_transactions (verified self)) →
    (∀ t d, edge (set_dependencies v) t d ↔
       edge (set_dependencies (verified self)) t d ∨ (d = mined_id (verified_id tx) ∧ t ∈ outpoint_hash <$> spent)) →
    (** then victims are evicted, if the costs are above the limit *)
    evicts v (verified self') victims → (map_sum cost (set_transactions v) ≤ tx_cost_limit self → victims = []) →
    (** and the requests for its outputs are answered *)
    (∀ o out, (o, out) ∈ sent ↔ o ∈ pending_outputs self ∧ own_output (mined_id (verified_id tx)) (outputs (verified_tx tx)) o = Some out) →
    (∀ o, o ∈ pending_outputs self' ↔ o ∈ pending_outputs self ∧ own_output (mined_id (verified_id tx)) (outputs (verified_tx tx)) o = None) →
    insert_outcome now self tx spent height self'
      (if is_victim (set_transactions v) (verified_id tx) victims then inl (StorageEffectsChain RandomlyEvicted) else inr (verified_id tx)) sent.

Lemma reject_tip now self id reason : storage_core now self → (∀ e, reason ≠ SameEffectsChain e) →
  ∃ self', reject self now id reason = Ok self' ∧ storage_core now self' ∧ same_mempool self self' ∧ mined_only now self self' ∅.
Proof.
  intros Hc Hn. destruct (reject_ok now self id reason (storage_rejections _ _ Hc)) as (s' & Hr & Hsame & Hok & _ & Hback); [intros e He; by destruct (Hn e)|].
  exists s'. split_and!; [done| |done|intros h [Hx|[Hx _]]%Hback; [by left|by destruct (Hn Mined)]].
  eapply storage_core_same; [exact Hc|done|done|]. intros e h [Hx|[Hx _]]%Hback; [by left|by destruct (Hn e)].
Qed.

Lemma same_mempool_ok now self self' : storage_ok now self → storage_core now self' → same_mempool self self' → storage_ok now self'.
Proof. intros [_ Hc] Hok (Hv & _ & _ & Hl & _). split; [done|]. by rewrite Hv, Hl. Qed.

Lemma cost_le tx : fits_block tx → cost tx ≤ MAX_BLOCK_BYTES.
Proof. intros [_ Hs]. unfold cost, tx_size, MEMPOOL_TRANSACTION_COST_THRESHOLD, MAX_BLOCK_BYTES in *. lia. Qed.

Lemma rejection_none_fresh self now id e : rejection_error self now id = None → ¬ rejected_for self now e (mined_id id).
Proof.
  unfold rejection_error. destruct (tip_rejected_exact self !! id); [done|]. destruct (tip_rejected_same_effects self !! mined_id id); [done|].
  unfold chain_rejection. destruct (List.find _ _) as [?|] eqn:Hf; [done|]. intros _ (l & Hl & Hc).
  assert (Hin : (e, l) ∈ map_order (chain_rejected_same_effects self)) by (rewrite map_order_perm; by apply elem_of_map_to_list).
  apply list_elem_of_In in Hin. apply (List.find_none _ _ Hf) in Hin. cbn in Hin. congruence.
Qed.

Lemma storage_insert_spec now self tx spent height : storage_ok now self → parsed_tx tx → (∀ o, o ∈ spent → o ∈ spent_outpoints (verified_tx tx)) →
  ∃ self' result sent, storage_insert self now tx spent height = Ok (self', result, sent) ∧ storage_ok now self' ∧ tx_cost_limit self' = tx_cost_limit self ∧
    mined_only now self self' ∅ ∧ insert_outcome now self tx spent height self' result sent.
Proof.
  intros Hok Hp Hs. pose proof (storage_ok_core _ _ Hok) as Hc. unfold storage_insert. destruct (rejection_error self now (verified_id tx)) as [e|] eqn:Hrej.
  { eexists _, _, _. split_and!; [done|done|done|by left|]. by apply outcome_rejected. }
  destruct (bool_decide_reflect (is_Some (set_transactions (verified self) !! mined_id (verified_id tx)))) as [Hin|Hin].
  { eexists _, _, _. split_and!; [done|done|done|by left|]. by apply outcome_present. }
  apply eq_None_not_Some in Hin. unfold reject_if_non_standard_tx. destruct (non_standard_total (max_datacarrier_bytes self) tx Hp) as [[e|] Hn]; rewrite Hn, Ok_bind.
  { destruct (reject_tip now self (verified_id tx) (RejectNonStandard e) Hc) as (s1 & -> & Hc1 & Hs1 & Hm1); [done|]. rewrite !Ok_bind.
    eexists _, _, _. split_and!; [done|by eapply same_mempool_ok|by apply Hs1|done|]. by apply outcome_non_standard. }
  rewrite Ok_bind. pose proof (parsed_fits _ Hp) as Hfit. pose proof (storage_limit _ _ Hc) as Hlim. unfold MAX_TX_COST_LIMIT in Hlim.
  pose proof (storage_cost _ _ Hok) as Hcost. pose proof (cost_le _ Hfit) as Hcl. unfold MAX_BLOCK_BYTES in Hcl.
  pose proof (set_insert_spec (verified self) tx spent (pending_outputs self) now height (storage_set _ _ Hc) Hin Hfit Hs) as Hi.
  destruct (set_insert_tx _ _ _ _ _ _) as [[[v pending] sent]|e|]; [| |done].
  - destruct Hi as (Hnc & Hv & Hcr & HT & He & Hpend & Hsent). rewrite Ok_bind. set (s1 := with_pending (with_verified self v) pending).
    assert (Hc1 : storage_core now s1).
    { destruct Hc as [_ Hl [Hm Hls Hex Hse] Hf]. split; [done|done|by split|]. intros e h [t Ht]. cbn in Ht. rewrite HT in Ht.
      apply lookup_insert_Some in Ht as [[<- _]|[_ Ht]]; [by apply rejection_none_fresh|apply Hf; eauto]. }
    assert (Hsum : map_sum cost (set_transactions v) = cost tx + map_sum cost (set_transactions (verified self))) by (by rewrite HT, map_sum_insert).
    destruct (evict_loop_spec v now (verified_id tx) _ s1 (inr (verified_id tx)) [] Hc1 ltac:(cbn; lia) ltac:(reflexivity) (evicts_none v))
      as (s2 & l & -> & Hok2 & Hs2 & Hm2 & Hev & Hno). rewrite Ok_bind. eexists _, _, _. split_and!; [done|done|by apply Hs2|exact Hm2|]. cbn [app] in Hev.
    apply (outcome_inserted _ _ _ _ _ s2 v l); try done; [intros Hle; by apply Hno|].
    intros o. destruct Hs2 as (_ & Hp2 & _). cbn in Hp2. rewrite Hp2. apply Hpend.
  - destruct (reject_tip now self (verified_id tx) (SameEffectsTip e) Hc) as (s1 & -> & Hc1 & Hs1 & Hm1); [done|]. rewrite !Ok_bind.
    pose proof (same_mempool_ok _ _ _ Hok Hc1 Hs1) as Hok1. destruct (evict_loop_spec (verified s1) now (verified_id tx) _ s1 (inl (StorageEffectsTip e)) []
      Hc1 ltac:(destruct Hs1 as (-> & _); lia) ltac:(reflexivity) (evicts_none _)) as (s2 & l & -> & _ & _ & _ & _ & Hno).
    destruct Hno as [-> ->]; [apply Hok1|]. rewrite Ok_bind. eexists _, _, _. split_and!; [done|done|by apply Hs1|done|]. cbn [is_victim existsb].
    destruct e; [by apply outcome_conflict|]. destruct Hi as (Hnc & o & Ho & Hcr). by apply (outcome_missing _ _ _ _ _ _ o).
Qed.

(** *** Removal *)

(** The transaction [h] satisfies the predicate, or depends on one that does. *)
Definition hit (v : VerifiedSet) (P : VerifiedUnminedTx → bool) (h : Hash) : Prop :=
  ∃ k tx, set_transactions v !! k = Some tx ∧ P tx = true ∧ affected (set_dependencies v) k h.

(** The set [v'] is [v] without the transactions that satisfy the predicate and what depends on them. *)
Definition removes (v v' : VerifiedSet) (P : VerifiedUnminedTx → bool) : Prop :=
  ∃ R : gset Hash, without v v' R ∧ ∀ h, h ∈ R ↔ hit v P h.

Lemma remove_all_that_removes v P : set_ok v → ∃ v' ids, remove_all_that v P = Ok (v', ids) ∧ set_ok v' ∧ removes v v' P ∧
  ∀ id, id ∈ ids ↔ ∃ h tx, set_transactions v !! h = Some tx ∧ hit v P h ∧ verified_id tx = id.
Proof.
  intros Hok. destruct (remove_all_that_spec v P Hok) as (v' & R & ids & Hr & Hok' & Hw & HR & Hids). exists v', ids. split_and!; [done|done|by exists R|].
  intros id. rewrite Hids. setoid_rewrite HR. done.
Qed.

Lemma removes_twice v v1 v2 P Q : removes v v1 P → removes v1 v2 Q → removes v v2 (λ tx, P tx || Q tx).
Proof.
  intros (R1 & [HT1 HE1] & HR1) (R2 & [HT2 HE2] & HR2). assert (Hcl : ∀ x d, x ∈ R1 → edge (set_dependencies v) x d → d ∈ R1).
  { intros x d (k & tx & Hk & Hp & Hx)%HR1 Hxd. apply HR1. exists k, tx. split_and!; [done|done|]. by eapply rtc_r. }
  exists (R1 ∪ R2). split; [split; [intros h tx; rewrite HT2, HT1|intros x d; rewrite HE2, HE1]; set_solver|].
  intros h. rewrite elem_of_union. split.
  - intros [(k & tx & Hk & Hp & Hx)%HR1|(k & tx & Hk & Hp & Hx)%HR2]; exists k, tx.
    + by rewrite Hp.
    + apply HT1 in Hk as [Hk _]. rewrite Hp, orb_true_r. split_and!; [done|done|]. eapply rtc_subrel; [|exact Hx]. intros x d [Hxd _]%HE1. done.
  - intros (k & tx & Hk & Hp & Hx). apply orb_true_iff in Hp as [Hp|Hp]; [left; apply HR1; by exists k, tx|].
    destruct (decide (h ∈ R1)) as [|Hh]; [by left|]. right. apply HR2. exists k, tx.
    assert (k ∉ R1) by (intros Hk'; destruct Hh; by eapply (rtc_closed (edge (set_dependencies v)) R1 k)). split_and!; [by apply HT1|done|].
    eapply rtc_subrel; [|by apply (path_outside (edge (set_dependencies v)) R1)]. intros x d Hxd. by apply HE1.
Qed.

Lemma removes_none v v' P h tx : removes v v' P → set_transactions v' !! h = Some tx → set_transactions v !! h = Some tx ∧ P tx = false.
Proof.
  intros (R & [HT _] & HR) [Htx Hh]%HT. split; [done|]. apply not_true_iff_false. intros Hp. apply Hh, HR. exists h, tx. split_and!; [done|done|constructor].
Qed.

Lemma removes_ok now self v P : storage_ok now self → set_ok v → removes (verified self) v P → storage_ok now (with_verified self v).
Proof.
  intros [Hc Hcost] Hv (R & Hw & _). split; [by eapply core_without|]. cbn. pose proof (cost_subset _ _ _ (storage_set _ _ Hc) Hw). lia.
Qed.

Lemma remove_exact_spec now self ids : storage_ok now self → ∃ self' n, remove_exact self ids = Ok (self', n) ∧ storage_ok now self' ∧ tx_cost_limit self' = tx_cost_limit self ∧ mined_only now self self' ∅ ∧
  removes (verified self) (verified self') (λ tx, bool_decide (verified_id tx ∈ ids)).
Proof.
  intros Hok. unfold remove_exact. destruct (remove_all_that_removes (verified self) (λ tx, bool_decide (verified_id tx ∈ ids)) (storage_set _ _ (storage_ok_core _ _ Hok)))
    as (v & rem & -> & Hv & Hr & _). rewrite Ok_bind. eexists _, _. split_and!; [done|by eapply removes_ok|done|by left|done].
Qed.

Lemma existsb_common {A} `{EqDecision A} (items : Transaction → list A) (txs : list Transaction) t :
  existsb (λ x, bool_decide (x ∈ (txs ≫= items))) (items t) = true ↔ ∃ t', t' ∈ txs ∧ ∃ x, x ∈ items t ∧ x ∈ items t'.
Proof.
  rewrite existsb_exists. setoid_rewrite bool_decide_eq_true. setoid_rewrite <- list_elem_of_In. setoid_rewrite list_elem_of_bind. naive_solver.
Qed.

Lemma duplicate_spend_spec txs t : duplicate_spend txs t = true ↔ ∃ t', t' ∈ txs ∧ conflict t t'.
Proof.
  unfold duplicate_spend, conflict. rewrite !orb_true_iff, !existsb_common. split.
  - intros [[[(t' & Ht & H)|(t' & Ht & H)]|(t' & Ht & H)]|(t' & Ht & H)]; exists t'; tauto.
  - intros (t' & Ht & [H|[H|[H|H]]]); [do 3 left|do 2 left; right|left; right|right]; eauto.
Qed.

(** The predicate of the transactions that a mined block removes. *)
Definition mined_out (mined_ids : gset Hash) (txs : list Transaction) (tx : VerifiedUnminedTx) : bool :=
  bool_decide (mined_id (verified_id tx) ∈ mined_ids) || duplicate_spend txs (verified_tx tx).

Lemma removes_ext v v' P Q : (∀ h tx, set_transactions v !! h = Some tx → P tx = Q tx) → removes v v' P → removes v v' Q.
Proof.
  intros He (R & Hw & HR). exists R. split; [done|]. intros h. rewrite HR. unfold hit. split; intros (k & tx & Hk & Hp & Ha); exists k, tx; split_and!; try done.
  - by rewrite <- (He k tx).
  - by rewrite (He k tx).
Qed.

(** The ids of some transactions of the set. *)
Lemma stored_ids_inj v (f : VerifiedUnminedTx → bool) (s : gset UnminedTxId) : set_ok v →
  (∀ id, id ∈ s ↔ ∃ h tx, set_transactions v !! h = Some tx ∧ f tx = true ∧ verified_id tx = id) → NoDup (mined_id ∘ (λ d, d) <$> set_order s).
Proof.
  intros Hv Hs. apply NoDup_fmap_2_strong.
  - intros x y Hx%elem_of_set_order Hy%elem_of_set_order Hxy. apply Hs in Hx as (h & tx & Hh & _ & <-), Hy as (h' & tx' & Hh' & _ & <-).
    unfold compose in Hxy. rewrite (set_ok_stored _ _ _ Hv Hh), (set_ok_stored _ _ _ Hv Hh') in Hxy. by simplify_eq.
  - rewrite set_order_perm. apply NoDup_elements.
Qed.

Lemma set_order_nodup {A} `{Countable A} (s : gset A) : NoDup (set_order s).
Proof. rewrite set_order_perm. apply NoDup_elements. Qed.

Lemma core_pending now self p : storage_core now self → storage_core now (with_pending self p).
Proof. intros [H1 H2 [? ? ? ?] H4]. by split. Qed.

Lemma mined_spec now self hr mined_ids txs : storage_ok now self → (∀ h, h ∈ mined_ids → ¬ rejected_for self now Mined h) →
  ∃ self' removed, reject_and_remove_same_effects self now hr mined_ids txs = Ok (self', removed) ∧ storage_ok now self' ∧
    removes (verified self) (verified self') (mined_out mined_ids txs) ∧ tx_cost_limit self' = tx_cost_limit self ∧ mined_only now self self' mined_ids.
Proof.
  intros Hok Hmined. pose proof (storage_ok_core _ _ Hok) as Hc. unfold reject_and_remove_same_effects.
  destruct (remove_all_that_removes (verified self) (λ tx, bool_decide (mined_id (verified_id tx) ∈ mined_ids)) (storage_set _ _ Hc)) as (v1 & rem1 & -> & Hv1 & Hr1 & _).
  rewrite Ok_bind. set (dups := list_to_set _ : gset UnminedTxId).
  assert (Hdups : ∀ id, id ∈ dups ↔ ∃ h tx, set_transactions v1 !! h = Some tx ∧ duplicate_spend txs (verified_tx tx) = true ∧ verified_id tx = id).
  { intros id. unfold dups. rewrite elem_of_list_to_set, list_elem_of_omap. setoid_rewrite map_order_perm. split.
    - intros ([h tx] & Hx%elem_of_map_to_list & Hd). cbn in Hd. destruct (duplicate_spend _ _) eqn:Hdd; [|done]. simplify_eq. eauto.
    - intros (h & tx & Hh & Hd & <-). exists (h, tx). split; [by apply elem_of_map_to_list|]. cbn. by rewrite Hd. }
  destruct (remove_all_that_removes v1 (λ tx, bool_decide (verified_id tx ∈ dups)) Hv1) as (v2 & rem2 & -> & Hv2 & Hr2 & _). rewrite Ok_bind.
  assert (Hr : removes (verified self) v2 (mined_out mined_ids txs)).
  { eapply removes_twice; [exact Hr1|]. eapply removes_ext; [|exact Hr2]. intros h tx Hh. apply eq_iff_eq_true. rewrite bool_decide_eq_true, Hdups. split; [|eauto].
    intros (h' & tx' & Hh' & Hd & Hid). apply (f_equal mined_id) in Hid. rewrite (set_ok_stored _ _ _ Hv1 Hh), (set_ok_stored _ _ _ Hv1 Hh') in Hid. by simplify_eq. }
  assert (Hgone : ∀ h, set_transactions v2 !! h = None ∨ ∃ tx, set_transactions (verified self) !! h = Some tx ∧ h ∉ mined_ids ∧ verified_id tx ∉ dups).
  { intros h. destruct (set_transactions v2 !! h) as [tx|] eqn:Hh; [right|by left]. pose proof (removes_none _ _ _ _ _ Hr2 Hh) as [Hh1 Hd].
    pose proof (removes_none _ _ _ _ _ Hr1 Hh1) as [Hh0 Hm]. exists tx. split; [done|]. rewrite <- (set_ok_stored _ _ _ Hv2 Hh). by rewrite !bool_decide_eq_false in *. }
  pose proof (removes_ok now self v2 _ Hok Hv2 Hr) as Hok2.
  destruct (reject_all (λ h, Legacy h) Mined now (set_order mined_ids) _ (storage_ok_core _ _ Hok2)) as (s3 & -> & Hc3 & Hs3 & Hb3).
  { cbn. rewrite list_fmap_id. apply set_order_nodup. }
  { intros h Hh%elem_of_set_order. cbn. split; [|by apply Hmined]. by destruct (Hgone h) as [?|(tx & _ & Hn & _)]. }
  rewrite Ok_bind. destruct (reject_all (λ d, d) DuplicateSpend now (set_order dups) s3 Hc3) as (s4 & -> & Hc4 & Hs4 & Hb4).
  { eapply (stored_ids_inj v1 (λ tx, duplicate_spend txs (verified_tx tx))); done. }
  { intros d Hd%elem_of_set_order. pose proof Hd as (h & tx & Hh & _ & <-)%Hdups. rewrite (set_ok_stored _ _ _ Hv1 Hh).
    destruct (removes_none _ _ _ _ _ Hr1 Hh) as [Hh0 _]. split.
    - rewrite (proj1 Hs3). cbn. destruct (Hgone h) as [?|(tx' & Htx' & _ & Hn)]; [done|]. by simplify_eq.
    - intros [Hx|[? _]]%Hb3; [|done]. by apply (storage_fresh _ _ Hc DuplicateSpend h). }
  rewrite Ok_bind. eexists _, _. split; [done|]. pose proof (same_mempool_trans _ _ _ Hs3 Hs4) as Hs. split_and!.
  - split; [by apply core_pending|]. destruct Hs as (Hv & _ & _ & Hl & _). cbn. rewrite Hv, Hl. apply Hok2.
  - cbn. by rewrite (proj1 Hs).
  - cbn. by destruct Hs as (_ & _ & _ & -> & _).
  - intros h [[Hh|[_ Hh]]%Hb3|[? _]]%Hb4; [by left| |done]. right. cbn in Hh. rewrite list_fmap_id in Hh. by apply elem_of_set_order.
Qed.

Lemma expired_spec now self tip_height : storage_ok now self →
  ∃ self' ids, remove_expired_transactions self now tip_height = Ok (self', ids) ∧ storage_ok now self' ∧ tx_cost_limit self' = tx_cost_limit self ∧ mined_only now self self' ∅ ∧
    removes (verified self) (verified self') (λ tx, has_expired_at tip_height (verified_tx tx)) ∧
    ∀ id, id ∈ ids ↔ ∃ h tx, set_transactions (verified self) !! h = Some tx ∧ has_expired_at tip_height (verified_tx tx) = true ∧ verified_id tx = id.
Proof.
  intros Hok. pose proof (storage_ok_core _ _ Hok) as Hc. unfold remove_expired_transactions. set (expired := filter _ _).
  assert (Hexp : ∀ h tx, (h, tx) ∈ expired ↔ set_transactions (verified self) !! h = Some tx ∧ has_expired_at tip_height (verified_tx tx) = true).
  { intros h tx. unfold expired. rewrite list_elem_of_filter, map_order_perm, elem_of_map_to_list. cbn. tauto. }
  set (tx_ids := list_to_set expired.*1 : gset Hash).
  assert (Hids : ∀ h, h ∈ tx_ids ↔ ∃ tx, set_transactions (verified self) !! h = Some tx ∧ has_expired_at tip_height (verified_tx tx) = true).
  { intros h. unfold tx_ids. rewrite elem_of_list_to_set, list_elem_of_fmap. split; [intros ([h' tx] & -> & ?%Hexp); eauto|].
    intros (tx & Htx). exists (h, tx). split; [done|]. by apply Hexp. }
  destruct (remove_all_that_removes (verified self) (λ tx, bool_decide (mined_id (verified_id tx) ∈ tx_ids)) (storage_set _ _ Hc)) as (v & rem & -> & Hv & Hr & _).
  rewrite Ok_bind. pose proof (removes_ok now self v _ Hok Hv Hr) as Hok1.
  destruct (reject_all (λ h, Legacy h) Expired now (set_order tx_ids) _ (storage_ok_core _ _ Hok1)) as (s & -> & Hcs & Hs & Hb).
  { cbn. rewrite list_fmap_id. apply set_order_nodup. }
  { intros h Hh%elem_of_set_order. cbn. split.
    - destruct (set_transactions v !! h) as [tx|] eqn:Htx; [|done]. pose proof (removes_none _ _ _ _ _ Hr Htx) as [_ Hd].
      by rewrite bool_decide_eq_false, (set_ok_stored _ _ _ Hv Htx) in Hd.
    - apply Hids in Hh as (tx & Htx & _). apply (storage_fresh _ _ Hc Expired h). eauto. }
  rewrite Ok_bind. eexists _, _. split; [done|]. split_and!.
  - by eapply same_mempool_ok.
  - by apply Hs.
  - intros h [?|[? _]]%Hb; [by left|done].
  - rewrite (proj1 Hs). cbn. eapply removes_ext; [|exact Hr]. intros h tx Hh. apply eq_iff_eq_true. rewrite bool_decide_eq_true, Hids.
    rewrite (set_ok_stored _ _ _ (storage_set _ _ Hc) Hh). split; [intros (tx' & Htx' & Hd); by simplify_eq|eauto].
  - intros id. rewrite elem_of_list_to_set, list_elem_of_fmap. split.
    + intros ([h tx] & -> & [Hh Hd]%Hexp). eauto.
    + intros (h & tx & Hh & Hd & <-). exists (h, tx). split; [done|]. by apply Hexp.
Qed.

(** *** The other operations *)

Lemma metrics_storage now self : rejections_ok now self → ∃ self', update_rejected_metrics self now = Ok self' ∧ same_mempool self self' ∧ rejections_ok now self' ∧
  ∀ e h, rejected_for self' now e h ↔ rejected_for self now e h.
Proof.
  intros [Hm Hl He Ht]. destruct (metrics_ok now self Hl) as (s & Hr & Hs & He' & Ht' & Hl' & Hrej). exists s. split_and!; [done|done| |done].
  destruct Hs as (_ & _ & Hmem & _). split; [by rewrite Hmem|by rewrite Hmem|by rewrite He'|by rewrite Ht'].
Qed.

Lemma clear_tip_spec now self : storage_ok now self →
  ∃ self', clear_tip_rejections self now = Ok self' ∧ storage_ok now self' ∧ same_mempool self self' ∧ mined_only now self self' ∅.
Proof.
  intros Hok. pose proof (storage_ok_core _ _ Hok) as [Hset Hlim [Hm Hl _ _] Hf]. unfold clear_tip_rejections.
  destruct (metrics_storage now (with_tip_rejected self ∅ ∅)) as (s & -> & Hs & Hr & Hrej); [by split|].
  exists s. split_and!; [done| |done|intros h Hh%Hrej; by left]. eapply same_mempool_ok; [exact Hok| |exact Hs].
  eapply (storage_core_same now self); [apply Hok|exact Hs|done|]. intros e h Hx. left. by apply Hrej in Hx.
Qed.

Lemma storage_new_ok config now : 0 ≤ config_tx_cost_limit config ≤ MAX_TX_COST_LIMIT → 0 ≤ config_eviction_memory_time config → storage_ok now (storage_new config).
Proof.
  intros Hl Hm. split; [split; [apply set_empty_ok|done|by split|]|exact (proj1 Hl)]. intros e h [tx Htx]. cbn in Htx. by rewrite lookup_empty in Htx.
Qed.

Lemma storage_clear_spec now self : storage_ok now self → ∃ self', storage_clear self now = Ok self' ∧ storage_ok now self' ∧ tx_cost_limit self' = tx_cost_limit self ∧ mined_only now self self' ∅ ∧ verified self' = set_empty.
Proof.
  intros [[Hset Hlim [Hm Hl _ _] Hf] _]. unfold storage_clear. set (s0 := mkStorage _ _ _ _ _ _ _ _).
  assert (Hok0 : storage_ok now s0) by (apply (storage_new_ok (mkMempoolConfig (tx_cost_limit self) (storage_eviction_memory_time self) None (Some (max_datacarrier_bytes self)))); done).
  destruct (metrics_storage now s0) as (s & -> & Hs & Hr & Hrej); [apply Hok0|]. exists s. split_and!; [done| |by apply Hs| |by apply Hs].
  2: { intros h (l & Hl' & _)%Hrej. cbn in Hl'. by rewrite lookup_empty in Hl'. }
  eapply same_mempool_ok; [exact Hok0| |exact Hs]. eapply (storage_core_same now s0); [apply Hok0|exact Hs|done|]. intros e h Hx. left. by apply Hrej.
Qed.

Lemma clear_mined_spec now self mined_ids : storage_ok now self → storage_ok now (storage_clear_mined_dependencies self mined_ids).
Proof.
  intros [[Hset Hlim [? ? ? ?] Hf] Hcost]. destruct (set_clear_mined_spec (verified self) mined_ids Hset) as [Hset' _]. by split; [split; [| |split|]|].
Qed.

Lemma reject_if_needed_spec now self id e : storage_ok now self →
  ∃ self', reject_if_needed self now id e = Ok self' ∧ storage_ok now self' ∧ same_mempool self self' ∧ mined_only now self self' ∅.
Proof.
  intros Hok. destruct e as [| | | |error addr]; cbn [reject_if_needed]; try (exists self; split_and!; [done|done|done|by left]).
  destruct (reject_tip now self id (ExactTip (FailedVerification error)) (storage_ok_core _ _ Hok)) as (s & -> & Hcs & Hs & Hm); [done|].
  exists s. split_and!; [done|by eapply same_mempool_ok|done|done].
Qed.

(** ** Reachable storages *)

(** The calls of the mempool service that change the storage. *)
Inductive StorageOp :=
| OpInsert (tx : VerifiedUnminedTx) (spent_mempool_outpoints : list OutPoint) (height : option Height)
| OpRemoveExact (exact_wtxids : gset UnminedTxId)
| OpClearMined (mined_ids : gset Hash)
| OpMined (has_receivers : OutPoint → bool) (mined_ids : gset Hash) (transactions : list Transaction)
| OpExpired (tip_height : Height)
| OpRejectIfNeeded (tx_id : UnminedTxId) (e : TransactionDownloadVerifyError)
| OpAwaitOutput (outpoint : OutPoint)
| OpClear
| OpClearTip.

Definition apply_op (now : Z) (self : Storage) (op : StorageOp) : Run Storage :=
  match op with
  | OpInsert tx spent height => '(self, _, _) ← storage_insert self now tx spent height; Ok self
  | OpRemoveExact ids => '(self, _) ← remove_exact self ids; Ok self
  | OpClearMined ids => Ok (storage_clear_mined_dependencies self ids)
  | OpMined has_receivers ids txs => '(self, _) ← reject_and_remove_same_effects self now has_receivers ids txs; Ok self
  | OpExpired tip_height => '(self, _) ← remove_expired_transactions self now tip_height; Ok self
  | OpRejectIfNeeded id e => reject_if_needed self now id e
  | OpAwaitOutput outpoint => Ok (await_output self outpoint).1
  | OpClear => storage_clear self now
  | OpClearTip => clear_tip_rejections self now
  end.

(** What the callers provide. Inserted transactions come from the verifier, with the outputs of other mempool transactions that it found. The ids of
    a mined block are not on the list of mined transactions yet: [EvictionList::insert] asserts that its key is new. Nothing is asked of the
    other calls: [reject_if_needed] may reject any id, a stored one included. *)
Definition op_ok (now : Z) (self : Storage) (op : StorageOp) : Prop :=
  match op with
  | OpInsert tx spent _ => parsed_tx tx ∧ ∀ o, o ∈ spent → o ∈ spent_outpoints (verified_tx tx)
  | OpMined _ ids _ => ∀ h, h ∈ ids → ¬ rejected_for self now Mined h
  | _ => True
  end.

Definition op_mined (op : StorageOp) : gset Hash := match op with OpMined _ ids _ => ids | _ => ∅ end.

Lemma apply_op_ok now self op : storage_ok now self → op_ok now self op →
  ∃ self', apply_op now self op = Ok self' ∧ storage_ok now self' ∧ tx_cost_limit self' = tx_cost_limit self ∧ mined_only now self self' (op_mined op).
Proof.
  intros Hok Hop. destruct op as [tx spent height|ids|ids|hr ids txs|tip|id e|o| |]; cbn [apply_op op_ok op_mined] in *.
  - destruct Hop as [Hp Hs]. destruct (storage_insert_spec now self tx spent height Hok Hp Hs) as (s & r & sent & -> & Hs' & Hl & Hm & _). rewrite Ok_bind. eauto.
  - destruct (remove_exact_spec now self ids Hok) as (s & n & -> & Hs & Hl & Hm & _). rewrite Ok_bind. eauto.
  - eexists. split_and!; [done|by apply clear_mined_spec|done|by left].
  - destruct (mined_spec now self hr ids txs Hok Hop) as (s & r & -> & Hs & _ & Hl & Hm). rewrite Ok_bind. eauto.
  - destruct (expired_spec now self tip Hok) as (s & r & -> & Hs & Hl & Hm & _). rewrite Ok_bind. eauto.
  - destruct (reject_if_needed_spec now self id e Hok) as (s & -> & Hs & Hsame & Hm). exists s. split_and!; [done|done|apply Hsame|done].
  - eexists. split; [done|]. destruct Hok as [Hc Hcost]. unfold await_output. destruct (created_outputs _ !! o) as [out|]; [destruct (pending_respond _ _ _)|];
      (split_and!; [split; [by apply core_pending|done]|done|by left]).
  - destruct (storage_clear_spec now self Hok) as (s & -> & Hs & Hl & Hm & _). eauto.
  - destruct (clear_tip_spec now self Hok) as (s & -> & Hs & Hsame & Hm). exists s. split_and!; [done|done|apply Hsame|done].
Qed.

(** The storages that a configuration reaches, with the time of the last call. *)
Inductive mempool_reachable (config : MempoolConfig) : Z → Storage → Prop :=
| mempool_start now : mempool_reachable config now (storage_new config)
| mempool_call now now' self op self' : mempool_reachable config now self → now ≤ now' → op_ok now' self op → apply_op now' self op = Ok self' →
    mempool_reachable config now' self'.

Lemma mempool_reachable_ok config now self : 0 ≤ config_tx_cost_limit config ≤ MAX_TX_COST_LIMIT → 0 ≤ config_eviction_memory_time config →
  mempool_reachable config now self → storage_ok now self ∧ tx_cost_limit self = config_tx_cost_limit config.
Proof.
  intros Hl Hm. induction 1 as [now|now now' self op self' Hr [IH IHl] Hn Hop Ha]; [by split; [apply storage_new_ok|]|].
  destruct (apply_op_ok now' self op) as (s & Hs & Hok & Hsl & _); [by eapply storage_ok_later|done|]. rewrite Ha in Hs. injection Hs as <-. split; [done|congruence].
Qed.

Lemma set_ok_no_conflict v h h' tx tx' : set_ok v → set_transactions v !! h = Some tx → set_transactions v !! h' = Some tx' → h ≠ h' →
  ¬ conflict (verified_tx tx) (verified_tx tx').
Proof.
  intros [[_ _ _ _ H1 H2 H3 H4] _] Hh Hh' Hne [(x & Hx & Hx')|[(x & Hx & Hx')|[(x & Hx & Hx')|(x & Hx & Hx')]]]; apply Hne.
  - by eapply (tracks_once _ _ _ H1).
  - by eapply (tracks_once _ _ _ H2).
  - by eapply (tracks_once _ _ _ H3).
  - by eapply (tracks_once _ _ _ H4).
Qed.

Lemma list_ok_bound memory now l : list_ok memory now l → Z.of_nat (size (unique_entries l)) ≤ MAX_EVICTION_MEMORY_ENTRIES.
Proof.
  intros [[es [_ Hu Hd _ Hs]] [Hm _]]. rewrite Hu, <- size_dom, dom_list_to_map_L, size_list_to_set, length_fmap by done. lia.
Qed.

(** C9: when the transactions that are inserted come from the verifier, and no transaction is reported as mined while it is still listed as mined,
    the operations of the mempool storage never panic, whatever the order of the calls, of the hash tables and of the random choices. Every
    storage they reach is consistent: no two of its transactions spend the same output or reveal the same nullifier; the tracked cost is the
    sum of the costs, and it is at most the configured limit; every tracked dependency is a spend of an output of a transaction of the
    mempool by another one; the lists of rejected transactions have at most 40000 entries; and no transaction of the mempool is on one of
    the chain rejection lists, those that outlive the tip. Nothing is claimed of the two lists that are cleared at each new tip. *)
Theorem reachable_mempool config now self (Hlimit : 0 ≤ config_tx_cost_limit config ≤ MAX_TX_COST_LIMIT)
    (Hmemory : 0 ≤ config_eviction_memory_time config) (Hreach : mempool_reachable config now self) (T := set_transactions (verified self)) :
  (∀ h h' tx tx', T !! h = Some tx → T !! h' = Some tx' → h ≠ h' → ¬ conflict (verified_tx tx) (verified_tx tx')) ∧
  set_total_cost (verified self) = map_sum cost T ∧ map_sum cost T ≤ config_tx_cost_limit config ∧
  (∀ t d, edge (set_dependencies (verified self)) t d →
     ∃ o out tx, outpoint_hash o = t ∧ creates T o out ∧ T !! d = Some tx ∧ o ∈ spent_outpoints (verified_tx tx)) ∧
  Z.of_nat (size (tip_rejected_exact self)) ≤ MAX_EVICTION_MEMORY_ENTRIES ∧
  Z.of_nat (size (tip_rejected_same_effects self)) ≤ MAX_EVICTION_MEMORY_ENTRIES ∧
  (∀ e l, chain_rejected_same_effects self !! e = Some l → Z.of_nat (size (unique_entries l)) ≤ MAX_EVICTION_MEMORY_ENTRIES) ∧
  (∀ e h, is_Some (T !! h) → ¬ rejected_for self now e h) ∧
  ∀ now' op, now ≤ now' → op_ok now' self op → ∃ self', apply_op now' self op = Ok self'.
Proof.
  destruct (mempool_reachable_ok config now self Hlimit Hmemory Hreach) as [Hok Hl]. pose proof Hok as [[Hs Hlim [Hm Hls He Ht] Hf] Hc].
  unfold MAX_TX_COST_LIMIT in *. split_and!.
  - intros h h' tx tx' Hh Hh' Hne. by eapply set_ok_no_conflict.
  - apply total_cost_exact; [done|lia].
  - unfold T. lia.
  - apply Hs.
  - done.
  - done.
  - intros e l Hel. eapply list_ok_bound. by eapply Hls.
  - done.
  - intros now' op Hn Hop. destruct (apply_op_ok now' self op) as (s & Hr & _); [by eapply storage_ok_later|done|eauto].
Qed.

(** C17: inserting a verified transaction always returns, and does exactly this. A transaction with a cached rejection, one that is
    already there, or one that is not standard is refused, as is one that conflicts with the mempool or spends an output that left the
    mempool. Otherwise it is added with its dependencies on the transactions whose outputs it spends, and the requests waiting for its
    outputs are answered. If the costs are then above the limit, victims are evicted with everything that depends on them until the
    costs are within the limit; the result is an error if the transaction is itself a victim. *)
Theorem insert_exact now self tx spent height (Hok : storage_ok now self) (Hparsed : parsed_tx tx)
    (Hspent : ∀ o, o ∈ spent → o ∈ spent_outpoints (verified_tx tx)) :
  ∃ self' result sent, storage_insert self now tx spent height = Ok (self', result, sent) ∧
    insert_outcome now self tx spent height self' result sent ∧
    map_sum cost (set_transactions (verified self')) ≤ tx_cost_limit self ∧ storage_ok now self'.
Proof.
  destruct (storage_insert_spec now self tx spent height Hok Hparsed Hspent) as (s & r & sent & Hr & Hs & Hl & _ & Ho).
  exists s, r, sent. split_and!; [done|done| |done]. rewrite <- Hl. apply Hs.
Qed.

End Invariant.

(** ** Samples *)

#[local] Existing Instance sample_curves.
#[local] Existing Instance sample_curve_laws.
#[local] Existing Instance sample_lib.
#[local] Existing Instance sample_sighash.
#[local] Existing Instance sample_script.
#[local] Existing Instance sample_hashes.
#[local] Existing Instance sample_verifiers.
Definition sample_policy : PolicyLib := {| standard_script _ := Some PubKeyHash; is_push_only _ := true |}.
#[local] Existing Instance sample_policy.
#[local] Existing Instance graph_order.
#[local] Existing Instance graph_order_laws.
Definition sample_sampler : Sampler := {| sample weights := match weights with [] => None | _ => Some 0%nat end |}.
#[local] Existing Instance sample_sampler.

Lemma sample_sampler_laws : SamplerLaws.
Proof. split. intros [|w l] _ Hs; [unfold sum_Z in Hs; cbn in Hs; lia|]. exists 0%nat. split; [done|cbn; lia]. Qed.
#[local] Existing Instance sample_sampler_laws.

Definition pool_tx (h : Hash) (v : Z) : Transaction := V4 [PrevOut (mkOutPoint h 0) [] 0] [mkOutput (mkAmount v) [7]] unlocked 0 None None.
Definition pool_verified (t : Transaction) : VerifiedUnminedTx :=
  mkVerified (ok_value (mkUnmined t (Legacy []) 0 (mkAmount 0)) (unmined_from t)) (mkAmount 10000) 0 0 2 0 None None [].
Definition parent_tx : VerifiedUnminedTx := pool_verified (pool_tx (replicate 32 1) 20000).
Definition parent_outpoint : OutPoint := mkOutPoint (mined_id (verified_id parent_tx)) 0.
Definition child_tx : VerifiedUnminedTx := pool_verified (pool_tx (mined_id (verified_id parent_tx)) 10000).
Definition pool_config : MempoolConfig := mkMempoolConfig 15000 3600 None None.
Definition pool_insert (self : Storage) (tx : VerifiedUnminedTx) (spent : list OutPoint) : Storage * (MempoolError + UnminedTxId) * Responses :=
  ok_value (self, inl Disabled, []) (storage_insert self 0 tx spent None).
Definition parent_pool : Storage := (pool_insert (storage_new pool_config) parent_tx []).1.1.

Lemma pool_wire t : forallb (λ b, (0 <=? b) && (b <? 256)) (ok_value [] (Transaction_serialize t)) = true →
  Transaction_deserialize (ok_value [] (Transaction_serialize t)) = Ok (t, []) → tx_wire_ok t.
Proof.
  intros Hb Hr. apply (reads tx_codec (ok_value [] (Transaction_serialize t)) t []); [|done]. by apply bytes_ok_forallb.
Qed.

Lemma pool_parsed t u : tx_wire_ok t → unmined_from t = Ok u → parsed_tx (pool_verified t).
Proof.
  intros Hw Hu. assert (Hut : unmined_transaction u = t) by (apply bind_Ok in Hu as (? & _ & (? & _ & (? & _ & [= <-])%bind_Ok)%bind_Ok); done).
  unfold parsed_tx, verified_tx, pool_verified. cbn [verified_transaction]. rewrite Hu. cbn [ok_value]. by rewrite Hut.
Qed.

Lemma parent_parsed : parsed_tx parent_tx.
Proof.
  eapply pool_parsed; [apply pool_wire; vm_compute; reflexivity|]. apply (ok_value_eq (mkUnmined (pool_tx [] 0) (Legacy []) 0 (mkAmount 0))). vm_compute. reflexivity.
Qed.
Lemma child_parsed : parsed_tx child_tx.
Proof.
  eapply pool_parsed; [apply pool_wire; vm_compute; reflexivity|]. apply (ok_value_eq (mkUnmined (pool_tx [] 0) (Legacy []) 0 (mkAmount 0))). vm_compute. reflexivity.
Qed.
Lemma parent_op_ok : op_ok 0 (storage_new pool_config) (OpInsert parent_tx [] None).
Proof. split; [apply parent_parsed|]. intros o Ho. by apply elem_of_nil in Ho. Qed.
Lemma child_op_ok : op_ok 0 parent_pool (OpInsert child_tx [parent_outpoint] None).
Proof.
  split; [apply child_parsed|]. intros o ->%list_elem_of_singleton.
  apply (proj1 (bool_decide_eq_true (parent_outpoint ∈ spent_outpoints (verified_tx child_tx)))). vm_compute. reflexivity.
Qed.

Lemma pool_insert_eq self tx spent : is_ok (storage_insert self 0 tx spent None) = true → storage_insert self 0 tx spent None = Ok (pool_insert self tx spent).
Proof. apply ok_value_eq. Qed.

Lemma parent_pool_reachable : mempool_reachable pool_config 0 parent_pool.
Proof.
  apply (mempool_call _ 0 0 (storage_new pool_config) (OpInsert parent_tx [] None)); [constructor|done|apply parent_op_ok|].
  assert (H : is_ok (storage_insert (storage_new pool_config) 0 parent_tx [] None) = true) by (vm_compute; reflexivity). cbn [apply_op].
  rewrite (pool_insert_eq _ _ _ H), Ok_bind. unfold parent_pool. by destruct (pool_insert _ _ _) as [[s r] sent].
Qed.

(** the insertion of a transaction can report success although the transaction is not in the mempool: when the victim of the eviction is
    a transaction that the new one depends on, the new one is removed with it, but only the victim itself is compared with it. *)
Theorem evicted_dependent_reported : ∃ config now self tx spent self' sent, mempool_reachable config now self ∧ op_ok now self (OpInsert tx spent None) ∧
  storage_insert self now tx spent None = Ok (self', inr (verified_id tx), sent) ∧
  set_transactions (verified self') !! mined_id (verified_id tx) = None ∧ rejection_error self' now (verified_id tx) = None.
Proof.
  assert (H : is_ok (storage_insert parent_pool 0 child_tx [parent_outpoint] None) = true) by (vm_compute; reflexivity).
  apply pool_insert_eq in H. set (r := pool_insert parent_pool child_tx [parent_outpoint]) in H.
  assert (Hr : match r with (s, inr id, _) => bool_decide (id = verified_id child_tx) &&
      bool_decide (set_transactions (verified s) !! mined_id id = None) && negb (contains_rejected s 0 id) | _ => false end = true) by (vm_compute; reflexivity).
  destruct r as [[s [e|id]] sent]; [done|]. apply andb_true_iff in Hr as [[Hid Hn]%andb_true_iff Hrej]. apply bool_decide_eq_true in Hid as ->, Hn.
  apply negb_true_iff, bool_decide_eq_false, eq_None_not_Some in Hrej.
  exists pool_config, 0, parent_pool, child_tx, [parent_outpoint], s, sent. split_and!; [apply parent_pool_reachable|apply child_op_ok|done|done|done].
Qed.

Lemma parent_pool_ok : storage_ok 0 parent_pool.
Proof. by apply (mempool_reachable_ok pool_config 0 parent_pool), parent_pool_reachable. Qed.

Lemma reachable_mempool_witness : set_total_cost (verified parent_pool) ≤ 15000 ∧ ∃ self', apply_op 5 parent_pool (OpExpired 100) = Ok self'.
Proof.
  destruct (reachable_mempool pool_config 0 parent_pool ltac:(done) ltac:(done) parent_pool_reachable) as (_ & Hc & Hl & _ & _ & _ & _ & _ & Hop).
  split; [rewrite Hc; exact Hl|]. by apply Hop.
Defined.

Lemma insert_exact_witness : ∃ self' result sent, storage_insert parent_pool 0 child_tx [parent_outpoint] None = Ok (self', result, sent) ∧
  map_sum cost (set_transactions (verified self')) ≤ 15000.
Proof.
  destruct (insert_exact 0 parent_pool child_tx [parent_outpoint] None parent_pool_ok child_parsed (proj2 child_op_ok)) as (s & r & sent & Hr & _ & Hl & _).
  exists s, r, sent. split; [exact Hr|]. exact Hl.
Defined.
