(* ===== verification/Mempool.v ===== *)
(** * The mempool service

    [zebrad/src/components/mempool.rs]: the service that enables the mempool near the tip, stores the transactions that its downloads return,
    follows the best chain, and answers requests; and [mempool/downloads.rs]: the downloads and verifications of gossiped transactions.
    The tasks of the downloads run elsewhere: a task ends with the outcome that its services have at that time, or it is cancelled, or it
    runs out of time. What the service reads from the rest of the node is an argument. The metrics and the progress bars are left out. *)

From stdpp Require Import strings.
From S2P Require Import Prelude Height Amount Network Serialization Transaction Merkle TransparentCodec ShieldedCodec TransactionCodec Sighash Unmined Script TxChecks TxVerifier Reversible ChainTip MempoolDeps EvictionList VerifiedSet MempoolStorage MempoolInvariant.

(** [Gossip] of [zebra-node-services/src/mempool/gossip.rs]. *)
Inductive Gossip :=
| GossipId (txid : UnminedTxId)
| GossipTx (tx : UnminedTx).
Definition gossip_id (self : Gossip) : UnminedTxId := match self with GossipId txid => txid | GossipTx tx => unmined_tx_id tx end.
Definition gossip_tx (self : Gossip) : option UnminedTx := match self with GossipId _ => None | GossipTx tx => Some tx end.

Definition MAX_INBOUND_CONCURRENCY : Z := 25.

Section Service.
Context `{CL : !CurveLib, LZ : !LibRustZcash, SL : !SighashLib, HF : !HashFns, ZS : !ScriptLib, VL : !VerifierLib, PL : !PolicyLib,
  HO : !HashOrder, SA : !Sampler}.

(** ** A download *)

(** What the services answer to a task: whether the state has the transaction, its tip, the transactions from the network, and the verifier. *)
Record TaskEnv := mkTaskEnv {
  task_in_best_chain : Hash → Res unit bool;
  task_tip : Res unit (option (Height * Hash));
  task_network : UnminedTxId → Res unit (list (option (UnminedTx * option PeerSocketAddr)));
  task_verifier : Request → Res BoxError Response;
}.

Definition transaction_in_best_chain (env : TaskEnv) (txid : UnminedTxId) : Res TransactionDownloadVerifyError unit :=
  found ← map_err (λ _, StateError) (task_in_best_chain env (mined_id txid));
  if (found : bool) then Err InState else Ok tt.

(** The future that [download_if_needed_and_verify] spawns. *)
Definition download_task (env : TaskEnv) (gossiped_tx : Gossip) :
    Res TransactionDownloadVerifyError (VerifiedUnminedTx * list OutPoint * option Height) :=
  let txid := gossip_id gossiped_tx in
  _ ← transaction_in_best_chain env txid;
  tip ← map_err (λ _, StateError) (task_tip env);
  '(tip_height, next_height) ← match tip with
                               | None => Ok (None, 0)
                               | Some (height, _) => next_height ← expect (add_diff height 1); Ok (Some height, next_height)
                               end;
  '(tx, advertiser_addr) ← match gossiped_tx with
                           | GossipId txid =>
                               txs ← map_err (λ _, DownloadFailed) (task_network env txid);
                               tx ← ok_or (last txs) DownloadFailed;
                               expect tx
                           | GossipTx tx => Ok (tx, None)
                           end;
  rsp ← map_err (λ e, Invalid (from_box_error e) advertiser_addr) (task_verifier env (MempoolRequest tx next_height));
  match rsp with
  | MempoolResponse transaction spent_mempool_outpoints => Ok (transaction, spent_mempool_outpoints, tip_height)
  | BlockResponse _ _ _ => Panic
  end.

(** ** The downloads *)

(** A pending task: its request, and the channel for its result. *)
Definition Task : Type := Gossip * option Z.
Record Downloads := mkDownloads {
  dl_pending : list Task;
  cancel_handles : gmap UnminedTxId Gossip;
}.
Definition downloads_new : Downloads := mkDownloads [] ∅.

Definition download_if_needed_and_verify (self : Downloads) (gossiped_tx : Gossip) (rsp_tx : option Z) : Run (Downloads * option MempoolError) :=
  let txid := gossip_id gossiped_tx in
  if bool_decide (is_Some (cancel_handles self !! txid)) then Ok (self, Some AlreadyQueued) else
  if MAX_INBOUND_CONCURRENCY <=? Z.of_nat (length (dl_pending self)) then Ok (self, Some FullQueue) else
  let pending := dl_pending self ++ [(gossiped_tx, rsp_tx)] in
  _ ← assert (bool_decide (cancel_handles self !! txid = None));
  Ok (mkDownloads pending (<[txid := gossiped_tx]> (cancel_handles self)), None).

(** [cancel]: the tasks stay pending until they end. *)
Definition dl_cancel (self : Downloads) (mined_ids : gset Hash) : Downloads :=
  mkDownloads (dl_pending self) (filter (λ e, mined_id e.1 ∉ mined_ids) (cancel_handles self)).
Definition cancel_all (self : Downloads) : Downloads := mkDownloads [] ∅.
Definition in_flight (self : Downloads) : Z := Z.of_nat (length (dl_pending self)).
Definition transaction_requests (self : Downloads) : list Gossip := (map_order (cancel_handles self)).*2.

(** How a task ends: it was cancelled, its time ran out, or its services answered. *)
Inductive TaskEnd := EndCancelled | EndElapsed | EndDone (env : TaskEnv).

Inductive DownloadItem :=
| ItemVerified (tx : VerifiedUnminedTx) (spent_mempool_outpoints : list OutPoint) (expected_tip_height : option Height) (rsp_tx : option Z)
| ItemFailed (tx_id : UnminedTxId) (error : TransactionDownloadVerifyError)
| ItemElapsed.

(** [poll_next], when the task number [i] is the next one that has ended. There may be no such task. *)
Definition poll_next (self : Downloads) (i : nat) (e : TaskEnd) : Run (option (Downloads * DownloadItem)) :=
  match dl_pending self !! i with
  | None => Ok None
  | Some (gossiped_tx, rsp_tx) =>
      let pending := delete i (dl_pending self) in
      let failed error :=
        let txid := gossip_id gossiped_tx in
        (mkDownloads pending (delete txid (cancel_handles self)), ItemFailed txid error) in
      match e with
      | EndCancelled => Ok (Some (failed Cancelled))
      | EndElapsed => Ok (Some (mkDownloads pending (cancel_handles self), ItemElapsed))
      | EndDone env =>
          match download_task env gossiped_tx with
          | Ok (tx, spent_mempool_outpoints, tip_height) =>
              Ok (Some (mkDownloads pending (delete (verified_id tx) (cancel_handles self)), ItemVerified tx spent_mempool_outpoints tip_height rsp_tx))
          | Err error => Ok (Some (failed error))
          | Panic => Panic
          end
      end
  end.

(** ** The service *)

Inductive ActiveState :=
| StateDisabled
| StateEnabled (storage : Storage) (tx_downloads : Downloads) (last_seen_tip_hash : Hash).

Record Mempool := mkMempool {
  mempool_config : MempoolConfig;
  active_state : ActiveState;
  chain_tip_change : ChainTipChange;
}.
Definition with_state (self : Mempool) (st : ActiveState) : Mempool := mkMempool (mempool_config self) st (chain_tip_change self).
Definition with_change (self : Mempool) (c : ChainTipChange) : Mempool := mkMempool (mempool_config self) (active_state self) c.

Definition is_enabled (self : Mempool) : bool := match active_state self with StateDisabled => false | StateEnabled _ _ _ => true end.

Definition transaction_retry_requests (self : ActiveState) : list Gossip :=
  match self with
  | StateDisabled => []
  | StateEnabled storage tx_downloads _ =>
      (GossipTx ∘ verified_transaction <$> (map_order (set_transactions (verified storage))).*2) ++ transaction_requests tx_downloads
  end.

(** What the service reads: whether the syncer is close to the tip, and the height of the best tip. *)
Record TipReads := mkReads { is_close_to_tip : bool; read_best_tip_height : option Height }.

Definition is_enabled_by_debug (self : Mempool) (reads : TipReads) : bool :=
  match debug_enable_at_height (mempool_config self) with
  | None => false
  | Some enable_at_height =>
      match read_best_tip_height reads with Some best_tip_height => enable_at_height <=? best_tip_height | None => false end
  end.

(** [update_state]: the new state, and whether it changed. *)
Definition update_state (self : Mempool) (reads : TipReads) (tip_action : option TipAction) : Mempool * bool :=
  let is_close_to_tip := is_close_to_tip reads || is_enabled_by_debug self reads in
  match is_close_to_tip, is_enabled self, tip_action with
  | false, false, _ | true, true, _ | true, false, None => (self, false)
  | true, false, Some tip_action =>
      let '(last_seen_tip_hash, _) := best_tip_hash_and_height tip_action in
      (with_state self (StateEnabled (storage_new (mempool_config self)) downloads_new last_seen_tip_hash), true)
  | false, true, _ => (with_state self StateDisabled, true)
  end.

Definition mempool_new (config : MempoolConfig) (change : ChainTipChange) (reads : TipReads) : Mempool :=
  (update_state (mkMempool config StateDisabled change) reads None).1.

Definition remove_expired_from_peer_list (send_to_peers_ids expired_transactions : gset UnminedTxId) : gset UnminedTxId :=
  filter (λ id, id ∉ expired_transactions) send_to_peers_ids.

(** *** Polling *)

Inductive MempoolChangeKind := AddedChange | InvalidatedChange | MinedChange.
Definition MempoolChange : Type := MempoolChangeKind * gset UnminedTxId.

(** What a poll has collected and sent so far: the ids for the listeners, the reports of peers, and the results for the callers. *)
Record Collected := mkCollected {
  send_to_peers_ids : gset UnminedTxId;
  invalidated_ids : gset UnminedTxId;
  mined_mempool_ids : gset UnminedTxId;
  misbehavior : list (PeerSocketAddr * Z);
  replies : list (Z * (MempoolError + unit));
}.
Definition nothing_collected : Collected := mkCollected ∅ ∅ ∅ [] [].

(** One round of the loop over the downloads that have ended. *)
Definition handle_item (best_tip_height : option Height) (now : Z) (storage : Storage) (tx_downloads : Downloads) (c : Collected) (item : DownloadItem) :
    Run (Storage * Downloads * Collected) :=
  match item with
  | ItemVerified tx spent_mempool_outpoints expected_tip_height rsp_tx =>
      if bool_decide (best_tip_height = expected_tip_height) then
        let tx_id := verified_id tx in
        '(storage, insert_result, _) ← storage_insert storage now tx spent_mempool_outpoints best_tip_height;
        let c := match insert_result with
                 | inr inserted_id => mkCollected (send_to_peers_ids c ∪ {[inserted_id]}) (invalidated_ids c) (mined_mempool_ids c) (misbehavior c) (replies c)
                 | inl _ => mkCollected (send_to_peers_ids c) (invalidated_ids c ∪ {[tx_id]}) (mined_mempool_ids c) (misbehavior c) (replies c)
                 end in
        let reply := match insert_result with inr _ => inr tt | inl err => inl err end in
        let sent := (λ rsp_tx, (rsp_tx, reply)) <$> option_list rsp_tx in
        Ok (storage, tx_downloads, mkCollected (send_to_peers_ids c) (invalidated_ids c) (mined_mempool_ids c) (misbehavior c) (replies c ++ sent))
      else
        '(tx_downloads, _) ← download_if_needed_and_verify tx_downloads (GossipTx (verified_transaction tx)) rsp_tx;
        Ok (storage, tx_downloads, c)
  | ItemFailed tx_id error =>
      let reports := match error with
                     | Invalid error (Some advertiser_addr) =>
                         if negb (mempool_misbehavior_score error =? 0) then [(advertiser_addr, mempool_misbehavior_score error)] else []
                     | _ => []
                     end in
      storage ← reject_if_needed storage now tx_id error;
      Ok (storage, tx_downloads, mkCollected (send_to_peers_ids c) (invalidated_ids c ∪ {[tx_id]}) (mined_mempool_ids c) (misbehavior c ++ reports) (replies c))
  | ItemElapsed => Ok (storage, tx_downloads, c)
  end.

(** A task that has ended: the time, its number and its end. *)
Definition TaskEvent : Type := Z * nat * TaskEnd.
Definition handle_event (best_tip_height : option Height) (st : Storage * Downloads * Collected) (e : TaskEvent) : Run (Storage * Downloads * Collected) :=
  let '(storage, tx_downloads, c) := st in
  let '(now, i, task_end) := e in
  polled ← poll_next tx_downloads i task_end;
  match polled with
  | Some (tx_downloads, item) => handle_item best_tip_height now storage tx_downloads c item
  | None => Ok st
  end.

(** The block that grows the tip. *)
Definition handle_grow (now : Z) (has_receivers : OutPoint → bool) (storage : Storage) (tx_downloads : Downloads) (c : Collected) (block : ChainTipBlock) :
    Run (Storage * Downloads * Collected) :=
  let mined_ids : gset Hash := list_to_set (tip_transaction_hashes block) in
  let tx_downloads := dl_cancel tx_downloads mined_ids in
  let storage := storage_clear_mined_dependencies storage mined_ids in
  '(storage, removed) ← reject_and_remove_same_effects storage now has_receivers mined_ids (tip_transactions block);
  storage ← clear_tip_rejections storage now;
  Ok (storage, tx_downloads, mkCollected (send_to_peers_ids c) (invalidated_ids c ∪ removed_invalidated removed)
        (mined_mempool_ids c ∪ removed_mined removed) (misbehavior c) (replies c)).

(** The transactions that expire at the tip. *)
Definition handle_expired (now : Z) (storage : Storage) (c : Collected) (tip_height : Height) : Run (Storage * Collected) :=
  '(storage, expired_transactions) ← remove_expired_transactions storage now tip_height;
  Ok (storage, mkCollected (remove_expired_from_peer_list (send_to_peers_ids c) expired_transactions)
        (invalidated_ids c ∪ expired_transactions) (mined_mempool_ids c) (misbehavior c) (replies c)).

(** The changes that are sent: nothing more is sent after a failure, which happens when the channel has no subscribers. *)
Definition send_changes (has_subscribers : bool) (c : Collected) : list MempoolChange * bool :=
  let changes := filter (λ ch, ch.2 ≠ ∅) [(AddedChange, send_to_peers_ids c); (InvalidatedChange, invalidated_ids c); (MinedChange, mined_mempool_ids c)] in
  if has_subscribers then (changes, true) else ([], bool_decide (changes = [])).

(** What a poll reads, in the order of the code: the tip of [last_tip_change], the two calls of [update_state], the height of the best tip,
    the tasks that have ended, and the clock. *)
Record PollInputs := mkPollInputs {
  poll_channel : Watch;
  poll_reads : TipReads;
  poll_reads_again : TipReads;
  poll_best_tip_height : option Height;
  poll_events : list TaskEvent;
  poll_grow_time : Z;
  poll_expire_time : Z;
  poll_has_receivers : OutPoint → bool;
  poll_has_subscribers : bool;
}.

(** What a poll returns: whether the service is ready, the changes for the listeners, and what was collected. *)
Record PollOutput := mkPollOutput { poll_ready_ok : bool; poll_changes : list MempoolChange; poll_collected : Collected }.
Definition poll_nothing : PollOutput := mkPollOutput true [] nothing_collected.

(** The reset of an enabled mempool: its transactions and requests are queued again. *)
Definition poll_reset (self : Mempool) (inputs : PollInputs) (action : option TipAction) : Run Mempool :=
  let tx_retries := transaction_retry_requests (active_state self) in
  let self := with_state self StateDisabled in
  let '(self, _) := update_state self (poll_reads_again inputs) action in
  match active_state self with
  | StateEnabled storage tx_downloads last_seen_tip_hash =>
      tx_downloads ← foldM (λ dl tx, '(dl, _) ← download_if_needed_and_verify dl tx None; Ok dl) tx_downloads tx_retries;
      Ok (with_state self (StateEnabled storage tx_downloads last_seen_tip_hash))
  | StateDisabled => Ok self
  end.

(** The poll of an enabled mempool. *)
Definition poll_enabled (storage : Storage) (tx_downloads : Downloads) (last_seen_tip_hash : Hash) (inputs : PollInputs) (action : option TipAction) :
    Run (ActiveState * Collected) :=
  '(storage, tx_downloads, c) ← foldM (handle_event (poll_best_tip_height inputs)) (storage, tx_downloads, nothing_collected) (poll_events inputs);
  '(storage, tx_downloads, c, last_seen_tip_hash) ←
    match action with
    | Some (Grow block) =>
        '(storage, tx_downloads, c) ← handle_grow (poll_grow_time inputs) (poll_has_receivers inputs) storage tx_downloads c block;
        Ok (storage, tx_downloads, c, tip_hash block)
    | _ => Ok (storage, tx_downloads, c, last_seen_tip_hash)
    end;
  '(storage, c) ← match poll_best_tip_height inputs with
                  | Some tip_height => handle_expired (poll_expire_time inputs) storage c tip_height
                  | None => Ok (storage, c)
                  end;
  Ok (StateEnabled storage tx_downloads last_seen_tip_hash, c).

Definition poll_ready (self : Mempool) (inputs : PollInputs) : Run (Mempool * PollOutput) :=
  '(action, change) ← last_tip_change (chain_tip_change self) (poll_channel inputs);
  let self := with_change self change in
  let '(self, is_state_changed) := update_state self (poll_reads inputs) action in
  match active_state self with
  | StateDisabled => Ok (self, poll_nothing)
  | StateEnabled storage tx_downloads last_seen_tip_hash =>
      if negb is_state_changed && match action with Some action => is_reset action | None => false end then
        self ← poll_reset self inputs action;
        Ok (self, poll_nothing)
      else
        '(st, c) ← poll_enabled storage tx_downloads last_seen_tip_hash inputs action;
        let '(changes, ready) := send_changes (poll_has_subscribers inputs) c in
        Ok (with_state self st, mkPollOutput ready changes c)
  end.

(** *** Requests *)

Inductive PoolRequest :=
| TransactionIds
| TransactionsById (ids : gset UnminedTxId)
| TransactionsByMinedId (ids : gset Hash)
| AwaitOutput (outpoint : OutPoint)
| TransactionWithDepsByMinedId (tx_id : Hash)
| FullTransactions
| RejectedTransactionIds (ids : gset UnminedTxId)
| Queue (gossiped_txs : list (Gossip * Z))
| CheckForVerifiedTransactions
| QueueStats
| UnspentOutput (outpoint : OutPoint).

Inductive CreatedOrSpent :=
| Created (output : Output) (tx_version : Z) (last_seen_hash : Hash)
| Spent.

(** The responses. The future of [AwaitOutput] is the outpoint it waits for; a transaction is queued with the channel for its result, or
    refused. *)
Inductive PoolResponse :=
| RespTransactionIds (ids : gset UnminedTxId)
| RespTransactions (transactions : list UnminedTx)
| RespAwaitOutput (outpoint : OutPoint)
| RespTransactionWithDeps (transaction : VerifiedUnminedTx) (dependencies : gset Hash)
| RespFullTransactions (transactions : list VerifiedUnminedTx) (transaction_dependencies : TransactionDependencies) (last_seen_tip_hash : Hash)
| RespRejectedTransactionIds (ids : list UnminedTxId)
| RespQueued (results : list (MempoolError + Z))
| RespChecked
| RespQueueStats (size bytes usage : Z) (fully_notified : option bool)
| RespTransparentOutput (output : option CreatedOrSpent).

Definition not_found : string := "transaction not found in mempool".
Definition not_active : string := "mempool is not active: wait for Zebra to sync to the tip".

(** The queue request: each transaction is checked against the storage, then queued. *)
Definition queue_one (now : Z) (storage : Storage) (st : Downloads * list (MempoolError + Z)) (g : Gossip * Z) : Run (Downloads * list (MempoolError + Z)) :=
  let '(tx_downloads, results) := st in
  match should_download_or_verify storage now (gossip_id g.1) with
  | Some error => Ok (tx_downloads, results ++ [inl error])
  | None =>
      '(tx_downloads, error) ← download_if_needed_and_verify tx_downloads g.1 (Some g.2);
      Ok (tx_downloads, results ++ [match error with Some error => inl error | None => inr g.2 end])
  end.

Definition unspent_output (storage : Storage) (last_seen_tip_hash : Hash) (outpoint : OutPoint) : option CreatedOrSpent :=
  if bool_decide (outpoint ∈ set_spent_outpoints (verified storage)) then Some Spent else
  tx ← verified_tx <$> set_transactions (verified storage) !! outpoint_hash outpoint;
  output ← outputs tx !! Z.to_nat (outpoint_index outpoint);
  Some (Created output (version tx) last_seen_tip_hash).

Definition call_enabled (now : Z) (storage : Storage) (tx_downloads : Downloads) (last_seen_tip_hash : Hash) (req : PoolRequest) :
    Run (Storage * Downloads * (string + PoolResponse) * Responses) :=
  let answer r := Ok (storage, tx_downloads, r, []) in
  match req with
  | TransactionIds => answer (inr (RespTransactionIds (list_to_set (verified_id <$> (map_order (set_transactions (verified storage))).*2))))
  | TransactionsById ids => answer (inr (RespTransactions (transactions_exact storage ids)))
  | TransactionsByMinedId ids => answer (inr (RespTransactions (transactions_same_effects storage ids)))
  | TransactionWithDepsByMinedId tx_id =>
      answer (match transaction_with_deps storage tx_id with
              | Some (transaction, dependencies) => inr (RespTransactionWithDeps transaction dependencies)
              | None => inl not_found
              end)
  | AwaitOutput outpoint =>
      let '(storage, sent) := await_output storage outpoint in
      Ok (storage, tx_downloads, inr (RespAwaitOutput outpoint), sent)
  | FullTransactions =>
      answer (inr (RespFullTransactions (map_order (set_transactions (verified storage))).*2 (set_dependencies (verified storage)) last_seen_tip_hash))
  | RejectedTransactionIds ids => answer (inr (RespRejectedTransactionIds (filter (λ id, contains_rejected storage now id = true) (set_order ids))))
  | Queue gossiped_txs =>
      '(tx_downloads, results) ← foldM (queue_one now storage) (tx_downloads, []) gossiped_txs;
      Ok (storage, tx_downloads, inr (RespQueued results), [])
  | CheckForVerifiedTransactions => answer (inr RespChecked)
  | QueueStats =>
      let bytes := transactions_serialized_size (verified storage) in
      answer (inr (RespQueueStats (Z.of_nat (size (set_transactions (verified storage)))) bytes bytes None))
  | UnspentOutput outpoint => answer (inr (RespTransparentOutput (unspent_output storage last_seen_tip_hash outpoint)))
  end.

Definition call_disabled (req : PoolRequest) : string + PoolResponse :=
  match req with
  | TransactionIds => inr (RespTransactionIds ∅)
  | TransactionsById _ | TransactionsByMinedId _ => inr (RespTransactions [])
  | TransactionWithDepsByMinedId _ | AwaitOutput _ | UnspentOutput _ | FullTransactions => inl not_active
  | RejectedTransactionIds _ => inr (RespRejectedTransactionIds [])
  | Queue gossiped_txs => inr (RespQueued (replicate (length gossiped_txs) (inl Disabled)))
  | CheckForVerifiedTransactions => inr RespChecked
  | QueueStats => inr (RespQueueStats 0 0 0 None)
  end.

Definition mempool_service_call (self : Mempool) (now : Z) (req : PoolRequest) : Run (Mempool * (string + PoolResponse) * Responses) :=
  match active_state self with
  | StateDisabled => Ok (self, call_disabled req, [])
  | StateEnabled storage tx_downloads last_seen_tip_hash =>
      '(storage, tx_downloads, response, sent) ← call_enabled now storage tx_downloads last_seen_tip_hash req;
      Ok (with_state self (StateEnabled storage tx_downloads last_seen_tip_hash), response, sent)
  end.

End Service.
