(* ===== verification/MempoolService.v ===== *)
(** * The mempool service follows the chain

    What holds of every reachable state of the service of [Mempool]: its storage is consistent, its downloads are bounded, it never panics,
    and after a poll it is at the best tip. *)

From stdpp Require Import strings.
From S2P Require Import Prelude Height Amount Network Serialization Transaction Merkle TransparentCodec ShieldedCodec TransactionCodec Sighash Unmined Script TxChecks TxVerifier Reversible ChainTip MempoolDeps EvictionList VerifiedSet MempoolStorage MempoolInvariant Mempool.

Section Follow.
Context `{CL : !CurveLib, CW : !CurveLaws, LZ : !LibRustZcash, SL : !SighashLib, HF : !HashFns, ZS : !ScriptLib, VL : !VerifierLib, PL : !PolicyLib,
  HO : !HashOrder, HL : !HashOrderLaws, SA : !Sampler, SW : !SamplerLaws}.

(** ** Downloads *)

(** The transaction was read from the wire. *)
Definition unmined_ok (u : UnminedTx) : Prop := tx_wire_ok (unmined_transaction u) ∧ unmined_from (unmined_transaction u) = Ok u.
Definition gossip_ok (g : Gossip) : Prop := match g with GossipTx u => unmined_ok u | GossipId _ => True end.

(** The services of a task: they do not panic, the network returns transactions that it has read, the heights are below the maximum, and
    what the verifier returns comes from the transaction verifier. *)
Record env_ok (network : Network) (env : TaskEnv) : Prop := {
  env_state : ∀ h, task_in_best_chain env h ≠ Panic;
  env_tip : ∀ r, task_tip env = r → match r with Panic => False | Ok (Some (h, _)) => is_Some (add_diff h 1) | _ => True end;
  env_network : ∀ id r, task_network env id = r → match r with
    | Panic => False | Ok txs => ∀ tx, last txs = Some tx → ∃ u addr, tx = Some (u, addr) ∧ unmined_ok u | Err _ => True end;
  env_verifier : ∀ req, task_verifier env req ≠ Panic;
  env_verified : ∀ req rsp, task_verifier env req = Ok rsp → ∃ order random state mempool, verify order random network state mempool req = Ok rsp;
}.

Lemma spent_mempool_from_inputs tx req state mempool utxos outs spent : spent_utxos tx req state mempool = Ok (utxos, outs, spent) →
  ∀ o, o ∈ spent → o ∈ spent_outpoints tx.
Proof.
  unfold spent_utxos. intros (s & Hs & (s' & Hs' & [= _ _ <-])%bind_Ok)%bind_Ok o Ho. apply spend_inputs_Ok in Hs.
  assert (Hm : mempool_spends s' = mempool_spends s).
  { destruct mempool as [m|]; [by apply (spend_mempool_Ok req (Some m) m) in Hs' as [-> _]|]. destruct (negb _); [done|]. by injection Hs' as <-. }
  rewrite Hm, Hs in Ho. cbn in Ho. apply list_elem_of_fmap in Ho as ([k p] & -> & Hin). apply list_elem_of_omap in Hin as ([k' i] & Hi & Hmiss).
  apply elem_of_lookup_imap in Hi as (k0 & i0 & [= -> ->] & Hk). unfold missing in Hmiss. cbn in Hmiss. destruct i0 as [p' sc q|]; [|done].
  destruct (chain_utxo _ _ p'); [done|]. injection Hmiss as -> ->. unfold spent_outpoints. apply list_elem_of_omap.
  exists (PrevOut p sc q). split; [by eapply list_elem_of_lookup_2|done].
Qed.

Lemma verified_new_transaction u fee legacy p2sh outs tx : verified_new u fee legacy p2sh outs = Ok tx → verified_transaction tx = u.
Proof. unfold verified_new. intros (a & _ & (b & _ & (c & _ & [= <-])%bind_Ok)%bind_Ok)%bind_Ok. done. Qed.

Lemma verify_mempool_response order random network state mempool u height rsp :
  verify order random network state mempool (MempoolRequest u height) = Ok rsp →
  ∃ tx spent, rsp = MempoolResponse tx spent ∧ verified_transaction tx = u ∧ ∀ o, o ∈ spent → o ∈ spent_outpoints (unmined_transaction u).
Proof.
  unfold verify. cbn [req_transaction]. intros (id & _ & (q & _ & (lt & _ & ([[utxos outs] spent] & Hsp & H)%bind_Ok)%bind_Ok)%bind_Ok)%bind_Ok.
  apply bind_Ok in H as (m & _ & (nu & _ & (cached & _ & (checks & _ & (a & _ & (fee & _ & (sig & _ & H)%bind_Ok)%bind_Ok)%bind_Ok)%bind_Ok)%bind_Ok)%bind_Ok).
  apply bind_Ok in H as (fee' & _ & (tx & Htx%map_err_Ok & [= <-])%bind_Ok). exists tx, spent. split; [done|].
  split; [by eapply verified_new_transaction|]. by eapply spent_mempool_from_inputs.
Qed.

(** A computation does not panic, and its result satisfies [P]. *)
Definition safe {E A} (P : A → Prop) (r : Res E A) : Prop := match r with Ok a => P a | Err _ => True | Panic => False end.

Lemma safe_bind {E A B} (P : A → Prop) (Q : B → Prop) (r : Res E A) k : safe P r → (∀ a, P a → safe Q (k a)) → safe Q (mbind k r).
Proof. destruct r as [a|e|]; cbn; [|done|done]. intros Ha Hk. by apply Hk. Qed.
Lemma safe_map_err {E F A} (P : A → Prop) (f : E → F) (r : Res E A) : safe P r → safe P (map_err f r).
Proof. by destruct r. Qed.

(** A download ends, and what it returns can be inserted in the storage. *)
Lemma download_task_ok network env g : env_ok network env → gossip_ok g →
  safe (λ r, parsed_tx r.1.1 ∧ ∀ o, o ∈ r.1.2 → o ∈ spent_outpoints (verified_tx r.1.1)) (download_task env g).
Proof.
  intros [H1 H2 H3 H4 H5] Hg. unfold download_task.
  apply (safe_bind (λ _, True)).
  { apply (safe_bind (λ _, True)); [|by intros []]. apply safe_map_err. specialize (H1 (mined_id (gossip_id g))). by destruct (task_in_best_chain _ _). }
  intros _ _. apply (safe_bind (λ tip, match tip with Some (h, _) => is_Some (add_diff h 1) | None => True end)).
  { apply safe_map_err. specialize (H2 _ eq_refl). by destruct (task_tip env) as [[[h hash]|]|e|]. }
  intros tip Htip. apply (safe_bind (λ _, True)).
  { destruct tip as [[h hash]|]; [|done]. by destruct Htip as [nh ->]. }
  intros [th nh] _. apply (safe_bind (λ p, unmined_ok p.1)).
  { destruct g as [id|u]; [|done]. apply (safe_bind (λ txs, ∀ tx, last txs = Some tx → ∃ u addr, tx = Some (u, addr) ∧ unmined_ok u)).
    - apply safe_map_err. specialize (H3 id _ eq_refl). by destruct (task_network env id).
    - intros txs Htxs. destruct (last txs) as [tx|]; cbn; [|done]. by destruct (Htxs tx eq_refl) as (u & addr & -> & Hu). }
  intros [u addr] Hu. apply (safe_bind (λ rsp, ∃ tx spent, rsp = MempoolResponse tx spent ∧ verified_transaction tx = u ∧ ∀ o, o ∈ spent → o ∈ spent_outpoints (unmined_transaction u))).
  { apply safe_map_err. destruct (task_verifier env (MempoolRequest u nh)) as [rsp|e|] eqn:Hv; [|done|by destruct (H4 _ Hv)].
    apply H5 in Hv as (order & random & state & mempool & Hv). by eapply verify_mempool_response. }
  intros rsp (tx & spent & -> & Htx & Hs). cbn. unfold parsed_tx, verified_tx. rewrite Htx. by destruct Hu.
Qed.

Record downloads_ok (dl : Downloads) : Prop := {
  downloads_bound : Z.of_nat (length (dl_pending dl)) ≤ MAX_INBOUND_CONCURRENCY;
  downloads_tasks : Forall (λ t, gossip_ok t.1) (dl_pending dl);
  downloads_handles : ∀ id g, cancel_handles dl !! id = Some g → gossip_id g = id ∧ gossip_ok g;
}.

Lemma downloads_new_ok : downloads_ok downloads_new.
Proof. split; [done|constructor|]. intros id g Hg. cbn in Hg. by rewrite lookup_empty in Hg. Qed.

Lemma queue_ok dl g rsp : downloads_ok dl → gossip_ok g → ∃ dl' e, download_if_needed_and_verify dl g rsp = Ok (dl', e) ∧ downloads_ok dl'.
Proof.
  intros [Hb Ht Hh] Hg. unfold download_if_needed_and_verify. destruct (bool_decide_reflect (is_Some (cancel_handles dl !! gossip_id g))) as [|Hn]; [by eexists _, _|].
  destruct (Z.leb_spec MAX_INBOUND_CONCURRENCY (Z.of_nat (length (dl_pending dl)))); [by eexists _, _|]. apply eq_None_not_Some in Hn.
  rewrite bool_decide_true by done. cbn [assert]. rewrite Ok_bind. eexists _, _. split; [done|]. split; cbn [dl_pending cancel_handles].
  - rewrite length_app. cbn. lia.
  - apply Forall_app. split; [done|]. by repeat constructor.
  - intros id g' [[<- <-]|[_ Hg']]%lookup_insert_Some; [done|by apply Hh].
Qed.

Lemma delete_downloads_ok dl i id : downloads_ok dl → downloads_ok (mkDownloads (delete i (dl_pending dl)) (delete id (cancel_handles dl))).
Proof.
  intros [Hb Ht Hh]. split; cbn.
  - pose proof (sublist_length _ _ (sublist_delete (dl_pending dl) i)). lia.
  - by apply Forall_delete.
  - intros id' g [_ Hg]%lookup_delete_Some. by apply Hh.
Qed.

(** ** The enabled service *)

(** The transactions rejected for being mined are among [grown]. *)
Definition mined_in (now : Z) (storage : Storage) (grown : gset Hash) : Prop := ∀ h, rejected_for storage now Mined h → h ∈ grown.

Lemma mined_in_only now self self' ids grown : mined_in now self grown → mined_only now self self' ids → mined_in now self' (grown ∪ ids).
Proof. intros Hg Ho h [Hh|Hh]%Ho; apply elem_of_union; [left; by apply Hg|by right]. Qed.
Lemma mined_in_none now self self' grown : mined_in now self grown → mined_only now self self' ∅ → mined_in now self' grown.
Proof. intros Hg Ho h [Hh|Hh]%Ho; [by apply Hg|by apply not_elem_of_empty in Hh]. Qed.
Lemma mined_in_later now now' self grown : now ≤ now' → mined_in now self grown → mined_in now' self grown.
Proof. intros Hn Hg h Hh. by eapply Hg, rejected_later. Qed.
Lemma mined_in_weaken now self grown grown' : grown ⊆ grown' → mined_in now self grown → mined_in now self grown'.
Proof. intros Hs Hg h Hh. by apply Hs, Hg. Qed.

(** The stored transactions were read from the wire. *)
Definition all_parsed (v : VerifiedSet) : Prop := ∀ h tx, set_transactions v !! h = Some tx → parsed_tx tx.

Lemma parsed_subset v v' : set_transactions v' ⊆ set_transactions v → all_parsed v → all_parsed v'.
Proof. intros Hs Hp h tx Htx. eapply Hp. by eapply lookup_weaken. Qed.
Lemma parsed_removes v v' P : removes v v' P → all_parsed v → all_parsed v'.
Proof. intros (R & Hw & _). apply parsed_subset. by eapply without_subset. Qed.
Lemma parsed_same self self' : same_mempool self self' → all_parsed (verified self) → all_parsed (verified self').
Proof. by intros [-> _]. Qed.

Lemma parsed_insert now self tx spent height self' result sent : insert_outcome now self tx spent height self' result sent →
  parsed_tx tx → all_parsed (verified self) → all_parsed (verified self').
Proof.
  intros Ho Hp Ha. destruct Ho as [| |e s' _ _ _ Hs|s' _ _ _ _ Hs|s' o _ _ _ _ _ _ Hs|s' v victims sent _ _ _ _ _ HT _ (_ & R & Hw & _) _ _ _]; try done; try by eapply parsed_same.
  intros h t Ht. apply Hw in Ht as [Ht _]. rewrite HT in Ht. apply lookup_insert_Some in Ht as [[_ <-]|[_ Ht]]; [done|by eapply Ha].
Qed.

Record enabled_ok (config : MempoolConfig) (now : Z) (grown : gset Hash) (storage : Storage) (dl : Downloads) : Prop := {
  enabled_storage : storage_ok now storage;
  enabled_limit : tx_cost_limit storage = config_tx_cost_limit config;
  enabled_downloads : downloads_ok dl;
  enabled_mined : mined_in now storage grown;
  enabled_parsed : all_parsed (verified storage);
}.

Lemma enabled_later config now now' grown storage dl : now ≤ now' → enabled_ok config now grown storage dl → enabled_ok config now' grown storage dl.
Proof. intros Hn [H1 H2 H3 H4 H5]. split; [by eapply storage_ok_later|done|done|by eapply mined_in_later|done]. Qed.

Lemma handle_item_ok config now grown best storage dl c item : enabled_ok config now grown storage dl →
  match item with ItemVerified tx spent _ _ => parsed_tx tx ∧ ∀ o, o ∈ spent → o ∈ spent_outpoints (verified_tx tx) | _ => True end →
  ∃ storage' dl' c', handle_item best now storage dl c item = Ok (storage', dl', c') ∧ enabled_ok config now grown storage' dl'.
Proof.
  intros [H1 H2 H3 H4 H5] Hi. destruct item as [tx spent expected rsp|id e|]; cbn [handle_item]; [| |eexists _, _, _; split; [done|by split]].
  - destruct Hi as [Hp Hs]. destruct (bool_decide _).
    + destruct (storage_insert_spec now storage tx spent best H1 Hp Hs) as (s' & r & sent & -> & Hok & Hl & Hm & Ho). rewrite Ok_bind.
      eexists _, _, _. split; [done|]. split; [done|congruence|done|by eapply mined_in_none|by eapply parsed_insert].
    + destruct (queue_ok dl (GossipTx (verified_transaction tx)) rsp H3 Hp) as (dl' & e & -> & Hdl). rewrite Ok_bind. eexists _, _, _. split; [done|by split].
  - destruct (reject_if_needed_spec now storage id e H1) as (s' & -> & Hok & Hsame & Hm). rewrite Ok_bind. eexists _, _, _. split; [done|].
    split; [done|rewrite <- H2; apply Hsame|done|by eapply mined_in_none|by eapply parsed_same].
Qed.

Definition event_ok (network : Network) (e : TaskEvent) : Prop := match e.2 with EndDone env => env_ok network env | _ => True end.

Lemma poll_next_ok network dl i e : downloads_ok dl → match e with EndDone env => env_ok network env | _ => True end →
  safe (λ r, match r with
             | None => True
             | Some (dl', item) => downloads_ok dl' ∧ match item with ItemVerified tx spent _ _ => parsed_tx tx ∧ ∀ o, o ∈ spent → o ∈ spent_outpoints (verified_tx tx) | _ => True end
             end) (poll_next dl i e).
Proof.
  intros Hdl He. unfold poll_next. destruct (dl_pending dl !! i) as [[g rsp]|] eqn:Hi; [|done].
  destruct e as [| |env].
  - split; [by apply delete_downloads_ok|done].
  - split; [|done]. destruct Hdl as [Hb Ht Hh]. split; cbn; [|by apply Forall_delete|done].
    pose proof (sublist_length _ _ (sublist_delete (dl_pending dl) i)). lia.
  - assert (Hg : gossip_ok g) by exact (Forall_lookup_1 _ _ _ _ (downloads_tasks _ Hdl) Hi).
    pose proof (download_task_ok network env g He Hg) as Ht. destruct (download_task env g) as [[[tx spent] tip]|e|]; [|split; [by apply delete_downloads_ok|done]|done].
    split; [by apply delete_downloads_ok|done].
Qed.

Fixpoint times_ok (now : Z) (events : list TaskEvent) (end_ : Z) : Prop :=
  match events with
  | [] => now ≤ end_
  | e :: events => now ≤ e.1.1 ∧ times_ok e.1.1 events end_
  end.

Lemma handle_events_ok network config best grown events : Forall (event_ok network) events → ∀ now end_ storage dl c, times_ok now events end_ →
  enabled_ok config now grown storage dl →
  ∃ storage' dl' c', foldM (handle_event best) (storage, dl, c) events = Ok (storage', dl', c') ∧ enabled_ok config end_ grown storage' dl'.
Proof.
  induction 1 as [|[[t i] e] events He Hf IH]; intros now end_ storage dl c Ht Hok; cbn [foldM times_ok fst] in *.
  - eexists _, _, _. split; [done|by eapply enabled_later].
  - destruct Ht as [Hn Ht]. pose proof (enabled_later _ _ _ _ _ _ Hn Hok) as Hok'. cbn [handle_event].
    pose proof (poll_next_ok network dl i e (enabled_downloads _ _ _ _ _ Hok) He) as Hp. destruct (poll_next dl i e) as [[[dl' item]|]|[]|]; [| |done].
    + destruct Hp as [Hdl Hitem]. rewrite Ok_bind. destruct (handle_item_ok config t grown best storage dl' c item) as (s' & dl2 & c' & -> & Hok2).
      { by destruct Hok'. } { done. } rewrite Ok_bind. by apply IH with (now := t).
    + rewrite !Ok_bind. by apply IH with (now := t).
Qed.

Definition block_ids (block : ChainTipBlock) : gset Hash := list_to_set (tip_transaction_hashes block).

Lemma cancel_ok dl ids : downloads_ok dl → downloads_ok (dl_cancel dl ids).
Proof. intros [Hb Ht Hh]. split; cbn; [done|done|]. intros id g [Hg _]%map_lookup_filter_Some. by apply Hh. Qed.

(** A block that grows the tip removes its transactions and those that conflict with it; the dependents of its transactions no longer depend
    on them. *)
Lemma handle_grow_ok config now grown hr storage dl c block : enabled_ok config now grown storage dl → (∀ h, h ∈ block_ids block → h ∉ grown) →
  ∃ storage' dl' c', handle_grow now hr storage dl c block = Ok (storage', dl', c') ∧ enabled_ok config now (grown ∪ block_ids block) storage' dl' ∧
    removes (set_clear_mined (verified storage) (block_ids block)) (verified storage') (mined_out (block_ids block) (tip_transactions block)).
Proof.
  intros [H1 H2 H3 H4 H5] Hnew. unfold handle_grow. fold (block_ids block). set (ids := block_ids block) in *.
  pose proof (clear_mined_spec now storage ids H1) as Hc. set (s1 := storage_clear_mined_dependencies storage ids) in *.
  destruct (mined_spec now s1 hr ids (tip_transactions block) Hc) as (s2 & removed & -> & Hok2 & Hrem & Hl2 & Hm2).
  { intros h Hh Hr. by eapply Hnew, H4. }
  rewrite Ok_bind. destruct (clear_tip_spec now s2 Hok2) as (s3 & -> & Hok3 & Hs3 & Hm3). rewrite Ok_bind. eexists _, _, _. split; [done|].
  assert (Hrem3 : removes (verified s1) (verified s3) (mined_out ids (tip_transactions block))) by by rewrite (proj1 Hs3).
  split; [|done]. split; [done| |by apply cancel_ok| |].
  - assert (tx_cost_limit s3 = tx_cost_limit s2) as -> by apply Hs3. by rewrite Hl2.
  - eapply mined_in_none; [|exact Hm3]. by eapply mined_in_only.
  - eapply parsed_removes; [exact Hrem3|]. exact H5.
Qed.

Lemma handle_expired_ok config now grown storage dl c tip : enabled_ok config now grown storage dl →
  ∃ storage' c', handle_expired now storage c tip = Ok (storage', c') ∧ enabled_ok config now grown storage' dl ∧
    removes (verified storage) (verified storage') (λ tx, has_expired_at tip (verified_tx tx)).
Proof.
  intros [H1 H2 H3 H4 H5]. unfold handle_expired. destruct (expired_spec now storage tip H1) as (s & ids & -> & Hok & Hl & Hm & Hr & _). rewrite Ok_bind.
  eexists _, _. split; [done|]. split; [|done]. split; [done|congruence|done|by eapply mined_in_none|by eapply parsed_removes].
Qed.

(** What the transactions of an enabled mempool satisfy after a poll. *)
Definition at_tip (inputs : PollInputs) (action : option TipAction) (v : VerifiedSet) : Prop :=
  ∀ h tx, set_transactions v !! h = Some tx →
    match action with
    | Some (Grow block) => h ∉ block_ids block ∧ ∀ t, t ∈ tip_transactions block → ¬ conflict (verified_tx tx) t
    | _ => True
    end ∧
    match poll_best_tip_height inputs with Some height => has_expired_at height (verified_tx tx) = false | None => True end.

Record inputs_ok (network : Network) (now : Z) (inputs : PollInputs) (end_ : Z) : Prop := {
  inputs_events : Forall (event_ok network) (poll_events inputs);
  inputs_times : times_ok now (poll_events inputs) (poll_grow_time inputs);
  inputs_grow : poll_grow_time inputs ≤ poll_expire_time inputs;
  inputs_end : poll_expire_time inputs ≤ end_;
}.

Definition action_ids (action : option TipAction) : gset Hash := match action with Some (Grow block) => block_ids block | _ => ∅ end.

Lemma mined_out_false ids txs v h tx : set_ok v → set_transactions v !! h = Some tx → mined_out ids txs tx = false →
  h ∉ ids ∧ ∀ t, t ∈ txs → ¬ conflict (verified_tx tx) t.
Proof.
  intros Hv Htx Hm. unfold mined_out in Hm. apply orb_false_iff in Hm as [Hm Hd]. rewrite bool_decide_eq_false, (set_ok_stored _ _ _ Hv Htx) in Hm. split; [done|].
  intros t Ht Hcf. apply not_true_iff_false in Hd. apply Hd, duplicate_spend_spec. eauto.
Qed.

Lemma poll_enabled_ok network config now end_ grown storage dl tip inputs action : enabled_ok config now grown storage dl → inputs_ok network now inputs end_ →
  (∀ h, h ∈ action_ids action → h ∉ grown) →
  ∃ storage' dl' c, poll_enabled storage dl tip inputs action =
      Ok (StateEnabled storage' dl' (match action with Some (Grow block) => tip_hash block | _ => tip end), c) ∧
    enabled_ok config end_ (grown ∪ action_ids action) storage' dl' ∧ at_tip inputs action (verified storage').
Proof.
  intros Hok [He Ht Hg Hend] Hnew. unfold poll_enabled.
  destruct (handle_events_ok network config (poll_best_tip_height inputs) grown _ He _ _ storage dl nothing_collected Ht Hok) as (s1 & dl1 & c1 & -> & Hok1).
  rewrite Ok_bind. set (grow := match action with Some (Grow _) => _ | _ => _ end).
  assert (∃ s2 dl2 c2, grow = Ok (s2, dl2, c2, match action with Some (Grow block) => tip_hash block | _ => tip end) ∧
    enabled_ok config (poll_grow_time inputs) (grown ∪ action_ids action) s2 dl2 ∧
    ∀ h tx, set_transactions (verified s2) !! h = Some tx → match action with
      | Some (Grow block) => h ∉ block_ids block ∧ ∀ t, t ∈ tip_transactions block → ¬ conflict (verified_tx tx) t | _ => True end) as (s2 & dl2 & c2 & -> & Hok2 & Hno).
  { unfold grow. destruct action as [[block|h hash]|]; cbn [action_ids]; [|by rewrite union_empty_r_L; eexists _, _, _..].
    destruct (handle_grow_ok config (poll_grow_time inputs) grown (poll_has_receivers inputs) s1 dl1 c1 block Hok1 Hnew) as (s2 & dl2 & c2 & -> & Hok2 & Hrem).
    rewrite Ok_bind. eexists _, _, _. split; [done|]. split; [done|]. intros h tx Htx. eapply mined_out_false; [|done|by eapply removes_none]. apply Hok2. }
  rewrite Ok_bind. pose proof (enabled_later _ _ _ _ _ _ Hg Hok2) as Hok2'. unfold at_tip. destruct (poll_best_tip_height inputs) as [height|].
  - destruct (handle_expired_ok config (poll_expire_time inputs) _ s2 dl2 c2 height Hok2') as (s3 & c3 & -> & Hok3 & Hrem3). rewrite Ok_bind.
    eexists _, _, _. split; [done|]. split; [by eapply enabled_later|]. intros h tx Htx. pose proof (removes_none _ _ _ _ _ Hrem3 Htx) as [Htx2 Hexp].
    split; [by eapply Hno|done].
  - rewrite Ok_bind. eexists _, _, _. split; [done|]. split; [by eapply enabled_later|]. intros h tx Htx. split; [by eapply Hno|done].
Qed.

(** ** The whole service *)

Definition config_ok (config : MempoolConfig) : Prop :=
  0 ≤ config_tx_cost_limit config ≤ MAX_TX_COST_LIMIT ∧ 0 ≤ config_eviction_memory_time config.

(** An enabled mempool is consistent, and its tip is the one of the last change. *)
Definition service_ok (config : MempoolConfig) (now : Z) (grown : gset Hash) (m : Mempool) : Prop :=
  mempool_config m = config ∧
  match active_state m with
  | StateDisabled => True
  | StateEnabled storage dl tip => enabled_ok config now grown storage dl ∧ last_change_hash (chain_tip_change m) = Some tip
  end.

Lemma new_enabled_ok config now grown : config_ok config → enabled_ok config now grown (storage_new config) downloads_new.
Proof.
  intros [Hl Hm]. split; [by apply storage_new_ok|done|apply downloads_new_ok| |].
  - intros h (l & Hl' & _). cbn in Hl'. by rewrite lookup_empty in Hl'.
  - intros h tx Htx. cbn in Htx. by rewrite lookup_empty in Htx.
Qed.

Lemma queue_all_ok dl gs : downloads_ok dl → Forall gossip_ok gs →
  ∃ dl', foldM (λ dl tx, '(dl, _) ← download_if_needed_and_verify dl tx None; Ok dl) dl gs = (Ok dl' : Run Downloads) ∧ downloads_ok dl'.
Proof.
  intros Hd Hg. revert dl Hd. induction Hg as [|g gs Hg Hf IH]; intros dl Hd; cbn [foldM]; [eauto|].
  destruct (queue_ok dl g None Hd Hg) as (dl1 & e & -> & Hd1). rewrite !Ok_bind. by apply IH.
Qed.

Lemma retries_ok config now grown storage dl tip : enabled_ok config now grown storage dl →
  Forall gossip_ok (transaction_retry_requests (StateEnabled storage dl tip)).
Proof.
  intros [_ _ [_ _ Hh] _ Hp]. apply Forall_app. split.
  - apply Forall_fmap, Forall_fmap, Forall_forall. intros [h tx] Hin. rewrite map_order_perm in Hin. apply elem_of_map_to_list in Hin. cbn. exact (Hp h tx Hin).
  - unfold transaction_requests. apply Forall_fmap, Forall_forall. intros [id g] Hin. rewrite map_order_perm in Hin. apply elem_of_map_to_list in Hin.
    by apply (Hh id g).
Qed.

(** A reset leaves a new mempool, or a disabled one. *)
Lemma poll_reset_ok config now end_ grown grown' m inputs a : config_ok config → service_ok config now grown m → is_enabled m = true →
  last_change_hash (chain_tip_change m) = Some (action_hash a) →
  ∃ m', poll_reset m inputs (Some a) = Ok m' ∧ service_ok config end_ grown' m' ∧ chain_tip_change m' = chain_tip_change m ∧
    match active_state m' with StateEnabled storage _ _ => storage = storage_new config | StateDisabled => True end.
Proof.
  intros Hc [Hcfg Hm] Hen Hlast. unfold poll_reset. destruct (active_state m) as [|storage dl tip] eqn:Hst; [unfold is_enabled in Hen; by rewrite Hst in Hen|].
  destruct Hm as [Hok _]. pose proof (retries_ok _ _ _ _ _ tip Hok) as Hr. revert Hr. generalize (transaction_retry_requests (StateEnabled storage dl tip)). intros retries Hr.
  unfold update_state. cbn [is_enabled active_state with_state].
  destruct (_ || _) eqn:Hclose.
  - cbn. rewrite Hcfg. destruct (queue_all_ok downloads_new _ downloads_new_ok Hr) as (dl' & -> & Hdl). rewrite Ok_bind. eexists. split; [done|].
    split; [|done]. split; [done|]. cbn. split; [|done]. pose proof (new_enabled_ok config end_ grown' Hc) as [E1 E2 E3 E4 E5]. by split.
  - cbn. eexists. split; [done|]. by split.
Qed.

Definition next_grown (action : option TipAction) (grown : gset Hash) : gset Hash :=
  match action with
  | Some (Grow block) => grown ∪ block_ids block
  | Some (ResetTo _ _) => ∅
  | None => grown
  end.

(** The action of the next poll. *)
Definition next_action (m : Mempool) (inputs : PollInputs) : option TipAction :=
  match last_tip_change (chain_tip_change m) (poll_channel inputs) with Ok (a, _) => a | _ => None end.

(** What the states of [update_state] are. *)
Lemma update_state_cases m reads action : (update_state m reads action).2 = false ∧ (update_state m reads action).1 = m ∨
  (update_state m reads action) = (with_state m StateDisabled, true) ∨
  ∃ a, action = Some a ∧ is_enabled m = false ∧
    update_state m reads action = (with_state m (StateEnabled (storage_new (mempool_config m)) downloads_new (action_hash a)), true).
Proof. unfold update_state. destruct (_ || _), (is_enabled m), action as [a|]; cbn; first [by left|by right; left|right; right; by exists a]. Qed.

(** The service after a poll: its tip is the one of the channel, and its transactions can follow it. *)
Definition follows (config : MempoolConfig) (inputs : PollInputs) (action : option TipAction) (m : Mempool) : Prop :=
  match active_state m with
  | StateDisabled => True
  | StateEnabled storage _ tip =>
      (∀ b, watched (poll_channel inputs) = Some b → tip = tip_hash b) ∧
      (storage = storage_new config ∨ at_tip inputs action (verified storage))
  end.

(** The poll of an enabled mempool that is not reset. *)
Lemma poll_step_ok network config now end_ grown m storage dl tip inputs action : enabled_ok config now grown storage dl → mempool_config m = config →
  inputs_ok network now inputs end_ → (∀ h, h ∈ action_ids action → h ∉ grown) →
  last_change_hash (chain_tip_change m) = Some (match action with Some (Grow block) => tip_hash block | _ => tip end) →
  (∀ b, watched (poll_channel inputs) = Some b → last_change_hash (chain_tip_change m) = Some (tip_hash b)) →
  ∃ m' out, ('(st, c) ← poll_enabled storage dl tip inputs action; let '(changes, ready) := send_changes (poll_has_subscribers inputs) c in
    Ok (with_state m st, mkPollOutput ready changes c)) = (Ok (m', out) : Run _) ∧
    service_ok config end_ (grown ∪ action_ids action) m' ∧ follows config inputs action m'.
Proof.
  intros Hen Hcfg Hi Hnew Hlast Htip. destruct (poll_enabled_ok network config now end_ grown storage dl tip inputs action Hen Hi Hnew)
    as (s' & dl' & c & -> & Hen' & Hat). rewrite Ok_bind. destruct (send_changes _ c) as [changes ready]. eexists _, _. split; [done|]. split; [by split|].
  split; [|by right]. intros b Hb. apply Htip in Hb. rewrite Hb in Hlast. by injection Hlast as ->.
Qed.

(** The poll of an enabled mempool that is reset. *)
Lemma poll_reset_step config now end_ grown m storage dl tip inputs a : config_ok config → enabled_ok config now grown storage dl →
  mempool_config m = config → active_state m = StateEnabled storage dl tip →
  last_change_hash (chain_tip_change m) = Some (action_hash a) →
  (∀ b, watched (poll_channel inputs) = Some b → last_change_hash (chain_tip_change m) = Some (tip_hash b)) →
  ∃ m', poll_reset m inputs (Some a) = Ok m' ∧ service_ok config end_ ∅ m' ∧ follows config inputs (Some a) m'.
Proof.
  intros Hc Hen Hcfg Hst Hlast Htip. set (m1 := with_state m (StateEnabled storage dl (action_hash a))).
  destruct (poll_reset_ok config now end_ grown ∅ m1 inputs a Hc) as (m' & Hr & Hs' & Hch & Hnew); [by split|done|done|].
  exists m'. split; [|split; [done|]].
  - rewrite <- Hr. unfold poll_reset, m1. cbn [active_state with_state]. by rewrite Hst.
  - unfold follows. destruct (active_state m') as [|s' dl' tip'] eqn:Hst'; [done|]. split; [|by left]. intros b Hb. apply Htip in Hb.
    unfold service_ok in Hs'. rewrite Hst', Hch in Hs'. destruct Hs' as (_ & _ & Hl). cbn in Hl. congruence.
Qed.

Lemma poll_ready_ok network config now end_ grown m inputs (action := next_action m inputs) : config_ok config → service_ok config now grown m →
  inputs_ok network now inputs end_ → (∀ h, h ∈ action_ids action → h ∉ grown) →
  ∃ m' out, poll_ready m inputs = Ok (m', out) ∧ service_ok config end_ (next_grown action grown) m' ∧ follows config inputs action m'.
Proof.
  intros Hc Hs Hi Hnew. unfold poll_ready, action, next_action in *. clear action.
  destruct (last_tip_change_total (chain_tip_change m) (poll_channel inputs)) as (action & change & Hlast & Hact). rewrite Hlast in *. rewrite Ok_bind.
  destruct Hs as [Hcfg Hst]. set (m0 := with_change m change).
  assert (Htip : ∀ b, watched (poll_channel inputs) = Some b → last_change_hash change = Some (tip_hash b)).
  { intros b Hb. destruct action as [a|]; [destruct Hact as [(b' & Hb' & Hh) ->]; simplify_eq; by rewrite Hh|]. destruct Hact as [-> Hb']. by apply Hb'. }
  destruct (update_state_cases m0 (poll_reads inputs) action) as [[Hch Hsame]|[->|(a & -> & _ & ->)]].
  - destruct (update_state m0 (poll_reads inputs) action) as [m1 changed]. cbn in Hch, Hsame. subst changed m1. change (active_state m0) with (active_state m).
    destruct (active_state m) as [|storage dl tip] eqn:Hstate.
    { eexists _, _. split; [done|]. unfold service_ok, follows. change (active_state m0) with (active_state m). by rewrite Hstate. }
    destruct Hst as [Hen Htp]. destruct action as [[block|h hash]|]; cbn [is_reset negb andb].
    + destruct Hact as [_ Hl]. by apply (poll_step_ok network config now end_ grown m0 storage dl tip inputs (Some (Grow block))).
    + destruct Hact as [_ Hl]. destruct (poll_reset_step config now end_ grown m0 storage dl tip inputs (ResetTo h hash) Hc Hen Hcfg Hstate Hl Htip) as (m' & -> & Hs' & Hf).
      rewrite Ok_bind. eauto.
    + destruct Hact as [-> _]. destruct (poll_step_ok network config now end_ grown m0 storage dl tip inputs None) as (m' & out & -> & Hs' & Hf); try done.
      cbn in Hs'. rewrite union_empty_r_L in Hs'. eauto.
  - cbn. eexists _, _. split; [done|]. by split.
  - cbn [active_state with_state negb andb]. destruct Hact as [_ Hl]. change (mempool_config m0) with (mempool_config m). rewrite Hcfg.
    destruct (poll_step_ok network config now end_ (match a with Grow _ => grown | _ => ∅ end) (with_state m0 (StateEnabled (storage_new config) downloads_new (action_hash a)))
      (storage_new config) downloads_new (action_hash a) inputs (Some a)) as (m' & out & -> & Hs' & Hf); try done; [by apply new_enabled_ok|by destruct a|by destruct a|].
    eexists _, _. split; [done|]. split; [|done]. destruct a; [done|]. cbn in *. by rewrite union_empty_r_L in Hs'.
Qed.

Definition request_ok (req : PoolRequest) : Prop := match req with Queue gs => Forall (λ g, gossip_ok g.1) gs | _ => True end.

Lemma queue_request_ok now storage gs : Forall (λ g, gossip_ok g.1) gs → ∀ dl results, downloads_ok dl →
  ∃ dl' results', foldM (queue_one now storage) (dl, results) gs = Ok (dl', results') ∧ downloads_ok dl'.
Proof.
  induction 1 as [|[g rsp] gs Hg Hf IH]; intros dl results Hd; cbn [foldM]; [eauto|]. cbn [queue_one fst snd] in *.
  destruct (should_download_or_verify storage now (gossip_id g)); [rewrite Ok_bind; by apply IH|].
  destruct (queue_ok dl g (Some rsp) Hd Hg) as (dl1 & e & -> & Hd1). rewrite !Ok_bind. by apply IH.
Qed.

Lemma await_output_ok config now grown storage dl o : enabled_ok config now grown storage dl → enabled_ok config now grown (await_output storage o).1 dl.
Proof.
  intros [H1 H2 H3 H4 H5]. unfold await_output. assert (∀ p, enabled_ok config now grown (with_pending storage p) dl).
  { intros p. split; try done. destruct H1 as [Hc Hcost]. split; [by apply core_pending|done]. }
  destruct (created_outputs _ !! o) as [out|]; [destruct (pending_respond _ _ _)|]; cbn; done.
Qed.

Lemma call_ok config now grown m req : service_ok config now grown m → request_ok req →
  ∃ m' r sent, mempool_service_call m now req = Ok (m', r, sent) ∧ service_ok config now grown m' ∧ chain_tip_change m' = chain_tip_change m.
Proof.
  intros Hs Hreq. pose proof Hs as [Hcfg Hst]. unfold mempool_service_call. destruct (active_state m) as [|storage dl tip] eqn:Hstate.
  { eexists _, _, _. split; [done|]. by split. }
  destruct Hst as [Hen Htip]. assert (∃ s' dl' r sent, call_enabled now storage dl tip req = Ok (s', dl', r, sent) ∧ enabled_ok config now grown s' dl') as (s' & dl' & r & sent & -> & Hen').
  { destruct req as [| | |o| | | |gs| | |]; cbn [call_enabled]; try by eexists _, _, _, _.
    - pose proof (await_output_ok config now grown storage dl o Hen) as Ha. destruct (await_output storage o) as [s' sent]. by eexists _, _, _, _.
    - destruct Hen as [E1 E2 E3 E4 E5]. destruct (queue_request_ok now storage gs Hreq dl [] E3) as (dl' & results & -> & Hd). rewrite Ok_bind.
      eexists _, _, _, _. split; [done|by split]. }
  rewrite Ok_bind. eexists _, _, _. split; [done|]. split; [|done]. by split.
Qed.

(** ** Reachable services *)

(** The states of the service, with the time of the last call and the transactions of the blocks that have grown the tip since the last
    reset. A block does not contain a transaction of these blocks, which are its ancestors. *)
Inductive service_reachable (config : MempoolConfig) (network : Network) : Z → gset Hash → Mempool → Prop :=
| service_start now change reads : change_network change = network → service_reachable config network now ∅ (mempool_new config change reads)
| service_poll now grown m inputs end_ m' out : service_reachable config network now grown m → inputs_ok network now inputs end_ →
    (∀ h, h ∈ action_ids (next_action m inputs) → h ∉ grown) → poll_ready m inputs = Ok (m', out) →
    service_reachable config network end_ (next_grown (next_action m inputs) grown) m'
| service_call now now' grown m req m' r sent : service_reachable config network now grown m → now ≤ now' → request_ok req →
    mempool_service_call m now' req = Ok (m', r, sent) → service_reachable config network now' grown m'.

Lemma service_later config now now' grown m : now ≤ now' → service_ok config now grown m → service_ok config now' grown m.
Proof. intros Hn [Hc Hs]. split; [done|]. destruct (active_state m) as [|s dl tip]; [done|]. destruct Hs as [Hs Ht]. split; [by eapply enabled_later|done]. Qed.

Lemma service_reachable_ok config network now grown m : config_ok config → service_reachable config network now grown m → service_ok config now grown m.
Proof.
  intros Hc. induction 1 as [now change reads _|now grown m inputs end_ m' out Hr IH Hi Hnew Hp|now now' grown m req m' r sent Hr IH Hn Hreq Hcall].
  - split; [|unfold mempool_new]; unfold mempool_new, update_state; cbn; by destruct (_ || _).
  - destruct (poll_ready_ok network config now end_ grown m inputs Hc IH Hi Hnew) as (m1 & out1 & Hp1 & Hs & _). rewrite Hp in Hp1. injection Hp1 as <- _. done.
  - destruct (call_ok config now' grown m req) as (m1 & r1 & sent1 & Hc1 & Hs & _); [by eapply service_later|done|]. rewrite Hcall in Hc1. injection Hc1 as <- _ _. done.
Qed.

Lemma follows_at_tip config inputs action m : follows config inputs action m →
  match active_state m with StateDisabled => True | StateEnabled storage _ _ => at_tip inputs action (verified storage) end.
Proof.
  unfold follows. destruct (active_state m) as [|storage dl tip]; [done|]. intros [_ [->|Hat]]; [|done]. intros h tx Htx. cbn in Htx. by rewrite lookup_empty in Htx.
Qed.

(** C6: the mempool service follows the chain. From every state that the service reaches, a poll returns, whatever the downloads that have ended return and
    whatever the order of the hash tables and the random evictions are. If the mempool is enabled after it, then its tip is the block of the tip
    channel; no two of its transactions conflict, and their costs are within the limit; none of them is in the block that has
    grown the tip, or conflicts with a transaction of that block, or has expired at the height of the best tip; and at most 25 downloads are pending. Every request returns. *)
Theorem service_follows_tip config network now grown m inputs end_ (Hconfig : config_ok config) (Hreach : service_reachable config network now grown m)
    (Hinputs : inputs_ok network now inputs end_) (Hnew : ∀ h, h ∈ action_ids (next_action m inputs) → h ∉ grown) :
  (∃ m' out, poll_ready m inputs = Ok (m', out) ∧
    match active_state m' with
    | StateDisabled => True
    | StateEnabled storage tx_downloads last_seen_tip_hash =>
        (∀ b, watched (poll_channel inputs) = Some b → last_seen_tip_hash = tip_hash b) ∧
        (∀ h h' tx tx', set_transactions (verified storage) !! h = Some tx → set_transactions (verified storage) !! h' = Some tx' → h ≠ h' →
           ¬ conflict (verified_tx tx) (verified_tx tx')) ∧
        map_sum cost (set_transactions (verified storage)) ≤ config_tx_cost_limit config ∧
        at_tip inputs (next_action m inputs) (verified storage) ∧
        Z.of_nat (length (dl_pending tx_downloads)) ≤ MAX_INBOUND_CONCURRENCY
    end) ∧
  ∀ now' req, now ≤ now' → request_ok req → ∃ m' r sent, mempool_service_call m now' req = Ok (m', r, sent).
Proof.
  pose proof (service_reachable_ok _ _ _ _ _ Hconfig Hreach) as Hok. split.
  - destruct (poll_ready_ok network config now end_ grown m inputs Hconfig Hok Hinputs Hnew) as (m' & out & Hp & [_ Hs] & Hf).
    exists m', out. split; [done|]. pose proof (follows_at_tip _ _ _ _ Hf) as Hat. unfold follows in Hf. destruct (active_state m') as [|storage dl tip]; [done|].
    destruct Hs as [[H1 H2 H3 _ _] _], Hf as [Htip _]. split_and!; [done| |rewrite <- H2; apply H1|done|apply H3].
    intros h h' tx tx' Hh Hh' Hne. eapply set_ok_no_conflict; [|done..]. apply H1.
  - intros now' req Hn Hreq. destruct (call_ok config now' grown m req) as (m' & r & sent & Hc & _); [by eapply service_later|done|]. eauto.
Qed.

(** A path of tracked dependencies that leaves no transaction of the block. *)
Definition unmined_path (v : VerifiedSet) (block : ChainTipBlock) : Hash → Hash → Prop :=
  rtc (λ x d, edge (set_dependencies v) x d ∧ x ∉ block_ids block).

(** The transactions that a block removes, once the dependencies on its own transactions are cleared. *)
Lemma grow_hit_spec config now grown storage dl block h tx (T := set_transactions (verified storage)) :
  enabled_ok config now grown storage dl → T !! h = Some tx →
  hit (set_clear_mined (verified storage) (block_ids block)) (mined_out (block_ids block) (tip_transactions block)) h ↔
  h ∈ block_ids block ∨ ∃ k t b, T !! k = Some t ∧ b ∈ tip_transactions block ∧ conflict (verified_tx t) b ∧ unmined_path (verified storage) block k h.
Proof.
  intros Hok Htx. pose proof (storage_set _ _ (storage_ok_core _ _ (enabled_storage _ _ _ _ _ Hok))) as Hset.
  destruct (set_clear_mined_spec (verified storage) (block_ids block) Hset) as [_ He].
  assert (Hpath : ∀ k x, affected (set_dependencies (set_clear_mined (verified storage) (block_ids block))) k x ↔ unmined_path (verified storage) block k x).
  { intros k x. split; apply rtc_subrel; intros y z; apply He. }
  unfold hit. setoid_rewrite Hpath. unfold mined_out. setoid_rewrite orb_true_iff. setoid_rewrite bool_decide_eq_true. setoid_rewrite duplicate_spend_spec. split.
  - intros (k & t & Hk & [Hp|(b & Hb & Hcf)] & Ha); [|right; by exists k, t, b]. change (T !! k = Some t) in Hk. rewrite (set_ok_stored _ _ _ Hset Hk) in Hp.
    apply rtc_inv in Ha as [->|(x & [_ Hx] & _)]; [by left|done].
  - intros [Hm|(k & t & b & Hk & Hb & Hcf & Ha)]; [exists h, tx|exists k, t; eauto 6]. split_and!; [done| |done]. left. by rewrite (set_ok_stored _ _ _ Hset Htx).
Qed.

(** C26: when a block grows the tip, and none of its transactions was in an earlier block since the last reset, the handler returns, and a transaction leaves the
    mempool exactly when it is in the block, or it conflicts with the block, or it depends on such a conflicting transaction through transactions
    that the block does not have. When the tip reaches a height, the handler returns, and a transaction leaves the mempool exactly when it expires
    there or depends on one that does. *)
Theorem grow_and_expire_exact config now grown has_receivers storage tx_downloads c block tip_height (Hok : enabled_ok config now grown storage tx_downloads)
    (Hnew : ∀ h, h ∈ block_ids block → h ∉ grown) (T := set_transactions (verified storage)) :
  (∃ storage' tx_downloads' c', handle_grow now has_receivers storage tx_downloads c block = Ok (storage', tx_downloads', c') ∧
     ∀ h tx, set_transactions (verified storage') !! h = Some tx ↔ T !! h = Some tx ∧ h ∉ block_ids block ∧
       ¬ ∃ k t b, T !! k = Some t ∧ b ∈ tip_transactions block ∧ conflict (verified_tx t) b ∧ unmined_path (verified storage) block k h) ∧
  ∃ storage' c', handle_expired now storage c tip_height = Ok (storage', c') ∧
    ∀ h tx, set_transactions (verified storage') !! h = Some tx ↔ T !! h = Some tx ∧
      ¬ ∃ k t, T !! k = Some t ∧ has_expired_at tip_height (verified_tx t) = true ∧ affected (set_dependencies (verified storage)) k h.
Proof.
  split.
  - destruct (handle_grow_ok config now grown has_receivers storage tx_downloads c block Hok Hnew) as (s' & dl' & c' & Hr & _ & R & [HT _] & HR).
    exists s', dl', c'. split; [done|]. intros h tx. rewrite HT, HR. split; intros [Htx Hn]; (split; [done|]);
      rewrite (grow_hit_spec _ _ _ _ _ block h tx Hok Htx) in *; tauto.
  - destruct (handle_expired_ok config now grown storage tx_downloads c tip_height Hok) as (s' & c' & Hr & _ & R & [HT _] & HR).
    exists s', c'. split; [done|]. intros h tx. by rewrite HT, HR.
Qed.


(** ** Downloads that run out of time *)

(** The downloads that the operations reach. *)
Inductive downloads_reachable : Downloads → Prop :=
| downloads_start : downloads_reachable downloads_new
| downloads_queue dl g rsp dl' e : downloads_reachable dl → download_if_needed_and_verify dl g rsp = Ok (dl', e) → downloads_reachable dl'
| downloads_poll dl i e dl' item : downloads_reachable dl → poll_next dl i e = Ok (Some (dl', item)) → downloads_reachable dl'
| downloads_cancel dl ids : downloads_reachable dl → downloads_reachable (dl_cancel dl ids).

(** C39: a download that runs out of time keeps its entry in the map of the cancel handles. So a transaction that has timed out once cannot be queued again, although
    no task is pending for it, and the map is not bounded by the limit of the pending downloads. *)
Theorem timed_out_handles_leak n : ∃ dl, downloads_reachable dl ∧ dl_pending dl = [] ∧ size (cancel_handles dl) = n ∧
  ∀ id, is_Some (cancel_handles dl !! id) → ∀ rsp, download_if_needed_and_verify dl (GossipId id) rsp = Ok (dl, Some AlreadyQueued).
Proof.
  assert (∃ dl, downloads_reachable dl ∧ dl_pending dl = [] ∧ size (cancel_handles dl) = n ∧ ∀ k, (n ≤ k)%nat → cancel_handles dl !! Legacy [Z.of_nat k] = None)
    as (dl & Hr & Hp & Hs & _).
  { induction n as [|n (dl & Hr & Hp & Hs & Hf)].
    - exists downloads_new. split_and!; [constructor|done|done|]. intros k _. apply lookup_empty.
    - set (id := Legacy [Z.of_nat n]). assert (Hn : cancel_handles dl !! id = None) by (by apply Hf).
      assert (Hq : download_if_needed_and_verify dl (GossipId id) None = Ok (mkDownloads [(GossipId id, None)] (<[id := GossipId id]> (cancel_handles dl)), None)).
      { unfold download_if_needed_and_verify. cbn [gossip_id]. rewrite bool_decide_false by (rewrite Hn; by intros []). rewrite Hp. cbn [length Z.of_nat Z.leb].
        change (MAX_INBOUND_CONCURRENCY <=? 0) with false. cbn iota. rewrite bool_decide_true by done. done. }
      eexists. split; [eapply downloads_poll; [eapply downloads_queue; [exact Hr|exact Hq]|exact (eq_refl (poll_next _ 0 EndElapsed))]|].
      cbn [dl_pending cancel_handles]. split_and!; [done|by rewrite map_size_insert_None, Hs|].
      intros k Hk. rewrite lookup_insert_ne by (intros [= Heq]; lia). apply Hf. lia. }
  exists dl. split_and!; [done|done|done|]. intros id Hid rsp. unfold download_if_needed_and_verify. by rewrite bool_decide_true.
Qed.

End Follow.

(** ** Samples *)

#[local] Existing Instance sample_curves.
#[local] Existing Instance sample_curve_laws.
#[local] Existing Instance sample_lib.
#[local] Existing Instance sample_sighash.
#[local] Existing Instance sample_script.
#[local] Existing Instance sample_hashes.
#[local] Existing Instance sample_verifiers.
#[local] Existing Instance sample_policy.
#[local] Existing Instance graph_order.
#[local] Existing Instance graph_order_laws.
#[local] Existing Instance sample_sampler.
#[local] Existing Instance sample_sampler_laws.

(** A mempool that is enabled at a block, and then grows with its child. *)
Definition first_tip : ChainTipBlock := mkTip [1] 1700000 0 [] [] [0].
Definition second_tip : ChainTipBlock := mkTip [2] 1700001 0 [] [[9]] [1].
Definition start_service : Mempool := mempool_new pool_config (change_new Mainnet 0) (mkReads false None).
Definition tip_inputs (tip : ChainTipBlock) (now : Z) : PollInputs :=
  mkPollInputs (mkWatch (Some tip) 1) (mkReads true (Some (tip_height tip))) (mkReads true (Some (tip_height tip))) (Some (tip_height tip)) [] now now (λ _, true) true.
Definition first_service : Mempool := (ok_value (start_service, poll_nothing) (poll_ready start_service (tip_inputs first_tip 0))).1.

Lemma tip_inputs_ok tip now : inputs_ok Mainnet now (tip_inputs tip now) now.
Proof. split; [constructor|cbn; lia|done|done]. Qed.
Lemma pool_config_ok : config_ok pool_config.
Proof. done. Qed.
Lemma first_action : next_action start_service (tip_inputs first_tip 0) = Some (ResetTo 1700000 [1]).
Proof. vm_compute. reflexivity. Qed.
Lemma first_reachable : service_reachable pool_config Mainnet 0 ∅ first_service.
Proof.
  assert (Hp : is_ok (poll_ready start_service (tip_inputs first_tip 0)) = true) by (vm_compute; reflexivity).
  apply (ok_value_eq (start_service, poll_nothing)) in Hp. unfold first_service. destruct (ok_value _ _) as [m out] eqn:Ho.
  change ∅ with (next_grown (Some (ResetTo 1700000 [1])) ∅). rewrite <- first_action. eapply service_poll; [by apply service_start|apply tip_inputs_ok| |].
  - rewrite first_action. intros h Hh. by apply not_elem_of_empty in Hh.
  - by rewrite Hp.
Qed.

(** A transaction is queued, and its task ends before the next poll: the verifier of the task is the transaction verifier. *)
Definition sample_env : TaskEnv := {|
  task_in_best_chain _ := Ok false;
  task_tip := Ok (Some (1700000, [1]));
  task_network _ := Ok [Some (verified_transaction parent_tx, None)];
  task_verifier req := match verify (λ l, l) (λ _ _, []) Mainnet sample_state None req with Ok rsp => Ok rsp | _ => Err (BoxTransaction CoinbasePosition) end;
|}.
Lemma sample_env_ok : env_ok Mainnet sample_env.
Proof.
  split.
  - done.
  - intros r <-. by exists 1700001.
  - intros id r <- tx [= <-]. eexists _, _. split; [done|apply parent_parsed].
  - intros req. cbn. by destruct (verify _ _ _ _ _ _).
  - intros req rsp Hv. cbn in Hv. destruct (verify (λ l, l) _ _ _ _ req) as [r| |] eqn:Hr; [|done..]. injection Hv as <-. eauto.
Qed.

Definition queue_parent : PoolRequest := Queue [(GossipTx (verified_transaction parent_tx), 0)].
Definition queued_service : Mempool := (ok_value (first_service, inr RespChecked, []) (mempool_service_call first_service 0 queue_parent)).1.1.
Definition task_inputs : PollInputs :=
  mkPollInputs (poll_channel (tip_inputs second_tip 5)) (poll_reads (tip_inputs second_tip 5)) (poll_reads_again (tip_inputs second_tip 5)) (Some (tip_height second_tip))
    [(3, 0%nat, EndDone sample_env)] 5 5 (λ _, true) true.

Lemma queued_reachable : service_reachable pool_config Mainnet 0 ∅ queued_service.
Proof.
  assert (Hp : is_ok (mempool_service_call first_service 0 queue_parent) = true) by (vm_compute; reflexivity).
  apply (ok_value_eq (first_service, inr RespChecked, [])) in Hp. unfold queued_service. destruct (ok_value _ _) as [[m r] sent] eqn:Ho.
  eapply service_call; [apply first_reachable|reflexivity| |by rewrite Hp]. constructor; [apply parent_parsed|constructor].
Qed.

Lemma service_follows_tip_witness : ∃ m' out, poll_ready queued_service task_inputs = Ok (m', out) ∧
  match active_state m' with StateEnabled _ _ last_seen_tip_hash => last_seen_tip_hash = [2] | StateDisabled => True end.
Proof.
  destruct (service_follows_tip pool_config Mainnet 0 ∅ queued_service task_inputs 5 pool_config_ok queued_reachable) as [(m' & out & Hp & Hm) _].
  - split; [constructor; [apply sample_env_ok|constructor]|cbn; lia|done|done].
  - intros h _. apply not_elem_of_empty.
  - exists m', out. split; [exact Hp|]. destruct (active_state m') as [|s dl tip]; [exact I|]. destruct Hm as [Htip _]. exact (Htip second_tip eq_refl).
Defined.

Definition parent_block : ChainTipBlock := mkTip [2] 1700001 0 [verified_tx parent_tx] [mined_id (verified_id parent_tx)] [1].
Definition large_config : MempoolConfig := mkMempoolConfig 80000000 3600 None None.
Definition parent_storage : Storage := (pool_insert (storage_new large_config) parent_tx []).1.1.
Definition family_storage : Storage := (pool_insert parent_storage child_tx [parent_outpoint]).1.1.

Lemma pool_insert_enabled config grown s dl tx spent : enabled_ok config 0 grown s dl → parsed_tx tx → (∀ o, o ∈ spent → o ∈ spent_outpoints (verified_tx tx)) →
  enabled_ok config 0 grown (pool_insert s tx spent).1.1 dl.
Proof.
  intros [H1 H2 H3 H4 H5] Hp Hs. destruct (storage_insert_spec 0 s tx spent None H1 Hp Hs) as (s' & r & sent & Hr & Hok & Hl & Hm & Ho).
  unfold pool_insert. rewrite Hr. cbn [ok_value fst]. split; [done|congruence|done|by eapply mined_in_none|by eapply parsed_insert].
Qed.

Lemma family_ok : enabled_ok large_config 0 ∅ family_storage downloads_new.
Proof.
  apply pool_insert_enabled; [apply pool_insert_enabled|apply child_parsed|apply child_op_ok]; [by apply new_enabled_ok|apply parent_parsed|apply parent_op_ok].
Qed.


Lemma grow_and_expire_exact_witness : ∃ storage' tx_downloads' c',
  handle_grow 0 (λ _, true) family_storage downloads_new nothing_collected parent_block = Ok (storage', tx_downloads', c') ∧
  set_transactions (verified storage') !! mined_id (verified_id parent_tx) = None.
Proof.
  destruct (grow_and_expire_exact large_config 0 ∅ (λ _, true) family_storage downloads_new nothing_collected parent_block 100 family_ok)
    as [(s' & dl' & c' & Hr & Hs') _].
  - intros h _. apply not_elem_of_empty.
  - exists s', dl', c'. split; [exact Hr|]. destruct (set_transactions (verified s') !! mined_id (verified_id parent_tx)) as [tx|] eqn:Htx; [|done].
    apply Hs' in Htx as (_ & Hn & _). destruct Hn. unfold parent_block, block_ids. cbn [tip_transaction_hashes]. set_solver.
Defined.
