(* ===== verification/DiskFormat.v ===== *)
(** * Formats of the finalized database

    [zebra-state/src/service/finalized_state/disk_format.rs], [disk_format/block.rs], [disk_format/transparent.rs],
    [disk_format/shielded.rs] and [disk_format/chain.rs]: the bytes of the keys and of the values of the database. The database visits
    its keys in the order of their bytes, so the format of a key has to keep the order of the keys: the class [DiskKey]. Formats
    that are the encodings of [zebra-chain], and those of [bincode], are left out. *)

From S2P Require Import Prelude Height Amount ValueBalance Network Transaction Transfers Chain.

(** ** The traits *)

Class IntoDisk (T : Type) := into_disk : T → Run (list Z).
Class FromDisk (T : Type) := from_disk : list Z → Run T.

Definition as_bytes {T} `{IntoDisk T} (t : T) : list Z := ok_value [] (into_disk t).

(** [split_at] panics if the index is after the end. *)
Definition split_at (n : nat) (bytes : list Z) : Run (list Z * list Z) :=
  _ ← assert (n <=? length bytes)%nat; Ok (take n bytes, drop n bytes).

(** [try_into().unwrap()] to an array of [n] bytes. *)
Definition array (n : nat) (bytes : list Z) : Run (list Z) := _ ← assert (length bytes =? n)%nat; Ok bytes.

Definition truncate_zero_be_bytes (mem_bytes : list Z) (disk_len : nat) : Run (option (list Z)) :=
  _ ← assert (disk_len <=? length mem_bytes)%nat;
  let discarded_bytes := (length mem_bytes - disk_len)%nat in
  if (discarded_bytes =? 0)%nat then Ok (Some mem_bytes) else
  '(discarded, truncated) ← split_at discarded_bytes mem_bytes;
  if negb (forallb (λ byte, byte =? 0) discarded) then Ok None else
  _ ← assert (length truncated =? disk_len)%nat;
  Ok (Some truncated).

Definition expand_zero_be_bytes (mem_size : nat) (disk_bytes : list Z) : Run (list Z) :=
  if (length disk_bytes =? mem_size)%nat then Ok disk_bytes else
  _ ← assert (length disk_bytes <=? mem_size)%nat;
  Ok (replicate (mem_size - length disk_bytes) 0 ++ disk_bytes).

(** ** Blocks and transactions *)

Definition HEIGHT_DISK_BYTES : nat := 3.
Definition TX_INDEX_DISK_BYTES : nat := 2.
Definition TRANSACTION_LOCATION_DISK_BYTES : nat := HEIGHT_DISK_BYTES + TX_INDEX_DISK_BYTES.
Definition MAX_ON_DISK_HEIGHT : Height := Z.shiftl 1 (Z.of_nat HEIGHT_DISK_BYTES * 8) - 1.

(** The bytes of a [u32] of which the first one is dropped. A larger value is replaced by the greatest one, [max]. *)
Definition saturated_bytes (disk_len : nat) (max v : Z) : Run (list Z) :=
  disk_bytes ← truncate_zero_be_bytes (be_bytes 4 v) disk_len;
  match disk_bytes with
  | Some b => array disk_len b
  | None =>
      disk_bytes ← truncate_zero_be_bytes (be_bytes 4 max) disk_len;
      b ← expect disk_bytes;
      array disk_len b
  end.

#[export] Instance Height_into_disk : IntoDisk Height := saturated_bytes HEIGHT_DISK_BYTES MAX_ON_DISK_HEIGHT.
#[export] Instance Height_from_disk : FromDisk Height := λ disk_bytes,
  mem_bytes ← expand_zero_be_bytes 4 disk_bytes;
  Ok (of_be_bytes mem_bytes).

#[export] Instance Hash_into_disk : IntoDisk Hash := λ self, Ok self.
#[export] Instance Hash_from_disk : FromDisk Hash := λ bytes, array 32 bytes.
#[export] Instance unit_into_disk : IntoDisk unit := λ _, Ok [].
#[export] Instance unit_from_disk : FromDisk unit := λ bytes, assert (length bytes =? 0)%nat.

(** [TransactionIndex] is a [u16]. *)
Definition tx_index_into_disk (index : Z) : Run (list Z) := Ok (be_bytes 2 index).
Definition tx_index_from_disk (disk_bytes : list Z) : Run Z := bytes ← array TX_INDEX_DISK_BYTES disk_bytes; Ok (of_be_bytes bytes).

#[export] Instance TransactionLocation_into_disk : IntoDisk TransactionLocation := λ self,
  height_bytes ← into_disk (tx_loc_height self);
  index_bytes ← tx_index_into_disk (tx_loc_index self);
  array TRANSACTION_LOCATION_DISK_BYTES (height_bytes ++ index_bytes).
#[export] Instance TransactionLocation_from_disk : FromDisk TransactionLocation := λ disk_bytes,
  '(height_bytes, index_bytes) ← split_at HEIGHT_DISK_BYTES disk_bytes;
  height ← from_disk height_bytes;
  index ← tx_index_from_disk index_bytes;
  Ok (mkTxLoc height index).
(** The value of a spent output or a revealed nullifier: its location, or nothing before it was indexed. *)
#[export] Instance OptionTransactionLocation_from_disk : FromDisk (option TransactionLocation) := λ disk_bytes,
  if (length disk_bytes =? TRANSACTION_LOCATION_DISK_BYTES)%nat then location ← from_disk disk_bytes; Ok (Some location) else Ok None.

(** ** Transparent data *)

Definition BALANCE_DISK_BYTES : nat := 8.
Definition OUTPUT_INDEX_DISK_BYTES : nat := 3.
Definition OUTPUT_LOCATION_DISK_BYTES : nat := TRANSACTION_LOCATION_DISK_BYTES + OUTPUT_INDEX_DISK_BYTES.
Definition MAX_ON_DISK_OUTPUT_INDEX : Z := Z.shiftl 1 (Z.of_nat OUTPUT_INDEX_DISK_BYTES * 8) - 1.

Definition output_index_into_disk : Z → Run (list Z) := saturated_bytes OUTPUT_INDEX_DISK_BYTES MAX_ON_DISK_OUTPUT_INDEX.
Definition output_index_from_disk (disk_bytes : list Z) : Run Z :=
  mem_bytes ← expand_zero_be_bytes 4 disk_bytes;
  Ok (of_be_bytes mem_bytes).

#[export] Instance OutputLocation_into_disk : IntoDisk OutputLocation := λ self,
  transaction_location_bytes ← into_disk (transaction_loc self);
  output_index_bytes ← output_index_into_disk (output_index self);
  array OUTPUT_LOCATION_DISK_BYTES (transaction_location_bytes ++ output_index_bytes).
#[export] Instance OutputLocation_from_disk : FromDisk OutputLocation := λ disk_bytes,
  '(transaction_location_bytes, output_index_bytes) ← split_at TRANSACTION_LOCATION_DISK_BYTES disk_bytes;
  transaction_location ← from_disk transaction_location_bytes;
  output_index ← output_index_from_disk output_index_bytes;
  Ok (mkOutLoc transaction_location output_index).

Abbreviation AddressLocation := OutputLocation.

Record AddressUnspentOutput := mkUnspent { unspent_address_location : AddressLocation; unspent_output_location : OutputLocation }.
Record AddressTransaction := mkAddressTx { tx_address_location : AddressLocation; address_tx_location : TransactionLocation }.

#[export] Instance AddressUnspentOutput_into_disk : IntoDisk AddressUnspentOutput := λ self,
  address_location_bytes ← into_disk (unspent_address_location self);
  unspent_output_location_bytes ← into_disk (unspent_output_location self);
  array (OUTPUT_LOCATION_DISK_BYTES + OUTPUT_LOCATION_DISK_BYTES) (address_location_bytes ++ unspent_output_location_bytes).
#[export] Instance AddressUnspentOutput_from_disk : FromDisk AddressUnspentOutput := λ disk_bytes,
  '(address_location_bytes, unspent_output_location_bytes) ← split_at OUTPUT_LOCATION_DISK_BYTES disk_bytes;
  address_location ← from_disk address_location_bytes;
  unspent_output_location ← from_disk unspent_output_location_bytes;
  Ok (mkUnspent address_location unspent_output_location).

#[export] Instance AddressTransaction_into_disk : IntoDisk AddressTransaction := λ self,
  address_location_bytes ← into_disk (tx_address_location self);
  transaction_location_bytes ← into_disk (address_tx_location self);
  array (OUTPUT_LOCATION_DISK_BYTES + TRANSACTION_LOCATION_DISK_BYTES) (address_location_bytes ++ transaction_location_bytes).
#[export] Instance AddressTransaction_from_disk : FromDisk AddressTransaction := λ disk_bytes,
  '(address_location_bytes, transaction_location_bytes) ← split_at OUTPUT_LOCATION_DISK_BYTES disk_bytes;
  address_location ← from_disk address_location_bytes;
  transaction_location ← from_disk transaction_location_bytes;
  Ok (mkAddressTx address_location transaction_location).

Definition address_kind (self : Address) : NetworkKind :=
  match self with PayToScriptHash kind _ | PayToPublicKeyHash kind _ | Tex kind _ => kind end.
Definition address_hash_bytes (self : Address) : list Z :=
  match self with PayToScriptHash _ hash | PayToPublicKeyHash _ hash | Tex _ hash => hash end.
Definition address_variant (address : Address) : Z :=
  match address_kind address, address with
  | MainnetKind, PayToPublicKeyHash _ _ => 0
  | MainnetKind, PayToScriptHash _ _ => 1
  | _, PayToPublicKeyHash _ _ => 2
  | _, PayToScriptHash _ _ => 3
  | MainnetKind, Tex _ _ => 4
  | _, Tex _ _ => 5
  end.
#[export] Instance Address_into_disk : IntoDisk Address := λ self, array 21 (address_variant self :: address_hash_bytes self).

(** [AddressBalanceLocationInner]: of [AddressBalanceLocation] for non-negative amounts, and of [AddressBalanceLocationChange]. *)
Record AddressBalanceLocationInner (C : Type) := mkAddressBalance {
  address_balance_amount : Amount C;
  address_received : Z;
  address_location : AddressLocation;
}.
Arguments mkAddressBalance {C}.
Arguments address_balance_amount {C}.
Arguments address_received {C}.
Arguments address_location {C}.

#[export] Instance AddressBalance_into_disk {C} : IntoDisk (AddressBalanceLocationInner C) := λ self,
  let balance_bytes := Amount.to_bytes (address_balance_amount self) in
  address_location_bytes ← into_disk (address_location self);
  let received_bytes := le_bytes 8 (address_received self) in
  array (BALANCE_DISK_BYTES + OUTPUT_LOCATION_DISK_BYTES + 8) (balance_bytes ++ address_location_bytes ++ received_bytes).
(** The received balance was added to the format later: it is 0 if it is missing. *)
#[export] Instance AddressBalance_from_disk {C} `{!Constraint C} : FromDisk (AddressBalanceLocationInner C) := λ disk_bytes,
  '(balance_bytes, rest) ← split_at BALANCE_DISK_BYTES disk_bytes;
  '(address_location_bytes, rest) ← split_at BALANCE_DISK_BYTES rest;
  let received_bytes := if (8 <=? length rest)%nat then take 8 rest else [] in
  balance_bytes ← array 8 balance_bytes;
  balance ← expect_ok (Amount.from_bytes balance_bytes);
  location ← from_disk address_location_bytes;
  let received := if (length received_bytes =? 8)%nat then of_le_bytes received_bytes else 0 in
  Ok (mkAddressBalance balance received location).

(** ** Shielded and chain data *)

Record SubtreeIndex := mkSubtreeIndex { subtree_index_value : Z }.
#[export] Instance SubtreeIndex_into_disk : IntoDisk SubtreeIndex := λ self, Ok (be_bytes 2 (subtree_index_value self)).
#[export] Instance SubtreeIndex_from_disk : FromDisk SubtreeIndex := λ bytes, bytes ← array 2 bytes; Ok (mkSubtreeIndex (of_be_bytes bytes)).

(** A subtree is stored with its height and the bytes of its node. *)
#[export] Instance SubtreeData_into_disk {Node} `{!IntoDisk Node} : IntoDisk (NoteCommitmentSubtreeData Node) := λ self,
  height_bytes ← into_disk (end_height self);
  node_bytes ← into_disk (data_root self);
  Ok (height_bytes ++ node_bytes).
#[export] Instance SubtreeData_from_disk {Node} `{!FromDisk Node} : FromDisk (NoteCommitmentSubtreeData Node) := λ disk_bytes,
  '(height_bytes, node_bytes) ← split_at HEIGHT_DISK_BYTES disk_bytes;
  height ← from_disk height_bytes;
  node ← from_disk node_bytes;
  Ok (mkSubtreeData node height).

#[export] Instance BlockInfo_into_disk : IntoDisk BlockInfo := λ self, Ok (ValueBalance.to_bytes (value_pools self) ++ le_bytes 4 (size self)).
#[export] Instance BlockInfo_from_disk : FromDisk BlockInfo := λ bytes,
  _ ← assert (44 <=? length bytes)%nat;
  value_pools ← expect_ok (ValueBalance.from_bytes (take 40 bytes));
  Ok (mkBlockInfo value_pools (of_le_bytes (take 4 (drop 40 bytes)))).

(** ** The order of the bytes *)

(** The derived order of a structure. *)
Definition then_cmp (c d : comparison) : comparison := match c with Eq => d | _ => c end.

Definition tx_loc_cmp (a b : TransactionLocation) : comparison :=
  then_cmp (tx_loc_height a ?= tx_loc_height b) (tx_loc_index a ?= tx_loc_index b).
Definition out_loc_cmp (a b : OutputLocation) : comparison :=
  then_cmp (tx_loc_cmp (transaction_loc a) (transaction_loc b)) (output_index a ?= output_index b).
Definition unspent_cmp (a b : AddressUnspentOutput) : comparison :=
  then_cmp (out_loc_cmp (unspent_address_location a) (unspent_address_location b)) (out_loc_cmp (unspent_output_location a) (unspent_output_location b)).
Definition address_tx_cmp (a b : AddressTransaction) : comparison :=
  then_cmp (out_loc_cmp (tx_address_location a) (tx_address_location b)) (tx_loc_cmp (address_tx_location a) (address_tx_location b)).

(** What the database needs of a key: writing it does not panic, the keys that can be stored are read back, and their bytes are in
    the order of the keys. *)
Class DiskKey (K : Type) `{!IntoDisk K, !FromDisk K} := {
  key_valid : K → Prop;
  key_cmp : K → K → comparison;
  disk_total : ∀ k, into_disk k = Ok (as_bytes k);
  disk_roundtrip : ∀ k, key_valid k → from_disk (as_bytes k) = Ok k;
  disk_ordered : ∀ j k, key_valid j → key_valid k → bytes_cmp (as_bytes j) (as_bytes k) = key_cmp j k;
}.

Lemma bytes_cmp_app a b c d : length a = length c → bytes_cmp (a ++ b) (c ++ d) = then_cmp (bytes_cmp a c) (bytes_cmp b d).
Proof.
  revert c. induction a as [|x a IH]; intros [|y c] [=]; [done|]. cbn. destruct (x ?= y); [by apply IH|done|done].
Qed.

Lemma le_bytes_snoc n z : le_bytes (S n) z = le_bytes n z ++ [(z `div` 256 ^ Z.of_nat n) `mod` 256].
Proof.
  revert z. induction n as [|n IH]; intros z.
  - cbn. by rewrite Z.div_1_r.
  - change (le_bytes (S (S n)) z) with (z `mod` 256 :: le_bytes (S n) (z `div` 256)). rewrite IH, pow256_succ, <- Z.div_div by lia. done.
Qed.

Lemma be_bytes_cons n z : be_bytes (S n) z = (z `div` 256 ^ Z.of_nat n) `mod` 256 :: be_bytes n z.
Proof. unfold be_bytes. by rewrite le_bytes_snoc, reverse_app, reverse_singleton. Qed.

Lemma length_be_bytes n z : length (be_bytes n z) = n.
Proof. unfold be_bytes. rewrite length_reverse. apply length_le_bytes. Qed.

Lemma bytes_cmp_be n x y : 0 ≤ x < 256 ^ Z.of_nat n → 0 ≤ y < 256 ^ Z.of_nat n → bytes_cmp (be_bytes n x) (be_bytes n y) = (x ?= y).
Proof.
  revert x y. induction n as [|n IH]; intros x y; [cbn; intros ??; assert (x = 0 ∧ y = 0) as [-> ->] by lia; done|].
  rewrite pow256_succ. intros Hx Hy. unfold be_bytes. cbn [le_bytes]. rewrite !reverse_cons, bytes_cmp_app by (by rewrite !length_reverse, !length_le_bytes).
  fold (be_bytes n (x `div` 256)) (be_bytes n (y `div` 256)).
  assert (∀ z, 0 ≤ z < 256 * 256 ^ Z.of_nat n → 0 ≤ z `div` 256 < 256 ^ Z.of_nat n) as Hd.
  { intros z Hz. split; [apply Z.div_pos; lia|apply Z.div_lt_upper_bound; lia]. }
  rewrite IH by auto. cbn [bytes_cmp]. pose proof (Z.div_mod x 256) as Ex. pose proof (Z.div_mod y 256) as Ey.
  pose proof (Z.mod_pos_bound x 256). pose proof (Z.mod_pos_bound y 256).
  destruct (Z.compare_spec (x `div` 256) (y `div` 256)) as [E|E|E]; cbn [then_cmp].
  - destruct (Z.compare_spec (x `mod` 256) (y `mod` 256)), (Z.compare_spec x y); try done; lia.
  - symmetry. apply Z.compare_lt_iff. lia.
  - symmetry. apply Z.compare_gt_iff. lia.
Qed.

(** ** The formats of the keys *)

Lemma as_bytes_Ok {T} `{!IntoDisk T} (t : T) b : into_disk t = Ok b → as_bytes t = b.
Proof. unfold as_bytes. by intros ->. Qed.

Lemma truncate_four_three v : truncate_zero_be_bytes (be_bytes 4 v) 3 = Ok (if (v `div` 2 ^ 24) `mod` 256 =? 0 then Some (be_bytes 3 v) else None).
Proof.
  unfold truncate_zero_be_bytes, split_at. rewrite (be_bytes_cons 3 v). change (256 ^ Z.of_nat 3) with (2 ^ 24). cbn [length].
  rewrite length_be_bytes. cbn -[be_bytes Z.pow Z.modulo Z.div].
  destruct (_ =? 0); cbn -[be_bytes Z.pow Z.modulo Z.div]; [|done]. rewrite take_0, drop_0; cbn -[be_bytes]; by rewrite length_be_bytes.
Qed.

Lemma array_Ok n b : length b = n → array n b = Ok b.
Proof. intros <-. unfold array. by rewrite Nat.eqb_refl. Qed.

Lemma saturated_bytes_cases v : saturated_bytes 3 (2 ^ 24 - 1) v = Ok (be_bytes 3 (if (v `div` 2 ^ 24) `mod` 256 =? 0 then v else 2 ^ 24 - 1)).
Proof.
  unfold saturated_bytes. rewrite (truncate_four_three v), Ok_bind. destruct (_ =? 0); [apply array_Ok, length_be_bytes|].
  rewrite (truncate_four_three (2 ^ 24 - 1)), Ok_bind. change ((2 ^ 24 - 1) `div` 2 ^ 24) with 0. cbn [Z.eqb Z.modulo expect]. apply array_Ok, length_be_bytes.
Qed.

(** A value that does not fit is replaced by the greatest one that does. *)
Lemma saturated_bytes_spec v : 0 ≤ v < 2 ^ 32 → saturated_bytes 3 (2 ^ 24 - 1) v = Ok (be_bytes 3 (Z.min v (2 ^ 24 - 1))).
Proof.
  intros Hv. rewrite saturated_bytes_cases. rewrite Z.mod_small; [|split; [apply Z.div_pos; lia|apply Z.div_lt_upper_bound; lia]].
  do 2 f_equal. destruct (Z.eqb_spec (v `div` 2 ^ 24) 0) as [E|E]; rewrite Z.div_small_iff in E by lia; lia.
Qed.

Lemma expand_three v : expand_zero_be_bytes 4 (be_bytes 3 v) = Ok (0 :: be_bytes 3 v).
Proof. unfold expand_zero_be_bytes. by rewrite length_be_bytes. Qed.

Lemma of_be_bytes_zero bs : of_be_bytes (0 :: bs) = of_be_bytes bs.
Proof.
  unfold of_be_bytes. rewrite reverse_cons. induction (reverse bs) as [|b l IH]; [done|]. cbn [app of_le_bytes]. by rewrite IH.
Qed.

Definition height_valid (h : Height) : Prop := 0 ≤ h ≤ MAX_ON_DISK_HEIGHT.

Lemma height_into (h : Height) : into_disk h = Ok (be_bytes 3 (if (h `div` 2 ^ 24) `mod` 256 =? 0 then h else 2 ^ 24 - 1)).
Proof. exact (saturated_bytes_cases h). Qed.
Lemma length_height_bytes (h : Height) : length (as_bytes h) = 3%nat.
Proof. rewrite (as_bytes_Ok h _ (height_into h)). apply length_be_bytes. Qed.
Lemma height_bytes (h : Height) : 0 ≤ h < 2 ^ 32 → as_bytes h = be_bytes 3 (Z.min h (2 ^ 24 - 1)).
Proof. intros Hh. by apply (as_bytes_Ok h), saturated_bytes_spec. Qed.
Lemma height_valid_bytes (h : Height) : height_valid h → as_bytes h = be_bytes 3 h.
Proof. unfold height_valid. change MAX_ON_DISK_HEIGHT with (2 ^ 24 - 1). intros Hh. rewrite height_bytes by lia. by rewrite Z.min_l by lia. Qed.

Lemma height_total (k : Height) : into_disk k = Ok (as_bytes k).
Proof.
  revert k. intros h. by rewrite (as_bytes_Ok h _ (height_into h)), height_into.
Qed.
Lemma height_roundtrip (k : Height) : height_valid k → from_disk (as_bytes k) = Ok k.
Proof.
  revert k. intros h Hh. rewrite height_valid_bytes by done. unfold height_valid in Hh. change MAX_ON_DISK_HEIGHT with (2 ^ 24 - 1) in Hh.
  unfold from_disk, Height_from_disk. rewrite expand_three, Ok_bind, of_be_bytes_zero. by rewrite of_be_bytes_small by (change (256 ^ Z.of_nat 3) with (2 ^ 24); lia).
Qed.
Lemma height_ordered (j k : Height) : height_valid j → height_valid k → bytes_cmp (as_bytes j) (as_bytes k) = Z.compare j k.
Proof.
  revert j k. intros j k Hj Hk. rewrite !height_valid_bytes by done. unfold height_valid in *. change MAX_ON_DISK_HEIGHT with (2 ^ 24 - 1) in *.
  apply bytes_cmp_be; change (256 ^ Z.of_nat 3) with (2 ^ 24); lia.
Qed.
#[export] Instance Height_key : DiskKey Height :=
  {| key_valid := height_valid; key_cmp := Z.compare; disk_total := height_total; disk_roundtrip := height_roundtrip; disk_ordered := height_ordered |}.

Lemma split_at_app n a b : length a = n → split_at n (a ++ b) = Ok (a, b).
Proof.
  intros <-. unfold split_at. rewrite length_app, (proj2 (Nat.leb_le _ _)) by lia. cbn [assert]. by rewrite Ok_bind, take_app_length, drop_app_length.
Qed.

Definition tx_loc_valid (l : TransactionLocation) : Prop := height_valid (tx_loc_height l) ∧ 0 ≤ tx_loc_index l < 2 ^ 16.
Definition out_loc_valid (l : OutputLocation) : Prop := tx_loc_valid (transaction_loc l) ∧ 0 ≤ output_index l ≤ MAX_ON_DISK_OUTPUT_INDEX.

Lemma tx_loc_into (l : TransactionLocation) : into_disk l = Ok (as_bytes (tx_loc_height l) ++ be_bytes 2 (tx_loc_index l)).
Proof.
  unfold into_disk at 1, TransactionLocation_into_disk. rewrite disk_total, Ok_bind. unfold tx_index_into_disk. rewrite Ok_bind.
  apply array_Ok. rewrite length_app, length_height_bytes, length_be_bytes. done.
Qed.
Lemma length_tx_loc_bytes (l : TransactionLocation) : length (as_bytes l) = 5%nat.
Proof. rewrite (as_bytes_Ok l _ (tx_loc_into l)), length_app, length_height_bytes, length_be_bytes. done. Qed.

Lemma tx_loc_total (k : TransactionLocation) : into_disk k = Ok (as_bytes k).
Proof.
  revert k. intros l. by rewrite (as_bytes_Ok l _ (tx_loc_into l)), tx_loc_into.
Qed.
Lemma tx_loc_roundtrip (k : TransactionLocation) : tx_loc_valid k → from_disk (as_bytes k) = Ok k.
Proof.
  revert k. intros [h i] [Hh Hi]. cbn in Hh, Hi. rewrite (as_bytes_Ok _ _ (tx_loc_into _)). cbn [tx_loc_height tx_loc_index].
  unfold from_disk, TransactionLocation_from_disk. rewrite split_at_app, Ok_bind by (apply length_height_bytes). rewrite (height_roundtrip h Hh), Ok_bind.
  unfold tx_index_from_disk. rewrite array_Ok, Ok_bind by (apply length_be_bytes). by rewrite Ok_bind, of_be_bytes_small by (cbn; lia).
Qed.
Lemma tx_loc_ordered (j k : TransactionLocation) : tx_loc_valid j → tx_loc_valid k → bytes_cmp (as_bytes j) (as_bytes k) = tx_loc_cmp j k.
Proof.
  revert j k. intros [h i] [h' i'] [Hh Hi] [Hh' Hi']. cbn in Hh, Hi, Hh', Hi'. rewrite !(as_bytes_Ok _ _ (tx_loc_into _)). cbn [tx_loc_height tx_loc_index].
  rewrite bytes_cmp_app by (by rewrite !length_height_bytes). rewrite (height_ordered h h' Hh Hh'), bytes_cmp_be by (cbn; lia). done.
Qed.
#[export] Instance TransactionLocation_key : DiskKey TransactionLocation :=
  {| key_valid := tx_loc_valid; key_cmp := tx_loc_cmp; disk_total := tx_loc_total; disk_roundtrip := tx_loc_roundtrip; disk_ordered := tx_loc_ordered |}.

Definition output_index_bytes (i : Z) : list Z := be_bytes 3 (if (i `div` 2 ^ 24) `mod` 256 =? 0 then i else 2 ^ 24 - 1).

Lemma output_index_into i : output_index_into_disk i = Ok (output_index_bytes i).
Proof. exact (saturated_bytes_cases i). Qed.
Lemma output_index_small i : 0 ≤ i ≤ MAX_ON_DISK_OUTPUT_INDEX → output_index_bytes i = be_bytes 3 i.
Proof. change MAX_ON_DISK_OUTPUT_INDEX with (2 ^ 24 - 1). intros Hi. unfold output_index_bytes. rewrite Z.div_small by lia. done. Qed.

Lemma out_loc_into (l : OutputLocation) : into_disk l = Ok (as_bytes (transaction_loc l) ++ output_index_bytes (output_index l)).
Proof.
  unfold into_disk at 1, OutputLocation_into_disk. rewrite disk_total, Ok_bind, output_index_into, Ok_bind.
  apply array_Ok. unfold output_index_bytes. rewrite length_app, length_tx_loc_bytes, length_be_bytes. done.
Qed.
(** Larger indexes are stored as the greatest one. *)
Lemma output_index_saturates tl i : 0 ≤ i < 2 ^ 32 → as_bytes (mkOutLoc tl i) = as_bytes (mkOutLoc tl (Z.min i MAX_ON_DISK_OUTPUT_INDEX)).
Proof.
  intros Hi. unfold as_bytes. rewrite !out_loc_into. cbn [ok_value transaction_loc output_index]. f_equal. change MAX_ON_DISK_OUTPUT_INDEX with (2 ^ 24 - 1).
  destruct (Z.le_gt_cases i (2 ^ 24 - 1)) as [Hle|Hgt]; [by rewrite Z.min_l|]. rewrite Z.min_r by lia. unfold output_index_bytes.
  assert (1 ≤ i / 2 ^ 24 < 256) as [H1 H2] by (split; [apply Z.div_le_lower_bound; lia|apply Z.div_lt_upper_bound; lia]).
  rewrite (Z.mod_small (i / 2 ^ 24)) by lia. rewrite (proj2 (Z.eqb_neq _ _)) by lia. done.
Qed.
Lemma length_out_loc_bytes (l : OutputLocation) : length (as_bytes l) = 8%nat.
Proof. rewrite (as_bytes_Ok l _ (out_loc_into l)), length_app, length_tx_loc_bytes. unfold output_index_bytes. by rewrite length_be_bytes. Qed.

Lemma out_loc_total (k : OutputLocation) : into_disk k = Ok (as_bytes k).
Proof.
  revert k. intros l. by rewrite (as_bytes_Ok l _ (out_loc_into l)), out_loc_into.
Qed.
Lemma out_loc_roundtrip (k : OutputLocation) : out_loc_valid k → from_disk (as_bytes k) = Ok k.
Proof.
  revert k. intros [t i] [Ht Hi]. cbn in Ht. cbn [output_index] in Hi. rewrite (as_bytes_Ok _ _ (out_loc_into _)). cbn [transaction_loc output_index].
  unfold from_disk, OutputLocation_from_disk. rewrite split_at_app, Ok_bind by (apply length_tx_loc_bytes). rewrite (tx_loc_roundtrip t Ht), Ok_bind.
  unfold output_index_from_disk. rewrite output_index_small, expand_three, Ok_bind by done. change MAX_ON_DISK_OUTPUT_INDEX with (2 ^ 24 - 1) in Hi.
  by rewrite Ok_bind, of_be_bytes_zero, of_be_bytes_small by (change (256 ^ Z.of_nat 3) with (2 ^ 24); lia).
Qed.
Lemma out_loc_ordered (j k : OutputLocation) : out_loc_valid j → out_loc_valid k → bytes_cmp (as_bytes j) (as_bytes k) = out_loc_cmp j k.
Proof.
  revert j k. intros [t i] [t' i'] [Ht Hi] [Ht' Hi']. cbn in Ht, Ht'. cbn [output_index] in Hi, Hi'. rewrite !(as_bytes_Ok _ _ (out_loc_into _)). cbn [transaction_loc output_index].
  rewrite bytes_cmp_app by (by rewrite !length_tx_loc_bytes). rewrite (tx_loc_ordered t t' Ht Ht'), !output_index_small by done.
  change MAX_ON_DISK_OUTPUT_INDEX with (2 ^ 24 - 1) in *. rewrite bytes_cmp_be by (change (256 ^ Z.of_nat 3) with (2 ^ 24); lia). done.
Qed.
#[export] Instance OutputLocation_key : DiskKey OutputLocation :=
  {| key_valid := out_loc_valid; key_cmp := out_loc_cmp; disk_total := out_loc_total; disk_roundtrip := out_loc_roundtrip; disk_ordered := out_loc_ordered |}.

Definition unspent_valid (k : AddressUnspentOutput) : Prop := out_loc_valid (unspent_address_location k) ∧ out_loc_valid (unspent_output_location k).
Definition address_tx_valid (k : AddressTransaction) : Prop := out_loc_valid (tx_address_location k) ∧ tx_loc_valid (address_tx_location k).

Lemma unspent_into (k : AddressUnspentOutput) : into_disk k = Ok (as_bytes (unspent_address_location k) ++ as_bytes (unspent_output_location k)).
Proof.
  unfold into_disk at 1, AddressUnspentOutput_into_disk. rewrite !disk_total, !Ok_bind. apply array_Ok. rewrite length_app, !length_out_loc_bytes. done.
Qed.
Lemma unspent_total (k : AddressUnspentOutput) : into_disk k = Ok (as_bytes k).
Proof. by rewrite (as_bytes_Ok k _ (unspent_into k)), unspent_into. Qed.
Lemma unspent_roundtrip (k : AddressUnspentOutput) : unspent_valid k → from_disk (as_bytes k) = Ok k.
Proof.
  destruct k as [a o]. intros [Ha Ho]. rewrite (as_bytes_Ok _ _ (unspent_into _)). unfold from_disk, AddressUnspentOutput_from_disk.
  rewrite split_at_app, Ok_bind by (apply length_out_loc_bytes). cbn [unspent_address_location unspent_output_location] in *. by rewrite (out_loc_roundtrip a Ha), Ok_bind, (out_loc_roundtrip o Ho), Ok_bind.
Qed.
Lemma unspent_ordered (j k : AddressUnspentOutput) : unspent_valid j → unspent_valid k → bytes_cmp (as_bytes j) (as_bytes k) = unspent_cmp j k.
Proof.
  intros [Hj Hj'] [Hk Hk']. rewrite !(as_bytes_Ok _ _ (unspent_into _)), bytes_cmp_app by (by rewrite !length_out_loc_bytes). by rewrite !out_loc_ordered.
Qed.
#[export] Instance AddressUnspentOutput_key : DiskKey AddressUnspentOutput :=
  {| key_valid := unspent_valid; key_cmp := unspent_cmp; disk_total := unspent_total; disk_roundtrip := unspent_roundtrip; disk_ordered := unspent_ordered |}.

Lemma address_tx_into (k : AddressTransaction) : into_disk k = Ok (as_bytes (tx_address_location k) ++ as_bytes (address_tx_location k)).
Proof.
  unfold into_disk at 1, AddressTransaction_into_disk. rewrite !disk_total, !Ok_bind. apply array_Ok. rewrite length_app, length_out_loc_bytes, length_tx_loc_bytes. done.
Qed.
Lemma address_tx_total (k : AddressTransaction) : into_disk k = Ok (as_bytes k).
Proof. by rewrite (as_bytes_Ok k _ (address_tx_into k)), address_tx_into. Qed.
Lemma address_tx_roundtrip (k : AddressTransaction) : address_tx_valid k → from_disk (as_bytes k) = Ok k.
Proof.
  destruct k as [a t]. intros [Ha Ht]. rewrite (as_bytes_Ok _ _ (address_tx_into _)). unfold from_disk, AddressTransaction_from_disk.
  rewrite split_at_app, Ok_bind by (apply length_out_loc_bytes). cbn [tx_address_location address_tx_location] in *. by rewrite (out_loc_roundtrip a Ha), Ok_bind, (tx_loc_roundtrip t Ht), Ok_bind.
Qed.
Lemma address_tx_ordered (j k : AddressTransaction) : address_tx_valid j → address_tx_valid k → bytes_cmp (as_bytes j) (as_bytes k) = address_tx_cmp j k.
Proof.
  intros [Hj Hj'] [Hk Hk']. rewrite !(as_bytes_Ok _ _ (address_tx_into _)), bytes_cmp_app by (by rewrite !length_out_loc_bytes). by rewrite out_loc_ordered, tx_loc_ordered.
Qed.
#[export] Instance AddressTransaction_key : DiskKey AddressTransaction :=
  {| key_valid := address_tx_valid; key_cmp := address_tx_cmp; disk_total := address_tx_total; disk_roundtrip := address_tx_roundtrip; disk_ordered := address_tx_ordered |}.

Definition index_valid (i : SubtreeIndex) : Prop := 0 ≤ subtree_index_value i < 2 ^ 16.
Definition index_cmp (i j : SubtreeIndex) : comparison := subtree_index_value i ?= subtree_index_value j.

Lemma index_total (i : SubtreeIndex) : into_disk i = Ok (as_bytes i).
Proof. done. Qed.
Lemma index_roundtrip (i : SubtreeIndex) : index_valid i → from_disk (as_bytes i) = Ok i.
Proof.
  destruct i as [i]. unfold index_valid. cbn [subtree_index_value]. intros Hi. unfold as_bytes, from_disk, SubtreeIndex_from_disk, into_disk, SubtreeIndex_into_disk. cbn [ok_value subtree_index_value].
  rewrite array_Ok, Ok_bind by (apply length_be_bytes). by rewrite of_be_bytes_small by (cbn; lia).
Qed.
Lemma index_ordered (i j : SubtreeIndex) : index_valid i → index_valid j → bytes_cmp (as_bytes i) (as_bytes j) = index_cmp i j.
Proof. unfold index_valid. intros Hi Hj. apply bytes_cmp_be; cbn; lia. Qed.
#[export] Instance SubtreeIndex_key : DiskKey SubtreeIndex :=
  {| key_valid := index_valid; key_cmp := index_cmp; disk_total := index_total; disk_roundtrip := index_roundtrip; disk_ordered := index_ordered |}.

(** The bytes of stored keys are those of no other key. *)
Lemma as_bytes_inj {K} `{!IntoDisk K, !FromDisk K, !DiskKey K} (j k : K) : key_valid j → key_valid k → as_bytes j = as_bytes k → j = k.
Proof. intros Hj Hk He. pose proof (disk_roundtrip j Hj) as Ej. rewrite He, (disk_roundtrip k Hk) in Ej. by injection Ej. Qed.

(** ** The formats of the values *)

Lemma amount_disk_roundtrip {C} `{CL : ConstraintLaws C} (a : Amount C) : amount_ok a = true → Amount.from_bytes (Amount.to_bytes a) = Ok a.
Proof.
  intros Ha. unfold Amount.from_bytes, Amount.to_bytes. pose proof (amount_ok_bounds a Ha). rewrite i64_le_bytes_roundtrip by (apply fits_I64_small; lia).
  rewrite try_from_i64_spec. unfold amount_ok in Ha. rewrite Ha. by destruct a.
Qed.

Definition balance_valid {C} `{!Constraint C} (b : AddressBalanceLocationInner C) : Prop :=
  amount_ok (address_balance_amount b) = true ∧ 0 ≤ address_received b < 2 ^ 64 ∧ out_loc_valid (address_location b).

Lemma address_balance_into {C} (b : AddressBalanceLocationInner C) :
  into_disk b = Ok (Amount.to_bytes (address_balance_amount b) ++ as_bytes (address_location b) ++ le_bytes 8 (address_received b)).
Proof.
  unfold into_disk at 1, AddressBalance_into_disk. rewrite out_loc_total, Ok_bind. apply array_Ok. unfold Amount.to_bytes.
  rewrite !length_app, !length_le_bytes, length_out_loc_bytes. done.
Qed.

(** An address balance, as it was written before and after the received balance was added. *)
Lemma address_balance_from {C} `{CL : ConstraintLaws C} (b : AddressBalanceLocationInner C) rest :
  amount_ok (address_balance_amount b) = true → out_loc_valid (address_location b) →
  from_disk (Amount.to_bytes (address_balance_amount b) ++ as_bytes (address_location b) ++ rest) =
  Ok (mkAddressBalance (address_balance_amount b) (if (8 <=? length rest)%nat then of_le_bytes (take 8 rest) else 0) (address_location b)).
Proof.
  intros Ha Hl. unfold from_disk, AddressBalance_from_disk. rewrite split_at_app, Ok_bind by (apply length_le_bytes).
  rewrite split_at_app, Ok_bind by (apply length_out_loc_bytes). cbn zeta.
  rewrite array_Ok, Ok_bind by (apply length_le_bytes). rewrite amount_disk_roundtrip by done. cbn [expect_ok]. rewrite Ok_bind, (out_loc_roundtrip _ Hl), Ok_bind.
  destruct (Nat.leb_spec 8 (length rest)); [|done]. by rewrite length_take, Nat.min_l.
Qed.

(** C29: the formats of the database. Every height is written as three bytes, those above 2^24 as the greatest one; the keys of the address indexes
    are read back as they were written and are in the order of the bytes; an address balance is read back as it was written, and one
    that was written without a received balance has received 0; the information of a block is read back. *)
Theorem disk_formats_exact :
  (∀ h : Height, 0 ≤ h < 2 ^ 32 → into_disk h = Ok (be_bytes 3 (Z.min h MAX_ON_DISK_HEIGHT))) ∧
  (∀ j k : AddressUnspentOutput, unspent_valid j → unspent_valid k →
     from_disk (as_bytes j) = Ok j ∧ bytes_cmp (as_bytes j) (as_bytes k) = unspent_cmp j k) ∧
  (∀ j k : AddressTransaction, address_tx_valid j → address_tx_valid k →
     from_disk (as_bytes j) = Ok j ∧ bytes_cmp (as_bytes j) (as_bytes k) = address_tx_cmp j k) ∧
  (∀ b : AddressBalanceLocationInner NonNegative, balance_valid b → from_disk (as_bytes b) = Ok b ∧
     from_disk (take 16 (as_bytes b)) = Ok (mkAddressBalance (address_balance_amount b) 0 (address_location b))) ∧
  (∀ i : BlockInfo, vb_ok (value_pools i) → 0 ≤ size i < 2 ^ 32 → from_disk (as_bytes i) = Ok i).
Proof.
  split_and!.
  - intros h Hh. by rewrite height_total, height_bytes.
  - intros j k Hj Hk. split; [by apply unspent_roundtrip|by apply unspent_ordered].
  - intros j k Hj Hk. split; [by apply address_tx_roundtrip|by apply address_tx_ordered].
  - intros b (Ha & Hr & Hl). rewrite (as_bytes_Ok b _ (address_balance_into b)). split.
    + rewrite address_balance_from by done. rewrite length_le_bytes. cbn [Nat.leb]. rewrite firstn_all2 by (by rewrite length_le_bytes).
      rewrite of_le_bytes_le_bytes, Z.mod_small by (cbn; lia). by destruct b.
    + rewrite assoc_L by apply _. rewrite take_app_length' by (unfold Amount.to_bytes; rewrite length_app, length_le_bytes, length_out_loc_bytes; done).
      rewrite <- (app_nil_r (as_bytes (address_location b))). by rewrite address_balance_from.
  - intros [p s] Hp Hs. cbn [value_pools size] in *. unfold from_disk, BlockInfo_from_disk, as_bytes, into_disk, BlockInfo_into_disk. cbn [ok_value value_pools size].
    assert (Hl : length (ValueBalance.to_bytes p) = 40%nat) by done. rewrite length_app, Hl, length_le_bytes. cbn [Nat.leb Nat.add assert]. rewrite Ok_bind.
    rewrite <- Hl, take_app_length, drop_app_length. destruct (value_pools_bytes p Hp) as (-> & _). cbn [expect_ok]. rewrite Ok_bind.
    rewrite firstn_all2 by (by rewrite length_le_bytes). by rewrite of_le_bytes_le_bytes, Z.mod_small by (cbn; lia).
Qed.
