(* ===== verification/DiskDb.v ===== *)
(** * Column families and their iterators

    [zebra-state/src/service/finalized_state/disk_db.rs]: the reads of a column family by key and by range, and the writes of a batch.
    [zebra-chain/src/primitives/byte_array.rs]: the successor of a key.

    A column family is a finite map from the bytes of its keys to its values, which are kept decoded: [DiskFormat] shows that they can be read back.
    The iterator of RocksDB is the class [RocksDb]. A batch is the database that writing it gives: its operations are applied in order, and
    the code that prepares a batch reads the database before it. *)

From S2P Require Import Prelude Height Transaction Transfers Reversible DiskFormat.

Abbreviation Cf K V := (gmap (list Z) V) (only parsing).

(** ** Iterators *)

Inductive IteratorMode := IterStart | IterEnd | IterFrom (key : list Z) (reverse : bool).

(** [iterator_cf_opt] of the [rocksdb] library, with the lower and the upper bound of its options. *)
Class RocksDb := { iterator_cf_opt : ∀ {V}, gmap (list Z) V → option (list Z) → option (list Z) → IteratorMode → list (list Z * V) }.

Inductive Bound (A : Type) := Included (a : A) | Excluded (a : A) | Unbounded.
Arguments Included {A} a.
Arguments Excluded {A} a.
Arguments Unbounded {A}.

Definition bound_map {A B} (f : A → B) (b : Bound A) : Bound B :=
  match b with Included a => Included (f a) | Excluded a => Excluded (f a) | Unbounded => Unbounded end.

(** [RangeBounds::contains] on byte strings. *)
Definition bytes_ltb (a b : list Z) : bool := match bytes_cmp a b with Lt => true | _ => false end.
Definition bytes_leb (a b : list Z) : bool := match bytes_cmp a b with Gt => false | _ => true end.
Definition after_start (start : Bound (list Z)) (key : list Z) : bool :=
  match start with Included b => bytes_leb b key | Excluded b => bytes_ltb b key | Unbounded => true end.
Definition before_end (end_ : Bound (list Z)) (key : list Z) : bool :=
  match end_ with Included b => bytes_leb key b | Excluded b => bytes_ltb key b | Unbounded => true end.
Definition range_contains (range : Bound (list Z) * Bound (list Z)) (key : list Z) : bool := after_start range.1 key && before_end range.2 key.

(** [increment_big_endian]: the bytes from the last one; the carry stops at the first byte that does not wrap around. *)
Fixpoint increment_rev (bytes : list Z) : list Z * bool :=
  match bytes with
  | [] => ([], true)
  | v :: bytes =>
      let v := wrap U8 (v + 1) in
      if v =? 0 then let '(bytes, overflow) := increment_rev bytes in (v :: bytes, overflow) else (v :: bytes, false)
  end.
Definition increment_big_endian (byte_array : list Z) : list Z * bool :=
  let '(bytes, is_wrapped_overflow) := increment_rev (reverse byte_array) in (reverse bytes, is_wrapped_overflow).

Definition zs_iter_bounds (range : Bound (list Z) * Bound (list Z)) : option (list Z) * option (list Z) :=
  let lower_bound := match range.1 with Included bound | Excluded bound => Some bound | Unbounded => None end in
  let upper_bound := match range.2 with
                     | Included bound =>
                         let '(bound, is_wrapped_overflow) := increment_big_endian bound in
                         Some (if is_wrapped_overflow : bool then 1 :: bound else bound)
                     | Excluded bound => Some bound
                     | Unbounded => None
                     end in
  (lower_bound, upper_bound).

Definition zs_iter_mode (range : Bound (list Z) * Bound (list Z)) (reverse : bool) : IteratorMode :=
  match if reverse then range.2 else range.1 with
  | Unbounded => if reverse then IterEnd else IterStart
  | Included bound | Excluded bound => IterFrom bound reverse
  end.

Fixpoint skip_while {A} (f : A → bool) (l : list A) : list A :=
  match l with [] => [] | x :: l' => if f x then skip_while f l' else l end.
Fixpoint take_while {A} (f : A → bool) (l : list A) : list A :=
  match l with [] => [] | x :: l => if f x then x :: take_while f l else [] end.

Section Iter.
Context `{Rocks : !RocksDb} {K V : Type} `{IK : !IntoDisk K, FK : !FromDisk K}.

(** The raw keys and the values of a range. *)
Definition zs_range_iter_with_direction (cf : Cf K V) (range : Bound K * Bound K) (reverse : bool) : list (list Z * V) :=
  let range := (bound_map as_bytes range.1, bound_map as_bytes range.2) in
  let mode := zs_iter_mode range reverse in
  let '(lower_bound, upper_bound) := zs_iter_bounds range in
  take_while (λ kv, range_contains range kv.1)
    (skip_while (λ kv, negb (range_contains range kv.1)) (iterator_cf_opt cf lower_bound upper_bound mode)).

Definition from_entry (kv : list Z * V) : Run (K * V) := key ← from_disk kv.1; Ok (key, kv.2).
(** [Iterator::next], and the items of an iterator. *)
Definition iter_next (items : list (list Z * V)) : Run (option (K * V)) :=
  match items with [] => Ok None | kv :: _ => item ← from_entry kv; Ok (Some item) end.
Fixpoint iter_collect (items : list (list Z * V)) : Run (list (K * V)) :=
  match items with [] => Ok [] | kv :: items => item ← from_entry kv; rest ← iter_collect items; Ok (item :: rest) end.

(** ** Reads *)

Definition zs_is_empty (cf : Cf K V) : bool := match iterator_cf_opt cf None None IterStart with [] => true | _ => false end.
Definition zs_get (cf : Cf K V) (key : K) : option V := cf !! as_bytes key.
Definition zs_contains (cf : Cf K V) (key : K) : bool := bool_decide (is_Some (zs_get cf key)).
Definition zs_forward_range_iter (cf : Cf K V) (range : Bound K * Bound K) : Run (list (K * V)) :=
  iter_collect (zs_range_iter_with_direction cf range false).
Definition zs_first_key_value (cf : Cf K V) : Run (option (K * V)) :=
  iter_next (zs_range_iter_with_direction cf (Unbounded, Unbounded) false).
Definition zs_last_key_value (cf : Cf K V) : Run (option (K * V)) :=
  iter_next (zs_range_iter_with_direction cf (Unbounded, Unbounded) true).
Definition zs_next_key_value_from (cf : Cf K V) (lower_bound : K) : Run (option (K * V)) :=
  iter_next (zs_range_iter_with_direction cf (Included lower_bound, Unbounded) false).
Definition zs_next_key_value_strictly_after (cf : Cf K V) (lower_bound : K) : Run (option (K * V)) :=
  iter_next (zs_range_iter_with_direction cf (Excluded lower_bound, Unbounded) false).
Definition zs_prev_key_value_back_from (cf : Cf K V) (upper_bound : K) : Run (option (K * V)) :=
  iter_next (zs_range_iter_with_direction cf (Unbounded, Included upper_bound) true).
Definition zs_prev_key_value_strictly_before (cf : Cf K V) (upper_bound : K) : Run (option (K * V)) :=
  iter_next (zs_range_iter_with_direction cf (Unbounded, Excluded upper_bound) true).

(** ** Writes *)

Definition zs_insert (cf : Cf K V) (key : K) (value : V) : Cf K V := <[as_bytes key := value]> cf.
Definition zs_delete (cf : Cf K V) (key : K) : Cf K V := delete (as_bytes key) cf.
(** [delete_range_cf]: from the first key to before the second one. *)
Definition zs_delete_range (cf : Cf K V) (from until_strictly_before : K) : Cf K V :=
  filter (λ kv, negb (bytes_leb (as_bytes from) kv.1 && bytes_ltb kv.1 (as_bytes until_strictly_before))) cf.

End Iter.

(** ** What the iterators return *)

Definition kv_le {V} (p q : list Z * V) : Prop := bytes_leb p.1 q.1 = true.
#[export] Instance kv_le_dec {V} : RelDecision (kv_le (V := V)).
Proof. intros p q. unfold kv_le. apply _. Defined.

(** The entries of a column family, in the order of their keys. *)
Definition entries {V} (cf : gmap (list Z) V) : list (list Z * V) := merge_sort kv_le (map_to_list cf).

Definition in_bounds (lower upper : option (list Z)) (key : list Z) : bool :=
  match lower with Some b => bytes_leb b key | None => true end && match upper with Some b => bytes_ltb key b | None => true end.

(** The documented behaviour of the iterators of RocksDB: the keys of the bounds, the upper one excluded, in the order of the keys, from a key on. *)
Definition ordered_iter {V} (cf : gmap (list Z) V) (lower upper : option (list Z)) (mode : IteratorMode) : list (list Z * V) :=
  let l := filter (λ kv, in_bounds lower upper kv.1 = true) (entries cf) in
  match mode with
  | IterStart => l
  | IterEnd => reverse l
  | IterFrom key false => filter (λ kv, bytes_leb key kv.1 = true) l
  | IterFrom key true => reverse (filter (λ kv, bytes_leb kv.1 key = true) l)
  end.
Class RocksDbLaws `{!RocksDb} : Prop := {
  rocks_iterator : ∀ V (cf : gmap (list Z) V) lower upper mode, iterator_cf_opt cf lower upper mode = ordered_iter cf lower upper mode;
}.

#[export] Instance kv_le_total {V} : Total (kv_le (V := V)).
Proof.
  intros p q. unfold kv_le, bytes_leb. rewrite (bytes_cmp_antisym p.1 q.1). destruct (bytes_cmp p.1 q.1); [by left|by left|by right].
Qed.
#[export] Instance kv_le_trans {V} : Transitive (kv_le (V := V)).
Proof.
  intros p q r. unfold kv_le, bytes_leb. pose proof (bytes_cmp_le_trans p.1 q.1 r.1).
  destruct (bytes_cmp p.1 q.1), (bytes_cmp q.1 r.1), (bytes_cmp p.1 r.1); try done; by destruct H.
Qed.

Lemma entries_sorted {V} (cf : gmap (list Z) V) : StronglySorted kv_le (entries cf).
Proof. apply StronglySorted_merge_sort; apply _. Qed.
Lemma entries_elem {V} (cf : gmap (list Z) V) k v : (k, v) ∈ entries cf ↔ cf !! k = Some v.
Proof. unfold entries. by rewrite merge_sort_Permutation, elem_of_map_to_list. Qed.
Lemma entries_NoDup {V} (cf : gmap (list Z) V) : NoDup (entries cf).*1.
Proof. unfold entries. rewrite merge_sort_Permutation. apply NoDup_fst_map_to_list. Qed.

(** On a sorted list, skipping to a range and taking it gives the entries of the range. *)
Lemma take_skip_filter {A} (R : A → A → Prop) (f : A → bool) (l : list A) : StronglySorted R l →
  (∀ x y z, R x y → R y z → f x = true → f z = true → f y = true) → take_while f (skip_while (λ x, negb (f x)) l) = filter (λ x, f x = true) l.
Proof.
  intros Hs Hc. induction Hs as [|x l Hs IH Hx]; [done|]. cbn [skip_while]. rewrite filter_cons. destruct (f x) eqn:Hf; cbn [negb].
  - rewrite decide_True by done. cbn [take_while]. rewrite Hf. f_equal. clear IH. induction Hs as [|y l Hs IH Hy]; [done|]. cbn [take_while]. rewrite filter_cons.
    apply Forall_cons in Hx as [Hxy Hx]. destruct (f y) eqn:Hfy; [rewrite decide_True by done; f_equal; by apply IH|]. rewrite decide_False by done.
    symmetry. apply filter_none. intros z Hz Hfz. rewrite Forall_forall in Hy. rewrite (Hc x y z) in Hfy; [done|done|by apply Hy|done|done].
  - rewrite decide_False by done. apply IH.
Qed.

Lemma StronglySorted_reverse {A} (R : A → A → Prop) l : StronglySorted R l → StronglySorted (flip R) (reverse l).
Proof.
  induction 1 as [|x l _ IH Hx]; [constructor|]. rewrite reverse_cons. apply StronglySorted_app. split; [|split; [done|by repeat constructor]].
  intros y z Hy ->%list_elem_of_singleton. rewrite Forall_forall in Hx. apply Hx. by rewrite <- elem_of_reverse.
Qed.

(** [increment_big_endian] adds one to the last byte that is not 255, and clears the bytes after it. *)
Lemma increment_rev_spec l : bytes_ok l →
  (Forall (λ v, v = 255) l ∧ increment_rev l = (replicate (length l) 0, true)) ∨
  ∃ a v c, l = a ++ v :: c ∧ 0 ≤ v < 255 ∧ increment_rev l = (replicate (length a) 0 ++ (v + 1) :: c, false).
Proof.
  induction 1 as [|v l Hv Hl IH]; [by left|]. unfold is_byte in Hv. cbn [increment_rev]. destruct (decide (v = 255)) as [->|Hne].
  - change (wrap U8 (255 + 1)) with 0. cbn [Z.eqb]. destruct IH as [[H1 ->]|(a & w & c & -> & Hw & ->)].
    + left. split; [by constructor|done].
    + right. by exists (255 :: a), w, c.
  - right. exists [], v, l. rewrite wrap_fits by int_lia. destruct (Z.eqb_spec (v + 1) 0); [lia|]. split_and!; [done|lia|lia|done].
Qed.

Lemma increment_spec b : bytes_ok b →
  (Forall (λ v, v = 255) b ∧ increment_big_endian b = (replicate (length b) 0, true)) ∨
  ∃ b', increment_big_endian b = (b', false) ∧ bytes_cmp b b' = Lt.
Proof.
  intros Hb. unfold increment_big_endian. destruct (increment_rev_spec (reverse b)) as [[H1 H2]|(a & v & c & Ha & Hv & H2)].
  - unfold bytes_ok in *. by rewrite Forall_reverse.
  - left. rewrite H2, reverse_replicate, length_reverse. by rewrite Forall_reverse in H1.
  - right. rewrite H2. eexists. split; [done|]. rewrite <- (reverse_involutive b), Ha, !reverse_app, !reverse_cons, <- !(assoc_L (++)).
    rewrite bytes_cmp_app, (proj2 (bytes_cmp_Eq _ _) eq_refl) by done. cbn. by rewrite (proj2 (Z.compare_lt_iff v (v + 1))) by lia.
Qed.

Lemma bytes_leb_spec a b : bytes_leb a b = true ↔ bytes_cmp a b ≠ Gt.
Proof. unfold bytes_leb. by destruct (bytes_cmp a b). Qed.
Lemma bytes_ltb_spec a b : bytes_ltb a b = true ↔ bytes_cmp a b = Lt.
Proof. unfold bytes_ltb. by destruct (bytes_cmp a b). Qed.
Lemma bytes_leb_trans a b c : bytes_leb a b = true → bytes_leb b c = true → bytes_leb a c = true.
Proof. rewrite !bytes_leb_spec. apply bytes_cmp_le_trans. Qed.
Lemma bytes_ltb_leb a b : bytes_ltb a b = negb (bytes_leb b a).
Proof. unfold bytes_ltb, bytes_leb. rewrite (bytes_cmp_antisym a b). by destruct (bytes_cmp a b). Qed.
Lemma bytes_leb_total a b : bytes_leb a b = false → bytes_leb b a = true.
Proof. unfold bytes_leb. rewrite (bytes_cmp_antisym a b). by destruct (bytes_cmp a b). Qed.
Lemma bytes_ltb_le a b : bytes_ltb a b = true → bytes_leb a b = true.
Proof. unfold bytes_ltb, bytes_leb. by destruct (bytes_cmp a b). Qed.
Lemma bytes_le_lt a b c : bytes_leb a b = true → bytes_ltb b c = true → bytes_ltb a c = true.
Proof.
  rewrite !bytes_ltb_leb, !negb_true_iff. intros H1 H2. destruct (bytes_leb c a) eqn:H3; [|done]. by rewrite (bytes_leb_trans c a b) in H2.
Qed.
Lemma bytes_lt_le a b c : bytes_ltb a b = true → bytes_leb b c = true → bytes_ltb a c = true.
Proof.
  rewrite !bytes_ltb_leb, !negb_true_iff. intros H1 H2. destruct (bytes_leb c a) eqn:H3; [|done]. by rewrite (bytes_leb_trans b c a) in H1.
Qed.

(** The keys of a range are those between two of its keys. *)
Lemma range_convex range x y z : bytes_leb x y = true → bytes_leb y z = true → range_contains range x = true → range_contains range z = true → range_contains range y = true.
Proof.
  unfold range_contains. rewrite !andb_true_iff. intros Hxy Hyz [Hx _] [_ Hz]. split.
  - destruct range.1 as [b|b|]; cbn in *; eauto using bytes_leb_trans, bytes_lt_le.
  - destruct range.2 as [b|b|]; cbn in *; eauto using bytes_leb_trans, bytes_le_lt.
Qed.

(** The successor of an inclusive end is an end only if the key has a byte other than 255. *)
Definition end_ok (end_ : Bound (list Z)) : Prop :=
  match end_ with Included b => bytes_ok b ∧ ¬ Forall (λ v, v = 255) b | _ => True end.

Lemma contains_in_bounds range k : end_ok range.2 → range_contains range k = true → let b := zs_iter_bounds range in in_bounds b.1 b.2 k = true.
Proof.
  unfold range_contains, zs_iter_bounds, in_bounds. rewrite !andb_true_iff. intros He [Hs Hk]. cbn [fst snd]. split.
  - destruct range.1 as [b|b|]; cbn in *; eauto using bytes_ltb_le.
  - destruct range.2 as [b|b|]; cbn in *; [|done|done]. destruct He as [Hb Hn]. destruct (increment_spec b Hb) as [[? _]|(b' & -> & Hlt)]; [done|].
    eapply bytes_le_lt; [done|by apply bytes_ltb_spec].
Qed.

Lemma ordered_iter_mode {V} (cf : gmap (list Z) V) lower upper range rev : ∃ Q : list Z → bool,
  ordered_iter cf lower upper (zs_iter_mode range rev) = (if rev then reverse else id) (filter (λ kv, Q kv.1 = true) (entries cf)) ∧
  ∀ k, range_contains range k = true → in_bounds lower upper k = true → Q k = true.
Proof.
  unfold zs_iter_mode, range_contains.
  assert (∀ (P R : list Z → bool) (l : list (list Z * V)), filter (λ kv, P kv.1 = true) (filter (λ kv, R kv.1 = true) l) = filter (λ kv, R kv.1 && P kv.1 = true) l) as Hff.
  { intros P R l. rewrite list_filter_filter. apply list_filter_iff. intros kv. rewrite andb_true_iff. tauto. }
  destruct rev; [destruct range.2 as [b|b|]|destruct range.1 as [b|b|]]; unfold ordered_iter; cbn zeta iota.
  3,6: exists (in_bounds lower upper); split; [done|by intros].
  1,2: exists (λ k, in_bounds lower upper k && bytes_leb k b).
  3,4: exists (λ k, in_bounds lower upper k && bytes_leb b k).
  1,2: rewrite (Hff (λ k, bytes_leb k b) (in_bounds lower upper)).
  3,4: rewrite (Hff (λ k, bytes_leb b k) (in_bounds lower upper)).
  all: split; [done|]; intros k; rewrite !andb_true_iff; cbn [after_start before_end]; intros [H1 H2] H3; split; eauto using bytes_ltb_le.
Qed.

Section IterExact.
Context `{Rocks : !RocksDb, Laws : !RocksDbLaws} {K V : Type} `{IK : !IntoDisk K, FK : !FromDisk K}.
Implicit Types cf : Cf K V.

Lemma range_iter_exact cf (range : Bound K * Bound K) rev (r := (bound_map as_bytes range.1, bound_map as_bytes range.2)) : end_ok r.2 →
  zs_range_iter_with_direction cf range rev = (if rev then reverse else id) (filter (λ kv, range_contains r kv.1 = true) (entries cf)).
Proof.
  intros He. unfold zs_range_iter_with_direction. cbn zeta. fold r. pose proof (contains_in_bounds r) as Hb. destruct (zs_iter_bounds r) as [lower upper].
  cbn zeta in Hb. cbn [fst snd] in Hb. rewrite rocks_iterator. destruct (ordered_iter_mode cf lower upper r rev) as (Q & -> & HQ).
  assert (Hf : filter (λ kv : list Z * V, range_contains r kv.1 = true) (filter (λ kv, Q kv.1 = true) (entries cf)) = filter (λ kv, range_contains r kv.1 = true) (entries cf)).
  { rewrite list_filter_filter. apply list_filter_iff. intros kv. split; [tauto|]. intros H. split; [done|]. by apply HQ, Hb. }
  pose proof (StronglySorted_filter kv_le (λ kv, Q kv.1 = true) _ (entries_sorted cf)) as Hs. destruct rev.
  - rewrite (take_skip_filter (flip kv_le)); [by rewrite filter_reverse, Hf|by apply StronglySorted_reverse|].
    intros x y z Hxy Hyz Hx Hz. exact (range_convex r z.1 y.1 x.1 Hyz Hxy Hz Hx).
  - unfold id. rewrite (take_skip_filter kv_le); [done|done|]. intros x y z. apply range_convex.
Qed.

(** *** Stored keys *)

Context `{DK : !DiskKey K}.

(** The keys of a column family are keys that are read back. *)
Definition cf_valid cf : Prop := ∀ b v, cf !! b = Some v → ∃ k, key_valid k ∧ b = as_bytes k.

(** The decoded entries of a range. *)
Definition in_range (range : Bound K * Bound K) (k : K) : Prop :=
  match range.1 with Included a => key_cmp a k ≠ Gt | Excluded a => key_cmp a k = Lt | Unbounded => True end ∧
  match range.2 with Included b => key_cmp k b ≠ Gt | Excluded b => key_cmp k b = Lt | Unbounded => True end.

Definition bound_valid (b : Bound K) : Prop := match b with Included k | Excluded k => key_valid k | Unbounded => True end.

Lemma contains_in_range range k : bound_valid range.1 → bound_valid range.2 → key_valid k →
  range_contains (bound_map as_bytes range.1, bound_map as_bytes range.2) (as_bytes k) = true ↔ in_range range k.
Proof.
  intros H1 H2 Hk. unfold range_contains, in_range. rewrite andb_true_iff. cbn [fst snd].
  destruct range.1, range.2; cbn in *; rewrite ?bytes_leb_spec, ?bytes_ltb_spec, ?disk_ordered by done; tauto.
Qed.

Definition raw_entry (kv : K * V) : list Z * V := (as_bytes kv.1, kv.2).

Lemma decode_entries cf (raw : list (list Z * V)) : cf_valid cf → (∀ kv, kv ∈ raw → cf !! kv.1 = Some kv.2) →
  ∃ l : list (K * V), raw = raw_entry <$> l ∧ Forall (λ kv, key_valid kv.1) l ∧ iter_next raw = Ok (head l) ∧ iter_collect raw = Ok l.
Proof.
  intros Hv. induction raw as [|[b v] raw IH]; intros Hin; [by exists []|]. destruct IH as (l & -> & Hl & Hn & Hc); [intros kv Hkv; apply Hin; by right|].
  destruct (Hv b v) as (k & Hk & ->); [apply (Hin (b, v)); by left|]. exists ((k, v) :: l). cbn [iter_next iter_collect]. rewrite Hc.
  unfold from_entry. cbn [fst snd]. rewrite (disk_roundtrip k Hk), !Ok_bind. by repeat constructor.
Qed.

(** Two entries in the order of a direction. *)
Definition entry_lt (rev : bool) (p q : K * V) : Prop := (if rev then key_cmp q.1 p.1 else key_cmp p.1 q.1) = Lt.

Lemma sorted_strict (l : list (list Z * V)) : StronglySorted kv_le l → NoDup l.*1 → StronglySorted (λ p q, bytes_cmp p.1 q.1 = Lt) l.
Proof.
  induction 1 as [|p l _ IH Hp]; [constructor|]. intros [Hn Hd]%NoDup_cons. constructor; [by apply IH|]. rewrite Forall_forall in *. intros q Hq.
  specialize (Hp q Hq). unfold kv_le in Hp. rewrite bytes_leb_spec in Hp. destruct (bytes_cmp p.1 q.1) eqn:E; [|done|done]. apply bytes_cmp_Eq in E.
  destruct Hn. rewrite E. by apply list_elem_of_fmap_2.
Qed.

Lemma sorted_fmap {A B} (R : A → A → Prop) (S : B → B → Prop) (f : A → B) l : (∀ x y, x ∈ l → y ∈ l → S (f x) (f y) → R x y) →
  StronglySorted S (f <$> l) → StronglySorted R l.
Proof.
  induction l as [|x l IH]; intros HR; [constructor|]. rewrite fmap_cons. intros [Hs Hx]%StronglySorted_inv. constructor.
  - apply IH; [intros y z Hy Hz; apply HR; by right|done].
  - rewrite Forall_fmap, Forall_forall in Hx. apply Forall_forall. intros y Hy. apply HR; [by left|by right|by apply Hx].
Qed.

(** The items of a range: the stored entries with a key of the range, in order. *)
Lemma range_items cf range rev : cf_valid cf → bound_valid range.1 → bound_valid range.2 → end_ok (bound_map as_bytes range.2) →
  let raw := zs_range_iter_with_direction cf range rev in
  ∃ l : list (K * V), iter_next raw = Ok (head l) ∧ iter_collect raw = Ok l ∧ StronglySorted (entry_lt rev) l ∧
    ∀ k v, (k, v) ∈ l ↔ key_valid k ∧ zs_get cf k = Some v ∧ in_range range k.
Proof.
  intros Hv H1 H2 He raw. pose proof (range_iter_exact cf range rev He) as Hraw. fold raw in Hraw. clearbody raw.
  set (r := (bound_map as_bytes range.1, bound_map as_bytes range.2)) in *. set (f := filter (λ kv, range_contains r kv.1 = true) (entries cf)) in *.
  assert (Hin : ∀ b v, (b, v) ∈ raw ↔ range_contains r b = true ∧ cf !! b = Some v).
  { intros b v. assert ((b, v) ∈ raw ↔ (b, v) ∈ f) as ->. { rewrite Hraw. destruct rev; [apply elem_of_reverse|done]. }
    unfold f. by rewrite list_elem_of_filter, entries_elem. }
  destruct (decode_entries cf raw) as (l & Hl & Hk & Hn & Hc); [done|intros [b v] Hb; by apply Hin|]. exists l. split_and!; [done|done| |].
  - apply (sorted_fmap _ (λ p q, (if rev then bytes_cmp q.1 p.1 else bytes_cmp p.1 q.1) = Lt) raw_entry).
    + rewrite Forall_forall in Hk. intros p q Hp Hq. unfold entry_lt, raw_entry. cbn [fst]. rewrite !disk_ordered by auto. done.
    + rewrite <- Hl, Hraw. assert (Hs : StronglySorted (λ p q, bytes_cmp p.1 q.1 = Lt) f).
      { apply StronglySorted_filter, sorted_strict; [apply entries_sorted|apply entries_NoDup]. }
      destruct rev; [by apply (StronglySorted_reverse _ _ Hs)|done].
  - intros k v. split.
    + intros Hkv. assert (Hkk : key_valid k) by (rewrite Forall_forall in Hk; by apply (Hk (k, v))).
      assert ((as_bytes k, v) ∈ raw) as [Hr Hg]%Hin by (rewrite Hl; by apply (list_elem_of_fmap_2 raw_entry l (k, v))).
      split_and!; [done|done|]. by apply contains_in_range.
    + intros (Hkk & Hg & Hr). assert ((as_bytes k, v) ∈ raw) as Hi by (apply Hin; split; [by apply contains_in_range|done]).
      rewrite Hl in Hi. apply list_elem_of_fmap in Hi as ([k' v'] & [= Hb ->] & Hi). rewrite Forall_forall in Hk. specialize (Hk _ Hi).
      by rewrite (as_bytes_inj k k' Hkk Hk Hb).
Qed.

(** The next item of a range: the stored entry that comes before the others of the range. *)
Lemma range_next cf range rev : cf_valid cf → bound_valid range.1 → bound_valid range.2 → end_ok (bound_map as_bytes range.2) →
  ∃ o, iter_next (zs_range_iter_with_direction cf range rev) = Ok o ∧
    match o with
    | None => ∀ k v, key_valid k → zs_get cf k = Some v → ¬ in_range range k
    | Some (k, v) => key_valid k ∧ zs_get cf k = Some v ∧ in_range range k ∧
        ∀ k' v', key_valid k' → zs_get cf k' = Some v' → in_range range k' → k' = k ∨ (if rev then key_cmp k' k else key_cmp k k') = Lt
    end.
Proof.
  intros Hv H1 H2 He. destruct (range_items cf range rev Hv H1 H2 He) as (l & Hn & _ & Hs & Hin). exists (head l). split; [done|].
  destruct l as [|[k v] l]; cbn [head].
  - intros k v Hk Hg Hr. assert ((k, v) ∈ []) as Hx by by apply Hin. by apply elem_of_nil in Hx.
  - destruct (proj1 (Hin k v)) as (Hk & Hg & Hr); [by left|]. split_and!; [done..|]. intros k' v' Hk' Hg' Hr'.
    assert ((k', v') ∈ (k, v) :: l) as Hx by by apply Hin. apply elem_of_cons in Hx as [[= -> ->]|Hx]; [by left|]. right.
    apply StronglySorted_inv in Hs as [_ Hs]. rewrite Forall_forall in Hs. exact (Hs _ Hx).
Qed.

Lemma is_empty_spec cf : zs_is_empty cf = true ↔ cf = ∅.
Proof.
  unfold zs_is_empty. rewrite rocks_iterator. cbn. rewrite filter_all by (intros; done). split.
  - destruct (entries cf) as [|kv l] eqn:E; [|done]. intros _. apply map_eq. intros b. rewrite lookup_empty. destruct (cf !! b) as [v|] eqn:Hb; [|done].
    apply entries_elem in Hb. rewrite E in Hb. by apply elem_of_nil in Hb.
  - intros ->. destruct (entries (∅ : gmap (list Z) V)) as [|[b v] l] eqn:E; [done|]. assert ((b, v) ∈ entries (∅ : gmap (list Z) V)) as Hb by (rewrite E; by left).
    apply entries_elem in Hb. by rewrite lookup_empty in Hb.
Qed.

(** *** Writes *)

Lemma cf_valid_empty : cf_valid (∅ : gmap (list Z) V).
Proof. intros b v Hb. assert ((∅ : gmap (list Z) V) !! b = Some v) as Hb' by exact Hb. by rewrite lookup_empty in Hb'. Qed.
Lemma cf_valid_insert cf k v : key_valid k → cf_valid cf → cf_valid (zs_insert cf k v).
Proof. intros Hk Hv b w. unfold zs_insert. intros [[<- <-]|[_ Hb]]%lookup_insert_Some; [by exists k|by apply (Hv b w)]. Qed.
Lemma cf_valid_delete cf k : cf_valid cf → cf_valid (zs_delete cf k).
Proof. intros Hv b w. unfold zs_delete. intros [_ Hb]%lookup_delete_Some. by apply (Hv b w). Qed.

Lemma get_insert_eq cf k v : zs_get (zs_insert cf k v) k = Some v.
Proof. apply lookup_insert_eq. Qed.
Lemma get_insert_ne cf k k' v : key_valid k → key_valid k' → k ≠ k' → zs_get (zs_insert cf k v) k' = zs_get cf k'.
Proof. intros Hk Hk' Hne. apply lookup_insert_ne. intros He. by apply Hne, as_bytes_inj. Qed.
Lemma get_delete_eq cf k : zs_get (zs_delete cf k) k = None.
Proof. apply lookup_delete_eq. Qed.
Lemma get_delete_ne cf k k' : key_valid k → key_valid k' → k ≠ k' → zs_get (zs_delete cf k) k' = zs_get cf k'.
Proof. intros Hk Hk' Hne. apply lookup_delete_ne. intros He. by apply Hne, as_bytes_inj. Qed.

Lemma get_insert_Some cf k k' v w : key_valid k → key_valid k' → zs_get (zs_insert cf k v) k' = Some w ↔ (k = k' ∧ v = w) ∨ (k ≠ k' ∧ zs_get cf k' = Some w).
Proof.
  intros Hk Hk'. unfold zs_get, zs_insert. rewrite lookup_insert_Some. split.
  - intros [[He ->]|[Hne ?]]; [left; by split; [apply as_bytes_inj|]|right; split; [congruence|done]].
  - intros [[-> ->]|[Hne ?]]; [by left|right; split; [|done]]. intros He. by apply Hne, as_bytes_inj.
Qed.
Lemma get_insert_is_Some cf k k' v : key_valid k → key_valid k' → is_Some (zs_get (zs_insert cf k v) k') ↔ k = k' ∨ is_Some (zs_get cf k').
Proof.
  intros Hk Hk'. unfold zs_get, zs_insert. rewrite lookup_insert_is_Some'. split; (intros [He|?]; [left|by right]); [by apply as_bytes_inj|by subst].
Qed.
Lemma get_delete_Some cf k k' w : key_valid k → key_valid k' → zs_get (zs_delete cf k) k' = Some w ↔ k ≠ k' ∧ zs_get cf k' = Some w.
Proof.
  intros Hk Hk'. unfold zs_get, zs_delete. rewrite lookup_delete_Some. split; (intros [Hne ?]; split; [|done]); [congruence|]. intros He. by apply Hne, as_bytes_inj.
Qed.
Lemma get_delete_is_Some cf k k' : key_valid k → key_valid k' → is_Some (zs_get (zs_delete cf k) k') ↔ k ≠ k' ∧ is_Some (zs_get cf k').
Proof.
  intros Hk Hk'. split; [intros [w [Hne Hw]%get_delete_Some]; [by split; [|exists w]|done..]|]. intros [Hne [w Hw]]. exists w. by apply get_delete_Some.
Qed.

End IterExact.
Arguments cf_valid K {V IK FK DK} cf.

(** Two lists in strict order with the same elements are equal. *)
Lemma strict_sorted_eq {A} (R : A → A → Prop) l k : (∀ x y, R x y → R y x → False) → StronglySorted R l → StronglySorted R k → (∀ x, x ∈ l ↔ x ∈ k) → l = k.
Proof.
  intros Ha Hl Hk He. assert (Hn : ∀ l, StronglySorted R l → NoDup l).
  { clear -Ha. induction 1 as [|x l _ IH Hx]; constructor; [|done]. intros Hin. rewrite Forall_forall in Hx. specialize (Hx x Hin). by apply (Ha x x). }
  apply (StronglySorted_unique_strong R); [intros x y _ _ H1 H2; by destruct (Ha x y)|done|done|]. apply NoDup_Permutation; auto.
Qed.

(** The ends that start with a height below the greatest one. *)
Lemma be_bytes_ok n z : bytes_ok (be_bytes n z).
Proof. unfold bytes_ok, be_bytes. apply Forall_reverse, le_bytes_ok. Qed.
Lemma height_end_ok (h : Height) rest : 0 ≤ h < MAX_ON_DISK_HEIGHT → bytes_ok rest → end_ok (Included (as_bytes h ++ rest)).
Proof.
  intros Hh Hr. rewrite height_valid_bytes by (split; lia). cbn [end_ok]. split; [apply Forall_app; split; [apply be_bytes_ok|done]|]. intros [H _]%Forall_app.
  assert (Hb : be_bytes 3 h = [255; 255; 255]).
  { pose proof (length_be_bytes 3 h) as Hl. destruct (be_bytes 3 h) as [|x [|y [|z [|]]]]; [done..| |done]. apply Forall_cons in H as [-> H]. apply Forall_cons in H as [-> H]. by apply Forall_cons in H as [-> _]. }
  assert (Hz : h = of_be_bytes [255; 255; 255]).
  { rewrite <- Hb, of_be_bytes_small; [done|]. change (256 ^ Z.of_nat 3) with 16777216. change MAX_ON_DISK_HEIGHT with 16777215 in Hh. lia. }
  change (of_be_bytes [255; 255; 255]) with 16777215 in Hz. change MAX_ON_DISK_HEIGHT with 16777215 in Hh. lia.
Qed.

(** A defect of [zs_iter_bounds]: the successor of a key with all bytes 255 is taken to be the number with one byte more, which is before most of the keys in
    the order of the bytes. The entry of a height over 65536 is in the range up to the greatest height, but it is not found. *)
Theorem inclusive_end_wraps `{!RocksDb, !RocksDbLaws} {V} (h : Height) (v : V) (cf := zs_insert (∅ : Cf Height V) h v) : 65536 < h < MAX_ON_DISK_HEIGHT →
  zs_prev_key_value_back_from cf (MAX_ON_DISK_HEIGHT - 1) = Ok (Some (h, v)) ∧ zs_prev_key_value_back_from cf MAX_ON_DISK_HEIGHT = Ok None.
Proof.
  intros Hh. assert (Hk : ∀ x, 0 ≤ x ≤ MAX_ON_DISK_HEIGHT → key_valid (K := Height) x) by done.
  assert (Hv : cf_valid Height cf) by (apply cf_valid_insert; [apply Hk; lia|apply cf_valid_empty]). split.
  - destruct (range_next cf (Unbounded, Included (MAX_ON_DISK_HEIGHT - 1)) true Hv) as (o & Ho & Hs); [done|apply Hk; vm_compute; split; congruence| |].
    + vm_compute. split; [by repeat constructor|]. intros Hf. inversion Hf as [|??? Hf']. inversion Hf' as [|??? Hf'']. by inversion Hf''.
    + unfold zs_prev_key_value_back_from. rewrite Ho. destruct o as [[k w]|].
      * destruct Hs as (Hkk & Hg & _). unfold zs_get, cf, zs_insert in Hg. apply lookup_insert_Some in Hg as [[Hb ->]|[_ Hg]]; [|by rewrite lookup_empty in Hg].
        rewrite (as_bytes_inj h k); [done|apply Hk; lia|done|done].
      * exfalso. apply (Hs h v); [apply Hk; lia|apply get_insert_eq|]. split; [done|]. cbn. apply Z.compare_le_iff. lia.
  - unfold zs_prev_key_value_back_from, zs_range_iter_with_direction. cbn [bound_map fst snd]. change (as_bytes MAX_ON_DISK_HEIGHT) with [255; 255; 255].
    change (zs_iter_bounds (Unbounded, Included [255; 255; 255])) with (@None (list Z), Some [1; 0; 0; 0]). cbn iota. rewrite rocks_iterator.
    cbn -[entries]. rewrite (filter_none _ (entries cf)); [done|].
    intros [b w] Hin. apply entries_elem in Hin. unfold cf, zs_insert in Hin. apply lookup_insert_Some in Hin as [[<- _]|[_ Hin]]; [|by rewrite lookup_empty in Hin].
    cbn [fst]. rewrite height_valid_bytes by (apply Hk; lia). change MAX_ON_DISK_HEIGHT with (2 ^ 24 - 1) in Hh.
    unfold bytes_ltb. change [1; 0; 0; 0] with (be_bytes 3 65536 ++ [0]). rewrite <- (app_nil_r (be_bytes 3 h)), bytes_cmp_app by done.
    rewrite bytes_cmp_be by (cbn; lia). by rewrite (proj2 (Z.compare_gt_iff h 65536)) by lia.
Qed.
