(* ===== verification/FinalizedDb.v ===== *)
(** * The finalized state

    [zebra-state/src/service/finalized_state.rs] and [finalized_state/zebra_db/], with [FinalizedBlock] of [zebra-state/src/request.rs]: the
    column families of the database, their reads, and the batch that a block writes. With the feature [indexer]; the stop height of
    tests, metrics and the database formats before the current one are left out, but for the reads of the keys that they have left. *)

From S2P Require Import Prelude Height Amount Serialization ValueBalance Network Transaction Merkle TransactionCodec Reversible Transfers TreeIndex Ledger SpendChecks ContextChecks Chain DiskFormat DiskDb.

(** ** Column families *)

(** The empty trees, [Default::default()]. *)
Class EmptyTrees `{!ChainEnv} := {
  sprout_default : SproutTree;
  sapling_default : SaplingTree;
  orchard_default : OrchardTree;
  history_default : HistoryTree;
}.

Record BlockCfs := mkBlockCfs {
  cf_block_header_by_height : Cf Height Header;
  cf_hash_by_height : Cf Height Hash;
  cf_height_by_hash : Cf Hash Height;
  cf_tx_by_loc : Cf TransactionLocation Transaction;
  cf_hash_by_tx_loc : Cf TransactionLocation Hash;
  cf_tx_loc_by_hash : Cf Hash TransactionLocation;
}.

Record TransparentCfs := mkTransparentCfs {
  cf_balance_by_transparent_addr : Cf Address (AddressBalanceLocationInner NonNegative);
  cf_utxo_by_out_loc : Cf OutputLocation Output;
  cf_utxo_loc_by_transparent_addr_loc : Cf AddressUnspentOutput unit;
  cf_tx_loc_by_transparent_addr_loc : Cf AddressTransaction unit;
  cf_tx_loc_by_spent_out_loc : Cf OutputLocation TransactionLocation;
}.

(** ** Balances of addresses *)

Definition saturating_add_u64 (a b : Z) : Z := Z.min (a + b) (2 ^ 64 - 1).

Definition address_balance_new {C} `{!Constraint C} (first_output : OutputLocation) : Run (AddressBalanceLocationInner C) :=
  zero ← Amount.zero; Ok (mkAddressBalance zero 0 first_output).
Definition receive_output {C} `{!Constraint C} (self : AddressBalanceLocationInner C) (unspent_output : Output) : Res Amount.Error (AddressBalanceLocationInner C) :=
  sum ← expect (Prelude.checked_add I64 (zatoshis (address_balance_amount self)) (zatoshis (value unspent_output)));
  balance ← Amount.try_from_i64 sum;
  value ← lift (into_u64 (value unspent_output));
  Ok (mkAddressBalance balance (saturating_add_u64 (address_received self) value) (address_location self)).
Definition spend_output {C} `{!Constraint C} (self : AddressBalanceLocationInner C) (spent_output : Output) : Res Amount.Error (AddressBalanceLocationInner C) :=
  difference ← expect (Prelude.checked_sub I64 (zatoshis (address_balance_amount self)) (zatoshis (value spent_output)));
  balance ← Amount.try_from_i64 difference;
  Ok (mkAddressBalance balance (address_received self) (address_location self)).
Definition address_balance_add {C} `{!Constraint C} (self rhs : AddressBalanceLocationInner C) : Res Amount.Error (AddressBalanceLocationInner C) :=
  balance ← Amount.add (address_balance_amount self) (address_balance_amount rhs);
  Ok (mkAddressBalance balance (saturating_add_u64 (address_received self) (address_received rhs))
        (match out_loc_cmp (address_location self) (address_location rhs) with Gt => address_location rhs | _ => address_location self end)).
(** [zero] is the amount [Amount::zero()]. *)
Definition into_new_change (zero : Amount NegativeAllowed) (self : AddressBalanceLocationInner NonNegative) : AddressBalanceLocationInner NegativeAllowed :=
  mkAddressBalance zero 0 (address_location self).

Inductive AddressBalanceLocationUpdates :=
| MergeBalances (balance_changes : gmap Address (AddressBalanceLocationInner NegativeAllowed))
| InsertBalances (balances : gmap Address (AddressBalanceLocationInner NonNegative)).

(** [fetch_add_balance_and_received], the merge operator of the balances, with one operand. The database runs it when the balance is read; here it
    runs when it is written, with the check of the amount that is read. *)
Definition merge_balance (existing : option (AddressBalanceLocationInner NonNegative)) (change : AddressBalanceLocationInner NegativeAllowed) :
    Run (AddressBalanceLocationInner NonNegative) :=
  sum ← match existing with
        | Some abl =>
            balance ← expect_ok (Amount.constrain NegativeAllowed (address_balance_amount abl));
            expect_ok (address_balance_add (mkAddressBalance balance (address_received abl) (address_location abl)) change)
        | None => Ok change
        end;
  balance ← expect_ok (Amount.constrain NonNegative (address_balance_amount sum));
  Ok (mkAddressBalance balance (address_received sum) (address_location sum)).

(** A [BTreeMap] of output locations: the map that is collected, and its entries in order. *)
Definition loc_le {A} (p q : OutputLocation * A) : Prop := out_loc_cmp p.1 q.1 ≠ Gt.
#[export] Instance loc_le_dec {A} : RelDecision (loc_le (A := A)).
Proof. intros p q. unfold loc_le. destruct (out_loc_cmp p.1 q.1); [by left|by left|by right; intros []]. Defined.
Definition by_out_loc {A} (l : list (OutputLocation * A)) : list (OutputLocation * A) := merge_sort loc_le (map_to_list (list_to_map (M := gmap OutputLocation A) (reverse l))).

Definition GENESIS_PREVIOUS_BLOCK_HASH : Hash := replicate 32 0.

Section FinalizedDb.
Context `{Env : !ChainEnv, SP : !ScriptParser, HF : !HashFns, Rocks : !RocksDb, Empties : !EmptyTrees}.
Context (sapling_root_try_from : list Z → option Hash) (v5_auth_digest : Transaction → Hash).

(** The Sprout trees and the history trees of old formats have a height as key, and the current ones the empty key. *)
Record ShieldedCfs := mkShieldedCfs {
  cf_sprout_nullifiers : Cf Hash TransactionLocation;
  cf_sapling_nullifiers : Cf Hash TransactionLocation;
  cf_orchard_nullifiers : Cf Hash TransactionLocation;
  cf_sprout_anchors : Cf Hash SproutTree;
  cf_sprout_note_commitment_tree : Cf unit SproutTree;
  cf_sapling_anchors : Cf Hash unit;
  cf_sapling_note_commitment_tree : Cf Height SaplingTree;
  cf_sapling_note_commitment_subtree : Cf SubtreeIndex (NoteCommitmentSubtreeData SaplingNode);
  cf_orchard_anchors : Cf Hash unit;
  cf_orchard_note_commitment_tree : Cf Height OrchardTree;
  cf_orchard_note_commitment_subtree : Cf SubtreeIndex (NoteCommitmentSubtreeData OrchardNode);
}.

Record ChainCfs := mkChainCfs {
  cf_history_tree : Cf unit HistoryTree;
  cf_tip_chain_value_pool : Cf unit (ValueBalance NonNegative);
  cf_block_info : Cf Height BlockInfo;
}.

Record FinalizedDb := mkFinalizedDb {
  fin_network : Network;
  finished_format_upgrades : bool;
  fin_blocks : BlockCfs;
  fin_shielded : ShieldedCfs;
  fin_transparent : TransparentCfs;
  fin_chain : ChainCfs;
}.

Definition empty_db (network : Network) (finished : bool) : FinalizedDb :=
  mkFinalizedDb network finished (mkBlockCfs ∅ ∅ ∅ ∅ ∅ ∅) (mkShieldedCfs ∅ ∅ ∅ ∅ ∅ ∅ ∅ ∅ ∅ ∅ ∅) (mkTransparentCfs ∅ ∅ ∅ ∅ ∅) (mkChainCfs ∅ ∅ ∅).

Definition mark_finished_format_upgrades (self : FinalizedDb) : FinalizedDb :=
  mkFinalizedDb (fin_network self) true (fin_blocks self) (fin_shielded self) (fin_transparent self) (fin_chain self).

(** ** Reads of blocks and transactions *)

Definition read_is_empty (self : FinalizedDb) : bool := zs_is_empty (cf_hash_by_height (fin_blocks self)).
Definition read_tip (self : FinalizedDb) : Run (option (Height * Hash)) := zs_last_key_value (K := Height) (cf_hash_by_height (fin_blocks self)).
Definition read_contains_height (self : FinalizedDb) (height : Height) : bool := zs_contains (cf_hash_by_height (fin_blocks self)) height.
Definition read_hash (self : FinalizedDb) (height : Height) : option Hash := zs_get (cf_hash_by_height (fin_blocks self)) height.
Definition read_contains_hash (self : FinalizedDb) (hash : Hash) : bool := zs_contains (cf_height_by_hash (fin_blocks self)) hash.
Definition read_height (self : FinalizedDb) (hash : Hash) : option Height := zs_get (cf_height_by_hash (fin_blocks self)) hash.

Definition height_previous (height : Height) : option Height := match Height.previous height with Ok h => Some h | _ => None end.
Definition read_prev_block_hash_for_hash (self : FinalizedDb) (hash : Hash) : option Hash :=
  height ← read_height self hash; prev_height ← height_previous height; read_hash self prev_height.
Definition read_prev_block_height_for_hash (self : FinalizedDb) (hash : Hash) : option Height :=
  height ← read_height self hash; height_previous height.

Definition read_height_or_else (self : FinalizedDb) (id : HashOrHeight) : option Height :=
  match id with ByHash hash => read_height self hash | ByHeight height => Some height end.
Definition read_block_header (self : FinalizedDb) (id : HashOrHeight) : option Header :=
  height ← read_height_or_else self id; zs_get (cf_block_header_by_height (fin_blocks self)) height.

Definition min_for_height (height : Height) : TransactionLocation := mkTxLoc height 0.
Definition max_for_height (height : Height) : TransactionLocation := mkTxLoc height 65535.
Definition read_transactions_by_height (self : FinalizedDb) (height : Height) : Run (list (TransactionLocation * Transaction)) :=
  zs_forward_range_iter (cf_tx_by_loc (fin_blocks self)) (Included (min_for_height height), Included (max_for_height height)).
Definition read_block (self : FinalizedDb) (id : HashOrHeight) : Run (option Block) :=
  match read_height_or_else self id with
  | None => Ok None
  | Some height =>
      match read_block_header self (ByHeight height) with
      | None => Ok None
      | Some header => transactions ← read_transactions_by_height self height; Ok (Some (mkBlock header transactions.*2))
      end
  end.

(** An empty database has the parent of the genesis block as its tip. *)
Definition read_finalized_tip_hash (self : FinalizedDb) : Run Hash :=
  tip ← read_tip self; Ok (default GENESIS_PREVIOUS_BLOCK_HASH (option_map snd tip)).
Definition read_finalized_tip_height (self : FinalizedDb) : Run (option Height) := tip ← read_tip self; Ok (option_map fst tip).
Definition read_tip_block (self : FinalizedDb) : Run (option Block) :=
  tip ← read_tip self;
  match tip with None => Ok None | Some (height, _) => read_block self (ByHeight height) end.

Definition read_transaction_location (self : FinalizedDb) (hash : Hash) : option TransactionLocation :=
  zs_get (cf_tx_loc_by_hash (fin_blocks self)) hash.
Definition read_transaction_hash (self : FinalizedDb) (location : TransactionLocation) : option Hash :=
  zs_get (cf_hash_by_tx_loc (fin_blocks self)) location.
Definition read_transaction (self : FinalizedDb) (hash : Hash) : option (Transaction * Height * Z) :=
  location ← read_transaction_location self hash;
  let block_time := time <$> read_block_header self (ByHeight (tx_loc_height location)) in
  tx ← zs_get (cf_tx_by_loc (fin_blocks self)) location;
  time ← block_time;
  Some (tx, tx_loc_height location, time).

(** The loop stops at the first index without a hash. *)
Fixpoint read_hashes_from (self : FinalizedDb) (height : Height) (tx_index : Z) (count : nat) : list Hash :=
  match count with
  | O => []
  | S count =>
      match zs_get (cf_hash_by_tx_loc (fin_blocks self)) (mkTxLoc height tx_index) with
      | Some tx_hash => tx_hash :: read_hashes_from self height (tx_index + 1) count
      | None => []
      end
  end.
Definition read_transaction_hashes_for_block (self : FinalizedDb) (id : HashOrHeight) : option (list Hash) :=
  height ← read_height_or_else self id; Some (read_hashes_from self height 0 (S (Z.to_nat (max_allocation Transaction)))).

(** ** Reads of shielded data *)

Definition read_contains_sprout_nullifier (self : FinalizedDb) (nullifier : Hash) : bool := zs_contains (cf_sprout_nullifiers (fin_shielded self)) nullifier.
Definition read_contains_sapling_nullifier (self : FinalizedDb) (nullifier : Hash) : bool := zs_contains (cf_sapling_nullifiers (fin_shielded self)) nullifier.
Definition read_contains_orchard_nullifier (self : FinalizedDb) (nullifier : Hash) : bool := zs_contains (cf_orchard_nullifiers (fin_shielded self)) nullifier.
Definition read_sprout_revealing_tx_loc (self : FinalizedDb) (nullifier : Hash) : option TransactionLocation := zs_get (cf_sprout_nullifiers (fin_shielded self)) nullifier.
Definition read_sapling_revealing_tx_loc (self : FinalizedDb) (nullifier : Hash) : option TransactionLocation := zs_get (cf_sapling_nullifiers (fin_shielded self)) nullifier.
Definition read_orchard_revealing_tx_loc (self : FinalizedDb) (nullifier : Hash) : option TransactionLocation := zs_get (cf_orchard_nullifiers (fin_shielded self)) nullifier.
Definition read_contains_sprout_anchor (self : FinalizedDb) (anchor : Hash) : bool := zs_contains (cf_sprout_anchors (fin_shielded self)) anchor.
Definition read_contains_sapling_anchor (self : FinalizedDb) (anchor : Hash) : bool := zs_contains (cf_sapling_anchors (fin_shielded self)) anchor.
Definition read_contains_orchard_anchor (self : FinalizedDb) (anchor : Hash) : bool := zs_contains (cf_orchard_anchors (fin_shielded self)) anchor.

Definition read_sprout_tree_for_tip (self : FinalizedDb) : Run SproutTree :=
  if read_is_empty self then Ok sprout_default else
  match zs_get (cf_sprout_note_commitment_tree (fin_shielded self)) tt with
  | Some tree => Ok tree
  | None =>
      last ← zs_last_key_value (K := Height) (cf_sprout_note_commitment_tree (fin_shielded self));
      expect (option_map snd last)
  end.
Definition read_sprout_tree_by_anchor (self : FinalizedDb) (anchor : Hash) : option SproutTree := zs_get (cf_sprout_anchors (fin_shielded self)) anchor.

(** Only the trees that differ from the tree before are stored: the tree of a height is the last one up to it. *)
Definition tree_by_height {T} (self : FinalizedDb) (trees : Cf Height T) (height : Height) : Run (option T) :=
  tip_height ← read_finalized_tip_height self;
  match tip_height with
  | None => Ok None
  | Some tip_height =>
      if tip_height <? height then Ok None else
      prev ← zs_prev_key_value_back_from trees height;
      tree ← expect prev;
      Ok (Some tree.2)
  end.
Definition tree_for_tip {T} (self : FinalizedDb) (trees : Cf Height T) (default : T) : Run T :=
  tip_height ← read_finalized_tip_height self;
  match tip_height with
  | None => Ok default
  | Some height => tree ← tree_by_height self trees height; expect tree
  end.
Definition read_sapling_tree_by_height (self : FinalizedDb) : Height → Run (option SaplingTree) :=
  tree_by_height self (cf_sapling_note_commitment_tree (fin_shielded self)).
Definition read_sapling_tree_for_tip (self : FinalizedDb) : Run SaplingTree :=
  tree_for_tip self (cf_sapling_note_commitment_tree (fin_shielded self)) sapling_default.
Definition read_orchard_tree_by_height (self : FinalizedDb) : Height → Run (option OrchardTree) :=
  tree_by_height self (cf_orchard_note_commitment_tree (fin_shielded self)).
Definition read_orchard_tree_for_tip (self : FinalizedDb) : Run OrchardTree :=
  tree_for_tip self (cf_orchard_note_commitment_tree (fin_shielded self)) orchard_default.

Definition subtree_by_index {Node} (subtrees : Cf SubtreeIndex (NoteCommitmentSubtreeData Node)) (index : SubtreeIndex) : option (NoteCommitmentSubtree Node) :=
  (λ data, with_index data (subtree_index_value index)) <$> zs_get subtrees index.
Definition subtree_for_tip {Node} (self : FinalizedDb) (subtrees : Cf SubtreeIndex (NoteCommitmentSubtreeData Node)) : Run (option (NoteCommitmentSubtree Node)) :=
  last ← zs_last_key_value (K := SubtreeIndex) subtrees;
  match last with
  | None => Ok None
  | Some (index, subtree_data) =>
      tip_height ← read_finalized_tip_height self;
      Ok (match tip_height with
          | Some tip_height => if end_height subtree_data =? tip_height then Some (with_index subtree_data (subtree_index_value index)) else None
          | None => None
          end)
  end.
Definition read_sapling_subtree_by_index (self : FinalizedDb) : SubtreeIndex → option (NoteCommitmentSubtree SaplingNode) :=
  subtree_by_index (cf_sapling_note_commitment_subtree (fin_shielded self)).
Definition read_orchard_subtree_by_index (self : FinalizedDb) : SubtreeIndex → option (NoteCommitmentSubtree OrchardNode) :=
  subtree_by_index (cf_orchard_note_commitment_subtree (fin_shielded self)).

Definition read_note_commitment_trees_for_tip (self : FinalizedDb) : Run NoteCommitmentTrees :=
  sprout ← read_sprout_tree_for_tip self;
  sapling ← read_sapling_tree_for_tip self;
  sapling_subtree ← subtree_for_tip self (cf_sapling_note_commitment_subtree (fin_shielded self));
  orchard ← read_orchard_tree_for_tip self;
  orchard_subtree ← subtree_for_tip self (cf_orchard_note_commitment_subtree (fin_shielded self));
  Ok (mkTrees sprout sapling sapling_subtree orchard orchard_subtree).

(** ** Reads of the history tree and the value pools *)

Definition read_history_tree (self : FinalizedDb) : Run HistoryTree :=
  match zs_get (cf_history_tree (fin_chain self)) tt with
  | Some tree => Ok tree
  | None =>
      last ← zs_last_key_value (K := Height) (cf_history_tree (fin_chain self));
      Ok (default history_default (option_map snd last))
  end.
Definition read_finalized_value_pool (self : FinalizedDb) : Run (ValueBalance NonNegative) :=
  match zs_get (cf_tip_chain_value_pool (fin_chain self)) tt with Some pool => Ok pool | None => ValueBalance.zero end.
Definition read_block_info (self : FinalizedDb) (id : HashOrHeight) : option BlockInfo :=
  height ← read_height_or_else self id; zs_get (cf_block_info (fin_chain self)) height.

(** ** Reads of transparent data *)

Definition read_address_balance_location (self : FinalizedDb) (address : Address) : option (AddressBalanceLocationInner NonNegative) :=
  zs_get (cf_balance_by_transparent_addr (fin_transparent self)) address.
Definition read_address_balance (self : FinalizedDb) (address : Address) : option (Amount NonNegative * Z) :=
  (λ abl, (address_balance_amount abl, address_received abl)) <$> read_address_balance_location self address.
Definition read_address_location (self : FinalizedDb) (address : Address) : option AddressLocation :=
  address_location <$> read_address_balance_location self address.
Definition read_output_location (self : FinalizedDb) (outpoint : OutPoint) : option OutputLocation :=
  (λ location, from_outpoint location outpoint) <$> read_transaction_location self (outpoint_hash outpoint).
Definition read_utxo_by_location (self : FinalizedDb) (output_location : OutputLocation) : option OrderedUtxo :=
  output ← zs_get (cf_utxo_by_out_loc (fin_transparent self)) output_location;
  Some (ordered_utxo_new output (tx_loc_height (transaction_loc output_location)) (tx_loc_index (transaction_loc output_location))).
Definition read_utxo (self : FinalizedDb) (outpoint : OutPoint) : option OrderedUtxo :=
  output_location ← read_output_location self outpoint; read_utxo_by_location self output_location.
Definition read_tx_location_by_spent_output_location (self : FinalizedDb) (output_location : OutputLocation) : option TransactionLocation :=
  zs_get (cf_tx_loc_by_spent_out_loc (fin_transparent self)) output_location.
Definition read_spending_tx_loc (self : FinalizedDb) (outpoint : OutPoint) : option TransactionLocation :=
  output_location ← read_output_location self outpoint; read_tx_location_by_spent_output_location self output_location.

(** [AddressUnspentOutput::address_iterator_start] and [address_iterator_next]. *)
Definition address_iterator_start (address_location : AddressLocation) : AddressUnspentOutput := mkUnspent address_location (mkOutLoc (mkTxLoc 0 0) 0).
Definition address_iterator_next (self : AddressUnspentOutput) : AddressUnspentOutput :=
  mkUnspent (unspent_address_location self)
    (mkOutLoc (transaction_loc (unspent_output_location self)) (wrap U32 (output_index (unspent_output_location self) + 1))).

(** The loop of [address_utxo_locations]: [fuel] is more than the number of entries. *)
Fixpoint address_utxo_locations_from (fuel : nat) (self : FinalizedDb) (address_location : AddressLocation) (unspent_output : AddressUnspentOutput) :
    Run (list AddressUnspentOutput) :=
  match fuel with
  | O => Panic
  | S fuel =>
      next ← zs_next_key_value_from (cf_utxo_loc_by_transparent_addr_loc (fin_transparent self)) unspent_output;
      match next with
      | None => Ok []
      | Some (unspent_output, _) =>
          if bool_decide (unspent_address_location unspent_output = address_location) then
            rest ← address_utxo_locations_from fuel self address_location (address_iterator_next unspent_output);
            Ok (unspent_output :: rest)
          else Ok []
      end
  end.
Definition read_address_utxo_locations (self : FinalizedDb) (address_location : AddressLocation) : Run (list AddressUnspentOutput) :=
  address_utxo_locations_from (S (base.size (cf_utxo_loc_by_transparent_addr_loc (fin_transparent self)))) self address_location (address_iterator_start address_location).
Definition read_address_utxos (self : FinalizedDb) (address : Address) : Run (gmap OutputLocation Output) :=
  match read_address_location self address with
  | None => Ok ∅
  | Some address_location =>
      output_locations ← read_address_utxo_locations self address_location;
      Ok (list_to_map (omap (λ addr_out_loc, let location := unspent_output_location addr_out_loc in
                               ordered ← read_utxo_by_location self location; Some (location, output (utxo ordered))) output_locations))
  end.

(** [AddressTransaction::address_iterator_range]. *)
Definition address_iterator_range (address_location : AddressLocation) (query : Height * Height) : Bound AddressTransaction * Bound AddressTransaction :=
  let first_utxo_location := transaction_loc address_location in
  let query_start_location := mkTxLoc query.1 0 in
  let query_end_location := mkTxLoc query.2 65535 in
  let start := match tx_loc_cmp first_utxo_location query_start_location with Gt => first_utxo_location | _ => query_start_location end in
  (Included (mkAddressTx address_location start), Included (mkAddressTx address_location query_end_location)).
Definition read_address_transaction_locations (self : FinalizedDb) (address_location : AddressLocation) (query : Height * Height) : Run (list AddressTransaction) :=
  items ← zs_forward_range_iter (cf_tx_loc_by_transparent_addr_loc (fin_transparent self)) (address_iterator_range address_location query);
  Ok items.*1.
Definition read_address_tx_ids (self : FinalizedDb) (address : Address) (query : Height * Height) : Run (gmap TransactionLocation Hash) :=
  match read_address_location self address with
  | None => Ok ∅
  | Some address_location =>
      if query.2 <? tx_loc_height (transaction_loc address_location) then Ok ∅ else
      locations ← read_address_transaction_locations self address_location query;
      ids ← collect ((λ tx_loc, hash ← expect (read_transaction_hash self (address_tx_location tx_loc)); Ok (address_tx_location tx_loc, hash)) <$> locations);
      Ok (list_to_map ids)
  end.

(** [Spend] of [zebra-state/src/request.rs]. *)
Inductive SpendId := SpendOutPoint (outpoint : OutPoint) | SpendSprout (nullifier : Hash) | SpendSapling (nullifier : Hash) | SpendOrchard (nullifier : Hash).
Definition read_spending_transaction_hash (self : FinalizedDb) (spend : SpendId) : option Hash :=
  tx_loc ← match spend with
           | SpendOutPoint outpoint => read_spending_tx_loc self outpoint
           | SpendSprout nullifier => read_sprout_revealing_tx_loc self nullifier
           | SpendSapling nullifier => read_sapling_revealing_tx_loc self nullifier
           | SpendOrchard nullifier => read_orchard_revealing_tx_loc self nullifier
           end;
  read_transaction_hash self tx_loc.

(** ** Blocks to write *)

Record FinalizedBlock := mkFinalized {
  fb_block : Block;
  fb_hash : Hash;
  fb_height : Height;
  fb_new_outputs : gmap OutPoint OrderedUtxo;
  fb_transaction_hashes : list Hash;
  fb_treestate : Treestate;
  fb_deferred_pool_balance_change : option DeferredPoolBalanceChange;
}.

Definition from_semantically_verified (b : SemanticallyVerifiedBlock) (treestate : Treestate) : FinalizedBlock :=
  mkFinalized (sv_block b) (sv_hash b) (sv_height b) (sv_new_outputs b) (sv_transaction_hashes b) treestate (sv_deferred_pool_balance_change b).
(** [From<ContextuallyVerifiedBlock> for SemanticallyVerifiedBlock]. *)
Definition semantic_from_contextual (valid : ContextuallyVerifiedBlock) : SemanticallyVerifiedBlock :=
  mkSemantic (cv_block valid) (cv_hash valid) (cv_height valid) (cv_new_outputs valid) (cv_transaction_hashes valid)
    (Some (deferred_new (deferred (cv_chain_value_pool_change valid)))).
Definition from_contextually_verified (b : ContextuallyVerifiedBlock) (treestate : Treestate) : FinalizedBlock :=
  from_semantically_verified (semantic_from_contextual b) treestate.

Inductive FinalizableBlock :=
| Checkpoint (checkpoint_verified : SemanticallyVerifiedBlock)
| Contextual (contextually_verified : ContextuallyVerifiedBlock) (treestate : Treestate).

(** ** The batch of a block *)

(** [enumerate]. *)
Definition enumerate {A} (l : list A) : list (Z * A) := imap (λ i x, (Z.of_nat i, x)) l.

Definition prepare_block_header_and_transaction_data_batch (self : BlockCfs) (finalized : FinalizedBlock) : Run BlockCfs :=
  let height := fb_height finalized in
  let self := mkBlockCfs (zs_insert (cf_block_header_by_height self) height (header (fb_block finalized)))
                (zs_insert (cf_hash_by_height self) height (fb_hash finalized))
                (zs_insert (cf_height_by_hash self) (fb_hash finalized) height)
                (cf_tx_by_loc self) (cf_hash_by_tx_loc self) (cf_tx_loc_by_hash self) in
  foldM (λ self '(transaction_index, (transaction, transaction_hash)),
           transaction_location ← tx_loc_from_usize height transaction_index;
           Ok (mkBlockCfs (cf_block_header_by_height self) (cf_hash_by_height self) (cf_height_by_hash self)
                 (zs_insert (cf_tx_by_loc self) transaction_location transaction)
                 (zs_insert (cf_hash_by_tx_loc self) transaction_location transaction_hash)
                 (zs_insert (cf_tx_loc_by_hash self) transaction_hash transaction_location)))
        self (enumerate (zip (transactions (fb_block finalized)) (fb_transaction_hashes finalized))).

Definition insert_nullifiers (cf : Cf Hash TransactionLocation) (nullifiers : list Hash) (location : TransactionLocation) : Cf Hash TransactionLocation :=
  foldl (λ cf nullifier, zs_insert cf nullifier location) cf nullifiers.
Definition with_nullifiers (self : ShieldedCfs) (sprout sapling orchard : Cf Hash TransactionLocation) : ShieldedCfs :=
  mkShieldedCfs sprout sapling orchard (cf_sprout_anchors self) (cf_sprout_note_commitment_tree self)
    (cf_sapling_anchors self) (cf_sapling_note_commitment_tree self) (cf_sapling_note_commitment_subtree self)
    (cf_orchard_anchors self) (cf_orchard_note_commitment_tree self) (cf_orchard_note_commitment_subtree self).
Definition prepare_nullifier_batch (self : ShieldedCfs) (transaction : Transaction) (transaction_location : TransactionLocation) : ShieldedCfs :=
  with_nullifiers self
    (insert_nullifiers (cf_sprout_nullifiers self) (sprout_nullifiers transaction) transaction_location)
    (insert_nullifiers (cf_sapling_nullifiers self) (sapling_nullifiers transaction) transaction_location)
    (insert_nullifiers (cf_orchard_nullifiers self) (orchard_nullifiers transaction) transaction_location).
Definition prepare_shielded_transaction_batch (self : ShieldedCfs) (finalized : FinalizedBlock) : Run ShieldedCfs :=
  foldM (λ self '(tx_index, transaction),
           tx_loc ← tx_loc_from_usize (fb_height finalized) tx_index;
           Ok (prepare_nullifier_batch self transaction tx_loc))
        self (enumerate (transactions (fb_block finalized))).

Definition update_sprout_tree (self : ShieldedCfs) (tree : SproutTree) : ShieldedCfs :=
  mkShieldedCfs (cf_sprout_nullifiers self) (cf_sapling_nullifiers self) (cf_orchard_nullifiers self)
    (zs_insert (cf_sprout_anchors self) (tree_root tree) tree) (zs_insert (cf_sprout_note_commitment_tree self) tt tree)
    (cf_sapling_anchors self) (cf_sapling_note_commitment_tree self) (cf_sapling_note_commitment_subtree self)
    (cf_orchard_anchors self) (cf_orchard_note_commitment_tree self) (cf_orchard_note_commitment_subtree self).
Definition insert_subtree_data {Node} (cf : Cf SubtreeIndex (NoteCommitmentSubtreeData Node)) (subtree : option (NoteCommitmentSubtree Node)) :
    Cf SubtreeIndex (NoteCommitmentSubtreeData Node) :=
  match subtree with Some subtree => zs_insert cf (mkSubtreeIndex (subtree_index subtree)) (into_data subtree) | None => cf end.
(** [create_sapling_tree] and [insert_sapling_subtree]. *)
Definition create_sapling_tree (self : ShieldedCfs) (height : Height) (tree : SaplingTree) (subtree : option (NoteCommitmentSubtree SaplingNode)) : ShieldedCfs :=
  mkShieldedCfs (cf_sprout_nullifiers self) (cf_sapling_nullifiers self) (cf_orchard_nullifiers self) (cf_sprout_anchors self) (cf_sprout_note_commitment_tree self)
    (zs_insert (cf_sapling_anchors self) (tree_root tree) tt) (zs_insert (cf_sapling_note_commitment_tree self) height tree)
    (insert_subtree_data (cf_sapling_note_commitment_subtree self) subtree)
    (cf_orchard_anchors self) (cf_orchard_note_commitment_tree self) (cf_orchard_note_commitment_subtree self).
Definition create_orchard_tree (self : ShieldedCfs) (height : Height) (tree : OrchardTree) (subtree : option (NoteCommitmentSubtree OrchardNode)) : ShieldedCfs :=
  mkShieldedCfs (cf_sprout_nullifiers self) (cf_sapling_nullifiers self) (cf_orchard_nullifiers self) (cf_sprout_anchors self) (cf_sprout_note_commitment_tree self)
    (cf_sapling_anchors self) (cf_sapling_note_commitment_tree self) (cf_sapling_note_commitment_subtree self)
    (zs_insert (cf_orchard_anchors self) (tree_root tree) tt) (zs_insert (cf_orchard_note_commitment_tree self) height tree)
    (insert_subtree_data (cf_orchard_note_commitment_subtree self) subtree).

(** [update_history_tree]: an empty tree is not written. *)
Definition update_history_tree (self : ChainCfs) (tree : HistoryTree) : ChainCfs :=
  match history_hash tree with
  | Some _ => mkChainCfs (zs_insert (cf_history_tree self) tt tree) (cf_tip_chain_value_pool self) (cf_block_info self)
  | None => self
  end.

Definition prepare_trees_batch (shielded : ShieldedCfs) (chain : ChainCfs) (zebra_db : FinalizedDb) (finalized : FinalizedBlock)
    (prev_note_commitment_trees : option NoteCommitmentTrees) : Run (ShieldedCfs * ChainCfs) :=
  let height := fb_height finalized in
  let trees := note_commitment_trees (fb_treestate finalized) in
  prev_sprout_tree ← match prev_note_commitment_trees with Some prev => Ok (trees_sprout prev) | None => read_sprout_tree_for_tip zebra_db end;
  prev_sapling_tree ← match prev_note_commitment_trees with Some prev => Ok (trees_sapling prev) | None => read_sapling_tree_for_tip zebra_db end;
  prev_orchard_tree ← match prev_note_commitment_trees with Some prev => Ok (trees_orchard prev) | None => read_orchard_tree_for_tip zebra_db end;
  let shielded := if is_min height || negb (tree_eqb prev_sprout_tree (trees_sprout trees)) then update_sprout_tree shielded (trees_sprout trees) else shielded in
  let shielded := if is_min height || negb (tree_eqb prev_sapling_tree (trees_sapling trees))
                  then create_sapling_tree shielded height (trees_sapling trees) (sapling_subtree_new trees) else shielded in
  let shielded := if is_min height || negb (tree_eqb prev_orchard_tree (trees_orchard trees))
                  then create_orchard_tree shielded height (trees_orchard trees) (orchard_subtree_new trees) else shielded in
  Ok (shielded, update_history_tree chain (history_tree (fb_treestate finalized))).

(** *** Transparent data *)

Definition update_addr_loc_receive {C} `{!Constraint C} (addr_locs : gmap Address (AddressBalanceLocationInner C)) (receiving_address : Address)
    (new_output_location : OutputLocation) (unspent_output : Output) : Run (gmap Address (AddressBalanceLocationInner C) * AddressLocation) :=
  addr_loc ← match addr_locs !! receiving_address with Some addr_loc => Ok addr_loc | None => address_balance_new new_output_location end;
  addr_loc ← expect_ok (receive_output addr_loc unspent_output);
  Ok (<[receiving_address := addr_loc]> addr_locs, address_location addr_loc).
Definition update_addr_loc_spend {C} `{!Constraint C} (addr_locs : gmap Address (AddressBalanceLocationInner C)) (sending_address : Address)
    (spent_output : Output) : Run (gmap Address (AddressBalanceLocationInner C) * AddressLocation) :=
  addr_loc ← expect (addr_locs !! sending_address);
  addr_loc ← expect_ok (spend_output addr_loc spent_output);
  Ok (<[sending_address := addr_loc]> addr_locs, address_location addr_loc).

Definition balances_receive (address_balances : AddressBalanceLocationUpdates) (address : Address) (location : OutputLocation) (out : Output) :
    Run (AddressBalanceLocationUpdates * AddressLocation) :=
  match address_balances with
  | MergeBalances changes => '(changes, address_location) ← update_addr_loc_receive changes address location out; Ok (MergeBalances changes, address_location)
  | InsertBalances balances => '(balances, address_location) ← update_addr_loc_receive balances address location out; Ok (InsertBalances balances, address_location)
  end.
Definition balances_spend (address_balances : AddressBalanceLocationUpdates) (address : Address) (out : Output) : Run (AddressBalanceLocationUpdates * AddressLocation) :=
  match address_balances with
  | MergeBalances changes => '(changes, address_location) ← update_addr_loc_spend changes address out; Ok (MergeBalances changes, address_location)
  | InsertBalances balances => '(balances, address_location) ← update_addr_loc_spend balances address out; Ok (InsertBalances balances, address_location)
  end.
Definition balances_location (address_balances : AddressBalanceLocationUpdates) (address : Address) : option AddressLocation :=
  match address_balances with
  | MergeBalances changes => address_location <$> changes !! address
  | InsertBalances balances => address_location <$> balances !! address
  end.

Definition prepare_new_transparent_outputs_batch (network : Network) (self : TransparentCfs) (address_balances : AddressBalanceLocationUpdates)
    (new_outputs_by_out_loc : list (OutputLocation * Utxo)) : Run (TransparentCfs * AddressBalanceLocationUpdates) :=
  foldM (λ '(self, address_balances) '(new_output_location, utxo),
      let unspent_output := output utxo in
      '(self, address_balances) ←
        match address unspent_output network with
        | Some receiving_address =>
            '(address_balances, receiving_address_location) ← balances_receive address_balances receiving_address new_output_location unspent_output;
            Ok (mkTransparentCfs (cf_balance_by_transparent_addr self) (cf_utxo_by_out_loc self)
                  (zs_insert (cf_utxo_loc_by_transparent_addr_loc self) (mkUnspent receiving_address_location new_output_location) tt)
                  (zs_insert (cf_tx_loc_by_transparent_addr_loc self) (mkAddressTx receiving_address_location (transaction_loc new_output_location)) tt)
                  (cf_tx_loc_by_spent_out_loc self), address_balances)
        | None => Ok (self, address_balances)
        end;
      Ok (mkTransparentCfs (cf_balance_by_transparent_addr self) (zs_insert (cf_utxo_by_out_loc self) new_output_location unspent_output)
            (cf_utxo_loc_by_transparent_addr_loc self) (cf_tx_loc_by_transparent_addr_loc self) (cf_tx_loc_by_spent_out_loc self), address_balances))
    (self, address_balances) new_outputs_by_out_loc.

Definition prepare_spent_transparent_outputs_batch (network : Network) (self : TransparentCfs) (address_balances : AddressBalanceLocationUpdates)
    (spent_utxos_by_out_loc : list (OutputLocation * Utxo)) : Run (TransparentCfs * AddressBalanceLocationUpdates) :=
  foldM (λ '(self, address_balances) '(spent_output_location, utxo),
      let spent_output := output utxo in
      '(self, address_balances) ←
        match address spent_output network with
        | Some sending_address =>
            '(address_balances, address_location) ← balances_spend address_balances sending_address spent_output;
            Ok (mkTransparentCfs (cf_balance_by_transparent_addr self) (cf_utxo_by_out_loc self)
                  (zs_delete (cf_utxo_loc_by_transparent_addr_loc self) (mkUnspent address_location spent_output_location))
                  (cf_tx_loc_by_transparent_addr_loc self) (cf_tx_loc_by_spent_out_loc self), address_balances)
        | None => Ok (self, address_balances)
        end;
      Ok (mkTransparentCfs (cf_balance_by_transparent_addr self) (zs_delete (cf_utxo_by_out_loc self) spent_output_location)
            (cf_utxo_loc_by_transparent_addr_loc self) (cf_tx_loc_by_transparent_addr_loc self) (cf_tx_loc_by_spent_out_loc self), address_balances))
    (self, address_balances) spent_utxos_by_out_loc.

Definition prepare_spending_transparent_tx_ids_batch (network : Network) (spending_tx_location : TransactionLocation)
    (spent_utxos_by_outpoint : gmap OutPoint Utxo) (out_loc_by_outpoint : gmap OutPoint OutputLocation) (address_balances : AddressBalanceLocationUpdates)
    (self : TransparentCfs) (transaction : Transaction) : Run TransparentCfs :=
  foldM (λ self spent_outpoint,
      spent_utxo ← expect (spent_utxos_by_outpoint !! spent_outpoint);
      self ← match address (output spent_utxo) network with
             | Some sending_address =>
                 sending_address_location ← expect (balances_location address_balances sending_address);
                 Ok (mkTransparentCfs (cf_balance_by_transparent_addr self) (cf_utxo_by_out_loc self) (cf_utxo_loc_by_transparent_addr_loc self)
                       (zs_insert (cf_tx_loc_by_transparent_addr_loc self) (mkAddressTx sending_address_location spending_tx_location) tt)
                       (cf_tx_loc_by_spent_out_loc self))
             | None => Ok self
             end;
      spent_output_location ← expect (out_loc_by_outpoint !! spent_outpoint);
      Ok (mkTransparentCfs (cf_balance_by_transparent_addr self) (cf_utxo_by_out_loc self) (cf_utxo_loc_by_transparent_addr_loc self)
            (cf_tx_loc_by_transparent_addr_loc self) (zs_insert (cf_tx_loc_by_spent_out_loc self) spent_output_location spending_tx_location)))
    self (spent_outpoints transaction).

Definition with_balances (self : TransparentCfs) (balances : Cf Address (AddressBalanceLocationInner NonNegative)) : TransparentCfs :=
  mkTransparentCfs balances (cf_utxo_by_out_loc self) (cf_utxo_loc_by_transparent_addr_loc self) (cf_tx_loc_by_transparent_addr_loc self) (cf_tx_loc_by_spent_out_loc self).
Definition prepare_transparent_balances_batch (self : TransparentCfs) (address_balances : AddressBalanceLocationUpdates) : Run TransparentCfs :=
  balances ←
    match address_balances with
    | MergeBalances changes =>
        foldM (λ cf '(address, change), merged ← merge_balance (zs_get cf address) change; Ok (zs_insert cf address merged))
              (cf_balance_by_transparent_addr self) (map_to_list changes)
    | InsertBalances balances =>
        Ok (foldl (λ cf entry, zs_insert cf entry.1 entry.2) (cf_balance_by_transparent_addr self) (map_to_list balances))
    end;
  Ok (with_balances self balances).

Definition prepare_transparent_transaction_batch (network : Network) (self : TransparentCfs) (finalized : FinalizedBlock)
    (new_outputs_by_out_loc : list (OutputLocation * Utxo)) (spent_utxos_by_outpoint : gmap OutPoint Utxo)
    (spent_utxos_by_out_loc : list (OutputLocation * Utxo)) (out_loc_by_outpoint : gmap OutPoint OutputLocation)
    (address_balances : AddressBalanceLocationUpdates) : Run TransparentCfs :=
  '(self, address_balances) ← prepare_new_transparent_outputs_batch network self address_balances new_outputs_by_out_loc;
  '(self, address_balances) ← prepare_spent_transparent_outputs_batch network self address_balances spent_utxos_by_out_loc;
  self ← foldM (λ self '(tx_index, transaction),
                  spending_tx_location ← tx_loc_from_usize (fb_height finalized) tx_index;
                  prepare_spending_transparent_tx_ids_batch network spending_tx_location spent_utxos_by_outpoint out_loc_by_outpoint address_balances self transaction)
               self (enumerate (transactions (fb_block finalized)));
  prepare_transparent_balances_batch self address_balances.

(** *** Value pools *)

Definition prepare_chain_value_pools_batch (self : ChainCfs) (finalized : FinalizedBlock) (utxos_spent_by_block : gmap OutPoint Utxo)
    (value_pool : ValueBalance NonNegative) : Res ValidateContextError ChainCfs :=
  block_value_pool_change ←
    map_err (λ value_balance_error, CalculateBlockChainValueChange value_balance_error (fb_height finalized) (fb_hash finalized)
                                      (Z.of_nat (length (fb_transaction_hashes finalized))) (Z.of_nat (base.size utxos_spent_by_block)))
      (chain_value_pool_change (fb_block finalized) utxos_spent_by_block (fb_deferred_pool_balance_change finalized));
  new_value_pool ←
    map_err (λ value_balance_error, AddValuePool value_balance_error value_pool block_value_pool_change (Some (fb_height finalized)))
      (add_chain_value_pool_change value_pool block_value_pool_change);
  let block_size := zcash_serialized_size (fb_block finalized) in
  Ok (mkChainCfs (cf_history_tree self) (zs_insert (cf_tip_chain_value_pool self) tt new_value_pool)
        (zs_insert (cf_block_info self) (fb_height finalized) (mkBlockInfo new_value_pool (wrap U32 block_size)))).

(** *** The batch, and writing it *)

Definition prepare_block_batch (zebra_db : FinalizedDb) (network : Network) (finalized : FinalizedBlock)
    (new_outputs_by_out_loc : list (OutputLocation * Utxo)) (spent_utxos_by_outpoint : gmap OutPoint Utxo)
    (spent_utxos_by_out_loc : list (OutputLocation * Utxo)) (out_loc_by_outpoint : gmap OutPoint OutputLocation)
    (address_balances : AddressBalanceLocationUpdates) (value_pool : ValueBalance NonNegative)
    (prev_note_commitment_trees : option NoteCommitmentTrees) : Res ValidateContextError FinalizedDb :=
  blocks ← lift (prepare_block_header_and_transaction_data_batch (fin_blocks zebra_db) finalized);
  shielded ← lift (prepare_shielded_transaction_batch (fin_shielded zebra_db) finalized);
  '(shielded, chain) ← lift (prepare_trees_batch shielded (fin_chain zebra_db) zebra_db finalized prev_note_commitment_trees);
  transparent ←
    (if is_min (fb_height finalized) then Ok (fin_transparent zebra_db)
     else lift (prepare_transparent_transaction_batch network (fin_transparent zebra_db) finalized new_outputs_by_out_loc spent_utxos_by_outpoint
                  spent_utxos_by_out_loc out_loc_by_outpoint address_balances));
  chain ← prepare_chain_value_pools_batch chain finalized spent_utxos_by_outpoint value_pool;
  Ok (mkFinalizedDb (fin_network zebra_db) (finished_format_upgrades zebra_db) blocks shielded transparent chain).

Definition lookup_out_loc (height : Height) (tx_hash_indexes : gmap Hash Z) (outpoint : OutPoint) : Run OutputLocation :=
  tx_index ← expect (tx_hash_indexes !! outpoint_hash outpoint);
  tx_loc ← tx_loc_from_usize height tx_index;
  Ok (from_outpoint tx_loc outpoint).

Definition tx_hash_indexes_of (finalized : FinalizedBlock) : gmap Hash Z :=
  list_to_map (reverse ((λ e, (e.2, e.1)) <$> enumerate (fb_transaction_hashes finalized))).

(** An entry of [spent_utxos]. *)
Definition lookup_spent_utxo (self : FinalizedDb) (finalized : FinalizedBlock) (outpoint : OutPoint) : Run (OutPoint * OutputLocation * Utxo) :=
  location ← match read_output_location self outpoint with
             | Some location => Ok location
             | None => lookup_out_loc (fb_height finalized) (tx_hash_indexes_of finalized) outpoint
             end;
  spent_utxo ← expect (match read_utxo self outpoint with
                       | Some ordered_utxo => Some (utxo ordered_utxo)
                       | None => utxo <$> fb_new_outputs finalized !! outpoint
                       end);
  Ok (outpoint, location, spent_utxo).

Definition changed_addresses_of (network : Network) (utxos : list Utxo) : gset Address :=
  list_to_set (omap (λ utxo, address (output utxo) network) utxos).
Definition read_addr_locs {T} (changed_addresses : gset Address) (f : Address → option T) : gmap Address T :=
  list_to_map (omap (λ address, (λ abl, (address, abl)) <$> f address) (elements changed_addresses)).

Definition read_address_balances (self : FinalizedDb) (changed_addresses : gset Address) : Run AddressBalanceLocationUpdates :=
  if finished_format_upgrades self then Ok (InsertBalances (read_addr_locs changed_addresses (read_address_balance_location self)))
  else
    zero ← Amount.zero;
    Ok (MergeBalances (read_addr_locs changed_addresses
                         (λ address, into_new_change zero <$> read_address_balance_location self address))).

Definition write_block (self : FinalizedDb) (finalized : FinalizedBlock) (prev_note_commitment_trees : option NoteCommitmentTrees) (network : Network) :
    Res ValidateContextError (FinalizedDb * Hash) :=
  new_outputs ← lift (collect ((λ '(outpoint, ordered_utxo),
      location ← lookup_out_loc (fb_height finalized) (tx_hash_indexes_of finalized) outpoint;
      Ok (location, utxo ordered_utxo)) <$> map_to_list (fb_new_outputs finalized)));
  spent_utxos ← lift (collect (lookup_spent_utxo self finalized <$> (transactions (fb_block finalized) ≫= spent_outpoints)));
  let spent_utxos_by_outpoint := list_to_map (reverse ((λ '(outpoint, _, utxo), (outpoint, utxo)) <$> spent_utxos)) in
  let out_loc_by_outpoint := list_to_map (reverse ((λ '(outpoint, location, _), (outpoint, location)) <$> spent_utxos)) in
  let spent_utxos_by_out_loc := by_out_loc ((λ '(_, location, utxo), (location, utxo)) <$> spent_utxos) in
  let changed_addresses := changed_addresses_of network (spent_utxos_by_out_loc.*2 ++ (utxo <$> (map_to_list (fb_new_outputs finalized)).*2)) in
  address_balances ← lift (read_address_balances self changed_addresses);
  value_pool ← lift (read_finalized_value_pool self);
  db ← prepare_block_batch self network finalized (by_out_loc new_outputs) spent_utxos_by_outpoint spent_utxos_by_out_loc out_loc_by_outpoint
         address_balances value_pool prev_note_commitment_trees;
  Ok (db, fb_hash finalized).

(** ** Committing blocks *)

(** The treestate of a checkpoint verified block, and the trees before it. *)
Definition checkpoint_treestate (self : FinalizedDb) (block : Block) (prev_note_commitment_trees : option NoteCommitmentTrees) :
    Res ValidateContextError (Treestate * NoteCommitmentTrees) :=
  history_tree ← lift (read_history_tree self);
  prev_note_commitment_trees ← match prev_note_commitment_trees with Some prev => Ok prev | None => lift (read_note_commitment_trees_for_tip self) end;
  note_commitment_trees ← map_err TreeError (update_trees_parallel prev_note_commitment_trees block);
  _ ← block_commitment_is_valid_for_chain_history sapling_root_try_from v5_auth_digest block (fin_network self) (history_hash history_tree);
  history_tree ← map_err HistoryError (history_push history_tree (fin_network self) block
                                         (tree_root (trees_sapling note_commitment_trees)) (tree_root (trees_orchard note_commitment_trees)));
  Ok (mkTreestate note_commitment_trees history_tree, prev_note_commitment_trees).

(** [height + 1] of the tip, [None] past the maximum height. *)
Definition assert_follows_tip (self : FinalizedDb) (height : Height) (previous : Hash) : Run unit :=
  committed_tip_hash ← read_finalized_tip_hash self;
  committed_tip_height ← read_finalized_tip_height self;
  if read_is_empty self then
    _ ← assert (bool_decide (committed_tip_hash = previous));
    assert (bool_decide (0 = height))
  else
    tip_height ← expect committed_tip_height;
    _ ← assert (bool_decide (Height.add_diff tip_height 1 = Some height));
    assert (bool_decide (committed_tip_hash = previous)).

(** The block to write, with its treestate, and the trees before it. *)
Definition prepare_finalizable (self : FinalizedDb) (finalizable_block : FinalizableBlock) (prev_note_commitment_trees : option NoteCommitmentTrees) :
    Res ValidateContextError (FinalizedBlock * option NoteCommitmentTrees) :=
  match finalizable_block with
  | Checkpoint checkpoint_verified =>
      '(treestate, prev) ← checkpoint_treestate self (sv_block checkpoint_verified) prev_note_commitment_trees;
      Ok (from_semantically_verified checkpoint_verified treestate, Some prev)
  | Contextual contextually_verified treestate => Ok (from_contextually_verified contextually_verified treestate, prev_note_commitment_trees)
  end.

Definition commit_finalized_direct (self : FinalizedDb) (finalizable_block : FinalizableBlock) (prev_note_commitment_trees : option NoteCommitmentTrees) :
    Res ValidateContextError (FinalizedDb * (Hash * NoteCommitmentTrees)) :=
  '(finalized, prev_note_commitment_trees) ← prepare_finalizable self finalizable_block prev_note_commitment_trees;
  _ ← lift (assert_follows_tip self (fb_height finalized) (previous_block_hash (header (fb_block finalized))));
  let trees := note_commitment_trees (fb_treestate finalized) in
  '(db, hash) ← write_block self finalized prev_note_commitment_trees (fin_network self);
  Ok (db, (hash, trees)).

End FinalizedDb.
