(* ===== verification/TransparentIndex.v ===== *)
(** * The transparent indexes of the finalized state

    What the column families of transparent data hold after the batches of [finalized_state/zebra_db/transparent.rs]: the unspent outputs, the balances of
    the addresses, and the outputs and transactions of each address, for the outputs that the chain has created and spent. The specification is the pair
    of lists [created] and [spent]; [unspent], [of_address], [first_location] and [balance_spec] are the queries on it.

    Balances are the same whether they are merged or inserted: [view] is the balance that an update leads to. *)

From S2P Require Import Prelude Height Amount Serialization ValueBalance Network Transaction Reversible Transfers TreeIndex Ledger Chain DiskFormat DiskDb FinalizedDb.

(** ** Addresses as keys *)

(** [network_kind] is the kind of the network, and the hash has 20 bytes. *)
Definition address_valid (network : Network) (a : Address) : Prop := network_kind a = t_addr_kind network ∧ length (address_hash_bytes a) = 20%nat.

(** The hashes of scripts and public keys have 20 bytes. *)
Class ScriptParserLaws `{!ScriptParser} : Prop := {
  recipient_length : ∀ o h, recipient_address o = Some (PublicKeyHash h) ∨ recipient_address o = Some (ScriptHash h) → length h = 20%nat;
}.

Lemma address_valid_spec `{SP : !ScriptParser, SL : !ScriptParserLaws} network o a : address o network = Some a → address_valid network a.
Proof.
  unfold address. intros H. destruct (recipient_address o) as [[h|h]|] eqn:E; simplify_eq; (split; [done|]; apply (recipient_length o); rewrite E; auto).
Qed.

Lemma address_bytes network a : address_valid network a → as_bytes a = address_variant a :: address_hash_bytes a.
Proof. intros [_ Hl]. apply as_bytes_Ok. unfold into_disk, Address_into_disk. apply array_Ok. cbn. by rewrite Hl. Qed.

Lemma address_bytes_inj network a b : address_valid network a → address_valid network b → as_bytes a = as_bytes b → a = b.
Proof.
  intros Ha Hb. rewrite (address_bytes network a Ha), (address_bytes network b Hb). destruct Ha as [Ha _], Hb as [Hb _].
  destruct a as [ka ?|ka ?|ka ?], b as [kb ?|kb ?|kb ?]; cbn in *; subst; unfold address_variant; cbn; destruct (t_addr_kind network); intros [=]; by subst.
Qed.

(** ** Balances *)

Definition U64_MAX : Z := 2 ^ 64 - 1.

Record Balance := mkBalance { bal_amount : Z; bal_received : Z; bal_location : OutputLocation }.
Definition entry {C} (b : AddressBalanceLocationInner C) : Balance := mkBalance (zatoshis (address_balance_amount b)) (address_received b) (address_location b).

Definition entry_ok {C} `{!Constraint C} (b : AddressBalanceLocationInner C) : Prop :=
  amount_ok (address_balance_amount b) = true ∧ 0 ≤ address_received b ≤ U64_MAX.

Lemma receive_Ok {C} `{CL : ConstraintLaws C} (b : AddressBalanceLocationInner C) o : entry_ok b → amount_ok (value o) = true →
  contains (valid_range C) (zatoshis (address_balance_amount b) + zatoshis (value o)) = true →
  ∃ b', receive_output b o = Ok b' ∧ entry_ok b' ∧
    entry b' = mkBalance (zatoshis (address_balance_amount b) + zatoshis (value o)) (Z.min (address_received b + zatoshis (value o)) U64_MAX) (address_location b).
Proof.
  intros [Hb Hr] Ho Hc. pose proof (amount_ok_bounds _ Hb) as Hbb. pose proof (amount_ok_bounds _ Ho) as Hob.
  assert (Hpos : 0 ≤ zatoshis (value o)) by (apply contains_spec in Ho; exact (proj1 Ho)).
  unfold receive_output, Prelude.checked_add. rewrite try_from_fits by (apply fits_I64_small; lia). cbn [expect]. rewrite Ok_bind, try_from_i64_spec, Hc, Ok_bind.
  unfold into_u64. rewrite try_from_fits by (apply fits_spec; unfold MAX_MONEY, COIN in *; cbn; lia). cbn [expect lift]. rewrite Ok_bind.
  eexists. split; [done|]. unfold entry_ok, entry, saturating_add_u64, U64_MAX in *. cbn [address_balance_amount address_received address_location zatoshis]. split; [|done].
  split; [exact Hc|lia].
Qed.

Lemma spend_Ok {C} `{CL : ConstraintLaws C} (b : AddressBalanceLocationInner C) o : entry_ok b → amount_ok (value o) = true →
  contains (valid_range C) (zatoshis (address_balance_amount b) - zatoshis (value o)) = true →
  ∃ b', spend_output b o = Ok b' ∧ entry_ok b' ∧
    entry b' = mkBalance (zatoshis (address_balance_amount b) - zatoshis (value o)) (address_received b) (address_location b).
Proof.
  intros [Hb Hr] Ho Hc. pose proof (amount_ok_bounds _ Hb) as Hbb. pose proof (amount_ok_bounds _ Ho) as Hob.
  unfold spend_output, Prelude.checked_sub. rewrite try_from_fits by (apply fits_I64_small; lia). cbn [expect]. rewrite Ok_bind, try_from_i64_spec, Hc, Ok_bind.
  eexists. split; [done|]. split; [|done]. split; [exact Hc|exact Hr].
Qed.

(** A balance after an output at [l] is received, and after an output is spent. *)
Definition received_balance (b : option Balance) (l : OutputLocation) (v : Z) : Balance :=
  match b with
  | Some b => mkBalance (bal_amount b + v) (Z.min (bal_received b + v) U64_MAX) (bal_location b)
  | None => mkBalance v (Z.min v U64_MAX) l
  end.
Definition spent_balance (b : Balance) (v : Z) : Balance := mkBalance (bal_amount b - v) (bal_received b) (bal_location b).

Lemma update_receive_Ok {C} `{CL : ConstraintLaws C} (m : gmap Address (AddressBalanceLocationInner C)) a l o :
  (∀ b, m !! a = Some b → entry_ok b) → amount_ok (value o) = true →
  contains (valid_range C) (from_option bal_amount 0 (entry <$> m !! a) + zatoshis (value o)) = true →
  ∃ b, update_addr_loc_receive m a l o = Ok (<[a := b]> m, address_location b) ∧ entry_ok b ∧ entry b = received_balance (entry <$> m !! a) l (zatoshis (value o)).
Proof.
  intros Hm Ho Hc. unfold update_addr_loc_receive. destruct (m !! a) as [b|] eqn:E; cbn [fmap option_fmap option_map from_option received_balance] in *.
  - destruct (receive_Ok b o) as (b' & Hr & Hok & He); [by apply Hm|done|done|]. rewrite Ok_bind, Hr. cbn [expect_ok]. rewrite Ok_bind. by exists b'.
  - unfold address_balance_new. rewrite Amount.zero_spec, !Ok_bind.
    destruct (receive_Ok (C := C) (mkAddressBalance (mkAmount 0) 0 l) o) as (b' & Hr & Hok & He); [split; [apply zero_ok|by compute]|done|done|].
    rewrite Hr. cbn [expect_ok]. rewrite Ok_bind. exists b'. split_and!; [done|done|]. rewrite He. cbn [address_balance_amount address_received address_location zatoshis]. by rewrite !Z.add_0_l.
Qed.

Lemma update_spend_Ok {C} `{CL : ConstraintLaws C} (m : gmap Address (AddressBalanceLocationInner C)) a b o : m !! a = Some b → entry_ok b → amount_ok (value o) = true →
  contains (valid_range C) (zatoshis (address_balance_amount b) - zatoshis (value o)) = true →
  ∃ b', update_addr_loc_spend m a o = Ok (<[a := b']> m, address_location b') ∧ entry_ok b' ∧ entry b' = spent_balance (entry b) (zatoshis (value o)).
Proof.
  intros Hm Hb Ho Hc. unfold update_addr_loc_spend. rewrite Hm. cbn [expect]. rewrite Ok_bind.
  destruct (spend_Ok b o) as (b' & Hr & Hok & He); [done..|]. rewrite Hr. cbn [expect_ok]. rewrite Ok_bind. by exists b'.
Qed.

Section Updates.
Context (network : Network) (stored : Address → option (AddressBalanceLocationInner NonNegative)) (changed : Address → Prop).
Hypothesis (Hstored : ∀ a s, stored a = Some s → entry_ok s).

(** The balance of an address after the updates are written. *)
Definition view (upd : AddressBalanceLocationUpdates) (a : Address) : option Balance :=
  match upd with
  | InsertBalances m => match m !! a with Some b => Some (entry b) | None => entry <$> stored a end
  | MergeBalances m =>
      match m !! a, stored a with
      | Some c, Some s => Some (mkBalance (zatoshis (address_balance_amount s) + zatoshis (address_balance_amount c))
                                  (Z.min (address_received s + address_received c) U64_MAX) (address_location s))
      | Some c, None => Some (entry c)
      | None, s => entry <$> s
      end
  end.

(** The updates hold every changed address that has a balance. *)
Definition updates_ok (upd : AddressBalanceLocationUpdates) : Prop :=
  (∀ a, changed a → is_Some (stored a) → is_Some (balances_location upd a)) ∧
  match upd with
  | InsertBalances m => ∀ a b, m !! a = Some b → address_valid network a ∧ entry_ok b
  | MergeBalances m => ∀ a c, m !! a = Some c → address_valid network a ∧ entry_ok c ∧ ∀ s, stored a = Some s → address_location c = address_location s
  end.

Lemma contains_nonneg v : contains (valid_range NonNegative) v = true ↔ 0 ≤ v ≤ MAX_MONEY.
Proof. by rewrite contains_spec. Qed.
Lemma contains_negative v : contains (valid_range NegativeAllowed) v = true ↔ - MAX_MONEY ≤ v ≤ MAX_MONEY.
Proof. by rewrite contains_spec. Qed.

Lemma entry_nonneg (b : AddressBalanceLocationInner NonNegative) : entry_ok b → 0 ≤ zatoshis (address_balance_amount b) ≤ MAX_MONEY.
Proof. intros [Hb _]. by apply contains_nonneg. Qed.

Lemma covered upd a : updates_ok upd → changed a → balances_location upd a = None → stored a = None.
Proof. intros [Hcov _] Hch Hn. specialize (Hcov a Hch). rewrite Hn in Hcov. destruct (stored a); [|done]. destruct Hcov as [? [=]]. by eexists. Qed.

Lemma merge_set m a c : updates_ok (MergeBalances m) → address_valid network a → entry_ok c → (∀ s, stored a = Some s → address_location c = address_location s) →
  updates_ok (MergeBalances (<[a := c]> m)) ∧ ∀ a', a' ≠ a → view (MergeBalances (<[a := c]> m)) a' = view (MergeBalances m) a'.
Proof.
  intros [Hcov Hm] Ha Hc Hs. cbn [balances_location] in *. split; [split|].
  - intros a' Hc' Hs'. cbn [balances_location]. destruct (decide (a' = a)) as [->|Hne]; [by rewrite lookup_insert_eq|rewrite lookup_insert_ne by done; by apply Hcov].
  - intros a' c'. intros [[<- <-]|[_ Hc']]%lookup_insert_Some; [done|by apply Hm].
  - intros a' Hne. cbn [view]. by rewrite lookup_insert_ne.
Qed.

Lemma insert_set m a b : updates_ok (InsertBalances m) → address_valid network a → entry_ok b →
  updates_ok (InsertBalances (<[a := b]> m)) ∧ ∀ a', a' ≠ a → view (InsertBalances (<[a := b]> m)) a' = view (InsertBalances m) a'.
Proof.
  intros [Hcov Hm] Ha Hb. cbn [balances_location] in *. split; [split|].
  - intros a' Hc' Hs'. cbn [balances_location]. destruct (decide (a' = a)) as [->|Hne]; [by rewrite lookup_insert_eq|rewrite lookup_insert_ne by done; by apply Hcov].
  - intros a' c'. intros [[<- <-]|[_ Hc']]%lookup_insert_Some; [done|by apply Hm].
  - intros a' Hne. cbn [view]. by rewrite lookup_insert_ne.
Qed.

Lemma entry_eq {C} (b : AddressBalanceLocationInner C) e : entry b = e →
  zatoshis (address_balance_amount b) = bal_amount e ∧ address_received b = bal_received e ∧ address_location b = bal_location e.
Proof. by intros <-. Qed.

Definition amount_of (b : option Balance) : Z := from_option bal_amount 0 b.

(** What an update of [a] to [b] does. *)
Definition updated (upd upd' : AddressBalanceLocationUpdates) (a : Address) (b : Balance) : Prop :=
  updates_ok upd' ∧ view upd' a = Some b ∧ ∀ a', a' ≠ a → view upd' a' = view upd a'.

Lemma merge_receive m a l o (b := received_balance (view (MergeBalances m) a) l (zatoshis (value o))) :
  updates_ok (MergeBalances m) → changed a → address_valid network a → amount_ok (value o) = true →
  amount_of (view (MergeBalances m) a) + zatoshis (value o) ≤ MAX_MONEY →
  ∃ m', update_addr_loc_receive m a l o = Ok (m', bal_location b) ∧ updated (MergeBalances m) (MergeBalances m') a b.
Proof.
  intros Hok Hch Ha Ho Hmax. assert (Hov : 0 ≤ zatoshis (value o) ≤ MAX_MONEY) by by apply contains_nonneg.
  pose proof (covered _ a Hok Hch) as Hcov. pose proof (proj2 Hok) as Hm. cbn [balances_location] in *.
  destruct (update_receive_Ok (C := NegativeAllowed) m a l o) as (c & -> & Hc & He); [intros c Hc; by destruct (Hm a c Hc) as (_ & ? & _)|done| |].
  { apply contains_negative. cbn [view] in Hmax. destruct (m !! a) as [c|] eqn:E; cbn in *; [|lia]. destruct (Hm a c E) as (_ & [Hc _] & _). apply contains_negative in Hc.
    destruct (stored a) as [s|] eqn:Es; cbn in *; [|lia]. pose proof (entry_nonneg s (Hstored _ _ Es)). lia. }
  assert (Hb : Some b = view (MergeBalances (<[a := c]> m)) a ∧ bal_location b = address_location c ∧ ∀ s, stored a = Some s → address_location c = address_location s).
  { apply entry_eq in He as (H1 & H2 & H3). subst b. cbn [view]. rewrite lookup_insert_eq. destruct (m !! a) as [c0|] eqn:E; cbn [fmap option_fmap option_map received_balance] in *.
    - destruct (Hm a c0 E) as (_ & [_ Hr] & Hl). destruct (stored a) as [s|] eqn:Es; cbn [received_balance fmap option_fmap option_map].
      + pose proof (Hstored _ _ Es) as [_ Hrs]. cbn in *. rewrite H1, H2, H3. split_and!; [do 2 f_equal; lia|symmetry; by apply Hl|intros ? [= <-]; by apply Hl].
      + unfold entry. cbn in *. rewrite H1, H2, H3. by split_and!.
    - rewrite Hcov by done. cbn in *. unfold entry. rewrite H1, H2, H3. by split_and!. }
  destruct Hb as (Hv & Hl & Hs). destruct (merge_set m a c) as [H1 H2]; [done..|]. exists (<[a := c]> m). rewrite Hl. by split_and!.
Qed.

Lemma insert_receive m a l o (b := received_balance (view (InsertBalances m) a) l (zatoshis (value o))) :
  updates_ok (InsertBalances m) → changed a → address_valid network a → amount_ok (value o) = true →
  amount_of (view (InsertBalances m) a) + zatoshis (value o) ≤ MAX_MONEY →
  ∃ m', update_addr_loc_receive m a l o = Ok (m', bal_location b) ∧ updated (InsertBalances m) (InsertBalances m') a b.
Proof.
  intros Hok Hch Ha Ho Hmax. assert (Hov : 0 ≤ zatoshis (value o) ≤ MAX_MONEY) by by apply contains_nonneg.
  pose proof (covered _ a Hok Hch) as Hcov. pose proof (proj2 Hok) as Hm. cbn [balances_location] in *.
  assert (Hv : view (InsertBalances m) a = entry <$> m !! a). { cbn [view]. destruct (m !! a); [done|]. by rewrite Hcov. }
  destruct (update_receive_Ok (C := NonNegative) m a l o) as (c & -> & Hc & He); [intros c Hc; by destruct (Hm a c Hc)|done| |].
  { apply contains_nonneg. rewrite Hv in Hmax. unfold amount_of in Hmax. destruct (m !! a) as [c|] eqn:E; cbn in *; [|lia].
    destruct (Hm a c E) as [_ Hc]. pose proof (entry_nonneg c Hc). lia. }
  rewrite <- Hv in He. fold b in He. destruct (insert_set m a c) as [H1 H2]; [done..|]. exists (<[a := c]> m).
  rewrite <- He. unfold updated. split_and!; [done|done| |done]. cbn [view]. by rewrite lookup_insert_eq.
Qed.

Lemma balances_receive_Ok upd a l o (b := received_balance (view upd a) l (zatoshis (value o))) :
  updates_ok upd → changed a → address_valid network a → amount_ok (value o) = true → amount_of (view upd a) + zatoshis (value o) ≤ MAX_MONEY →
  ∃ upd', balances_receive upd a l o = Ok (upd', bal_location b) ∧ updated upd upd' a b.
Proof.
  intros Hok Hch Ha Ho Hmax. destruct upd as [m|m]; cbn [balances_receive].
  - destruct (merge_receive m a l o) as (m' & -> & Hu); [done..|]. rewrite Ok_bind. by exists (MergeBalances m').
  - destruct (insert_receive m a l o) as (m' & -> & Hu); [done..|]. rewrite Ok_bind. by exists (InsertBalances m').
Qed.

(** On a database whose format is up to date, the balances themselves are updated. *)
Definition inserting (upd : AddressBalanceLocationUpdates) : Prop := match upd with InsertBalances _ => True | MergeBalances _ => False end.

(** An output that takes the balance over the supply panics. *)
Lemma balances_receive_panic upd a l o : inserting upd → updates_ok upd → changed a → amount_ok (value o) = true →
  MAX_MONEY < amount_of (view upd a) + zatoshis (value o) → balances_receive upd a l o = Panic.
Proof.
  intros Hi Hok Hch Ho Hmax. destruct upd as [m|m]; [done|]. assert (Hov : 0 ≤ zatoshis (value o) ≤ MAX_MONEY) by by apply contains_nonneg.
  pose proof (covered _ a Hok Hch) as Hcov. pose proof (proj2 Hok) as Hm. cbn [balances_location] in Hcov.
  assert (Hv : view (InsertBalances m) a = entry <$> m !! a). { cbn [view]. destruct (m !! a); [done|]. by rewrite Hcov. }
  rewrite Hv in Hmax. cbn [balances_receive]. unfold update_addr_loc_receive. destruct (m !! a) as [c|] eqn:E; cbn in Hmax; [|lia].
  destruct (Hm a c E) as [_ Hc]. pose proof (entry_nonneg c Hc) as Hcr. rewrite Ok_bind. unfold receive_output, Prelude.checked_add.
  rewrite try_from_fits by (apply fits_spec; cbn; unfold MAX_MONEY, COIN in *; lia). cbn [expect]. rewrite Ok_bind, try_from_i64_spec.
  destruct (contains _ _) eqn:Hcon; [|done]. apply contains_nonneg in Hcon. lia.
Qed.
Lemma balances_receive_inserting upd a l o r : inserting upd → balances_receive upd a l o = Ok r → inserting r.1.
Proof. destruct upd as [m|m]; [done|]. intros _. cbn [balances_receive]. by intros ([m' x] & _ & [= <-])%bind_Ok. Qed.

Lemma balances_spend_Ok upd a b o : updates_ok upd → changed a → address_valid network a → amount_ok (value o) = true →
  view upd a = Some b → 0 ≤ bal_amount b - zatoshis (value o) →
  ∃ upd', balances_spend upd a o = Ok (upd', bal_location b) ∧ updated upd upd' a (spent_balance b (zatoshis (value o))).
Proof.
  intros Hok Hch Ha Ho Hb Hmin. assert (Hov : 0 ≤ zatoshis (value o) ≤ MAX_MONEY) by by apply contains_nonneg.
  pose proof (covered _ a Hok Hch) as Hcov. pose proof (proj2 Hok) as Hm. destruct upd as [m|m]; cbn [balances_spend balances_location view] in *.
  - destruct (m !! a) as [c|] eqn:E; [|rewrite Hcov in Hb by done; done]. destruct (Hm a c E) as (_ & Hc & Hl). pose proof (proj1 Hc) as Hcb. apply contains_negative in Hcb.
    assert (Hr : - MAX_MONEY ≤ zatoshis (address_balance_amount c) - zatoshis (value o)).
    { destruct (stored a) as [s|] eqn:Es; simplify_eq; cbn in Hmin; [|lia]. pose proof (entry_nonneg s (Hstored _ _ Es)). lia. }
    destruct (update_spend_Ok m a c o) as (c' & -> & Hc' & He); [done..|apply contains_negative; lia|]. apply entry_eq in He as (H1 & H2 & H3). cbn in H1, H2, H3.
    rewrite Ok_bind, H3. destruct (merge_set m a c') as [Hu Hv]; [done..|intros s Hs; rewrite H3; by apply Hl|]. exists (MergeBalances (<[a := c']> m)).
    destruct (stored a) as [s|] eqn:Es; simplify_eq; unfold updated; cbn [view bal_location]; rewrite lookup_insert_eq, Es.
    + rewrite (Hl s) by done. split_and!; [done|done| |done]. unfold spent_balance. cbn. rewrite H1, H2. do 2 f_equal. lia.
    + split_and!; [done|done| |done]. unfold entry, spent_balance. cbn. by rewrite H1, H2, H3.
  - destruct (m !! a) as [c|] eqn:E; [|rewrite Hcov in Hb by done; done]. simplify_eq. destruct (Hm a c E) as (_ & Hc). pose proof (entry_nonneg c Hc) as Hcb. cbn in Hmin.
    destruct (update_spend_Ok m a c o) as (c' & -> & Hc' & He); [done..|apply contains_nonneg; lia|]. pose proof (entry_eq _ _ He) as (_ & _ & H3). cbn in H3.
    rewrite Ok_bind, H3. destruct (insert_set m a c') as [Hu Hv]; [done..|]. exists (InsertBalances (<[a := c']> m)).
    unfold updated. cbn [view]. rewrite lookup_insert_eq, He. by split_and!.
Qed.

Lemma balances_location_view upd a : updates_ok upd → changed a → balances_location upd a = bal_location <$> view upd a.
Proof.
  intros Hok Hch. pose proof (covered _ a Hok Hch) as Hcov. pose proof (proj2 Hok) as Hm. destruct upd as [m|m]; cbn [balances_location view] in *.
  - destruct (m !! a) as [c|] eqn:E; [|by rewrite Hcov]. destruct (Hm a c E) as (_ & _ & Hl). destruct (stored a) as [s|] eqn:Es; [|done]. cbn. f_equal. by apply Hl.
  - destruct (m !! a) as [c|] eqn:E; [done|]. by rewrite Hcov.
Qed.

Lemma view_received upd a b : updates_ok upd → view upd a = Some b → 0 ≤ bal_received b ≤ U64_MAX.
Proof.
  intros [_ Hm] Hb. destruct upd as [m|m]; cbn [view] in *; destruct (m !! a) as [c|] eqn:E; [specialize (Hm a c E)|..|specialize (Hm a c E)|];
    (destruct (stored a) as [s|] eqn:Es; [specialize (Hstored a s Es)|]); cbn in Hb; simplify_eq; unfold entry_ok in *; cbn; lia || (destruct Hm as (_ & [_ ?] & _); lia) || idtac.
Qed.

End Updates.

(** Writing an entry for each address of a list. *)
Lemma foldM_pure {E S A} (f : S → A → S) s l : foldM (λ s a, Ok (E := E) (f s a)) s l = Ok (foldl f s l).
Proof. revert s. induction l as [|a l IH]; intros s; [done|]. cbn [foldM foldl]. by rewrite Ok_bind, IH. Qed.

Lemma foldM_ext {E S A} (f g : S → A → Res E S) s l : (∀ s a, f s a = g s a) → foldM f s l = foldM g s l.
Proof. intros Hfg. revert s. induction l as [|a l IH]; intros s; [done|]. cbn [foldM]. rewrite Hfg. by destruct (g s a); cbn. Qed.

Section Written.
Context (network : Network) {V C : Type} (f : option V → C → Run V).

Lemma foldM_written (l : list (Address * C)) (cf : Cf Address V) (g : Address → C → V) : NoDup l.*1 →
  (∀ a c, (a, c) ∈ l → address_valid network a ∧ f (zs_get cf a) c = Ok (g a c)) →
  ∃ cf', foldM (λ cf '(a, c), v ← f (zs_get cf a) c; Ok (zs_insert cf a v)) cf l = Ok cf' ∧
    (∀ b v, cf' !! b = Some v → cf !! b = Some v ∨ ∃ a c, (a, c) ∈ l ∧ v = g a c) ∧
    ∀ a, address_valid network a → zs_get cf' a = match list_to_map (M := gmap Address C) l !! a with Some c => Some (g a c) | None => zs_get cf a end.
Proof.
  revert cf. induction l as [|[a c] l IH]; intros cf Hn Hl; [exists cf; cbn; split_and!; auto|]. apply NoDup_cons in Hn as [Ha Hn].
  destruct (Hl a c) as [Hv Hf]; [by left|]. cbn [foldM]. rewrite Hf, !Ok_bind.
  assert (Hne : ∀ a', address_valid network a' → a' ≠ a → zs_get (zs_insert cf a (g a c)) a' = zs_get cf a').
  { intros a' Hv' Hne. apply lookup_insert_ne. intros He. by apply Hne, (address_bytes_inj network). }
  destruct (IH (zs_insert cf a (g a c)) Hn) as (cf' & -> & Hin & Hget).
  { intros a' c' Hc'. destruct (Hl a' c') as [Hv' Hf']; [by right|]. split; [done|]. rewrite Hne; [done|done|]. intros ->. by apply Ha, (list_elem_of_fmap_2 fst _ (a, c')). }
  exists cf'. split_and!; [done| |].
  - intros b v Hb. destruct (Hin b v Hb) as [Hx|(a' & c' & Hc' & ->)].
    + unfold zs_insert in Hx. apply lookup_insert_Some in Hx as [[_ <-]|[_ Hx]]; [|by left]. right. exists a, c. split; [by left|done].
    + right. exists a', c'. split; [by right|done].
  - intros a' Hv'. rewrite Hget by done. cbn [list_to_map]. destruct (decide (a' = a)) as [->|Hna].
    + rewrite not_elem_of_list_to_map_1 by done. change (list_to_map ((a, c) :: l)) with (<[a := c]> (list_to_map (M := gmap Address C) l)).
      rewrite lookup_insert_eq. apply lookup_insert_eq.
    + change (list_to_map ((a, c) :: l)) with (<[a := c]> (list_to_map (M := gmap Address C) l)). rewrite lookup_insert_ne by done. by rewrite Hne.
Qed.

End Written.

Lemma merge_balance_Ok (s : option (AddressBalanceLocationInner NonNegative)) c b :
  (∀ x, s = Some x → entry_ok x ∧ address_location c = address_location x) → entry_ok c → 0 ≤ bal_amount b ≤ MAX_MONEY →
  b = match s with
      | Some x => mkBalance (zatoshis (address_balance_amount x) + zatoshis (address_balance_amount c)) (Z.min (address_received x + address_received c) U64_MAX) (address_location x)
      | None => entry c
      end →
  merge_balance s c = Ok (mkAddressBalance (mkAmount (bal_amount b)) (bal_received b) (bal_location b)).
Proof.
  intros Hs Hc Hb Heq. unfold merge_balance. destruct s as [x|]; subst b; cbn [bal_amount bal_received bal_location entry] in *.
  - destruct (Hs x eq_refl) as [Hx Hl]. pose proof (entry_nonneg x Hx) as Hxb. pose proof (proj1 Hc) as Hcb. apply contains_negative in Hcb.
    rewrite constrain_non_negative by apply Hx. rewrite Ok_bind. unfold address_balance_add. cbn [address_balance_amount address_received address_location].
    rewrite Amount.add_spec; [|apply contains_negative; cbn; lia|apply Hc]. rewrite try_from_i64_spec, (proj2 (contains_negative _)) by (cbn; lia). rewrite Ok_bind. cbn [expect_ok].
    rewrite Ok_bind. cbn [address_balance_amount address_received address_location]. unfold Amount.constrain. rewrite try_from_i64_spec, (proj2 (contains_nonneg _)) by (cbn; lia).
    cbn [expect_ok]. rewrite Ok_bind. cbn [zatoshis]. rewrite Hl. by destruct (out_loc_cmp _ _).
  - rewrite Ok_bind. unfold Amount.constrain. rewrite try_from_i64_spec, (proj2 (contains_nonneg _)) by done. cbn [expect_ok]. by rewrite Ok_bind.
Qed.

(** The balances that are written. *)
Lemma balances_batch_Ok network changed (self : TransparentCfs) upd (stored := zs_get (K := Address) (cf_balance_by_transparent_addr self)) :
  (∀ b v, cf_balance_by_transparent_addr self !! b = Some v → entry_ok v) → updates_ok network stored changed upd →
  (∀ a b, address_valid network a → view stored upd a = Some b → 0 ≤ bal_amount b ≤ MAX_MONEY) →
  ∃ cf, prepare_transparent_balances_batch self upd = Ok (with_balances self cf) ∧
    (∀ b v, cf !! b = Some v → entry_ok v) ∧ ∀ a, address_valid network a → entry <$> zs_get cf a = view stored upd a.
Proof.
  intros Hst [Hcov Hm] Hr. unfold prepare_transparent_balances_batch. destruct upd as [m|m].
  - set (g (a : Address) (c : AddressBalanceLocationInner NegativeAllowed) := ok_value (mkAddressBalance (mkAmount 0) 0 (mkOutLoc (mkTxLoc 0 0) 0)) (merge_balance (stored a) c)).
    assert (Hg : ∀ a c, m !! a = Some c → ∃ b, view stored (MergeBalances m) a = Some b ∧
      merge_balance (stored a) c = Ok (mkAddressBalance (mkAmount (bal_amount b)) (bal_received b) (bal_location b)) ∧ g a c = mkAddressBalance (mkAmount (bal_amount b)) (bal_received b) (bal_location b)).
    { intros a c Hc. destruct (Hm a c Hc) as (Hav & Hok & Hl). destruct (view stored (MergeBalances m) a) as [b|] eqn:Eb; [|cbn [view] in Eb; rewrite Hc in Eb; by destruct (stored a)].
      exists b. assert (merge_balance (stored a) c = Ok (mkAddressBalance (mkAmount (bal_amount b)) (bal_received b) (bal_location b))) as Hmb.
      { apply merge_balance_Ok; [|done|by apply (Hr a)|cbn [view] in Eb; rewrite Hc in Eb; by destruct (stored a); simplify_eq]. intros x Hx. split; [by apply (Hst (as_bytes a))|by apply Hl]. }
      split_and!; [done|done|]. unfold g. by rewrite Hmb. }
    destruct (foldM_written network merge_balance (map_to_list m) (cf_balance_by_transparent_addr self) g) as (cf & -> & Hin & Hget).
    + apply NoDup_fst_map_to_list.
    + intros a c Hc%elem_of_map_to_list. split; [by apply (Hm a c)|]. destruct (Hg a c Hc) as (b & _ & Hb & ->). exact Hb.
    + rewrite Ok_bind. exists cf. split_and!; [done| |].
      * intros b v Hb. destruct (Hin b v Hb) as [Hx|(a & c & Hc & ->)]; [by apply (Hst b)|]. apply elem_of_map_to_list in Hc. destruct (Hg a c Hc) as (b' & Hb' & _ & ->).
        split; [apply contains_nonneg, (Hr a); [by apply (Hm a c)|done]|]. apply (view_received network stored changed (λ a s, Hst (as_bytes a) s) (MergeBalances m) a b'); [by split|done].
      * intros a Ha. rewrite Hget, list_to_map_to_list by done. destruct (m !! a) as [c|] eqn:E; [|cbn [view]; by rewrite E].
        destruct (Hg a c E) as (b & -> & _ & ->). by destruct b.
  - destruct (foldM_written network (λ _ b, Ok b) (map_to_list m) (cf_balance_by_transparent_addr self) (λ _ b, b)) as (cf & Hf & Hin & Hget);
      [apply NoDup_fst_map_to_list|intros a b Hb%elem_of_map_to_list; by split; [apply (Hm a b)|]|].
    rewrite (foldM_ext _ (λ cf e, Ok (zs_insert cf e.1 e.2))), foldM_pure in Hf by (by intros cf' [a b]). injection Hf as Hf.
    rewrite Hf, Ok_bind. exists cf. split_and!; [done| |].
    + intros b v Hb. destruct (Hin b v Hb) as [Hx|(a & c & Hc & ->)]; [by apply (Hst b)|]. apply elem_of_map_to_list in Hc. by apply (Hm a).
    + intros a Ha. rewrite Hget, list_to_map_to_list by done. cbn [view]. by destruct (m !! a).
Qed.

(** ** The specification *)

Section Index.
Context `{SP : !ScriptParser, SL : !ScriptParserLaws} (network : Network).

Abbreviation Created := (OutputLocation * Output)%type.
Implicit Types (created : list Created) (gone : list OutputLocation) (spent : list (OutputLocation * TransactionLocation)).

(** The outputs in [created] that belong to an address, the outputs that are not in [gone], and their value. *)
Definition of_address (a : Address) (l : list Created) : list Created := filter (λ e, address e.2 network = Some a) l.
Definition unspent (created : list Created) (gone : list OutputLocation) : list Created := filter (λ e, e.1 ∉ gone) created.
Definition total (l : list Created) : Z := sum_Z ((λ e, zatoshis (value e.2)) <$> l).
(** The location of an address is the location of its first output. *)
Definition first_location (created : list Created) (a : Address) : option OutputLocation := fst <$> head (of_address a created).
Definition balance_spec (created : list Created) (gone : list OutputLocation) (a : Address) : option Balance :=
  mkBalance (total (of_address a (unspent created gone))) (Z.min (total (of_address a created)) U64_MAX) <$> first_location created a.

Definition created_ok created : Prop := NoDup created.*1 ∧ Forall (λ e, out_loc_valid e.1 ∧ amount_ok (value e.2) = true) created.

(** The column families that hold unspent outputs. *)
Record unspent_index created gone (self : TransparentCfs) : Prop := {
  ui_utxo : ∀ l o, out_loc_valid l → zs_get (cf_utxo_by_out_loc self) l = Some o ↔ (l, o) ∈ unspent created gone;
  ui_address : ∀ al l, out_loc_valid al → out_loc_valid l → is_Some (zs_get (cf_utxo_loc_by_transparent_addr_loc self) (mkUnspent al l)) ↔
    ∃ a o, first_location created a = Some al ∧ (l, o) ∈ unspent created gone ∧ address o network = Some a;
  ui_valid : cf_valid AddressUnspentOutput (cf_utxo_loc_by_transparent_addr_loc self);
}.

(** The column families that hold transactions. *)
Record spent_index created spent (self : TransparentCfs) : Prop := {
  si_spent : ∀ l t, out_loc_valid l → zs_get (cf_tx_loc_by_spent_out_loc self) l = Some t ↔ (l, t) ∈ spent;
  si_address : ∀ al t, out_loc_valid al → tx_loc_valid t → is_Some (zs_get (cf_tx_loc_by_transparent_addr_loc self) (mkAddressTx al t)) ↔
    ∃ a l o, first_location created a = Some al ∧ (l, o) ∈ created ∧ address o network = Some a ∧ (transaction_loc l = t ∨ (l, t) ∈ spent);
  si_valid : cf_valid AddressTransaction (cf_tx_loc_by_transparent_addr_loc self);
}.

(** *** Lists of outputs *)

Lemma total_app l k : total (l ++ k) = total l + total k.
Proof. unfold total. by rewrite fmap_app, sum_Z_app. Qed.
Lemma total_perm l k : l ≡ₚ k → total l = total k.
Proof. intros H. unfold total. apply sum_Z_perm. by rewrite H. Qed.
Lemma total_nonneg l : Forall (λ e, amount_ok (value e.2) = true) l → 0 ≤ total l.
Proof. intros H. apply sum_Z_nonneg, Forall_fmap. eapply Forall_impl; [exact H|]. intros e He. exact (proj1 (proj1 (contains_nonneg _) He)). Qed.
Lemma of_address_app a l k : of_address a (l ++ k) = of_address a l ++ of_address a k.
Proof. apply filter_app. Qed.
Lemma unspent_app created created' gone : unspent (created ++ created') gone = unspent created gone ++ unspent created' gone.
Proof. apply filter_app. Qed.
Lemma elem_of_unspent e created gone : e ∈ unspent created gone ↔ e ∈ created ∧ e.1 ∉ gone.
Proof. unfold unspent. rewrite list_elem_of_filter. tauto. Qed.

Lemma created_fun created l o o' : NoDup created.*1 → (l, o) ∈ created → (l, o') ∈ created → o = o'.
Proof.
  intros Hn Ho Ho'. apply list_elem_of_lookup in Ho as [i Hi], Ho' as [j Hj].
  assert (i = j) as -> by (eapply (NoDup_lookup created.*1); [done|rewrite list_lookup_fmap, Hi; done|rewrite list_lookup_fmap, Hj; done]). congruence.
Qed.

Lemma first_location_elem created a l : first_location created a = Some l → ∃ o, (l, o) ∈ created ∧ address o network = Some a.
Proof.
  unfold first_location. destruct (of_address a created) as [|[l' o] r] eqn:E; [done|]. intros [= <-]. exists o.
  assert ((l', o) ∈ of_address a created) as Hin by (rewrite E; by left). by apply list_elem_of_filter in Hin as [? ?].
Qed.
Lemma first_location_inj created a b l : NoDup created.*1 → first_location created a = Some l → first_location created b = Some l → a = b.
Proof. intros Hn (o & Ho & Ha)%first_location_elem (o' & Ho' & Hb)%first_location_elem. rewrite (created_fun created l o o') in Ha by done. congruence. Qed.
Lemma first_location_Some created a l o : (l, o) ∈ created → address o network = Some a → is_Some (first_location created a).
Proof.
  intros Hin Ha. unfold first_location. destruct (of_address a created) as [|x r] eqn:E; [|by eexists].
  assert ((l, o) ∈ of_address a created) as Hx by (by apply list_elem_of_filter). rewrite E in Hx. by apply elem_of_nil in Hx.
Qed.
Lemma first_location_app created created' a :
  first_location (created ++ created') a = match first_location created a with Some l => Some l | None => first_location created' a end.
Proof. unfold first_location. rewrite of_address_app. by destruct (of_address a created). Qed.
Lemma first_location_single l o a : first_location [(l, o)] a = if decide (address o network = Some a) then Some l else None.
Proof. unfold first_location, of_address. rewrite filter_cons. cbn [snd]. by destruct (decide (address o network = Some a)). Qed.

Lemma first_location_ok created a l : created_ok created → first_location created a = Some l → out_loc_valid l ∧ address_valid network a.
Proof.
  intros [_ Hok] (o & Ho & Ha)%first_location_elem. rewrite Forall_forall in Hok. split; [apply (Hok _ Ho)|by apply (address_valid_spec network o)].
Qed.

(** *** Balances *)

Lemma created_amounts created a gone : created_ok created → 0 ≤ total (of_address a (unspent created gone)) ∧ 0 ≤ total (of_address a created).
Proof.
  intros [_ Hok]. rewrite Forall_forall in Hok. split; apply total_nonneg, Forall_forall; intros e He; apply Hok.
  - apply list_elem_of_filter in He as [_ He]. by apply elem_of_unspent in He as [? _].
  - by apply list_elem_of_filter in He as [_ ?].
Qed.

Lemma balance_create created gone l o a : created_ok created → l ∉ gone → amount_ok (value o) = true → address o network = Some a →
  balance_spec (created ++ [(l, o)]) gone a = Some (received_balance (balance_spec created gone a) l (zatoshis (value o))).
Proof.
  intros Hok Hl Ho Ha. destruct (created_amounts created a gone Hok) as [H1 H2]. unfold balance_spec.
  rewrite first_location_app, first_location_single, decide_True, unspent_app, !of_address_app, !total_app by done.
  assert (Hu : unspent [(l, o)] gone = [(l, o)]) by (unfold unspent; by rewrite filter_cons, decide_True).
  assert (Hs : of_address a [(l, o)] = [(l, o)]) by (unfold of_address; by rewrite filter_cons, decide_True).
  rewrite Hu, Hs. unfold total at 2 4. cbn [fmap list_fmap sum_Z foldr snd]. rewrite Z.add_0_r.
  assert (Hv : 0 ≤ zatoshis (value o)) by (by apply contains_nonneg in Ho as [? _]).
  unfold first_location. destruct (of_address a created) as [|x r] eqn:E; cbn [head fmap option_fmap option_map received_balance bal_amount bal_received bal_location].
  - assert (of_address a (unspent created gone) = []) as ->; [|done].
    apply elem_of_nil_inv. intros e He. apply list_elem_of_filter in He as [He1 He2]. apply elem_of_unspent in He2 as [He2 _].
    assert (e ∈ of_address a created) as Hx by by apply list_elem_of_filter. rewrite E in Hx. by apply elem_of_nil in Hx.
  - do 2 f_equal. lia.
Qed.

Lemma balance_create_other created gone l o a : address o network ≠ Some a → balance_spec (created ++ [(l, o)]) gone a = balance_spec created gone a.
Proof.
  intros Ha. unfold balance_spec. rewrite first_location_app, first_location_single, decide_False, unspent_app, !of_address_app by done.
  assert (of_address a [(l, o)] = [] ∧ of_address a (unspent [(l, o)] gone) = []) as [-> ->].
  { unfold of_address, unspent. rewrite filter_cons, decide_False by done. split; [done|]. rewrite filter_cons. destruct (decide _); [|done]. by rewrite filter_cons, decide_False. }
  rewrite !app_nil_r. by destruct (first_location created a).
Qed.

Lemma unspent_spend created gone l o : created_ok created → (l, o) ∈ unspent created gone → unspent created gone ≡ₚ (l, o) :: unspent created (gone ++ [l]).
Proof.
  intros [Hn _] Hin. pose proof (NoDup_fmap_1 fst created Hn) as Hn'. apply NoDup_Permutation.
  - by apply NoDup_filter.
  - constructor; [|by apply NoDup_filter]. rewrite elem_of_unspent. cbn. set_solver.
  - intros [l' o']. rewrite elem_of_cons, !elem_of_unspent. cbn [fst]. rewrite elem_of_app, list_elem_of_singleton. split.
    + intros [Hc Hg]. destruct (decide (l' = l)) as [->|]; [left|right; naive_solver]. apply elem_of_unspent in Hin as [Hin _]. f_equal. by eapply created_fun.
    + intros [[= -> ->]|[Hc Hg]]; [by apply elem_of_unspent in Hin|]. naive_solver.
Qed.

Lemma balance_spend created gone l o a b : created_ok created → (l, o) ∈ unspent created gone → address o network = Some a → balance_spec created gone a = Some b →
  balance_spec created (gone ++ [l]) a = Some (spent_balance b (zatoshis (value o))) ∧ 0 ≤ bal_amount b - zatoshis (value o).
Proof.
  intros Hok Hin Ha Hb. assert (Ht : total (of_address a (unspent created gone)) = zatoshis (value o) + total (of_address a (unspent created (gone ++ [l])))).
  { rewrite (total_perm _ (of_address a ((l, o) :: unspent created (gone ++ [l])))); [|by apply filter_Permutation, unspent_spend].
    unfold of_address at 1. rewrite filter_cons, decide_True by done. done. }
  destruct (created_amounts created a (gone ++ [l]) Hok) as [H1 _].
  unfold balance_spec in *. destruct (first_location created a) as [x|]; [|done]. cbn [fmap option_fmap option_map] in *. simplify_eq. cbn [bal_amount]. split; [|lia].
  unfold spent_balance. cbn [bal_amount bal_received bal_location]. do 2 f_equal. lia.
Qed.

Lemma balance_spend_other created gone l o a : created_ok created → (l, o) ∈ unspent created gone → address o network ≠ Some a →
  balance_spec created (gone ++ [l]) a = balance_spec created gone a.
Proof.
  intros Hok Hin Ha. unfold balance_spec. assert (total (of_address a (unspent created (gone ++ [l]))) = total (of_address a (unspent created gone))) as ->; [|done].
  symmetry. rewrite (total_perm _ (of_address a ((l, o) :: unspent created (gone ++ [l])))); [|by apply filter_Permutation, unspent_spend].
  unfold of_address at 1. by rewrite filter_cons, decide_False.
Qed.

(** *** The writes of an output *)

(** The location of the address of an output. *)
Definition output_address_location created (o : Output) : option AddressLocation := address o network ≫= first_location created.

Definition with_created (self : TransparentCfs) (l : OutputLocation) (o : Output) (al : option AddressLocation) : TransparentCfs :=
  mkTransparentCfs (cf_balance_by_transparent_addr self) (zs_insert (cf_utxo_by_out_loc self) l o)
    (match al with Some al => zs_insert (cf_utxo_loc_by_transparent_addr_loc self) (mkUnspent al l) tt | None => cf_utxo_loc_by_transparent_addr_loc self end)
    (match al with Some al => zs_insert (cf_tx_loc_by_transparent_addr_loc self) (mkAddressTx al (transaction_loc l)) tt | None => cf_tx_loc_by_transparent_addr_loc self end)
    (cf_tx_loc_by_spent_out_loc self).
Definition with_removed (self : TransparentCfs) (l : OutputLocation) (al : option AddressLocation) : TransparentCfs :=
  mkTransparentCfs (cf_balance_by_transparent_addr self) (zs_delete (cf_utxo_by_out_loc self) l)
    (match al with Some al => zs_delete (cf_utxo_loc_by_transparent_addr_loc self) (mkUnspent al l) | None => cf_utxo_loc_by_transparent_addr_loc self end)
    (cf_tx_loc_by_transparent_addr_loc self) (cf_tx_loc_by_spent_out_loc self).
Definition with_spent (self : TransparentCfs) (l : OutputLocation) (t : TransactionLocation) (al : option AddressLocation) : TransparentCfs :=
  mkTransparentCfs (cf_balance_by_transparent_addr self) (cf_utxo_by_out_loc self) (cf_utxo_loc_by_transparent_addr_loc self)
    (match al with Some al => zs_insert (cf_tx_loc_by_transparent_addr_loc self) (mkAddressTx al t) tt | None => cf_tx_loc_by_transparent_addr_loc self end)
    (zs_insert (cf_tx_loc_by_spent_out_loc self) l t).

Lemma created_snoc created l o : created_ok (created ++ [(l, o)]) → created_ok created ∧ l ∉ created.*1 ∧ out_loc_valid l ∧ amount_ok (value o) = true.
Proof.
  intros [Hn Hok]. rewrite fmap_app, NoDup_app in Hn. apply Forall_app in Hok as [Hok [Hl _]%Forall_cons]. destruct Hn as (Hn & Hd & _).
  split_and!; [by split| |apply Hl..]. intros Hx. apply (Hd l Hx). by left.
Qed.

Lemma output_location_ok created l o al : created_ok created → (l, o) ∈ created → output_address_location created o = al →
  match al with Some al => ∃ a, address o network = Some a ∧ first_location created a = Some al ∧ out_loc_valid al | None => address o network = None end.
Proof.
  intros Hok Hin <-. unfold output_address_location. destruct (address o network) as [a|] eqn:Ha; [|done]. cbn.
  destruct (first_location_Some created a l o Hin Ha) as [al Hal]. rewrite Hal. exists a. split_and!; [done|done|]. by eapply first_location_ok.
Qed.

Lemma first_location_create created l o a al :
  first_location (created ++ [(l, o)]) a = Some al ↔ first_location created a = Some al ∨ (first_location created a = None ∧ address o network = Some a ∧ al = l).
Proof.
  rewrite first_location_app, first_location_single. destruct (first_location created a); [naive_solver|]. case_decide; naive_solver.
Qed.

Lemma unspent_create created gone self l o : created_ok (created ++ [(l, o)]) → l ∉ gone → unspent_index created gone self →
  unspent_index (created ++ [(l, o)]) gone (with_created self l o (output_address_location (created ++ [(l, o)]) o)).
Proof.
  intros Hok Hl Hi. destruct (created_snoc _ _ _ Hok) as (Hok0 & Hn & Hlv & Ho).
  assert (Hu : ∀ e, e ∈ unspent (created ++ [(l, o)]) gone ↔ e ∈ unspent created gone ∨ e = (l, o)).
  { intros e. rewrite !elem_of_unspent, elem_of_app, list_elem_of_singleton. naive_solver. }
  assert (Hn' : ∀ o', (l, o') ∉ unspent created gone).
  { intros o' [Hx _]%elem_of_unspent. by apply Hn, (list_elem_of_fmap_2 fst _ (l, o')). }
  pose proof (output_location_ok _ l o _ Hok ltac:(set_solver) eq_refl) as Hal. set (al := output_address_location _ _) in *.
  destruct Hi as [H1 H2 H3]. split; cbn [with_created cf_utxo_by_out_loc cf_utxo_loc_by_transparent_addr_loc].
  - intros l' o' Hl'. rewrite get_insert_Some, H1, Hu by done. split.
    + intros [[-> ->]|[_ ?]]; auto.
    + intros [Hx|[= -> ->]]; [right|by left]. split; [|done]. intros ->. by apply (Hn' o').
  - intros al' l' Hal' Hl'. setoid_rewrite Hu. setoid_rewrite first_location_create. destruct al as [al|].
    + destruct Hal as (a & Ha & Hf & Hv). rewrite get_insert_is_Some, H2 by (done || by split). split.
      * intros [[= <- <-]|(a' & o' & Hf' & Hin & Ha')]; [|naive_solver]. exists a, o. rewrite <- first_location_create. auto.
      * intros (a' & o' & Hf' & [Hin|[= -> ->]] & Ha').
        -- right. exists a', o'. split_and!; [|done..]. destruct Hf' as [?|(Hx & _)]; [done|]. apply elem_of_unspent in Hin as [Hin _].
           destruct (first_location_Some created a' l' o' Hin Ha') as [? ?]. congruence.
        -- left. f_equal. rewrite <- first_location_create in Hf'. assert (a' = a) as -> by congruence. congruence.
    + rewrite H2 by done. split; [naive_solver|]. intros (a' & o' & Hf' & [Hin|[= -> ->]] & Ha'); [|congruence].
      exists a', o'. split_and!; [|done..]. destruct Hf' as [?|(_ & Hx & _)]; [done|congruence].
  - destruct al as [al|]; [|done]. destruct Hal as (_ & _ & _ & ?). by apply cf_valid_insert; [split|].
Qed.

Lemma spent_create created spent self l o : created_ok (created ++ [(l, o)]) → spent.*1 ⊆ created.*1 → spent_index created spent self →
  spent_index (created ++ [(l, o)]) spent (with_created self l o (output_address_location (created ++ [(l, o)]) o)).
Proof.
  intros Hok Hs Hi. destruct (created_snoc _ _ _ Hok) as (Hok0 & Hn & Hlv & Ho).
  assert (Hn' : ∀ t, (l, t) ∉ spent) by (intros t Hx; by apply Hn, Hs, (list_elem_of_fmap_2 fst _ (l, t))).
  pose proof (output_location_ok _ l o _ Hok ltac:(set_solver) eq_refl) as Hal. set (al := output_address_location _ _) in *.
  destruct Hi as [H1 H2 H3]. split; cbn [with_created cf_tx_loc_by_spent_out_loc cf_tx_loc_by_transparent_addr_loc]; [done| |].
  - intros al' t Hal' Ht. setoid_rewrite first_location_create. setoid_rewrite elem_of_app. setoid_rewrite list_elem_of_singleton. destruct al as [al|].
    + destruct Hal as (a & Ha & Hf & Hv). rewrite get_insert_is_Some, H2 by (done || (split; [done|apply Hlv])). split.
      * intros [[= <- <-]|(a' & l' & o' & Hf' & Hin & Ha' & Ht')]; [|exists a', l', o'; split_and!; auto]. exists a, l, o. rewrite <- first_location_create. auto.
      * intros (a' & l' & o' & Hf' & [Hin|[= -> ->]] & Ha' & Ht').
        -- right. exists a', l', o'. split_and!; [|done..]. destruct Hf' as [?|(Hx & _)]; [done|]. destruct (first_location_Some created a' l' o' Hin Ha') as [? ?]. congruence.
        -- left. destruct Ht' as [<-|Ht']; [|by destruct (Hn' t)]. f_equal. rewrite <- first_location_create in Hf'. assert (a' = a) as -> by congruence. congruence.
    + rewrite H2 by done. split; [intros (a' & l' & o' & Hf' & Hin & Ha' & Ht'); exists a', l', o'; split_and!; auto|]. intros (a' & l' & o' & Hf' & [Hin|[= -> ->]] & Ha' & Ht'); [|congruence].
      exists a', l', o'. split_and!; [|done..]. destruct Hf' as [?|(_ & Hx & _)]; [done|congruence].
  - destruct al as [al|]; [|done]. destruct Hal as (_ & _ & _ & ?). by apply cf_valid_insert; [split; [|apply Hlv]|].
Qed.

Lemma unspent_remove created gone self l o : created_ok created → (l, o) ∈ unspent created gone → unspent_index created gone self →
  unspent_index created (gone ++ [l]) (with_removed self l (output_address_location created o)).
Proof.
  intros Hok Hin Hi. destruct (proj1 (elem_of_unspent _ _ _) Hin) as [Hc _]. assert (Hlv : out_loc_valid l) by (destruct Hok as [_ Hok]; rewrite Forall_forall in Hok; apply (Hok _ Hc)).
  assert (Hu : ∀ e, e ∈ unspent created (gone ++ [l]) ↔ e ∈ unspent created gone ∧ e.1 ≠ l).
  { intros e. rewrite !elem_of_unspent, elem_of_app, list_elem_of_singleton. naive_solver. }
  pose proof (output_location_ok _ l o _ Hok Hc eq_refl) as Hal. set (al := output_address_location _ _) in *.
  destruct Hi as [H1 H2 H3]. split; cbn [with_removed cf_utxo_by_out_loc cf_utxo_loc_by_transparent_addr_loc].
  - intros l' o' Hl'. rewrite get_delete_Some, H1, Hu by done. cbn [fst]. naive_solver.
  - intros al' l' Hal' Hl'. setoid_rewrite Hu. cbn [fst]. destruct al as [al|].
    + destruct Hal as (a & Ha & Hf & Hv). rewrite get_delete_is_Some, H2 by (done || by split). split.
      * intros [Hne (a' & o' & Hf' & Hin' & Ha')]. exists a', o'. split_and!; [done|done| |done]. intros ->. apply Hne. f_equal.
        apply elem_of_unspent in Hin' as [Hin' _]. rewrite (created_fun created l o' o) in Ha' by (done || apply Hok). assert (a' = a) as -> by congruence. congruence.
      * intros (a' & o' & Hf' & [Hin' Hne] & Ha'). split; [intros [= <- <-]; done|]. by exists a', o'.
    + rewrite H2 by done. split; [|naive_solver]. intros (a' & o' & Hf' & Hin' & Ha'). exists a', o'. split_and!; [done|done| |done].
      intros ->. apply elem_of_unspent in Hin' as [Hin' _]. rewrite (created_fun created l o' o) in Ha' by (done || apply Hok). congruence.
  - destruct al as [al|]; [|done]. by apply cf_valid_delete.
Qed.

Lemma spent_add created spent self l t o : created_ok created → (l, o) ∈ created → l ∉ spent.*1 → tx_loc_valid t → spent_index created spent self →
  spent_index created (spent ++ [(l, t)]) (with_spent self l t (output_address_location created o)).
Proof.
  intros Hok Hc Hs Ht Hi. assert (Hlv : out_loc_valid l) by (destruct Hok as [_ Hok]; rewrite Forall_forall in Hok; apply (Hok _ Hc)).
  assert (Hs' : ∀ t', (l, t') ∉ spent) by (intros t' Hx; by apply Hs, (list_elem_of_fmap_2 fst _ (l, t'))).
  pose proof (output_location_ok _ l o _ Hok Hc eq_refl) as Hal. set (al := output_address_location _ _) in *.
  destruct Hi as [H1 H2 H3]. split; cbn [with_spent cf_tx_loc_by_spent_out_loc cf_tx_loc_by_transparent_addr_loc].
  - intros l' t' Hl'. rewrite get_insert_Some, H1, elem_of_app, list_elem_of_singleton by done. naive_solver.
  - intros al' t' Hal' Ht'. setoid_rewrite elem_of_app. setoid_rewrite list_elem_of_singleton. destruct al as [al|].
    + destruct Hal as (a & Ha & Hf & Hv). rewrite get_insert_is_Some, H2 by (done || by split). split; [intros [[= <- <-]|(a' & l' & o' & ? & ? & ? & ?)]; [exists a, l, o|exists a', l', o']; split_and!; naive_solver|].
      intros (a' & l' & o' & Hf' & Hin & Ha' & [?|[?|[= -> ->]]]); [right; exists a', l', o'; by auto..|]. left. rewrite (created_fun created l o' o) in Ha' by (done || apply Hok).
      assert (a' = a) as -> by congruence. congruence.
    + rewrite H2 by done. split; [intros (a' & l' & o' & ? & ? & ? & ?); exists a', l', o'; split_and!; naive_solver|]. intros (a' & l' & o' & Hf' & Hin & Ha' & [?|[?|[= -> ->]]]); [exists a', l', o'; by auto..|].
      rewrite (created_fun created l o' o) in Ha' by (done || apply Hok). congruence.
  - destruct al as [al|]; [|done]. destruct Hal as (_ & _ & _ & ?). by apply cf_valid_insert; [split|].
Qed.

Lemma total_prefix created created' gone a : created_ok (created ++ created') → total (of_address a (unspent created gone)) ≤ total (of_address a (unspent (created ++ created') gone)).
Proof.
  intros [_ Hok]. rewrite unspent_app, of_address_app, total_app. apply Forall_app in Hok as [_ Hok]. rewrite Forall_forall in Hok.
  assert (0 ≤ total (of_address a (unspent created' gone))); [|lia]. apply total_nonneg, Forall_forall. intros e He. apply list_elem_of_filter in He as [_ He].
  apply elem_of_unspent in He as [He _]. by apply Hok.
Qed.

Lemma total_gone created gone gone' a : created_ok created → total (of_address a (unspent created (gone ++ gone'))) ≤ total (of_address a (unspent created gone)).
Proof.
  intros [_ Hok]. induction Hok as [|e l [_ He] _ IH]; [done|]. change (e :: l) with ([e] ++ l). rewrite !unspent_app, !of_address_app, !total_app.
  assert (total (of_address a (unspent [e] (gone ++ gone'))) ≤ total (of_address a (unspent [e] gone))); [|lia].
  assert (Hv : 0 ≤ zatoshis (value e.2)) by (by apply contains_nonneg in He as [? _]).
  unfold of_address, unspent, total. rewrite !filter_cons, !filter_nil. destruct (decide (e.1 ∉ gone ++ gone')) as [H1|H1], (decide (e.1 ∉ gone)) as [H2|H2]; [done|set_solver|..|done].
  rewrite filter_nil, filter_cons, filter_nil. case_decide; cbn; lia.
Qed.

Lemma created_ok_prefix created created' : created_ok (created ++ created') → created_ok created.
Proof. intros [Hn Hok]. rewrite fmap_app, NoDup_app in Hn. apply Forall_app in Hok as [Hok _]. by destruct Hn as (Hn & _ & _). Qed.

(** *** The batches *)

Section Batch.
Context (stored : Address → option (AddressBalanceLocationInner NonNegative)) (changed : Address → Prop).
Hypothesis (Hstored : ∀ a s, stored a = Some s → entry_ok s).

(** The state of a batch, with the balances of the updates. *)
Record batch_ok created gone spent (self : TransparentCfs) (upd : AddressBalanceLocationUpdates) : Prop := {
  bo_created : created_ok created;
  bo_spent : spent.*1 ⊆ created.*1;
  bo_updates : updates_ok network stored changed upd;
  bo_view : ∀ a, address_valid network a → view stored upd a = balance_spec created gone a;
  bo_unspent_index : unspent_index created gone self;
  bo_spent_index : spent_index created spent self;
}.

Definition outputs_of (l : list (OutputLocation * Utxo)) : list Created := (λ e, (e.1, output e.2)) <$> l.

Lemma view_updated created gone created' gone' upd upd' a b : updated network stored changed upd upd' a b →
  (∀ a, address_valid network a → view stored upd a = balance_spec created gone a) →
  balance_spec created' gone' a = Some b → (∀ a', a' ≠ a → balance_spec created' gone' a' = balance_spec created gone a') →
  ∀ a', address_valid network a' → view stored upd' a' = balance_spec created' gone' a'.
Proof.
  intros (_ & Hb & Hne) Hv Hs Hs' a' Ha'. destruct (decide (a' = a)) as [->|Hx]; [by rewrite Hb|]. rewrite Hne, Hs' by done. by apply Hv.
Qed.

Lemma new_output_Ok created gone spent self upd l u : batch_ok created gone spent self upd →
  let created' := created ++ [(l, output u)] in
  created_ok created' → l ∉ gone → (∀ a, address (output u) network = Some a → changed a ∧ total (of_address a (unspent created' gone)) ≤ MAX_MONEY) →
  ∃ self' upd', prepare_new_transparent_outputs_batch network self upd [(l, u)] = Ok (self', upd') ∧
    cf_balance_by_transparent_addr self' = cf_balance_by_transparent_addr self ∧ batch_ok created' gone spent self' upd'.
Proof.
  intros [Hok Hsp Hupd Hview Hui Hsi] created' Hok' Hl Ha. destruct (created_snoc _ _ _ Hok') as (_ & _ & Hlv & Ho).
  pose proof (unspent_create created gone self l (output u) Hok' Hl Hui) as Hui'. pose proof (spent_create created spent self l (output u) Hok' Hsp Hsi) as Hsi'. fold created' in Hui', Hsi'.
  assert (Hsp' : spent.*1 ⊆ created'.*1) by (subst created'; set_solver).
  unfold prepare_new_transparent_outputs_batch. cbn [foldM]. unfold output_address_location in Hui', Hsi'. destruct (address (output u) network) as [a|] eqn:Ea.
  - destruct (Ha a eq_refl) as [Hch Hmax]. pose proof (address_valid_spec network _ _ Ea) as Hav.
    pose proof (balance_create created gone l (output u) a Hok Hl Ho Ea) as Hb. fold created' in Hb.
    destruct (balances_receive_Ok network stored changed Hstored upd a l (output u)) as (upd' & Hr & Hu); [done..| |].
    { rewrite (Hview a Hav). unfold balance_spec in *. destruct (first_location created' a); [|done]. injection Hb as Hb. apply (f_equal bal_amount) in Hb.
      destruct (first_location created a); cbn in Hb; unfold amount_of; cbn; lia. }
    rewrite (Hview a Hav) in Hr, Hu. rewrite Hr, !Ok_bind. cbn [mbind option_bind] in Hui', Hsi'. eexists _, _. split; [done|]. split; [done|].
    assert (Hf : first_location created' a = Some (bal_location (received_balance (balance_spec created gone a) l (zatoshis (value (output u)))))).
    { unfold balance_spec at 1 in Hb. destruct (first_location created' a); [|done]. injection Hb as <-. done. }
    rewrite Hf in Hui', Hsi'. split; [done|done|apply Hu| |exact Hui'|exact Hsi'].
    eapply view_updated; [exact Hu|done|done|]. intros a' Hne. apply balance_create_other. congruence.
  - rewrite !Ok_bind. eexists _, _. split; [done|]. split; [done|]. split; [done..| |exact Hui'|exact Hsi'].
    intros a Hav. rewrite (Hview a Hav). symmetry. apply balance_create_other. congruence.
Qed.

Lemma new_outputs_Ok news created gone spent self upd : batch_ok created gone spent self upd →
  let created' := created ++ outputs_of news in
  created_ok created' → (∀ e, e ∈ news → e.1 ∉ gone) →
  (∀ e a, e ∈ news → address (output e.2) network = Some a → changed a ∧ total (of_address a (unspent created' gone)) ≤ MAX_MONEY) →
  ∃ self' upd', prepare_new_transparent_outputs_batch network self upd news = Ok (self', upd') ∧
    cf_balance_by_transparent_addr self' = cf_balance_by_transparent_addr self ∧ batch_ok created' gone spent self' upd'.
Proof.
  revert created self upd. induction news as [|[l u] news IH]; intros created self upd Hb created' Hok Hg Ha.
  { subst created'. rewrite app_nil_r. by exists self, upd. }
  assert (Hc : created' = (created ++ [(l, output u)]) ++ outputs_of news) by (subst created'; unfold outputs_of; by rewrite fmap_cons, cons_middle, app_assoc).
  clearbody created'. subst created'.
  destruct (new_output_Ok created gone spent self upd l u) as (self1 & upd1 & H1 & Hbal1 & Hb1); [done|by eapply created_ok_prefix|apply (Hg (l, u)); by left| |].
  { intros a Hau. destruct (Ha (l, u) a) as [Hc Hm]; [by left|done|]. split; [done|]. etrans; [|exact Hm]. by apply total_prefix. }
  destruct (IH _ self1 upd1 Hb1) as (self2 & upd2 & H2 & Hbal2 & Hb2); [exact Hok|intros e He; apply Hg; by right|intros e a He; apply Ha; by right|].
  exists self2, upd2. rewrite Hbal2. split_and!; [|done|done]. unfold prepare_new_transparent_outputs_batch in *.
  rewrite (foldM_app _ _ [(l, u)] news), H1, Ok_bind. exact H2.
Qed.

(** *** Outputs that take a balance over the supply *)

Lemma new_output_inserting l u self upd self' upd' : inserting upd →
  prepare_new_transparent_outputs_batch network self upd [(l, u)] = Ok (self', upd') → inserting upd'.
Proof.
  unfold prepare_new_transparent_outputs_batch. cbn [foldM]. intros Hi ([s1 upd1] & H & [= <- <-])%bind_Ok. apply bind_Ok in H as ([s2 upd2] & H & [= _ <-]).
  destruct (address (output u) network); [|by injection H as _ <-]. apply bind_Ok in H as ([upd3 x] & H & [= _ <-]).
  exact (balances_receive_inserting _ _ _ _ _ Hi H).
Qed.

Lemma new_output_panic created gone spent self upd l u a : batch_ok created gone spent self upd → inserting upd →
  let created' := created ++ [(l, output u)] in
  created_ok created' → l ∉ gone → address (output u) network = Some a → changed a →
  MAX_MONEY < total (of_address a (unspent created' gone)) → prepare_new_transparent_outputs_batch network self upd [(l, u)] = Panic.
Proof.
  intros [Hok Hsp Hupd Hview _ _] Hi created' Hok' Hl Ea Hch Hmax. destruct (created_snoc _ _ _ Hok') as (_ & _ & _ & Ho).
  pose proof (address_valid_spec network _ _ Ea) as Hav. pose proof (balance_create created gone l (output u) a Hok Hl Ho Ea) as Hb. fold created' in Hb.
  unfold prepare_new_transparent_outputs_batch. cbn [foldM]. rewrite Ea, (balances_receive_panic network stored changed upd a l (output u) Hi Hupd Hch Ho); [done|].
  rewrite (Hview a Hav). unfold balance_spec in *. destruct (first_location created' a); [|done]. injection Hb as Hb. apply (f_equal bal_amount) in Hb.
  destruct (first_location created a); cbn in Hb; unfold amount_of; cbn; lia.
Qed.

Lemma of_address_other created gone l o a : address o network ≠ Some a → of_address a (unspent (created ++ [(l, o)]) gone) = of_address a (unspent created gone).
Proof.
  intros Ha. rewrite unspent_app, of_address_app. assert (of_address a (unspent [(l, o)] gone) = []) as ->; [|by rewrite app_nil_r].
  unfold unspent, of_address. rewrite filter_cons. destruct (decide _); rewrite ?filter_cons, !filter_nil; [|done]. by rewrite decide_False.
Qed.

Lemma new_outputs_panic news created gone spent self upd a : batch_ok created gone spent self upd → inserting upd →
  let created' := created ++ outputs_of news in
  created_ok created' → (∀ e, e ∈ news → e.1 ∉ gone) → (∀ e a, e ∈ news → address (output e.2) network = Some a → changed a) →
  total (of_address a (unspent created gone)) ≤ MAX_MONEY < total (of_address a (unspent created' gone)) →
  prepare_new_transparent_outputs_batch network self upd news = Panic.
Proof.
  revert created self upd a. induction news as [|[l u] news IH]; intros created self upd a Hb Hi created' Hok Hg Ha Hmax.
  { subst created'. rewrite app_nil_r in Hmax. lia. }
  assert (Hc : created' = (created ++ [(l, output u)]) ++ outputs_of news) by (subst created'; unfold outputs_of; by rewrite fmap_cons, cons_middle, app_assoc).
  clearbody created'. subst created'. pose proof (created_ok_prefix _ _ Hok) as Hok1. assert (Hl : l ∉ gone) by (apply (Hg (l, u)); by left).
  change ((l, u) :: news) with ([(l, u)] ++ news). unfold prepare_new_transparent_outputs_batch in *. rewrite foldM_app.
  fold (prepare_new_transparent_outputs_batch network self upd [(l, u)]).
  assert (Hcase : (∀ a', address (output u) network = Some a' → total (of_address a' (unspent (created ++ [(l, output u)]) gone)) ≤ MAX_MONEY) ∨
    ∃ a', address (output u) network = Some a' ∧ MAX_MONEY < total (of_address a' (unspent (created ++ [(l, output u)]) gone))).
  { destruct (address (output u) network) as [a'|]; [|by left]. destruct (Z.le_gt_cases (total (of_address a' (unspent (created ++ [(l, output u)]) gone))) MAX_MONEY).
    - left. by intros ? [= <-].
    - right. by exists a'. }
  destruct Hcase as [Hfit|(a' & Ea & Hover)].
  - destruct (new_output_Ok created gone spent self upd l u) as (self1 & upd1 & H1 & Hbal1 & Hb1); [done|done|done| |].
    { intros a' Ea'. split; [apply (Ha (l, u)); [by left|done]|by apply Hfit]. }
    pose proof (new_output_inserting _ _ _ _ _ _ Hi H1) as Hi1. rewrite H1, Ok_bind.
    apply (IH _ self1 upd1 a Hb1 Hi1); [done|intros e He; apply Hg; by right|intros e a' He; apply Ha; by right|]. split; [|apply Hmax].
    destruct (decide (address (output u) network = Some a)) as [Ea|Ea]; [by apply Hfit|]. rewrite of_address_other by done. apply Hmax.
  - rewrite (new_output_panic created gone spent self upd l u a'); [done..|apply (Ha (l, u)); [by left|done]|done].
Qed.

Lemma spent_output_Ok created gone spent self upd l u : batch_ok created gone spent self upd → (l, output u) ∈ unspent created gone →
  (∀ a, address (output u) network = Some a → changed a) →
  ∃ self' upd', prepare_spent_transparent_outputs_batch network self upd [(l, u)] = Ok (self', upd') ∧
    cf_balance_by_transparent_addr self' = cf_balance_by_transparent_addr self ∧ batch_ok created (gone ++ [l]) spent self' upd'.
Proof.
  intros [Hok Hsp Hupd Hview Hui Hsi] Hin Ha. pose proof (unspent_remove created gone self l (output u) Hok Hin Hui) as Hui'.
  pose proof (proj1 (elem_of_unspent _ _ _) Hin) as [Hc _]. assert (Ho : amount_ok (value (output u)) = true) by (destruct Hok as [_ Hok]; rewrite Forall_forall in Hok; apply (Hok _ Hc)).
  unfold prepare_spent_transparent_outputs_batch. cbn [foldM]. unfold output_address_location in Hui'. destruct (address (output u) network) as [a|] eqn:Ea.
  - pose proof (address_valid_spec network _ _ Ea) as Hav. destruct (first_location_Some created a l _ Hc Ea) as [al Hal]. cbn [mbind option_bind] in Hui'. rewrite Hal in Hui'.
    destruct (balance_spec created gone a) as [b|] eqn:Eb; [|unfold balance_spec in Eb; by rewrite Hal in Eb].
    destruct (balance_spend created gone l (output u) a b) as [Hb Hmin]; [done..|].
    destruct (balances_spend_Ok network stored changed Hstored upd a b (output u)) as (upd' & Hr & Hu); [done|by apply Ha|done|done|by rewrite Hview|done|].
    rewrite Hr, !Ok_bind. eexists _, _. split; [done|]. split; [done|].
    assert (bal_location b = al) as ->. { unfold balance_spec in Eb. rewrite Hal in Eb. cbn in Eb. by simplify_eq. }
    split; [done|done|apply Hu| |exact Hui'|].
    + eapply view_updated; [exact Hu|done|done|]. intros a' Hne. apply (balance_spend_other _ _ _ (output u)); [done..|congruence].
    + destruct Hsi as [S1 S2 S3]. by split.
  - rewrite !Ok_bind. eexists _, _. split; [done|]. split; [done|]. split; [done|done|done| |exact Hui'|destruct Hsi as [S1 S2 S3]; by split].
    intros a Hav. rewrite (Hview a Hav). symmetry. apply (balance_spend_other _ _ _ (output u)); [done..|congruence].
Qed.

Lemma spent_outputs_Ok l created gone spent self upd : batch_ok created gone spent self upd → NoDup l.*1 → (∀ e, e ∈ outputs_of l → e ∈ unspent created gone) →
  (∀ e a, e ∈ l → address (output e.2) network = Some a → changed a) →
  ∃ self' upd', prepare_spent_transparent_outputs_batch network self upd l = Ok (self', upd') ∧
    cf_balance_by_transparent_addr self' = cf_balance_by_transparent_addr self ∧ batch_ok created (gone ++ l.*1) spent self' upd'.
Proof.
  revert gone self upd. induction l as [|[x u] l IH]; intros gone self upd Hb Hn Hg Ha; [rewrite app_nil_r; by exists self, upd|].
  rewrite fmap_cons in Hn. apply NoDup_cons in Hn as [Hx Hn]. cbn [fst] in Hx.
  destruct (spent_output_Ok created gone spent self upd x u) as (self1 & upd1 & H1 & Hbal1 & Hb1); [done|apply Hg; by left|intros a; apply (Ha (x, u)); by left|].
  destruct (IH _ self1 upd1 Hb1) as (self2 & upd2 & H2 & Hbal2 & Hb2); [done| |intros e a He; apply Ha; by right|].
  { intros e He. specialize (Hg e ltac:(by right)). apply elem_of_unspent in Hg as [Hc Hg]. apply elem_of_unspent. split; [done|].
    rewrite elem_of_app, list_elem_of_singleton. intros [?|He']; [done|]. apply Hx. rewrite <- He'. apply list_elem_of_fmap in He as (e' & -> & He). exact (list_elem_of_fmap_2 fst l e' He). }
  exists self2, upd2. rewrite Hbal2. rewrite fmap_cons, cons_middle, app_assoc. split_and!; [|done|done]. unfold prepare_spent_transparent_outputs_batch in *.
  rewrite (foldM_app _ _ [(x, u)] l), H1, Ok_bind. exact H2.
Qed.

(** The spends of transactions: [spends] lists the outpoints of a transaction with the outputs and their locations. *)
Lemma spending_tx_Ok t (by_outpoint : gmap OutPoint Utxo) (out_loc : gmap OutPoint OutputLocation) outpoints (locs : list OutputLocation) created gone spent self upd tx :
  batch_ok created gone spent self upd → tx_loc_valid t → spent_outpoints tx = outpoints → NoDup (spent.*1 ++ locs) →
  Forall2 (λ p l, ∃ u, by_outpoint !! p = Some u ∧ out_loc !! p = Some l ∧ (l, output u) ∈ created ∧ ∀ a, address (output u) network = Some a → changed a) outpoints locs →
  ∃ self', prepare_spending_transparent_tx_ids_batch network t by_outpoint out_loc upd self tx = Ok self' ∧
    cf_balance_by_transparent_addr self' = cf_balance_by_transparent_addr self ∧ batch_ok created gone (spent ++ ((λ l, (l, t)) <$> locs)) self' upd.
Proof.
  intros Hb Ht Htx Hn Hl. unfold prepare_spending_transparent_tx_ids_batch. rewrite Htx. clear tx Htx. revert spent self Hb Hn.
  induction Hl as [|p l outpoints locs (u & Hu & Hp & Hc & Hch) _ IH]; intros spent self Hb Hn; [rewrite app_nil_r; by exists self|].
  cbn [foldM]. rewrite Hu, Hp. cbn [expect]. rewrite !Ok_bind. destruct Hb as [Hok Hsp Hupd Hview Hui Hsi].
  rewrite cons_middle, app_assoc in Hn. pose proof Hn as Hn1. rewrite NoDup_app in Hn1. destruct Hn1 as (Hn1 & _). rewrite NoDup_app in Hn1. destruct Hn1 as (_ & Hl & _).
  pose proof (spent_add created spent self l t (output u) Hok Hc ltac:(intros Hx; apply (Hl l Hx); by left) Ht Hsi) as Hsi'.
  assert (Hb' : batch_ok created gone (spent ++ [(l, t)]) (with_spent self l t (output_address_location created (output u))) upd).
  { split; [done| |done|done| |done].
    - rewrite fmap_app. intros x [Hx|Hx%list_elem_of_singleton]%elem_of_app; [by apply Hsp|]. subst x. by apply (list_elem_of_fmap_2 fst _ (l, output u)).
    - destruct Hui as [U1 U2 U3]. by split. }
  destruct (IH _ _ Hb') as (self' & Hf & Hbal & Hr); [by rewrite fmap_app|]. exists self'. rewrite Hbal. rewrite fmap_cons, cons_middle, app_assoc. split_and!; [|done|done].
  rewrite <- Hf. unfold with_spent, output_address_location. destruct (address (output u) network) as [a|] eqn:Ea; [|by rewrite !Ok_bind].
  rewrite (balances_location_view network stored changed upd a Hupd (Hch a eq_refl)), (Hview a (address_valid_spec network _ _ Ea)).
  destruct (first_location_Some created a l _ Hc Ea) as [al Hal]. unfold balance_spec. cbn [mbind option_bind]. rewrite Hal. cbn [fmap option_fmap option_map expect bal_location]. by rewrite !Ok_bind.
Qed.

End Batch.
End Index.
