(* ===== verification/ChainIndex.v ===== *)
(** * The data of a finalized chain

    The specification of the database of [FinalizedDb.v] is the list of the blocks that were written to it: its transactions, outputs and spends with their
    locations, in the order of the database. [valid_next] is what the checks of a block and of its chain guarantee about the next block, [balances_fit] what the update of the balances needs and no check guarantees, and [blocks_ok] and
    [transparent_ok] say what the column families hold. The batch of the blocks and transactions, and the outputs that a block creates and spends. *)

From S2P Require Import Prelude Height Amount Serialization ValueBalance Network Transaction Merkle TransactionCodec Reversible Transfers TreeIndex Ledger SpendChecks ContextChecks Chain DiskFormat DiskDb FinalizedDb TransparentIndex.

(** ** The order of locations *)

Definition tx_loc_lt (a b : TransactionLocation) : Prop :=
  tx_loc_height a < tx_loc_height b ∨ (tx_loc_height a = tx_loc_height b ∧ tx_loc_index a < tx_loc_index b).
Definition out_loc_lt (a b : OutputLocation) : Prop :=
  tx_loc_lt (transaction_loc a) (transaction_loc b) ∨ (transaction_loc a = transaction_loc b ∧ output_index a < output_index b).

Lemma tx_loc_cmp_spec a b : match tx_loc_cmp a b with Lt => tx_loc_lt a b | Eq => a = b | Gt => tx_loc_lt b a end.
Proof.
  destruct a as [h i], b as [h' i']. unfold tx_loc_cmp, tx_loc_lt, then_cmp. cbn [tx_loc_height tx_loc_index].
  destruct (Z.compare_spec h h'); [destruct (Z.compare_spec i i')|..]; subst; auto.
Qed.
Lemma out_loc_cmp_spec a b : match out_loc_cmp a b with Lt => out_loc_lt a b | Eq => a = b | Gt => out_loc_lt b a end.
Proof.
  destruct a as [t j], b as [t' j']. unfold out_loc_cmp, out_loc_lt. cbn [transaction_loc output_index]. pose proof (tx_loc_cmp_spec t t') as H.
  destruct (tx_loc_cmp t t'); cbn [then_cmp]; [subst; destruct (Z.compare_spec j j'); subst; auto|auto..].
Qed.
Lemma tx_loc_lt_trans a b c : tx_loc_lt a b → tx_loc_lt b c → tx_loc_lt a c.
Proof. unfold tx_loc_lt. lia. Qed.
Lemma tx_loc_lt_irrefl a : ¬ tx_loc_lt a a.
Proof. unfold tx_loc_lt. lia. Qed.
Lemma out_loc_lt_trans a b c : out_loc_lt a b → out_loc_lt b c → out_loc_lt a c.
Proof.
  unfold out_loc_lt. intros [H1|[E1 H1]] [H2|[E2 H2]]; [left; by eapply tx_loc_lt_trans|left; by rewrite <- E2|left; by rewrite E1|right; split; [congruence|lia]].
Qed.
Lemma out_loc_lt_irrefl a : ¬ out_loc_lt a a.
Proof. intros [H|[_ H]]; [by eapply tx_loc_lt_irrefl|lia]. Qed.
Lemma tx_loc_cmp_le a b : tx_loc_cmp a b ≠ Gt ↔ a = b ∨ tx_loc_lt a b.
Proof.
  pose proof (tx_loc_cmp_spec a b) as H. destruct (tx_loc_cmp a b); [split; [auto|done]..|]. split; [done|].
  intros [->|Hlt] _; [|pose proof (tx_loc_lt_trans _ _ _ H Hlt) as H']; by eapply tx_loc_lt_irrefl.
Qed.
Lemma loc_le_spec {A} (p q : OutputLocation * A) : loc_le p q ↔ p.1 = q.1 ∨ out_loc_lt p.1 q.1.
Proof.
  unfold loc_le. pose proof (out_loc_cmp_spec p.1 q.1) as H. destruct (out_loc_cmp p.1 q.1); [split; [auto|done]..|]. split; [done|].
  intros [He|Hlt] _; [rewrite He in H|pose proof (out_loc_lt_trans _ _ _ H Hlt) as H']; by eapply out_loc_lt_irrefl.
Qed.
#[export] Instance loc_le_trans {A} : Transitive (loc_le (A := A)).
Proof. intros p q r. rewrite !loc_le_spec. intros [E1|H1] [E2|H2]; [left; congruence|right; by rewrite E1|right; by rewrite <- E2|right; by eapply out_loc_lt_trans]. Qed.
#[export] Instance loc_le_total {A} : Total (loc_le (A := A)).
Proof. intros p q. rewrite !loc_le_spec. pose proof (out_loc_cmp_spec p.1 q.1) as H. destruct (out_loc_cmp p.1 q.1); auto. Qed.

(** Entries in the order of their locations. *)
Definition sorted_outputs {A} (l : list (OutputLocation * A)) : Prop := StronglySorted (λ p q, out_loc_lt p.1 q.1) l.

Lemma sorted_outputs_NoDup {A} (l : list (OutputLocation * A)) : sorted_outputs l → NoDup l.*1.
Proof.
  induction 1 as [|p l _ IH Hp]; [constructor|]. apply NoDup_cons. split; [|done]. intros (q & Hq & Hin)%list_elem_of_fmap. rewrite Forall_forall in Hp.
  specialize (Hp q Hin). rewrite Hq in Hp. by eapply out_loc_lt_irrefl.
Qed.

Lemma sorted_outputs_le {A} (l : list (OutputLocation * A)) : sorted_outputs l → StronglySorted loc_le l.
Proof.
  induction 1 as [|p l _ IH Hp]; [constructor|]. constructor; [done|]. eapply Forall_impl; [exact Hp|]. intros q Hq. apply loc_le_spec. by right.
Qed.

Lemma by_out_loc_perm {A} (l : list (OutputLocation * A)) : NoDup l.*1 → by_out_loc l ≡ₚ l.
Proof.
  intros Hn. unfold by_out_loc. rewrite merge_sort_Permutation, map_to_list_to_map by (by rewrite fmap_reverse, reverse_Permutation). apply reverse_Permutation.
Qed.

(** Sorting entries gives the list of them that is in order. *)
Lemma by_out_loc_sorted {A B} (f : A → B) (l : list (OutputLocation * A)) (k : list (OutputLocation * B)) : sorted_outputs k → (λ e, (e.1, f e.2)) <$> l ≡ₚ k →
  (λ e, (e.1, f e.2)) <$> by_out_loc l = k.
Proof.
  intros Hk Hp. assert (Hn : NoDup l.*1).
  { apply sorted_outputs_NoDup in Hk. rewrite <- Hp in Hk. rewrite <- list_fmap_compose in Hk. exact Hk. }
  apply (StronglySorted_unique_strong loc_le).
  - intros p q Hp' Hq. rewrite !loc_le_spec. rewrite by_out_loc_perm, Hp in Hp' by done. intros [He|H1] [He'|H2]; [|rewrite He in H2; by destruct (out_loc_lt_irrefl q.1)|rewrite He' in H1; by destruct (out_loc_lt_irrefl p.1)|].
    + apply sorted_outputs_NoDup in Hk. apply list_elem_of_lookup in Hp' as [i Hi], Hq as [j Hj].
      assert (i = j) as -> by (eapply (NoDup_lookup k.*1); [done|rewrite list_lookup_fmap, Hi; done|rewrite list_lookup_fmap, Hj; cbn; by rewrite He']). congruence.
    + destruct (out_loc_lt_irrefl p.1). by eapply out_loc_lt_trans.
  - pose proof (StronglySorted_merge_sort loc_le (map_to_list (list_to_map (M := gmap OutputLocation A) (reverse l)))) as Hs. fold (by_out_loc l) in Hs.
    induction Hs as [|p r Hs IH Hr]; [constructor|]. rewrite fmap_cons. constructor; [done|]. rewrite Forall_fmap. eapply Forall_impl; [exact Hr|]. done.
  - by apply sorted_outputs_le.
  - by rewrite by_out_loc_perm.
Qed.

Section Spec.
Context `{Env : !ChainEnv, SP : !ScriptParser}.
Implicit Types (b : FinalizedBlock) (bs : list FinalizedBlock).

(** ** The data of a chain *)

(** Transactions with their locations and hashes. *)
Abbreviation TxEntry := (TransactionLocation * (Transaction * Hash))%type.
Definition entry_hash (e : TxEntry) : Hash := e.2.2.
Definition block_txs b : list TxEntry :=
  imap (λ i e, (mkTxLoc (fb_height b) (Z.of_nat i), e)) (zip (transactions (fb_block b)) (fb_transaction_hashes b)).
Definition chain_txs bs : list TxEntry := bs ≫= block_txs.

(** Outputs with their locations. The outputs of the genesis block can not be spent. *)
Definition tx_outputs (e : TxEntry) : list (OutputLocation * Output) := imap (λ j o, (mkOutLoc e.1 (Z.of_nat j), o)) (outputs e.2.1).
Definition spendable (es : list TxEntry) : list (OutputLocation * Output) := filter (λ e, is_min (tx_loc_height e.1) = false) es ≫= tx_outputs.
Definition block_outputs b : list (OutputLocation * Output) := spendable (block_txs b).
Definition chain_outputs bs : list (OutputLocation * Output) := spendable (chain_txs bs).

(** The location of an outpoint: the transaction with its hash. *)
Definition locate bs (p : OutPoint) : option OutputLocation := (λ e, from_outpoint e.1 p) <$> head (filter (λ e, entry_hash e = outpoint_hash p) (chain_txs bs)).

(** The locations of the outputs that are spent, with the locations of the transactions. *)
Definition tx_spends bs (e : TxEntry) : list (OutputLocation * TransactionLocation) := omap (λ p, (λ l, (l, e.1)) <$> locate bs p) (spent_outpoints e.2.1).
Definition chain_spends bs : list (OutputLocation * TransactionLocation) := chain_txs bs ≫= tx_spends bs.

(** ** The next block *)

(** The number of outputs fits in their indexes, and their values are amounts. *)
Definition outputs_bounded (t : Transaction) : Prop := Z.of_nat (length (outputs t)) ≤ MAX_ON_DISK_OUTPUT_INDEX ∧ Forall (λ o, amount_ok (value o) = true) (outputs t).

Record valid_next (network : Network) bs b : Prop := {
  vn_height : fb_height b = Z.of_nat (length bs) ∧ Z.of_nat (length bs) < MAX_ON_DISK_HEIGHT;
  vn_hash : fb_hash b ∉ fb_hash <$> bs;
  vn_lengths : length (fb_transaction_hashes b) = length (transactions (fb_block b)) ∧ Z.of_nat (length (transactions (fb_block b))) ≤ 2 ^ 16;
  vn_tx_hashes : NoDup (entry_hash <$> chain_txs (bs ++ [b]));
  vn_outputs : Forall outputs_bounded (transactions (fb_block b));
  vn_amounts : Forall tx_ok (transactions (fb_block b)) ∧ amount_ok (default (mkAmount 0) (deferred_value <$> fb_deferred_pool_balance_change b)) = true;
  (** The outputs are those of the transactions, as [new_ordered_outputs] has them. *)
  vn_new_outputs : ∀ p u, fb_new_outputs b !! p = Some u ↔ ∃ j, created_at (zip (transactions (fb_block b)) (fb_transaction_hashes b)) (fb_height b) j p u 0;
  (** Outputs are spent once, after they are created. *)
  vn_spends : Forall (λ p, ∃ l o, locate (bs ++ [b]) p = Some l ∧ (l, o) ∈ chain_outputs (bs ++ [b])) (transactions (fb_block b) ≫= spent_outpoints);
  vn_spent_once : NoDup (chain_spends (bs ++ [b])).*1;
}.

(** The balance of an address, with all the outputs it receives in the block and before the spends of the block. No check of the node bounds it: a block can move
    the same coins many times to an address. *)
Definition balance_with_outputs (network : Network) bs b (a : Address) : Z := total (of_address network a (unspent (chain_outputs (bs ++ [b])) (chain_spends bs).*1)).
Definition balances_fit (network : Network) bs b : Prop := ∀ a, balance_with_outputs network bs b a ≤ MAX_MONEY.

(** ** What the database holds *)

Record txs_ok (es : list TxEntry) (self : BlockCfs) : Prop := {
  bk_tx : ∀ l t, tx_loc_valid l → zs_get (cf_tx_by_loc self) l = Some t ↔ ∃ hash, (l, (t, hash)) ∈ es;
  bk_tx_hash : ∀ l hash, tx_loc_valid l → zs_get (cf_hash_by_tx_loc self) l = Some hash ↔ ∃ t, (l, (t, hash)) ∈ es;
  bk_tx_loc : ∀ hash l, zs_get (cf_tx_loc_by_hash self) hash = Some l ↔ ∃ t, (l, (t, hash)) ∈ es;
  bk_tx_valid : cf_valid TransactionLocation (cf_tx_by_loc self);
}.

Record blocks_ok bs (self : BlockCfs) : Prop := {
  bk_header : ∀ h, height_valid h → zs_get (cf_block_header_by_height self) h = header ∘ fb_block <$> bs !! Z.to_nat h;
  bk_hash : ∀ h, height_valid h → zs_get (cf_hash_by_height self) h = fb_hash <$> bs !! Z.to_nat h;
  bk_height : ∀ hash h, zs_get (cf_height_by_hash self) hash = Some h ↔ ∃ b, b ∈ bs ∧ fb_hash b = hash ∧ fb_height b = h;
  bk_hash_valid : cf_valid Height (cf_hash_by_height self);
  bk_txs : txs_ok (chain_txs bs) self;
}.

Record transparent_ok (network : Network) bs (self : TransparentCfs) : Prop := {
  tr_created : created_ok (chain_outputs bs);
  tr_spent : (chain_spends bs).*1 ⊆ (chain_outputs bs).*1;
  tr_unspent_index : unspent_index network (chain_outputs bs) (chain_spends bs).*1 self;
  tr_spent_index : spent_index network (chain_outputs bs) (chain_spends bs) self;
  tr_entries : ∀ bytes v, cf_balance_by_transparent_addr self !! bytes = Some v → entry_ok v;
  tr_balances : ∀ a, address_valid network a →
    entry <$> zs_get (cf_balance_by_transparent_addr self) a = balance_spec network (chain_outputs bs) (chain_spends bs).*1 a;
}.

(** The heights of the blocks are their positions, and each transaction has a hash. *)
Definition heights_ok bs : Prop := Z.of_nat (length bs) ≤ MAX_ON_DISK_HEIGHT ∧ ∀ i b, bs !! i = Some b → fb_height b = Z.of_nat i ∧
  length (fb_transaction_hashes b) = length (transactions (fb_block b)) ∧ Z.of_nat (length (transactions (fb_block b))) ≤ 2 ^ 16.

(** *** Locations *)

Lemma tx_loc_usize {E} h (i : nat) : Z.of_nat i < 2 ^ 16 → tx_loc_from_usize (E := E) h (Z.of_nat i) = Ok (mkTxLoc h (Z.of_nat i)).
Proof. intros Hi. unfold tx_loc_from_usize. rewrite try_from_fits by (apply fits_spec; cbn; lia). done. Qed.

(** A loop over numbered transactions runs over their locations. *)
Lemma foldM_locations {E St A} (f : St → TransactionLocation → A → Res E St) h l s : Z.of_nat (length l) ≤ 2 ^ 16 →
  foldM (λ s '(i, x), loc ← tx_loc_from_usize h i; f s loc x) s (enumerate l) = foldM (λ s e, f s e.1 e.2) s (imap (λ i x, (mkTxLoc h (Z.of_nat i), x)) l).
Proof.
  unfold enumerate. assert (Hg : ∀ n l s, Z.of_nat (n + length l) ≤ 2 ^ 16 →
    foldM (λ s '(i, x), loc ← tx_loc_from_usize h i; f s loc x) s (imap (λ i x, (Z.of_nat (n + i), x)) l) =
    foldM (λ s e, f s e.1 e.2) s (imap (λ i x, (mkTxLoc h (Z.of_nat (n + i)), x)) l)).
  { clear. intros n l. revert n. induction l as [|x l IH]; intros n s Hl; [done|]. cbn [length] in Hl. cbn [imap foldM]. rewrite tx_loc_usize, Ok_bind by lia.
    cbn [fst snd]. destruct (f s (mkTxLoc h (Z.of_nat (n + 0))) x) as [s'| |]; [|done..]. rewrite !Ok_bind.
    rewrite (imap_ext ((λ i x, (Z.of_nat (n + i), x)) ∘ S) (λ i x, (Z.of_nat (S n + i), x))), (imap_ext ((λ i x, (mkTxLoc h (Z.of_nat (n + i)), x)) ∘ S) (λ i x, (mkTxLoc h (Z.of_nat (S n + i)), x)));
      [apply IH; lia|intros i y _; cbn; by rewrite Nat.add_succ_r..]. }
  exact (Hg 0%nat l s).
Qed.

Lemma elem_of_block_txs b e : e ∈ block_txs b ↔ ∃ i, zip (transactions (fb_block b)) (fb_transaction_hashes b) !! i = Some e.2 ∧ e.1 = mkTxLoc (fb_height b) (Z.of_nat i).
Proof. unfold block_txs. rewrite elem_of_lookup_imap. destruct e as [l x]. naive_solver. Qed.

Lemma zip_length_txs b : (length (zip (transactions (fb_block b)) (fb_transaction_hashes b)) ≤ length (transactions (fb_block b)))%nat.
Proof. rewrite length_zip. lia. Qed.

Lemma block_txs_valid b e : e ∈ block_txs b → height_valid (fb_height b) → Z.of_nat (length (transactions (fb_block b))) ≤ 2 ^ 16 → tx_loc_valid e.1 ∧ tx_loc_height e.1 = fb_height b.
Proof.
  intros (i & Hi & ->)%elem_of_block_txs Hh Hl. apply lookup_lt_Some in Hi. pose proof (zip_length_txs b). split; [|done]. split; [done|]. cbn. lia.
Qed.

Lemma chain_txs_snoc bs b : chain_txs (bs ++ [b]) = chain_txs bs ++ block_txs b.
Proof. unfold chain_txs. by rewrite bind_app, bind_singleton. Qed.
Lemma chain_outputs_snoc bs b : chain_outputs (bs ++ [b]) = chain_outputs bs ++ block_outputs b.
Proof. unfold chain_outputs, block_outputs, spendable. by rewrite chain_txs_snoc, filter_app, bind_app. Qed.

Lemma heights_snoc bs b network : heights_ok bs → valid_next network bs b → heights_ok (bs ++ [b]) ∧ height_valid (fb_height b).
Proof.
  intros [Hl Hh] Hv. destruct (vn_height _ _ _ Hv) as [H1 H2]. split; [split|split; lia].
  - rewrite length_app. cbn. lia.
  - intros i x [Hx|[Hi Hx]]%lookup_app_Some; [by apply Hh|]. apply list_lookup_singleton_Some in Hx as [Hi' <-]. split; [rewrite H1; lia|apply (vn_lengths _ _ _ Hv)].
Qed.

Lemma chain_txs_elem bs e : heights_ok bs → e ∈ chain_txs bs → tx_loc_valid e.1 ∧ 0 ≤ tx_loc_height e.1 < Z.of_nat (length bs).
Proof.
  intros [Hl Hh] (b & Hb & He)%list_elem_of_bind. apply list_elem_of_lookup in He as [i Hi]. destruct (Hh i b Hi) as (H1 & _ & H2). apply lookup_lt_Some in Hi.
  destruct (block_txs_valid b e Hb) as [Hv Hx]; [split; lia|done|]. split; [done|]. rewrite Hx, H1. lia.
Qed.

(** *** Blocks and transactions *)

Definition with_tx (self : BlockCfs) (e : TxEntry) : BlockCfs :=
  mkBlockCfs (cf_block_header_by_height self) (cf_hash_by_height self) (cf_height_by_hash self) (zs_insert (cf_tx_by_loc self) e.1 e.2.1)
    (zs_insert (cf_hash_by_tx_loc self) e.1 e.2.2) (zs_insert (cf_tx_loc_by_hash self) e.2.2 e.1).

Lemma hash_get_insert {V} (cf : Cf Hash V) (k k' : Hash) (v w : V) : zs_get (zs_insert cf k v) k' = Some w ↔ (k = k' ∧ v = w) ∨ (k ≠ k' ∧ zs_get cf k' = Some w).
Proof. apply lookup_insert_Some. Qed.

Lemma with_tx_ok es self e : txs_ok es self → tx_loc_valid e.1 → e.1 ∉ es.*1 → e.2.2 ∉ (entry_hash <$> es) → txs_ok (es ++ [e]) (with_tx self e).
Proof.
  intros [H1 H2 H3 H4] Hv Hl Hh. destruct e as [l [t hash]]. cbn [fst snd] in *.
  assert (Hl' : ∀ x, (l, x) ∉ es) by (intros x Hx; by apply Hl, (list_elem_of_fmap_2 fst _ (l, x))).
  assert (Hh' : ∀ l' t', (l', (t', hash)) ∉ es) by (intros l' t' Hx; by apply Hh, (list_elem_of_fmap_2 entry_hash _ (l', (t', hash)))).
  split; cbn [with_tx cf_tx_by_loc cf_hash_by_tx_loc cf_tx_loc_by_hash fst snd].
  - intros l' t' Hv'. rewrite get_insert_Some, H1 by done. setoid_rewrite elem_of_app. setoid_rewrite list_elem_of_singleton. naive_solver.
  - intros l' h' Hv'. rewrite get_insert_Some, H2 by done. setoid_rewrite elem_of_app. setoid_rewrite list_elem_of_singleton. naive_solver.
  - intros h' l'. rewrite hash_get_insert, H3. setoid_rewrite elem_of_app. setoid_rewrite list_elem_of_singleton. naive_solver.
  - by apply cf_valid_insert.
Qed.

Lemma with_txs_ok es es' self : txs_ok es self → Forall (λ e : TxEntry, tx_loc_valid e.1) es' → NoDup (es ++ es').*1 → NoDup (entry_hash <$> es ++ es') →
  txs_ok (es ++ es') (foldl with_tx self es').
Proof.
  revert es self. induction es' as [|e es' IH]; intros es self Hok Hv Hn Hh; [by rewrite app_nil_r|]. apply Forall_cons in Hv as [He Hv].
  rewrite cons_middle, app_assoc in *. cbn [foldl]. rewrite fmap_app, NoDup_app, fmap_app, NoDup_app in Hn. rewrite fmap_app, NoDup_app, fmap_app, NoDup_app in Hh. apply IH; [|done|by rewrite fmap_app, NoDup_app, fmap_app, NoDup_app..].
  destruct Hn as ((_ & Hn & _) & _), Hh as ((_ & Hh & _) & _). apply with_tx_ok; [done|done|intros Hx; apply (Hn _ Hx); by left|intros Hx; apply (Hh _ Hx); by left].
Qed.

Lemma chain_txs_locations bs : heights_ok bs → NoDup (chain_txs bs).*1.
Proof.
  intros Hb. induction bs as [|b bs IH] using rev_ind; [constructor|]. rewrite chain_txs_snoc, fmap_app. apply NoDup_app.
  assert (Hb' : heights_ok bs). { destruct Hb as [Hl Hb]. rewrite length_app in Hl. split; [lia|]. intros i x Hi. apply Hb. by apply lookup_app_l_Some. }
  split_and!; [by apply IH| |].
  - intros l (e & -> & He)%list_elem_of_fmap (e' & He' & Hx)%list_elem_of_fmap. destruct (chain_txs_elem _ _ Hb' He) as [_ H1]. rewrite He' in H1.
    apply elem_of_block_txs in Hx as (i & _ & Hx). rewrite Hx in H1. cbn in H1. destruct Hb as [_ Hb]. destruct (Hb (length bs) b) as [H2 _]; [by apply list_lookup_middle|]. lia.
  - unfold block_txs. apply NoDup_alt. intros i j l. rewrite !list_lookup_fmap, !list_lookup_imap. destruct (_ !! i), (_ !! j); cbn; [|done..]. intros [= <-] [=]. lia.
Qed.

Lemma with_txs_same es self : let self' := foldl with_tx self es in
  cf_block_header_by_height self' = cf_block_header_by_height self ∧ cf_hash_by_height self' = cf_hash_by_height self ∧ cf_height_by_hash self' = cf_height_by_hash self.
Proof. revert self. induction es as [|e es IH]; intros s; [done|]. cbn [foldl]. by destruct (IH (with_tx s e)) as (-> & -> & ->). Qed.

(** A column family of the heights, with the data of the next block. *)
Lemma height_snoc {V} (cf : Cf Height V) (f : FinalizedBlock → V) bs b h : fb_height b = Z.of_nat (length bs) → height_valid (fb_height b) →
  (∀ h, height_valid h → zs_get cf h = f <$> bs !! Z.to_nat h) → height_valid h →
  zs_get (zs_insert cf (fb_height b) (f b)) h = f <$> (bs ++ [b]) !! Z.to_nat h.
Proof.
  intros Hbh Hbv Hcf Hhv. destruct (decide (h = fb_height b)) as [->|Hne].
  - rewrite get_insert_eq, Hbh, Nat2Z.id, lookup_app_r, Nat.sub_diag by lia. done.
  - rewrite get_insert_ne, Hcf by done. destruct (decide (Z.to_nat h < length bs)%nat); [by rewrite lookup_app_l|].
    rewrite !lookup_ge_None_2; [done|rewrite length_app; cbn; destruct Hhv; lia|lia].
Qed.

Lemma header_batch_fold b self : Z.of_nat (length (transactions (fb_block b))) ≤ 2 ^ 16 →
  prepare_block_header_and_transaction_data_batch self b =
  Ok (foldl with_tx (mkBlockCfs (zs_insert (cf_block_header_by_height self) (fb_height b) (header (fb_block b))) (zs_insert (cf_hash_by_height self) (fb_height b) (fb_hash b))
        (zs_insert (cf_height_by_hash self) (fb_hash b) (fb_height b)) (cf_tx_by_loc self) (cf_hash_by_tx_loc self) (cf_tx_loc_by_hash self)) (block_txs b)).
Proof.
  intros Hlen. unfold prepare_block_header_and_transaction_data_batch. cbn zeta.
  rewrite (foldM_ext _ (λ s '(i, x), l ← tx_loc_from_usize (fb_height b) i; Ok (with_tx s (l, x)))); [|by intros ? [i [t hash]]].
  rewrite (foldM_locations (λ s l x, Ok (with_tx s (l, x)))) by (pose proof (zip_length_txs b); lia). rewrite <- foldM_pure. apply foldM_ext. by intros ? [].
Qed.

Lemma block_batch_Ok network bs b self : heights_ok bs → valid_next network bs b → blocks_ok bs self →
  ∃ self', prepare_block_header_and_transaction_data_batch self b = Ok self' ∧ blocks_ok (bs ++ [b]) self'.
Proof.
  intros Hh Hv [K1 K2 K3 K4 K5]. destruct (heights_snoc bs b network Hh Hv) as [Hh' Hbv]. destruct (vn_height _ _ _ Hv) as [Hbh _]. destruct (vn_lengths _ _ _ Hv) as [_ Hlen].
  rewrite header_batch_fold by done. eexists. split; [done|]. set (self0 := mkBlockCfs _ _ _ _ _ _). destruct (with_txs_same (block_txs b) self0) as (Hs1 & Hs2 & Hs3).
  split; rewrite ?Hs1, ?Hs2, ?Hs3.
  - intros h Hhv. by apply (height_snoc _ (header ∘ fb_block)).
  - intros h Hhv. by apply height_snoc.
  - intros hash h. cbn [self0 cf_height_by_hash]. rewrite hash_get_insert, K3. setoid_rewrite elem_of_app. setoid_rewrite list_elem_of_singleton. pose proof (vn_hash _ _ _ Hv) as Hnew. split.
    + intros [[<- <-]|[Hne (x & Hx & Hx1 & Hx2)]]; [by exists b; auto|exists x; auto].
    + intros (x & [Hx| ->] & Hx1 & Hx2); [right|by left]. split; [|by exists x]. intros <-. apply Hnew. rewrite <- Hx1. by apply list_elem_of_fmap_2.
  - by apply cf_valid_insert.
  - rewrite chain_txs_snoc. apply with_txs_ok; [|apply Forall_forall; intros e He; by apply (block_txs_valid b e He)|rewrite <- chain_txs_snoc; by apply chain_txs_locations|rewrite <- chain_txs_snoc; apply (vn_tx_hashes _ _ _ Hv)].
    destruct K5 as [T1 T2 T3 T4]. by split.
Qed.

(** *** Outputs *)

Lemma StronglySorted_imap {A B} (R : B → B → Prop) (f : nat → A → B) l : (∀ i j x y, (i < j)%nat → R (f i x) (f j y)) → StronglySorted R (imap f l).
Proof.
  revert f. induction l as [|x l IH]; intros f Hf; cbn [imap]; constructor; [apply IH; intros i j y z Hij; apply Hf; lia|].
  apply Forall_forall. intros y (i & z & -> & _)%elem_of_lookup_imap. apply Hf. lia.
Qed.

Definition txs_sorted (es : list TxEntry) : Prop := StronglySorted (λ e e', tx_loc_lt e.1 e'.1) es.

Lemma block_txs_sorted b : txs_sorted (block_txs b).
Proof. apply StronglySorted_imap. intros i j x y Hij. right. cbn. lia. Qed.

Lemma chain_txs_sorted bs : heights_ok bs → txs_sorted (chain_txs bs).
Proof.
  intros Hb. induction bs as [|b bs IH] using rev_ind; [constructor|]. rewrite chain_txs_snoc.
  assert (Hb' : heights_ok bs). { destruct Hb as [Hl Hb]. rewrite length_app in Hl. split; [lia|]. intros i x Hi. apply Hb. by apply lookup_app_l_Some. }
  apply StronglySorted_app_2; [|by apply IH|apply block_txs_sorted]. intros e e' He He'. destruct (chain_txs_elem _ _ Hb' He) as [_ H1].
  apply elem_of_block_txs in He' as (i & _ & He'). rewrite He'. left. cbn. destruct Hb as [_ Hb]. destruct (Hb (length bs) b) as [H2 _]; [by apply list_lookup_middle|]. lia.
Qed.

Lemma elem_of_tx_outputs e x : x ∈ tx_outputs e ↔ ∃ j, outputs e.2.1 !! j = Some x.2 ∧ x.1 = mkOutLoc e.1 (Z.of_nat j).
Proof. unfold tx_outputs. rewrite elem_of_lookup_imap. destruct x. naive_solver. Qed.

Lemma elem_of_spendable es x : x ∈ spendable es ↔ ∃ e, e ∈ es ∧ is_min (tx_loc_height e.1) = false ∧ x ∈ tx_outputs e.
Proof. unfold spendable. rewrite list_elem_of_bind. setoid_rewrite list_elem_of_filter. naive_solver. Qed.

Lemma tx_outputs_sorted es : txs_sorted es → sorted_outputs (es ≫= tx_outputs).
Proof.
  induction 1 as [|e l _ IH He]; [constructor|].
  cbn [mbind list_bind]. apply StronglySorted_app_2; [|apply StronglySorted_imap; intros i j x y Hij; right; cbn; split; [done|lia]|done].
  intros x y (j & _ & Hx)%elem_of_tx_outputs (e' & Hy & Hin)%list_elem_of_bind. apply elem_of_tx_outputs in Hy as (j' & _ & Hy). rewrite Forall_forall in He.
  rewrite Hx, Hy. left. by apply He.
Qed.

Lemma outputs_sorted es : txs_sorted es → sorted_outputs (spendable es).
Proof. intros Hs. by apply tx_outputs_sorted, StronglySorted_filter. Qed.

Lemma chain_outputs_ok bs : heights_ok bs →
  Forall (λ b, Forall outputs_bounded (transactions (fb_block b))) bs →
  created_ok (chain_outputs bs).
Proof.
  intros Hh Hb. split; [by apply sorted_outputs_NoDup, outputs_sorted, chain_txs_sorted|]. apply Forall_forall. intros [l o] (e & He & _ & Ho)%elem_of_spendable.
  apply elem_of_tx_outputs in Ho as (j & Ho & Hl). cbn [fst snd] in *. destruct (chain_txs_elem _ _ Hh He) as [Hv _]. apply list_elem_of_bind in He as (b & He & Hin).
  rewrite Forall_forall in Hb. specialize (Hb b Hin). rewrite Forall_forall in Hb. destruct (Hb e.2.1) as [H1 H2].
  { apply elem_of_block_txs in He as (i & Hi & _). apply list_elem_of_lookup_2 in Hi. destruct (e.2) as [t hash]. by apply elem_of_zip_l in Hi. }
  rewrite Forall_forall in H2. split; [|apply H2; by eapply list_elem_of_lookup_2]. rewrite Hl. split; [done|]. cbn. apply lookup_lt_Some in Ho. lia.
Qed.

(** *** Outpoints *)

Lemma locate_spec bs p l : NoDup (entry_hash <$> chain_txs bs) →
  locate bs p = Some l ↔ ∃ t, (transaction_loc l, (t, outpoint_hash p)) ∈ chain_txs bs ∧ output_index l = outpoint_index p.
Proof.
  intros Hn. unfold locate. set (f := filter _ _). assert (Hf : ∀ e, e ∈ f ↔ e ∈ chain_txs bs ∧ entry_hash e = outpoint_hash p) by (intros e; unfold f; rewrite list_elem_of_filter; tauto).
  assert (Huniq : ∀ e e', e ∈ f → e' ∈ f → e = e').
  { intros e e' [He Hh]%Hf [He' Hh']%Hf. apply list_elem_of_lookup in He as [i Hi], He' as [j Hj].
    assert (i = j) as -> by (eapply (NoDup_lookup (entry_hash <$> chain_txs bs)); [done|rewrite list_lookup_fmap, Hi; done|rewrite list_lookup_fmap, Hj; cbn; by rewrite Hh', Hh]). congruence. }
  split.
  - destruct f as [|e f']; [done|]. intros [= <-]. destruct (proj1 (Hf e)) as [He Hh]; [by left|]. destruct e as [tl [t h]]. exists t. cbn in *. by rewrite <- Hh.
  - intros (t & Hin & Hi). assert (He : (transaction_loc l, (t, outpoint_hash p)) ∈ f) by (by apply Hf). destruct f as [|e f']; [by apply elem_of_nil in He|]. cbn [head fmap option_fmap option_map].
    rewrite <- (Huniq _ e He) by (by left). unfold from_outpoint. cbn [fst]. rewrite <- Hi. by destruct l.
Qed.

Lemma locate_snoc bs b p l : locate bs p = Some l → locate (bs ++ [b]) p = Some l.
Proof. unfold locate. rewrite chain_txs_snoc, filter_app. by destruct (filter _ (chain_txs bs)). Qed.

(** The spends of the chain stay when a block is added. *)
Lemma chain_spends_snoc bs b : Forall (λ e : TxEntry, Forall (λ p, is_Some (locate bs p)) (spent_outpoints e.2.1)) (chain_txs bs) →
  chain_spends (bs ++ [b]) = chain_spends bs ++ (block_txs b ≫= tx_spends (bs ++ [b])).
Proof.
  intros Hl. unfold chain_spends. rewrite chain_txs_snoc, bind_app. f_equal. induction Hl as [|e es He _ IH]; [done|]. cbn [mbind list_bind]. f_equal; [|exact IH].
  unfold tx_spends. clear IH. induction He as [|p ps [l Hp] _ IH]; [done|]. cbn [omap list_omap]. by rewrite (locate_snoc _ _ _ _ Hp), Hp, IH.
Qed.

(** *** The outputs that a block creates and spends *)

Definition utxo_at (l : OutputLocation) (o : Output) : Utxo := utxo (ordered_utxo_new o (tx_loc_height (transaction_loc l)) (tx_loc_index (transaction_loc l))).

Section Next.
Context (network : Network) (bs : list FinalizedBlock) (b : FinalizedBlock).
Hypotheses (Hh : heights_ok bs) (Hv : valid_next network bs b).

Lemma block_hashes_NoDup : NoDup (fb_transaction_hashes b) ∧ ∀ e, e ∈ chain_txs bs → entry_hash e ∉ fb_transaction_hashes b.
Proof.
  pose proof (vn_tx_hashes _ _ _ Hv) as Hn. rewrite chain_txs_snoc, fmap_app in Hn. apply NoDup_app in Hn as (_ & Hd & Hn).
  assert (Heq : entry_hash <$> block_txs b = fb_transaction_hashes b).
  { unfold block_txs. rewrite fmap_imap. destruct (vn_lengths _ _ _ Hv) as [Hl _]. rewrite (imap_ext _ (const snd)) by done. rewrite imap_const. apply snd_zip. lia. }
  rewrite Heq in *. split; [done|]. intros e He Hx. apply (Hd (entry_hash e)); [by apply list_elem_of_fmap_2|done].
Qed.

Lemma tx_hash_indexes_spec hash (i : nat) : fb_transaction_hashes b !! i = Some hash → tx_hash_indexes_of b !! hash = Some (Z.of_nat i).
Proof.
  intros Hi. unfold tx_hash_indexes_of. apply elem_of_list_to_map_1.
  - rewrite fmap_reverse, reverse_Permutation. unfold enumerate. rewrite !fmap_imap, (imap_ext _ (const id)), imap_const, list_fmap_id by done. apply block_hashes_NoDup.
  - apply elem_of_reverse, list_elem_of_fmap. exists (Z.of_nat i, hash). split; [done|]. apply elem_of_lookup_imap. eauto.
Qed.

Lemma block_tx_index tl t hash : (tl, (t, hash)) ∈ block_txs b → ∃ i : nat, fb_transaction_hashes b !! i = Some hash ∧ transactions (fb_block b) !! i = Some t ∧
  tl = mkTxLoc (fb_height b) (Z.of_nat i) ∧ Z.of_nat i < 2 ^ 16.
Proof.
  intros (i & Hi & Htl)%elem_of_block_txs. cbn in *. apply lookup_zip_Some in Hi as [Ht Hi]. exists i. split_and!; [done..|].
  apply lookup_lt_Some in Ht. destruct (vn_lengths _ _ _ Hv) as [_ ?]. lia.
Qed.

Lemma lookup_block_out_loc tl t p : (tl, (t, outpoint_hash p)) ∈ block_txs b → lookup_out_loc (fb_height b) (tx_hash_indexes_of b) p = Ok (from_outpoint tl p).
Proof.
  intros (i & Hi & _ & -> & Hl)%block_tx_index. unfold lookup_out_loc. rewrite (tx_hash_indexes_spec _ i Hi). cbn [expect]. rewrite Ok_bind, tx_loc_usize by done. done.
Qed.

Lemma new_outputs_spec p u : fb_new_outputs b !! p = Some u ↔
  ∃ tl t (k : nat) o, (tl, (t, outpoint_hash p)) ∈ block_txs b ∧ outpoint_index p = Z.of_nat k ∧ outputs t !! k = Some o ∧ u = ordered_utxo_new o (tx_loc_height tl) (tx_loc_index tl).
Proof.
  rewrite (vn_new_outputs _ _ _ Hv). split.
  - intros (j & t & k & o & Ht & Hk & Ho & ->). exists (mkTxLoc (fb_height b) (Z.of_nat j)), t, k, o. split_and!; [|done..]. apply elem_of_block_txs. by exists j.
  - intros (tl & t & k & o & Ht & Hk & Ho & ->). apply elem_of_block_txs in Ht as (j & Hj & Htl). cbn in Hj, Htl. subst tl. exists j, t, k, o. by split_and!.
Qed.

(** The outputs to write, with their locations. *)
Lemma new_outputs_by_loc : ∃ news, collect ((λ '(outpoint, ordered_utxo), location ← lookup_out_loc (fb_height b) (tx_hash_indexes_of b) outpoint;
    Ok (E := Empty_set) (location, utxo ordered_utxo)) <$> map_to_list (fb_new_outputs b)) = Ok news ∧
  outputs_of news ≡ₚ block_txs b ≫= tx_outputs ∧ (utxo <$> (map_to_list (fb_new_outputs b)).*2) = news.*2.
Proof.
  set (loc (p : OutPoint) := ok_value (mkOutLoc (mkTxLoc 0 0) 0) (lookup_out_loc (fb_height b) (tx_hash_indexes_of b) p)).
  assert (Hloc : ∀ p u, (p, u) ∈ map_to_list (fb_new_outputs b) → ∃ tl t (k : nat) o, (tl, (t, outpoint_hash p)) ∈ block_txs b ∧ outpoint_index p = Z.of_nat k ∧ outputs t !! k = Some o ∧
    u = ordered_utxo_new o (tx_loc_height tl) (tx_loc_index tl) ∧ lookup_out_loc (fb_height b) (tx_hash_indexes_of b) p = Ok (loc p) ∧ loc p = mkOutLoc tl (Z.of_nat k)).
  { intros p u (tl & t & k & o & Ht & Hk & Ho & Hu)%elem_of_map_to_list%new_outputs_spec. exists tl, t, k, o. unfold loc. rewrite (lookup_block_out_loc _ _ _ Ht). unfold from_outpoint. rewrite Hk. by split_and!. }
  exists ((λ e, (loc e.1, utxo e.2)) <$> map_to_list (fb_new_outputs b)). split_and!.
  - apply collect_Ok. rewrite <- list_fmap_compose. apply list_fmap_ext. intros i [p u] Hi%list_elem_of_lookup_2. destruct (Hloc p u Hi) as (tl & t & k & o & _ & _ & _ & _ & -> & _). done.
  - unfold outputs_of. rewrite <- list_fmap_compose. apply NoDup_Permutation.
    + apply NoDup_fmap_2_strong; [|apply NoDup_map_to_list]. intros [p u] [p' u'] Hp Hp' [= Hl _]. destruct (Hloc p u Hp) as (tl & t & k & o & H1 & H2 & H3 & H4 & _ & H5).
      destruct (Hloc p' u' Hp') as (tl' & t' & k' & o' & H1' & H2' & H3' & H4' & _ & H5'). cbn [fst] in Hl. rewrite H5, H5' in Hl. injection Hl as <- Hk.
      apply block_tx_index in H1 as (i & Hi & Hti & -> & _). apply block_tx_index in H1' as (i' & Hi' & Hti' & [= Hii]%symmetry & _). apply Nat2Z.inj in Hii as ->.
      assert (p = p') as ->; [destruct p, p'; cbn in *; congruence|]. apply elem_of_map_to_list in Hp, Hp'. congruence.
    + apply (NoDup_fmap_1 fst), sorted_outputs_NoDup, tx_outputs_sorted, block_txs_sorted.
    + intros [l o]. rewrite list_elem_of_fmap, list_elem_of_bind. split.
      * intros ([p u] & [= Hl Ho] & Hp). destruct (Hloc p u Hp) as (tl & t & k & o' & H1 & H2 & H3 & H4 & _ & H5). exists (tl, (t, outpoint_hash p)). split; [|done].
        apply elem_of_tx_outputs. exists k. cbn in *. rewrite Ho, H4, Hl, H5. done.
      * intros ([tl [t hash]] & (k & Ho & Hl)%elem_of_tx_outputs & He). cbn in Ho, Hl. set (p := mkOutPoint hash (Z.of_nat k)). set (u := ordered_utxo_new o (tx_loc_height tl) (tx_loc_index tl)).
        assert (Hp : (p, u) ∈ map_to_list (fb_new_outputs b)) by (apply elem_of_map_to_list, new_outputs_spec; by exists tl, t, k, o).
        exists (p, u). split; [|done]. unfold loc. cbn. rewrite (lookup_block_out_loc tl t p He). cbn. rewrite Hl. done.
  - rewrite <- !list_fmap_compose. done.
Qed.

Lemma block_tx_entry t : t ∈ transactions (fb_block b) → ∃ tl hash, (tl, (t, hash)) ∈ block_txs b.
Proof.
  intros [i Hi]%list_elem_of_lookup. destruct (vn_lengths _ _ _ Hv) as [Hl _]. destruct (lookup_lt_is_Some_2 (fb_transaction_hashes b) i) as [hash Hhash]; [rewrite Hl; by eapply lookup_lt_Some|].
  exists (mkTxLoc (fb_height b) (Z.of_nat i)), hash. apply elem_of_block_txs. exists i. split; [|done]. cbn. apply lookup_zip_Some. done.
Qed.

Hypothesis (Hlocated : Forall (λ e : TxEntry, Forall (λ p, is_Some (locate bs p)) (spent_outpoints e.2.1)) (chain_txs bs)).

Definition block_spends : list (OutputLocation * TransactionLocation) := block_txs b ≫= tx_spends (bs ++ [b]).

(** The outputs that the block spends, which were not spent before. *)
Lemma spent_output p : p ∈ transactions (fb_block b) ≫= spent_outpoints →
  ∃ l o, locate (bs ++ [b]) p = Some l ∧ (l, o) ∈ chain_outputs (bs ++ [b]) ∧ l ∈ block_spends.*1 ∧ l ∉ (chain_spends bs).*1.
Proof.
  intros Hp. pose proof (vn_spends _ _ _ Hv) as Hs. rewrite Forall_forall in Hs. destruct (Hs p Hp) as (l & o & Hl & Ho). exists l, o.
  assert (Hin : l ∈ block_spends.*1).
  { apply list_elem_of_bind in Hp as (t & Hp & (tl & hash & Ht)%block_tx_entry). apply list_elem_of_fmap. exists (l, tl). split; [done|]. apply list_elem_of_bind.
    exists (tl, (t, hash)). split; [|done]. apply list_elem_of_omap. exists p. cbn [snd fst]. by rewrite Hl. }
  split_and!; [done..|]. pose proof (vn_spent_once _ _ _ Hv) as Hn. rewrite chain_spends_snoc, fmap_app in Hn by done. apply NoDup_app in Hn as (_ & Hd & _). intros Hx. by apply (Hd l).
Qed.

(** An output of the block, or of an older one. *)
Lemma output_location_cases p l o : locate (bs ++ [b]) p = Some l → (l, o) ∈ chain_outputs (bs ++ [b]) →
  ((l, o) ∈ chain_outputs bs ∧ ∃ t, (transaction_loc l, (t, outpoint_hash p)) ∈ chain_txs bs ∧ output_index l = outpoint_index p) ∨
  ∃ t (k : nat), (transaction_loc l, (t, outpoint_hash p)) ∈ block_txs b ∧ outputs t !! k = Some o ∧ outpoint_index p = Z.of_nat k ∧ output_index l = Z.of_nat k ∧
    outpoint_hash p ∈ fb_transaction_hashes b.
Proof.
  intros (t & Ht & Hi)%locate_spec Ho; [|apply (vn_tx_hashes _ _ _ Hv)]. destruct (vn_height _ _ _ Hv) as [Hbh _]. rewrite chain_outputs_snoc in Ho. rewrite chain_txs_snoc in Ht.
  apply elem_of_app in Ht as [Ht|Ht], Ho as [Ho|Ho].
  - left. split; [done|]. by exists t.
  - exfalso. destruct (chain_txs_elem _ _ Hh Ht) as [_ H1]. apply elem_of_spendable in Ho as (e & He & _ & (j & _ & Hj)%elem_of_tx_outputs). apply elem_of_block_txs in He as (i & _ & He).
    cbn in *. rewrite Hj, He in H1. cbn in H1. lia.
  - exfalso. apply elem_of_spendable in Ho as (e & He & _ & (j & _ & Hj)%elem_of_tx_outputs). destruct (chain_txs_elem _ _ Hh He) as [_ H1]. apply elem_of_block_txs in Ht as (i & _ & Ht).
    cbn in *. rewrite Hj in Ht. cbn in Ht. rewrite Ht in H1. cbn in H1. lia.
  - right. apply elem_of_spendable in Ho as (e & He & _ & (j & Hj & Hl)%elem_of_tx_outputs). cbn in Hj, Hl. pose proof Ht as Ht0. pose proof He as He0. destruct e as [tl [t' hash']].
    cbn in Hl, Hj. rewrite Hl in Ht0. cbn in Ht0. apply block_tx_index in Ht0 as (i & Hi1 & Hi2 & Hi3 & _), He0 as (i' & Hi1' & Hi2' & Hi3' & _). rewrite Hi3' in Hi3. injection Hi3 as ->%Nat2Z.inj.
    assert (t' = t) as -> by congruence. exists t, j. rewrite Hl in Hi. cbn in Hi. split_and!; [done|done|done|by rewrite Hl|by eapply list_elem_of_lookup_2].
Qed.

Lemma lookup_spent_Ok `{HF : !HashFns, Rocks : !RocksDb} (db : FinalizedDb) p : blocks_ok bs (fin_blocks db) → transparent_ok network bs (fin_transparent db) →
  p ∈ transactions (fb_block b) ≫= spent_outpoints →
  ∃ l o, locate (bs ++ [b]) p = Some l ∧ (l, o) ∈ chain_outputs (bs ++ [b]) ∧ l ∉ (chain_spends bs).*1 ∧ lookup_spent_utxo db b p = Ok (p, l, utxo_at l o).
Proof.
  intros [_ _ _ _ Htx] Htr Hp. destruct (spent_output p Hp) as (l & o & Hl & Ho & _ & Hs). exists l, o. split_and!; [done..|]. unfold lookup_spent_utxo, read_utxo, read_output_location, read_transaction_location.
  destruct (output_location_cases p l o Hl Ho) as [[Hc (t & Ht & Hi)]|(t & k & Ht & Hk & Hpi & Hli & Hbh)].
  - rewrite (proj2 (bk_tx_loc _ _ Htx (outpoint_hash p) (transaction_loc l))) by (by exists t). cbn [fmap option_fmap option_map mbind option_bind Res_bind].
    assert (Hfl : from_outpoint (transaction_loc l) p = l) by (unfold from_outpoint; rewrite <- Hi; by destruct l). rewrite Hfl. unfold read_utxo_by_location.
    assert (Hlv : out_loc_valid l). { destruct (tr_created _ _ _ Htr) as [_ Hok]. rewrite Forall_forall in Hok. apply (Hok _ Hc). }
    rewrite (proj2 (ui_utxo _ _ _ _ (tr_unspent_index _ _ _ Htr) l o Hlv)) by (by apply elem_of_unspent). done.
  - destruct (zs_get (cf_tx_loc_by_hash (fin_blocks db)) (outpoint_hash p)) as [tl|] eqn:E.
    { exfalso. apply (bk_tx_loc _ _ Htx) in E as (t' & Ht'). by apply (proj2 block_hashes_NoDup) in Ht'. }
    rewrite (lookup_block_out_loc _ _ _ Ht). cbn [fmap option_fmap option_map mbind option_bind Res_bind].
    rewrite (proj2 (new_outputs_spec p (ordered_utxo_new o (tx_loc_height (transaction_loc l)) (tx_loc_index (transaction_loc l))))) by (by exists (transaction_loc l), t, k, o).
    cbn [fmap option_fmap option_map expect Res_bind mbind]. unfold from_outpoint. rewrite Hpi, <- Hli. by destruct l.
Qed.

(** The transactions with their locations, and what they spend. *)
Definition numbered_txs : list (TransactionLocation * Transaction) := imap (λ i t, (mkTxLoc (fb_height b) (Z.of_nat i), t)) (transactions (fb_block b)).
Definition out_loc_of (p : OutPoint) : OutputLocation := default (mkOutLoc (mkTxLoc 0 0) 0) (locate (bs ++ [b]) p).

Lemma numbered_txs_fmap : length (fb_transaction_hashes b) = length (transactions (fb_block b)) → (λ e : TxEntry, (e.1, e.2.1)) <$> block_txs b = numbered_txs.
Proof.
  intros Hl. unfold block_txs, numbered_txs. rewrite fmap_imap. rewrite <- (fst_zip (transactions (fb_block b)) (fb_transaction_hashes b)) at 2 by lia.
  rewrite imap_fmap. done.
Qed.
Lemma numbered_txs_spec : (λ e : TxEntry, (e.1, e.2.1)) <$> block_txs b = numbered_txs.
Proof. apply numbered_txs_fmap. apply (vn_lengths _ _ _ Hv). Qed.

Lemma block_spends_spec : block_spends = numbered_txs ≫= λ e, (λ p, (out_loc_of p, e.1)) <$> spent_outpoints e.2.
Proof.
  unfold block_spends. rewrite <- numbered_txs_spec, list_fmap_bind. assert (Hin : ∀ e, e ∈ block_txs b → e.2.1 ∈ transactions (fb_block b)).
  { intros [tl [t hash]] (i & _ & Hi & _)%block_tx_index. by eapply list_elem_of_lookup_2. }
  induction (block_txs b) as [|e es IH]; [done|]. cbn [mbind list_bind]. f_equal; [|apply IH; intros e' He'; apply Hin; by right]. cbn [compose fst snd]. unfold tx_spends.
  assert (Hloc : Forall (λ p, is_Some (locate (bs ++ [b]) p)) (spent_outpoints e.2.1)).
  { apply Forall_forall. intros p Hp. destruct (spent_output p) as (l & o & Hl & _); [apply list_elem_of_bind; exists e.2.1; split; [done|apply Hin; by left]|by exists l]. }
  unfold out_loc_of. clear IH Hin. induction Hloc as [|p ps [l Hp] _ IH]; [done|]. cbn [omap list_omap]. rewrite fmap_cons, IH, Hp. done.
Qed.

Lemma block_spends_locs : block_spends.*1 = out_loc_of <$> (transactions (fb_block b) ≫= spent_outpoints).
Proof.
  rewrite block_spends_spec. assert (Hn : numbered_txs.*2 = transactions (fb_block b)) by (unfold numbered_txs; by rewrite fmap_imap, (imap_ext _ (const id)), imap_const, list_fmap_id by done).
  rewrite <- Hn. clear Hn. induction numbered_txs as [|e es IH]; [done|]. rewrite fmap_cons. cbn [mbind list_bind]. rewrite !fmap_app, IH, <- list_fmap_compose. done.
Qed.

Lemma block_spends_NoDup : NoDup ((chain_spends bs).*1 ++ block_spends.*1).
Proof. rewrite <- fmap_app. unfold block_spends. rewrite <- chain_spends_snoc by done. apply (vn_spent_once _ _ _ Hv). Qed.

Lemma spent_NoDup : NoDup (transactions (fb_block b) ≫= spent_outpoints).
Proof. apply (NoDup_fmap_1 out_loc_of). rewrite <- block_spends_locs. pose proof block_spends_NoDup as Hn. by apply NoDup_app in Hn as (_ & _ & ?). Qed.

(** The output that an outpoint refers to. *)
Definition output_of (p : OutPoint) : Output := default (mkOutput (mkAmount 0) []) (list_to_map (M := gmap OutputLocation Output) (chain_outputs (bs ++ [b])) !! out_loc_of p).
Definition spent_utxo_at (p : OutPoint) : Utxo := utxo_at (out_loc_of p) (output_of p).

Lemma spent_output_spec p : p ∈ transactions (fb_block b) ≫= spent_outpoints →
  (out_loc_of p, output_of p) ∈ chain_outputs (bs ++ [b]) ∧ out_loc_of p ∈ block_spends.*1 ∧ out_loc_of p ∉ (chain_spends bs).*1.
Proof.
  intros Hp. destruct (spent_output p Hp) as (l & o & Hl & Ho & Hb & Hs). assert (out_loc_of p = l) as He by (unfold out_loc_of; by rewrite Hl). unfold output_of. rewrite He.
  destruct (heights_snoc _ _ _ Hh Hv) as [Hh' _]. pose proof (sorted_outputs_NoDup _ (outputs_sorted _ (chain_txs_sorted _ Hh'))) as Hn. fold (chain_outputs (bs ++ [b])) in Hn.
  by rewrite (elem_of_list_to_map_1 _ _ _ Hn Ho).
Qed.

Lemma lookup_spents_Ok `{HF : !HashFns, Rocks : !RocksDb} (db : FinalizedDb) : blocks_ok bs (fin_blocks db) → transparent_ok network bs (fin_transparent db) →
  let ps := transactions (fb_block b) ≫= spent_outpoints in
  collect (lookup_spent_utxo db b <$> ps) = Ok ((λ p, (p, out_loc_of p, spent_utxo_at p)) <$> ps).
Proof.
  intros Hblk Htr ps. apply collect_Ok. rewrite <- list_fmap_compose. apply list_fmap_ext. intros i p Hi%list_elem_of_lookup_2. cbn [compose].
  destruct (lookup_spent_Ok db p Hblk Htr Hi) as (l & o & Hl & Ho & _ & ->). destruct (spent_output_spec p Hi) as [Ho' _]. assert (out_loc_of p = l) as He by (unfold out_loc_of; by rewrite Hl).
  unfold spent_utxo_at. rewrite He in *. destruct (heights_snoc _ _ _ Hh Hv) as [Hh' _].
  by rewrite (created_fun _ l (output_of p) o (sorted_outputs_NoDup _ (outputs_sorted _ (chain_txs_sorted _ Hh'))) Ho' Ho).
Qed.

End Next.

End Spec.
