(* ===== verification/ShieldedIndex.v ===== *)
(** * The shielded indexes of the finalized state

    What the column families of [finalized_state/zebra_db/shielded.rs] hold for a chain of blocks: the nullifiers with the transactions that reveal them, the
    anchors, the note commitment trees, which are stored at the heights where they change, and the subtrees. *)

From S2P Require Import Prelude Height Amount Serialization ValueBalance Network Transaction Merkle TransactionCodec Reversible Transfers TreeIndex Ledger SpendChecks ContextChecks Chain DiskFormat DiskDb FinalizedDb TransparentIndex ChainIndex.

(** ** Nullifiers *)

Section Nullifiers.
Context (f : Transaction → list Hash).

Definition revealed (es : list (TransactionLocation * Transaction)) : list Hash := es ≫= λ e, f e.2.

(** The transaction that reveals each nullifier. *)
Definition nullifiers_ok (es : list (TransactionLocation * Transaction)) (cf : Cf Hash TransactionLocation) : Prop :=
  ∀ n l, zs_get cf n = Some l ↔ ∃ t, (l, t) ∈ es ∧ n ∈ f t.

Definition insert_revealed (cf : Cf Hash TransactionLocation) (es : list (TransactionLocation * Transaction)) : Cf Hash TransactionLocation :=
  foldl (λ cf e, insert_nullifiers cf (f e.2) e.1) cf es.

Lemma insert_nullifiers_spec (cf : Cf Hash TransactionLocation) ns l n m : zs_get (insert_nullifiers cf ns l) n = Some m ↔ (n ∈ ns ∧ l = m) ∨ (n ∉ ns ∧ zs_get cf n = Some m).
Proof.
  unfold insert_nullifiers. revert cf. induction ns as [|x ns IH]; intros cf; cbn [foldl]; [set_solver|]. rewrite IH, hash_get_insert, elem_of_cons. destruct (decide (n ∈ ns)); naive_solver.
Qed.

Lemma revealed_snoc es e : revealed (es ++ [e]) = revealed es ++ f e.2.
Proof. unfold revealed. by rewrite bind_app, bind_singleton. Qed.

Lemma nullifiers_snoc es e cf : NoDup (revealed (es ++ [e])) → nullifiers_ok es cf → nullifiers_ok (es ++ [e]) (insert_nullifiers cf (f e.2) e.1).
Proof.
  rewrite revealed_snoc. intros (_ & Hd & _)%NoDup_app Hok n l. rewrite insert_nullifiers_spec, (Hok n l). setoid_rewrite elem_of_app. setoid_rewrite list_elem_of_singleton. split.
  - intros [[Hn <-]|[_ (t & Ht & Hn)]]; [exists e.2; destruct e; auto|exists t; auto].
  - intros (t & [Ht|Ht] & Hn); [|left; by rewrite <- Ht]. right. split; [|by exists t]. intros Hx. apply (Hd n); [|done]. apply list_elem_of_bind. by exists (l, t).
Qed.

Lemma nullifiers_app es es' cf : NoDup (revealed (es ++ es')) → nullifiers_ok es cf → nullifiers_ok (es ++ es') (insert_revealed cf es').
Proof.
  revert es cf. induction es' as [|e es' IH]; intros es cf Hn Hok; [by rewrite app_nil_r|]. rewrite cons_middle, app_assoc in *. unfold insert_revealed. cbn [foldl]. apply IH; [done|].
  apply nullifiers_snoc; [|done]. unfold revealed in *. rewrite bind_app in Hn. by apply NoDup_app in Hn as [? _].
Qed.

End Nullifiers.

(** ** Trees *)

Section Trees.
Context {B T : Type} `{NT : !NoteTree T Hash} (f : B → T).
Implicit Types (bs : list B) (b : B).

(** The tree of block [h] is written: it is the first one, or differs from the tree before. *)
Definition written bs (h : nat) : bool := (h =? 0)%nat || negb (bool_decide (tree_root ∘ f <$> bs !! pred h = tree_root ∘ f <$> bs !! h)).

Definition trees_ok bs (trees : Cf Height T) : Prop :=
  cf_valid Height trees ∧ ∀ h, height_valid h → zs_get trees h = (if written bs (Z.to_nat h) then f <$> bs !! Z.to_nat h else None).

Definition anchors_ok bs (anchors : Cf Hash unit) : Prop := ∀ r, is_Some (zs_get anchors r) ↔ ∃ b, b ∈ bs ∧ tree_root (f b) = r.

Lemma written_app bs bs' h : (h < length bs)%nat → written (bs ++ bs') h = written bs h.
Proof. intros Hh. unfold written. by rewrite !lookup_app_l by lia. Qed.

(** Whether the tree of the next block is written, given the tree of the last one. *)
Lemma written_last bs b : written (bs ++ [b]) (length bs) = match last bs with Some x => negb (tree_eqb (f x) (f b)) | None => true end.
Proof.
  unfold written. rewrite (list_lookup_middle bs [] b (length bs)) by done. destruct bs as [|x bs _] using rev_ind; [done|]. rewrite last_snoc, length_app, Nat.add_1_r. cbn [Nat.eqb pred orb].
  rewrite <- app_assoc, (list_lookup_middle bs ([] ++ [b]) x) by done. unfold tree_eqb. cbn. f_equal. apply bool_decide_ext. split; [by intros [= ?]|by intros ->].
Qed.

Lemma trees_snoc_written bs b (trees : Cf Height T) (h := Z.of_nat (length bs)) : height_valid h → written (bs ++ [b]) (length bs) = true → trees_ok bs trees →
  trees_ok (bs ++ [b]) (zs_insert trees h (f b)).
Proof.
  intros Hh Hw [Hv Hg]. split; [by apply cf_valid_insert|]. intros h' Hh'. destruct (decide (h' = h)) as [->|Hne].
  - subst h. rewrite get_insert_eq, Nat2Z.id, Hw, list_lookup_middle by done. done.
  - rewrite get_insert_ne, Hg by done. destruct (decide (Z.to_nat h' < length bs)%nat); [by rewrite written_app, lookup_app_l|].
    rewrite !lookup_ge_None_2; [by destruct (written bs (Z.to_nat h')), (written (bs ++ [b]) (Z.to_nat h'))|rewrite length_app; cbn; destruct Hh'; lia|lia].
Qed.

Lemma trees_snoc_same bs b (trees : Cf Height T) : written (bs ++ [b]) (length bs) = false → trees_ok bs trees → trees_ok (bs ++ [b]) trees.
Proof.
  intros Hw [Hv Hg]. split; [done|]. intros h' Hh'. rewrite Hg by done. destruct (decide (Z.to_nat h' < length bs)%nat); [by rewrite written_app, lookup_app_l|].
  destruct (decide (Z.to_nat h' = length bs)) as [->|]; [rewrite Hw, (lookup_ge_None_2 bs) by done; by destruct (written bs (length bs))|].
  rewrite !lookup_ge_None_2; [by destruct (written bs (Z.to_nat h')), (written (bs ++ [b]) (Z.to_nat h'))|rewrite length_app; cbn; lia|lia].
Qed.

Lemma anchors_snoc_written bs b anchors : anchors_ok bs anchors → anchors_ok (bs ++ [b]) (zs_insert anchors (tree_root (f b)) tt).
Proof.
  intros Ha r. unfold zs_get, zs_insert. setoid_rewrite elem_of_app. setoid_rewrite list_elem_of_singleton. rewrite lookup_insert_is_Some'. specialize (Ha r). unfold zs_get in Ha. rewrite Ha.
  change (as_bytes (tree_root (f b))) with (tree_root (f b)). naive_solver.
Qed.

Lemma anchors_snoc_same bs b anchors : written (bs ++ [b]) (length bs) = false → anchors_ok bs anchors → anchors_ok (bs ++ [b]) anchors.
Proof.
  rewrite written_last. destruct (last bs) as [x|] eqn:El; [|done]. intros He%negb_false_iff%bool_decide_eq_true Ha r. rewrite (Ha r). setoid_rewrite elem_of_app. setoid_rewrite list_elem_of_singleton.
  split; [naive_solver|]. intros (y & [?| ->] & Hr); [by exists y|]. exists x. rewrite He. split; [by apply last_Some_elem_of|done].
Qed.
(** Between the heights where it is written, the tree does not change. *)
Lemma unwritten `{NL : !NoteTreeLaws T Hash} bs k n x y : bs !! k = Some x → bs !! (k + n)%nat = Some y → (∀ j, (k < j ≤ k + n)%nat → written bs j = false) → f x = f y.
Proof.
  revert y. induction n as [|n IH]; intros y Hx Hy Hw; [rewrite Nat.add_0_r in Hy; congruence|]. destruct (lookup_lt_is_Some_2 bs (k + n)) as [z Hz]; [apply lookup_lt_Some in Hy; lia|].
  rewrite (IH z) by (try done; intros j Hj; apply Hw; lia). specialize (Hw (k + S n)%nat ltac:(lia)). rewrite Nat.add_succ_r in *. unfold written in Hw. cbn [Nat.eqb orb pred] in Hw.
  apply negb_false_iff, bool_decide_eq_true in Hw. rewrite Hz, Hy in Hw. injection Hw as Hw. by apply (inj tree_root).
Qed.

(** The last tree that is stored up to a height is the tree of the height. *)
Lemma tree_at_height `{Rocks : !RocksDb, Laws : !RocksDbLaws, NL : !NoteTreeLaws T Hash} bs b (trees : Cf Height T) (h : nat) : trees_ok bs trees → bs !! h = Some b →
  Z.of_nat (length bs) ≤ MAX_ON_DISK_HEIGHT → ∃ k, zs_prev_key_value_back_from trees (Z.of_nat h) = Ok (Some (k, f b)).
Proof.
  intros [Hv Hg] Hb Hmax. pose proof (lookup_lt_Some _ _ _ Hb) as Hh. assert (Hhv : height_valid (Z.of_nat h)) by (split; lia).
  destruct (range_next trees (Unbounded, Included (Z.of_nat h)) true Hv) as (o & Ho & Hspec); [done|exact Hhv| |].
  { cbn [snd bound_map]. rewrite <- (app_nil_r (as_bytes _)). apply height_end_ok; [lia|constructor]. }
  unfold zs_prev_key_value_back_from. rewrite Ho. destruct o as [[k v]|]; [|exfalso].
  - destruct Hspec as (Hk & Hgk & [_ Hr] & Hlast). cbn in Hk, Hr. exists k. rewrite Hg in Hgk by done. destruct (written bs (Z.to_nat k)) eqn:Ew; [|done].
    apply fmap_Some in Hgk as (x & Hx & ->). do 3 f_equal. assert (Hle : (Z.to_nat k ≤ h)%nat) by (destruct (Z.compare_spec k (Z.of_nat h)); [lia..|done]).
    apply (unwritten bs (Z.to_nat k) (h - Z.to_nat k)); [done|by rewrite Nat.add_sub_assoc, Nat.add_comm, Nat.add_sub by done|]. intros j Hj. apply not_true_iff_false. intros Hw.
    destruct (lookup_lt_is_Some_2 bs j) as [y Hy]; [lia|]. destruct (Hlast (Z.of_nat j) (f y)) as [He|He].
    + split; lia.
    + rewrite Hg, Nat2Z.id, Hw, Hy by (split; lia). done.
    + split; [done|]. cbn. destruct (Z.compare_spec (Z.of_nat j) (Z.of_nat h)); [done|done|lia].
    + lia.
    + cbn in He. rewrite Z.compare_lt_iff in He. destruct Hk. lia.
  - destruct (lookup_lt_is_Some_2 bs 0) as [y Hy]; [lia|]. apply (Hspec 0 (f y)); [split; [lia|done]|rewrite Hg by (split; [lia|done]); change (f <$> bs !! 0%nat = Some (f y)); by rewrite Hy|]. split; [done|]. change ((0 ?= Z.of_nat h) ≠ Gt).
    rewrite Z.compare_gt_iff. lia.
Qed.

(** *** Subtrees *)

Context {Node : Type} (sub : B → option (NoteCommitmentSubtree Node)).

Definition subtrees_ok bs (cf : Cf SubtreeIndex (NoteCommitmentSubtreeData Node)) : Prop :=
  cf_valid SubtreeIndex cf ∧ ∀ i data, index_valid i → zs_get cf i = Some data ↔
    ∃ h b st, bs !! h = Some b ∧ written bs h = true ∧ sub b = Some st ∧ subtree_index st = subtree_index_value i ∧ into_data st = data.

(** The subtree that a block completes is a new one. *)
Definition new_subtree_ok bs b : Prop :=
  ∀ st, sub b = Some st → index_valid (mkSubtreeIndex (subtree_index st)) ∧
    ∀ h b' st', bs !! h = Some b' → written bs h = true → sub b' = Some st' → subtree_index st' ≠ subtree_index st.

Lemma subtrees_snoc_same bs b cf : written (bs ++ [b]) (length bs) = false → subtrees_ok bs cf → subtrees_ok (bs ++ [b]) cf.
Proof.
  intros Hw [Hv Hg]. split; [done|]. intros i data Hi. rewrite (Hg i data Hi). split; intros (h & x & st & Hx & Hwx & Hst).
  - exists h, x, st. pose proof (lookup_lt_Some _ _ _ Hx). rewrite lookup_app_l, written_app by done. done.
  - apply lookup_app_Some in Hx as [Hx|[Hh Hx]].
    + exists h, x, st. pose proof (lookup_lt_Some _ _ _ Hx). by rewrite written_app in Hwx.
    + apply list_lookup_singleton_Some in Hx as [Hx _]. assert (h = length bs) as -> by lia. congruence.
Qed.

Lemma subtrees_snoc_written bs b cf : written (bs ++ [b]) (length bs) = true → new_subtree_ok bs b → subtrees_ok bs cf → subtrees_ok (bs ++ [b]) (insert_subtree_data cf (sub b)).
Proof.
  intros Hw Hnew [Hv Hg].
  assert (Hstep : ∀ (i : SubtreeIndex) data, (∃ h x st, (bs ++ [b]) !! h = Some x ∧ written (bs ++ [b]) h = true ∧ sub x = Some st ∧ subtree_index st = subtree_index_value i ∧ into_data st = data) ↔
    (∃ h x st, bs !! h = Some x ∧ written bs h = true ∧ sub x = Some st ∧ subtree_index st = subtree_index_value i ∧ into_data st = data) ∨
    ∃ st, sub b = Some st ∧ subtree_index st = subtree_index_value i ∧ into_data st = data).
  { intros i data. split.
    - intros (h & x & st & Hx & Hwx & Hst). apply lookup_app_Some in Hx as [Hx|[Hh Hx]].
      + left. exists h, x, st. pose proof (lookup_lt_Some _ _ _ Hx). by rewrite written_app in Hwx.
      + apply list_lookup_singleton_Some in Hx as [_ ->]. right. by exists st.
    - intros [(h & x & st & Hx & Hwx & Hst)|(st & Hst)].
      + exists h, x, st. pose proof (lookup_lt_Some _ _ _ Hx). by rewrite lookup_app_l, written_app.
      + exists (length bs), b, st. by rewrite list_lookup_middle. }
  unfold insert_subtree_data. destruct (sub b) as [st|] eqn:Est; (split; [|intros i data Hi; rewrite Hstep]).
  - apply cf_valid_insert; [by apply Hnew|done].
  - destruct (Hnew st Est) as [Hiv Hne]. rewrite get_insert_Some, (Hg i data Hi) by done. split.
    + intros [[<- <-]|[_ ?]]; [right; by exists st|by left].
    + intros [(h & x & st' & Hx & Hwx & Hst' & Hidx & Hd)|(st' & [= <-] & Hidx & Hd)]; [|left; split; [rewrite Hidx; by destruct i|done]]. right.
      split; [|by exists h, x, st']. intros <-. by apply (Hne h x st').
  - done.
  - rewrite (Hg i data Hi). split; [auto|]. intros [?|(st & [=] & _)]; done.
Qed.

End Trees.
