(* ===== verification/FinalizedInvariant.v ===== *)
(** * The finalized state holds the chain that was committed to it

    Writing a valid block to the database of [FinalizedDb.v] does not fail, and the database then holds the chain with the block; the reads give the data of
    the chain, as [ChainIndex.v] specifies it. *)

From S2P Require Import Prelude Height Amount Serialization ValueBalance Network Transaction Merkle TransactionCodec Reversible Transfers TreeIndex Ledger SpendChecks ContextChecks Chain DiskFormat DiskDb FinalizedDb TransparentIndex ChainIndex ShieldedIndex.

(** ** The transparent batch *)

Lemma read_addr_locs_spec {T} (X : gset Address) (f : Address → option T) a v : read_addr_locs X f !! a = Some v ↔ a ∈ X ∧ f a = Some v.
Proof.
  unfold read_addr_locs. set (l := omap _ _). assert (Hn : NoDup l.*1).
  { unfold l. pose proof (NoDup_elements X) as Hn. induction Hn as [|x xs Hx Hn IH]; [constructor|]. cbn [omap list_omap]. destruct (f x) as [y|]; cbn [fmap option_fmap option_map]; [|done].
    rewrite fmap_cons. apply NoDup_cons. split; [|done]. intros (e & He & Hin)%list_elem_of_fmap. apply list_elem_of_omap in Hin as (z & Hz & Hfz). destruct (f z); [|done].
    cbn in Hfz. injection Hfz as <-. cbn in He. subst. by apply Hx. }
  rewrite <- elem_of_list_to_map by done. unfold l. rewrite list_elem_of_omap. setoid_rewrite elem_of_elements. split.
  - intros (x & Hx & Hf). destruct (f x) eqn:E; [|done]. cbn in Hf. by simplify_eq.
  - intros [Ha Hf]. exists a. split; [done|]. by rewrite Hf.
Qed.

Lemma unspent_ext created gone gone' : (∀ l, l ∈ gone ↔ l ∈ gone') → unspent created gone = unspent created gone'.
Proof. intros H. apply list_filter_iff. intros e. by rewrite H. Qed.

Section Invariant.
Context `{Env : !ChainEnv, SP : !ScriptParser, SL : !ScriptParserLaws, HF : !HashFns, Rocks : !RocksDb}.
Implicit Types (b : FinalizedBlock) (bs : list FinalizedBlock).

(** The balances that a block starts with are the stored ones. *)
Lemma read_balances_Ok network (db : FinalizedDb) (X : gset Address) (stored := read_address_balance_location db) :
  (∀ a s, stored a = Some s → entry_ok s) → (∀ a, a ∈ X → address_valid network a) →
  ∃ upd, read_address_balances db X = Ok upd ∧ updates_ok network stored (λ a, a ∈ X) upd ∧ ∀ a, view stored upd a = entry <$> stored a.
Proof.
  intros Hst HX. unfold read_address_balances. fold stored. destruct (finished_format_upgrades db).
  - exists (InsertBalances (read_addr_locs X stored)). split_and!; [done|split|].
    + intros a Ha [s Hs]. exists (address_location s). cbn [balances_location]. by rewrite (proj2 (read_addr_locs_spec X stored a s)).
    + intros a c [Ha Hc]%read_addr_locs_spec. split; [by apply HX|by apply (Hst a)].
    + intros a. cbn [view]. destruct (read_addr_locs X stored !! a) as [s|] eqn:E; [|done]. apply read_addr_locs_spec in E as [_ ->]. done.
  - rewrite Amount.zero_spec, Ok_bind. set (f a := into_new_change (mkAmount 0) <$> stored a). exists (MergeBalances (read_addr_locs X f)).
    assert (Hf : ∀ a c, read_addr_locs X f !! a = Some c → a ∈ X ∧ ∃ s, stored a = Some s ∧ c = into_new_change (mkAmount 0) s).
    { intros a c [Ha Hc]%read_addr_locs_spec. split; [done|]. unfold f in Hc. destruct (stored a) as [s|]; [|done]. exists s. cbn in Hc. by simplify_eq. }
    split_and!; [done|split|].
    + intros a Ha [s Hs]. exists (address_location s). cbn [balances_location]. rewrite (proj2 (read_addr_locs_spec X f a (into_new_change (mkAmount 0) s))); [done|].
      split; [done|]. unfold f. by rewrite Hs.
    + intros a c Hc. destruct (Hf a c Hc) as [Ha (s & Hs & ->)]. split_and!; [by apply HX|by split; [apply zero_ok|cbn; unfold U64_MAX; lia]|]. intros s' Hs'. cbn. congruence.
    + intros a. cbn [view]. destruct (read_addr_locs X f !! a) as [c|] eqn:E; [|done]. destruct (Hf a c E) as [_ (s & Hs & ->)]. rewrite Hs. cbn. destruct (Hst a s Hs) as [_ Hr].
      unfold entry. do 2 f_equal; lia.
Qed.

Section Transparent.
Context (network : Network).

Lemma spending_txs_Ok stored changed by_outpoint out_loc (L : OutPoint → OutputLocation) (es : list (TransactionLocation * Transaction)) created gone spent self upd :
  batch_ok network stored changed created gone spent self upd → Forall (λ e, tx_loc_valid e.1) es →
  let spends := es ≫= λ e, (λ p, (L p, e.1)) <$> spent_outpoints e.2 in
  NoDup (spent.*1 ++ spends.*1) →
  (∀ e p, e ∈ es → p ∈ spent_outpoints e.2 → ∃ u, by_outpoint !! p = Some u ∧ out_loc !! p = Some (L p) ∧ (L p, output u) ∈ created ∧ ∀ a, address (output u) network = Some a → changed a) →
  ∃ self', foldM (λ self e, prepare_spending_transparent_tx_ids_batch network e.1 by_outpoint out_loc upd self e.2) self es = Ok self' ∧
    cf_balance_by_transparent_addr self' = cf_balance_by_transparent_addr self ∧ batch_ok network stored changed created gone (spent ++ spends) self' upd.
Proof.
  revert spent self. induction es as [|e es IH]; intros spent self Hb Hv spends Hn Hp; [subst spends; cbn; rewrite app_nil_r; by exists self|].
  apply Forall_cons in Hv as [He Hv]. subst spends. cbn [mbind list_bind] in *. rewrite fmap_app, <- list_fmap_compose, app_assoc in Hn.
  destruct (spending_tx_Ok network stored changed e.1 by_outpoint out_loc (spent_outpoints e.2) (L <$> spent_outpoints e.2) created gone spent self upd e.2) as (self1 & H1 & Hbal1 & Hb1);
    [done|done|done|by apply NoDup_app in Hn as (? & _)| |].
  { apply Forall2_fmap_r, Forall_Forall2_diag, Forall_forall. intros p Hpe. apply (Hp e p); [by left|done]. }
  rewrite <- list_fmap_compose in Hb1. destruct (IH _ self1 Hb1) as (self2 & H2 & Hbal2 & Hb2); [done| |intros e' p He'; apply Hp; by right|].
  { rewrite fmap_app, <- list_fmap_compose. exact Hn. }
  exists self2. cbn [foldM]. rewrite H1, Ok_bind, H2, Hbal2. rewrite app_assoc. done.
Qed.

Context (bs : list FinalizedBlock) (b : FinalizedBlock) (db : FinalizedDb).
Hypotheses (Hh : heights_ok bs) (Hv : valid_next network bs b) (Hok' : created_ok (chain_outputs (bs ++ [b]))).
Hypotheses (Hlocated : Forall (λ e : TransactionLocation * (Transaction * Hash), Forall (λ p, is_Some (locate bs p)) (spent_outpoints e.2.1)) (chain_txs bs)).
Hypotheses (Htr : transparent_ok network bs (fin_transparent db)).

Local Abbreviation ps := (transactions (fb_block b) ≫= spent_outpoints).
Local Abbreviation L := (out_loc_of bs b).
Local Abbreviation U := (spent_utxo_at bs b).

Definition spent_by_outpoint : gmap OutPoint Utxo := list_to_map ((λ p, (p, U p)) <$> ps).
Definition loc_by_outpoint : gmap OutPoint OutputLocation := list_to_map ((λ p, (p, L p)) <$> ps).
Definition spent_by_loc : list (OutputLocation * Utxo) := by_out_loc ((λ p, (L p, U p)) <$> ps).

Lemma map_of_spends {A} (f : OutPoint → A) p : list_to_map (M := gmap OutPoint A) ((λ p, (p, f p)) <$> ps) !! p = if decide (p ∈ ps) then Some (f p) else None.
Proof.
  case_decide as Hp.
  - apply elem_of_list_to_map_1; [rewrite <- list_fmap_compose, list_fmap_id; by eapply spent_NoDup|]. by apply (list_elem_of_fmap_2 (λ p, (p, f p))).
  - apply not_elem_of_list_to_map_1. by rewrite <- list_fmap_compose, list_fmap_id.
Qed.

Lemma spent_by_loc_perm : spent_by_loc ≡ₚ (λ p, (L p, U p)) <$> ps.
Proof.
  apply by_out_loc_perm. rewrite <- list_fmap_compose. change (NoDup (L <$> ps)). erewrite <- block_spends_locs by done. pose proof (block_spends_NoDup network bs b Hv Hlocated) as Hn. by apply NoDup_app in Hn as (_ & _ & ?).
Qed.

Lemma block_outputs_all : is_min (fb_height b) = false → block_outputs b = block_txs b ≫= tx_outputs.
Proof.
  intros Hm. unfold block_outputs, spendable. rewrite filter_all; [done|]. intros e (i & _ & He)%elem_of_block_txs. by rewrite He.
Qed.

(** The addresses with a changed balance, and the updates of the balances. *)
Context (X : gset Address) (upd : AddressBalanceLocationUpdates) (news : list (OutputLocation * Utxo)).
Local Abbreviation stored := (read_address_balance_location db).
Local Abbreviation changed := (λ a, a ∈ X).
Hypotheses (Hupd : updates_ok network stored changed upd) (Hview : ∀ a, view stored upd a = entry <$> stored a) (Hnews : outputs_of news ≡ₚ block_txs b ≫= tx_outputs).
Hypothesis (HX : ∀ u a, u ∈ news.*2 ∨ u ∈ U <$> ps → address (output u) network = Some a → a ∈ X).

Lemma stored_ok a s : stored a = Some s → entry_ok s.
Proof. apply (tr_entries _ _ _ Htr). Qed.

Lemma start_batch : batch_ok network stored changed (chain_outputs bs) (chain_spends bs).*1 (chain_spends bs) (fin_transparent db) upd.
Proof. destruct Htr as [T1 T2 T3 T4 T5 T6]. split; [done..| |done|done]. intros a Ha. rewrite Hview. by apply T6. Qed.

Lemma news_created : is_min (fb_height b) = false →
  chain_outputs bs ++ outputs_of (by_out_loc news) = chain_outputs (bs ++ [b]) ∧ by_out_loc news ≡ₚ news ∧ (∀ e, e ∈ by_out_loc news → e.1 ∉ (chain_spends bs).*1) ∧
  ∀ e a, e ∈ by_out_loc news → address (output e.2) network = Some a → a ∈ X.
Proof.
  intros Hmin. assert (Hcreated : chain_outputs bs ++ outputs_of (by_out_loc news) = chain_outputs (bs ++ [b])).
  { rewrite chain_outputs_snoc, (block_outputs_all Hmin). f_equal. apply by_out_loc_sorted; [apply tx_outputs_sorted, block_txs_sorted|exact Hnews]. }
  assert (Hperm : by_out_loc news ≡ₚ news).
  { apply by_out_loc_perm. pose proof (sorted_outputs_NoDup _ (tx_outputs_sorted _ (block_txs_sorted b))) as Hn. rewrite <- Hnews in Hn. unfold outputs_of in Hn. by rewrite <- list_fmap_compose in Hn. }
  split_and!; [done|done|..].
  - intros e He Hg. apply (tr_spent _ _ _ Htr) in Hg. destruct Hok' as [Hn _]. rewrite <- Hcreated, fmap_app in Hn. apply NoDup_app in Hn as (_ & Hd & _).
    apply (Hd _ Hg). unfold outputs_of. rewrite <- list_fmap_compose. by apply (list_elem_of_fmap_2 (fst ∘ λ e, (e.1, output e.2))).
  - intros e a He Ha. apply (HX e.2); [|done]. left. apply list_elem_of_fmap_2. by rewrite <- Hperm.
Qed.

Lemma create_batch : is_min (fb_height b) = false → balances_fit network bs b →
  ∃ self' upd', prepare_new_transparent_outputs_batch network (fin_transparent db) upd (by_out_loc news) = Ok (self', upd') ∧
    cf_balance_by_transparent_addr self' = cf_balance_by_transparent_addr (fin_transparent db) ∧
    batch_ok network stored changed (chain_outputs (bs ++ [b])) (chain_spends bs).*1 (chain_spends bs) self' upd'.
Proof.
  intros Hmin Hfit. destruct (news_created Hmin) as (Hcreated & Hperm & Hgone & Hch).
  pose proof (new_outputs_Ok network stored changed stored_ok (by_out_loc news) _ _ _ _ _ start_batch) as Hnew. cbn zeta in Hnew. rewrite Hcreated in Hnew. apply Hnew; [done|done|].
  intros e a He Ha. split; [by apply (Hch e a)|apply Hfit].
Qed.

(** The balances that are stored are amounts. *)
Lemma stored_total a : total (of_address network a (unspent (chain_outputs bs) (chain_spends bs).*1)) ≤ MAX_MONEY.
Proof.
  destruct (decide (of_address network a (unspent (chain_outputs bs) (chain_spends bs).*1) = [])) as [He|He]; [rewrite He; by vm_compute|].
  destruct (of_address network a _) as [|[l o] r] eqn:E; [done|]. clear He. assert (Hin : (l, o) ∈ of_address network a (unspent (chain_outputs bs) (chain_spends bs).*1)) by (rewrite E; left).
  rewrite <- E. apply list_elem_of_filter in Hin as [Ha [Hc _]%elem_of_unspent]. cbn in Ha. pose proof (address_valid_spec network _ _ Ha) as Hav.
  destruct (first_location_Some network _ a l o Hc Ha) as [al Hal]. pose proof (bo_view _ _ _ _ _ _ _ _ start_batch a Hav) as Hvw. unfold balance_spec in Hvw. rewrite Hal, Hview in Hvw.
  destruct (stored a) as [x|] eqn:Ex; [|done]. cbn in Hvw. injection Hvw as Hamt _ _. rewrite <- Hamt. by apply entry_nonneg, (stored_ok a).
Qed.

Lemma create_batch_panic a : is_min (fb_height b) = false → inserting upd → MAX_MONEY < balance_with_outputs network bs b a →
  prepare_new_transparent_outputs_batch network (fin_transparent db) upd (by_out_loc news) = Panic.
Proof.
  intros Hmin Hi Hover. destruct (news_created Hmin) as (Hcreated & Hperm & Hgone & Hch).
  pose proof (new_outputs_panic network stored changed stored_ok (by_out_loc news) _ _ _ _ _ a start_batch Hi) as Hnew. cbn zeta in Hnew. rewrite Hcreated in Hnew.
  apply Hnew; [done|done|done|]. split; [apply stored_total|done].
Qed.

Lemma gone_spends l : l ∈ (chain_spends bs).*1 ++ spent_by_loc.*1 ↔ l ∈ (chain_spends (bs ++ [b])).*1.
Proof.
  rewrite chain_spends_snoc, fmap_app by done. fold (block_spends bs b). erewrite block_spends_locs by done. rewrite !elem_of_app. assert (spent_by_loc.*1 ≡ₚ L <$> ps) as ->; [|done].
  rewrite spent_by_loc_perm, <- list_fmap_compose. done.
Qed.

Lemma spend_batch self1 upd1 : batch_ok network stored changed (chain_outputs (bs ++ [b])) (chain_spends bs).*1 (chain_spends bs) self1 upd1 →
  ∃ self' upd', prepare_spent_transparent_outputs_batch network self1 upd1 spent_by_loc = Ok (self', upd') ∧
    cf_balance_by_transparent_addr self' = cf_balance_by_transparent_addr self1 ∧
    batch_ok network stored changed (chain_outputs (bs ++ [b])) ((chain_spends bs).*1 ++ spent_by_loc.*1) (chain_spends bs) self' upd'.
Proof.
  intros Hb1. apply (spent_outputs_Ok network stored changed stored_ok); [done| | |].
  - rewrite spent_by_loc_perm, <- list_fmap_compose. change (NoDup (L <$> ps)). erewrite <- block_spends_locs by done.
    pose proof (block_spends_NoDup network bs b Hv Hlocated) as Hn. by apply NoDup_app in Hn as (_ & _ & ?).
  - intros e (x & -> & Hx)%list_elem_of_fmap. rewrite spent_by_loc_perm in Hx. apply list_elem_of_fmap in Hx as (p & -> & Hp). cbn.
    destruct (spent_output_spec network bs b Hh Hv Hlocated p Hp) as (Ho & _ & Hs). by apply elem_of_unspent.
  - intros e a He Ha. apply (HX e.2); [|done]. right. rewrite spent_by_loc_perm in He. apply list_elem_of_fmap in He as (p & -> & Hp). exact (list_elem_of_fmap_2 U ps p Hp).
Qed.

Lemma spending_batch self2 upd2 gone : batch_ok network stored changed (chain_outputs (bs ++ [b])) gone (chain_spends bs) self2 upd2 →
  ∃ self', foldM (λ self '(i, t), l ← tx_loc_from_usize (fb_height b) i; prepare_spending_transparent_tx_ids_batch network l spent_by_outpoint loc_by_outpoint upd2 self t)
             self2 (enumerate (transactions (fb_block b))) = Ok self' ∧
    cf_balance_by_transparent_addr self' = cf_balance_by_transparent_addr self2 ∧
    batch_ok network stored changed (chain_outputs (bs ++ [b])) gone (chain_spends (bs ++ [b])) self' upd2.
Proof.
  intros Hb2. rewrite (foldM_locations (λ self l t, prepare_spending_transparent_tx_ids_batch network l spent_by_outpoint loc_by_outpoint upd2 self t)); [|apply (vn_lengths _ _ _ Hv)].
  rewrite chain_spends_snoc by done. fold (block_spends bs b). erewrite block_spends_spec by done. apply (spending_txs_Ok stored changed); [done| | |].
  - apply Forall_forall. intros e (i & t & -> & Hi)%elem_of_lookup_imap. cbn. destruct (heights_snoc _ _ _ Hh Hv) as [_ Hbv]. split; [done|]. cbn.
    apply lookup_lt_Some in Hi. destruct (vn_lengths _ _ _ Hv) as [_ ?]. lia.
  - erewrite <- block_spends_spec by done. by apply (block_spends_NoDup network).
  - intros e p (i & t & -> & Hi)%elem_of_lookup_imap Hp. cbn in Hp. assert (Hps : p ∈ ps) by (apply list_elem_of_bind; exists t; split; [done|by eapply list_elem_of_lookup_2]).
    exists (U p). unfold spent_by_outpoint, loc_by_outpoint. rewrite !map_of_spends, !decide_True by done. split_and!; [done|done|by apply (spent_output_spec network)|].
    intros a Ha. apply (HX (U p)); [|done]. right. by apply list_elem_of_fmap_2.
Qed.

Lemma transparent_batch_Ok : is_min (fb_height b) = false → balances_fit network bs b →
  ∃ self', prepare_transparent_transaction_batch network (fin_transparent db) b (by_out_loc news) spent_by_outpoint spent_by_loc loc_by_outpoint upd = Ok self' ∧
    transparent_ok network (bs ++ [b]) self'.
Proof.
  intros Hmin Hfit. destruct (create_batch Hmin Hfit) as (self1 & upd1 & H1 & Hbal1 & Hb1). destruct (spend_batch _ _ Hb1) as (self2 & upd2 & H2 & Hbal2 & Hb2).
  destruct (spending_batch _ _ _ Hb2) as (self3 & H3 & Hbal3 & Hb3). unfold prepare_transparent_transaction_batch. rewrite H1, Ok_bind, H2, Ok_bind, H3, Ok_bind.
  assert (Hbal : cf_balance_by_transparent_addr self3 = cf_balance_by_transparent_addr (fin_transparent db)) by congruence.
  destruct Hb3 as [B1 B2 B3 B4 B5 B6]. set (gone := (chain_spends bs).*1 ++ spent_by_loc.*1) in *.
  assert (Hu : unspent (chain_outputs (bs ++ [b])) gone = unspent (chain_outputs (bs ++ [b])) (chain_spends (bs ++ [b])).*1) by (apply unspent_ext, gone_spends).
  destruct (balances_batch_Ok network changed self3 upd2) as (cf & Hcf & He & Hget); rewrite ?Hbal; [apply (tr_entries _ _ _ Htr)|done| |].
  { intros a v Ha Hva. change (view stored upd2 a = Some v) in Hva. rewrite (B4 a Ha) in Hva. unfold balance_spec in Hva. destruct (first_location _ _ _); [|done]. injection Hva as <-. cbn [bal_amount].
    split; [exact (proj1 (created_amounts network _ a gone B1))|]. etrans; [|apply (Hfit a)]. by apply total_gone. }
  rewrite Hcf. eexists. split; [done|]. rewrite Hbal in Hget. split; [done|done| | |done|].
  - destruct B5 as [U1 U2 U3]. rewrite Hu in U1, U2. by split.
  - destruct B6 as [S1 S2 S3]. by split.
  - intros a Ha. change (entry <$> zs_get cf a = balance_spec network (chain_outputs (bs ++ [b])) (chain_spends (bs ++ [b])).*1 a). rewrite (Hget a Ha).
    change (view stored upd2 a = balance_spec network (chain_outputs (bs ++ [b])) (chain_spends (bs ++ [b])).*1 a). rewrite (B4 a Ha). unfold balance_spec. by rewrite Hu.
Qed.

End Transparent.

(** ** Shielded data *)

Definition block_trees b : NoteCommitmentTrees := note_commitment_trees (fb_treestate b).
Definition block_history b : HistoryTree := history_tree (fb_treestate b).
Definition sprout_of b : SproutTree := trees_sprout (block_trees b).
Definition sapling_of b : SaplingTree := trees_sapling (block_trees b).
Definition orchard_of b : OrchardTree := trees_orchard (block_trees b).
Definition sapling_subtree_of b : option (NoteCommitmentSubtree SaplingNode) := sapling_subtree_new (block_trees b).
Definition orchard_subtree_of b : option (NoteCommitmentSubtree OrchardNode) := orchard_subtree_new (block_trees b).
Definition numbered bs : list (TransactionLocation * Transaction) := (λ e, (e.1, e.2.1)) <$> chain_txs bs.

Record shielded_ok bs (self : ShieldedCfs) : Prop := {
  sh_sprout_nullifiers : nullifiers_ok sprout_nullifiers (numbered bs) (cf_sprout_nullifiers self);
  sh_sapling_nullifiers : nullifiers_ok sapling_nullifiers (numbered bs) (cf_sapling_nullifiers self);
  sh_orchard_nullifiers : nullifiers_ok orchard_nullifiers (numbered bs) (cf_orchard_nullifiers self);
  sh_sprout_anchors : ∀ r t, zs_get (cf_sprout_anchors self) r = Some t ↔ ∃ b, b ∈ bs ∧ sprout_of b = t ∧ tree_root t = r;
  sh_sprout_tree : cf_sprout_note_commitment_tree self = from_option (λ b, {[ [] := sprout_of b ]}) ∅ (last bs);
  sh_sapling_anchors : anchors_ok sapling_of bs (cf_sapling_anchors self);
  sh_sapling_trees : trees_ok sapling_of bs (cf_sapling_note_commitment_tree self);
  sh_sapling_subtrees : subtrees_ok sapling_of sapling_subtree_of bs (cf_sapling_note_commitment_subtree self);
  sh_orchard_anchors : anchors_ok orchard_of bs (cf_orchard_anchors self);
  sh_orchard_trees : trees_ok orchard_of bs (cf_orchard_note_commitment_tree self);
  sh_orchard_subtrees : subtrees_ok orchard_of orchard_subtree_of bs (cf_orchard_note_commitment_subtree self);
}.

(** Nullifiers are revealed once, and subtrees are completed once. *)
Record shielded_next bs b : Prop := {
  sn_sprout : NoDup (revealed sprout_nullifiers (numbered (bs ++ [b])));
  sn_sapling : NoDup (revealed sapling_nullifiers (numbered (bs ++ [b])));
  sn_orchard : NoDup (revealed orchard_nullifiers (numbered (bs ++ [b])));
  sn_sapling_subtree : new_subtree_ok sapling_of sapling_subtree_of bs b;
  sn_orchard_subtree : new_subtree_ok orchard_of orchard_subtree_of bs b;
}.

Lemma nullifier_batch_fold es (self : ShieldedCfs) : foldl (λ s e, prepare_nullifier_batch s e.2 e.1) self es =
  with_nullifiers self (insert_revealed sprout_nullifiers (cf_sprout_nullifiers self) es) (insert_revealed sapling_nullifiers (cf_sapling_nullifiers self) es)
    (insert_revealed orchard_nullifiers (cf_orchard_nullifiers self) es).
Proof. revert self. induction es as [|e es IH]; intros self; [by destruct self|]. cbn [foldl]. by rewrite IH. Qed.

Lemma numbered_snoc network bs b : valid_next network bs b → numbered (bs ++ [b]) = numbered bs ++ numbered_txs b.
Proof. intros Hv. unfold numbered. rewrite chain_txs_snoc, fmap_app. f_equal. by apply (numbered_txs_spec network bs). Qed.

Lemma nullifiers_batch_Ok network bs b (self : ShieldedCfs) : valid_next network bs b → shielded_next bs b → shielded_ok bs self →
  ∃ sprout sapling orchard, prepare_shielded_transaction_batch self b = Ok (with_nullifiers self sprout sapling orchard) ∧
    nullifiers_ok sprout_nullifiers (numbered (bs ++ [b])) sprout ∧ nullifiers_ok sapling_nullifiers (numbered (bs ++ [b])) sapling ∧
    nullifiers_ok orchard_nullifiers (numbered (bs ++ [b])) orchard.
Proof.
  intros Hv [N1 N2 N3 _ _] Hs. unfold prepare_shielded_transaction_batch.
  rewrite (foldM_locations (λ s l t, Ok (prepare_nullifier_batch s t l))) by (apply (vn_lengths _ _ _ Hv)). rewrite (foldM_pure (λ s e, prepare_nullifier_batch s e.2 e.1)), nullifier_batch_fold.
  eexists _, _, _. split; [done|]. rewrite (numbered_snoc _ _ _ Hv) in *. split_and!; (apply nullifiers_app; [done|apply Hs]).
Qed.

(** ** The tip *)

Context `{RL : !RocksDbLaws, EL : !ChainEnvLaws, Empties : !EmptyTrees}.

Lemma blocks_empty bs (self : BlockCfs) : heights_ok bs → blocks_ok bs self → zs_is_empty (cf_hash_by_height self) = bool_decide (bs = []).
Proof.
  intros Hh [_ K2 _ K4 _]. apply eq_bool_prop_intro. rewrite Is_true_true, is_empty_spec, bool_decide_spec. split.
  - intros He. destruct bs as [|x bs]; [done|]. assert (zs_get (cf_hash_by_height self) 0 = Some (fb_hash x)) as Hx by (rewrite K2; [done|by split]).
    rewrite He in Hx. unfold zs_get in Hx. by rewrite lookup_empty in Hx.
  - intros ->. apply map_eq. intros k. rewrite lookup_empty. destruct (cf_hash_by_height self !! k) as [v|] eqn:Ek; [|done]. destruct (K4 k v Ek) as (h & Hv & ->).
    specialize (K2 h Hv). unfold zs_get in K2. rewrite Ek in K2. done.
Qed.

Lemma read_tip_Ok bs (db : FinalizedDb) : heights_ok bs → blocks_ok bs (fin_blocks db) → read_tip db = Ok ((λ b, (fb_height b, fb_hash b)) <$> last bs).
Proof.
  intros [Hl Hh] [_ K2 _ K4 _]. unfold read_tip, zs_last_key_value.
  destruct (range_next (cf_hash_by_height (fin_blocks db)) (Unbounded, Unbounded) true K4) as (o & -> & Ho); [done..|]. f_equal. rewrite last_lookup.
  destruct o as [[k v]|].
  - destruct Ho as (Hk & Hg & _ & Hlast). cbn in Hk. rewrite K2 in Hg by done. apply fmap_Some in Hg as (x & Hx & ->). pose proof (lookup_lt_Some _ _ _ Hx) as Hlt.
    destruct (lookup_lt_is_Some_2 bs (pred (length bs))) as [y Hy]; [lia|]. set (n := Z.of_nat (pred (length bs))). assert (Hn : height_valid n) by (split; lia).
    destruct (Hlast n (fb_hash y)) as [He|He]; [done|rewrite K2 by done; unfold n; by rewrite Nat2Z.id, Hy|done| |].
    + assert (Z.to_nat k = pred (length bs)) as Hp by lia. rewrite Hp in Hx. rewrite Hx. cbn. destruct (Hh _ _ Hx) as [-> _]. do 2 f_equal. unfold n in He. lia.
    + exfalso. cbn in He. rewrite Z.compare_lt_iff in He. destruct Hk. lia.
  - destruct (bs !! pred (length bs)) as [y|] eqn:Hy; [|done]. exfalso. pose proof (lookup_lt_Some _ _ _ Hy) as Hlt. set (n := Z.of_nat (pred (length bs))). assert (Hn : height_valid n) by (split; lia).
    apply (Ho n (fb_hash y)); [done| |done]. rewrite K2 by done. unfold n. by rewrite Nat2Z.id, Hy.
Qed.

Lemma read_tip_height_Ok bs (db : FinalizedDb) : heights_ok bs → blocks_ok bs (fin_blocks db) → read_finalized_tip_height db = Ok (fb_height <$> last bs).
Proof. intros Hh Hb. unfold read_finalized_tip_height. rewrite (read_tip_Ok _ _ Hh Hb), Ok_bind. by destruct (last bs). Qed.
Lemma read_tip_hash_Ok bs (db : FinalizedDb) : heights_ok bs → blocks_ok bs (fin_blocks db) → read_finalized_tip_hash db = Ok (from_option fb_hash GENESIS_PREVIOUS_BLOCK_HASH (last bs)).
Proof. intros Hh Hb. unfold read_finalized_tip_hash. rewrite (read_tip_Ok _ _ Hh Hb), Ok_bind. by destruct (last bs). Qed.

(** *** The trees of the tip *)

Lemma heights_last bs b : heights_ok bs → last bs = Some b → fb_height b = Z.of_nat (pred (length bs)) ∧ bs !! pred (length bs) = Some b.
Proof. intros [_ Hh] Hl. rewrite last_lookup in Hl. split; [|done]. by apply Hh. Qed.

Lemma tree_by_height_Ok {T} `{NT : !NoteTree T Hash, NL : !NoteTreeLaws T Hash} (f : FinalizedBlock → T) bs (db : FinalizedDb) trees h : heights_ok bs → blocks_ok bs (fin_blocks db) →
  trees_ok f bs trees → 0 ≤ h → tree_by_height db trees h = Ok (f <$> bs !! Z.to_nat h).
Proof.
  intros Hh Hb Ht Hpos. unfold tree_by_height. rewrite (read_tip_height_Ok _ _ Hh Hb), Ok_bind. destruct (last bs) as [x|] eqn:El.
  - destruct (heights_last _ _ Hh El) as [Hx Hlast]. pose proof (lookup_lt_Some _ _ _ Hlast) as Hlt. cbn [fmap option_fmap option_map]. rewrite Hx. case_match eqn:E.
    + apply Z.ltb_lt in E. rewrite lookup_ge_None_2 by lia. done.
    + apply Z.ltb_ge in E. destruct (lookup_lt_is_Some_2 bs (Z.to_nat h)) as [y Hy]; [lia|]. destruct (tree_at_height f bs y trees (Z.to_nat h) Ht Hy) as (k & Hk); [apply Hh|].
      rewrite Z2Nat.id in Hk by done. rewrite Hk, Ok_bind. cbn [expect]. rewrite Ok_bind, Hy. done.
  - apply last_None in El as ->. done.
Qed.

Lemma tree_for_tip_Ok {T} `{NT : !NoteTree T Hash, NL : !NoteTreeLaws T Hash} (f : FinalizedBlock → T) bs (db : FinalizedDb) trees empty : heights_ok bs → blocks_ok bs (fin_blocks db) →
  trees_ok f bs trees → FinalizedDb.tree_for_tip db trees empty = Ok (from_option f empty (last bs)).
Proof.
  intros Hh Hb Ht. unfold FinalizedDb.tree_for_tip. rewrite (read_tip_height_Ok _ _ Hh Hb), Ok_bind. destruct (last bs) as [x|] eqn:El; [|done]. destruct (heights_last _ _ Hh El) as [Hx Hlast].
  cbn [fmap option_fmap option_map]. rewrite (tree_by_height_Ok f bs) by (done || lia). rewrite Hx, Nat2Z.id, Hlast, Ok_bind. done.
Qed.

(** *** Writing the trees *)

(** The trees before the block, as the caller has them. *)
Definition prev_trees_ok bs (prev : option NoteCommitmentTrees) : Prop :=
  ∀ p x, prev = Some p → last bs = Some x → trees_sprout p = sprout_of x ∧ trees_sapling p = sapling_of x ∧ trees_orchard p = orchard_of x.

Lemma read_sprout_tip_Ok bs (db : FinalizedDb) : heights_ok bs → blocks_ok bs (fin_blocks db) → shielded_ok bs (fin_shielded db) →
  read_sprout_tree_for_tip db = Ok (from_option sprout_of sprout_default (last bs)).
Proof.
  intros Hh Hb Hs. unfold read_sprout_tree_for_tip, read_is_empty. rewrite (blocks_empty _ _ Hh Hb). destruct (last bs) as [x|] eqn:El.
  - rewrite bool_decide_eq_false_2 by (intros ->; done). unfold zs_get. rewrite (sh_sprout_tree _ _ Hs), El. cbn [from_option]. change (as_bytes tt) with ([] : list Z). by rewrite lookup_singleton_eq.
  - apply last_None in El as ->. by rewrite bool_decide_eq_true_2.
Qed.

Lemma written_flag {T} `{NT : !NoteTree T Hash} (f : FinalizedBlock → T) bs b (prev empty : T) : fb_height b = Z.of_nat (length bs) →
  (∀ x, last bs = Some x → prev = f x) → is_min (fb_height b) || negb (tree_eqb prev (f b)) = written f (bs ++ [b]) (length bs).
Proof.
  intros Hh Hp. rewrite written_last. unfold is_min, Height.MIN. rewrite Hh. destruct (last bs) as [x|] eqn:El.
  - rewrite (Hp x eq_refl). assert (length bs ≠ 0%nat) as Hl. { destruct bs; [done|]. cbn. lia. } rewrite (proj2 (Z.eqb_neq _ _)) by lia. done.
  - by apply last_None in El as ->.
Qed.

Section TreesBatch.
Context (network : Network) (bs : list FinalizedBlock) (b : FinalizedBlock) (db : FinalizedDb) (prev : option NoteCommitmentTrees).
Hypotheses (Hh : heights_ok bs) (Hv : valid_next network bs b) (Hs : shielded_next bs b) (Hblk : blocks_ok bs (fin_blocks db)) (Hsh : shielded_ok bs (fin_shielded db)).
Hypothesis (Hprev : prev_trees_ok bs prev).

Lemma prev_tree_Ok {T} (proj : NoteCommitmentTrees → T) (f : FinalizedBlock → T) (read : Run T) empty :
  (∀ p x, prev = Some p → last bs = Some x → proj p = f x) → read = Ok (from_option f empty (last bs)) →
  ∃ tree, match prev with Some p => Ok (proj p) | None => read end = Ok tree ∧ ∀ x, last bs = Some x → tree = f x.
Proof. intros Hp Hr. destruct prev as [p|]; [exists (proj p); split; [done|]; intros x Hx; by apply Hp|]. rewrite Hr. eexists. split; [done|]. by intros x ->. Qed.

Lemma sprout_written (self : ShieldedCfs) (f := sprout_of) : shielded_ok bs (fin_shielded db) →
  cf_sprout_anchors self = cf_sprout_anchors (fin_shielded db) → cf_sprout_note_commitment_tree self = cf_sprout_note_commitment_tree (fin_shielded db) →
  let self' := if written f (bs ++ [b]) (length bs) then update_sprout_tree self (f b) else self in
  (∀ r t, zs_get (cf_sprout_anchors self') r = Some t ↔ ∃ x, x ∈ bs ++ [b] ∧ f x = t ∧ tree_root t = r) ∧
  cf_sprout_note_commitment_tree self' = {[ [] := f b ]}.
Proof.
  intros [_ _ _ S4 S5 _ _ _ _ _ _] Ha Ht self'. subst self'. setoid_rewrite elem_of_app. setoid_rewrite list_elem_of_singleton. destruct (written f (bs ++ [b]) (length bs)) eqn:Ew.
  - cbn [update_sprout_tree cf_sprout_anchors cf_sprout_note_commitment_tree]. rewrite Ha, Ht, S5. split.
    + intros r t. rewrite hash_get_insert, S4. split.
      * intros [[<- <-]|[_ (x & Hx & Hr)]]; [exists b; auto|exists x; auto].
      * intros (x & [Hx| ->] & Hf & Hr); [|left; by rewrite <- Hr, <- Hf]. destruct (decide (tree_root (f b) = r)) as [He|]; [|right; by split; [|exists x]]. left. split; [done|].
        apply (inj tree_root). by rewrite He.
    + unfold zs_insert. change (as_bytes tt) with ([] : list Z). destruct (last bs); cbn [from_option]; [apply insert_singleton_eq|apply insert_empty].
  - rewrite Ha, Ht, S5. rewrite written_last in Ew. destruct (last bs) as [x|] eqn:El; [|done]. apply negb_false_iff, bool_decide_eq_true in Ew. apply (inj tree_root) in Ew.
    split; [|cbn; fold f; by rewrite Ew]. intros r t. rewrite S4. split; [naive_solver|]. intros (y & [Hy| ->] & Hf & Hr); [by exists y|]. exists x. split; [by apply last_Some_elem_of|]. fold f. by rewrite Ew.
Qed.

(** One pool of trees with subtrees. *)
Lemma pool_written {T Node} `{NT : !NoteTree T Hash} (f : FinalizedBlock → T) (sub : FinalizedBlock → option (NoteCommitmentSubtree Node)) anchors trees subtrees :
  anchors_ok f bs anchors → trees_ok f bs trees → subtrees_ok f sub bs subtrees → new_subtree_ok f sub bs b →
  let w := written f (bs ++ [b]) (length bs) in
  anchors_ok f (bs ++ [b]) (if w then zs_insert anchors (tree_root (f b)) tt else anchors) ∧
  trees_ok f (bs ++ [b]) (if w then zs_insert trees (fb_height b) (f b) else trees) ∧
  subtrees_ok f sub (bs ++ [b]) (if w then insert_subtree_data subtrees (sub b) else subtrees).
Proof.
  intros Ha Ht Hst Hn w. destruct (vn_height _ _ _ Hv) as [Hbh Hlt]. destruct w eqn:Ew; subst w.
  - rewrite Hbh. split_and!; [by apply anchors_snoc_written|apply trees_snoc_written; [split; lia|done..]|by apply subtrees_snoc_written].
  - split_and!; [by apply anchors_snoc_same|by apply trees_snoc_same|by apply subtrees_snoc_same].
Qed.

Lemma trees_batch_Ok n1 n2 n3 chain : nullifiers_ok sprout_nullifiers (numbered (bs ++ [b])) n1 → nullifiers_ok sapling_nullifiers (numbered (bs ++ [b])) n2 →
  nullifiers_ok orchard_nullifiers (numbered (bs ++ [b])) n3 →
  ∃ shielded, prepare_trees_batch (with_nullifiers (fin_shielded db) n1 n2 n3) chain db b prev = Ok (shielded, update_history_tree chain (block_history b)) ∧ shielded_ok (bs ++ [b]) shielded.
Proof.
  intros N1 N2 N3. destruct (vn_height _ _ _ Hv) as [Hbh _]. unfold prepare_trees_batch. cbn zeta.
  destruct (prev_tree_Ok trees_sprout sprout_of (read_sprout_tree_for_tip db) sprout_default) as (t1 & -> & H1); [intros p x Hp Hx; by apply (Hprev p x)|by apply read_sprout_tip_Ok|]. rewrite Ok_bind.
  destruct (prev_tree_Ok trees_sapling sapling_of (read_sapling_tree_for_tip db) sapling_default) as (t2 & -> & H2);
    [intros p x Hp Hx; by apply (Hprev p x)|apply (tree_for_tip_Ok sapling_of); [done..|apply Hsh]|]. rewrite Ok_bind.
  destruct (prev_tree_Ok trees_orchard orchard_of (read_orchard_tree_for_tip db) orchard_default) as (t3 & -> & H3);
    [intros p x Hp Hx; by apply (Hprev p x)|apply (tree_for_tip_Ok orchard_of); [done..|apply Hsh]|]. rewrite Ok_bind.
  change (trees_sprout (note_commitment_trees (fb_treestate b))) with (sprout_of b). change (trees_sapling (note_commitment_trees (fb_treestate b))) with (sapling_of b).
  change (trees_orchard (note_commitment_trees (fb_treestate b))) with (orchard_of b).
  rewrite (written_flag sprout_of bs b t1 sprout_default Hbh H1), (written_flag sapling_of bs b t2 sapling_default Hbh H2), (written_flag orchard_of bs b t3 orchard_default Hbh H3).
  eexists. split; [done|]. destruct (sprout_written (with_nullifiers (fin_shielded db) n1 n2 n3) Hsh eq_refl eq_refl) as [P1 P2]. cbn zeta in P1, P2.
  destruct (pool_written sapling_of sapling_subtree_of _ _ _ (sh_sapling_anchors _ _ Hsh) (sh_sapling_trees _ _ Hsh) (sh_sapling_subtrees _ _ Hsh) (sn_sapling_subtree _ _ Hs)) as (Q1 & Q2 & Q3).
  destruct (pool_written orchard_of orchard_subtree_of _ _ _ (sh_orchard_anchors _ _ Hsh) (sh_orchard_trees _ _ Hsh) (sh_orchard_subtrees _ _ Hsh) (sn_orchard_subtree _ _ Hs)) as (R1 & R2 & R3).
  destruct (written sprout_of (bs ++ [b]) (length bs)), (written sapling_of (bs ++ [b]) (length bs)), (written orchard_of (bs ++ [b]) (length bs));
    (split; [exact N1|exact N2|exact N3|exact P1|rewrite last_snoc; exact P2|exact Q1|exact Q2|exact Q3|exact R1|exact R2|exact R3]).
Qed.

End TreesBatch.

(** ** The whole database *)

(** The value pools after the next block, or the error that rejects it. *)
Definition next_pools bs (pools : list (ValueBalance NonNegative)) b : Res ValidateContextError (ValueBalance NonNegative) :=
  let spent := spent_by_outpoint bs b in
  zero ← ValueBalance.zero;
  let pool := default zero (last pools) in
  change ← map_err (λ e, CalculateBlockChainValueChange e (fb_height b) (fb_hash b) (Z.of_nat (length (fb_transaction_hashes b))) (Z.of_nat (base.size spent)))
             (chain_value_pool_change (fb_block b) spent (fb_deferred_pool_balance_change b));
  map_err (λ e, AddValuePool e pool change (Some (fb_height b))) (add_chain_value_pool_change pool change).

Record chain_cfs_ok bs (pools : list (ValueBalance NonNegative)) (self : ChainCfs) : Prop := {
  ch_history : cf_history_tree self = match last bs with Some b => match history_hash (block_history b) with Some _ => {[ [] := block_history b ]} | None => ∅ end | None => ∅ end;
  ch_pool : cf_tip_chain_value_pool self = from_option (λ p, {[ [] := p ]}) ∅ (last pools);
  ch_info : ∀ h, height_valid h → zs_get (cf_block_info self) h =
    (λ e, mkBlockInfo e.2 (wrap U32 (zcash_serialized_size (fb_block e.1)))) <$> zip bs pools !! Z.to_nat h;
}.

(** A history tree that has leaves is not empty again. *)
Definition history_next bs b : Prop := history_hash (block_history b) = None → ∀ x, last bs = Some x → history_hash (block_history x) = None.

Record finalized_ok (network : Network) bs (pools : list (ValueBalance NonNegative)) (db : FinalizedDb) : Prop := {
  fo_network : fin_network db = network;
  fo_pools : length pools = length bs;
  fo_heights : heights_ok bs;
  fo_tx_hashes : NoDup (entry_hash <$> chain_txs bs);
  fo_outputs : Forall (λ b, Forall outputs_bounded (transactions (fb_block b))) bs;
  fo_located : Forall (λ e : TransactionLocation * (Transaction * Hash), Forall (λ p, is_Some (locate bs p)) (spent_outpoints e.2.1)) (chain_txs bs);
  fo_blocks : blocks_ok bs (fin_blocks db);
  fo_shielded : shielded_ok bs (fin_shielded db);
  fo_transparent : transparent_ok network bs (fin_transparent db);
  fo_chain : chain_cfs_ok bs pools (fin_chain db);
}.

Lemma pools_batch network bs pools b db (self : ChainCfs) : finalized_ok network bs pools db →
  (pool ← lift (read_finalized_value_pool db); prepare_chain_value_pools_batch self b (spent_by_outpoint bs b) pool) =
  (p ← next_pools bs pools b; Ok (mkChainCfs (cf_history_tree self) (zs_insert (cf_tip_chain_value_pool self) tt p)
     (zs_insert (cf_block_info self) (fb_height b) (mkBlockInfo p (wrap U32 (zcash_serialized_size (fb_block b))))))).
Proof.
  intros Hf. unfold read_finalized_value_pool, next_pools, prepare_chain_value_pools_batch. cbn zeta. unfold zs_get. rewrite (ch_pool _ _ _ (fo_chain _ _ _ _ Hf)), !vb_zero_spec.
  change (as_bytes tt) with ([] : list Z). destruct (last pools) as [p|]; cbn [from_option]; [rewrite lookup_singleton_eq|rewrite lookup_empty]; cbn [lift]; rewrite !Ok_bind; cbn [default from_option];
    (destruct (map_err _ (chain_value_pool_change _ _ _)) as [c| |]; [|done..]; rewrite !Ok_bind; by destruct (map_err _ (add_chain_value_pool_change _ _)) as [q| |]).
Qed.

Lemma list_to_map_reverse {K A} `{Countable K} (l : list (K * A)) : NoDup l.*1 → list_to_map (M := gmap K A) (reverse l) = list_to_map l.
Proof. intros Hn. symmetry. apply list_to_map_proper; [done|]. symmetry. apply reverse_Permutation. Qed.

Section Write.
Context (network : Network) (bs : list FinalizedBlock) (pools : list (ValueBalance NonNegative)) (b : FinalizedBlock) (db : FinalizedDb) (prev : option NoteCommitmentTrees).
Hypotheses (Hf : finalized_ok network bs pools db) (Hv : valid_next network bs b) (Hs : shielded_next bs b) (Hhist : history_next bs b) (Hprev : prev_trees_ok bs prev).

Lemma next_outputs_ok : Forall (λ b, Forall outputs_bounded (transactions (fb_block b))) (bs ++ [b]) ∧
  created_ok (chain_outputs (bs ++ [b])).
Proof.
  assert (Ho : Forall (λ b, Forall outputs_bounded (transactions (fb_block b))) (bs ++ [b])).
  { apply Forall_app. split; [apply Hf|]. apply Forall_singleton, (vn_outputs _ _ _ Hv). }
  split; [done|]. apply chain_outputs_ok; [|done]. by apply (heights_snoc bs b network); [apply Hf|].
Qed.

Lemma next_located : Forall (λ e : TransactionLocation * (Transaction * Hash), Forall (λ p, is_Some (locate (bs ++ [b]) p)) (spent_outpoints e.2.1)) (chain_txs (bs ++ [b])).
Proof.
  rewrite chain_txs_snoc. apply Forall_app. split.
  - eapply Forall_impl; [apply (fo_located _ _ _ _ Hf)|]. intros e He. eapply Forall_impl; [exact He|]. intros p [l Hl]. exists l. by apply locate_snoc.
  - apply Forall_forall. intros [tl [t hash]] He. apply Forall_forall. intros p Hp. destruct (block_tx_index network bs b Hv _ _ _ He) as (i & _ & Hi & _).
    destruct (spent_output network bs b Hv (fo_located _ _ _ _ Hf) p) as (l & o & Hl & _); [|by exists l]. apply list_elem_of_bind. exists t. split; [done|by eapply list_elem_of_lookup_2].
Qed.

(** The genesis block changes no transparent data. *)
Lemma genesis_transparent : is_min (fb_height b) = true → transparent_ok network (bs ++ [b]) (fin_transparent db).
Proof.
  intros Hm. destruct (vn_height _ _ _ Hv) as [Hbh _]. unfold is_min, Height.MIN in Hm. apply Z.eqb_eq in Hm. destruct bs as [|x bs'] eqn:Eb; [|cbn in Hbh; lia].
  assert (Ho : chain_outputs ([] ++ [b]) = chain_outputs []).
  { rewrite chain_outputs_snoc. cbn. unfold block_outputs, spendable. rewrite filter_none; [done|]. intros e (i & _ & He)%elem_of_block_txs. rewrite He. cbn. unfold is_min, Height.MIN. rewrite Hm. done. }
  assert (Hps : transactions (fb_block b) ≫= spent_outpoints = []).
  { apply elem_of_nil_inv. intros p Hp. pose proof (vn_spends _ _ _ Hv) as Hsp. rewrite Forall_forall in Hsp. destruct (Hsp p Hp) as (l & o & _ & Hlo). rewrite Ho in Hlo. by apply elem_of_nil in Hlo. }
  assert (Hc : chain_spends ([] ++ [b]) = chain_spends []).
  { rewrite chain_spends_snoc by constructor. assert (block_spends [] b = []) as Hbs; [|unfold block_spends in Hbs; by rewrite Hbs].
    apply (fmap_nil_inv fst). erewrite block_spends_locs; [by rewrite Hps|done|constructor]. }
  destruct (fo_transparent _ _ _ _ Hf) as [T1 T2 T3 T4 T5 T6]. split; rewrite ?Ho, ?Hc; done.
Qed.

Lemma next_chain_ok (p : ValueBalance NonNegative) :
  chain_cfs_ok (bs ++ [b]) (pools ++ [p])
    (mkChainCfs (cf_history_tree (update_history_tree (fin_chain db) (block_history b))) (zs_insert (cf_tip_chain_value_pool (update_history_tree (fin_chain db) (block_history b))) tt p)
       (zs_insert (cf_block_info (update_history_tree (fin_chain db) (block_history b))) (fb_height b) (mkBlockInfo p (wrap U32 (zcash_serialized_size (fb_block b)))))).
Proof.
  destruct (fo_chain _ _ _ _ Hf) as [C1 C2 C3]. destruct (vn_height _ _ _ Hv) as [Hbh Hlt]. pose proof (fo_pools _ _ _ _ Hf) as Hl. unfold update_history_tree.
  assert (Hpool : ∀ cf, cf = from_option (λ p, {[ [] := p ]}) ∅ (last pools) → zs_insert (cf : Cf unit (ValueBalance NonNegative)) tt p = from_option (λ p, {[ [] := p ]}) ∅ (last (pools ++ [p]))).
  { intros cf ->. rewrite last_snoc. unfold zs_insert. change (as_bytes tt) with ([] : list Z). destruct (last pools); cbn [from_option]; [apply insert_singleton_eq|apply insert_empty]. }
  assert (Hinfo : ∀ h, height_valid h → zs_get (zs_insert (cf_block_info (fin_chain db)) (fb_height b) (mkBlockInfo p (wrap U32 (zcash_serialized_size (fb_block b))))) h =
    (λ e, mkBlockInfo e.2 (wrap U32 (zcash_serialized_size (fb_block e.1)))) <$> zip (bs ++ [b]) (pools ++ [p]) !! Z.to_nat h).
  { intros h Hhv. rewrite zip_with_app by done. destruct (decide (h = fb_height b)) as [->|Hne].
    - rewrite get_insert_eq, Hbh, Nat2Z.id, lookup_app_r by (rewrite length_zip; lia). rewrite length_zip, Hl, Nat.min_id, Nat.sub_diag. done.
    - rewrite get_insert_ne, C3 by (done || (split; lia)). destruct (decide (Z.to_nat h < length bs)%nat); [by rewrite lookup_app_l by (rewrite length_zip; lia)|].
      rewrite !lookup_ge_None_2; [done|rewrite length_app, length_zip; cbn; destruct Hhv; lia|rewrite length_zip; lia]. }
  destruct (history_hash (block_history b)) eqn:Eh; cbn [cf_history_tree cf_tip_chain_value_pool cf_block_info]; (split; [rewrite last_snoc, Eh, C1|by apply Hpool|done]).
  - unfold zs_insert. change (as_bytes tt) with ([] : list Z). destruct (last bs) as [x|]; [|apply insert_empty]. destruct (history_hash (block_history x)); [apply insert_singleton_eq|apply insert_empty].
  - destruct (last bs) as [x|] eqn:El; [|done]. by rewrite (Hhist Eh x El).
Qed.

(** The updates of the balances [upd] before the block [b], and its outputs [news]. *)
Record batch_input (news : list (OutputLocation * Utxo)) (upd : AddressBalanceLocationUpdates) (X : gset Address) : Prop := {
  bi_news : outputs_of news ≡ₚ block_txs b ≫= tx_outputs;
  bi_updates : updates_ok network (read_address_balance_location db) (λ a, a ∈ X) upd;
  bi_view : ∀ a, view (read_address_balance_location db) upd a = entry <$> read_address_balance_location db a;
  bi_changed : ∀ u a, u ∈ news.*2 ∨ u ∈ spent_utxo_at bs b <$> (transactions (fb_block b) ≫= spent_outpoints) → address (output u) network = Some a → a ∈ X;
  bi_mode : finished_format_upgrades db = true → inserting upd;
}.

(** The batch of the transparent data is the only one that may fail, beside the value pools. *)
Lemma block_batch_parts news upd pool : read_finalized_value_pool db = Ok pool →
  ∃ blocks shielded, blocks_ok (bs ++ [b]) blocks ∧ shielded_ok (bs ++ [b]) shielded ∧
    prepare_block_batch db network b (by_out_loc news) (spent_by_outpoint bs b) (spent_by_loc bs b) (loc_by_outpoint bs b) upd pool prev =
      (tr ← (if is_min (fb_height b) then Ok (fin_transparent db)
             else lift (prepare_transparent_transaction_batch network (fin_transparent db) b (by_out_loc news) (spent_by_outpoint bs b) (spent_by_loc bs b) (loc_by_outpoint bs b) upd));
       p ← next_pools bs pools b;
       Ok (mkFinalizedDb (fin_network db) (finished_format_upgrades db) blocks shielded tr
             (mkChainCfs (cf_history_tree (update_history_tree (fin_chain db) (block_history b))) (zs_insert (cf_tip_chain_value_pool (update_history_tree (fin_chain db) (block_history b))) tt p)
                (zs_insert (cf_block_info (update_history_tree (fin_chain db) (block_history b))) (fb_height b) (mkBlockInfo p (wrap U32 (zcash_serialized_size (fb_block b)))))))).
Proof.
  intros Hpool. pose proof Hf as [F1 F2 F3 F4 F5 F6 F7 F8 F9 F10]. unfold prepare_block_batch.
  destruct (block_batch_Ok network bs b (fin_blocks db) F3 Hv F7) as (blocks & -> & Hblocks). cbn [lift]. rewrite Ok_bind.
  destruct (nullifiers_batch_Ok network bs b (fin_shielded db) Hv Hs F8) as (n1 & n2 & n3 & -> & N1 & N2 & N3). cbn [lift]. rewrite Ok_bind.
  destruct (trees_batch_Ok network bs b db prev F3 Hv Hs F7 F8 Hprev n1 n2 n3 (fin_chain db) N1 N2 N3) as (shielded & -> & Hshielded). cbn [lift]. rewrite Ok_bind.
  exists blocks, shielded. split_and!; [done|done|]. apply bind_ext. intros tr.
  pose proof (pools_batch network bs pools b db (update_history_tree (fin_chain db) (block_history b)) Hf) as Hp. rewrite Hpool in Hp. cbn [lift] in Hp. rewrite Ok_bind in Hp. rewrite Hp.
  by destruct (next_pools bs pools b).
Qed.

Lemma block_batch_exact news upd X pool : batch_input news upd X → balances_fit network bs b → read_finalized_value_pool db = Ok pool →
  ∃ next : ValueBalance NonNegative → FinalizedDb,
    prepare_block_batch db network b (by_out_loc news) (spent_by_outpoint bs b) (spent_by_loc bs b) (loc_by_outpoint bs b) upd pool prev = (p ← next_pools bs pools b; Ok (next p)) ∧
    ∀ p, finalized_ok network (bs ++ [b]) (pools ++ [p]) (next p).
Proof.
  intros [Hnews Hupd Hview HX _] Hfit Hpool. pose proof Hf as [F1 F2 F3 F4 F5 F6 F7 F8 F9 F10]. destruct next_outputs_ok as [Ho Hok].
  destruct (block_batch_parts news upd pool Hpool) as (blocks & shielded & Hblocks & Hshielded & ->).
  assert (Htr : ∃ tr, (if is_min (fb_height b) then Ok (fin_transparent db) else lift (E := ValidateContextError) (prepare_transparent_transaction_batch network (fin_transparent db) b (by_out_loc news)
    (spent_by_outpoint bs b) (spent_by_loc bs b) (loc_by_outpoint bs b) upd)) = Ok tr ∧ transparent_ok network (bs ++ [b]) tr).
  { destruct (is_min (fb_height b)) eqn:Em; [exists (fin_transparent db); split; [done|by apply genesis_transparent]|].
    destruct (transparent_batch_Ok network bs b db F3 Hv Hok F6 F9 X upd news Hupd Hview Hnews HX Em Hfit) as (tr & -> & Htr). by exists tr. }
  destruct Htr as (tr & -> & Htr). rewrite Ok_bind. eexists. split; [reflexivity|].
  intros p. split; [done|rewrite !length_app, F2; done|by apply (heights_snoc bs b network)|apply (vn_tx_hashes _ _ _ Hv)|exact Ho|apply next_located|done|done|done|apply next_chain_ok].
Qed.

Lemma block_batch_panic news upd X pool a : batch_input news upd X → finished_format_upgrades db = true → MAX_MONEY < balance_with_outputs network bs b a →
  read_finalized_value_pool db = Ok pool →
  prepare_block_batch db network b (by_out_loc news) (spent_by_outpoint bs b) (spent_by_loc bs b) (loc_by_outpoint bs b) upd pool prev = Panic.
Proof.
  intros [Hnews Hupd Hview HX Hmode] Hfin Hover Hpool. pose proof Hf as [F1 F2 F3 F4 F5 F6 F7 F8 F9 F10]. destruct next_outputs_ok as [Ho Hok].
  destruct (block_batch_parts news upd pool Hpool) as (blocks & shielded & _ & _ & ->). destruct (is_min (fb_height b)) eqn:Em.
  - exfalso. assert (Hbs : bs = []).
    { destruct (vn_height _ _ _ Hv) as [Hbh _]. unfold is_min, Height.MIN in Em. apply Z.eqb_eq in Em. destruct bs; [done|]. cbn in Hbh. lia. }
    assert (chain_outputs (bs ++ [b]) = []) as Hc.
    { rewrite Hbs, chain_outputs_snoc. cbn. unfold block_outputs, spendable. rewrite filter_none; [done|]. intros e (i & _ & He)%elem_of_block_txs. rewrite He. cbn. congruence. }
    unfold balance_with_outputs in Hover. rewrite Hc in Hover. by vm_compute in Hover.
  - unfold prepare_transparent_transaction_batch.
    by rewrite (create_batch_panic network bs b db Hok F9 X upd news Hupd Hview Hnews HX a Em (Hmode Hfin) Hover).
Qed.

Lemma changed_addresses_spec (utxos : list Utxo) a : a ∈ changed_addresses_of network utxos ↔ ∃ u, u ∈ utxos ∧ address (output u) network = Some a.
Proof. unfold changed_addresses_of. rewrite elem_of_list_to_set, list_elem_of_omap. done. Qed.

Lemma write_block_batch : ∃ news upd X pool, batch_input news upd X ∧ read_finalized_value_pool db = Ok pool ∧
  write_block db b prev network =
    (db' ← prepare_block_batch db network b (by_out_loc news) (spent_by_outpoint bs b) (spent_by_loc bs b) (loc_by_outpoint bs b) upd pool prev; Ok (db', fb_hash b)).
Proof.
  pose proof Hf as [F1 F2 F3 F4 F5 F6 F7 F8 F9 F10]. unfold write_block. destruct (new_outputs_by_loc network bs b Hv) as (news & -> & Hnews & Hutxos). cbn [lift]. rewrite Ok_bind.
  rewrite (lookup_spents_Ok network bs b F3 Hv F6 db F7 F9). cbn [lift]. rewrite Ok_bind. cbn zeta. rewrite Hutxos, <- !list_fmap_compose.
  set (ps := transactions (fb_block b) ≫= spent_outpoints). pose proof (spent_NoDup network bs b Hv F6) as Hps. fold ps in Hps.
  change (by_out_loc ((λ '(_, location, utxo), (location, utxo)) ∘ (λ p, (p, out_loc_of bs b p, spent_utxo_at bs b p)) <$> ps)) with (spent_by_loc bs b).
  assert (Hm : ∀ {A} (f : OutPoint → A), list_to_map (M := gmap OutPoint A) (reverse ((λ p, (p, f p)) <$> ps)) = list_to_map ((λ p, (p, f p)) <$> ps)).
  { intros A f. apply list_to_map_reverse. by rewrite <- list_fmap_compose, list_fmap_id. }
  change (list_to_map (reverse ((λ '(outpoint, _, utxo), (outpoint, utxo)) ∘ (λ p, (p, out_loc_of bs b p, spent_utxo_at bs b p)) <$> ps))) with
    (list_to_map (M := gmap OutPoint Utxo) (reverse ((λ p, (p, spent_utxo_at bs b p)) <$> ps))).
  change (list_to_map (reverse ((λ '(outpoint, location, _), (outpoint, location)) ∘ (λ p, (p, out_loc_of bs b p, spent_utxo_at bs b p)) <$> ps))) with
    (list_to_map (M := gmap OutPoint OutputLocation) (reverse ((λ p, (p, out_loc_of bs b p)) <$> ps))).
  rewrite !Hm. change (list_to_map ((λ p, (p, spent_utxo_at bs b p)) <$> ps)) with (spent_by_outpoint bs b). change (list_to_map ((λ p, (p, out_loc_of bs b p)) <$> ps)) with (loc_by_outpoint bs b).
  set (X := changed_addresses_of network _).
  assert (HX : ∀ u a, u ∈ news.*2 ∨ u ∈ spent_utxo_at bs b <$> ps → address (output u) network = Some a → a ∈ X).
  { intros u a Hu Ha. apply changed_addresses_spec. exists u. split; [|done]. apply elem_of_app. destruct Hu as [Hu|Hu]; [by right|left].
    apply list_elem_of_fmap in Hu as (p & -> & Hp). apply list_elem_of_fmap. exists (out_loc_of bs b p, spent_utxo_at bs b p). split; [done|]. rewrite (spent_by_loc_perm network) by done.
    by apply (list_elem_of_fmap_2 (λ p, (out_loc_of bs b p, spent_utxo_at bs b p))). }
  destruct (read_balances_Ok network db X) as (upd & Hread & Hupd & Hview); [intros a s; apply (tr_entries _ _ _ F9)|intros a (u & _ & Ha)%changed_addresses_spec; by apply (address_valid_spec network (output u))|].
  assert (Hmode : finished_format_upgrades db = true → inserting upd) by (intros Hfin; unfold read_address_balances in Hread; rewrite Hfin in Hread; by injection Hread as <-).
  rewrite Hread. cbn [lift]. rewrite Ok_bind. destruct (read_finalized_value_pool db) as [pool|[]|] eqn:Epool; [|exfalso].
  - cbn [lift]. rewrite Ok_bind. exists news, upd, X, pool. split_and!; [by split|done|done].
  - unfold read_finalized_value_pool in Epool. rewrite vb_zero_spec in Epool. by destruct (zs_get _ _).
Qed.

Lemma write_block_next : balances_fit network bs b → ∃ next : ValueBalance NonNegative → FinalizedDb,
  write_block db b prev network = (p ← next_pools bs pools b; Ok (next p, fb_hash b)) ∧ ∀ p, finalized_ok network (bs ++ [b]) (pools ++ [p]) (next p).
Proof.
  intros Hfit. destruct write_block_batch as (news & upd & X & pool & Hin & Hpool & ->).
  destruct (block_batch_exact news upd X pool Hin Hfit Hpool) as (next & -> & Hnext). exists next. split; [by destruct (next_pools bs pools b)|done].
Qed.

Lemma write_block_panic a : finished_format_upgrades db = true → MAX_MONEY < balance_with_outputs network bs b a → write_block db b prev network = Panic.
Proof.
  intros Hfin Hover. destruct write_block_batch as (news & upd & X & pool & Hin & Hpool & ->).
  by rewrite (block_batch_panic news upd X pool a Hin Hfin Hover Hpool).
Qed.

End Write.

(** ** Committing blocks *)

(** What the checks before the commit guarantee. They say nothing of the balances of addresses. *)
Record valid_commit network bs b : Prop := {
  vc_next : valid_next network bs b;
  vc_shielded : shielded_next bs b;
  vc_history : history_next bs b;
  vc_parent : previous_block_hash (header (fb_block b)) = from_option fb_hash GENESIS_PREVIOUS_BLOCK_HASH (last bs);
}.

Lemma follows_tip_Ok network bs pools b db : finalized_ok network bs pools db → valid_commit network bs b →
  assert_follows_tip db (fb_height b) (previous_block_hash (header (fb_block b))) = Ok tt.
Proof.
  intros Hf [Hv _ _ Hp]. pose proof (fo_heights _ _ _ _ Hf) as Hh. pose proof (fo_blocks _ _ _ _ Hf) as Hb. destruct (vn_height _ _ _ Hv) as [Hbh Hlt].
  unfold assert_follows_tip, read_is_empty. rewrite (read_tip_hash_Ok _ _ Hh Hb), Ok_bind, (read_tip_height_Ok _ _ Hh Hb), Ok_bind, (blocks_empty _ _ Hh Hb), <- Hp.
  destruct (last bs) as [x|] eqn:El.
  - rewrite bool_decide_eq_false_2 by (intros ->; done). cbn [fmap option_fmap option_map expect]. rewrite Ok_bind. destruct (heights_last _ _ Hh El) as [Hx Hl]. apply lookup_lt_Some in Hl.
    assert (Height.add_diff (fb_height x) 1 = Some (fb_height b)) as ->.
    { rewrite Hx, Hbh. assert (Z.of_nat (pred (length bs)) + 1 = Z.of_nat (length bs)) as Hn by lia. unfold Height.add_diff. rewrite Hn. change MAX_ON_DISK_HEIGHT with 16777215 in Hlt.
      rewrite wrap_fits by (apply fits_spec; cbn; lia). rewrite try_from_fits by (apply fits_spec; cbn; lia). cbn [mbind option_bind]. unfold Height.try_from_u32.
      change Height.MAX with 2147483647. by rewrite (proj2 (Z.leb_le _ _)) by lia. }
    rewrite !bool_decide_eq_true_2 by done. done.
  - apply last_None in El as ->. rewrite !bool_decide_eq_true_2 by (done || by rewrite Hbh). done.
Qed.

(** The trees that are read for the tip. *)
Lemma subtree_for_tip_Ok {Node} (cf : Cf SubtreeIndex (NoteCommitmentSubtreeData Node)) bs db : heights_ok bs → blocks_ok bs (fin_blocks db) → cf_valid SubtreeIndex cf →
  ∃ o, subtree_for_tip db cf = Ok o.
Proof.
  intros Hh Hb Hc. unfold subtree_for_tip, zs_last_key_value. destruct (range_next cf (Unbounded, Unbounded) true Hc) as (o & -> & _); [done..|]. rewrite Ok_bind.
  destruct o as [[i d]|]; [|by eexists]. rewrite (read_tip_height_Ok _ _ Hh Hb), Ok_bind. by eexists.
Qed.

Lemma tip_trees_Ok network bs pools db : finalized_ok network bs pools db →
  ∃ p, read_note_commitment_trees_for_tip db = Ok p ∧ trees_sprout p = from_option sprout_of sprout_default (last bs) ∧
    trees_sapling p = from_option sapling_of sapling_default (last bs) ∧ trees_orchard p = from_option orchard_of orchard_default (last bs).
Proof.
  intros [_ _ Hh _ _ _ Hb Hs _ _]. unfold read_note_commitment_trees_for_tip. rewrite (read_sprout_tip_Ok _ _ Hh Hb Hs), Ok_bind.
  unfold read_sapling_tree_for_tip, read_orchard_tree_for_tip. rewrite (tree_for_tip_Ok sapling_of bs db _ sapling_default Hh Hb (sh_sapling_trees _ _ Hs)), Ok_bind.
  destruct (subtree_for_tip_Ok (cf_sapling_note_commitment_subtree (fin_shielded db)) bs db Hh Hb) as (o & ->); [apply (sh_sapling_subtrees _ _ Hs)|]. rewrite Ok_bind.
  rewrite (tree_for_tip_Ok orchard_of bs db _ orchard_default Hh Hb (sh_orchard_trees _ _ Hs)), Ok_bind.
  destruct (subtree_for_tip_Ok (cf_orchard_note_commitment_subtree (fin_shielded db)) bs db Hh Hb) as (o' & ->); [apply (sh_orchard_subtrees _ _ Hs)|]. rewrite Ok_bind. by eexists.
Qed.

Lemma history_tip_Ok network bs pools db : finalized_ok network bs pools db → (∀ t, history_hash t = None → t = history_default) →
  read_history_tree db = Ok (from_option block_history history_default (last bs)).
Proof.
  intros Hf Hempty. unfold read_history_tree, zs_get. rewrite (ch_history _ _ _ (fo_chain _ _ _ _ Hf)). change (as_bytes tt) with ([] : list Z).
  assert (Hlast : (last ← zs_last_key_value (K := Height) (∅ : gmap (list Z) HistoryTree); Ok (default history_default (option_map snd last))) = Ok (E := Empty_set) history_default).
  { unfold zs_last_key_value. destruct (range_next (K := Height) (∅ : gmap (list Z) HistoryTree) (Unbounded, Unbounded) true) as (o & -> & Ho); [apply cf_valid_empty|done..|]. rewrite Ok_bind.
    destruct o as [[k v]|]; [|done]. destruct Ho as (_ & Hg & _). unfold zs_get in Hg. by rewrite lookup_empty in Hg. }
  destruct (last bs) as [x|]; [|by rewrite lookup_empty, Hlast]. destruct (history_hash (block_history x)) eqn:E; [by rewrite lookup_singleton_eq|]. rewrite lookup_empty, Hlast. cbn. by rewrite (Hempty _ E).
Qed.

End Invariant.
