(* ===== verification/FinalizedState.v ===== *)
(** * Properties of the finalized state

    [commit_finalized_direct] of [zebra-state/src/service/finalized_state.rs] on the databases it leads to, [committed]: what a commit does on each outcome, what
    the reads of [finalized_state/zebra_db/] answer, and where the commit of a valid block fails. *)

From S2P Require Import Prelude Height Amount Serialization ValueBalance Network Transaction Merkle TransactionCodec Reversible Transfers TreeIndex Ledger SpendChecks ContextChecks Chain DiskFormat DiskDb FinalizedDb TransparentIndex ChainIndex ShieldedIndex FinalizedInvariant.

(** ** Value pools *)

Lemma flat_map_sum_total txs utxos acc : Forall tx_ok txs → outs_ok (outputs_from_utxos utxos) → vb_ok acc → Forall (inputs_known (outputs_from_utxos utxos)) txs →
  no_panic (flat_map_sum acc txs utxos) ∧ ∀ v, flat_map_sum acc txs utxos = Ok v → vb_ok v.
Proof.
  intros Htx Ho. revert acc. induction Htx as [|t txs Ht _ IH]; intros acc Ha Hk; cbn [flat_map_sum]; [split; [done|by intros v [= <-]]|].
  apply Forall_cons in Hk as [Hkt Hk]. destruct (value_balance_spec t _ Ht Ho) as [Hs Hn]. specialize (Hn Hkt). unfold value_balance.
  destruct (value_balance_from_outputs t (outputs_from_utxos utxos)) as [c| |]; [|by apply IH|done]. destruct (Hs c eq_refl) as [Hc _]. split.
  - apply no_panic_bind; [by apply add_no_panic|]. intros x [Hx _]%add_Ok; [|done|done]. by apply IH.
  - intros v (x & [Hx _]%add_Ok & Hv)%bind_Ok; [|done|done]. by apply (IH x).
Qed.

Lemma chain_change_total (b : Block) utxos d : Forall tx_ok (transactions b) → outs_ok (outputs_from_utxos utxos) → Forall (inputs_known (outputs_from_utxos utxos)) (transactions b) →
  amount_ok (default (mkAmount 0) (deferred_value <$> d)) = true →
  no_panic (chain_value_pool_change b utxos d) ∧ ∀ c, chain_value_pool_change b utxos d = Ok c → vb_ok c.
Proof.
  intros Htx Ho Hk Hd. unfold chain_value_pool_change. rewrite vb_zero_spec, Ok_bind, Amount.zero_spec.
  destruct (flat_map_sum_total (transactions b) utxos _ Htx Ho vb_zero_ok Hk) as [Hn Hv]. split.
  - apply no_panic_bind; [done|]. intros v Hok%Hv. by destruct (vb_neg_spec v Hok) as (w & -> & _).
  - intros c (v & Hok%Hv & Hc)%bind_Ok. destruct (vb_neg_spec v Hok) as (w & Hw & Hwok & _). rewrite Hw in Hc. cbn in Hc. injection Hc as <-.
    apply vb_ok_inv in Hwok as (? & ? & ? & ? & ?). apply vb_ok_inv. cbn. by split_and!.
Qed.

Section State.
Context `{Env : !ChainEnv, SP : !ScriptParser, SL : !ScriptParserLaws, HF : !HashFns, Rocks : !RocksDb}.
Context `{RL : !RocksDbLaws, EL : !ChainEnvLaws, Empties : !EmptyTrees}.
Context (sapling_root_try_from : list Z → option Hash) (v5_auth_digest : Transaction → Hash).
Local Abbreviation prepare := (prepare_finalizable sapling_root_try_from v5_auth_digest).
Local Abbreviation commit := (commit_finalized_direct sapling_root_try_from v5_auth_digest).
Implicit Types (b : FinalizedBlock) (bs : list FinalizedBlock) (pools : list (ValueBalance NonNegative)).

(** The value pools after a block are computed without a panic. *)
Lemma next_pools_safe network bs pools b db : finalized_ok network bs pools db → valid_next network bs b → Forall vb_ok pools →
  no_panic (next_pools bs pools b) ∧ ∀ p, next_pools bs pools b = Ok p → vb_ok p.
Proof.
  intros Hf Hv Hp. destruct (vn_amounts _ _ _ Hv) as [Htx Hd]. pose proof (fo_located _ _ _ _ Hf) as Hl. pose proof (fo_heights _ _ _ _ Hf) as Hh.
  destruct (next_outputs_ok network bs pools b db Hf Hv) as [_ [_ Hok]]. rewrite Forall_forall in Hok.
  assert (Hlook : ∀ p, outputs_from_utxos (spent_by_outpoint bs b) !! p = if decide (p ∈ transactions (fb_block b) ≫= spent_outpoints) then Some (output_of bs b p) else None).
  { intros p. unfold outputs_from_utxos, spent_by_outpoint. rewrite lookup_fmap, (map_of_spends network bs b Hv Hl). by destruct (decide _). }
  assert (Hknown : Forall (inputs_known (outputs_from_utxos (spent_by_outpoint bs b))) (transactions (fb_block b))).
  { apply Forall_forall. intros t Ht. apply Forall_forall. intros p Hpt. rewrite Hlook, decide_True by (apply list_elem_of_bind; by exists t). by eexists. }
  assert (Houts : outs_ok (outputs_from_utxos (spent_by_outpoint bs b))).
  { intros p o Ho. rewrite Hlook in Ho. case_decide as Hin; [|done]. injection Ho as <-. apply (Hok (out_loc_of bs b p, output_of bs b p)). by apply (spent_output_spec network). }
  destruct (chain_change_total (fb_block b) (spent_by_outpoint bs b) (fb_deferred_pool_balance_change b) Htx Houts Hknown Hd) as [Hn Hc].
  unfold next_pools. rewrite vb_zero_spec, Ok_bind. cbn zeta. set (pool := default _ (last pools)).
  assert (Hpool : vb_ok pool). { unfold pool. destruct (last pools) as [q|] eqn:El; [|by apply vb_ok_inv]. rewrite Forall_forall in Hp. by apply Hp, last_Some_elem_of. }
  split.
  - apply no_panic_bind; [by apply no_panic_map_err|]. intros c Hcc%map_err_Ok. apply no_panic_map_err, add_change_no_panic; [done|by apply Hc].
  - intros p (c & Hcc%map_err_Ok & Hadd%map_err_Ok)%bind_Ok. apply add_change_Ok in Hadd as [? _]; [done|done|by apply Hc].
Qed.

(** ** Committing *)

Lemma prepared_prev_ok network bs pools db blk prev b prev' : finalized_ok network bs pools db → prev_trees_ok bs prev → prepare db blk prev = Ok (b, prev') → prev_trees_ok bs prev'.
Proof.
  intros Hf Hp Hr. destruct blk as [cv|cv ts]; cbn [prepare_finalizable] in Hr; [|injection Hr as _ <-; done]. apply bind_Ok in Hr as ([ts p] & Hr & [= _ <-]).
  unfold checkpoint_treestate in Hr. apply bind_Ok in Hr as (h & _ & Hr). apply bind_Ok in Hr as (p' & Hp' & Hr). assert (p' = p) as ->.
  { apply bind_Ok in Hr as (? & _ & Hr). apply bind_Ok in Hr as (? & _ & Hr). apply bind_Ok in Hr as (? & _ & [= _ ->]). done. }
  destruct prev as [q|]; [injection Hp' as ->; done|]. destruct (tip_trees_Ok _ _ _ _ Hf) as (q & Hq & H1 & H2 & H3). rewrite Hq in Hp'. injection Hp' as ->.
  intros r x [= <-] Hx. rewrite H1, H2, H3, Hx. done.
Qed.

(** The databases that commits of valid blocks lead to, with the blocks, the value pools after them, and the trees that the last commit returned. While the format
    of the database is upgraded, the balances must fit; later, the commit would have panicked. *)
Inductive committed (network : Network) : list FinalizedBlock → list (ValueBalance NonNegative) → FinalizedDb → option NoteCommitmentTrees → Prop :=
| committed_empty finished : committed network [] [] (empty_db network finished) None
| committed_upgraded bs pools db trees : committed network bs pools db trees → committed network bs pools (mark_finished_format_upgrades db) trees
| committed_block bs pools db trees blk prev b prev' p db' hash trees' :
    committed network bs pools db trees → prev = None ∨ prev = trees → prepare db blk prev = Ok (b, prev') → valid_commit network bs b →
    (finished_format_upgrades db = false → balances_fit network bs b) → next_pools bs pools b = Ok p → commit db blk prev = Ok (db', (hash, trees')) → committed network (bs ++ [b]) (pools ++ [p]) db' (Some trees').

(** The commit is the write of the block. *)
Lemma commit_write network bs pools db blk prev b prev' : finalized_ok network bs pools db → prepare db blk prev = Ok (b, prev') → valid_commit network bs b →
  commit db blk prev = ('(db', hash) ← write_block db b prev' network; Ok (db', (hash, block_trees b))).
Proof.
  intros Hf Hr Hc. pose proof (follows_tip_Ok _ _ _ _ _ Hf Hc) as Ht. unfold commit_finalized_direct. rewrite Hr, Ok_bind, Ht. cbn [lift]. rewrite Ok_bind. cbn zeta.
  rewrite (fo_network _ _ _ _ Hf). by destruct (write_block db b prev' network) as [[]| |].
Qed.

Lemma commit_next network bs pools db blk prev b prev' : finalized_ok network bs pools db → prev_trees_ok bs prev → prepare db blk prev = Ok (b, prev') → valid_commit network bs b →
  balances_fit network bs b → ∃ next : ValueBalance NonNegative → FinalizedDb,
    commit db blk prev = (p ← next_pools bs pools b; Ok (next p, (fb_hash b, block_trees b))) ∧ ∀ p, finalized_ok network (bs ++ [b]) (pools ++ [p]) (next p).
Proof.
  intros Hf Hp Hr Hc Hfit. pose proof (prepared_prev_ok _ _ _ _ _ _ _ _ Hf Hp Hr) as Hp'. rewrite (commit_write _ _ _ _ _ _ _ _ Hf Hr Hc). destruct Hc as [Hv Hs Hh _].
  destruct (write_block_next network bs pools b db prev' Hf Hv Hs Hh Hp' Hfit) as (next & -> & Hnext). exists next. split; [by destruct (next_pools bs pools b)|done].
Qed.

Lemma commit_overflow network bs pools db blk prev b prev' a : finalized_ok network bs pools db → prev_trees_ok bs prev → prepare db blk prev = Ok (b, prev') → valid_commit network bs b →
  finished_format_upgrades db = true → MAX_MONEY < balance_with_outputs network bs b a → commit db blk prev = Panic.
Proof.
  intros Hf Hp Hr Hc Hfin Hover. pose proof (prepared_prev_ok _ _ _ _ _ _ _ _ Hf Hp Hr) as Hp'. rewrite (commit_write _ _ _ _ _ _ _ _ Hf Hr Hc). destruct Hc as [Hv Hs Hh _].
  by rewrite (write_block_panic network bs pools b db prev' Hf Hv Hs Hh Hp' a Hfin Hover).
Qed.

(** A commit that returned kept the balances in range. *)
Lemma committed_fit network bs pools db blk prev b prev' r : finalized_ok network bs pools db → prev_trees_ok bs prev → prepare db blk prev = Ok (b, prev') → valid_commit network bs b →
  (finished_format_upgrades db = false → balances_fit network bs b) → commit db blk prev = Ok r → balances_fit network bs b.
Proof.
  intros Hf Hp Hr Hc Hfit Hcm. destruct (finished_format_upgrades db) eqn:Hfin; [|by apply Hfit]. intros a. apply Z.nlt_ge. intros Hover.
  by rewrite (commit_overflow _ _ _ _ _ _ _ _ a Hf Hp Hr Hc Hfin Hover) in Hcm.
Qed.

Lemma empty_finalized_ok network finished : finalized_ok network [] [] (empty_db network finished).
Proof.
  assert (Hn : ∀ f es, es = [] → nullifiers_ok f es ∅) by (intros f es -> n l; split; [by unfold zs_get; rewrite lookup_empty|by intros (t & Ht%elem_of_nil & _)]).
  split; [done|done|split; [done|intros i b Hb; by rewrite lookup_nil in Hb]|constructor|constructor|constructor|..].
  - split; cbn; [by intros h _; unfold zs_get; rewrite lookup_empty, lookup_nil..| | |].
    + intros hash h. unfold zs_get. rewrite lookup_empty. split; [done|]. by intros (b & Hb%elem_of_nil & _).
    + apply cf_valid_empty.
    + split; cbn; [..|apply cf_valid_empty]; intros; unfold zs_get; rewrite lookup_empty; (split; [done|]; intros (x & Hx); by apply elem_of_nil in Hx).
  - assert (Ha : ∀ {T} `{NT : !NoteTree T Hash} (f : FinalizedBlock → T), anchors_ok f [] ∅ ∧ trees_ok f [] ∅).
    { intros T NT f. split; [|split; [apply cf_valid_empty|]].
      - intros r. unfold zs_get. rewrite lookup_empty. split; [by intros [? ?]|by intros (b & Hb%elem_of_nil & _)].
      - intros h _. unfold zs_get. rewrite lookup_empty, lookup_nil. by destruct (written f [] (Z.to_nat h)). }
    assert (Hsub : ∀ {T Node} `{NT : !NoteTree T Hash} (f : FinalizedBlock → T) (sub : FinalizedBlock → option (NoteCommitmentSubtree Node)), subtrees_ok f sub [] ∅).
    { intros T Node NT f sub. split; [apply cf_valid_empty|]. intros i d _. unfold zs_get. rewrite lookup_empty. split; [done|]. intros (h & b & st & Hb & _). by rewrite lookup_nil in Hb. }
    split; cbn; [by apply Hn..| |done|apply Ha|apply Ha|apply Hsub|apply Ha|apply Ha|apply Hsub].
    intros r t. unfold zs_get. rewrite lookup_empty. split; [done|]. by intros (b & Hb%elem_of_nil & _).
  - split; cbn; [split; constructor|done| | |intros k v Hk; by rewrite lookup_empty in Hk|done].
    + split; cbn; [..|apply cf_valid_empty].
      * intros l o _. unfold zs_get. rewrite lookup_empty. split; [done|]. by intros Hx%elem_of_nil.
      * intros al l _ _. unfold zs_get. rewrite lookup_empty. split; [by intros [? ?]|]. by intros (a & o & _ & Hx%elem_of_nil & _).
    + split; cbn; [..|apply cf_valid_empty].
      * intros l o _. unfold zs_get. rewrite lookup_empty. split; [done|]. by intros Hx%elem_of_nil.
      * intros al l _ _. unfold zs_get. rewrite lookup_empty. split; [by intros [? ?]|]. by intros (a & l' & o & _ & Hx%elem_of_nil & _).
  - split; [done|done|]. intros h _. unfold zs_get. cbn. by rewrite lookup_empty.
Qed.

Lemma caller_trees_ok bs trees prev : prev_trees_ok bs trees → prev = None ∨ prev = trees → prev_trees_ok bs prev.
Proof. intros Ht [-> | ->]; [by intros p x [=]|done]. Qed.

Lemma committed_ok network bs pools db trees : committed network bs pools db trees → finalized_ok network bs pools db ∧ Forall vb_ok pools ∧ prev_trees_ok bs trees.
Proof.
  induction 1 as [finished|bs pools db trees _ (Hf & Hp & Ht)|bs pools db trees blk prev b prev' p db' hash trees' _ (Hf & Hp & Ht) Hprev Hr Hc Hfit Hn Hcm].
  - split_and!; [apply empty_finalized_ok|constructor|by intros ? ? [=]].
  - split_and!; [|done|done]. destruct Hf as [F1 F2 F3 F4 F5 F6 F7 F8 F9 F10]. by split.
  - pose proof (caller_trees_ok _ _ _ Ht Hprev) as Hpr. pose proof (committed_fit _ _ _ _ _ _ _ _ _ Hf Hpr Hr Hc Hfit Hcm) as Hfit'.
    destruct (commit_next _ _ _ _ _ _ _ _ Hf Hpr Hr Hc Hfit') as (next & Heq & Hnext).
    rewrite Heq, Hn, Ok_bind in Hcm. injection Hcm as <- <- <-. split_and!; [apply Hnext| |].
    + apply Forall_app. split; [done|]. apply Forall_singleton. apply (next_pools_safe network bs pools b db Hf (vc_next _ _ _ Hc) Hp). done.
    + intros q x [= <-] Hx. rewrite last_snoc in Hx. injection Hx as <-. done.
Qed.

(** A valid block whose balances fit and whose value pools add up can be committed. *)
Lemma committed_next network bs pools db trees blk prev b prev' p : committed network bs pools db trees → prev = None ∨ prev = trees → prepare db blk prev = Ok (b, prev') → valid_commit network bs b →
  balances_fit network bs b → next_pools bs pools b = Ok p → ∃ db', committed network (bs ++ [b]) (pools ++ [p]) db' (Some (block_trees b)).
Proof.
  intros Hcm Hprev Hr Hc Hfit Hp. destruct (committed_ok _ _ _ _ _ Hcm) as (Hf & _ & Ht). destruct (commit_next _ _ _ _ _ _ _ _ Hf (caller_trees_ok _ _ _ Ht Hprev) Hr Hc Hfit) as (next & Heq & _).
  exists (next p). apply (committed_block _ bs pools db trees blk prev b prev' p _ (fb_hash b)); [done..|]. by rewrite Heq, Hp.
Qed.

(** C5: the finalized state stores exactly the chain that is committed to it. Take a database that commits lead to, and a block that passed the checks, whether it
    comes from the checkpoint verifier or from the non-finalized state, with the trees of the last commit or with those read from the database. If no balance,
    counted with all the outputs of the block and before its spends, exceeds the supply, which the checks do not guarantee, then the commit does not panic. It
    returns the error of the value pools and writes nothing if the pools of the chain can not take the change of the block; else every column family then
    holds the data of the chain with this block: headers, hashes and transactions by location, the unspent outputs, the balances, outputs and
    transactions of each address, nullifiers, anchors, trees and subtrees, the history tree and the value pools. *)
Theorem commit_exact network bs pools db trees blk prev b prev' :
  committed network bs pools db trees → prev = None ∨ prev = trees → prepare db blk prev = Ok (b, prev') → valid_commit network bs b → balances_fit network bs b →
  match next_pools bs pools b with
  | Ok p => ∃ db', commit db blk prev = Ok (db', (fb_hash b, block_trees b)) ∧ finalized_ok network (bs ++ [b]) (pools ++ [p]) db'
  | Err e => commit db blk prev = Err e
  | Panic => False
  end.
Proof.
  intros Hcm Hprev Hr Hc Hfit. destruct (committed_ok _ _ _ _ _ Hcm) as (Hf & Hp & Ht).
  destruct (commit_next _ _ _ _ _ _ _ _ Hf (caller_trees_ok _ _ _ Ht Hprev) Hr Hc Hfit) as (next & Heq & Hnext).
  destruct (next_pools_safe network bs pools b db Hf (vc_next _ _ _ Hc) Hp) as [Hsafe _]. rewrite Heq. destruct (next_pools bs pools b) as [p|e|]; [|done|done].
  exists (next p). by rewrite Ok_bind.
Qed.

(** C38: on every database that commits lead to and whose format is up to date, the commit of a block that passed the checks panics if the balance of an address,
    counted with all the outputs it receives in the block and before the spends of the block, exceeds the supply: the balances are updated with the outputs
    of the block before its spends, so a block that moves the same coins to an address again and again can not be committed. *)
Theorem chained_transfers_panic network bs pools db trees blk prev b prev' a :
  committed network bs pools db trees → prev = None ∨ prev = trees → prepare db blk prev = Ok (b, prev') → valid_commit network bs b →
  finished_format_upgrades db = true → MAX_MONEY < balance_with_outputs network bs b a → commit db blk prev = Panic.
Proof.
  intros Hcm Hprev Hr Hc Hfin Hover. destruct (committed_ok _ _ _ _ _ Hcm) as (Hf & _ & Ht).
  by apply (commit_overflow network bs pools db blk prev b prev' a Hf (caller_trees_ok _ _ _ Ht Hprev)).
Qed.

(** ** Reads of blocks *)

Lemma numbered_elem bs b (i : nat) l t : heights_ok bs → bs !! i = Some b → (l, t) ∈ numbered_txs b ↔ (∃ hash, (l, (t, hash)) ∈ chain_txs bs) ∧ tx_loc_height l = Z.of_nat i.
Proof.
  intros [Hlen Hh] Hb. destruct (Hh i b Hb) as (Hbh & Hl & _). rewrite <- (numbered_txs_fmap b Hl), list_elem_of_fmap. split.
  - intros ([l' [t' hash]] & [= -> ->] & He). split; [exists hash; apply list_elem_of_bind; exists b; split; [done|by eapply list_elem_of_lookup_2]|].
    apply elem_of_block_txs in He as (j & _ & He). cbn in He. by rewrite He.
  - intros [(hash & (b' & He & [i' Hi']%list_elem_of_lookup)%list_elem_of_bind) Hi]. exists (l, (t, hash)). split; [done|]. destruct (Hh i' b' Hi') as (Hb' & _ & _).
    pose proof He as (j & _ & Hl')%elem_of_block_txs. cbn in Hl'. rewrite Hl' in Hi. cbn in Hi. assert (i' = i) as -> by lia. congruence.
Qed.

Lemma numbered_sorted b : StronglySorted (entry_lt (V := Transaction) false) (numbered_txs b).
Proof. apply StronglySorted_imap. intros i j x y Hij. unfold entry_lt. cbn. unfold tx_loc_cmp, then_cmp. cbn. rewrite Z.compare_refl, Z.compare_lt_iff. lia. Qed.

Lemma tx_entry_asym (x y : TransactionLocation * Transaction) : entry_lt false x y → entry_lt false y x → False.
Proof.
  unfold entry_lt. cbn. intros H1 H2. pose proof (tx_loc_cmp_spec x.1 y.1) as S1. pose proof (tx_loc_cmp_spec y.1 x.1) as S2. rewrite H1 in S1. rewrite H2 in S2. unfold tx_loc_lt in *. lia.
Qed.

Lemma in_height_range h k : tx_loc_valid k → in_range (Included (min_for_height h), Included (max_for_height h)) k ↔ tx_loc_height k = h.
Proof.
  intros [_ Hk]. unfold in_range. cbn [fst snd]. change key_cmp with tx_loc_cmp. rewrite !tx_loc_cmp_le. destruct k as [h' i]. cbn in Hk. unfold tx_loc_lt, min_for_height, max_for_height. cbn. split.
  - intros [[H1|H1] [H2|H2]]; simplify_eq; try done; lia.
  - intros ->. split; [destruct (decide (i = 0)) as [->|]|destruct (decide (i = 65535)) as [->|]]; auto; right; right; split; [done|lia|done|lia].
Qed.

Lemma read_transactions_Ok network bs pools db b (i : nat) : finalized_ok network bs pools db → bs !! i = Some b → read_transactions_by_height db (Z.of_nat i) = Ok (numbered_txs b).
Proof.
  intros Hf Hb. pose proof (fo_heights _ _ _ _ Hf) as Hh. pose proof (lookup_lt_Some _ _ _ Hb) as Hi. pose proof (proj1 Hh) as Hmax. destruct (fo_blocks _ _ _ _ Hf) as [_ _ _ _ [T1 _ _ T4]].
  assert (Hiv : height_valid (Z.of_nat i)) by (split; lia). unfold read_transactions_by_height, zs_forward_range_iter.
  destruct (range_items (cf_tx_by_loc (fin_blocks db)) (Included (min_for_height (Z.of_nat i)), Included (max_for_height (Z.of_nat i))) false T4) as (l & _ & -> & Hsort & Hin).
  - split; [done|]. cbn. lia.
  - split; [done|]. cbn. lia.
  - cbn [snd bound_map]. unfold as_bytes. rewrite tx_loc_into. cbn [ok_value]. apply height_end_ok; [cbn; lia|]. apply be_bytes_ok.
  - f_equal. apply (strict_sorted_eq (entry_lt false)); [apply tx_entry_asym|done|apply numbered_sorted|]. intros [k v]. rewrite Hin, (numbered_elem bs b i) by done. split.
    + intros (Hk & Hg & Hr1 & Hr2). rewrite T1 in Hg by done. split; [done|]. apply in_height_range; [done|by split].
    + intros [(hash & He) Hk]. destruct (chain_txs_elem _ _ Hh He) as [Hkv _]. cbn in Hkv. split_and!; [done|apply T1; [done|by exists hash]|]. by apply in_height_range.
Qed.

(** Transaction [j] of block [i] is [t], with its hash. *)
Definition chain_tx bs (i j : nat) (t : Transaction) (hash : Hash) : Prop :=
  ∃ b, bs !! i = Some b ∧ transactions (fb_block b) !! j = Some t ∧ fb_transaction_hashes b !! j = Some hash.
(** The transaction that creates the output of an outpoint, and a transaction that spends it. *)
Definition creates bs (p : OutPoint) (o : Output) : Prop := ∃ i j t (k : nat), chain_tx bs i j t (outpoint_hash p) ∧ i ≠ 0%nat ∧ outpoint_index p = Z.of_nat k ∧ outputs t !! k = Some o.
Definition spends bs (p : OutPoint) (hash : Hash) : Prop := ∃ i j t, chain_tx bs i j t hash ∧ p ∈ spent_outpoints t.
(** A transaction that reveals a nullifier. *)
Definition reveals (f : Transaction → list Hash) bs (n hash : Hash) : Prop := ∃ i j t, chain_tx bs i j t hash ∧ n ∈ f t.

Lemma chain_tx_spec bs l t hash : heights_ok bs → (l, (t, hash)) ∈ chain_txs bs ↔ ∃ i j, chain_tx bs i j t hash ∧ l = mkTxLoc (Z.of_nat i) (Z.of_nat j).
Proof.
  intros [_ Hh]. split.
  - intros (b & (j & Hj & Hl)%elem_of_block_txs & [i Hi]%list_elem_of_lookup)%list_elem_of_bind. cbn in *. destruct (Hh i b Hi) as (Hbh & _). exists i, j. apply lookup_zip_Some in Hj as [Ht Hx].
    split; [by exists b|]. by rewrite Hl, Hbh.
  - intros (i & j & (b & Hi & Ht & Hx) & ->). destruct (Hh i b Hi) as (Hbh & _). apply list_elem_of_bind. exists b. split; [|by eapply list_elem_of_lookup_2].
    apply elem_of_block_txs. exists j. cbn. rewrite Hbh. split; [|done]. by apply lookup_zip_Some.
Qed.

Lemma chain_tx_fun bs l t hash t' hash' : heights_ok bs → (l, (t, hash)) ∈ chain_txs bs → (l, (t', hash')) ∈ chain_txs bs → t = t' ∧ hash = hash'.
Proof.
  intros Hh (i & j & (b & Hi & Ht & Hx) & ->)%chain_tx_spec (i' & j' & (b' & Hi' & Ht' & Hx') & [= Hii Hjj])%chain_tx_spec; [|done|done].
  apply Nat2Z.inj in Hii as <-, Hjj as <-. assert (b' = b) as -> by congruence. split; congruence.
Qed.

Lemma locate_inj bs p p' l : heights_ok bs → NoDup (entry_hash <$> chain_txs bs) → locate bs p = Some l → locate bs p' = Some l → p = p'.
Proof.
  intros Hh Hn (t & Ht & Hi)%locate_spec (t' & Ht' & Hi')%locate_spec; [|done|done]. destruct (chain_tx_fun _ _ _ _ _ _ Hh Ht Ht') as [_ He]. destruct p, p'. cbn in *. congruence.
Qed.

Lemma chain_spends_spec network bs pools db l tl : finalized_ok network bs pools db →
  (l, tl) ∈ chain_spends bs ↔ ∃ p t hash, locate bs p = Some l ∧ (tl, (t, hash)) ∈ chain_txs bs ∧ p ∈ spent_outpoints t.
Proof.
  intros Hf. unfold chain_spends. rewrite list_elem_of_bind. split.
  - intros ([tl' [t hash]] & Hs & He). unfold tx_spends in Hs. apply list_elem_of_omap in Hs as (p & Hp & Hl). cbn in Hl. destruct (locate bs p) as [l'|] eqn:El; [|done]. injection Hl as <- <-. by exists p, t, hash.
  - intros (p & t & hash & Hl & He & Hp). exists (tl, (t, hash)). split; [|done]. apply list_elem_of_omap. exists p. split; [done|]. cbn. by rewrite Hl.
Qed.

Lemma output_location_read network bs pools db p : finalized_ok network bs pools db → read_output_location db p = locate bs p.
Proof.
  intros Hf. unfold read_output_location, read_transaction_location. destruct (fo_blocks _ _ _ _ Hf) as [_ _ _ _ [_ _ T3 _]]. pose proof (fo_tx_hashes _ _ _ _ Hf) as Hn.
  destruct (zs_get (cf_tx_loc_by_hash (fin_blocks db)) (outpoint_hash p)) as [tl|] eqn:E; cbn.
  - apply T3 in E as (t & Ht). symmetry. apply locate_spec; [done|]. by exists t.
  - destruct (locate bs p) as [l|] eqn:El; [|done]. apply locate_spec in El as (t & Ht & _); [|done]. rewrite (proj2 (T3 (outpoint_hash p) (transaction_loc l))) in E by (by exists t). done.
Qed.

Lemma transaction_hash_read network bs pools db l hash : finalized_ok network bs pools db → tx_loc_valid l → read_transaction_hash db l = Some hash ↔ ∃ t, (l, (t, hash)) ∈ chain_txs bs.
Proof. intros Hf Hl. destruct (fo_blocks _ _ _ _ Hf) as [_ _ _ _ [_ T2 _ _]]. by apply T2. Qed.

Lemma created_location network bs pools db p o : finalized_ok network bs pools db → creates bs p o ↔ ∃ l, locate bs p = Some l ∧ (l, o) ∈ chain_outputs bs.
Proof.
  intros Hf. pose proof (fo_heights _ _ _ _ Hf) as Hh. pose proof (fo_tx_hashes _ _ _ _ Hf) as Hn. split.
  - intros (i & j & t & k & Ht & Hi0 & Hk & Ho). assert (He : (mkTxLoc (Z.of_nat i) (Z.of_nat j), (t, outpoint_hash p)) ∈ chain_txs bs) by (apply chain_tx_spec; [done|by exists i, j]).
    exists (mkOutLoc (mkTxLoc (Z.of_nat i) (Z.of_nat j)) (Z.of_nat k)). split; [apply locate_spec; [done|by exists t]|]. apply elem_of_spendable. eexists. split; [exact He|]. split.
    + unfold is_min, Height.MIN. cbn. apply Z.eqb_neq. lia.
    + apply elem_of_tx_outputs. by exists k.
  - intros (l & (t & Ht & Hi)%locate_spec & ([tl [t' hash']] & He & Hm & (k & Ho & Hl)%elem_of_tx_outputs)%elem_of_spendable); [|done]. cbn in *. rewrite Hl in Ht, Hi. cbn in Ht, Hi.
    destruct (chain_tx_fun _ _ _ _ _ _ Hh Ht He) as [-> <-]. apply chain_tx_spec in He as (i & j & Hc & ->); [|done]. exists i, j, t', k. split_and!; [done| |done|done].
    intros ->. done.
Qed.

Lemma spent_location network bs pools db p l : finalized_ok network bs pools db → locate bs p = Some l → l ∈ (chain_spends bs).*1 ↔ ∃ hash, spends bs p hash.
Proof.
  intros Hf Hl. pose proof (fo_heights _ _ _ _ Hf) as Hh. pose proof (fo_tx_hashes _ _ _ _ Hf) as Hn. rewrite list_elem_of_fmap. split.
  - intros ([l' tl] & -> & (p' & t & hash & Hl' & He & Hp)%(chain_spends_spec _ _ _ _ _ _ Hf)). rewrite (locate_inj bs p p' _ Hh Hn Hl Hl'). exists hash. apply chain_tx_spec in He as (i & j & Hc & _); [|done]. by exists i, j, t.
  - intros (hash & i & j & t & Hc & Hp). exists (l, mkTxLoc (Z.of_nat i) (Z.of_nat j)). split; [done|]. apply (chain_spends_spec _ _ _ _ _ _ Hf). exists p, t, hash. split_and!; [done| |done].
    apply chain_tx_spec; [done|]. by exists i, j.
Qed.

Lemma block_read network bs pools db (i : nat) : finalized_ok network bs pools db → height_valid (Z.of_nat i) → read_block db (ByHeight (Z.of_nat i)) = Ok (fb_block <$> bs !! i).
Proof.
  intros Hf Hi. unfold read_block, read_block_header. cbn [read_height_or_else mbind option_bind]. rewrite (bk_header _ _ (fo_blocks _ _ _ _ Hf) _ Hi), Nat2Z.id.
  destruct (bs !! i) as [b|] eqn:Hb; [|done]. cbn [fmap option_fmap option_map compose]. rewrite (read_transactions_Ok _ _ _ _ _ _ Hf Hb), Ok_bind.
  assert (Hn : (numbered_txs b).*2 = transactions (fb_block b)) by (unfold numbered_txs; by rewrite fmap_imap, (imap_ext _ (const id)), imap_const, list_fmap_id by done).
  rewrite Hn. by destruct (fb_block b).
Qed.

Lemma height_read network bs pools db hash h : finalized_ok network bs pools db → read_height db hash = Some h ↔ ∃ (i : nat) b, bs !! i = Some b ∧ fb_hash b = hash ∧ h = Z.of_nat i.
Proof.
  intros Hf. unfold read_height. rewrite (bk_height _ _ (fo_blocks _ _ _ _ Hf)). destruct (fo_heights _ _ _ _ Hf) as [_ Hh]. split.
  - intros (b & [i Hi]%list_elem_of_lookup & Hx & <-). exists i, b. destruct (Hh i b Hi) as [? _]. done.
  - intros (i & b & Hi & Hx & ->). exists b. destruct (Hh i b Hi) as [? _]. split; [by eapply list_elem_of_lookup_2|done].
Qed.

Lemma transaction_read network bs pools db hash t h tm : finalized_ok network bs pools db →
  read_transaction db hash = Some (t, h, tm) ↔ ∃ i j b, chain_tx bs i j t hash ∧ bs !! i = Some b ∧ h = Z.of_nat i ∧ tm = time (header (fb_block b)).
Proof.
  intros Hf. pose proof (fo_heights _ _ _ _ Hf) as Hh. pose proof (fo_blocks _ _ _ _ Hf) as Hb. destruct Hb as [K1 _ _ _ [T1 _ T3 _]]. unfold read_transaction, read_transaction_location. split.
  - destruct (zs_get (cf_tx_loc_by_hash (fin_blocks db)) hash) as [l|] eqn:El; [|done]. apply T3 in El as (t' & He). destruct (chain_txs_elem _ _ Hh He) as [Hlv _]. cbn [fst] in Hlv. cbn [mbind option_bind].
    destruct (zs_get (cf_tx_by_loc (fin_blocks db)) l) as [t0|] eqn:Et; [|done]. apply T1 in Et as (hash' & He'); [|done]. destruct (chain_tx_fun _ _ _ _ _ _ Hh He He') as [-> ->].
    apply chain_tx_spec in He as (i & j & (b & Hi & Hrest) & ->); [|done]. unfold read_block_header. cbn [read_height_or_else mbind option_bind tx_loc_height].
    rewrite K1, Nat2Z.id, Hi by apply Hlv. intros [= <- <- <-]. exists i, j, b. split_and!; [by exists b|done..].
  - intros (i & j & b & Hc & Hi & -> & ->). assert (He : (mkTxLoc (Z.of_nat i) (Z.of_nat j), (t, hash)) ∈ chain_txs bs) by (apply chain_tx_spec; [done|by exists i, j]).
    destruct (chain_txs_elem _ _ Hh He) as [Hlv _]. cbn [fst] in Hlv. rewrite (proj2 (T3 hash (mkTxLoc (Z.of_nat i) (Z.of_nat j)))) by (by exists t). cbn [mbind option_bind].
    rewrite (proj2 (T1 _ t Hlv)) by (by exists hash). unfold read_block_header. cbn [read_height_or_else mbind option_bind tx_loc_height]. rewrite K1, Nat2Z.id, Hi by apply Hlv. done.
Qed.

Lemma chain_output_index network bs pools db l o : finalized_ok network bs pools db → (l, o) ∈ chain_outputs bs → 0 ≤ output_index l < MAX_ON_DISK_OUTPUT_INDEX.
Proof.
  intros Hf ([tl [t hash]] & He & _ & (k & Ho & Hl)%elem_of_tx_outputs)%elem_of_spendable. cbn in *. rewrite Hl. cbn. apply (chain_tx_spec _ _ _ _ (fo_heights _ _ _ _ Hf)) in He as (i & j & (b & Hi & Ht & _) & _).
  pose proof (fo_outputs _ _ _ _ Hf) as Hb. rewrite Forall_forall in Hb. specialize (Hb b (list_elem_of_lookup_2 _ _ _ Hi)). rewrite Forall_forall in Hb.
  destruct (Hb t (list_elem_of_lookup_2 _ _ _ Ht)) as [Hlen _]. apply lookup_lt_Some in Ho. lia.
Qed.

End State.

(** ** A chain of two blocks

    The second block spends, in its second transaction, the output of its first one. *)

#[local] Existing Instance sample_env.
#[local] Existing Instance sample_laws.
#[local] Instance fin_sample_hashes : HashFns := {| sha256 bytes := bytes; blake2b_256 p bytes := p ++ bytes |}.
#[local] Instance fin_sample_rocks : RocksDb := {| iterator_cf_opt V := ordered_iter |}.
#[local] Instance fin_sample_rocks_laws : RocksDbLaws.
Proof. by split. Qed.
(** Every script is a public key hash, padded to its length. *)
#[local] Instance fin_sample_parser : ScriptParser := {| recipient_address o := Some (PublicKeyHash (resize 20 0 (lock_script o))) |}.
#[local] Instance fin_sample_parser_laws : ScriptParserLaws.
Proof. split. intros o h [[= <-]|[=]]. apply length_resize. Qed.
#[local] Instance fin_sample_empty : EmptyTrees := {| sprout_default := []; sapling_default := []; orchard_default := []; history_default := [] |}.

Definition fin_sample_trees : NoteCommitmentTrees := mkTrees [] [] None [] None.
Definition fin_sample_treestate : Treestate := mkTreestate fin_sample_trees [].
Definition fin_sample_block (parent : Hash) (id h : Z) (txs : list Transaction) (hashes : list Hash) : ContextuallyVerifiedBlock :=
  let block := mkBlock (mkHeader 4 parent [] [] 0 0x1f07ffff [] (Common [])) txs in
  mkContextual block [id] h (ok_value ∅ (new_ordered_outputs_with_height (E := Empty_set) block h hashes)) ∅ hashes
    (mkValueBalance (mkAmount 5) (mkAmount 0) (mkAmount 0) (mkAmount 0) (mkAmount 0)).
Definition fin_sample_spend : Transaction := V4 [PrevOut (mkOutPoint [11] 0) [] 0] [mkOutput (mkAmount 3) [8]] unlocked 0 None None.
Definition fin_sample_0 : ContextuallyVerifiedBlock := fin_sample_block GENESIS_PREVIOUS_BLOCK_HASH 1 0 [coinbase_tx 0 []] [[10]].
Definition fin_sample_1 : ContextuallyVerifiedBlock := fin_sample_block [1] 2 1 [coinbase_tx 1 []; fin_sample_spend] [[11]; [12]].
Definition fin_blocks_of (l : list ContextuallyVerifiedBlock) : list FinalizedBlock := (λ b, from_contextually_verified b fin_sample_treestate) <$> l.

Lemma fin_sample_outputs parent id h txs hashes : NoDup hashes → length hashes = length txs → Forall (λ t, Z.of_nat (length (outputs t)) ≤ 2 ^ 32) txs →
  ∀ p u, cv_new_outputs (fin_sample_block parent id h txs hashes) !! p = Some u ↔ ∃ j, created_at (zip txs hashes) h j p u 0.
Proof.
  intros Hn Hl Ho p u. cbn. unfold new_ordered_outputs_with_height. cbn [transactions].
  destruct (ordered_outputs_from_spec (E := Empty_set) (zip txs hashes) h 0 ∅) as (m & -> & Hm).
  - by rewrite snd_zip by lia.
  - apply Forall_forall. intros [t x] Ht%elem_of_zip_l. rewrite Forall_forall in Ho. by apply Ho.
  - done.
  - cbn. rewrite Hm, lookup_empty. naive_solver.
Qed.

Lemma total_filter (P : OutputLocation * Output → Prop) `{∀ e, Decision (P e)} (l : list (OutputLocation * Output)) : Forall (λ e, amount_ok (value e.2) = true) l → total (filter P l) ≤ total l.
Proof.
  induction 1 as [|e l He Hl IH]; [done|]. change (e :: l) with ([e] ++ l). rewrite filter_app, !total_app.
  assert (0 ≤ total [e]) by (by apply total_nonneg, Forall_singleton). assert (total (filter P [e]) ≤ total [e]); [|lia].
  rewrite filter_cons, filter_nil. by case_decide.
Qed.

(** The balances of the addresses are at most what the chain creates. *)
Lemma balances_bounded network bs (gone : list OutputLocation) a : Forall (λ e, amount_ok (value e.2) = true) (chain_outputs bs) → total (chain_outputs bs) ≤ MAX_MONEY →
  total (of_address network a (unspent (chain_outputs bs) gone)) ≤ MAX_MONEY.
Proof.
  intros Ho Ht. assert (Hu : Forall (λ e : OutputLocation * Output, amount_ok (value e.2) = true) (unspent (chain_outputs bs) gone)) by (apply Forall_forall; intros e [_ He]%list_elem_of_filter; rewrite Forall_forall in Ho; by apply Ho).
  etransitivity; [by apply total_filter|]. etransitivity; [by apply total_filter|done].
Qed.

Lemma fin_sample_commit_0 : valid_commit Mainnet [] (from_contextually_verified fin_sample_0 fin_sample_treestate).
Proof.
  split; [split|split|done|done].
  - done.
  - apply not_elem_of_nil.
  - done.
  - apply NoDup_singleton.
  - repeat constructor; vm_compute; congruence.
  - split; [|done]. repeat constructor.
  - apply fin_sample_outputs; [apply NoDup_singleton|done|repeat constructor; vm_compute; congruence].
  - constructor.
  - constructor.
  - constructor.
  - constructor.
  - constructor.
  - by intros st [=].
  - by intros st [=].
Qed.

Lemma fin_sample_fit_0 : balances_fit Mainnet [] (from_contextually_verified fin_sample_0 fin_sample_treestate).
Proof. intros a. apply balances_bounded; [constructor|vm_compute; congruence]. Qed.

Lemma fin_sample_commit_1 : valid_commit Mainnet (fin_blocks_of [fin_sample_0]) (from_contextually_verified fin_sample_1 fin_sample_treestate).
Proof.
  split; [split|split|by intros _ x [= <-]|done].
  - done.
  - by intros [=]%list_elem_of_singleton.
  - done.
  - apply (bool_decide_unpack _). vm_compute. exact I.
  - repeat constructor; vm_compute; congruence.
  - split; [|done]. repeat constructor.
  - apply fin_sample_outputs; [apply (bool_decide_unpack _); vm_compute; exact I|done|repeat constructor; vm_compute; congruence].
  - apply Forall_singleton. exists (mkOutLoc (mkTxLoc 1 0) 0), (mkOutput (mkAmount 5) [7]). split; [vm_compute; reflexivity|]. apply (bool_decide_unpack _). vm_compute. exact I.
  - apply (bool_decide_unpack _). vm_compute. exact I.
  - constructor.
  - constructor.
  - constructor.
  - by intros st [=].
  - by intros st [=].
Qed.

Lemma fin_sample_fit_1 : balances_fit Mainnet (fin_blocks_of [fin_sample_0]) (from_contextually_verified fin_sample_1 fin_sample_treestate).
Proof. intros a. apply balances_bounded; [repeat constructor|vm_compute; congruence]. Qed.

Definition fin_sample_pools (v : Z) : ValueBalance NonNegative := mkValueBalance (mkAmount v) (mkAmount 0) (mkAmount 0) (mkAmount 0) (mkAmount 0).
Local Abbreviation sample_commit db b prev := (commit_finalized_direct (λ bytes, Some bytes) (λ _, []) db (Contextual b fin_sample_treestate) prev).
Local Abbreviation sample_committed := (committed (λ bytes, Some bytes) (λ _, []) Mainnet).

Lemma fin_sample_committed : ∃ db, sample_committed (fin_blocks_of [fin_sample_0]) [fin_sample_pools 5] db (Some fin_sample_trees).
Proof.
  apply (committed_next _ _ Mainnet [] [] (empty_db Mainnet true) None (Contextual fin_sample_0 fin_sample_treestate) None
    (from_contextually_verified fin_sample_0 fin_sample_treestate) None); [apply committed_empty|by left|reflexivity|apply fin_sample_commit_0|apply fin_sample_fit_0|vm_compute; reflexivity].
Qed.
Lemma fin_sample_pools_1 : next_pools (fin_blocks_of [fin_sample_0]) [fin_sample_pools 5] (from_contextually_verified fin_sample_1 fin_sample_treestate) = Ok (fin_sample_pools 8).
Proof. vm_compute. reflexivity. Qed.
Lemma fin_sample_committed_2 : ∃ db, sample_committed (fin_blocks_of [fin_sample_0; fin_sample_1]) [fin_sample_pools 5; fin_sample_pools 8] db (Some fin_sample_trees).
Proof.
  destruct fin_sample_committed as [db Hdb]. apply (committed_next _ _ Mainnet (fin_blocks_of [fin_sample_0]) [fin_sample_pools 5] db (Some fin_sample_trees) (Contextual fin_sample_1 fin_sample_treestate) None
    (from_contextually_verified fin_sample_1 fin_sample_treestate) None); [exact Hdb|by left|reflexivity|apply fin_sample_commit_1|apply fin_sample_fit_1|apply fin_sample_pools_1].
Qed.

Lemma commit_exact_witness : ∃ db db', sample_committed (fin_blocks_of [fin_sample_0]) [fin_sample_pools 5] db (Some fin_sample_trees) ∧
  sample_commit db fin_sample_1 (Some fin_sample_trees) = Ok (db', ([2], fin_sample_trees)) ∧
  finalized_ok Mainnet (fin_blocks_of [fin_sample_0; fin_sample_1]) [fin_sample_pools 5; fin_sample_pools 8] db'.
Proof.
  destruct fin_sample_committed as [db Hdb]. exists db.
  pose proof (commit_exact (λ bytes, Some bytes) (λ _, []) Mainnet _ _ db _ (Contextual fin_sample_1 fin_sample_treestate) (Some fin_sample_trees)
    (from_contextually_verified fin_sample_1 fin_sample_treestate) (Some fin_sample_trees) Hdb (or_intror eq_refl) eq_refl fin_sample_commit_1 fin_sample_fit_1) as H.
  rewrite fin_sample_pools_1 in H. destruct H as (db' & Hc & Hf). exists db'. split; [exact Hdb|]. split; [exact Hc|exact Hf].
Defined.

(** ** Chained transfers *)

(** A block that pays an address, and then moves the payment from the address to itself, twice. *)
Definition fin_sample_self (value : Z) (hash : Hash) : Transaction :=
  V4 [PrevOut (mkOutPoint hash 0) [] 0] [mkOutput (mkAmount value) [7]] unlocked 0 None None.
Definition fin_sample_chained (value : Z) : ContextuallyVerifiedBlock :=
  fin_sample_block [1] 2 1 [V4 [Coinbase 1 [] 0] [mkOutput (mkAmount value) [7]] unlocked 0 None None; fin_sample_self value [11]; fin_sample_self value [12]] [[11]; [12]; [13]].
Definition fin_sample_genesis_db : FinalizedDb :=
  match sample_commit (empty_db Mainnet true) fin_sample_0 None with Ok (db, _) => db | _ => empty_db Mainnet true end.
Lemma fin_sample_genesis : sample_committed (fin_blocks_of [fin_sample_0]) [fin_sample_pools 5] fin_sample_genesis_db (Some fin_sample_trees).
Proof.
  apply (committed_block _ _ Mainnet [] [] (empty_db Mainnet true) None (Contextual fin_sample_0 fin_sample_treestate) None
    (from_contextually_verified fin_sample_0 fin_sample_treestate) None (fin_sample_pools 5) _ [1] fin_sample_trees).
  - apply committed_empty.
  - by left.
  - reflexivity.
  - apply fin_sample_commit_0.
  - intros _. apply fin_sample_fit_0.
  - vm_compute. reflexivity.
  - vm_compute. reflexivity.
Qed.

Definition fin_chained_value : Z := 700000000000001.
Definition fin_chained_block : FinalizedBlock := from_contextually_verified (fin_sample_chained fin_chained_value) fin_sample_treestate.
Lemma fin_chained_commit : valid_commit Mainnet (fin_blocks_of [fin_sample_0]) fin_chained_block.
Proof.
  split; [split|split|by intros _ x [= <-]|done].
  - done.
  - by intros [=]%list_elem_of_singleton.
  - done.
  - apply (bool_decide_unpack _). vm_compute. exact I.
  - repeat constructor; vm_compute; congruence.
  - split; [|done]. repeat constructor.
  - apply fin_sample_outputs; [apply (bool_decide_unpack _); vm_compute; exact I|done|repeat constructor; vm_compute; congruence].
  - apply Forall_cons. split; [|apply Forall_singleton].
    + exists (mkOutLoc (mkTxLoc 1 0) 0), (mkOutput (mkAmount fin_chained_value) [7]). split; [vm_compute; reflexivity|]. apply (bool_decide_unpack _). vm_compute. exact I.
    + exists (mkOutLoc (mkTxLoc 1 1) 0), (mkOutput (mkAmount fin_chained_value) [7]). split; [vm_compute; reflexivity|]. apply (bool_decide_unpack _). vm_compute. exact I.
  - apply (bool_decide_unpack _). vm_compute. exact I.
  - constructor.
  - constructor.
  - constructor.
  - by intros st [=].
  - by intros st [=].
Qed.

(** The value pools can take the block, and the balance of the address after it is that of one payment. *)
Lemma chained_transfers_panic_witness :
  next_pools (fin_blocks_of [fin_sample_0]) [fin_sample_pools 5] fin_chained_block = Ok (fin_sample_pools (fin_chained_value + 5)) ∧
  sample_commit fin_sample_genesis_db (fin_sample_chained fin_chained_value) (Some fin_sample_trees) = Panic.
Proof.
  split; [vm_compute; reflexivity|].
  refine (chained_transfers_panic (λ bytes, Some bytes) (λ _, []) Mainnet _ _ fin_sample_genesis_db _ (Contextual (fin_sample_chained fin_chained_value) fin_sample_treestate) (Some fin_sample_trees)
    fin_chained_block (Some fin_sample_trees) (PayToPublicKeyHash MainnetKind (resize 20 0 [7])) fin_sample_genesis (or_intror eq_refl) eq_refl fin_chained_commit _ _).
  - vm_compute. reflexivity.
  - vm_compute. reflexivity.
Defined.
