(* ===== verification/FinalizedReads.v ===== *)
(** * Reads of the finalized state

    The queries of [zebra-state/src/service/finalized_state/zebra_db/block.rs] and [zebra_db/transparent.rs] on the databases that commits lead to: they
    answer with the data of the committed chain. The loop that lists the outputs of an address ends after at most one step for each entry of its column family. *)

From S2P Require Import Prelude Height Amount Serialization ValueBalance Network Transaction Merkle TransactionCodec Reversible Transfers TreeIndex Ledger SpendChecks ContextChecks CheckpointVerifier Chain DiskFormat DiskDb FinalizedDb TransparentIndex ChainIndex ShieldedIndex FinalizedInvariant FinalizedState.

Section Reads.
Context `{Env : !ChainEnv, SP : !ScriptParser, SL : !ScriptParserLaws, HF : !HashFns, Rocks : !RocksDb}.
Context `{RL : !RocksDbLaws, EL : !ChainEnvLaws, Empties : !EmptyTrees}.
Context (sapling_root_try_from : list Z → option Hash) (v5_auth_digest : Transaction → Hash).
Implicit Types (b : FinalizedBlock) (bs : list FinalizedBlock) (pools : list (ValueBalance NonNegative)).

(** ** Spending transactions *)

(** The spend of a nullifier or of an outpoint by a transaction. *)
Definition spent_by bs (spend : SpendId) (hash : Hash) : Prop :=
  match spend with
  | SpendOutPoint p => spends bs p hash
  | SpendSprout n => reveals sprout_nullifiers bs n hash
  | SpendSapling n => reveals sapling_nullifiers bs n hash
  | SpendOrchard n => reveals orchard_nullifiers bs n hash
  end.
Definition spend_id_ok (spend : SpendId) : Prop := match spend with SpendOutPoint p => 0 ≤ outpoint_index p < 2 ^ 32 | _ => True end.

Lemma located_hash_read network bs pools db (P : Transaction → Prop) (o : option TransactionLocation) hash : finalized_ok network bs pools db →
  (∀ l, o = Some l ↔ ∃ t hash', (l, (t, hash')) ∈ chain_txs bs ∧ P t) →
  (l ← o; read_transaction_hash db l) = Some hash ↔ ∃ i j t, chain_tx bs i j t hash ∧ P t.
Proof.
  intros Hf Ho. pose proof (fo_heights _ _ _ _ Hf) as Hh. split.
  - destruct o as [l|]; [|done]. cbn [mbind option_bind]. destruct (proj1 (Ho l) eq_refl) as (t & hash' & He & Hp). destruct (chain_txs_elem _ _ Hh He) as [Hl _].
    intros (t' & He')%(transaction_hash_read _ _ _ _ _ _ Hf Hl). destruct (chain_tx_fun _ _ _ _ _ _ Hh He He') as [-> ->]. apply chain_tx_spec in He as (i & j & Hc & _); [|done]. by exists i, j, t'.
  - intros (i & j & t & Hc & Hp). assert (He : (mkTxLoc (Z.of_nat i) (Z.of_nat j), (t, hash)) ∈ chain_txs bs) by (apply chain_tx_spec; [done|by exists i, j]).
    destruct (chain_txs_elem _ _ Hh He) as [Hl _]. rewrite (proj2 (Ho _)) by (by exists t, hash). cbn [mbind option_bind]. apply (transaction_hash_read _ _ _ _ _ _ Hf Hl). by exists t.
Qed.

Lemma revealing_read network bs pools db (f : Transaction → list Hash) (cf : Cf Hash TransactionLocation) n hash : finalized_ok network bs pools db →
  nullifiers_ok f (numbered bs) cf → (l ← zs_get cf n; read_transaction_hash db l) = Some hash ↔ reveals f bs n hash.
Proof.
  intros Hf Hn. apply (located_hash_read network bs pools db (λ t, n ∈ f t) _ hash Hf). intros l. rewrite (Hn n l). unfold numbered. split.
  - intros (t & ([l' [t' hash']] & [= -> ->] & He)%list_elem_of_fmap & Hnt). by exists t', hash'.
  - intros (t & hash' & He & Hnt). exists t. split; [|done]. apply list_elem_of_fmap. by exists (l, (t, hash')).
Qed.

(** An outpoint that is not of the chain is not stored, also when its index is larger than the indexes of the database. *)
Lemma located_valid network bs pools db p l : finalized_ok network bs pools db → 0 ≤ outpoint_index p < 2 ^ 32 → locate bs p = Some l →
  let l' := mkOutLoc (transaction_loc l) (Z.min (outpoint_index p) MAX_ON_DISK_OUTPUT_INDEX) in
  out_loc_valid l' ∧ as_bytes l = as_bytes l' ∧ ∀ o, (l', o) ∈ chain_outputs bs → l' = l.
Proof.
  intros Hf Hidx Hl l'. pose proof Hl as (t & Ht & Hi)%locate_spec; [|apply (fo_tx_hashes _ _ _ _ Hf)]. destruct (chain_txs_elem _ _ (fo_heights _ _ _ _ Hf) Ht) as [Htv _].
  destruct l as [tl i]. cbn in Hi, Htv. subst i. unfold l'. cbn [transaction_loc]. split_and!.
  - split; [done|]. cbn. change MAX_ON_DISK_OUTPUT_INDEX with 16777215. lia.
  - by apply output_index_saturates.
  - intros o Ho%(chain_output_index _ _ _ _ _ _ Hf). cbn in Ho. by rewrite Z.min_l by lia.
Qed.

Lemma utxo_read network bs pools db p o : finalized_ok network bs pools db → 0 ≤ outpoint_index p < 2 ^ 32 →
  (∃ u, read_utxo db p = Some u ∧ output (utxo u) = o) ↔ creates bs p o ∧ ¬ ∃ hash, spends bs p hash.
Proof.
  intros Hf Hidx. pose proof (tr_created _ _ _ (fo_transparent _ _ _ _ Hf)) as [_ Hok]. rewrite Forall_forall in Hok. pose proof (ui_utxo _ _ _ _ (tr_unspent_index _ _ _ (fo_transparent _ _ _ _ Hf))) as Hu.
  rewrite (created_location _ _ _ _ _ _ Hf). unfold read_utxo. rewrite (output_location_read _ _ _ _ _ Hf). split.
  - intros (u & Hr & Ho). destruct (locate bs p) as [l|] eqn:El; [|done]. cbn [mbind option_bind] in Hr. unfold read_utxo_by_location in Hr.
    destruct (zs_get (cf_utxo_by_out_loc (fin_transparent db)) l) as [o'|] eqn:Eo; [|done]. injection Hr as <-. cbn in Ho. subst o'.
    destruct (located_valid _ _ _ _ _ _ Hf Hidx El) as (Hv & Hb & Hin). unfold zs_get in Eo. rewrite Hb in Eo. apply (Hu _ _ Hv), elem_of_unspent in Eo as [Ho Hns].
    pose proof (Hin _ Ho) as Hll. rewrite Hll in Ho, Hns. split; [by exists l|]. by rewrite <- (spent_location _ _ _ _ _ _ Hf El).
  - intros [(l & Hl & Ho) Hns]. rewrite Hl. cbn [mbind option_bind]. unfold read_utxo_by_location. rewrite (proj2 (Hu l o (proj1 (Hok _ Ho)))).
    + eexists. split; [done|done].
    + apply elem_of_unspent. split; [done|]. by rewrite (spent_location _ _ _ _ _ _ Hf Hl).
Qed.

Lemma spending_read network bs pools db spend hash : finalized_ok network bs pools db → spend_id_ok spend →
  read_spending_transaction_hash db spend = Some hash ↔ spent_by bs spend hash.
Proof.
  intros Hf Hs. pose proof (fo_shielded _ _ _ _ Hf) as Hsh. unfold read_spending_transaction_hash. destruct spend as [p|n|n|n]; [|by apply (revealing_read network bs pools), Hsh..].
  apply (located_hash_read network bs pools db (λ t, p ∈ spent_outpoints t) _ hash Hf). intros tl. unfold read_spending_tx_loc. rewrite (output_location_read _ _ _ _ _ Hf).
  pose proof (si_spent _ _ _ _ (tr_spent_index _ _ _ (fo_transparent _ _ _ _ Hf))) as Hsp. pose proof (tr_spent _ _ _ (fo_transparent _ _ _ _ Hf)) as Hsub.
  assert (Hout : ∀ l, (l, tl) ∈ chain_spends bs → ∃ o, (l, o) ∈ chain_outputs bs).
  { intros l Hl. assert (l ∈ (chain_outputs bs).*1) as ([l' o] & -> & Ho)%list_elem_of_fmap; [|by exists o]. apply Hsub, list_elem_of_fmap. by exists (l, tl). }
  split.
  - destruct (locate bs p) as [l|] eqn:El; [|done]. cbn [mbind option_bind]. unfold read_tx_location_by_spent_output_location, zs_get.
    destruct (located_valid _ _ _ _ _ _ Hf Hs El) as (Hv & -> & Hin). intros Hg%(Hsp _ _ Hv). destruct (Hout _ Hg) as [o Ho]. rewrite (Hin o Ho) in Hg.
    apply (chain_spends_spec _ _ _ _ _ _ Hf) in Hg as (p' & t & hash' & Hl' & He & Hp). exists t, hash'. split; [done|].
    by rewrite (locate_inj bs p p' l (fo_heights _ _ _ _ Hf) (fo_tx_hashes _ _ _ _ Hf) El Hl').
  - intros (t & hash' & He & Hp). assert (is_Some (locate bs p)) as [l Hl].
    { pose proof (fo_located _ _ _ _ Hf) as Hloc. rewrite Forall_forall in Hloc. specialize (Hloc _ He). rewrite Forall_forall in Hloc. by apply Hloc. }
    rewrite Hl. cbn [mbind option_bind]. assert (Hg : (l, tl) ∈ chain_spends bs) by (apply (chain_spends_spec _ _ _ _ _ _ Hf); by exists p, t, hash').
    apply Hsp; [|done]. destruct (Hout _ Hg) as [o Ho]. pose proof (tr_created _ _ _ (fo_transparent _ _ _ _ Hf)) as [_ Hok]. rewrite Forall_forall in Hok. apply (Hok _ Ho).
Qed.

(** ** Outputs of addresses *)

(** There is no key between a key and the next one of the iteration. *)
Lemma address_next_spec k j : unspent_valid k → output_index (unspent_output_location k) < MAX_ON_DISK_OUTPUT_INDEX →
  unspent_cmp (address_iterator_next k) j ≠ Gt ↔ unspent_cmp k j = Lt.
Proof.
  intros [_ [_ Hk]] Hlt. change MAX_ON_DISK_OUTPUT_INDEX with 16777215 in *. unfold unspent_cmp, out_loc_cmp at 2 4, address_iterator_next.
  cbn [unspent_address_location unspent_output_location transaction_loc output_index]. rewrite (wrap_fits U32) by (apply fits_spec; cbn; lia).
  destruct (out_loc_cmp _ _), (tx_loc_cmp _ _); cbn [then_cmp]; try done. rewrite Z.compare_lt_iff. fold (output_index (unspent_output_location k) + 1 ≤ output_index (unspent_output_location j)). lia.
Qed.

Lemma key_cmp_antisym {K} `{DK : DiskKey K} (j k : K) : key_valid j → key_valid k → key_cmp k j = CompOpp (key_cmp j k).
Proof. intros Hj Hk. rewrite <- !disk_ordered by done. apply bytes_cmp_antisym. Qed.

(** The loop visits the entries from its key on, until the address changes. *)
Lemma address_loop_Ok db al (l : list (AddressUnspentOutput * unit)) u fuel :
  cf_valid AddressUnspentOutput (cf_utxo_loc_by_transparent_addr_loc (fin_transparent db)) →
  (∀ k v, (k, v) ∈ l ↔ unspent_valid k ∧ zs_get (cf_utxo_loc_by_transparent_addr_loc (fin_transparent db)) k = Some v ∧ unspent_cmp u k ≠ Gt) →
  Forall (λ e, output_index (unspent_output_location e.1) < MAX_ON_DISK_OUTPUT_INDEX) l → StronglySorted (entry_lt false) l → unspent_valid u → (length l < fuel)%nat →
  address_utxo_locations_from fuel db al u = Ok (take_while (λ k, bool_decide (unspent_address_location k = al)) l.*1).
Proof.
  intros Hcf. revert l u. induction fuel as [|fuel IH]; intros l u Hl Hidx Hs Hu Hlen; [lia|]. cbn [address_utxo_locations_from]. unfold zs_next_key_value_from.
  destruct (range_next (cf_utxo_loc_by_transparent_addr_loc (fin_transparent db)) (Included u, Unbounded) false Hcf Hu I I) as (o & -> & Ho). rewrite Ok_bind.
  destruct l as [|[k0 v0] l].
  - destruct o as [[k v]|]; [|done]. destruct Ho as (Hk & Hg & [Hr _] & _). assert ((k, v) ∈ []) as Hx by by apply Hl. by apply elem_of_nil in Hx.
  - destruct (proj1 (Hl k0 v0)) as (Hk0 & Hg0 & Hr0); [by left|]. destruct o as [[k v]|]; [|by destruct (Ho k0 v0 Hk0 Hg0)]. destruct Ho as (Hk & Hg & [Hr _] & Hmin).
    apply StronglySorted_inv in Hs as [Hs Hall]. assert (k0 = k) as <-.
    { destruct (Hmin k0 v0 Hk0 Hg0) as [?|Hlt]; [by split|done|]. assert ((k, v) ∈ (k0, v0) :: l) as Hx by by apply Hl. apply elem_of_cons in Hx as [[= -> _]|Hx]; [done|].
      rewrite Forall_forall in Hall. specialize (Hall _ Hx). unfold entry_lt in Hall. cbn [fst] in Hall. rewrite key_cmp_antisym, Hlt in Hall by done. done. }
    apply Forall_cons in Hidx as [Hi Hidx]. cbn in Hi. rewrite fmap_cons. cbn [take_while fst]. destruct (bool_decide _); [|done]. rewrite (IH l); [done| |done|done| |cbn in Hlen; lia].
    + intros k' v'. rewrite address_next_spec by done. split.
      * intros Hx. destruct (proj1 (Hl k' v')) as (? & ? & _); [by right|]. rewrite Forall_forall in Hall. by specialize (Hall _ Hx).
      * intros (Hk' & Hg' & Hc). assert ((k', v') ∈ (k0, v0) :: l) as Hx.
        { apply Hl. split_and!; [done..|]. change (key_cmp u k' ≠ Gt). rewrite <- disk_ordered by done. apply (bytes_cmp_le_trans _ (as_bytes k0)); rewrite disk_ordered by done; [done|].
          change (key_cmp k0 k') with (unspent_cmp k0 k'). by rewrite Hc. }
        apply elem_of_cons in Hx as [[= -> ->]|Hx]; [|done]. pose proof (key_cmp_antisym k0 k0 Hk0 Hk0) as Ha. change (unspent_cmp k0 k0 = CompOpp (unspent_cmp k0 k0)) in Ha. by rewrite Hc in Ha.
    + destruct Hk0 as [Ha [Ht Hb]]. split; [done|]. split; [done|]. cbn. change MAX_ON_DISK_OUTPUT_INDEX with 16777215 in *. rewrite wrap_fits by (apply fits_spec; cbn; lia). lia.
Qed.

Lemma take_while_elem {A} (f : A → bool) l x : StronglySorted (λ x y, f y = true → f x = true) l → x ∈ take_while f l ↔ x ∈ l ∧ f x = true.
Proof.
  induction 1 as [|y l Hs IH Hall]; cbn [take_while]; [set_solver|]. rewrite Forall_forall in Hall. destruct (f y) eqn:E.
  - rewrite !elem_of_cons, IH. naive_solver.
  - split; [set_solver|]. intros [[->|Hx]%elem_of_cons Hf]; [congruence|]. specialize (Hall x Hx Hf). congruence.
Qed.

(** The entries of an ordered iteration are at most those of the column family. *)
Lemma sorted_entries_length {K V} `{DK : DiskKey K} (cf : Cf K V) (l : list (K * V)) : (∀ k v, (k, v) ∈ l → key_valid k ∧ zs_get cf k = Some v) → StronglySorted (entry_lt false) l →
  (length l ≤ base.size cf)%nat.
Proof.
  intros Hl Hs. assert (Hn : NoDup l).
  { clear -Hl Hs DK. induction Hs as [|[k v] l _ IH Hall]; constructor; [|apply IH; intros ?? ?; apply Hl; by right]. intros Hin. destruct (Hl k v) as [Hk _]; [by left|].
    rewrite Forall_forall in Hall. specialize (Hall _ Hin). unfold entry_lt in Hall. cbn [fst] in Hall. pose proof (key_cmp_antisym k k Hk Hk) as Ha. by rewrite Hall in Ha. }
  rewrite <- (length_fmap raw_entry l), <- length_map_to_list. apply submseteq_length, NoDup_submseteq.
  - apply NoDup_fmap_2_strong; [|done]. intros [k v] [k' v'] [Hk _]%Hl [Hk' _]%Hl [= Hb ->]. by rewrite (as_bytes_inj k k').
  - intros e ([k v] & -> & [_ Hg]%Hl)%list_elem_of_fmap. by apply elem_of_map_to_list.
Qed.

Lemma same_address al j k : unspent_cmp (address_iterator_start al) j ≠ Gt → unspent_cmp j k = Lt → unspent_address_location k = al → unspent_address_location j = al.
Proof.
  unfold unspent_cmp. cbn [address_iterator_start unspent_address_location]. intros H1 H2 <-. pose proof (out_loc_cmp_spec (unspent_address_location k) (unspent_address_location j)) as S1.
  pose proof (out_loc_cmp_spec (unspent_address_location j) (unspent_address_location k)) as S2.
  destruct (out_loc_cmp (unspent_address_location k) _), (out_loc_cmp (unspent_address_location j) _); try done. by destruct (out_loc_lt_irrefl _ (out_loc_lt_trans _ _ _ S1 S2)).
Qed.

Lemma address_location_read network bs pools db a : finalized_ok network bs pools db → address_valid network a →
  read_address_location db a = first_location network (chain_outputs bs) a.
Proof.
  intros Hf Ha. pose proof (tr_balances _ _ _ (fo_transparent _ _ _ _ Hf) a Ha) as Hb. unfold read_address_location, read_address_balance_location, balance_spec in *.
  destruct (zs_get _ a) as [v|], (first_location network (chain_outputs bs) a) as [l|]; cbn in *; try done. injection Hb as _ _ Hb. by rewrite Hb.
Qed.

Lemma address_locations_read network bs pools db a al : finalized_ok network bs pools db → first_location network (chain_outputs bs) a = Some al →
  ∃ ks, read_address_utxo_locations db al = Ok ks ∧
    ∀ k, k ∈ ks ↔ ∃ l o, k = mkUnspent al l ∧ (l, o) ∈ of_address network a (unspent (chain_outputs bs) (chain_spends bs).*1).
Proof.
  intros Hf Hal. pose proof (fo_transparent _ _ _ _ Hf) as Ht. pose proof (tr_created _ _ _ Ht) as Hc. destruct (first_location_ok _ _ _ _ Hc Hal) as [Halv _].
  destruct (tr_unspent_index _ _ _ Ht) as [_ Hui Hcf]. pose proof Hc as [Hnd Hok]. rewrite Forall_forall in Hok.
  assert (Hstart : unspent_valid (address_iterator_start al)) by (split; [done|vm_compute; repeat split; congruence]).
  destruct (range_items (cf_utxo_loc_by_transparent_addr_loc (fin_transparent db)) (Included (address_iterator_start al), Unbounded) false Hcf Hstart I I) as (l & _ & _ & Hs & Hin).
  assert (Hidx : ∀ k v, unspent_valid k → zs_get (cf_utxo_loc_by_transparent_addr_loc (fin_transparent db)) k = Some v → output_index (unspent_output_location k) < MAX_ON_DISK_OUTPUT_INDEX).
  { intros [al' l'] v [H1 H2] Hg. destruct (proj1 (Hui al' l' H1 H2)) as (a' & o & _ & Ho & _); [by eexists|]. apply elem_of_unspent in Ho as [Ho _]. apply (chain_output_index _ _ _ _ _ _ Hf Ho). }
  eexists. split.
  - unfold read_address_utxo_locations. apply (address_loop_Ok db al l); [done| | |done|done|].
    + intros k v. rewrite Hin. unfold in_range. cbn [fst snd]. split; [by intros (? & ? & ? & _)|by intros (? & ? & ?)].
    + apply Forall_forall. intros [k v] (Hk & Hg & _)%Hin. by apply (Hidx k v).
    + apply Nat.lt_succ_r, (sorted_entries_length _ l); [|done]. by intros k v (? & ? & _)%Hin.
  - intros k. rewrite take_while_elem.
    2: { assert (Hge : Forall (λ e, unspent_cmp (address_iterator_start al) e.1 ≠ Gt) l) by (apply Forall_forall; by intros [j v] (_ & _ & [Hr _])%Hin).
         clear -Hs Hge. induction Hs as [|e l _ IH Hall]; [constructor|]. apply Forall_cons in Hge as [He Hge]. rewrite fmap_cons. constructor; [by apply IH|].
         apply Forall_fmap. eapply Forall_impl; [exact Hall|]. intros e' Hlt Hb%bool_decide_eq_true. apply bool_decide_eq_true. by apply (same_address al e.1 e'.1). }
    rewrite bool_decide_eq_true, list_elem_of_fmap. setoid_rewrite list_elem_of_filter. split.
    + intros [([k' v] & -> & (Hk & Hg & _)%Hin) Ha]. cbn in *. destruct k' as [al' l']. cbn in Ha. subst al'. destruct Hk as [H1 H2].
      destruct (proj1 (Hui al l' H1 H2)) as (a' & o & Ha' & Ho & Hao); [by eexists|]. exists l', o. split_and!; [done| |done]. by rewrite (first_location_inj network _ a a' al Hnd).
    + intros (l' & o & -> & Hao & Ho). split; [|done]. cbn in Hao. assert (Hl' : out_loc_valid l') by (apply elem_of_unspent in Ho as [Ho _]; apply (Hok _ Ho)).
      destruct (proj2 (Hui al l' Halv Hl')) as [v Hv]; [by exists a, o|]. exists (mkUnspent al l', v). split; [done|]. apply Hin. split_and!; [by split|done|].
      split; [|done]. change (unspent_cmp (mkUnspent al (mkOutLoc (mkTxLoc 0 0) 0)) (mkUnspent al l') ≠ Gt). unfold unspent_cmp. cbn [unspent_address_location unspent_output_location].
      pose proof (out_loc_cmp_spec al al) as Sa. destruct (out_loc_cmp al al); [|done|by destruct (out_loc_lt_irrefl al)]. cbn [then_cmp].
      pose proof (out_loc_cmp_spec (mkOutLoc (mkTxLoc 0 0) 0) l') as Sl. destruct (out_loc_cmp _ l'); [done|done|]. destruct l' as [[h i] j], Hl' as [[[? ?] ?] ?]. unfold out_loc_lt, tx_loc_lt in Sl. cbn in *. lia.
Qed.

Lemma address_utxos_read network bs pools db a : finalized_ok network bs pools db → address_valid network a →
  ∃ m, read_address_utxos db a = Ok m ∧ ∀ l o, m !! l = Some o ↔ (l, o) ∈ of_address network a (unspent (chain_outputs bs) (chain_spends bs).*1).
Proof.
  intros Hf Ha. pose proof (fo_transparent _ _ _ _ Hf) as Ht. unfold read_address_utxos. rewrite (address_location_read _ _ _ _ _ Hf Ha).
  destruct (first_location network (chain_outputs bs) a) as [al|] eqn:Eal.
  2: { exists ∅. split; [done|]. intros l o. rewrite lookup_empty. split; [done|]. intros [Hao [Ho _]%elem_of_unspent]%list_elem_of_filter.
       destruct (first_location_Some network _ a l o Ho Hao) as [? ?]. congruence. }
  destruct (address_locations_read _ _ _ _ _ _ Hf Eal) as (ks & -> & Hks). rewrite Ok_bind. eexists. split; [done|].
  destruct (tr_unspent_index _ _ _ Ht) as [Hu _ _]. pose proof (tr_created _ _ _ Ht) as [_ Hok]. rewrite Forall_forall in Hok.
  assert (Hread : ∀ l o, out_loc_valid l → (ordered ← read_utxo_by_location db l; Some (l, output (utxo ordered))) = Some (l, o) ↔ (l, o) ∈ unspent (chain_outputs bs) (chain_spends bs).*1).
  { intros l o Hl. rewrite <- (Hu l o Hl). unfold read_utxo_by_location. destruct (zs_get _ l) as [o'|]; cbn; [|done]. split; [by intros [= ->]|by intros [= ->]]. }
  assert (Hel : ∀ l o, (l, o) ∈ omap (λ k, let location := unspent_output_location k in ordered ← read_utxo_by_location db location; Some (location, output (utxo ordered))) ks ↔
    (l, o) ∈ of_address network a (unspent (chain_outputs bs) (chain_spends bs).*1)).
  { intros l o. rewrite list_elem_of_omap. split.
    - intros (k & (l' & o' & -> & Ho')%Hks & Hr). cbn [unspent_output_location] in Hr. pose proof Ho' as [_ Hx]%list_elem_of_filter. pose proof Hx as [Hx' _]%elem_of_unspent.
      rewrite (proj2 (Hread l' o' (proj1 (Hok _ Hx'))) Hx) in Hr. by injection Hr as <- <-.
    - intros Ho. exists (mkUnspent al l). split; [apply Hks; by exists l, o|]. pose proof Ho as [_ Hx]%list_elem_of_filter. pose proof Hx as [Hx' _]%elem_of_unspent. apply Hread; [apply (Hok _ Hx')|done]. }
  intros l o. rewrite <- Hel. split; [apply elem_of_list_to_map_2|]. intros Hin. apply elem_of_list_to_map_1'; [|done]. intros o' Hin'. rewrite Hel in Hin. rewrite Hel in Hin'.
  apply list_elem_of_filter in Hin as [_ [Hin _]%elem_of_unspent]. apply list_elem_of_filter in Hin' as [_ [Hin' _]%elem_of_unspent]. by apply (created_fun (chain_outputs bs) l o o'); [apply (tr_created _ _ _ Ht)|..].
Qed.

(** ** Transactions of addresses *)

(** A transaction at a location that pays an address, or spends one of its outputs. *)
Definition touches network bs a (tl : TransactionLocation) : Prop :=
  ∃ l o, (l, o) ∈ chain_outputs bs ∧ address o network = Some a ∧ (transaction_loc l = tl ∨ (l, tl) ∈ chain_spends bs).
(** Outputs are spent by later transactions. *)
Definition spends_ordered bs : Prop := Forall (λ e, tx_loc_lt (transaction_loc e.1) e.2) (chain_spends bs).

Lemma first_location_min network bs a al l o : heights_ok bs → first_location network (chain_outputs bs) a = Some al → (l, o) ∈ chain_outputs bs → address o network = Some a →
  al = l ∨ out_loc_lt al l.
Proof.
  intros Hh Hal Ho Ha. pose proof (outputs_sorted _ (chain_txs_sorted _ Hh)) as Hs. fold (chain_outputs bs) in Hs. unfold sorted_outputs, first_location, of_address in *.
  induction Hs as [|e r _ IH Hall]; [by apply elem_of_nil in Ho|]. rewrite filter_cons in Hal. apply elem_of_cons in Ho. case_decide as Hd.
  - cbn in Hal. injection Hal as <-. destruct Ho as [<-|Ho]; [by left|right]. rewrite Forall_forall in Hall. apply (Hall _ Ho).
  - destruct Ho as [<-|Ho]; [done|]. by apply IH.
Qed.

Lemma touched_after network bs a al tl : heights_ok bs → spends_ordered bs → first_location network (chain_outputs bs) a = Some al → touches network bs a tl →
  tx_loc_cmp (transaction_loc al) tl ≠ Gt.
Proof.
  intros Hh Hs Hal (l & o & Ho & Ha & Ht). rewrite tx_loc_cmp_le. assert (Hle : transaction_loc al = transaction_loc l ∨ tx_loc_lt (transaction_loc al) (transaction_loc l)).
  { destruct (first_location_min _ _ _ _ _ _ Hh Hal Ho Ha) as [->|[?|[-> _]]]; auto. }
  destruct Ht as [<-|Ht]; [done|]. unfold spends_ordered in Hs. rewrite Forall_forall in Hs. specialize (Hs _ Ht). cbn in Hs. right. destruct Hle as [->|Hlt]; [done|]. by eapply tx_loc_lt_trans.
Qed.

Lemma touching_hash network bs pools db a tl : finalized_ok network bs pools db → touches network bs a tl → tx_loc_valid tl ∧ ∃ t hash, (tl, (t, hash)) ∈ chain_txs bs.
Proof.
  intros Hf (l & o & Ho & _ & Ht). assert (∃ t hash, (tl, (t, hash)) ∈ chain_txs bs) as (t & hash & He).
  { destruct Ht as [<-|(p & t & hash & _ & He & _)%(chain_spends_spec _ _ _ _ _ _ Hf)]; [|by exists t, hash].
    apply elem_of_spendable in Ho as ([tl [t hash]] & He & _ & (k & _ & Hl)%elem_of_tx_outputs). cbn in Hl. subst l. by exists t, hash. }
  split; [|by exists t, hash]. apply (chain_txs_elem _ _ (fo_heights _ _ _ _ Hf) He).
Qed.

Lemma address_range_spec al q k : in_range (address_iterator_range al q) k ↔
  tx_address_location k = al ∧ tx_loc_cmp (transaction_loc al) (address_tx_location k) ≠ Gt ∧
  tx_loc_cmp (mkTxLoc q.1 0) (address_tx_location k) ≠ Gt ∧ tx_loc_cmp (address_tx_location k) (mkTxLoc q.2 65535) ≠ Gt.
Proof.
  unfold in_range, address_iterator_range. cbn [fst snd]. set (start := match tx_loc_cmp _ _ with Gt => _ | _ => _ end). change key_cmp with address_tx_cmp. unfold address_tx_cmp. cbn [tx_address_location address_tx_location].
  assert (Hstart : tx_loc_cmp start (address_tx_location k) ≠ Gt ↔ tx_loc_cmp (transaction_loc al) (address_tx_location k) ≠ Gt ∧ tx_loc_cmp (mkTxLoc q.1 0) (address_tx_location k) ≠ Gt).
  { unfold start. rewrite !tx_loc_cmp_le. pose proof (tx_loc_cmp_spec (transaction_loc al) (mkTxLoc q.1 0)) as Hc. destruct (tx_loc_cmp (transaction_loc al) _) eqn:E; rewrite ?Hc.
    - tauto.
    - split; [|tauto]. intros [<-|H]; split; auto; right; by eapply tx_loc_lt_trans.
    - split; [|tauto]. intros [<-|H]; split; auto; right; by eapply tx_loc_lt_trans. }
  rewrite (assoc and (tx_loc_cmp (transaction_loc al) _ ≠ Gt)), <- Hstart. clearbody start. pose proof (out_loc_cmp_spec al (tx_address_location k)) as S1. pose proof (out_loc_cmp_spec (tx_address_location k) al) as S2.
  destruct (decide (tx_address_location k = al)) as [He|Hne].
  - rewrite He in *. destruct (out_loc_cmp al al); [cbn [then_cmp]; tauto|by destruct (out_loc_lt_irrefl al)..].
  - split; [|tauto]. intros [H1 H2]. exfalso. destruct (out_loc_cmp al _), (out_loc_cmp (tx_address_location k) al); try done; try congruence.
    by apply (out_loc_lt_irrefl al), (out_loc_lt_trans _ (tx_address_location k)).
Qed.

Lemma address_end_ok network bs pools db al (t : TransactionLocation) o : finalized_ok network bs pools db → (al, o) ∈ chain_outputs bs →
  end_ok (Included (as_bytes (mkAddressTx al t))).
Proof.
  intros Hf ([tl [t' hash]] & He & _ & (k & _ & Hl)%elem_of_tx_outputs)%elem_of_spendable. cbn in Hl. subst al. destruct (chain_txs_elem _ _ (fo_heights _ _ _ _ Hf) He) as [_ Hh]. cbn in Hh.
  rewrite (as_bytes_Ok _ _ (address_tx_into _)), (as_bytes_Ok _ _ (out_loc_into _)). cbn [tx_address_location address_tx_location transaction_loc output_index].
  rewrite (as_bytes_Ok _ _ (tx_loc_into tl)), (as_bytes_Ok _ _ (tx_loc_into t)), <- !(assoc (++)).
  apply height_end_ok; [pose proof (proj1 (fo_heights _ _ _ _ Hf)); cbn; lia|]. repeat apply Forall_app_2; try apply be_bytes_ok.
  rewrite (as_bytes_Ok _ _ (height_into _)). apply be_bytes_ok.
Qed.

Lemma height_query q l : 0 ≤ tx_loc_index l < 2 ^ 16 →
  tx_loc_cmp (mkTxLoc q.1 0) l ≠ Gt ∧ tx_loc_cmp l (mkTxLoc q.2 65535) ≠ Gt ↔ q.1 ≤ tx_loc_height l ≤ q.2.
Proof.
  intros Hi. unfold tx_loc_cmp, then_cmp. cbn [tx_loc_height tx_loc_index]. destruct l as [h i]. cbn [tx_loc_height tx_loc_index] in *.
  destruct (Z.compare_spec q.1 h), (Z.compare_spec h q.2), (Z.compare_spec 0 i), (Z.compare_spec i 65535); split; intros [? ?]; split; try done; lia.
Qed.

Lemma address_txs_read network bs pools db a al q : finalized_ok network bs pools db → spends_ordered bs → height_valid q.1 → height_valid q.2 →
  first_location network (chain_outputs bs) a = Some al →
  ∃ ks, read_address_transaction_locations db al q = Ok ks ∧ ∀ k, k ∈ ks ↔ ∃ tl, k = mkAddressTx al tl ∧ touches network bs a tl ∧ q.1 ≤ tx_loc_height tl ≤ q.2.
Proof.
  intros Hf Hso H1 H2 Hal. pose proof (fo_transparent _ _ _ _ Hf) as Ht. pose proof (tr_created _ _ _ Ht) as Hc. destruct (first_location_ok _ _ _ _ Hc Hal) as [Halv _].
  destruct (first_location_elem _ _ _ _ Hal) as (o & Ho & _). destruct (tr_spent_index _ _ _ Ht) as [_ Hsi Hcf]. unfold read_address_transaction_locations, zs_forward_range_iter.
  destruct (range_items (cf_tx_loc_by_transparent_addr_loc (fin_transparent db)) (address_iterator_range al q) false Hcf) as (l & _ & -> & _ & Hin).
  - cbn. split; [done|]. cbn. destruct (tx_loc_cmp _ _); [split; [done|cbn; lia]..|apply Halv].
  - cbn. split; [done|]. split; [done|cbn; lia].
  - by eapply address_end_ok.
  - rewrite Ok_bind. eexists. split; [done|]. intros [al' tl]. rewrite list_elem_of_fmap.
    assert (Hti : ∀ tl, tx_loc_valid tl → is_Some (zs_get (cf_tx_loc_by_transparent_addr_loc (fin_transparent db)) (mkAddressTx al tl)) ↔ touches network bs a tl).
    { intros tl' Htl. rewrite (Hsi al tl' Halv Htl). split; [|intros (l' & o' & ?); by exists a, l', o']. intros (a' & l' & o' & Ha' & ?). rewrite (first_location_inj network _ a a' al (proj1 Hc) Hal Ha'). by exists l', o'. }
    split.
    + intros ([k v] & Hkk & (Hk & Hg & (Hal' & _ & Hq)%address_range_spec)%Hin). cbn in Hkk. subst k. cbn in Hal', Hq. subst al'. exists tl. split; [done|]. split; [apply Hti; [apply Hk|by eexists]|]. apply height_query; [apply Hk|done].
    + intros (tl' & [= -> ->] & Htt & Hq). destruct (touching_hash _ _ _ _ _ _ Hf Htt) as [Htl _]. destruct (proj2 (Hti tl' Htl) Htt) as [v Hv]. exists (mkAddressTx al tl', v). split; [done|].
      apply Hin. split_and!; [by split|done|]. apply address_range_spec. split; [done|]. split; [by apply (touched_after network bs a); [apply (fo_heights _ _ _ _ Hf)|..]|]. by apply height_query; [apply Htl|].
Qed.

Lemma address_tx_ids_read network bs pools db a q : finalized_ok network bs pools db → address_valid network a → spends_ordered bs → height_valid q.1 → height_valid q.2 →
  ∃ m, read_address_tx_ids db a q = Ok m ∧
    ∀ tl hash, m !! tl = Some hash ↔ (∃ t, (tl, (t, hash)) ∈ chain_txs bs) ∧ touches network bs a tl ∧ q.1 ≤ tx_loc_height tl ≤ q.2.
Proof.
  intros Hf Ha Hso H1 H2. unfold read_address_tx_ids. rewrite (address_location_read _ _ _ _ _ Hf Ha). destruct (first_location network (chain_outputs bs) a) as [al|] eqn:Eal.
  2: { exists ∅. split; [done|]. intros tl hash. rewrite lookup_empty. split; [done|]. intros (_ & (l & o & Ho & Hao & _) & _). destruct (first_location_Some network _ a l o Ho Hao) as [? ?]. congruence. }
  destruct (Z.ltb_spec q.2 (tx_loc_height (transaction_loc al))) as [Hlt|Hge].
  { exists ∅. split; [done|]. intros tl hash. rewrite lookup_empty. split; [done|]. intros (_ & Htt & Hq). apply (touched_after network bs a al tl (fo_heights _ _ _ _ Hf) Hso Eal), tx_loc_cmp_le in Htt.
    destruct Htt as [<-|Htt]; [lia|]. unfold tx_loc_lt in Htt. lia. }
  destruct (address_txs_read _ _ _ _ _ _ _ Hf Hso H1 H2 Eal) as (ks & -> & Hks). rewrite Ok_bind.
  set (f := λ k, (address_tx_location k, default [] (read_transaction_hash db (address_tx_location k)))).
  assert (Hread : ∀ k, k ∈ ks → ∃ t hash, read_transaction_hash db (address_tx_location k) = Some hash ∧ (address_tx_location k, (t, hash)) ∈ chain_txs bs).
  { intros k (tl & -> & Htt & _)%Hks. destruct (touching_hash _ _ _ _ _ _ Hf Htt) as (Htl & t & hash & He). exists t, hash. split; [|done]. apply (transaction_hash_read _ _ _ _ _ _ Hf Htl). by exists t. }
  rewrite (proj2 (collect_Ok _ (f <$> ks))).
  2: { rewrite <- list_fmap_compose. apply list_fmap_ext. intros i k Hk. unfold f. cbn. destruct (Hread k (list_elem_of_lookup_2 _ _ _ Hk)) as (t & hash & -> & _). done. }
  rewrite Ok_bind. eexists. split; [done|]. assert (Hel : ∀ tl hash, (tl, hash) ∈ f <$> ks ↔ (∃ t, (tl, (t, hash)) ∈ chain_txs bs) ∧ touches network bs a tl ∧ q.1 ≤ tx_loc_height tl ≤ q.2).
  { intros tl hash. rewrite list_elem_of_fmap. split.
    - intros (k & [= -> ->] & Hk). destruct (Hread k Hk) as (t & hash' & -> & He). apply Hks in Hk as (tl' & -> & ?). split; [by exists t|done].
    - intros [[t He] Htq]. exists (mkAddressTx al tl). unfold f. cbn [address_tx_location]. destruct (touching_hash _ _ _ _ _ _ Hf (proj1 Htq)) as [Htl _].
      rewrite (proj2 (transaction_hash_read _ _ _ _ _ _ Hf Htl)) by (by exists t). split; [done|]. apply Hks. by exists tl. }
  intros tl hash. rewrite <- Hel. split; [apply elem_of_list_to_map_2|]. intros Hin. apply elem_of_list_to_map_1'; [|done]. intros hash' Hin'. rewrite Hel in Hin. rewrite Hel in Hin'.
  destruct Hin as [[t He] _], Hin' as [[t' He'] _]. by destruct (chain_tx_fun _ _ _ _ _ _ (fo_heights _ _ _ _ Hf) He He').
Qed.

(** ** Properties *)

(** C15: the reads of blocks and transactions answer with the committed chain. On every database that commits lead to, [tip] is the last block; [block] gives
    the block of each height, with its transactions in order; [height] maps exactly the hashes of the chain; [transaction] gives exactly the transactions of the
    chain, with their height and time; [utxo] gives exactly the outputs that are created after the genesis block and are not spent, also for outpoints with an
    index that the database can not store; and the spending transaction of an outpoint or of a nullifier of any pool is the one of the chain. *)
Theorem reads_exact network bs pools db trees : committed sapling_root_try_from v5_auth_digest network bs pools db trees →
  read_tip db = Ok ((λ b, (fb_height b, fb_hash b)) <$> last bs) ∧
  (∀ i : nat, height_valid (Z.of_nat i) → read_block db (ByHeight (Z.of_nat i)) = Ok (fb_block <$> bs !! i)) ∧
  (∀ hash h, read_height db hash = Some h ↔ ∃ (i : nat) b, bs !! i = Some b ∧ fb_hash b = hash ∧ h = Z.of_nat i) ∧
  (∀ hash t h tm, read_transaction db hash = Some (t, h, tm) ↔ ∃ i j b, chain_tx bs i j t hash ∧ bs !! i = Some b ∧ h = Z.of_nat i ∧ tm = time (header (fb_block b))) ∧
  (∀ p o, 0 ≤ outpoint_index p < 2 ^ 32 → (∃ u, read_utxo db p = Some u ∧ output (utxo u) = o) ↔ creates bs p o ∧ ¬ ∃ hash, spends bs p hash) ∧
  (∀ spend hash, spend_id_ok spend → read_spending_transaction_hash db spend = Some hash ↔ spent_by bs spend hash).
Proof.
  intros (Hf & _)%committed_ok. split_and!.
  - apply read_tip_Ok; apply Hf.
  - intros i. by apply (block_read network bs pools).
  - intros hash h. by apply (height_read network bs pools).
  - intros hash t h tm. by apply (transaction_read network bs pools).
  - intros p o. by apply (utxo_read network bs pools).
  - intros spend hash. by apply (spending_read network bs pools).
Qed.

(** C16: the reads of addresses answer with the committed chain. On every database that commits of blocks with ordered spends lead to: the balance of an address is
    the value of its unspent outputs, with the value it received, saturated at [u64::MAX]; the loop over the keys of its outputs ends, and [address_utxos] gives
    exactly the unspent outputs that pay the address; [address_tx_ids] gives exactly the transactions in the height range that pay the address or spend its
    outputs, under their hashes, and does not panic. *)
Theorem address_reads_exact network bs pools db trees a q : committed sapling_root_try_from v5_auth_digest network bs pools db trees →
  address_valid network a → spends_ordered bs → height_valid q.1 → height_valid q.2 →
  let created := chain_outputs bs in
  let unspent := unspent created (chain_spends bs).*1 in
  (λ e, (zatoshis e.1, e.2)) <$> read_address_balance db a =
    (if decide (of_address network a created = []) then None else Some (total (of_address network a unspent), Z.min (total (of_address network a created)) U64_MAX)) ∧
  (∃ m, read_address_utxos db a = Ok m ∧ ∀ l o, m !! l = Some o ↔ (l, o) ∈ unspent ∧ address o network = Some a) ∧
  (∃ m, read_address_tx_ids db a q = Ok m ∧
    ∀ tl hash, m !! tl = Some hash ↔ (∃ t, (tl, (t, hash)) ∈ chain_txs bs) ∧ touches network bs a tl ∧ q.1 ≤ tx_loc_height tl ≤ q.2).
Proof.
  intros (Hf & _)%committed_ok Ha Hs H1 H2 created uns. split_and!.
  - pose proof (tr_balances _ _ _ (fo_transparent _ _ _ _ Hf) a Ha) as Hb. unfold read_address_balance, read_address_balance_location, balance_spec, first_location in *.
    fold created in Hb. fold uns in Hb. destruct (zs_get _ a) as [v|], (of_address network a created) as [|e r]; cbn in *; try done. by injection Hb as -> -> _.
  - destruct (address_utxos_read _ _ _ _ _ Hf Ha) as (m & Hm & Hl). exists m. split; [done|]. intros l o. rewrite Hl. unfold of_address. rewrite list_elem_of_filter. tauto.
  - by apply (address_tx_ids_read network bs pools).
Qed.

End Reads.

(** ** The reads of the chain of two blocks *)

#[local] Existing Instance sample_env.
#[local] Existing Instance sample_laws.
#[local] Existing Instance fin_sample_hashes.
#[local] Existing Instance fin_sample_rocks.
#[local] Existing Instance fin_sample_rocks_laws.
#[local] Existing Instance fin_sample_parser.
#[local] Existing Instance fin_sample_parser_laws.
#[local] Existing Instance fin_sample_empty.

Definition fin_sample_chain : list FinalizedBlock := fin_blocks_of [fin_sample_0; fin_sample_1].

Lemma reads_exact_witness : ∃ db, read_tip db = Ok (Some (1, [2])) ∧ read_height db [2] = Some 1 ∧
  read_spending_transaction_hash db (SpendOutPoint (mkOutPoint [11] 0)) = Some [12].
Proof.
  destruct fin_sample_committed_2 as [db Hdb]. exists db. destruct (reads_exact _ _ Mainnet fin_sample_chain _ db _ Hdb) as (Htip & _ & Hh & _ & _ & Hs).
  split_and!; [exact Htip| |].
  - apply Hh. exists 1%nat. eexists. split; [reflexivity|]. split; reflexivity.
  - apply Hs; [cbn; lia|]. exists 1%nat, 1%nat, fin_sample_spend. split; [|by left]. eexists. split; [reflexivity|]. split; reflexivity.
Defined.

Lemma address_reads_exact_witness : ∃ db m, let payee := PayToPublicKeyHash MainnetKind (resize 20 0 [8]) in
  (λ e, (zatoshis e.1, e.2)) <$> read_address_balance db payee = Some (3, 3) ∧
  read_address_tx_ids db payee (0, 1) = Ok m ∧ m !! mkTxLoc 1 1 = Some [12].
Proof.
  destruct fin_sample_committed_2 as [db Hdb].
  assert (Hs : spends_ordered fin_sample_chain) by (apply Forall_singleton; right; done).
  destruct (address_reads_exact _ _ Mainnet fin_sample_chain _ db _ (PayToPublicKeyHash MainnetKind (resize 20 0 [8])) (0, 1) Hdb) as (Hb & _ & m & Hm & Hids).
  - done.
  - exact Hs.
  - split; vm_compute; congruence.
  - split; vm_compute; congruence.
  - exists db, m. split; [rewrite Hb; vm_compute; reflexivity|]. split; [exact Hm|]. apply Hids. split; [|split; [|cbn; lia]].
    + exists fin_sample_spend. apply (list_elem_of_lookup_2 _ 2). reflexivity.
    + exists (mkOutLoc (mkTxLoc 1 1) 0), (mkOutput (mkAmount 3) [8]). split; [apply (bool_decide_unpack _); vm_compute; exact I|]. split; [reflexivity|by left].
Defined.
